(* ===== verification/_CoqProject ===== *)
-Q . S2P
Prelude.v
Outcome.v
Bytes.v
Config.v
CommitEvent.v
CommitRing.v
Machine.v
PhysMem.v
Devices.v
IoMap.v
DeviceFacts.v
Vaddr.v
Pattern.v
Isa.v
CStr.v
Difftest.v
CpuExec.v
Sdb.v
Monitor.v
CpuTrace.v
Riscv32.v
Riscv32Decode.v
Riscv32Safety.v
Riscv32Sem.v
Mips32.v
Loongarch32r.v
KString.v
KStdlib.v
KStdio.v
KInt64.v
RingBuffer.v
RtList.v
RtKernel.v
RtSched.v
RtObject.v
RtObjectFacts.v
RtTimer.v
RtThread.v
RtTimerStart.v
RtTimerFacts.v
RtSchedFacts.v
RtSchedRun.v
RtWorld.v
RtIpc.v
RtWorldOps.v
RtWait.v
RtWorldSched.v
RtBlock.v
RtSem.v
RtMutex.v
RtMutexFacts.v
RtThreadEnd.v
RtEvent.v
RtSemEventFacts.v
RtMailbox.v
RtMailFacts.v
RtMqueue.v
RtMqFacts.v
RtMempool.v
RtMempoolFacts.v
RtIpcDemo.v
RtKservice.v
RtKserviceFacts.v
SmallMem.v
SmallMemFacts.v
SmallMemOps.v
SmallMemApi.v
SmallMemClient.v
RtHeap.v
RtCtime.v
RtAvl.v
RtAvlFacts.v
RtAspace.v
RtPage.v
Riscv32Props.v
NemuProps.v
KlibProps.v
RtProps.v
RtKernelProps.v
RtIpcProps.v
