(* ===== verification/Prelude.v ===== *)
(** * Verification of the ai-osoc system software

    The repository holds a software stack for a teaching processor: NEMU, an
    emulator that runs guest programs for several instruction sets (src/nemu); the
    abstract machine with its C library klib (src/abstract-machine); RT-Thread, an
    operating system ported to the abstract machine (src/rt-thread-am); and the
    processor itself in Verilog (src/npc).  This library models the C of the
    emulator, of klib and of the kernel components listed below as executable
    functions and proves what makes them correct.

    ** How the code is modelled

    C integers are [Z] with the wrap-around of each assignment written out
    (Prelude).  A function that reads or writes state, may fail an assertion or may
    do something undefined is a computation [ST S A] (Outcome): it returns [Ok] with
    a result and a state, [Abort] for a failed [Assert], [panic] or [RT_ASSERT], or
    [Undef] for behaviour C leaves undefined, such as an access outside an array.
    [respects] (what a computation keeps), [safe] (never [Undef], and a predicate is kept) and [wp] are the three
    judgments about computations.
    Memory is bytes at addresses ([harray], Bytes); multi-byte accesses are
    little-endian, as on the hosts the code casts pointers on.

    ** Parts and files

    NEMU:
    - CommitEvent, CommitRing: include/debug/commit_event.h and the ring of the last
      64 commit events of utils/state.c.
    - Config, Machine: the Kconfig constants as a class [Config], and the record
      [nemu] of the emulator's global state: guest CPU, memory, devices, I/O maps,
      run state, event ring, reference processor, breakpoints, output.
    - PhysMem, Devices, IoMap, Vaddr: memory/paddr.c, device/*.c, device/io/*.c,
      memory/vaddr.c.  A guest access goes through the guard [vaddr_access_ok], the
      region table and then the memory array or the callback of the I/O map.
      DeviceFacts has the lemmas on the key queue, MMIO replay and the maps.
    - Pattern, Isa: the instruction patterns of include/cpu/decode.h, and the class
      [Isa] of what a guest provides to the rest of the emulator.
    - Riscv32, Mips32, Loongarch32r: isa/*/inst.c, init.c, system/intr.c: the decode
      tables and bodies, reset and built-in images.  Riscv32Decode, Riscv32Safety,
      Riscv32Sem: encoding of instructions, invariant, meaning of each group of
      instructions, and the instance of the interface [IsaLaws].
    - CpuExec, Difftest, Sdb, Monitor, CStr: cpu/cpu-exec.c, cpu/difftest/*.c,
      monitor/sdb/sdb.c, monitor/monitor.c, and the string functions of the host they
      call.  CpuTrace relates a run of [cpu_exec] to the chain of single
      instructions for any guest that satisfies [IsaLaws], and has the relations
      ([GuestRel]) that the laws are proved with.

    klib: KString, KStdlib, KStdio, KInt64 (string.c, ctype.c and stdlib.c, stdio.c,
    int64.c).

    RT-Thread:
    - RingBuffer: components/drivers/ipc/ringbuffer.c.
    - SmallMem: src/mem.c on the bytes of the heap.  SmallMemFacts represents a heap as
      a list of blocks, SmallMemOps proves what each operation does to the list
      and has initialisation and the invariant [smem_repr], SmallMemApi the
      operations in terms of the used blocks, SmallMemClient the specification a
      caller programs against and the refinement.
    - RtKservice, RtKserviceFacts: src/kservice.c, the memory and string functions, the
      formatted output and the console.  RtHeap: its heap entry points on SmallMem, and what
      their callers get in terms of the allocator's specification.
    - RtCtime: components/libc/compilers/common/ctime.c, the conversions between seconds
      and dates, against the Gregorian calendar.
    - RtList: the doubly linked lists of include/rtservice.h over any set of nodes.  A
      store of nodes that holds separate closed lists is [rings]; every operation is a
      change of these lists.
    - RtKernel: the state that the following files share, and __rt_ffs.
    - RtObject, RtObjectFacts: src/object.c and the registry of names it keeps.
    - RtSched: src/scheduler_up.c.  RtSchedFacts has the bit tables and the
      invariant [sched_inv] of queues, bits and thread states, RtSchedRun
      rt_schedule and the invariant [sys_inv] of a system that runs.
    - RtThread, RtTimer, RtTimerStart: src/thread.c, the queue of dead threads
      of src/idle.c, src/timer.c and src/clock.c.  Timers are stopped by threads and
      resume a thread, so the file of timers is split around that of threads.
      RtTimerFacts has the sorted list of timers ([timers_inv]) and rt_timer_check.  RtThreadEnd has the end of a thread, which drops its mutexes.
    - RtIpc, RtSem, RtMutex, RtEvent, RtMailbox, RtMqueue: src/ipc.c, the lists of waiting
      threads and the five kinds of objects.  A function that waits is split where it
      calls rt_schedule: the first part returns [None] when the thread waits, and the
      second ([..._return]) is what the thread does when it runs again.
    - RtWorld: the description [world] of a system that runs (ready queues, lists of
      waiting threads, timers, other lists) and its relation [winv] to the kernel state;
      [runs k s c x]: the thread [c] runs.  RtWorldOps, RtWait, RtWorldSched, RtBlock
      have what each step does to the description: stopping a timer, joining and leaving
      a list, rescheduling, waiting, waking, changing a priority; RtWorldSched also
      decides [runs] for a given state.
    - RtMempool: src/mempool.c, pools of blocks.
    - RtAvl: components/utilities/libadt/avl.c, trees of nodes with parent pointers, as
      updates of a map from addresses to nodes.  RtAvlFacts has the same operations on an
      inductive tree and shows that the code does them to the nodes in memory ([rep]).
    - RtAspace: components/mm/avl_adpt.c and of mm_aspace.c the checks of a request, the
      search for a free range and _varea_install; the description of an address space is
      [aspace_ok].
    - RtPage: components/mm/mm_page.c, the buddy allocator of pages.  The invariant [pg_ok]
      relates the records of pages and the lists of free blocks to the allocated blocks.
    - RtSemEventFacts, RtMutexFacts, RtMailFacts, RtMqFacts, RtMempoolFacts: each kind of
      object on top of this; RtIpcDemo is a system with one object of each kind, started by the
      functions of the kernel, on which the theorems are evaluated.

    ** What the theorems show

    Riscv32Props: decoding of every encoded instruction and uniqueness of the match;
    arithmetic against the RISC-V manual over mathematical integers; control
    transfer, loads and stores, faults and CSRs; for any fetched word no access
    outside the register file, the memory arrays and the space of the devices, no division
    that C leaves undefined, and the register invariant.  NemuProps: a run is a chain of guest
    instructions with the recorded events, the instruction limit, the exported
    reference functions, pattern decoding; further theorems there are on
    the key queue, built-in images, memory framing, address translation, MMIO windows, event comparison
    and breakpoints.  KlibProps: memmove and strcmp against lists,
    print/parse round trip, agreement of the print functions, exact 64-bit division
    disjoint blocks of malloc.  RtProps: the ring buffer refines a
    bounded queue of bytes; the allocator refines a map from pointers to contents,
    its search is first fit, blocks never overlap, double frees are caught, and an aligned
    block is freed through the word in front of it; the memory functions of the kernel that
    work on words do what loops over bytes do, the search for a text finds its first
    occurrence, and formatted output is a text that does not depend on the buffer, with the
    layout of numbers given by [RtKserviceFacts.number_text]; an AVL tree stays balanced and
    in order when nodes are linked and removed; areas of an address space are found by
    address, and a new one gets an aligned range that overlaps none; blocks of pages are
    handed out aligned and apart, counted, and merged with their buddies when they come back.
    RtKernelProps: rt_schedule runs the most urgent thread and loses none; repeated
    yields reach two threads only; a timer is inserted in the order of deadlines, and the
    check of timers runs what is due and returns; an object is found by its name after
    its initialisation.  RtIpcProps: semaphores count and hand over, mailboxes and message
    queues refine bounded queues, an event serves the waiting threads in their order, a
    mutex has one owner, which inherits the priority of the threads that wait for it and
    gives it back, a block of a pool is never handed out twice; a waiting thread joins the list at its place, and the most urgent
    thread runs.
    Deviations from intended behaviour are theorems or lemmas too:
    [Riscv32Props.rv32_load_top], [KlibProps.signed_field_pads_too_much],
    [KStdlib.rand_forgets], [KStdlib.malloc_wraps], [RtProps.ringbuffer_small_pool],
    [RtProps.smem_huge_request], [RtKernelProps.rt_yield_starves],
    [RtTimerFacts.zero_period_loops], [RtObjectFacts.custom_not_registered],
    [RtKserviceFacts.rt_kprintf_cut], [RtProps.rt_width_cuts_string], [RtProps.rt_calloc_wraps],
    [RtIpcProps.rt_mutex_take_null_owner], [RtIpcProps.rt_mutex_take_resumed],
    [RtProps.rt_malloc_align_wraps], [RtProps.timegm_year_overflows],
    [RtAspace.find_free_occupied], [RtAspace.find_free_inside], [RtAspace.search_exceed_far],
    [RtPage.pages_alloc_bounds].

    ** Fuel and bounds

    Loops over an array or a number recurse on it.  [CpuExec.repeat_while] counts the
    instruction budget down as a binary number, so no fuel is needed and a run of any
    length is covered.  The remaining loops carry fuel that is proved sufficient: the
    search for a free block takes at most one step for each header that fits into the
    heap ([SmallMemOps.alloc_run], [SmallMemOps.next_free_run]), a conversion of
    [printf] consumes a character of the format ([KStdio.backend_loop_fuel]), tokens
    are shorter than the line ([CStr.tokens_step]), a walk along a linked list takes
    fewer steps than there are nodes ([RtList.ring_size]), and rt_timer_check one round
    more than there are timers ([RtTimerFacts.timer_check_run]); with a periodic timer of
    0 ticks no fuel is enough.  The loops along an AVL tree take at most one step for each
    node ([RtAvlFacts.avl_insert], [RtAvlFacts.avl_remove], [RtAvlFacts.avl_walk]), and
    those of the page allocator one for each order of blocks ([RtPage.free_loop_run],
    [RtPage.find_level_run], [RtPage.split_loop_run]).  The walk along the owners of mutexes takes any fuel when
    the owner does not wait for a mutex itself, which is what the theorems assume of it.

    ** Not modelled

    The x86 guest is a skeleton in the source.  Host services (SDL, files, clocks,
    readline, getopt, dlopen) are parameters or inputs.  The disassembler, logging
    and build tools are host utilities.  The back ends of the abstract machine are
    inline assembly and device registers.  Of RT-Thread, the
    file systems, network and driver components are not modelled; of the kernel,
    stacks and their contents, hooks, signals, light-weight processes and the scheduler
    of several processors.  An interrupt occurs between two operations, never inside one,
    as the code disables interrupts; mapping and page faults of an address space, and
    the page allocator before the page table is loaded, work on the page table of the
    processor and are left out; copying a message into a queue, which the code does
    with interrupts enabled, is one step.  [rt_smem_detach] and the creation and destruction of ring buffers change
    kernel object lists or the system heap and are left out.  The processor in src/npc is
    not C. *)
From Stdlib Require Export ZArith Lia Bool.
From Stdlib Require Import Btauto.
From stdpp Require Export base gmap list strings.
From coqutil Require Export Datatypes.RecordSetters.
Export OCamlLikeNotations.
#[global] Open Scope Z_scope.

(** ** Fixed-width C integers

    A C integer is a [Z]; an unsigned one of width [w] lies in [0, 2^w), a
    signed one in [-2^(w-1), 2^(w-1)).  Assignments and unsigned arithmetic
    wrap, written out with the conversions below. *)

Definition wrap (w x : Z) : Z := x mod 2 ^ w.
Abbreviation u8 := (wrap 8).
Abbreviation u16 := (wrap 16).
Abbreviation u32 := (wrap 32).
Abbreviation u64 := (wrap 64).

(** Two's-complement reading of the low [w] bits. *)
Definition sext (w x : Z) : Z :=
  let y := x mod 2 ^ w in if y <? 2 ^ (w - 1) then y else y - 2 ^ w.
Abbreviation s8 := (sext 8).
Abbreviation s16 := (sext 16).
Abbreviation s32 := (sext 32).
Abbreviation s64 := (sext 64).

Definition b2z (b : bool) : Z := if b then 1 else 0.

(** Ranges of the C types. *)
Definition in_u (w x : Z) : Prop := 0 <= x < 2 ^ w.
Definition in_s (w x : Z) : Prop := - 2 ^ (w - 1) <= x < 2 ^ (w - 1).

#[global] Instance in_u_dec w x : Decision (in_u w x).
Proof. unfold in_u. apply _. Defined.
#[global] Instance in_s_dec w x : Decision (in_s w x).
Proof. unfold in_s. apply _. Defined.

Create HintDb word discriminated.

Lemma pow2_pos w : 0 <= w -> 0 < 2 ^ w.
Proof. intros. apply Z.pow_pos_nonneg; lia. Qed.

Lemma wrap_range w x : 0 <= w -> in_u w (wrap w x).
Proof. intros. apply Z.mod_pos_bound, pow2_pos, H. Qed.

Lemma wrap_small w x : in_u w x -> wrap w x = x.
Proof. apply Z.mod_small. Qed.

Lemma wrap_wrap w x : wrap w (wrap w x) = wrap w x.
Proof. unfold wrap. apply Zmod_mod. Qed.

Lemma wrap_wrap_le w v x : 0 <= w <= v -> wrap w (wrap v x) = wrap w x.
Proof.
  intros H. unfold wrap. rewrite <- !Z.land_ones by lia.
  rewrite <- Z.land_assoc, (Z.land_comm (Z.ones v)), Z.land_ones by lia.
  f_equal. apply Z.mod_small. rewrite Z.ones_equiv.
  pose proof (Z.pow_le_mono_r 2 w v). pose proof (pow2_pos w). lia.
Qed.

Lemma wrap_add_l w x y : wrap w (wrap w x + y) = wrap w (x + y).
Proof. unfold wrap. apply Zplus_mod_idemp_l. Qed.
Lemma wrap_add_r w x y : wrap w (x + wrap w y) = wrap w (x + y).
Proof. unfold wrap. apply Zplus_mod_idemp_r. Qed.
Lemma wrap_sub_l w x y : wrap w (wrap w x - y) = wrap w (x - y).
Proof. unfold wrap. apply Zminus_mod_idemp_l. Qed.
Lemma wrap_sub_r w x y : wrap w (x - wrap w y) = wrap w (x - y).
Proof. unfold wrap. apply Zminus_mod_idemp_r. Qed.
Lemma wrap_mul_l w x y : wrap w (wrap w x * y) = wrap w (x * y).
Proof. unfold wrap. apply Zmult_mod_idemp_l. Qed.
Lemma wrap_mul_r w x y : wrap w (x * wrap w y) = wrap w (x * y).
Proof. unfold wrap. apply Zmult_mod_idemp_r. Qed.

Lemma wrap_add_mult w x k : 0 <= w -> wrap w (x + k * 2 ^ w) = wrap w x.
Proof. intros. unfold wrap. apply Z_mod_plus_full. Qed.

Lemma sext_range w x : 0 < w -> in_s w (sext w x).
Proof.
  intros Hw. unfold sext, in_s.
  pose proof (Z.mod_pos_bound x (2 ^ w) (pow2_pos w ltac:(lia))).
  assert (2 ^ w = 2 * 2 ^ (w - 1)).
  { rewrite <- Z.pow_succ_r by lia. f_equal. lia. }
  case Z.ltb_spec; lia.
Qed.

Lemma sext_small w x : 0 < w -> in_s w x -> sext w x = x.
Proof.
  intros Hw [Hl Hh]. unfold sext.
  assert (2 ^ w = 2 * 2 ^ (w - 1)) as E.
  { rewrite <- Z.pow_succ_r by lia. f_equal. lia. }
  destruct (Z.leb_spec 0 x).
  - rewrite Z.mod_small by lia. case Z.ltb_spec; lia.
  - rewrite <- (Z_mod_plus_full x 1), Z.mod_small by lia.
    case Z.ltb_spec; lia.
Qed.

Lemma wrap_sext w x : 0 < w -> wrap w (sext w x) = wrap w x.
Proof.
  intros Hw. unfold sext, wrap. case Z.ltb_spec; intros _.
  - apply Zmod_mod.
  - replace (x mod 2 ^ w - 2 ^ w) with (x mod 2 ^ w + (-1) * 2 ^ w) by lia.
    rewrite Z_mod_plus_full. apply Zmod_mod.
Qed.

Lemma sext_wrap w v x : 0 < w <= v -> sext w (wrap v x) = sext w x.
Proof.
  intros. unfold sext. change (wrap v x mod 2 ^ w) with (wrap w (wrap v x)).
  rewrite wrap_wrap_le by lia. done.
Qed.

Lemma sext_wrap_same w x : 0 < w -> sext w (wrap w x) = sext w x.
Proof. intros. apply sext_wrap. lia. Qed.

(** An unsigned word read as a signed one, by its top bit. *)
Lemma sext_unsigned w x :
  0 < w -> in_u w x ->
  sext w x = if x <? 2 ^ (w - 1) then x else x - 2 ^ w.
Proof. intros Hw Hx. unfold sext. rewrite Z.mod_small by apply Hx. done. Qed.

Lemma wrap_sext_inj w x y :
  0 < w -> in_s w x -> in_s w y -> wrap w x = wrap w y -> x = y.
Proof.
  intros Hw Hx Hy E. rewrite <- (sext_small w x), <- (sext_small w y) by done.
  rewrite <- (sext_wrap_same w x), <- (sext_wrap_same w y) by done. congruence.
Qed.

#[export] Hint Resolve wrap_range sext_range : word.
#[export] Hint Extern 1 (0 <= _) => lia : word.
#[export] Hint Extern 1 (0 < _) => lia : word.

(** Closes the range goals of words with known width. *)
Ltac word_range :=
  lazymatch goal with
  | |- in_u _ (wrap _ _) => apply wrap_range; lia
  | |- in_u _ _ => unfold in_u in *; cbn in *; lia
  | |- in_s _ _ => unfold in_s in *; cbn in *; lia
  | |- _ => unfold in_u, in_s in *; cbn in *; lia
  end.

(** Replaces powers with a symbolic exponent by variables, for [lia]. *)
Ltac pow_gen :=
  repeat match goal with
  | |- context [2 ^ ?e] => lazymatch isZcst e with true => fail | _ => generalize dependent (2 ^ e); intros end
  | H : context [2 ^ ?e] |- _ => lazymatch isZcst e with true => fail | _ => generalize dependent (2 ^ e); intros end
  end.

(** Arithmetic on words of a concrete width, by definition of the wrap. *)
Ltac word_lia := unfold wrap, sext, in_u, in_s in *; Z.to_euclidean_division_equations; lia.

(** ** Bit fields *)

(** Bits [lo, lo+n) of [x]. *)
Definition field (x lo n : Z) : Z := (x / 2 ^ lo) mod 2 ^ n.

Lemma field_range x lo n : 0 <= n -> in_u n (field x lo n).
Proof. intros. apply Z.mod_pos_bound, pow2_pos. lia. Qed.

Lemma field_land x lo n :
  0 <= lo -> 0 <= n -> Z.land (Z.shiftr x lo) (Z.ones n) = field x lo n.
Proof. intros. rewrite Z.land_ones, Z.shiftr_div_pow2 by lia. done. Qed.

Lemma land_mask_shifted x lo n :
  0 <= lo -> 0 <= n ->
  Z.land x (Z.ones n * 2 ^ lo) = field x lo n * 2 ^ lo.
Proof.
  intros Hlo Hn. unfold field.
  rewrite <- !Z.shiftl_mul_pow2, <- Z.shiftr_div_pow2, <- Z.land_ones by lia.
  apply Z.bits_inj'. intros i Hi.
  rewrite Z.land_spec, !Z.shiftl_spec by lia.
  destruct (Z.ltb_spec (i - lo) 0).
  - rewrite !(Z.testbit_neg_r _ (i - lo)) by lia. btauto.
  - rewrite Z.land_spec, Z.shiftr_spec by lia. f_equal. f_equal. lia.
Qed.

Lemma lor_add_shifted a b k : 0 <= k -> in_u k b -> Z.lor (a * 2 ^ k) b = a * 2 ^ k + b.
Proof.
  intros Hk Hb. rewrite <- Z.add_lor_land.
  replace (Z.land (a * 2 ^ k) b) with 0; [lia|].
  symmetry. rewrite <- Z.shiftl_mul_pow2 by lia.
  apply Z.bits_inj'. intros i Hi. rewrite Z.land_spec, Z.shiftl_spec, Z.bits_0 by lia.
  destruct (Z.ltb_spec i k).
  - rewrite (Z.testbit_neg_r _ (i - k)) by lia. done.
  - rewrite <- (Z.mod_small b (2 ^ k)) by done.
    rewrite Z.mod_pow2_bits_high by lia. btauto.
Qed.

Lemma lor_add_low a b k : 0 <= k -> in_u k b -> Z.lor b (a * 2 ^ k) = b + a * 2 ^ k.
Proof. intros. rewrite Z.lor_comm, lor_add_shifted by done. lia. Qed.

(** Concatenation of a high part and a low part is injective. *)
Lemma concat_inj a b a' b' k :
  0 <= k -> in_u k b -> in_u k b' -> a * 2 ^ k + b = a' * 2 ^ k + b' -> a = a' /\ b = b'.
Proof.
  intros Hk Hb Hb' E. pose proof (pow2_pos k Hk).
  assert (a = a') as ->; [|lia].
  apply (f_equal (fun z => z / 2 ^ k)) in E.
  rewrite !Z.div_add_l, !Z.div_small in E by (done || lia). lia.
Qed.

(** A word is the concatenation of its fields. *)
Lemma field_split x lo n :
  0 <= lo -> 0 <= n -> x / 2 ^ lo = (x / 2 ^ (lo + n)) * 2 ^ n + field x lo n.
Proof.
  intros. unfold field. rewrite Z.pow_add_r by lia.
  rewrite <- Z.div_div by (pose proof (pow2_pos lo); pose proof (pow2_pos n); lia).
  pose proof (Z.div_mod (x / 2 ^ lo) (2 ^ n)). pose proof (pow2_pos n). lia.
Qed.

(** ** Bit-level equality

    [bitwise] proves an equation between words built from the logical and
    shift operators with known shift amounts: it compares bit [i], rewrites
    every [testbit] and splits on the position of [i]. *)

Lemma testbit_wrap w x i : 0 <= w -> 0 <= i -> Z.testbit (wrap w x) i = (i <? w) && Z.testbit x i.
Proof.
  intros. unfold wrap. case Z.ltb_spec; intros.
  - rewrite Z.mod_pow2_bits_low by lia. done.
  - rewrite Z.mod_pow2_bits_high by lia. done.
Qed.

Lemma testbit_high w x i : in_u w x -> 0 <= w <= i -> Z.testbit x i = false.
Proof. intros Hx Hi. rewrite <- (Z.mod_small x (2 ^ w)) by done. apply Z.mod_pow2_bits_high. lia. Qed.

Lemma testbit_shiftl x k i : 0 <= i -> Z.testbit (Z.shiftl x k) i = Z.testbit x (i - k).
Proof. apply Z.shiftl_spec. Qed.

Lemma testbit_neg x i : i < 0 -> Z.testbit x i = false.
Proof. apply Z.testbit_neg_r. Qed.

Lemma testbit_ones n i : 0 <= n -> 0 <= i -> Z.testbit (Z.ones n) i = (i <? n).
Proof.
  intros. rewrite Z.testbit_ones_nonneg by lia. reflexivity.
Qed.

Create Rewrite HintDb testbit.
#[export] Hint Rewrite Z.land_spec Z.lor_spec Z.lxor_spec Z.testbit_0_l : testbit.
#[export] Hint Rewrite testbit_wrap Z.lnot_spec Z.shiftr_spec testbit_shiftl testbit_ones
  using lia : testbit.

Ltac bit_cases :=
  repeat match goal with
  | |- context [?a <? ?b] => case (Z.ltb_spec a b); intros
  end.

Ltac bit_trim :=
  repeat match goal with
  | |- context [Z.testbit ?x ?i] => rewrite (testbit_neg x i) by lia
  | H : in_u ?w ?x |- context [Z.testbit ?x ?i] => rewrite (testbit_high w x i H) by lia
  end.

Ltac bit_align :=
  repeat match goal with
  | |- context [Z.testbit ?x ?i] =>
      match goal with
      | |- context [Z.testbit x ?j] =>
          lazymatch i with j => fail | _ => idtac end;
          replace j with i by lia
      end
  end.

Ltac bitwise :=
  apply Z.bits_inj'; intros ?i ?Hi;
  autorewrite with testbit;
  bit_cases; try (exfalso; lia); bit_trim; bit_align;
  rewrite ?andb_false_r, ?andb_true_r, ?andb_false_l, ?andb_true_l, ?orb_false_r, ?orb_false_l;
  try reflexivity; try btauto.

Lemma land_in_u w x y : 0 <= w -> in_u w x -> in_u w (Z.land x y).
Proof.
  intros Hw Hx. replace (Z.land x y) with (wrap w (Z.land x y)); [by apply wrap_range|].
  bitwise.
Qed.

Lemma lor_in_u w x y : 0 <= w -> in_u w x -> in_u w y -> in_u w (Z.lor x y).
Proof.
  intros Hw Hx Hy. replace (Z.lor x y) with (wrap w (Z.lor x y)); [by apply wrap_range|].
  bitwise.
Qed.

Lemma lxor_in_u w x y : 0 <= w -> in_u w x -> in_u w y -> in_u w (Z.lxor x y).
Proof.
  intros Hw Hx Hy. replace (Z.lxor x y) with (wrap w (Z.lxor x y)); [by apply wrap_range|].
  bitwise.
Qed.

Lemma shiftr_in_u w x k : 0 <= w -> 0 <= k -> in_u w x -> in_u w (Z.shiftr x k).
Proof.
  intros Hw Hk Hx. replace (Z.shiftr x k) with (wrap w (Z.shiftr x k)); [by apply wrap_range|].
  bitwise.
Qed.

#[export] Hint Resolve land_in_u lor_in_u lxor_in_u shiftr_in_u : word.

(** ** Lists *)

(** In a list without duplicates an element has one place. *)
Lemma nodup_split {A} (a b a' b' : list A) (x : A) : NoDup (a ++ x :: b) -> a ++ x :: b = a' ++ x :: b' -> a = a' /\ b = b'.
Proof.
  revert a'. induction a as [|y a IH]; intros [|y' a'] Hnd E; cbn [app] in *; injection E as; subst; apply NoDup_cons in Hnd as (Hn & Hnd); try done; set_solver.
Qed.

(** ** Arrays indexed by a C integer

    [a[i]] and [a[i] = v] of a fixed-length array; [None] is an index outside
    it, which the code must exclude. *)

Definition zlookup {A} (l : list A) (i : Z) : option A :=
  if i <? 0 then None else l !! Z.to_nat i.
Definition zinsert {A} (l : list A) (i : Z) (v : A) : option (list A) :=
  if (0 <=? i) && (i <? Z.of_nat (length l)) then Some (<[Z.to_nat i := v]> l) else None.

Section ZArrays.
Context {A : Type}.
Implicit Types l : list A.

Lemma zlookup_some l i v :
  zlookup l i = Some v <-> 0 <= i /\ l !! Z.to_nat i = Some v.
Proof. unfold zlookup. case Z.ltb_spec; split; [done|lia|done|intros [_ ?]; done]. Qed.

Lemma zlookup_is_some l i : 0 <= i < Z.of_nat (length l) -> exists v, zlookup l i = Some v.
Proof.
  intros Hi. destruct (lookup_lt_is_Some_2 l (Z.to_nat i)) as [v Hv]; [lia|].
  exists v. apply zlookup_some. auto with lia.
Qed.

Lemma zlookup_range l i v : zlookup l i = Some v -> 0 <= i < Z.of_nat (length l).
Proof. intros [Hi H]%zlookup_some. apply lookup_lt_Some in H. lia. Qed.

Lemma zinsert_is_some l i v : 0 <= i < Z.of_nat (length l) -> zinsert l i v = Some (<[Z.to_nat i := v]> l).
Proof.
  intros Hi. unfold zinsert. rewrite (proj2 (Z.leb_le 0 i)), (proj2 (Z.ltb_lt i _)) by lia. done.
Qed.

Lemma zinsert_some l i v l' :
  zinsert l i v = Some l' -> 0 <= i < Z.of_nat (length l) /\ l' = <[Z.to_nat i := v]> l.
Proof.
  unfold zinsert. destruct (_ && _) eqn:E; [|done]. rewrite andb_true_iff, Z.leb_le, Z.ltb_lt in E.
  by intros [= <-].
Qed.

Lemma zinsert_length l i v l' : zinsert l i v = Some l' -> length l' = length l.
Proof. intros [_ ->]%zinsert_some. apply length_insert. Qed.

Lemma zlookup_zinsert l i v l' j :
  zinsert l i v = Some l' -> zlookup l' j = if decide (i = j) then Some v else zlookup l j.
Proof.
  intros [Hi ->]%zinsert_some. unfold zlookup. case_decide as E.
  - subst. destruct (Z.ltb_spec j 0); [lia|]. apply list_lookup_insert_eq. lia.
  - destruct (Z.ltb_spec j 0); [done|]. apply list_lookup_insert_ne. lia.
Qed.

Lemma zinsert_Forall (P : A -> Prop) l i v l' :
  zinsert l i v = Some l' -> P v -> Forall P l -> Forall P l'.
Proof. intros [_ ->]%zinsert_some Hv Hl. by apply Forall_insert. Qed.
End ZArrays.

(** ** The macros of nemu/include/macro.h on unsigned operands *)

Definition BITMASK (bits : Z) : Z := u64 (u64 (Z.shiftl 1 bits) - 1).
Definition BITS (x hi lo : Z) : Z := Z.land (Z.shiftr x lo) (BITMASK (hi - lo + 1)).
Definition SEXT (x len : Z) : Z := u64 (sext len x).

Lemma BITMASK_ones n : 0 <= n < 64 -> BITMASK n = Z.ones n.
Proof.
  intros Hn. unfold BITMASK. rewrite Z.shiftl_1_l, Z.ones_equiv.
  assert (2 ^ n <= 2 ^ 63) by (apply Z.pow_le_mono_r; lia). pose proof (pow2_pos n).
  rewrite !(wrap_small 64) by (unfold in_u; rewrite ?(wrap_small 64) by (unfold in_u; lia); lia).
  lia.
Qed.

Lemma BITS_field x hi lo :
  0 <= lo <= hi -> hi - lo < 63 -> BITS x hi lo = field x lo (hi - lo + 1).
Proof. intros. unfold BITS. rewrite BITMASK_ones, field_land by lia. done. Qed.
