(* ===== verification/Outcome.v ===== *)
(** * Stateful, fallible computations

    C functions that touch global state are state transformers; a failed
    [assert]/[Assert]/[panic] ends the process and is [Abort]; behaviour the
    C standard leaves undefined (an out-of-bounds array access) is [Undef],
    kept apart so that a theorem can exclude it.  [ST S A] is the monad of such
    computations; [respects R m] says every successful run of [m] relates the
    initial and the final state by the preorder [R], which is how frame
    conditions and invariants of operations are stated. *)
From S2P Require Import Prelude.

Inductive outcome (A : Type) : Type :=
| Ok (a : A)
| Abort (why : string)
| Undef (why : string).
Arguments Ok {A} _.
Arguments Abort {A} _.
Arguments Undef {A} _.

Definition is_ok {A} (o : outcome A) : bool :=
  match o with Ok _ => true | _ => false end.

Definition ST (S A : Type) : Type := S -> outcome (A * S).

#[export] Instance st_ret S : MRet (ST S) := fun A a s => Ok (a, s).
#[export] Instance st_bind S : MBind (ST S) := fun A B k m s =>
  match m s with
  | Ok (a, s') => k a s'
  | Abort w => Abort w
  | Undef w => Undef w
  end.
#[export] Instance outcome_ret : MRet outcome := @Ok.
#[export] Instance outcome_bind : MBind outcome := fun A B k m =>
  match m with
  | Ok a => k a
  | Abort w => Abort w
  | Undef w => Undef w
  end.

Section Operations.
Context {S : Type}.

Definition get : ST S S := fun s => Ok (s, s).
Definition gets {A} (f : S -> A) : ST S A := fun s => Ok (f s, s).
Definition modify (f : S -> S) : ST S unit := fun s => Ok (tt, f s).
Definition abort {A} (why : string) : ST S A := fun _ => Abort why.
Definition undef {A} (why : string) : ST S A := fun _ => Undef why.
(** [assert(b)] and [Assert(b, msg)]. *)
Definition assert_that (b : bool) (why : string) : ST S unit :=
  if b then mret tt else abort why.
Definition lift {A} (o : outcome A) : ST S A := fun s =>
  match o with Ok a => Ok (a, s) | Abort w => Abort w | Undef w => Undef w end.
Definition when (b : bool) (m : ST S unit) : ST S unit :=
  if b then m else mret tt.
(** A loop over a list of inputs, left to right. *)
Fixpoint iter_list {A} (f : A -> ST S unit) (l : list A) : ST S unit :=
  match l with
  | [] => mret tt
  | a :: l' => f a ;; iter_list f l'
  end.
End Operations.

(** ** Inversion of successful runs *)

Section Laws.
Context {S : Type}.

Lemma bind_ok {A B} (m : ST S A) (k : A -> ST S B) s b s' :
  (m ≫= k) s = Ok (b, s') <->
  exists a s1, m s = Ok (a, s1) /\ k a s1 = Ok (b, s').
Proof.
  unfold mbind, st_bind. split.
  - destruct (m s) as [[a s1]| |] eqn:E; try done. eauto.
  - intros (a & s1 & -> & Hk). done.
Qed.

Lemma bind_run {A B} (m : ST S A) (k : A -> ST S B) s a s1 :
  m s = Ok (a, s1) -> (m ≫= k) s = k a s1.
Proof. unfold mbind, st_bind. intros ->. done. Qed.

Lemma ret_ok {A} (a b : A) (s s' : S) :
  mret (M := ST S) a s = Ok (b, s') <-> b = a /\ s' = s.
Proof. unfold mret, st_ret. split; [intros [=]|intros [-> ->]]; done. Qed.

Lemma gets_ok {A} (f : S -> A) s a s' :
  gets f s = Ok (a, s') <-> a = f s /\ s' = s.
Proof. unfold gets. split; [intros [=]|intros [-> ->]]; done. Qed.

Lemma modify_ok (f : S -> S) s u s' :
  modify f s = Ok (u, s') <-> s' = f s.
Proof. unfold modify. destruct u. split; [intros [=]|intros ->]; done. Qed.

Lemma assert_ok b why (s : S) u s' :
  assert_that b why s = Ok (u, s') <-> b = true /\ s' = s.
Proof.
  destruct u, b; unfold assert_that, mret, st_ret; cbn.
  - split; [intros [=]; done | intros [_ ->]; done].
  - split; [done | intros [? _]; done].
Qed.

Lemma lift_ok {A} (o : outcome A) (s : S) a s' :
  lift o s = Ok (a, s') <-> o = Ok a /\ s' = s.
Proof.
  destruct o; unfold lift; split; first [intros [= -> ->] | intros [H ->]]; congruence || done.
Qed.
End Laws.

(** Turns a successful run of a computation into the runs of its parts. *)
Ltac run_inv :=
  repeat match goal with
  | H : (_ ≫= _) _ = Ok (_, _) |- _ =>
      apply bind_ok in H; destruct H as (?a & ?s & ?Hrun & H)
  | H : mret _ _ = Ok (_, _) |- _ => apply ret_ok in H; destruct H; subst
  | H : gets _ _ = Ok (_, _) |- _ => apply gets_ok in H; destruct H; subst
  | H : modify _ _ = Ok (_, _) |- _ => apply modify_ok in H; subst
  | H : assert_that _ _ _ = Ok (_, _) |- _ => apply assert_ok in H; destruct H; subst
  | H : lift _ _ = Ok (_, _) |- _ => apply lift_ok in H; destruct H; subst
  | H : abort _ _ = Ok _ |- _ => discriminate H
  | H : undef _ _ = Ok _ |- _ => discriminate H
  | H : Ok _ = Ok _ |- _ => injection H; clear H; intros; subst
  | H : Abort _ = Ok _ |- _ => discriminate H
  | H : Undef _ = Ok _ |- _ => discriminate H
  end.

(** Runs the monadic structure of a computation applied to a state, leaving the
    record updates folded. *)
Ltac run_simpl :=
  cbv beta iota zeta delta
    [mbind st_bind outcome_bind mret st_ret outcome_ret get gets modify lift abort undef
     assert_that when fst snd].
Tactic Notation "run_simpl" "in" hyp(H) :=
  cbv beta iota zeta delta
    [mbind st_bind outcome_bind mret st_ret outcome_ret get gets modify lift abort undef
     assert_that when fst snd] in H.

(** ** Relational invariants *)

Definition respects {S A} (R : relation S) (m : ST S A) : Prop :=
  forall s a s', m s = Ok (a, s') -> R s s'.

(** The preorder of an invariant. *)
Definition inv_rel {S} (P : S -> Prop) : relation S := fun s s' => P s -> P s'.

#[export] Instance inv_rel_preorder {S} (P : S -> Prop) : PreOrder (inv_rel P).
Proof. split; unfold inv_rel; [intros ? ?|intros ? ? ? ? ?]; auto. Qed.

(** The preorder that keeps the value of an observation. *)
Definition keeps {S B} (f : S -> B) : relation S := fun s s' => f s' = f s.

#[export] Instance keeps_preorder {S B} (f : S -> B) : PreOrder (keeps f).
Proof. split; unfold keeps; [intros ?|intros ? ? ? ? ?]; congruence. Qed.

Create HintDb respects discriminated.

Section Respects.
Context {S : Type} (R : relation S) `{!PreOrder R}.

Lemma respects_ret {A} (a : A) : respects R (mret a).
Proof. intros s ? s' H. run_inv. reflexivity. Qed.

Lemma respects_bind {A B} (m : ST S A) (k : A -> ST S B) :
  respects R m -> (forall a, respects R (k a)) -> respects R (m ≫= k).
Proof. intros Hm Hk s b s' H. run_inv. etransitivity; [eapply Hm|eapply Hk]; eauto. Qed.

Lemma respects_gets {A} (f : S -> A) : respects R (gets f).
Proof. intros s ? s' H. run_inv. reflexivity. Qed.

Lemma respects_assert b why : respects R (assert_that b why).
Proof. intros s ? s' H. run_inv. reflexivity. Qed.

Lemma respects_lift {A} (o : outcome A) : respects R (lift o).
Proof. intros s ? s' H. run_inv. reflexivity. Qed.

Lemma respects_abort {A} why : respects R (abort (A := A) why).
Proof. intros s ? s' H. run_inv. Qed.

Lemma respects_undef {A} why : respects R (undef (A := A) why).
Proof. intros s ? s' H. run_inv. Qed.

Lemma respects_if {A} (b : bool) (m n : ST S A) :
  respects R m -> respects R n -> respects R (if b then m else n).
Proof. by destruct b. Qed.

Lemma respects_when (b : bool) (m : ST S unit) :
  respects R m -> respects R (when b m).
Proof. intros. apply respects_if; [done|apply respects_ret]. Qed.

Lemma respects_modify (f : S -> S) : (forall s, R s (f s)) -> respects R (modify f).
Proof. intros Hf s u s' H. run_inv. apply Hf. Qed.

Lemma respects_iter {A} (f : A -> ST S unit) l :
  (forall a, respects R (f a)) -> respects R (iter_list f l).
Proof.
  intros Hf. induction l as [|a l IH]; cbn.
  - apply respects_ret.
  - apply respects_bind; [apply Hf|done].
Qed.
End Respects.

#[export] Hint Resolve respects_ret respects_gets respects_assert respects_lift
  respects_abort respects_undef : respects.

(** One syntax-directed pass over a computation; leaves the operations it does
    not know, tried against the hint database. *)
Ltac respects_step :=
  match goal with
  | |- respects _ (_ ≫= _) => apply respects_bind; [typeclasses eauto| |intros ?]
  | |- respects _ (mret _) => apply respects_ret; typeclasses eauto
  | |- respects _ (gets _) => apply respects_gets; typeclasses eauto
  | |- respects _ (assert_that _ _) => apply respects_assert; typeclasses eauto
  | |- respects _ (lift _) => apply respects_lift; typeclasses eauto
  | |- respects _ (abort _) => apply respects_abort; typeclasses eauto
  | |- respects _ (undef _) => apply respects_undef; typeclasses eauto
  | |- respects _ (when _ _) => apply respects_when; [typeclasses eauto|]
  | |- respects _ (iter_list _ _) => apply respects_iter; [typeclasses eauto|intros ?]
  | |- respects _ (modify _) => apply respects_modify; intros ?
  | |- respects _ (if _ then _ else _) => apply respects_if
  | |- respects _ (match ?x with _ => _ end) => destruct x
  | |- respects _ _ => solve [eauto 3 with respects]
  end.
Ltac respects_tac := repeat respects_step.

(** ** Weakest preconditions

    [wp m Q s]: [m] started in [s] reaches no undefined behaviour, and if it
    returns, [Q] holds of the value and the state. *)

Definition wp {S A} (m : ST S A) (Q : A -> S -> Prop) (s : S) : Prop :=
  match m s with Ok (a, s') => Q a s' | Abort _ => True | Undef _ => False end.

Section Wp.
Context {S : Type}.

Lemma wp_ret {A} (a : A) (Q : A -> S -> Prop) s : Q a s -> wp (mret a) Q s.
Proof. done. Qed.
Lemma wp_gets {A} (f : S -> A) Q s : Q (f s) s -> wp (gets f) Q s.
Proof. done. Qed.
Lemma wp_modify (f : S -> S) Q s : Q tt (f s) -> wp (modify f) Q s.
Proof. done. Qed.
Lemma wp_abort {A} why (Q : A -> S -> Prop) s : wp (abort why) Q s.
Proof. done. Qed.
Lemma wp_assert b why Q (s : S) : (b = true -> Q tt s) -> wp (assert_that b why) Q s.
Proof. destruct b; [|done]. intros HQ. by apply HQ. Qed.
Lemma wp_bind {A B} (m : ST S A) (k : A -> ST S B) Q s :
  wp m (fun a s' => wp (k a) Q s') s -> wp (m ≫= k) Q s.
Proof. unfold wp. unfold mbind, st_bind. by destruct (m s) as [[a s']| |]. Qed.
Lemma wp_mono {A} (m : ST S A) (Q Q' : A -> S -> Prop) s :
  wp m Q s -> (forall a s', Q a s' -> Q' a s') -> wp m Q' s.
Proof. unfold wp. destruct (m s) as [[a s']| |]; auto. Qed.
Lemma wp_run {A} (m : ST S A) (Q : A -> S -> Prop) s a s' : m s = Ok (a, s') -> Q a s' -> wp m Q s.
Proof. unfold wp. by intros ->. Qed.
Lemma wp_when (b : bool) (m : ST S unit) Q s :
  (b = true -> wp m Q s) -> (b = false -> Q tt s) -> wp (when b m) Q s.
Proof. destruct b; unfold when; intros H1 H2; [by apply H1|by apply H2]. Qed.
(** What every successful run satisfies may be added. *)
Lemma wp_respects {A} (m : ST S A) R Q s : respects R m -> wp m Q s -> wp m (fun a s' => Q a s' /\ R s s') s.
Proof. intros Hr. unfold wp. destruct (m s) as [[a s']| |] eqn:E; [|done|done]. intros HQ. split; [done|]. by eapply Hr. Qed.
Lemma wp_ok {A} (m : ST S A) Q s a s' : wp m Q s -> m s = Ok (a, s') -> Q a s'.
Proof. unfold wp. intros H E. by rewrite E in H. Qed.
End Wp.

(** Bind rule with the intermediate assertion given by a lemma. *)
Lemma wp_bind_with {S A B} (m : ST S A) (k : A -> ST S B) P Q s :
  wp m P s -> (forall a s', P a s' -> wp (k a) Q s') -> wp (m ≫= k) Q s.
Proof. intros Hm Hk. apply wp_bind. by eapply wp_mono. Qed.

(** ** Safety

    [safe P m]: from a state with [P], [m] reaches no undefined behaviour and keeps [P]. *)

Definition safe {S A} (P : S -> Prop) (m : ST S A) : Prop := forall s, P s -> wp m (fun _ s' => P s') s.

Create HintDb safe discriminated.

Section Safe.
Context {S : Type} (P : S -> Prop).

Lemma safe_ret {A} (a : A) : safe P (mret a).
Proof. by intros s Hs. Qed.
Lemma safe_gets {A} (f : S -> A) : safe P (gets f).
Proof. by intros s Hs. Qed.
Lemma safe_modify (f : S -> S) : (forall s, P s -> P (f s)) -> safe P (modify f).
Proof. intros Hf s. apply Hf. Qed.
Lemma safe_abort {A} why : safe P (abort (A := A) why).
Proof. by intros s Hs. Qed.
Lemma safe_assert b why : safe P (assert_that b why).
Proof. intros s Hs. by destruct b. Qed.
Lemma safe_bind {A B} (m : ST S A) (k : A -> ST S B) : safe P m -> (forall a, safe P (k a)) -> safe P (m ≫= k).
Proof. intros Hm Hk s Hs. eapply wp_bind_with; [by apply Hm|]. intros a s' Hs'. by apply Hk. Qed.
Lemma safe_if {A} (b : bool) (m n : ST S A) : safe P m -> safe P n -> safe P (if b then m else n).
Proof. by destruct b. Qed.
Lemma safe_when (b : bool) (m : ST S unit) : safe P m -> safe P (when b m).
Proof. intros Hm. destruct b; [done|]. apply safe_ret. Qed.
Lemma safe_lift {A} (o : outcome A) : (forall w, o <> Undef w) -> safe P (lift o).
Proof. intros Ho s Hs. unfold wp, lift. destruct o as [| |w]; [done..|]. by apply (Ho w). Qed.
Lemma safe_iter {A} (f : A -> ST S unit) l : (forall a, safe P (f a)) -> safe P (iter_list f l).
Proof. intros Hf. induction l; [apply safe_ret|]. cbn. apply safe_bind; auto. Qed.
End Safe.

#[export] Hint Resolve safe_ret safe_gets safe_abort safe_assert : safe.

Ltac safe_step :=
  match goal with
  | |- safe _ (_ ≫= _) => apply safe_bind; [|intros ?]
  | |- safe _ (when _ _) => apply safe_when
  | |- safe _ (iter_list _ _) => apply safe_iter; intros ?
  | |- safe _ (if _ then _ else _) => apply safe_if
  | |- safe _ (match ?x with _ => _ end) => destruct x
  | |- safe _ (modify _) => apply safe_modify; intros ? ?; assumption
  | |- safe _ _ => solve [eauto 3 with safe]
  end.
Ltac safe_tac := repeat safe_step.
