(* ===== verification/Bytes.v ===== *)
(** * Bytes, little-endian words and host arrays

    A byte is a [Z] in [0, 256).  [le_combine]/[le_split] convert between a
    list of bytes and a word, as a little-endian host does for the pointer casts
    to [uint16_t] and [uint32_t] of nemu/include/memory/host.h.  A
    [harray] is a C byte array: a fill byte for the cells never written (zero for
    a static array, any byte for memory set by [memset] or [malloc]) and the
    written cells. *)
From S2P Require Import Prelude.

Fixpoint le_combine (bs : list Z) : Z :=
  match bs with
  | [] => 0
  | b :: bs' => b + 256 * le_combine bs'
  end.

Fixpoint le_split (n : nat) (x : Z) : list Z :=
  match n with
  | O => []
  | S n' => x mod 256 :: le_split n' (x / 256)
  end.

Definition bytes_ok (bs : list Z) : Prop := Forall (in_u 8) bs.

Lemma length_le_split n x : length (le_split n x) = n.
Proof. revert x; induction n; intros; cbn; auto. Qed.

Lemma le_split_bytes n x : bytes_ok (le_split n x).
Proof.
  unfold bytes_ok. revert x; induction n; intros; cbn; constructor; auto.
  apply Z.mod_pos_bound. lia.
Qed.

Lemma le_combine_range bs :
  bytes_ok bs -> in_u (8 * Z.of_nat (length bs)) (le_combine bs).
Proof.
  unfold in_u. induction 1 as [|b bs Hb _ IH]; [cbn; lia|].
  cbn [le_combine length]. rewrite Nat2Z.inj_succ, Z.mul_succ_r, Z.pow_add_r by lia.
  unfold in_u in Hb. change (2 ^ 8) with 256 in *.
  pow_gen. lia.
Qed.

Lemma le_combine_split n x : le_combine (le_split n x) = x mod 2 ^ (8 * Z.of_nat n).
Proof.
  revert x; induction n as [|n IH]; intros x; [cbn; by rewrite Z.mod_1_r|].
  cbn [le_combine le_split].
  rewrite IH. replace (8 * Z.of_nat (S n)) with (8 + 8 * Z.of_nat n) by lia.
  rewrite Z.pow_add_r by lia. change (2 ^ 8) with 256.
  pose proof (pow2_pos (8 * Z.of_nat n) ltac:(lia)).
  rewrite Z.rem_mul_r by lia. done.
Qed.

Lemma le_split_combine bs : bytes_ok bs -> le_split (length bs) (le_combine bs) = bs.
Proof.
  induction 1 as [|b bs Hb _ IH]; [done|]. cbn [length le_combine le_split].
  unfold in_u in Hb. change (2 ^ 8) with 256 in Hb. f_equal.
  - rewrite Z.mul_comm, Z_mod_plus_full. apply Z.mod_small. done.
  - rewrite Z.mul_comm, Z_div_plus_full, Z.div_small by lia. apply IH.
Qed.

Lemma le_combine_zeros n : le_combine (replicate n 0) = 0.
Proof. induction n; cbn; lia. Qed.

(** ** Host arrays *)

Record harray := HArray { ha_fill : Z; ha_data : gmap Z Z }.

Definition ha_zero : harray := HArray 0 ∅.
Definition ha_get (a : harray) (i : Z) : Z := default (ha_fill a) (ha_data a !! i).
Definition ha_set (a : harray) (i v : Z) : harray :=
  HArray (ha_fill a) (<[i := u8 v]> (ha_data a)).

Fixpoint ha_get_n (a : harray) (i : Z) (n : nat) : list Z :=
  match n with
  | O => []
  | S n' => ha_get a i :: ha_get_n a (i + 1) n'
  end.

Fixpoint ha_put (a : harray) (i : Z) (bs : list Z) : harray :=
  match bs with
  | [] => a
  | b :: bs' => ha_put (ha_set a i b) (i + 1) bs'
  end.

Definition ha_read (a : harray) (i : Z) (len : Z) : Z :=
  le_combine (ha_get_n a i (Z.to_nat len)).
Definition ha_write (a : harray) (i : Z) (len data : Z) : harray :=
  ha_put a i (le_split (Z.to_nat len) data).

(** Every cell is a byte. *)
Definition ha_ok (a : harray) : Prop :=
  in_u 8 (ha_fill a) /\ map_Forall (fun _ b => in_u 8 b) (ha_data a).

Lemma ha_zero_ok : ha_ok ha_zero.
Proof. split; [done|apply map_Forall_empty]. Qed.

Lemma ha_get_set a i j v : ha_get (ha_set a i v) j = if decide (i = j) then u8 v else ha_get a j.
Proof.
  unfold ha_get, ha_set; cbn. case_decide.
  - subst. by rewrite lookup_insert_eq.
  - by rewrite lookup_insert_ne.
Qed.

Lemma ha_get_ok a i : ha_ok a -> in_u 8 (ha_get a i).
Proof.
  intros [Hf Hd]. unfold ha_get. destruct (ha_data a !! i) eqn:E; [|done].
  by apply (Hd i).
Qed.

Lemma ha_set_ok a i v : ha_ok a -> ha_ok (ha_set a i v).
Proof.
  intros [Hf Hd]. split; [done|]. cbn. apply map_Forall_insert_2; [|done].
  apply wrap_range. lia.
Qed.

Lemma ha_put_ok a i bs : ha_ok a -> ha_ok (ha_put a i bs).
Proof. revert a i; induction bs; intros; cbn; auto using ha_set_ok. Qed.

Lemma ha_write_ok a i n v : ha_ok a -> ha_ok (ha_write a i n v).
Proof. apply ha_put_ok. Qed.

Lemma length_ha_get_n a i n : length (ha_get_n a i n) = n.
Proof. revert i; induction n; intros; cbn; auto. Qed.

Lemma ha_get_n_bytes a i n : ha_ok a -> bytes_ok (ha_get_n a i n).
Proof.
  unfold bytes_ok. intros Ha. revert i; induction n; intros; cbn; constructor; auto.
  by apply ha_get_ok.
Qed.

Lemma ha_read_range a i n : ha_ok a -> 0 <= n -> in_u (8 * n) (ha_read a i n).
Proof.
  intros Ha Hn. unfold ha_read.
  pose proof (le_combine_range _ (ha_get_n_bytes a i (Z.to_nat n) Ha)) as H.
  rewrite length_ha_get_n, Z2Nat.id in H by lia. done.
Qed.

(** Reading a cell after a multi-byte store. *)
Lemma ha_get_put a i bs j :
  ha_get (ha_put a i bs) j =
  match bs !! Z.to_nat (j - i) with
  | Some b => if i <=? j then u8 b else ha_get a j
  | None => ha_get a j
  end.
Proof.
  revert a i; induction bs as [|b bs IH]; intros a i; cbn [ha_put]; [done|].
  rewrite IH, ha_get_set. destruct (decide (i = j)) as [->|Hne].
  - rewrite Z.sub_diag. cbn. rewrite (proj2 (Z.leb_gt (j + 1) j)) by lia.
    rewrite (proj2 (Z.leb_le j j)) by lia. by destruct (bs !! _).
  - destruct (Z.leb_spec i j).
    + replace (Z.to_nat (j - i)) with (S (Z.to_nat (j - (i + 1)))) by lia. cbn.
      rewrite (proj2 (Z.leb_le (i + 1) j)) by lia. done.
    + rewrite (proj2 (Z.leb_gt (i + 1) j)) by lia.
      by destruct (bs !! _), ((b :: bs) !! _).
Qed.

Lemma ha_get_put_other a i bs j :
  j < i \/ i + Z.of_nat (length bs) <= j -> ha_get (ha_put a i bs) j = ha_get a j.
Proof.
  intros H. rewrite ha_get_put. destruct (bs !! Z.to_nat (j - i)) eqn:E; [|done].
  apply lookup_lt_Some in E. case Z.leb_spec; [lia|done].
Qed.

Lemma ha_get_n_ext a a' i n :
  (forall j, i <= j < i + Z.of_nat n -> ha_get a j = ha_get a' j) ->
  ha_get_n a i n = ha_get_n a' i n.
Proof.
  revert i; induction n as [|n IH]; intros i H; cbn; [done|]. f_equal.
  - apply H. lia.
  - apply IH. intros j Hj. apply H. lia.
Qed.

Lemma ha_get_n_app a i n k : ha_get_n a i (n + k) = ha_get_n a i n ++ ha_get_n a (i + Z.of_nat n) k.
Proof.
  revert i; induction n as [|n IH]; intros i; cbn [Nat.add ha_get_n app]; [by rewrite Z.add_0_r|].
  rewrite IH. do 3 f_equal. lia.
Qed.

Lemma ha_get_n_lookup a i n k :
  (k < n)%nat -> ha_get_n a i n !! k = Some (ha_get a (i + Z.of_nat k)).
Proof.
  revert i k; induction n as [|n IH]; intros i k Hk; [lia|]. destruct k; cbn.
  - by rewrite Z.add_0_r.
  - rewrite IH by lia. do 2 f_equal. lia.
Qed.

Lemma ha_get_n_put_same a i bs :
  bytes_ok bs -> ha_get_n (ha_put a i bs) i (length bs) = bs.
Proof.
  intros Hbs. apply list_eq. intros k. destruct (decide (k < length bs)%nat) as [Hk|Hk].
  - rewrite ha_get_n_lookup, ha_get_put by done.
    replace (Z.to_nat (i + Z.of_nat k - i)) with k by lia.
    destruct (lookup_lt_is_Some_2 bs k Hk) as [b Hb]. rewrite Hb.
    rewrite (proj2 (Z.leb_le i (i + Z.of_nat k))) by lia. f_equal.
    apply wrap_small. eapply Forall_lookup in Hbs; eauto.
  - rewrite !lookup_ge_None_2; rewrite ?length_ha_get_n; auto; lia.
Qed.

(** A word read back from where it was written, truncated to its size. *)
Lemma ha_read_write_same a i n v :
  0 <= n -> ha_read (ha_write a i n v) i n = v mod 2 ^ (8 * n).
Proof.
  intros Hn. unfold ha_read, ha_write.
  pose proof (ha_get_n_put_same a i (le_split (Z.to_nat n) v) (le_split_bytes _ _)) as H.
  rewrite length_le_split in H. rewrite H, le_combine_split, Z2Nat.id by lia. done.
Qed.

(** A store leaves disjoint reads alone. *)
Lemma ha_read_write_other a i n v j m :
  0 <= n -> 0 <= m -> j + m <= i \/ i + n <= j ->
  ha_read (ha_write a i n v) j m = ha_read a j m.
Proof.
  intros Hn Hm H. unfold ha_read, ha_write. f_equal. apply ha_get_n_ext.
  intros k Hk. apply ha_get_put_other. rewrite length_le_split. lia.
Qed.

Lemma ha_get_n_put_other a i bs j m :
  j + Z.of_nat m <= i \/ i + Z.of_nat (length bs) <= j ->
  ha_get_n (ha_put a i bs) j m = ha_get_n a j m.
Proof. intros H. apply ha_get_n_ext. intros k Hk. apply ha_get_put_other. lia. Qed.

(** ** Equality of contents

    Two arrays with the same bytes may differ as maps (a cell written with its
    fill byte); [ha_equiv] compares the contents, and the operations respect
    it. *)
Definition ha_equiv : relation harray := fun a b => forall i, ha_get a i = ha_get b i.

#[export] Instance ha_equiv_equivalence : Equivalence ha_equiv.
Proof.
  split; unfold ha_equiv.
  - intros a i. reflexivity.
  - intros a b H i. symmetry. apply H.
  - intros a b c H1 H2 i. etransitivity; eauto.
Qed.

#[export] Instance ha_get_proper : Proper (ha_equiv ==> eq ==> eq) ha_get.
Proof. intros a b H i j ->. apply H. Qed.

#[export] Instance ha_set_proper : Proper (ha_equiv ==> eq ==> eq ==> ha_equiv) ha_set.
Proof. intros a b H i j -> v w -> k. rewrite !ha_get_set. case_decide; auto. Qed.

#[export] Instance ha_put_proper : Proper (ha_equiv ==> eq ==> eq ==> ha_equiv) ha_put.
Proof.
  intros a b H i j -> bs cs ->. revert a b H j.
  induction cs as [|c cs IH]; intros a b H j; cbn; [done|].
  apply IH. by apply ha_set_proper.
Qed.

#[export] Instance ha_get_n_proper : Proper (ha_equiv ==> eq ==> eq ==> eq) ha_get_n.
Proof. intros a b H i j -> n m ->. apply ha_get_n_ext. intros. apply H. Qed.

#[export] Instance ha_read_proper : Proper (ha_equiv ==> eq ==> eq ==> eq) ha_read.
Proof. intros a b H i j -> n m ->. unfold ha_read. by rewrite H. Qed.

#[export] Instance ha_write_proper :
  Proper (ha_equiv ==> eq ==> eq ==> eq ==> ha_equiv) ha_write.
Proof. intros a b H i j -> n m -> v w ->. unfold ha_write. by rewrite H. Qed.

(** Disjoint stores commute, up to contents. *)
Lemma ha_put_comm a i bs j cs :
  i + Z.of_nat (length bs) <= j \/ j + Z.of_nat (length cs) <= i ->
  ha_equiv (ha_put (ha_put a i bs) j cs) (ha_put (ha_put a j cs) i bs).
Proof.
  intros H k. rewrite !ha_get_put.
  destruct (bs !! Z.to_nat (k - i)) eqn:Eb, (cs !! Z.to_nat (k - j)) eqn:Ec;
    repeat (case Z.leb_spec; intros); try done.
  apply lookup_lt_Some in Eb, Ec. lia.
Qed.
