(* ===== verification/Config.v ===== *)
(** * Build configuration

    [generated/autoconf.h] is produced by Kconfig from the user's choices, so
    its macros are a parameter of the model: an instance of the class [Config].
    [config_ok] states what nemu/Kconfig, nemu/src/memory/Kconfig and the code
    rely on (a 32-bit guest, physical memory inside the 32-bit space and away
    from the SoC regions and the device windows).  [riscv32_native] is the
    configuration Kconfig's defaults give, [riscv32_share] the shared object
    used as DiffTest reference, [riscv32_device] the default with devices. *)
From S2P Require Import Prelude.

Class Config := {
  CONFIG_MBASE : Z;
  CONFIG_MSIZE : Z;
  CONFIG_PC_RESET_OFFSET : Z;
  CONFIG_MEM_SCHEME_NPC : bool;
  CONFIG_RVE : bool;
  CONFIG_RT_CHECK : bool;
  CONFIG_TARGET_SHARE : bool;
  CONFIG_DIFFTEST : bool;
  CONFIG_DEVICE : bool;
  CONFIG_HAS_PORT_IO : bool;
  CONFIG_HAS_SERIAL : bool;
  CONFIG_SERIAL_PORT : Z;
  CONFIG_SERIAL_MMIO : Z;
  CONFIG_HAS_TIMER : bool;
  CONFIG_RTC_PORT : Z;
  CONFIG_RTC_MMIO : Z;
  CONFIG_HAS_KEYBOARD : bool;
  CONFIG_I8042_DATA_PORT : Z;
  CONFIG_I8042_DATA_MMIO : Z;
  CONFIG_HAS_VGA : bool;
  CONFIG_VGA_CTL_PORT : Z;
  CONFIG_VGA_CTL_MMIO : Z;
  CONFIG_FB_ADDR : Z;
  CONFIG_VGA_SIZE_800x600 : bool;
  CONFIG_VGA_SHOW_SCREEN : bool;
  CONFIG_HAS_AUDIO : bool;
  CONFIG_AUDIO_CTL_PORT : Z;
  CONFIG_AUDIO_CTL_MMIO : Z;
  CONFIG_SB_ADDR : Z;
  CONFIG_SB_SIZE : Z;
  CONFIG_HAS_DISK : bool;
  CONFIG_HAS_SDCARD : bool;
  CONFIG_SDCARD_CTL_MMIO : Z;
}.

(** The defaults of the Kconfig files. *)
Definition kconfig_defaults (npc share dev : bool) : Config := {|
  CONFIG_MBASE := 0x80000000;
  CONFIG_MSIZE := 0x8000000;
  CONFIG_PC_RESET_OFFSET := 0;
  CONFIG_MEM_SCHEME_NPC := npc;
  CONFIG_RVE := false;
  CONFIG_RT_CHECK := true;
  CONFIG_TARGET_SHARE := share;
  CONFIG_DIFFTEST := false;
  CONFIG_DEVICE := dev;
  CONFIG_HAS_PORT_IO := false;
  CONFIG_HAS_SERIAL := dev;
  CONFIG_SERIAL_PORT := 0x3f8;
  CONFIG_SERIAL_MMIO := 0xa00003f8;
  CONFIG_HAS_TIMER := dev;
  CONFIG_RTC_PORT := 0x48;
  CONFIG_RTC_MMIO := 0xa0000048;
  CONFIG_HAS_KEYBOARD := dev;
  CONFIG_I8042_DATA_PORT := 0x60;
  CONFIG_I8042_DATA_MMIO := 0xa0000060;
  CONFIG_HAS_VGA := dev;
  CONFIG_VGA_CTL_PORT := 0x100;
  CONFIG_VGA_CTL_MMIO := 0xa0000100;
  CONFIG_FB_ADDR := 0xa1000000;
  CONFIG_VGA_SIZE_800x600 := false;
  CONFIG_VGA_SHOW_SCREEN := dev;
  CONFIG_HAS_AUDIO := dev;
  CONFIG_AUDIO_CTL_PORT := 0x200;
  CONFIG_AUDIO_CTL_MMIO := 0xa0000200;
  CONFIG_SB_ADDR := 0xa1200000;
  CONFIG_SB_SIZE := 0x10000;
  CONFIG_HAS_DISK := dev;
  CONFIG_HAS_SDCARD := false;
  CONFIG_SDCARD_CTL_MMIO := 0xa3000000;
|}.

Definition riscv32_native : Config := kconfig_defaults false false false.
Definition riscv32_share : Config := kconfig_defaults true true true.
Definition riscv32_device : Config := kconfig_defaults false false true.

(** Size of the first memory region (nemu/src/memory/paddr.c). *)
Definition pmem_region_size `{Config} : Z :=
  if CONFIG_MEM_SCHEME_NPC then 0x01000000 else CONFIG_MSIZE.

(** What the memory map relies on: physical memory lies above every SoC region
    and device window the code hard-wires, and ends inside the 32-bit space. *)
Definition config_ok `{Config} : bool :=
  (0x20001000 <=? CONFIG_MBASE) &&
  (0 <? pmem_region_size) && (pmem_region_size <=? CONFIG_MSIZE) &&
  (CONFIG_MBASE + CONFIG_MSIZE <=? 2 ^ 32) &&
  (0 <=? CONFIG_PC_RESET_OFFSET) && (CONFIG_PC_RESET_OFFSET <? pmem_region_size).

Definition PMEM_LEFT `{Config} : Z := CONFIG_MBASE.
Definition PMEM_RIGHT `{Config} : Z := u32 (CONFIG_MBASE + CONFIG_MSIZE - 1).
Definition RESET_VECTOR `{Config} : Z := u32 (PMEM_LEFT + CONFIG_PC_RESET_OFFSET).
(** Number of general registers. *)
Definition NR_GPR `{Config} : Z := if CONFIG_RVE then 16 else 32.

Example riscv32_native_ok : config_ok (H := riscv32_native) = true.
Proof. reflexivity. Qed.
Example riscv32_share_ok : config_ok (H := riscv32_share) = true.
Proof. reflexivity. Qed.

Lemma config_ok_spec `{Config} :
  config_ok = true ->
  0x20001000 <= CONFIG_MBASE /\ 0 < pmem_region_size <= CONFIG_MSIZE /\
  CONFIG_MBASE + CONFIG_MSIZE <= 2 ^ 32 /\
  0 <= CONFIG_PC_RESET_OFFSET < pmem_region_size.
Proof. unfold config_ok. rewrite !andb_true_iff. lia. Qed.
