(* ===== verification/CommitEvent.v ===== *)
(** * Commit events (nemu/include/debug/commit_event.h)

    The record of one retired instruction, shared by NEMU and the NPC
    simulator, and [commit_event_compare], which DiffTest uses to find the first
    field on which reference and design disagree.  [event_agrees] is the
    specification of agreement: the fields compared, and under which
    conditions. *)
From S2P Require Import Prelude.

Record CommitEvent := {
  retire : Z; cycle : Z;
  ev_pc : Z; ev_inst : Z; next_pc : Z;
  has_wb : Z; ev_rd : Z; rd_value : Z;
  ev_exception : Z; ev_cause : Z;
  mem_valid : Z; mem_is_write : Z; mem_size : Z;
  mem_addr : Z; mem_wdata : Z; mem_rdata : Z;
}.

(** [memset(&ev, 0, sizeof(ev))]. *)
Definition CommitEvent_zero : CommitEvent :=
  {| retire := 0; cycle := 0; ev_pc := 0; ev_inst := 0; next_pc := 0;
     has_wb := 0; ev_rd := 0; rd_value := 0; ev_exception := 0; ev_cause := 0;
     mem_valid := 0; mem_is_write := 0; mem_size := 0;
     mem_addr := 0; mem_wdata := 0; mem_rdata := 0 |}.

Inductive CommitDiffKind :=
| COMMIT_DIFF_NONE | COMMIT_DIFF_PC | COMMIT_DIFF_INST | COMMIT_DIFF_NEXT_PC
| COMMIT_DIFF_EXCEPTION | COMMIT_DIFF_CAUSE
| COMMIT_DIFF_WB_VALID | COMMIT_DIFF_WB_REG | COMMIT_DIFF_WB_VALUE.
#[export] Instance CommitDiffKind_eq_dec : EqDecision CommitDiffKind.
Proof. solve_decision. Defined.

Record CommitDiff := {
  kind : CommitDiffKind;
  diff_field : string;
  ref_value : Z;
  dut_value : Z;
}.

Definition SET_DIFF (k : CommitDiffKind) (name : string) (rv dv : Z) : bool * CommitDiff :=
  (false, {| kind := k; diff_field := name; ref_value := u32 rv; dut_value := u32 dv |}).

(** The result and the diff written through a non-null [diff] pointer. *)
Definition commit_event_compare (ref dut : CommitEvent) : bool * CommitDiff :=
  let agree := (true, {| kind := COMMIT_DIFF_NONE; diff_field := EmptyString; ref_value := 0; dut_value := 0 |}) in
  if negb (ev_pc ref =? ev_pc dut) then SET_DIFF COMMIT_DIFF_PC "pc" (ev_pc ref) (ev_pc dut) else
  if negb (ev_inst ref =? ev_inst dut) then SET_DIFF COMMIT_DIFF_INST "inst" (ev_inst ref) (ev_inst dut) else
  if negb (next_pc ref =? next_pc dut) then SET_DIFF COMMIT_DIFF_NEXT_PC "next_pc" (next_pc ref) (next_pc dut) else
  if negb (ev_exception ref =? ev_exception dut) then
    SET_DIFF COMMIT_DIFF_EXCEPTION "exception" (ev_exception ref) (ev_exception dut) else
  if negb (ev_exception ref =? 0) && negb (ev_cause ref =? ev_cause dut) then
    SET_DIFF COMMIT_DIFF_CAUSE "cause" (ev_cause ref) (ev_cause dut) else
  if negb (has_wb ref =? has_wb dut) then SET_DIFF COMMIT_DIFF_WB_VALID "has_wb" (has_wb ref) (has_wb dut) else
  if negb (has_wb ref =? 0) then
    if negb (ev_rd ref =? ev_rd dut) then SET_DIFF COMMIT_DIFF_WB_REG "rd" (ev_rd ref) (ev_rd dut) else
    if negb (rd_value ref =? rd_value dut) then
      SET_DIFF COMMIT_DIFF_WB_VALUE "rd_value" (rd_value ref) (rd_value dut) else
    agree
  else agree.

(** ** Specification *)

(** The architecturally visible part of an event: the cause only of an
    exception, the register only of a write-back. *)
Definition observe (e : CommitEvent) : Z * Z * Z * Z * option Z * Z * option (Z * Z) :=
  (ev_pc e, ev_inst e, next_pc e, ev_exception e,
   (if ev_exception e =? 0 then None else Some (ev_cause e)),
   has_wb e,
   (if has_wb e =? 0 then None else Some (ev_rd e, rd_value e))).

Definition event_agrees : relation CommitEvent := fun a b => observe a = observe b.

#[export] Instance event_agrees_equivalence : Equivalence event_agrees.
Proof. split; unfold event_agrees; [intros ?|intros ? ? ?|intros ? ? ? ? ?]; congruence. Qed.

Ltac cmp_cases :=
  repeat match goal with
  | |- context [?a =? ?b] => destruct (Z.eqb_spec a b); cbn [negb andb]
  end.

(** The comparison as a whole, by cases on the fields. *)
Lemma compare_spec ref dut :
  fst (commit_event_compare ref dut) = true <-> event_agrees ref dut.
Proof.
  unfold commit_event_compare, event_agrees, observe, SET_DIFF.
  cmp_cases; cbn; split; intros; congruence || (exfalso; congruence) || (simplify_eq; congruence).
Qed.

(** The diff reports none exactly when the comparison succeeds. *)
Lemma compare_kind ref dut :
  fst (commit_event_compare ref dut) = true <->
  kind (snd (commit_event_compare ref dut)) = COMMIT_DIFF_NONE.
Proof. unfold commit_event_compare, SET_DIFF. cmp_cases; cbn; split; congruence. Qed.

#[export] Instance compare_proper :
  Proper (event_agrees ==> event_agrees ==> eq) (fun a b => fst (commit_event_compare a b)).
Proof.
  intros a a' Ha b b' Hb. apply eq_true_iff_eq. rewrite !compare_spec.
  split; intros H; [by rewrite <- Ha, H | by rewrite Ha, H].
Qed.
