(* ===== verification/CommitRing.v ===== *)
(** * The ring of recent commit events (nemu/src/utils/state.c)

    [commit_ring], [commit_ring_next], [commit_ring_count] are one record; the
    operations are the functions of the C file.  The specification is a plain
    history list: [ring_repr r h] says the ring holds the last 64 events of the
    history [h].  [record_repr] is the refinement step and the lookups return the
    corresponding suffix of the history. *)
From S2P Require Import Prelude CommitEvent.

Definition COMMIT_EVENT_RING_SIZE : Z := 64.

Record commit_ring_state := {
  commit_ring : list CommitEvent;
  commit_ring_next : Z;
  commit_ring_count : Z;
}.

Definition ring_init : commit_ring_state :=
  {| commit_ring := replicate 64 CommitEvent_zero; commit_ring_next := 0; commit_ring_count := 0 |}.

Definition ring_at (r : commit_ring_state) (i : Z) : CommitEvent :=
  default CommitEvent_zero (commit_ring r !! Z.to_nat i).

Definition commit_event_record (ev : CommitEvent) (r : commit_ring_state) : commit_ring_state :=
  {| commit_ring := <[Z.to_nat (commit_ring_next r) := ev]> (commit_ring r);
     commit_ring_next := (commit_ring_next r + 1) mod COMMIT_EVENT_RING_SIZE;
     commit_ring_count := if commit_ring_count r <? COMMIT_EVENT_RING_SIZE
                          then commit_ring_count r + 1 else commit_ring_count r |}.

(** The events at ring positions [first], [first+1], ... modulo the size. *)
Fixpoint ring_slice (r : commit_ring_state) (first : Z) (n : nat) : list CommitEvent :=
  match n with
  | O => []
  | S n' => ring_at r (first mod COMMIT_EVENT_RING_SIZE) :: ring_slice r (first + 1) n'
  end.

(** The events printed between the NEMU_LAST_BEGIN and NEMU_LAST_END lines;
    nothing is printed when the ring is empty. *)
Definition commit_event_dump_last (n : Z) (r : commit_ring_state) : option (list CommitEvent) :=
  if commit_ring_count r =? 0 then None else
  let n := if (n =? 0) || (commit_ring_count r <? n) then commit_ring_count r else n in
  let first := (commit_ring_next r + COMMIT_EVENT_RING_SIZE - n) mod COMMIT_EVENT_RING_SIZE in
  Some (ring_slice r first (Z.to_nat n)).

Definition commit_event_get_last (r : commit_ring_state) : option CommitEvent :=
  if commit_ring_count r =? 0 then None else
  let idx := (commit_ring_next r + COMMIT_EVENT_RING_SIZE - 1) mod COMMIT_EVENT_RING_SIZE in
  Some (ring_at r idx).

(** The events written to [buf]; their number is the return value. *)
Definition commit_event_copy_last (max_n : Z) (r : commit_ring_state) : list CommitEvent :=
  let n := if commit_ring_count r <? max_n then commit_ring_count r else max_n in
  let first := (commit_ring_next r + COMMIT_EVENT_RING_SIZE - n) mod COMMIT_EVENT_RING_SIZE in
  ring_slice r first (Z.to_nat n).

(** ** Specification: a bounded history *)

Definition hist_at (h : list CommitEvent) (i : Z) : CommitEvent :=
  default CommitEvent_zero (h !! Z.to_nat i).

(** The last [n] events of a history, oldest first. *)
Definition suffix_of_hist (n : Z) (h : list CommitEvent) : list CommitEvent :=
  drop (length h - Z.to_nat n) h.

Record ring_repr (r : commit_ring_state) (h : list CommitEvent) : Prop := {
  rr_len : length (commit_ring r) = 64%nat;
  rr_next : commit_ring_next r = Z.of_nat (length h) mod 64;
  rr_count : commit_ring_count r = Z.min 64 (Z.of_nat (length h));
  rr_data : forall i, Z.max 0 (Z.of_nat (length h) - 64) <= i < Z.of_nat (length h) ->
                      ring_at r (i mod 64) = hist_at h i;
}.

Lemma ring_init_repr : ring_repr ring_init [].
Proof. split; try done. intros i. cbn. lia. Qed.

Lemma hist_at_snoc h ev i :
  0 <= i <= Z.of_nat (length h) ->
  hist_at (h ++ [ev]) i = if i =? Z.of_nat (length h) then ev else hist_at h i.
Proof.
  intros Hi. unfold hist_at. case Z.eqb_spec; intros.
  - subst. rewrite lookup_app_r, Nat2Z.id, Nat.sub_diag by lia. done.
  - rewrite lookup_app_l by lia. done.
Qed.

Lemma ring_at_record r ev i :
  length (commit_ring r) = 64%nat -> 0 <= commit_ring_next r < 64 -> 0 <= i < 64 ->
  ring_at (commit_event_record ev r) i = if i =? commit_ring_next r then ev else ring_at r i.
Proof.
  intros Hl Hn Hi. unfold ring_at, commit_event_record; cbn. case Z.eqb_spec; intros.
  - subst. rewrite list_lookup_insert_eq by lia. done.
  - rewrite list_lookup_insert_ne by lia. done.
Qed.

Lemma record_repr r h ev :
  ring_repr r h -> ring_repr (commit_event_record ev r) (h ++ [ev]).
Proof.
  intros [Hl Hn Hc Hd]. split.
  - cbn. by rewrite length_insert.
  - cbn. rewrite length_app, Hn, Nat2Z.inj_add. apply Zplus_mod_idemp_l.
  - cbn. rewrite length_app, Hc, Nat2Z.inj_add. unfold COMMIT_EVENT_RING_SIZE. cbn [length].
    case Z.ltb_spec; lia.
  - intros i. rewrite length_app, Nat2Z.inj_add. cbn [length]. intros Hi.
    rewrite ring_at_record, hist_at_snoc, Hn by (rewrite ?Hn; lia || (apply Z.mod_pos_bound; lia)).
    destruct (Z.eqb_spec i (Z.of_nat (length h))) as [->|Hne].
    + by rewrite Z.eqb_refl.
    + case Z.eqb_spec; intros E; [|apply Hd; lia].
      exfalso. revert E. Z.to_euclidean_division_equations. lia.
Qed.

(** The representation of the whole history of recordings. *)
Definition record_all (h : list CommitEvent) : commit_ring_state :=
  foldl (fun r e => commit_event_record e r) ring_init h.

Lemma record_all_repr h : ring_repr (record_all h) h.
Proof.
  unfold record_all. induction h as [|ev h IH] using rev_ind; [apply ring_init_repr|].
  rewrite foldl_app. cbn. by apply record_repr.
Qed.

Lemma hist_slice h i n :
  0 <= i -> i + Z.of_nat n = Z.of_nat (length h) ->
  drop (Z.to_nat i) h = map (fun k => hist_at h (i + Z.of_nat k)) (seq 0 n).
Proof.
  intros Hi Hn. apply list_eq. intros k. rewrite lookup_drop, list_lookup_fmap.
  destruct (decide (k < n)%nat) as [Hk|Hk].
  - rewrite lookup_seq_lt by done. cbn. unfold hist_at.
    replace (Z.to_nat (i + Z.of_nat k)) with (Z.to_nat i + k)%nat by lia.
    destruct (lookup_lt_is_Some_2 h (Z.to_nat i + k)) as [e He]; [lia|]. by rewrite He.
  - rewrite lookup_seq_ge by lia. cbn. apply lookup_ge_None_2. lia.
Qed.

Lemma ring_slice_map r first n :
  ring_slice r first n = map (fun k => ring_at r ((first + Z.of_nat k) mod 64)) (seq 0 n).
Proof.
  revert first; induction n as [|n IH]; intros first; [done|]. cbn [ring_slice].
  change (seq 0 (S n)) with (0%nat :: seq 1 n). cbn [map]. f_equal.
  - by rewrite Z.add_0_r.
  - rewrite IH, <- fmap_S_seq. change (S <$> seq 0 n) with (map S (seq 0 n)).
    rewrite map_map. apply map_ext. intros k. do 2 f_equal. lia.
Qed.

(** Reading the last [n] positions of the ring returns the last [n] events. *)
Lemma ring_slice_suffix r h n :
  ring_repr r h -> 0 <= n <= commit_ring_count r ->
  ring_slice r ((commit_ring_next r + COMMIT_EVENT_RING_SIZE - n) mod COMMIT_EVENT_RING_SIZE)
    (Z.to_nat n) = suffix_of_hist n h.
Proof.
  intros [Hl Hn Hc Hd] Hr. unfold suffix_of_hist, COMMIT_EVENT_RING_SIZE.
  replace (length h - Z.to_nat n)%nat with (Z.to_nat (Z.of_nat (length h) - n)) by lia.
  rewrite (hist_slice h _ (Z.to_nat n)), ring_slice_map by lia.
  apply map_ext_in. intros k Hk%in_seq. rewrite <- Hd by lia. f_equal.
  rewrite Hn. clear. Z.to_euclidean_division_equations. lia.
Qed.

Lemma copy_last_suffix r h max_n :
  ring_repr r h -> 0 <= max_n ->
  commit_event_copy_last max_n r =
  suffix_of_hist (Z.min max_n (Z.min 64 (Z.of_nat (length h)))) h.
Proof.
  intros Hr Hm. unfold commit_event_copy_last. pose proof (rr_count _ _ Hr) as Hc.
  case Z.ltb_spec; intros; erewrite ring_slice_suffix; eauto; try lia; f_equal; lia.
Qed.

Lemma get_last_hist r h :
  ring_repr r h -> commit_event_get_last r = last h.
Proof.
  intros Hr. pose proof (rr_count _ _ Hr) as Hc. unfold commit_event_get_last.
  destruct (decide (h = [])) as [->|Hne].
  - rewrite Hc. done.
  - destruct (exists_last Hne) as (h' & e & ->).
    rewrite last_snoc. rewrite length_app in *. cbn [length] in *.
    case Z.eqb_spec; [lia|intros _]. f_equal.
    pose proof (rr_data _ _ Hr (Z.of_nat (length h'))) as Hd.
    rewrite length_app in Hd. cbn [length] in Hd. rewrite hist_at_snoc, Z.eqb_refl in Hd by lia.
    rewrite <- Hd by lia. f_equal. rewrite (rr_next _ _ Hr), length_app. cbn [length].
    unfold COMMIT_EVENT_RING_SIZE. Z.to_euclidean_division_equations. lia.
Qed.
