(* ===== verification/Machine.v ===== *)
(** * The global state of NEMU

    The C program keeps its state in file-scope variables; here they are one
    record, [nemu], parametrised by the type [CPU] of the global [cpu], which
    each guest ISA defines (src/isa/*/include/isa-def.h).  Sub-records follow
    the C files that own the variables.  Lines written with [printf] go to
    [out], newest last, as a format identifier and its arguments; [Log] lines and
    [putc] to stderr go to their own lists. *)
From S2P Require Import Prelude Outcome Bytes CommitEvent CommitRing.

(** nemu/include/utils.h: the [state] enumeration and [NEMUState]. *)
Inductive run_state :=
| NEMU_RUNNING | NEMU_STOP | NEMU_END | NEMU_ABORT | NEMU_QUIT | NEMU_LIMIT.
#[export] Instance run_state_eq_dec : EqDecision run_state.
Proof. solve_decision. Defined.

Definition run_state_code (s : run_state) : Z :=
  match s with
  | NEMU_RUNNING => 0 | NEMU_STOP => 1 | NEMU_END => 2
  | NEMU_ABORT => 3 | NEMU_QUIT => 4 | NEMU_LIMIT => 5
  end.

Record NEMUState := { state : run_state; halt_pc : Z; halt_ret : Z }.

(** nemu/src/memory/paddr.c: the three host arrays. *)
Record phys_mem := { pmem : harray; mrom : harray; sram : harray }.

(** nemu/include/device/map.h: [io_callback_t] and [IOMap].  A callback is one
    of the handlers of src/device; [space] is an offset into [io_space]. *)
Inductive io_callback :=
| cb_none | cb_serial | cb_rtc | cb_npc_uart | cb_npc_clint | cb_i8042 | cb_audio | cb_sdcard.
#[export] Instance io_callback_eq_dec : EqDecision io_callback.
Proof. solve_decision. Defined.

Record IOMap := { name : string; low : Z; high : Z; space : Z; callback : io_callback }.

(** nemu/include/debug/mmio_replay.h *)
Record MMIOReplayRecord := {
  rp_valid : bool; rp_is_write : bool; rp_addr : Z; rp_len : Z; rp_wmask : Z;
  rp_wdata : Z; rp_rdata : Z;
}.
Definition MMIOReplay_zero : MMIOReplayRecord :=
  {| rp_valid := false; rp_is_write := false; rp_addr := 0; rp_len := 0; rp_wmask := 0;
     rp_wdata := 0; rp_rdata := 0 |}.

(** nemu/src/device/keyboard.c *)
Record key_state := { key_queue : list Z; key_f : Z; key_r : Z; keymap : gmap Z Z }.

(** An open file: contents, length and position. *)
Record file := { f_data : harray; f_len : Z; f_pos : Z }.

(** nemu/src/device/sdcard.c; [sd_file] is the backing file, if it opened. *)
Record sd_state := {
  sd_base : Z; blkcnt : Z; blk_addr : Z; sd_addr : Z; write_cmd : bool;
  read_ext_csd : bool; sd_file : option file;
}.

(** nemu/src/device: the mapping tables and the devices. *)
Record io_state := {
  io_space : harray;
  p_space : Z;
  maps : list IOMap;
  pio_maps : list IOMap;
  npc_uart_base : Z;
  npc_clint_base : Z;
  mmio_replay : MMIOReplayRecord;
  mmio_replay_mismatch : bool;
  serial_base : Z;
  rtc_port_base : Z;
  i8042_data_port_base : Z;
  keys : key_state;
  vgactl_port_base : Z;
  vmem : Z;
  audio_base : Z;
  sbuf : Z;
  sdcard : sd_state;
  alarm_handlers : list string;
  last_update : Z;
}.

(** nemu/src/cpu/difftest/dut.c *)
Record dut_state := { is_skip_ref : bool; skip_dut_nr_inst : Z }.

(** Arguments of a [printf]. *)
Inductive arg := AZ (z : Z) | AS (s : string).
Definition line : Type := string * list arg.

(** The commands sent to the reference model of DiffTest, a shared object loaded
    at run time: [ref_difftest_memcpy] and [ref_difftest_regcpy] towards it and
    [ref_difftest_exec]. *)
Inductive ref_cmd (CPU : Type) :=
| RefInit (port : Z)
| RefMemcpy (addr : Z) (buf : list Z)
| RefRegcpy (c : CPU)
| RefExec (n : Z).
Arguments RefInit {CPU} _.
Arguments RefMemcpy {CPU} _ _.
Arguments RefRegcpy {CPU} _.
Arguments RefExec {CPU} _.

Record nemu (CPU : Type) := {
  cpu : CPU;
  mem : phys_mem;
  nemu_state : NEMUState;
  nemu_inst_limit : Z;
  g_nr_guest_inst : Z;
  ring : commit_ring_state;
  breakpoints : list Z;
  io : io_state;
  dut : dut_state;
  ref_log : list (ref_cmd CPU);
  out : list line;
  err : list Z;
}.
Arguments cpu {CPU} _.
Arguments mem {CPU} _.
Arguments nemu_state {CPU} _.
Arguments nemu_inst_limit {CPU} _.
Arguments g_nr_guest_inst {CPU} _.
Arguments ring {CPU} _.
Arguments breakpoints {CPU} _.
Arguments io {CPU} _.
Arguments dut {CPU} _.
Arguments ref_log {CPU} _.
Arguments out {CPU} _.
Arguments err {CPU} _.

Abbreviation M CPU := (ST (nemu CPU)).

(** ** The state before [init_monitor] *)

Definition key_init : key_state :=
  {| key_queue := replicate 1024 0; key_f := 0; key_r := 0; keymap := ∅ |}.
Definition sd_init : sd_state :=
  {| sd_base := 0; blkcnt := 0; blk_addr := 0; sd_addr := 0; write_cmd := false;
     read_ext_csd := false; sd_file := None |}.
Definition io_init : io_state :=
  {| io_space := ha_zero; p_space := 0; maps := []; pio_maps := [];
     npc_uart_base := 0; npc_clint_base := 0;
     mmio_replay := MMIOReplay_zero; mmio_replay_mismatch := false;
     serial_base := 0; rtc_port_base := 0; i8042_data_port_base := 0; keys := key_init;
     vgactl_port_base := 0; vmem := 0; audio_base := 0; sbuf := 0; sdcard := sd_init;
     alarm_handlers := []; last_update := 0 |}.
Definition mem_init : phys_mem := {| pmem := ha_zero; mrom := ha_zero; sram := ha_zero |}.
Definition NEMUState_init : NEMUState := {| state := NEMU_STOP; halt_pc := 0; halt_ret := 0 |}.

Definition nemu_init {CPU} (c : CPU) : nemu CPU :=
  {| cpu := c; mem := mem_init; nemu_state := NEMUState_init; nemu_inst_limit := 0;
     g_nr_guest_inst := 0; ring := ring_init; breakpoints := []; io := io_init;
     dut := {| is_skip_ref := false; skip_dut_nr_inst := 0 |};
     ref_log := []; out := []; err := [] |}.

(** Updates of the large fields, kept folded in proofs. *)
Definition with_mem {CPU} (m : phys_mem) (s : nemu CPU) : nemu CPU := {s with mem := m}.
Definition with_cpu {CPU} (c : CPU) (s : nemu CPU) : nemu CPU := {s with cpu := c}.

Lemma mem_with_mem {CPU} m (s : nemu CPU) : mem (with_mem m s) = m.
Proof. done. Qed.
Lemma cpu_with_cpu {CPU} c (s : nemu CPU) : cpu (with_cpu c s) = c.
Proof. done. Qed.
Lemma mem_with_cpu {CPU} c (s : nemu CPU) : mem (with_cpu c s) = mem s.
Proof. done. Qed.
Lemma cpu_with_mem {CPU} m (s : nemu CPU) : cpu (with_mem m s) = cpu s.
Proof. done. Qed.

(** ** Output *)

Section Output.
Context {CPU : Type}.

Definition printf (fmt : string) (args : list arg) : M CPU unit :=
  modify (fun s => {s with out ::= (fun o => o ++ [(fmt, args)])}).
Definition putc_stderr (c : Z) : M CPU unit :=
  modify (fun s => {s with err ::= (fun o => o ++ [u8 c])}).
End Output.
