(* ===== verification/PhysMem.v ===== *)
(** * Physical memory (nemu/src/memory/paddr.c, nemu/include/memory/host.h)

    The table [mem_regions] and the operations on backed memory.  A host pointer
    into one of the three arrays is the pair of the array and an index, and an access
    that leaves the array is [Undef].  The
    addresses are 32-bit ([PMEM64] is unset for every supported configuration),
    lengths are [size_t]. *)
From S2P Require Import Prelude Outcome Bytes Config CommitEvent Machine.

Inductive host_id := H_pmem | H_mrom | H_sram.
#[export] Instance host_id_eq_dec : EqDecision host_id.
Proof. solve_decision. Defined.

Record MemRegion := {
  region_name : string;
  base : Z;
  size : Z;
  host : host_id;
  loadable : bool;
  writable : bool;
}.

Definition host_ptr : Type := host_id * Z.

Section Regions.
Context `{Config}.

Definition region0 : MemRegion :=
  {| region_name := if CONFIG_MEM_SCHEME_NPC then "npc-pmem" else "pmem";
     base := CONFIG_MBASE; size := pmem_region_size; host := H_pmem;
     loadable := true; writable := true |}.
Definition region_mrom : MemRegion :=
  {| region_name := "mrom"; base := 0x20000000; size := 0x00001000; host := H_mrom;
     loadable := true; writable := false |}.
Definition region_sram : MemRegion :=
  {| region_name := "sram"; base := 0x0f000000; size := 0x00002000; host := H_sram;
     loadable := true; writable := true |}.
Definition mem_regions : list MemRegion := [region0; region_mrom; region_sram].

Definition range_in_region (region : MemRegion) (addr len : Z) : bool :=
  let offset := u32 (addr - base region) in
  (offset <? size region) && (len <=? size region - offset).

(** The loop over the regions, from index 1. *)
Fixpoint find_in (regions : list MemRegion) (addr len : Z) : option MemRegion :=
  match regions with
  | [] => None
  | r :: rs => if range_in_region r addr len then Some r else find_in rs addr len
  end.

Definition find_mem_region (addr len : Z) : option MemRegion :=
  if range_in_region region0 addr len then Some region0
  else find_in (drop 1 mem_regions) addr len.

Definition region_guest_to_host (region : MemRegion) (addr : Z) : host_ptr :=
  (host region, addr - base region).

Definition paddr_is_backed (addr len : Z) : bool :=
  match find_mem_region addr len with Some _ => true | None => false end.

Definition paddr_is_loadable (addr len : Z) : bool :=
  match find_mem_region addr len with Some region => loadable region | None => false end.

Definition in_pmem (addr : Z) : bool := paddr_is_backed addr 1.

Definition guest_to_host (paddr : Z) : outcome host_ptr :=
  match find_mem_region paddr 1 with
  | Some region => Ok (region_guest_to_host region paddr)
  | None => Abort "address is not backed by physical memory"
  end.

Fixpoint host_to_guest_in (regions : list MemRegion) (haddr : host_ptr) : outcome Z :=
  match regions with
  | [] => Abort "host address is not backed by physical memory"
  | region :: rs =>
      if decide (haddr.1 = host region) then
        if (0 <=? haddr.2) && (haddr.2 <? size region)
        then Ok (u32 (base region + haddr.2))
        else host_to_guest_in rs haddr
      else host_to_guest_in rs haddr
  end.
Definition host_to_guest (haddr : host_ptr) : outcome Z := host_to_guest_in mem_regions haddr.
End Regions.

(** ** host.h *)

Definition host_array (m : phys_mem) (h : host_id) : harray :=
  match h with H_pmem => pmem m | H_mrom => mrom m | H_sram => sram m end.
Definition set_host_array (m : phys_mem) (h : host_id) (a : harray) : phys_mem :=
  match h with
  | H_pmem => {m with pmem := a}
  | H_mrom => {m with mrom := a}
  | H_sram => {m with sram := a}
  end.

(** The number of bytes of each array. *)
Definition host_len `{Config} (h : host_id) : Z :=
  match h with H_pmem => CONFIG_MSIZE | H_mrom => 0x1000 | H_sram => 0x2000 end.

(** The bytes from [i] to [i + len] are inside an array of [n] bytes. *)
Definition in_array (n i len : Z) : bool := (0 <=? i) && (i + len <=? n).

(** [addr] points to byte [i] of the array [a] of [n] bytes. *)
Definition host_read `{Config} (n : Z) (a : harray) (i len : Z) : outcome Z :=
  if (len =? 1) || (len =? 2) || (len =? 4) then
    if in_array n i len then Ok (ha_read a i len) else Undef "read outside an array"
  else if CONFIG_RT_CHECK then Abort "assert(0)" else Ok 0.

Definition host_write `{Config} (n : Z) (a : harray) (i len data : Z) : outcome harray :=
  if (len =? 1) || (len =? 2) || (len =? 4) then
    if in_array n i len then Ok (ha_write a i len data) else Undef "write outside an array"
  else if CONFIG_RT_CHECK then Abort "assert(0)" else Ok a.

(** ** Operations on backed memory *)

Section Access.
Context `{Config} {CPU : Type}.

Definition pmem_read (addr len : Z) : M CPU Z :=
  match find_mem_region addr len with
  | None => abort "address is not backed by physical memory"
  | Some region =>
      let (h, i) := region_guest_to_host region addr in
      m ← gets mem; lift (host_read (host_len h) (host_array m h) i len)
  end.

Definition pmem_write (addr len data : Z) : M CPU unit :=
  match find_mem_region addr len with
  | None => abort "address is not backed by physical memory"
  | Some region =>
      assert_that (writable region) "write to non-writable memory region" ;;
      let (h, i) := region_guest_to_host region addr in
      m ← gets mem;
      a ← lift (host_write (host_len h) (host_array m h) i len data);
      modify (with_mem (set_host_array m h a))
  end.

Definition paddr_memcpy_to_guest (addr : Z) (buf : list Z) (require_loadable : bool) : M CPU unit :=
  match find_mem_region addr (Z.of_nat (length buf)) with
  | None => abort "load range is not backed by physical memory"
  | Some region =>
      assert_that (negb require_loadable || loadable region)
        "load range targets non-loadable memory region" ;;
      let (h, i) := region_guest_to_host region addr in
      m ← gets mem;
      if in_array (host_len h) i (Z.of_nat (length buf))
      then modify (with_mem (set_host_array m h (ha_put (host_array m h) i buf)))
      else undef "memcpy outside an array"
  end.

Definition paddr_memcpy_from_guest (addr len : Z) : M CPU (list Z) :=
  match find_mem_region addr len with
  | None => abort "copy range is not backed by physical memory"
  | Some region =>
      let (h, i) := region_guest_to_host region addr in
      m ← gets mem;
      if in_array (host_len h) i len then mret (ha_get_n (host_array m h) i (Z.to_nat len))
      else undef "memcpy outside an array"
  end.

(** [rand_byte] is the low byte of the value of the external [rand()] when
    CONFIG_MEM_RANDOM is set, absent otherwise. *)
Definition init_mem (rand_byte : option Z) : M CPU unit :=
  match rand_byte with
  | Some b => modify (fun s => {s with mem ::= (fun m => {m with pmem := HArray (u8 b) ∅})})
  | None => mret tt
  end.
End Access.

(** ** Regions: arithmetic specification *)

Section RegionFacts.
Context `{Config} (Hcfg : config_ok = true).

Lemma region_bounds r :
  r ∈ mem_regions -> 0 <= base r /\ 0 < size r /\ base r + size r <= 2 ^ 32.
Proof using Hcfg.
  destruct (config_ok_spec Hcfg) as (Hb & Hs & Ht & _).
  unfold mem_regions. rewrite !elem_of_cons, elem_of_nil.
  intros [-> | [-> | [-> | []]]]; cbn [base size region0 region_mrom region_sram]; lia.
Qed.

(** The wrapping test of the code is the plain interval test. *)
Lemma range_in_region_spec r addr len :
  r ∈ mem_regions -> in_u 32 addr ->
  range_in_region r addr len = true <->
  base r <= addr < base r + size r /\ addr + len <= base r + size r.
Proof using Hcfg.
  intros Hr Ha. destruct (region_bounds r Hr) as (Hb & Hs & Ht).
  unfold range_in_region. rewrite andb_true_iff, Z.ltb_lt, Z.leb_le.
  unfold in_u in Ha. destruct (Z.leb_spec (base r) addr).
  - rewrite wrap_small by (unfold in_u; lia). lia.
  - rewrite <- (wrap_add_mult 32 _ 1), wrap_small by (unfold in_u; lia). lia.
Qed.

Lemma find_mem_region_alt addr len :
  find_mem_region addr len = find_in mem_regions addr len.
Proof using Type. done. Qed.

Lemma find_in_elem rs addr len r :
  find_in rs addr len = Some r -> r ∈ rs /\ range_in_region r addr len = true.
Proof using Type.
  induction rs as [|r0 rs IH]; cbn; [done|]. destruct (range_in_region r0 addr len) eqn:E.
  - intros [= <-]. split; [left|done].
  - intros ?%IH. split; [right|]; tauto.
Qed.

Lemma find_in_none rs addr len :
  find_in rs addr len = None -> forall r, r ∈ rs -> range_in_region r addr len = false.
Proof using Type.
  induction rs as [|r0 rs IH]; cbn; [intros _ r Hr; by apply elem_of_nil in Hr|].
  destruct (range_in_region r0 addr len) eqn:E; [done|].
  intros Hn r [->|Hr]%elem_of_cons; auto.
Qed.

(** Regions do not overlap. *)
Lemma regions_disjoint r1 r2 a :
  r1 ∈ mem_regions -> r2 ∈ mem_regions ->
  base r1 <= a < base r1 + size r1 -> base r2 <= a < base r2 + size r2 -> r1 = r2.
Proof using Hcfg.
  destruct (config_ok_spec Hcfg) as (Hb & Hs & Ht & _).
  unfold mem_regions. rewrite !elem_of_cons, !elem_of_nil.
  intros [-> | [-> | [-> | []]]] [-> | [-> | [-> | []]]]; try done;
    cbn [base size region0 region_mrom region_sram]; lia.
Qed.

(** [find_mem_region] returns the region that contains the range. *)
Lemma find_mem_region_spec addr len r :
  in_u 32 addr ->
  find_mem_region addr len = Some r <->
  r ∈ mem_regions /\ base r <= addr < base r + size r /\ addr + len <= base r + size r.
Proof using Hcfg.
  intros Ha. rewrite find_mem_region_alt. split.
  - intros [Hr Hin]%find_in_elem. split; [done|]. by apply range_in_region_spec.
  - intros (Hr & Hin & Hlen). destruct find_in as [r'|] eqn:E.
    + apply find_in_elem in E as [Hr' Hin'%range_in_region_spec]; [|done|done].
      f_equal. by eapply regions_disjoint; [| |apply Hin'|].
    + apply (find_in_none _ _ _ E) in Hr as Hf.
      rewrite (proj2 (range_in_region_spec r addr len Hr Ha)) in Hf; done.
Qed.

(** The arrays are as large as the regions. *)
Lemma region_fits r : r ∈ mem_regions -> size r <= host_len (host r).
Proof using Hcfg.
  destruct (config_ok_spec Hcfg) as (_ & Hs & _). unfold mem_regions. rewrite !elem_of_cons, elem_of_nil.
  intros [-> | [-> | [-> | []]]]; cbn [size host host_len region0 region_mrom region_sram]; lia.
Qed.

Lemma region_in_array addr len r :
  in_u 32 addr -> find_mem_region addr len = Some r -> in_array (host_len (host r)) (addr - base r) len = true.
Proof using Hcfg.
  intros Ha (Hr & Hin & Hl)%find_mem_region_spec; [|done]. pose proof (region_fits r Hr).
  unfold in_array. apply andb_true_intro. split; apply Z.leb_le; lia.
Qed.

Lemma backed_sub addr len a l :
  in_u 32 addr -> in_u 32 a -> paddr_is_backed addr len = true ->
  addr <= a -> 0 < l -> a + l <= addr + len -> paddr_is_backed a l = true.
Proof using Hcfg.
  unfold paddr_is_backed. intros Ha Ha' Hb H1 H2 H3.
  destruct (find_mem_region addr len) as [r|] eqn:E; [|done].
  apply find_mem_region_spec in E as (Hr & Hin & Hl); [|done].
  rewrite (proj2 (find_mem_region_spec a l r Ha')); [done|]. split_and!; auto; lia.
Qed.

Lemma region_host_inj r1 r2 :
  r1 ∈ mem_regions -> r2 ∈ mem_regions -> host r1 = host r2 -> r1 = r2.
Proof using Type.
  unfold mem_regions. rewrite !elem_of_cons, !elem_of_nil.
  intros [-> | [-> | [-> | []]]] [-> | [-> | [-> | []]]]; done.
Qed.

Lemma host_to_guest_in_spec rs h i r :
  r ∈ rs -> (forall r', r' ∈ rs -> host r' = host r -> r' = r) ->
  h = host r -> 0 <= i < size r ->
  host_to_guest_in rs (h, i) = Ok (u32 (base r + i)).
Proof using Type.
  intros Hr Hinj -> Hi. induction rs as [|r0 rs IH]; [by apply elem_of_nil in Hr|].
  cbn [host_to_guest_in fst snd]. case_decide as Hd.
  - rewrite (Hinj r0) by (first [left | done]).
    rewrite (proj2 (Z.leb_le 0 i)), (proj2 (Z.ltb_lt i (size r))) by lia. done.
  - apply IH.
    + apply elem_of_cons in Hr as [->|]; done.
    + intros r' Hr'. apply Hinj. by right.
Qed.

(** Converting a backed guest address to a host pointer and back. *)
Lemma guest_host_roundtrip paddr p :
  in_u 32 paddr -> guest_to_host paddr = Ok p -> host_to_guest p = Ok paddr.
Proof using Hcfg.
  unfold guest_to_host. intros Ha. destruct find_mem_region as [r|] eqn:E; [|done].
  intros [= <-]. apply find_mem_region_spec in E as (Hr & Hin & Hl); [|done].
  unfold host_to_guest, region_guest_to_host.
  rewrite (host_to_guest_in_spec _ _ _ r); auto; [|by intros; apply region_host_inj|lia].
  f_equal. replace (base r + (paddr - base r)) with paddr by lia. by apply wrap_small.
Qed.
End RegionFacts.

(** ** Reads and writes *)

Lemma host_array_set_same m h a : host_array (set_host_array m h a) h = a.
Proof. by destruct h. Qed.
Lemma host_array_set_other m h h' a :
  h <> h' -> host_array (set_host_array m h a) h' = host_array m h'.
Proof. by destruct h, h'. Qed.

Definition access_len (len : Z) : bool := (len =? 1) || (len =? 2) || (len =? 4).

Lemma access_len_pos len : access_len len = true -> 0 < len.
Proof. unfold access_len. rewrite !orb_true_iff, !Z.eqb_eq. lia. Qed.

Lemma host_read_len `{Config} n a i len :
  access_len len = true -> host_read n a i len = if in_array n i len then Ok (ha_read a i len) else Undef "read outside an array".
Proof. unfold host_read, access_len. by intros ->. Qed.
Lemma host_write_len `{Config} n a i len v :
  access_len len = true -> host_write n a i len v = if in_array n i len then Ok (ha_write a i len v) else Undef "write outside an array".
Proof. unfold host_write, access_len. by intros ->. Qed.

Section AccessFacts.
Context `{Config} {CPU : Type}.
Implicit Types s : nemu CPU.

Definition mem_ok (m : phys_mem) : Prop := ha_ok (pmem m) /\ ha_ok (mrom m) /\ ha_ok (sram m).

Lemma host_array_ok m h : mem_ok m -> ha_ok (host_array m h).
Proof using Type. intros (? & ? & ?). by destruct h. Qed.
Lemma set_host_array_ok m h a : mem_ok m -> ha_ok a -> mem_ok (set_host_array m h a).
Proof using Type. intros (? & ? & ?) ?. by destruct h. Qed.

Lemma pmem_read_backed addr len s r :
  find_mem_region addr len = Some r -> access_len len = true -> in_array (host_len (host r)) (addr - base r) len = true ->
  pmem_read addr len s = Ok (ha_read (host_array (mem s) (host r)) (addr - base r) len, s).
Proof using Type.
  intros E Hl Hi. unfold pmem_read, region_guest_to_host. rewrite E. run_simpl.
  rewrite host_read_len by done. by rewrite Hi.
Qed.

Lemma pmem_write_backed addr len v s r :
  find_mem_region addr len = Some r -> access_len len = true -> writable r = true ->
  in_array (host_len (host r)) (addr - base r) len = true ->
  pmem_write addr len v s =
  Ok (tt, with_mem (set_host_array (mem s) (host r)
                      (ha_write (host_array (mem s) (host r)) (addr - base r) len v)) s).
Proof using Type.
  intros E Hl Hw Hi. unfold pmem_write, region_guest_to_host. rewrite E, Hw. run_simpl.
  rewrite host_write_len by done. by rewrite Hi.
Qed.

(** A store that succeeds was to a writable region, inside its array. *)
Lemma pmem_write_ok addr len v s r s' :
  find_mem_region addr len = Some r -> access_len len = true -> pmem_write addr len v s = Ok (tt, s') ->
  writable r = true /\ in_array (host_len (host r)) (addr - base r) len = true.
Proof using Type.
  intros E Hl. unfold pmem_write, region_guest_to_host. rewrite E. destruct (writable r); [|done]. run_simpl.
  rewrite host_write_len by done. by destruct in_array.
Qed.

(** A store to a region that is not writable stops the emulator. *)
Lemma pmem_write_readonly addr len v s r :
  find_mem_region addr len = Some r -> writable r = false ->
  pmem_write addr len v s = Abort "write to non-writable memory region".
Proof using Type. intros E Hw. unfold pmem_write. rewrite E, Hw. done. Qed.
End AccessFacts.
