(* ===== verification/Devices.v ===== *)
(** * Device handlers (nemu/src/device)

    The io callbacks of the NPC devices (npc-dev.c), the serial port, the timer,
    the keyboard and the SD card, with the state each keeps.  A handler runs
    before a read and after a write of its window ([map_read]/[map_write] of
    IoMap.v); it reads and writes the window through [io_space]. *)
From S2P Require Import Prelude Outcome Bytes Config CommitEvent Machine.

(** ** Window access *)

(** The loop of [load_le] of npc-dev.c: [data |= (uint32_t)p[i] << (i * 8)]. *)
Fixpoint load_le_from (a : harray) (p : Z) (i : Z) (n : nat) (data : Z) : Z :=
  match n with
  | O => data
  | S n' => load_le_from a p (i + 1) n' (Z.lor data (u32 (Z.shiftl (ha_get a (p + i)) (i * 8))))
  end.
Definition load_le (a : harray) (p len : Z) : Z := load_le_from a p 0 (Z.to_nat len) 0.

(** [store_le]: [p[i] = data >> (i * 8)]. *)
Fixpoint store_le_from (a : harray) (p : Z) (i : Z) (n : nat) (data : Z) : harray :=
  match n with
  | O => a
  | S n' => store_le_from (ha_set a (p + i) (Z.shiftr data (i * 8))) p (i + 1) n' data
  end.
Definition store_le (a : harray) (p len data : Z) : harray := store_le_from a p 0 (Z.to_nat len) data.

(** [memset(p, 0, len)]. *)
Definition clear (a : harray) (p len : Z) : harray := ha_put a p (replicate (Z.to_nat len) 0).

Section Devices.
Context `{Config} {CPU : Type}.
Abbreviation Mn := (M CPU).

Definition modify_io (f : io_state -> io_state) : Mn unit :=
  modify (fun s => {s with io ::= f}).
Definition modify_space (f : harray -> harray) : Mn unit :=
  modify_io (fun d => {d with io_space ::= f}).

(** ** npc-dev.c *)

Definition NPC_UART_BASE : Z := 0x10000000.
Definition NPC_UART_SIZE : Z := 0x20.
Definition NPC_CLINT_BASE : Z := 0x02000000.
Definition NPC_CLINT_SIZE : Z := 0x00010000.
Definition NPC_CLINT_MSIP : Z := 0x0000.
Definition NPC_CLINT_MTIMECMP : Z := 0x4000.
Definition NPC_CLINT_MTIME : Z := 0xbff8.

Definition set_mismatch (b : bool) : Mn unit :=
  modify_io (fun d => {d with mmio_replay_mismatch := b}).
Definition set_replay_valid (b : bool) : Mn unit :=
  modify_io (fun d => {d with mmio_replay ::= (fun r => {r with rp_valid := b})}).

Definition replay_matches (addr len : Z) (is_write : bool) (data : Z) : Mn bool :=
  if negb CONFIG_TARGET_SHARE then mret false else
  r ← gets (fun s => mmio_replay (io s));
  if negb (rp_valid r) then
    printf "DIFFTEST_RESULT status=fail reason=unexpected_ref_mmio" [AZ addr; AZ len; AZ (b2z is_write)] ;;
    set_mismatch true ;;
    mret false
  else if negb (rp_addr r =? addr) || negb (rp_len r =? len) || negb (eqb (rp_is_write r) is_write) then
    printf "DIFFTEST_RESULT status=fail reason=mmio_replay_mismatch"
      [AZ addr; AZ len; AZ (b2z is_write); AZ (rp_addr r); AZ (rp_len r); AZ (b2z (rp_is_write r))] ;;
    set_mismatch true ;;
    set_replay_valid false ;;
    mret false
  else if is_write && negb (rp_wdata r =? data) then
    printf "DIFFTEST_RESULT status=fail reason=mmio_replay_wdata" [AZ data; AZ (rp_wdata r); AZ addr] ;;
    set_mismatch true ;;
    set_replay_valid false ;;
    mret false
  else mret true.

Definition consume_replay : Mn unit :=
  when CONFIG_TARGET_SHARE (set_replay_valid false).

Definition npc_uart_io_handler (offset len : Z) (is_write : bool) : Mn unit :=
  assert_that ((offset <? NPC_UART_SIZE) && (u32 (offset + len) <=? NPC_UART_SIZE)) "npc_uart_io_handler" ;;
  let addr := u32 (NPC_UART_BASE + offset) in
  p ← gets (fun s => npc_uart_base (io s) + offset);
  if is_write then
    data ← gets (fun s => load_le (io_space (io s)) p len);
    b ← replay_matches addr len true data;
    if (b : bool) then consume_replay
    else when (negb CONFIG_TARGET_SHARE && (offset =? 0) && (len =? 1)) (putc_stderr (Z.land data 0xff))
  else
    b ← replay_matches addr len false 0;
    if (b : bool) then
      rdata ← gets (fun s => rp_rdata (mmio_replay (io s)));
      modify_space (fun a => store_le a p len rdata) ;;
      consume_replay
    else modify_space (fun a => clear a p len).

Definition clint_reg_access (offset len : Z) : bool :=
  let end_ := u32 (offset + len) in
  ((offset <? NPC_CLINT_MSIP + 4) && (NPC_CLINT_MSIP <? end_)) ||
  ((offset <? NPC_CLINT_MTIMECMP + 8) && (NPC_CLINT_MTIMECMP <? end_)) ||
  ((offset <? NPC_CLINT_MTIME + 8) && (NPC_CLINT_MTIME <? end_)).

Definition update_mtime : Mn unit :=
  ticks ← gets g_nr_guest_inst;
  b ← gets (fun s => npc_clint_base (io s));
  modify_space (fun a => store_le a (b + NPC_CLINT_MTIME) 4 (u32 ticks)) ;;
  modify_space (fun a => store_le a (b + NPC_CLINT_MTIME + 4) 4 (u32 (Z.shiftr ticks 32))).

Definition npc_clint_io_handler (offset len : Z) (is_write : bool) : Mn unit :=
  assert_that ((1 <=? len) && (len <=? 8)) "npc_clint_io_handler" ;;
  let addr := u32 (NPC_CLINT_BASE + offset) in
  p ← gets (fun s => npc_clint_base (io s) + offset);
  if negb (clint_reg_access offset len) then
    when (negb is_write) (modify_space (fun a => clear a p len))
  else if is_write then
    data ← gets (fun s => load_le (io_space (io s)) p len);
    b ← replay_matches addr len true data;
    when b consume_replay
  else
    b ← replay_matches addr len false 0;
    if (b : bool) then
      rdata ← gets (fun s => rp_rdata (mmio_replay (io s)));
      modify_space (fun a => store_le a p len rdata) ;;
      consume_replay
    else update_mtime.

Definition npc_mmio_replay_set (record : MMIOReplayRecord) : Mn unit :=
  if CONFIG_TARGET_SHARE then
    v ← gets (fun s => rp_valid (mmio_replay (io s)));
    assert_that (negb v) "npc_mmio_replay_set" ;;
    modify_io (fun d => {d with mmio_replay := record; mmio_replay_mismatch := false})
  else mret tt.

Definition npc_mmio_replay_ok : Mn bool :=
  if CONFIG_TARGET_SHARE then
    mm ← gets (fun s => mmio_replay_mismatch (io s));
    if (mm : bool) then mret false else
    r ← gets (fun s => mmio_replay (io s));
    if rp_valid r then
      printf "DIFFTEST_RESULT status=fail reason=missing_ref_mmio"
        [AZ (rp_addr r); AZ (rp_len r); AZ (b2z (rp_is_write r))] ;;
      set_replay_valid false ;;
      mret false
    else mret true
  else mret true.

(** ** serial.c *)

Definition CH_OFFSET : Z := 0.

(** [char ch] is the byte, signed; [putc] writes it back as a byte. *)
Definition serial_putc (ch : Z) : Mn unit := putc_stderr (s8 ch).

Definition serial_io_handler (offset len : Z) (is_write : bool) : Mn unit :=
  assert_that (len =? 1) "serial_io_handler" ;;
  if offset =? CH_OFFSET then
    if is_write then
      ch ← gets (fun s => ha_get (io_space (io s)) (serial_base (io s)));
      serial_putc ch
    else abort "do not support read"
  else abort "do not support offset".

(** ** timer.c *)

Definition rtc_io_handler (offset len : Z) (is_write : bool) : Mn unit :=
  assert_that ((offset =? 0) || (offset =? 4)) "rtc_io_handler" ;;
  when (negb is_write)
    (n ← gets g_nr_guest_inst;
     b ← gets (fun s => rtc_port_base (io s));
     let us := n / 100 in
     modify_space (fun a => ha_write a b 4 (u32 us)) ;;
     modify_space (fun a => ha_write a (b + 4) 4 (u32 (Z.shiftr us 32)))).

(** [dev_raise_intr] of intr.c is empty. *)
Definition dev_raise_intr : Mn unit := mret tt.
Definition timer_intr : Mn unit :=
  st ← gets (fun s => state (nemu_state s));
  when (bool_decide (st = NEMU_RUNNING)) dev_raise_intr.

(** ** keyboard.c *)

Definition KEYDOWN_MASK : Z := 0x8000.
Definition NEMU_KEY_NONE : Z := 0.
Definition KEY_QUEUE_LEN : Z := 1024.

Definition modify_keys (f : key_state -> key_state) : Mn unit :=
  modify_io (fun d => {d with keys ::= f}).

Definition key_enqueue (am_scancode : Z) : Mn unit :=
  modify_keys (fun k => {k with key_queue ::= <[Z.to_nat (key_r k) := am_scancode]>;
                                key_r := (key_r k + 1) mod KEY_QUEUE_LEN}) ;;
  k ← gets (fun s => keys (io s));
  assert_that (negb (key_r k =? key_f k)) "key queue overflow!".

Definition key_dequeue : Mn Z :=
  k ← gets (fun s => keys (io s));
  if negb (key_f k =? key_r k) then
    modify_keys (fun k => {k with key_f := (key_f k + 1) mod KEY_QUEUE_LEN}) ;;
    mret (u32 (default 0 (key_queue k !! Z.to_nat (key_f k))))
  else mret NEMU_KEY_NONE.

Definition send_key (scancode : Z) (is_keydown : bool) : Mn unit :=
  st ← gets (fun s => state (nemu_state s));
  k ← gets (fun s => default 0 (keymap (keys (io s)) !! scancode));
  when (bool_decide (st = NEMU_RUNNING) && negb (k =? NEMU_KEY_NONE))
    (key_enqueue (Z.lor k (if is_keydown then KEYDOWN_MASK else 0))).

Definition i8042_data_io_handler (offset len : Z) (is_write : bool) : Mn unit :=
  assert_that (negb is_write) "i8042_data_io_handler" ;;
  assert_that (offset =? 0) "i8042_data_io_handler" ;;
  k ← key_dequeue;
  b ← gets (fun s => i8042_data_port_base (io s));
  modify_space (fun a => ha_write a b 4 k).

(** ** audio.c: the handler is empty. *)
Definition audio_io_handler (offset len : Z) (is_write : bool) : Mn unit := mret tt.
End Devices.

(** The keys of [NEMU_KEYS], in the order of the macro; key [i] of the list has
    the code [i + 1] of the enumeration. *)
Definition NEMU_KEYS : list string := [
  "ESCAPE"; "F1"; "F2"; "F3"; "F4"; "F5"; "F6"; "F7"; "F8"; "F9"; "F10"; "F11"; "F12";
  "GRAVE"; "1"; "2"; "3"; "4"; "5"; "6"; "7"; "8"; "9"; "0"; "MINUS"; "EQUALS"; "BACKSPACE";
  "TAB"; "Q"; "W"; "E"; "R"; "T"; "Y"; "U"; "I"; "O"; "P"; "LEFTBRACKET"; "RIGHTBRACKET"; "BACKSLASH";
  "CAPSLOCK"; "A"; "S"; "D"; "F"; "G"; "H"; "J"; "K"; "L"; "SEMICOLON"; "APOSTROPHE"; "RETURN";
  "LSHIFT"; "Z"; "X"; "C"; "V"; "B"; "N"; "M"; "COMMA"; "PERIOD"; "SLASH"; "RSHIFT";
  "LCTRL"; "APPLICATION"; "LALT"; "SPACE"; "RALT"; "RCTRL";
  "UP"; "DOWN"; "LEFT"; "RIGHT"; "INSERT"; "DELETE"; "HOME"; "END"; "PAGEUP"; "PAGEDOWN"]%string.

(** [init_keymap]; the scan codes are constants of the SDL headers. *)
Fixpoint keymap_from (SDL_SCANCODE : string -> Z) (ks : list string) (i : Z) (m : gmap Z Z) : gmap Z Z :=
  match ks with
  | [] => m
  | k :: ks' => keymap_from SDL_SCANCODE ks' (i + 1) (<[SDL_SCANCODE k := i]> m)
  end.
Definition init_keymap {CPU} (SDL_SCANCODE : string -> Z) : M CPU unit :=
  modify_keys (fun k => {k with keymap := keymap_from SDL_SCANCODE NEMU_KEYS 1 (keymap k)}).

(** ** sdcard.c *)

Module SdCard.
Definition MEMORY_SIZE : Z := 16 * 1024 * 1024 * 1024.
Definition READ_BL_LEN : Z := 15.
Definition BLOCK_LEN : Z := Z.shiftl 1 READ_BL_LEN.
Definition NR_BLOCK : Z := MEMORY_SIZE / BLOCK_LEN.
Definition C_SIZE_MULT : Z := 7.
Definition MULT : Z := Z.shiftl 1 (C_SIZE_MULT + 2).
Definition C_SIZE : Z := NR_BLOCK / MULT - 1.

Definition SDCMD := 0.
Definition SDARG := 1.
Definition SDRSP0 := 4.
Definition SDRSP1 := 5.
Definition SDRSP2 := 6.
Definition SDRSP3 := 7.
Definition SDDATA := 16.

Section Handler.
Context {CPU : Type}.

Definition modify_sd (f : sd_state -> sd_state) : M CPU unit :=
  modify_io (fun d => {d with sdcard ::= f}).
(** [base[idx]] of the [uint32_t] array. *)
Definition sd_reg (idx : Z) : M CPU Z :=
  gets (fun s => ha_read (io_space (io s)) (sd_base (sdcard (io s)) + 4 * idx) 4).
Definition set_sd_reg (idx v : Z) : M CPU unit :=
  b ← gets (fun s => sd_base (sdcard (io s)));
  modify_space (fun a => ha_write a (b + 4 * idx) 4 (u32 v)).

Definition prepare_rw (is_write : bool) : M CPU unit :=
  arg ← sd_reg SDARG;
  modify_sd (fun d => {d with blk_addr := arg; sd_addr := 0;
    sd_file ::= option_map (fun f => {f with f_pos := Z.shiftl arg 9});
    write_cmd := is_write}).

Definition sdcard_handle_cmd (cmd : Z) : M CPU unit :=
  match cmd with
  | 0 => mret tt
  | 1 => set_sd_reg SDRSP0 0x80ff8000
  | 2 => set_sd_reg SDRSP0 1 ;; set_sd_reg SDRSP1 0 ;; set_sd_reg SDRSP2 0 ;; set_sd_reg SDRSP3 0x15000000
  | 52 => mret tt
  | 9 =>
      set_sd_reg SDRSP0 0x92404001 ;;
      set_sd_reg SDRSP1 (Z.lor 0x124b97e3 (Z.shiftl (Z.land C_SIZE 3) 30)) ;;
      set_sd_reg SDRSP2 (Z.lor (Z.lor 0x0f508000 (Z.shiftr C_SIZE 2)) (Z.shiftl READ_BL_LEN 16)) ;;
      set_sd_reg SDRSP3 0x9026012a
  | 8 => modify_sd (fun d => {d with read_ext_csd := true; sd_addr := 0})
  | 5 | 55 | 3 | 7 => mret tt
  | 23 => arg ← sd_reg SDARG; modify_sd (fun d => {d with blkcnt := Z.land arg 0xffff})
  | 18 => prepare_rw false
  | 25 => prepare_rw true
  | 13 => set_sd_reg SDRSP0 0x900 ;; set_sd_reg SDRSP3 0 ;; set_sd_reg SDRSP2 0 ;; set_sd_reg SDRSP1 0
  | 12 => mret tt
  | _ => abort "unhandled command"
  end.

(** [fread(&base[SDDATA], 4, 1, fp)]: up to four bytes, fewer at the end of
    the file; [fwrite(&base[SDDATA], 4, 1, fp)]. *)
Definition sd_fread (f : file) : M CPU unit :=
  b ← gets (fun s => sd_base (sdcard (io s)));
  let n := Z.max 0 (Z.min 4 (f_len f - f_pos f)) in
  modify_space (fun a => ha_put a (b + 4 * SDDATA) (ha_get_n (f_data f) (f_pos f) (Z.to_nat n))) ;;
  modify_sd (fun d => {d with sd_file := Some {f with f_pos := f_pos f + n}}).
Definition sd_fwrite (f : file) : M CPU unit :=
  b ← gets (fun s => sd_base (sdcard (io s)));
  bs ← gets (fun s => ha_get_n (io_space (io s)) (b + 4 * SDDATA) 4);
  modify_sd (fun d => {d with sd_file := Some {f with
    f_data := ha_put (f_data f) (f_pos f) bs;
    f_len := Z.max (f_len f) (f_pos f + 4); f_pos := f_pos f + 4}}).

Definition ext_csd_data (addr : Z) : Z :=
  if addr =? 192 then 2 else if addr =? 212 then u32 (MEMORY_SIZE / 512) else 0.

Definition sdcard_io_handler (offset len : Z) (is_write : bool) : M CPU unit :=
  let idx := offset / 4 in
  if idx =? SDCMD then cmd ← sd_reg SDCMD; sdcard_handle_cmd (Z.land cmd 0x3f)
  else if (idx =? SDARG) || (idx =? SDRSP0) || (idx =? SDRSP1) || (idx =? SDRSP2) || (idx =? SDRSP3)
  then mret tt
  else if idx =? SDDATA then
    d ← gets (fun s => sdcard (io s));
    (if read_ext_csd d then
       set_sd_reg SDDATA (ext_csd_data (sd_addr d)) ;;
       when (sd_addr d =? 512 - 4) (modify_sd (fun d => {d with read_ext_csd := false}))
     else match sd_file d with
          | Some f => if negb (write_cmd d) then sd_fread f else sd_fwrite f
          | None => mret tt
          end) ;;
    modify_sd (fun d => {d with sd_addr := u32 (sd_addr d + 4)})
  else abort "unhandle offset".
End Handler.
End SdCard.
