(* ===== verification/IoMap.v ===== *)
(** * Memory-mapped and port I/O (nemu/src/device/io, device.c)

    The allocation of windows ([new_space]), the mapping tables and the bus
    functions [mmio_read]/[mmio_write] and [pio_read]/[pio_write], which find the
    window of an address and run its handler; and [init_device], which builds the
    tables.  The table invariant [maps_ok] (at most [NR_MAP] windows, pairwise
    disjoint, outside backed memory) makes the lookup independent of the
    registration order. *)
From S2P Require Import Prelude Outcome Bytes Config CommitEvent Machine PhysMem Devices.

Definition IO_SPACE_MAX : Z := 32 * 1024 * 1024.
Definition NR_MAP : Z := 16.
Definition PORT_IO_SPACE_MAX : Z := 65535.
Definition PAGE_SIZE : Z := Z.shiftl 1 12.
Definition PAGE_MASK : Z := PAGE_SIZE - 1.

Definition map_inside (map : IOMap) (addr : Z) : bool :=
  (low map <=? addr) && (addr <=? high map).

(** Host events polled from SDL. *)
Inductive SDL_Event :=
| SDL_QUIT
| SDL_KEYDOWN (scancode : Z)
| SDL_KEYUP (scancode : Z)
| SDL_OTHER.

Section IoMap.
Context `{Config} {CPU : Type}.
Abbreviation Mn := (M CPU).

Definition new_space (size : Z) : Mn Z :=
  p ← gets (fun s => p_space (io s));
  let size := s32 (Z.land (size + (PAGE_SIZE - 1)) (Z.lnot PAGE_MASK)) in
  modify_io (fun d => {d with p_space := p + size}) ;;
  assert_that (p + size <? IO_SPACE_MAX) "new_space" ;;
  mret p.

(** [difftest_skip_ref]; an empty inline function without CONFIG_DIFFTEST. *)
Definition difftest_skip_ref : Mn unit :=
  when CONFIG_DIFFTEST
    (modify (fun s => {s with dut := {| is_skip_ref := true; skip_dut_nr_inst := 0 |}})).

Fixpoint find_map (ms : list IOMap) (addr : Z) : option IOMap :=
  match ms with
  | [] => None
  | m :: ms' => if map_inside m addr then Some m else find_map ms' addr
  end.

(** [find_mapid_by_addr] followed by the table access. *)
Definition find_mapid_by_addr (ms : list IOMap) (addr : Z) : Mn (option IOMap) :=
  match find_map ms addr with
  | Some m => difftest_skip_ref ;; mret (Some m)
  | None => mret None
  end.

Definition check_bound (map : option IOMap) (addr : Z) : outcome IOMap :=
  match map with
  | None => Abort "address is out of bound"
  | Some m => if map_inside m addr then Ok m else Abort "address is out of bound {map}"
  end.

Definition invoke_callback (c : io_callback) (offset len : Z) (is_write : bool) : Mn unit :=
  match c with
  | cb_none => mret tt
  | cb_serial => serial_io_handler offset len is_write
  | cb_rtc => rtc_io_handler offset len is_write
  | cb_npc_uart => npc_uart_io_handler offset len is_write
  | cb_npc_clint => npc_clint_io_handler offset len is_write
  | cb_i8042 => i8042_data_io_handler offset len is_write
  | cb_audio => audio_io_handler offset len is_write
  | cb_sdcard => SdCard.sdcard_io_handler offset len is_write
  end.

Definition map_read (addr len : Z) (map : option IOMap) : Mn Z :=
  assert_that ((1 <=? len) && (len <=? 8)) "map_read" ;;
  m ← lift (check_bound map addr);
  let offset := u32 (addr - low m) in
  invoke_callback (callback m) offset len false ;;
  a ← gets (fun s => io_space (io s));
  lift (host_read IO_SPACE_MAX a (space m + offset) len).

Definition map_write (addr len data : Z) (map : option IOMap) : Mn unit :=
  assert_that ((1 <=? len) && (len <=? 8)) "map_write" ;;
  m ← lift (check_bound map addr);
  let offset := u32 (addr - low m) in
  a ← gets (fun s => io_space (io s));
  a' ← lift (host_write IO_SPACE_MAX a (space m + offset) len data);
  modify_space (fun _ => a') ;;
  invoke_callback (callback m) offset len true.

(** ** mmio.c *)

Definition fetch_mmio_map (addr : Z) : Mn (option IOMap) :=
  ms ← gets (fun s => maps (io s));
  find_mapid_by_addr ms addr.

Definition overlaps (ms : list IOMap) (left right : Z) : bool :=
  existsb (fun m => (left <=? high m) && (low m <=? right)) ms.

Definition add_mmio_map (nm : string) (addr sp len : Z) (cb : io_callback) : Mn unit :=
  ms ← gets (fun s => maps (io s));
  assert_that (Z.of_nat (length ms) <? NR_MAP) "add_mmio_map" ;;
  let left := addr in
  let right := u32 (addr + len - 1) in
  if in_pmem left || in_pmem right then abort "MMIO region is overlapped with pmem"
  else if overlaps ms left right then abort "MMIO region is overlapped"
  else
    modify_io (fun d => {d with maps ::= (fun ms =>
      ms ++ [{| name := nm; low := addr; high := right; space := sp; callback := cb |}])}).

Definition mmio_read (addr len : Z) : Mn Z :=
  m ← fetch_mmio_map addr; map_read addr len m.
Definition mmio_write (addr len data : Z) : Mn unit :=
  m ← fetch_mmio_map addr; map_write addr len data m.

(** ** port-io.c *)

Definition add_pio_map (nm : string) (addr sp len : Z) (cb : io_callback) : Mn unit :=
  ms ← gets (fun s => pio_maps (io s));
  assert_that (Z.of_nat (length ms) <? NR_MAP) "add_pio_map" ;;
  assert_that (u32 (addr + len) <=? PORT_IO_SPACE_MAX) "add_pio_map" ;;
  modify_io (fun d => {d with pio_maps ::= (fun ms =>
    ms ++ [{| name := nm; low := addr; high := u32 (addr + len - 1); space := sp; callback := cb |}])}).

Definition pio_read (addr len : Z) : Mn Z :=
  assert_that (addr + len - 1 <? PORT_IO_SPACE_MAX) "pio_read" ;;
  ms ← gets (fun s => pio_maps (io s));
  m ← find_mapid_by_addr ms addr;
  match m with
  | None => abort "assert(mapid != -1)"
  | Some _ => map_read addr len m
  end.

Definition pio_write (addr len data : Z) : Mn unit :=
  assert_that (addr + len - 1 <? PORT_IO_SPACE_MAX) "pio_write" ;;
  ms ← gets (fun s => pio_maps (io s));
  m ← find_mapid_by_addr ms addr;
  match m with
  | None => abort "assert(mapid != -1)"
  | Some _ => map_write addr len data m
  end.

(** ** Initialisation of the devices *)

Definition init_map : Mn unit :=
  modify_io (fun d => {d with io_space := ha_zero; p_space := 0}).

(** The choice between [add_pio_map] and [add_mmio_map] of the init functions. *)
Definition add_map (nm : string) (port mmio sp len : Z) (cb : io_callback) : Mn unit :=
  if CONFIG_HAS_PORT_IO then add_pio_map nm port sp len cb else add_mmio_map nm mmio sp len cb.

Definition init_npc_devices : Mn unit :=
  p ← new_space NPC_UART_SIZE;
  modify_io (fun d => {d with npc_uart_base := p}) ;;
  add_mmio_map "npc-uart" NPC_UART_BASE p NPC_UART_SIZE cb_npc_uart ;;
  q ← new_space NPC_CLINT_SIZE;
  modify_io (fun d => {d with npc_clint_base := q}) ;;
  add_mmio_map "npc-clint" NPC_CLINT_BASE q NPC_CLINT_SIZE cb_npc_clint.

Definition init_serial : Mn unit :=
  p ← new_space 8;
  modify_io (fun d => {d with serial_base := p}) ;;
  add_map "serial" CONFIG_SERIAL_PORT CONFIG_SERIAL_MMIO p 8 cb_serial.

(** alarm.c *)
Definition MAX_HANDLER : Z := 8.
Definition add_alarm_handle (h : string) : Mn unit :=
  hs ← gets (fun s => alarm_handlers (io s));
  assert_that (Z.of_nat (length hs) <? MAX_HANDLER) "add_alarm_handle" ;;
  modify_io (fun d => {d with alarm_handlers := (hs ++ [h])}).
Definition run_alarm_handler (h : string) : Mn unit :=
  if String.eqb h "timer_intr" then timer_intr else mret tt.
Definition alarm_sig_handler : Mn unit :=
  hs ← gets (fun s => alarm_handlers (io s)); iter_list run_alarm_handler hs.

Definition init_timer : Mn unit :=
  p ← new_space 8;
  modify_io (fun d => {d with rtc_port_base := p}) ;;
  add_map "rtc" CONFIG_RTC_PORT CONFIG_RTC_MMIO p 8 cb_rtc ;;
  add_alarm_handle "timer_intr".

Definition init_i8042 (SDL_SCANCODE : string -> Z) : Mn unit :=
  p ← new_space 4;
  modify_io (fun d => {d with i8042_data_port_base := p}) ;;
  modify_space (fun a => ha_write a p 4 NEMU_KEY_NONE) ;;
  add_map "keyboard" CONFIG_I8042_DATA_PORT CONFIG_I8042_DATA_MMIO p 4 cb_i8042 ;;
  init_keymap SDL_SCANCODE.

(** vga.c *)
Definition SCREEN_W : Z := if CONFIG_VGA_SIZE_800x600 then 800 else 400.
Definition SCREEN_H : Z := if CONFIG_VGA_SIZE_800x600 then 600 else 300.
Definition screen_width : Z := SCREEN_W.
Definition screen_height : Z := SCREEN_H.
Definition screen_size : Z := u32 (screen_width * screen_height * 4).

Definition init_vga : Mn unit :=
  p ← new_space 8;
  modify_io (fun d => {d with vgactl_port_base := p}) ;;
  modify_space (fun a => ha_write a p 4 (Z.lor (u32 (Z.shiftl screen_width 16)) screen_height)) ;;
  add_map "vgactl" CONFIG_VGA_CTL_PORT CONFIG_VGA_CTL_MMIO p 8 cb_none ;;
  v ← new_space screen_size;
  modify_io (fun d => {d with vmem := v}) ;;
  add_mmio_map "vmem" CONFIG_FB_ADDR v screen_size cb_none ;;
  when CONFIG_VGA_SHOW_SCREEN (modify_space (fun a => clear a v screen_size)).

(** audio.c: [nr_reg] is 6. *)
Definition init_audio : Mn unit :=
  let space_size := 4 * 6 in
  p ← new_space space_size;
  modify_io (fun d => {d with audio_base := p}) ;;
  add_map "audio" CONFIG_AUDIO_CTL_PORT CONFIG_AUDIO_CTL_MMIO p space_size cb_audio ;;
  q ← new_space CONFIG_SB_SIZE;
  modify_io (fun d => {d with sbuf := q}) ;;
  add_mmio_map "audio-sbuf" CONFIG_SB_ADDR q CONFIG_SB_SIZE cb_none.

Definition init_disk : Mn unit := mret tt.

(** sdcard.c; [img] is the file [fopen] returns for the configured path. *)
Definition init_sdcard (img : option file) : Mn unit :=
  p ← new_space 0x80;
  SdCard.modify_sd (fun d => {d with sd_base := p}) ;;
  add_mmio_map "sdhci" CONFIG_SDCARD_CTL_MMIO p 0x80 cb_sdcard ;;
  assert_that (SdCard.C_SIZE <? Z.shiftl 1 12) "shoule be fit in 12 bits" ;;
  SdCard.modify_sd (fun d => {d with sd_file := img}).

(** device.c *)
Definition init_device (SDL_SCANCODE : string -> Z) (img : option file) : Mn unit :=
  init_map ;;
  when CONFIG_HAS_SERIAL init_serial ;;
  when CONFIG_HAS_TIMER init_timer ;;
  init_npc_devices ;;
  when CONFIG_HAS_VGA init_vga ;;
  when CONFIG_HAS_KEYBOARD (init_i8042 SDL_SCANCODE) ;;
  when CONFIG_HAS_AUDIO init_audio ;;
  when CONFIG_HAS_DISK init_disk ;;
  when CONFIG_HAS_SDCARD (init_sdcard img).

Definition handle_event (e : SDL_Event) : Mn unit :=
  match e with
  | SDL_QUIT => modify (fun s => {s with nemu_state ::= (fun n => {n with state := NEMU_QUIT})})
  | SDL_KEYDOWN k => when CONFIG_HAS_KEYBOARD (send_key (u8 k) true)
  | SDL_KEYUP k => when CONFIG_HAS_KEYBOARD (send_key (u8 k) false)
  | SDL_OTHER => mret tt
  end.

Definition TIMER_HZ : Z := 60.

(** [now] is the value of [get_time()], [events] what [SDL_PollEvent] yields. *)
Definition device_update (now : Z) (events : list SDL_Event) : Mn unit :=
  last ← gets (fun s => last_update (io s));
  if u64 (now - last) <? 1000000 / TIMER_HZ then mret tt else
  modify_io (fun d => {d with last_update := now}) ;;
  when (CONFIG_HAS_VGA || CONFIG_HAS_KEYBOARD) (iter_list handle_event events).
End IoMap.
