(* ===== verification/DeviceFacts.v ===== *)
(** * Properties of the devices

    The keyboard queue is a bounded FIFO, the MMIO replay used by DiffTest
    accepts exactly the one access it was armed with, the byte loops of
    npc-dev.c are little-endian loads and stores, and the MMIO map table keeps
    its regions disjoint, so that looking an address up does not depend on the
    order of registration. *)
From S2P Require Import Prelude Outcome Bytes Config CommitEvent CommitRing Machine PhysMem Devices IoMap.

(** ** Byte loops *)

(** [ha_put] of the bytes [store_le] writes. *)
Lemma store_le_put a p i n v :
  0 <= i -> store_le_from a p i n v = ha_put a (p + i) (le_split n (v / 2 ^ (8 * i))).
Proof.
  revert a i; induction n as [|n IH]; intros a i Hi; [done|].
  cbn [store_le_from le_split ha_put]. rewrite IH by lia.
  rewrite Z.shiftr_div_pow2 by lia. f_equal; [|lia|].
  - unfold ha_set. rewrite (Z.mul_comm i 8). do 2 f_equal. unfold wrap. change 256 with (2 ^ 8).
    by rewrite Zmod_mod.
  - f_equal. replace (8 * (i + 1)) with (8 * i + 8) by lia.
    rewrite Z.pow_add_r, <- Z.div_div by (try apply pow2_pos; lia). done.
Qed.

Lemma store_le_write a p len v : store_le a p len v = ha_write a p len v.
Proof.
  unfold store_le, ha_write. rewrite store_le_put by lia. by rewrite Z.add_0_r, Z.mul_0_r, Z.pow_0_r, Z.div_1_r.
Qed.

Lemma load_le_combine a p i n data :
  ha_ok a -> 0 <= i -> i + Z.of_nat n <= 4 -> in_u (8 * i) data ->
  load_le_from a p i n data = data + le_combine (ha_get_n a (p + i) n) * 2 ^ (8 * i).
Proof.
  intros Ha. revert i data; induction n as [|n IH]; intros i data Hi Hn Hd; cbn [load_le_from ha_get_n le_combine]; [lia|].
  pose proof (ha_get_ok a (p + i) Ha) as Hb. unfold in_u in Hb, Hd.
  assert (2 ^ (8 * i + 8) = 2 ^ (8 * i) * 256) as E8 by (by rewrite Z.pow_add_r by lia).
  assert (0 < 2 ^ (8 * i)) as Hp by (apply pow2_pos; lia).
  assert (2 ^ (8 * i) * 256 <= 2 ^ 32) as Hle by (rewrite <- E8; apply Z.pow_le_mono_r; lia).
  rewrite Z.shiftl_mul_pow2, (Z.mul_comm i 8) by lia.
  rewrite wrap_small by (unfold in_u; nia).
  rewrite lor_add_low by (unfold in_u; lia).
  rewrite IH; [|lia|lia|unfold in_u; replace (8 * (i + 1)) with (8 * i + 8) by lia; nia].
  replace (8 * (i + 1)) with (8 * i + 8) by lia. rewrite E8, Z.add_assoc. nia.
Qed.

Lemma load_le_read a p len : ha_ok a -> 0 <= len <= 4 -> load_le a p len = ha_read a p len.
Proof.
  intros Ha Hl. unfold load_le, ha_read. rewrite load_le_combine by (done || lia || (unfold in_u; cbn; lia)).
  rewrite Z.add_0_r. cbn. lia.
Qed.

(** ** The keyboard queue *)

Section Queue.
Context `{Config} {CPU : Type}.
Implicit Types s : nemu CPU.

(** The codes waiting, oldest first. *)
Record queue_repr (k : key_state) (l : list Z) : Prop := {
  q_len : Z.of_nat (length (key_queue k)) = KEY_QUEUE_LEN;
  q_front : 0 <= key_f k < KEY_QUEUE_LEN;
  q_rear : key_r k = (key_f k + Z.of_nat (length l)) mod KEY_QUEUE_LEN;
  q_bound : Z.of_nat (length l) < KEY_QUEUE_LEN;
  q_at : forall i, 0 <= i < Z.of_nat (length l) ->
    key_queue k !! Z.to_nat ((key_f k + i) mod KEY_QUEUE_LEN) = l !! Z.to_nat i;
}.

Lemma key_init_repr : queue_repr key_init [].
Proof using Type. split; cbn; try lia; try done. Qed.

Lemma rear_inj f i j :
  0 <= i < KEY_QUEUE_LEN -> 0 <= j < KEY_QUEUE_LEN -> (f + i) mod KEY_QUEUE_LEN = (f + j) mod KEY_QUEUE_LEN -> i = j.
Proof using Type. unfold KEY_QUEUE_LEN. intros. Z.to_euclidean_division_equations. lia. Qed.

Definition enq (x : Z) (k : key_state) : key_state :=
  {k with key_queue ::= <[Z.to_nat (key_r k) := x]>; key_r := (key_r k + 1) mod KEY_QUEUE_LEN}.
Definition with_keys (f : key_state -> key_state) s : nemu CPU := {s with io ::= (fun d => {d with keys ::= f})}.

Lemma key_enqueue_run x s :
  key_enqueue x s =
  if negb (key_r (enq x (keys (io s))) =? key_f (keys (io s))) then Ok (tt, with_keys (enq x) s)
  else Abort "key queue overflow!".
Proof using Type. 
  unfold key_enqueue, modify_keys, modify_io. run_simpl.
  match goal with |- (if negb (?a =? ?b) then _ else _) _ = _ =>
    change a with (key_r (enq x (keys (io s)))); change b with (key_f (keys (io s))) end.
  by destruct (negb _).
Qed.


Lemma enq_rear x k l :
  queue_repr k l -> key_r (enq x k) = (key_f k + (Z.of_nat (length l) + 1)) mod KEY_QUEUE_LEN.
Proof using Type.
  intros [Hl Hf Hr Hb Hat]. change (key_r (enq x k)) with ((key_r k + 1) mod KEY_QUEUE_LEN). rewrite Hr.
  unfold KEY_QUEUE_LEN. Z.to_euclidean_division_equations. lia.
Qed.

Lemma enq_full x k l :
  queue_repr k l -> (key_r (enq x k) =? key_f k) = (Z.of_nat (length l) =? KEY_QUEUE_LEN - 1).
Proof using Type.
  intros Hq. rewrite (enq_rear x k l Hq). destruct Hq as [Hl Hf Hr Hb Hat].
  apply eq_true_iff_eq. rewrite !Z.eqb_eq. unfold KEY_QUEUE_LEN in *.
  Z.to_euclidean_division_equations. lia.
Qed.

Lemma enq_repr x k l :
  queue_repr k l -> Z.of_nat (length l) < KEY_QUEUE_LEN - 1 -> queue_repr (enq x k) (l ++ [x]).
Proof using Type.
  intros Hq Hn. pose proof (enq_rear x k l Hq) as Er. destruct Hq as [Hl Hf Hr Hb Hat].
  split; rewrite ?length_app; cbn [length].
  - change (key_queue (enq x k)) with (<[Z.to_nat (key_r k) := x]> (key_queue k)). by rewrite length_insert.
  - exact Hf.
  - rewrite Er. change (key_f (enq x k)) with (key_f k). do 2 f_equal. lia.
  - lia.
  - intros i Hi. change (key_f (enq x k)) with (key_f k).
    change (key_queue (enq x k)) with (<[Z.to_nat (key_r k) := x]> (key_queue k)).
    pose proof (Z.mod_pos_bound (key_f k + i) KEY_QUEUE_LEN ltac:(unfold KEY_QUEUE_LEN; lia)).
    pose proof (Z.mod_pos_bound (key_f k + Z.of_nat (length l)) KEY_QUEUE_LEN ltac:(unfold KEY_QUEUE_LEN; lia)).
    destruct (decide (i = Z.of_nat (length l))) as [->|Hne].
    + rewrite Hr, list_lookup_insert_eq by lia. rewrite Nat2Z.id, list_lookup_middle; done.
    + rewrite Hr, list_lookup_insert_ne.
      * rewrite Hat by lia. symmetry. apply lookup_app_l. lia.
      * intros E. apply Z2Nat.inj in E; [|lia..]. apply rear_inj in E; lia.
Qed.

(** Enqueue appends, or stops the emulator when 1023 codes wait. *)
Lemma enqueue_repr x s l :
  queue_repr (keys (io s)) l ->
  if Z.of_nat (length l) <? KEY_QUEUE_LEN - 1 then
    exists s', key_enqueue x s = Ok (tt, s') /\ queue_repr (keys (io s')) (l ++ [x])
  else key_enqueue x s = Abort "key queue overflow!".
Proof using Type.
  intros Hq. pose proof Hq as [_ _ _ Hb _]. rewrite key_enqueue_run, (enq_full x _ l Hq).
  destruct (Z.ltb_spec (Z.of_nat (length l)) (KEY_QUEUE_LEN - 1)).
  - rewrite (proj2 (Z.eqb_neq _ _)) by lia. eexists. split; [done|]. by apply enq_repr.
  - rewrite (proj2 (Z.eqb_eq _ _)) by lia. done.
Qed.

(** Dequeue takes the oldest code, or reports that there is none. *)
Lemma dequeue_repr s l :
  queue_repr (keys (io s)) l ->
  match l with
  | [] => key_dequeue s = Ok (NEMU_KEY_NONE, s)
  | x :: l' => exists s', key_dequeue s = Ok (u32 x, s') /\ queue_repr (keys (io s')) l'
  end.
Proof using Type.
  intros [Hl Hf Hr Hb Hat]. unfold key_dequeue. run_simpl. destruct l as [|x l].
  - cbn [length] in Hr. rewrite Hr, Z.add_0_r, Z.mod_small, Z.eqb_refl by lia. done.
  - cbn [length] in *. assert ((key_f (keys (io s)) =? key_r (keys (io s))) = false) as ->.
    { apply Z.eqb_neq. rewrite Hr. unfold KEY_QUEUE_LEN in *. Z.to_euclidean_division_equations. lia. }
    cbn [negb]. eexists. split.
    + specialize (Hat 0 ltac:(lia)). rewrite Z.add_0_r, Z.mod_small in Hat by lia.
      rewrite Hat. reflexivity.
    + set (k' := {keys (io s) with key_f := (key_f (keys (io s)) + 1) mod KEY_QUEUE_LEN}).
      change (queue_repr k' l).
      assert (key_f k' = (key_f (keys (io s)) + 1) mod KEY_QUEUE_LEN) as Ef by done.
      split.
      * exact Hl.
      * rewrite Ef. apply Z.mod_pos_bound. unfold KEY_QUEUE_LEN; lia.
      * change (key_r k') with (key_r (keys (io s))). rewrite Hr, Ef. unfold KEY_QUEUE_LEN.
        Z.to_euclidean_division_equations. lia.
      * lia.
      * intros i Hi. change (key_queue k') with (key_queue (keys (io s))).
        specialize (Hat (i + 1) ltac:(lia)). replace (Z.to_nat (i + 1)) with (S (Z.to_nat i)) in Hat by lia.
        change ((x :: l) !! S (Z.to_nat i)) with (l !! Z.to_nat i) in Hat. rewrite <- Hat, Ef. do 2 f_equal.
        rewrite Zplus_mod_idemp_l. f_equal. lia.
Qed.
End Queue.

(** ** MMIO replay *)

Section Replay.
Context `{Config} {CPU : Type} (Hshare : CONFIG_TARGET_SHARE = true).
Implicit Types s : nemu CPU.

(** The access the record describes. *)
Definition replay_accepts (r : MMIOReplayRecord) (addr len : Z) (is_write : bool) (data : Z) : bool :=
  rp_valid r && (rp_addr r =? addr) && (rp_len r =? len) && eqb (rp_is_write r) is_write
  && (negb is_write || (rp_wdata r =? data)).

(** A matching access leaves everything as it was; any other raises the
    mismatch flag and disarms the record. *)
Lemma replay_matches_spec addr len w data s :
  let r := mmio_replay (io s) in
  exists s', replay_matches addr len w data s = Ok (replay_accepts r addr len w data, s') /\
    if replay_accepts r addr len w data then s' = s
    else mmio_replay_mismatch (io s') = true /\ rp_valid (mmio_replay (io s')) = false.
Proof using Hshare.
  intros r. unfold replay_matches, replay_accepts. rewrite Hshare. cbn [negb]. run_simpl.
  fold r. destruct (rp_valid r) eqn:Ev; cbn [negb andb].
  2:{ eexists. split; [reflexivity|]. cbn. split; [done|]. by fold r. }
  destruct (rp_addr r =? addr), (rp_len r =? len), (eqb (rp_is_write r) w); cbn [negb andb orb];
    try (eexists; split; [reflexivity|]; cbn; done).
  destruct w; cbn [negb andb orb]; [|eexists; split; [reflexivity|done]].
  destruct (rp_wdata r =? data); cbn [negb]; eexists; (split; [reflexivity|]); done.
Qed.

(** The whole protocol: arm the record, perform one access, ask whether the
    access was the expected one. *)
Definition replay_session (r : MMIOReplayRecord) (addr len : Z) (w : bool) (data : Z) : M CPU bool :=
  npc_mmio_replay_set r ;;
  b ← replay_matches addr len w data;
  when b consume_replay ;;
  npc_mmio_replay_ok.

Lemma replay_session_spec r addr len w data s :
  rp_valid r = true -> rp_valid (mmio_replay (io s)) = false ->
  exists s', replay_session r addr len w data s = Ok (replay_accepts r addr len w data, s') /\
    rp_valid (mmio_replay (io s')) = false.
Proof using Hshare.
  intros Hv Hs. unfold replay_session.
  set (s1 := {s with io ::= (fun d => {d with mmio_replay := r; mmio_replay_mismatch := false})}).
  assert (npc_mmio_replay_set r s = Ok (tt, s1)) as E1.
  { unfold npc_mmio_replay_set. rewrite Hshare. run_simpl. rewrite Hs. done. }
  rewrite (bind_run _ _ _ _ _ E1).
  destruct (replay_matches_spec addr len w data s1) as (s2 & E2 & P2).
  rewrite (bind_run _ _ _ _ _ E2). change (mmio_replay (io s1)) with r in *.
  destruct (replay_accepts r addr len w data).
  - subst s2. unfold when, consume_replay. rewrite Hshare. unfold npc_mmio_replay_ok. rewrite Hshare.
    eexists. split; [reflexivity|done].
  - destruct P2 as [P2 P3]. unfold when, npc_mmio_replay_ok. rewrite Hshare. run_simpl. rewrite P2.
    eexists. done.
Qed.
End Replay.

(** ** The MMIO map table *)

Section Maps.
Context `{Config} {CPU : Type}.
Implicit Types s : nemu CPU.

Definition map_disjoint (m1 m2 : IOMap) : Prop := high m1 < low m2 \/ high m2 < low m1.

(** Well-formed regions, pairwise disjoint, within the table's size. *)
Record maps_ok (ms : list IOMap) : Prop := {
  mo_wf : Forall (fun m => low m <= high m) ms;
  mo_disjoint : forall i j m1 m2, ms !! i = Some m1 -> ms !! j = Some m2 -> i <> j -> map_disjoint m1 m2;
  mo_size : Z.of_nat (length ms) <= NR_MAP;
}.

Lemma maps_ok_nil : maps_ok [].
Proof using Type. split; [constructor|done|cbn; unfold NR_MAP; lia]. Qed.

Lemma overlaps_false ms l r :
  overlaps ms l r = false -> l <= r -> Forall (fun m => low m <= high m) ms ->
  Forall (fun m => high m < l \/ r < low m) ms.
Proof using Type.
  intros Ho Hlr Hw. apply Forall_forall. intros m Hm.
  destruct (decide (high m < l \/ r < low m)) as [|Hn]; [done|]. exfalso.
  rewrite <- not_true_iff_false in Ho. apply Ho. unfold overlaps. apply existsb_exists.
  exists m. split; [by apply list_elem_of_In|]. rewrite andb_true_iff, !Z.leb_le. lia.
Qed.

(** Registering a region keeps the table well formed. *)
Lemma add_mmio_map_ok nm addr sp len cb s s' :
  0 < len -> 0 <= addr -> addr + len <= 2 ^ 32 -> maps_ok (maps (io s)) ->
  add_mmio_map nm addr sp len cb s = Ok (tt, s') -> maps_ok (maps (io s')).
Proof using Type.
  intros Hl Ha Hb [Hw Hd Hs] Hr. unfold add_mmio_map in Hr. run_inv.
  rewrite Z.ltb_lt in *. destruct (_ || _); [discriminate|]. destruct (overlaps _ _ _) eqn:Eo; [discriminate|].
  unfold modify_io in Hr. run_inv.
  change (maps (io {s with io ::= _})) with (maps (io s) ++ [{| name := nm; low := addr; high := u32 (addr + len - 1); space := sp; callback := cb |}]).
  rewrite wrap_small in * by (unfold in_u; lia).
  pose proof (overlaps_false _ _ _ Eo ltac:(lia) Hw) as Hov. rewrite Forall_lookup in Hov.
  split.
  - apply Forall_app. split; [done|]. constructor; [cbn; lia|constructor].
  - intros i j m1 m2 H1 H2 Hij.
    apply lookup_snoc_Some in H1 as [[L1 H1]|[-> <-]], H2 as [[L2 H2]|[-> <-]]; try lia.
    + by eapply Hd.
    + specialize (Hov _ _ H1). unfold map_disjoint. cbn. lia.
    + specialize (Hov _ _ H2). unfold map_disjoint. cbn. lia.
  - rewrite length_app. cbn. lia.
Qed.

(** In a well-formed table at most one region holds an address, so the lookup
    is the same in any order. *)
Lemma find_map_some ms addr m :
  maps_ok ms -> find_map ms addr = Some m <-> m ∈ ms /\ low m <= addr <= high m.
Proof using Type.
  intros [Hw Hd Hs]. split.
  - clear. induction ms as [|m0 ms IH]; [done|]. cbn. destruct (map_inside m0 addr) eqn:E.
    + intros [= ->]. unfold map_inside in E. rewrite andb_true_iff, !Z.leb_le in E. set_solver.
    + intros Hf%IH. set_solver.
  - intros [Hm Hr]. clear Hw Hs. induction ms as [|m0 ms IH]; [set_solver|]. cbn.
    destruct (map_inside m0 addr) eqn:E.
    + unfold map_inside in E. rewrite andb_true_iff, !Z.leb_le in E.
      apply elem_of_cons in Hm as [->|Hm]; [done|].
      apply list_elem_of_lookup_1 in Hm as [i Hi].
      specialize (Hd 0%nat (S i) m0 m eq_refl Hi ltac:(lia)). unfold map_disjoint in Hd. lia.
    + apply elem_of_cons in Hm as [->|Hm].
      * unfold map_inside in E. rewrite (proj2 (Z.leb_le _ _)), (proj2 (Z.leb_le _ _)) in E by lia. done.
      * apply IH; [|done]. intros i j m1 m2 H1 H2 Hij. apply (Hd (S i) (S j)); auto.
Qed.

Lemma find_map_perm ms ms' addr :
  maps_ok ms -> maps_ok ms' -> ms ≡ₚ ms' -> find_map ms addr = find_map ms' addr.
Proof using Type.
  intros Hok Hok' Hp. apply option_eq. intros m. rewrite !find_map_some by done. by rewrite Hp.
Qed.
End Maps.
