(* ===== verification/Vaddr.v ===== *)
(** * The memory interface of the CPU (paddr.c, vaddr.c, hostcall.c)

    [paddr_read]/[paddr_write] send an access to backed memory or to the MMIO
    bus; [vaddr_access_ok] is the guard the instructions use before an access;
    [invalid_inst] and [set_nemu_state] end a run. *)
From S2P Require Import Prelude Outcome Bytes Config CommitEvent CommitRing Machine PhysMem Devices IoMap.

Section Vaddr.
Context `{Config} {CPU : Type}.
Abbreviation Mn := (M CPU).

Definition out_of_bound {A} (addr : Z) : Mn A := abort "address is out of bound of physical memory".

Definition paddr_read (addr len : Z) : Mn Z :=
  if paddr_is_backed addr len then pmem_read addr len
  else if CONFIG_DEVICE then mmio_read addr len
  else out_of_bound addr.

Definition paddr_write (addr len data : Z) : Mn unit :=
  if paddr_is_backed addr len then pmem_write addr len data
  else if CONFIG_DEVICE then mmio_write addr len data
  else out_of_bound addr.

Definition native_device_access_ok (addr len : Z) : bool :=
  (CONFIG_HAS_SERIAL && (CONFIG_SERIAL_MMIO <=? addr) && (u32 (addr + len) <=? u32 (CONFIG_SERIAL_MMIO + 8))) ||
  (CONFIG_HAS_TIMER && (CONFIG_RTC_MMIO <=? addr) && (u32 (addr + len) <=? u32 (CONFIG_RTC_MMIO + 8))).

Definition vaddr_access_ok (addr len : Z) : bool :=
  paddr_is_backed addr len
  || native_device_access_ok addr len
  || ((0x10000000 <=? addr) && (u32 (addr + len) <=? 0x10000020))
  || ((0x02000000 <=? addr) && (u32 (addr + len) <=? 0x02010000)).

Definition vaddr_ifetch (addr len : Z) : Mn Z := paddr_read addr len.
Definition vaddr_read (addr len : Z) : Mn Z := paddr_read addr len.
Definition vaddr_write (addr len data : Z) : Mn unit := paddr_write addr len data.

(** [inst_fetch] of cpu/ifetch.h: the word and the advanced pc. *)
Definition inst_fetch (pc len : Z) : Mn (Z * Z) :=
  inst ← vaddr_ifetch pc len; mret (inst, u32 (pc + len)).

(** ** hostcall.c *)

Definition set_nemu_state (st : run_state) (pc : Z) (halt_ret : Z) : Mn unit :=
  difftest_skip_ref ;;
  modify (fun s => {s with nemu_state := {| state := st; halt_pc := pc; halt_ret := u32 halt_ret |}}).

Definition NEMUTRAP (thispc code : Z) : Mn unit := set_nemu_state NEMU_END thispc code.

Definition invalid_inst (thispc : Z) : Mn unit :=
  f0 ← inst_fetch thispc 4;
  f1 ← inst_fetch f0.2 4;
  printf "invalid opcode(PC = %08x)" [AZ thispc; AZ f0.1; AZ f1.1] ;;
  printf "There are two cases which will trigger this unexpected exception" [AZ thispc] ;;
  printf "Find this PC in the disassembling result" [AZ thispc] ;;
  printf "If it is the first case, see" [] ;;
  set_nemu_state NEMU_ABORT thispc (-1).
Definition INV (thispc : Z) : Mn unit := invalid_inst thispc.
End Vaddr.

(** ** The guard *)

Section AccessOk.
Context `{Config} (Hcfg : config_ok = true).

Lemma vaddr_access_ok_backed addr len : paddr_is_backed addr len = true -> vaddr_access_ok addr len = true.
Proof using Type. unfold vaddr_access_ok. by intros ->. Qed.

Definition in_window (addr len lo n : Z) : Prop := lo <= addr /\ addr + len <= lo + n.

(** The windows the guard accepts besides backed memory. *)
Definition device_window (addr len : Z) : Prop :=
  (CONFIG_HAS_SERIAL = true /\ in_window addr len CONFIG_SERIAL_MMIO 8) \/
  (CONFIG_HAS_TIMER = true /\ in_window addr len CONFIG_RTC_MMIO 8) \/
  in_window addr len NPC_UART_BASE NPC_UART_SIZE \/
  in_window addr len NPC_CLINT_BASE NPC_CLINT_SIZE.

(** Below the top of the address space the guard accepts exactly backed memory
    and the device windows. *)
Lemma vaddr_access_ok_spec addr len :
  in_u 32 addr -> 0 < len -> addr + len < 2 ^ 32 ->
  0 <= CONFIG_SERIAL_MMIO < 2 ^ 32 - 8 -> 0 <= CONFIG_RTC_MMIO < 2 ^ 32 - 8 ->
  vaddr_access_ok addr len = true <->
  paddr_is_backed addr len = true \/ device_window addr len.
Proof using Type.
  unfold in_u. intros Ha Hl Hw Hs Hr. unfold vaddr_access_ok, native_device_access_ok, device_window, in_window.
  rewrite !wrap_small by (unfold in_u; lia).
  rewrite !orb_true_iff, !andb_true_iff, !Z.leb_le.
  unfold NPC_UART_BASE, NPC_UART_SIZE, NPC_CLINT_BASE, NPC_CLINT_SIZE. intuition lia.
Qed.

(** The comparison of the end address wraps: an access that reaches the top of
    the address space is always accepted. *)
Lemma vaddr_access_ok_wraps addr len :
  in_u 32 addr -> 0 < len <= 4 -> 2 ^ 32 <= addr + len -> vaddr_access_ok addr len = true.
Proof using Type.
  unfold in_u. intros Ha Hl Hw. unfold vaddr_access_ok.
  replace (u32 (addr + len)) with (addr + len - 2 ^ 32)
    by (rewrite <- (wrap_add_mult 32 _ (-1)), wrap_small; unfold in_u; lia).
  rewrite (proj2 (Z.leb_le 0x10000000 addr)) by lia.
  rewrite (proj2 (Z.leb_le (addr + len - 2 ^ 32) 0x10000020)) by lia.
  rewrite !orb_true_r. done.
Qed.

(** Nothing is backed across the top of the address space. *)
Lemma not_backed_wrap addr len :
  in_u 32 addr -> 2 ^ 32 < addr + len -> paddr_is_backed addr len = false.
Proof using Hcfg.
  unfold paddr_is_backed. intros Ha Hl. destruct find_mem_region as [r|] eqn:E; [|done].
  apply (find_mem_region_spec Hcfg) in E as (Hr & Hb & Hx); [|done].
  destruct (region_bounds Hcfg r Hr). lia.
Qed.
End AccessOk.

(** ** Loads and stores to backed memory *)

Section LoadStore.
Context `{Config} (Hcfg : config_ok = true) {CPU : Type}.
Implicit Types s : nemu CPU.

Lemma backed_region addr len :
  paddr_is_backed addr len = true -> exists r, find_mem_region addr len = Some r.
Proof using Type. unfold paddr_is_backed. destruct find_mem_region; [eauto|done]. Qed.

Lemma paddr_read_backed addr len s r :
  find_mem_region addr len = Some r -> access_len len = true -> in_array (host_len (host r)) (addr - base r) len = true ->
  paddr_read addr len s = Ok (ha_read (host_array (mem s) (host r)) (addr - base r) len, s).
Proof using Type.
  intros E Hl Hi. unfold paddr_read, paddr_is_backed. rewrite E. by apply pmem_read_backed.
Qed.

Lemma paddr_write_backed addr len v s r :
  find_mem_region addr len = Some r -> access_len len = true -> writable r = true ->
  in_array (host_len (host r)) (addr - base r) len = true ->
  paddr_write addr len v s =
  Ok (tt, with_mem (set_host_array (mem s) (host r)
                      (ha_write (host_array (mem s) (host r)) (addr - base r) len v)) s).
Proof using Type.
  intros E Hl Hw Hi. unfold paddr_write, paddr_is_backed. rewrite E. by apply pmem_write_backed.
Qed.

Lemma paddr_write_ok addr len v s r s' :
  find_mem_region addr len = Some r -> access_len len = true -> paddr_write addr len v s = Ok (tt, s') ->
  writable r = true /\ in_array (host_len (host r)) (addr - base r) len = true.
Proof using Type. intros E Hl. unfold paddr_write, paddr_is_backed. rewrite E. by apply pmem_write_ok. Qed.

(** Load after store, at the same place. *)
Lemma load_store_same addr len v s s' :
  access_len len = true -> paddr_is_backed addr len = true ->
  paddr_write addr len v s = Ok (tt, s') ->
  paddr_read addr len s' = Ok (v mod 2 ^ (8 * len), s').
Proof using Type.
  intros Hl [r E]%backed_region Hw. pose proof (access_len_pos _ Hl).
  destruct (paddr_write_ok _ _ _ _ _ _ E Hl Hw) as [Hwr Hi].
  erewrite paddr_write_backed in Hw by eauto. injection Hw as <-.
  erewrite paddr_read_backed by eauto.
  rewrite mem_with_mem, host_array_set_same, ha_read_write_same by lia. done.
Qed.

(** Load after a store to a disjoint range. *)
Lemma load_store_other addr len v s s' a l :
  in_u 32 addr -> in_u 32 a ->
  access_len len = true -> access_len l = true ->
  paddr_is_backed addr len = true -> paddr_is_backed a l = true ->
  a + l <= addr \/ addr + len <= a ->
  paddr_write addr len v s = Ok (tt, s') ->
  exists x, paddr_read a l s = Ok (x, s) /\ paddr_read a l s' = Ok (x, s').
Proof using Hcfg.
  intros Ha Ha' Hl Hl' [r E]%backed_region [r' E']%backed_region Hd Hw.
  pose proof (access_len_pos _ Hl). pose proof (access_len_pos _ Hl').
  destruct (paddr_write_ok _ _ _ _ _ _ E Hl Hw) as [Hwr Hi].
  pose proof (region_in_array Hcfg a l r' Ha' E') as Hi'.
  erewrite paddr_write_backed in Hw by eauto. injection Hw as <-.
  eexists. erewrite !paddr_read_backed by eauto. split; [done|].
  rewrite mem_with_mem. do 2 f_equal.
  destruct (decide (host r = host r')) as [Eh|Hne]; [|by rewrite host_array_set_other].
  apply (find_mem_region_spec Hcfg) in E as (Hr & _); [|done].
  apply (find_mem_region_spec Hcfg) in E' as (Hr' & _); [|done].
  rewrite (region_host_inj r r' Hr Hr' Eh), host_array_set_same, ha_read_write_other; [done|lia..].
Qed.
End LoadStore.

(** ** What memory operations leave alone

    Loads, stores and the device handlers never touch the CPU, the event ring,
    the breakpoints or the instruction counters. *)

Record nemu_frame (CPU : Type) := {
  fr_cpu : CPU; fr_limit : Z; fr_count : Z; fr_ring : commit_ring_state; fr_breaks : list Z;
}.
Definition frame_of {CPU} (s : nemu CPU) : nemu_frame CPU :=
  {| fr_cpu := cpu s; fr_limit := nemu_inst_limit s; fr_count := g_nr_guest_inst s;
     fr_ring := ring s; fr_breaks := breakpoints s |}.

(** Accesses do not touch the run state either. *)
Definition dev_frame {CPU} (s : nemu CPU) : nemu_frame CPU * NEMUState := (frame_of s, nemu_state s).

Lemma dev_frame_frame {CPU A} (m : M CPU A) : respects (keeps dev_frame) m -> respects (keeps frame_of) m.
Proof. intros Hm s a s' Hr%Hm. unfold keeps, dev_frame in *. congruence. Qed.

Section Quiet.
Context `{Config} {CPU : Type}.
Abbreviation quiet := (respects (keeps (dev_frame (CPU := CPU)))).

Lemma quiet_modify_io f : quiet (modify_io f).
Proof using Type. apply respects_modify. intros s. reflexivity. Qed.
Lemma quiet_printf f a : quiet (printf f a).
Proof using Type. apply respects_modify. intros s. reflexivity. Qed.
Lemma quiet_putc c : quiet (putc_stderr c).
Proof using Type. apply respects_modify. intros s. reflexivity. Qed.
Lemma quiet_skip : quiet difftest_skip_ref.
Proof using Type. unfold difftest_skip_ref. respects_tac. reflexivity. Qed.
Hint Resolve quiet_modify_io quiet_printf quiet_putc quiet_skip : respects.

Lemma quiet_replay a l w d : quiet (replay_matches a l w d).
Proof using Type. unfold replay_matches, set_mismatch, set_replay_valid. respects_tac. Qed.
Lemma quiet_consume : quiet consume_replay.
Proof using Type. unfold consume_replay, set_replay_valid. respects_tac. Qed.
Hint Resolve quiet_replay quiet_consume : respects.

Lemma quiet_sdcard o l w : quiet (SdCard.sdcard_io_handler o l w).
Proof using Type.
  unfold SdCard.sdcard_io_handler, SdCard.sdcard_handle_cmd, SdCard.sd_fread, SdCard.sd_fwrite,
    SdCard.prepare_rw, SdCard.set_sd_reg, SdCard.sd_reg, SdCard.modify_sd, modify_space.
  respects_tac.
Qed.
Hint Resolve quiet_sdcard : respects.

Lemma quiet_callback c o l w : quiet (invoke_callback c o l w).
Proof using Type.
  destruct c; cbn [invoke_callback];
    unfold serial_io_handler, serial_putc, rtc_io_handler, npc_uart_io_handler, npc_clint_io_handler,
      i8042_data_io_handler, audio_io_handler, key_dequeue, modify_keys, update_mtime, modify_space;
    respects_tac.
Qed.
Hint Resolve quiet_callback : respects.

Lemma quiet_paddr_read a l : quiet (paddr_read a l).
Proof using Type.
  unfold paddr_read, pmem_read, mmio_read, fetch_mmio_map, find_mapid_by_addr, map_read, out_of_bound.
  respects_tac.
Qed.
Lemma quiet_paddr_write a l v : quiet (paddr_write a l v).
Proof using Type.
  unfold paddr_write, pmem_write, mmio_write, fetch_mmio_map, find_mapid_by_addr, map_write, out_of_bound,
    modify_space.
  respects_tac. reflexivity.
Qed.
Hint Resolve quiet_paddr_read quiet_paddr_write : respects.

Lemma quiet_inst_fetch pc l : quiet (inst_fetch pc l).
Proof using Type. unfold inst_fetch, vaddr_ifetch. respects_tac. Qed.
End Quiet.
#[export] Hint Resolve quiet_modify_io quiet_printf quiet_putc quiet_skip quiet_paddr_read
  quiet_paddr_write quiet_inst_fetch : respects.

Section Frames.
Context `{Config} {CPU : Type}.
Abbreviation framed := (respects (keeps (frame_of (CPU := CPU)))).

Lemma framed_modify_io f : framed (modify_io f).
Proof using Type. apply dev_frame_frame, quiet_modify_io. Qed.
Lemma framed_printf f a : framed (printf f a).
Proof using Type. apply dev_frame_frame, quiet_printf. Qed.
Lemma framed_putc c : framed (putc_stderr c).
Proof using Type. apply dev_frame_frame, quiet_putc. Qed.
Lemma framed_skip : framed difftest_skip_ref.
Proof using Type. apply dev_frame_frame, quiet_skip. Qed.
Lemma framed_paddr_read a l : framed (paddr_read a l).
Proof using Type. apply dev_frame_frame, quiet_paddr_read. Qed.
Lemma framed_paddr_write a l v : framed (paddr_write a l v).
Proof using Type. apply dev_frame_frame, quiet_paddr_write. Qed.
Lemma framed_inst_fetch pc l : framed (inst_fetch pc l).
Proof using Type. apply dev_frame_frame, quiet_inst_fetch. Qed.
Hint Resolve framed_printf framed_skip framed_inst_fetch : respects.

Lemma framed_set_state st pc r : framed (set_nemu_state st pc r).
Proof using Type. unfold set_nemu_state. respects_tac. reflexivity. Qed.
Hint Resolve framed_inst_fetch framed_set_state : respects.
Lemma framed_invalid pc : framed (invalid_inst pc).
Proof using Type. unfold invalid_inst. respects_tac. Qed.
End Frames.
#[export] Hint Resolve framed_modify_io framed_printf framed_putc framed_skip framed_paddr_read
  framed_paddr_write framed_inst_fetch framed_set_state framed_invalid : respects.

(** Memory accesses have no undefined behaviour when every window lies in the space of the
    devices: other failures are an [Assert] or a [panic]. *)
Definition map_fits (m : IOMap) : Prop := 0 <= space m /\ space m + (high m - low m) + 4 <= IO_SPACE_MAX.
Definition io_fits {CPU} (s : nemu CPU) : Prop := Forall map_fits (maps (io s)).
#[export] Instance map_fits_dec m : Decision (map_fits m).
Proof. unfold map_fits. apply _. Defined.

Section Safe.
Context `{Config} {CPU : Type}.
Abbreviation safe m := (safe (io_fits (CPU := CPU)) m).

Lemma safe_skip : safe difftest_skip_ref.
Proof using Type. unfold difftest_skip_ref. safe_tac. Qed.
Lemma safe_printf f a : safe (printf f a).
Proof using Type. unfold printf. safe_tac. Qed.
Lemma safe_putc c : safe (putc_stderr c).
Proof using Type. unfold putc_stderr. safe_tac. Qed.
Hint Resolve safe_skip safe_printf safe_putc : safe.

Lemma safe_replay a l w d : safe (replay_matches a l w d).
Proof using Type. unfold replay_matches, set_mismatch, set_replay_valid, modify_io. safe_tac. Qed.
Lemma safe_consume : safe consume_replay.
Proof using Type. unfold consume_replay, set_replay_valid, modify_io. safe_tac. Qed.
Hint Resolve safe_replay safe_consume : safe.

Lemma safe_sdcard o l w : safe (SdCard.sdcard_io_handler o l w).
Proof using Type.
  unfold SdCard.sdcard_io_handler, SdCard.sdcard_handle_cmd, SdCard.sd_fread, SdCard.sd_fwrite,
    SdCard.prepare_rw, SdCard.set_sd_reg, SdCard.sd_reg, SdCard.modify_sd, modify_space, modify_io.
  safe_tac.
Qed.
Hint Resolve safe_sdcard : safe.

Lemma safe_callback c o l w : safe (invoke_callback c o l w).
Proof using Type.
  destruct c; cbn [invoke_callback];
    unfold serial_io_handler, serial_putc, rtc_io_handler, npc_uart_io_handler, npc_clint_io_handler,
      i8042_data_io_handler, audio_io_handler, key_dequeue, modify_keys, update_mtime, modify_space, modify_io;
    safe_tac.
Qed.

(** An address in a window leads into the space. *)
Lemma map_fits_array m addr len :
  map_fits m -> map_inside m addr = true -> access_len len = true -> in_array IO_SPACE_MAX (space m + u32 (addr - low m)) len = true.
Proof using Type.
  unfold map_fits, map_inside, access_len, in_array. rewrite !andb_true_iff, !orb_true_iff, !Z.leb_le, !Z.eqb_eq. intros Hm Ha Hl.
  assert (0 <= u32 (addr - low m) <= addr - low m); [|lia]. unfold wrap. pose proof (Z.mod_pos_bound (addr - low m) (2 ^ 32)).
  pose proof (Z.mod_le (addr - low m) (2 ^ 32)). lia.
Qed.

Lemma host_read_in n a i len w : (access_len len = true -> in_array n i len = true) -> host_read n a i len <> Undef w.
Proof using Type.
  intros Hi. destruct (access_len len) eqn:E; [rewrite host_read_len, Hi by done; done|].
  unfold host_read. unfold access_len in E. rewrite E. by case_match.
Qed.
Lemma host_write_in n a i len v w : (access_len len = true -> in_array n i len = true) -> host_write n a i len v <> Undef w.
Proof using Type.
  intros Hi. destruct (access_len len) eqn:E; [rewrite host_write_len, Hi by done; done|].
  unfold host_write. unfold access_len in E. rewrite E. by case_match.
Qed.

Lemma find_map_in ms addr m : find_map ms addr = Some m -> m ∈ ms.
Proof using Type. induction ms as [|m0 ms IH]; cbn; [done|]. case_match; [intros [= ->]; left|]. intros ?%IH. by right. Qed.

(** The window of an address, then the access to it. *)
Lemma safe_mmio {A} addr (f : option IOMap -> M CPU A) :
  (forall m, (forall x, m = Some x -> map_fits x) -> safe (f m)) -> safe (m ← fetch_mmio_map addr; f m).
Proof using Type.
  intros Hf s Hs. unfold fetch_mmio_map, find_mapid_by_addr. apply wp_bind, wp_bind, wp_gets.
  destruct (find_map (maps (io s)) addr) as [m|] eqn:E; [|by apply Hf].
  eapply wp_bind_with; [by apply safe_skip|]. intros [] s' Hs'. apply wp_ret, Hf; [|done].
  intros x [= <-]. apply (proj1 (Forall_forall _ _) Hs). by eapply find_map_in.
Qed.

Lemma safe_check {A} m addr (f : IOMap -> M CPU A) :
  (forall x, m = Some x -> map_inside x addr = true -> safe (f x)) -> safe (x ← lift (check_bound m addr); f x).
Proof using Type.
  intros Hf. destruct m as [m|]; cbn [check_bound]; [|done]. destruct (map_inside m addr) eqn:Ei; [|done]. intros s Hs. by apply wp_bind, Hf.
Qed.
Hint Resolve safe_callback : safe.

Lemma safe_map_read addr len m : (forall x, m = Some x -> map_fits x) -> safe (map_read addr len m).
Proof using Type.
  intros Hm. unfold map_read. safe_step; [safe_tac|]. apply safe_check. intros x Ex Ei. cbv zeta. safe_step; [safe_tac|].
  apply safe_bind; [safe_tac|intros arr]. apply safe_lift. intros w. apply host_read_in. intros Hl. by apply map_fits_array; [apply Hm| |].
Qed.
Lemma safe_map_write addr len data m : (forall x, m = Some x -> map_fits x) -> safe (map_write addr len data m).
Proof using Type.
  intros Hm. unfold map_write. safe_step; [safe_tac|]. apply safe_check. intros x Ex Ei. cbv zeta. safe_step; [safe_tac|].
  apply safe_bind; [|unfold modify_space, modify_io; intros arr; safe_tac]. apply safe_lift. intros w. apply host_write_in. intros Hl. by apply map_fits_array; [apply Hm| |].
Qed.

Context (Hcfg : config_ok = true).

Lemma safe_paddr_read addr len : in_u 32 addr -> safe (paddr_read addr len).
Proof using Hcfg.
  intros Ha. unfold paddr_read, paddr_is_backed, pmem_read. destruct (find_mem_region addr len) as [r|] eqn:E.
  - unfold region_guest_to_host. safe_step; [safe_tac|]. apply safe_lift. intros w. apply host_read_in. intros _. by apply (region_in_array Hcfg).
  - destruct CONFIG_DEVICE; [|unfold out_of_bound; safe_tac]. unfold mmio_read. apply safe_mmio. intros m. apply safe_map_read.
Qed.
Lemma safe_paddr_write addr len v : in_u 32 addr -> safe (paddr_write addr len v).
Proof using Hcfg.
  intros Ha. unfold paddr_write, paddr_is_backed, pmem_write. destruct (find_mem_region addr len) as [r|] eqn:E.
  - unfold region_guest_to_host. safe_step; [safe_tac|]. safe_step; [safe_tac|]. safe_step; [|safe_tac].
    apply safe_lift. intros w. apply host_write_in. intros _. by apply (region_in_array Hcfg).
  - destruct CONFIG_DEVICE; [|unfold out_of_bound; safe_tac]. unfold mmio_write. apply safe_mmio. intros m. apply safe_map_write.
Qed.

Lemma safe_inst_fetch pc len : in_u 32 pc -> safe (inst_fetch pc len).
Proof using Hcfg. intros Hp. unfold inst_fetch, vaddr_ifetch. apply safe_bind; [by apply safe_paddr_read|]. intros i. safe_tac. Qed.
Lemma safe_set_state st pc r : safe (set_nemu_state st pc r).
Proof using Type. unfold set_nemu_state. safe_tac. Qed.
Hint Resolve safe_set_state : safe.

Lemma safe_invalid pc : in_u 32 pc -> safe (invalid_inst pc).
Proof using Hcfg.
  intros Hp. unfold invalid_inst, inst_fetch, vaddr_ifetch. intros s Hs.
  apply wp_bind, wp_bind. eapply wp_mono; [by apply safe_paddr_read|]. intros i s1 Hs1. apply wp_ret.
  eapply wp_bind_with; [apply safe_inst_fetch; [by apply wrap_range|done]|]. intros f1 s2 Hs2. revert s2 Hs2.
  change (safe (printf "invalid opcode(PC = %08x)" [AZ pc; AZ (i, u32 (pc + 4)).1; AZ f1.1] ;;
    printf "There are two cases which will trigger this unexpected exception" [AZ pc] ;;
    printf "Find this PC in the disassembling result" [AZ pc] ;;
    printf "If it is the first case, see" [] ;; set_nemu_state NEMU_ABORT pc (-1))). safe_tac.
Qed.
End Safe.
#[export] Hint Resolve safe_printf safe_skip safe_set_state : safe.
