(* ===== verification/Pattern.v ===== *)
(** * Instruction patterns (nemu/include/cpu/decode.h)

    [pattern_decode] turns a pattern string into a key, a mask and a shift, the
    way the unrolled macros do, and [INSTPAT_match] is the test of the INSTPAT
    macro.  The specification reads the string as a list of bits from the most
    significant down, a question mark being free: [INSTPAT_match_spec] says the
    test holds exactly of the words that agree with every fixed bit. *)
From S2P Require Import Prelude Outcome.
From Stdlib Require Import Ascii.
#[local] Open Scope string_scope.
#[local] Open Scope Z_scope.

Record pat := { key : Z; mask : Z; shift : Z }.
Definition pat0 : pat := {| key := 0; mask := 0; shift := 0 |}.

Definition ch_eq (c d : ascii) : bool := Ascii.eqb c d.

(** One expansion of [macro(i)] on a character that is not a space. *)
Definition pattern_step (c : ascii) (p : pat) : outcome pat :=
  if ch_eq c "0" || ch_eq c "1" || ch_eq c "?" then
    Ok {| key := Z.lor (u64 (Z.shiftl (key p) 1)) (if ch_eq c "1" then 1 else 0);
          mask := Z.lor (u64 (Z.shiftl (mask p) 1)) (if ch_eq c "?" then 0 else 1);
          shift := if ch_eq c "?" then u64 (shift p + 1) else 0 |}
  else Abort "invalid character in pattern string".

(** The macros are unrolled [fuel] times (64 in [pattern_decode]); running out
    of them is the "pattern too long" panic. *)
Fixpoint pattern_loop (step : ascii -> pat -> outcome pat) (fuel : nat) (s : string) (p : pat) : outcome pat :=
  match fuel with
  | O => Abort "pattern too long"
  | S fuel' =>
      match s with
      | EmptyString => Ok {| key := Z.shiftr (key p) (shift p);
                             mask := Z.shiftr (mask p) (shift p); shift := shift p |}
      | String c s' =>
          if ch_eq c " " then pattern_loop step fuel' s' p
          else p' ← step c p; pattern_loop step fuel' s' p'
      end
  end.

Definition pattern_decode (s : string) : outcome pat := pattern_loop pattern_step 64 s pat0.

Arguments pattern_decode : simpl never.

(** [pattern_decode_hex]: four bits a character. *)
Definition is_hex_digit (c : ascii) : bool :=
  let n := Z.of_nat (nat_of_ascii c) in
  ((48 <=? n) && (n <=? 57)) || ((97 <=? n) && (n <=? 102)).
Definition hex_value (c : ascii) : Z :=
  let n := Z.of_nat (nat_of_ascii c) in
  if (48 <=? n) && (n <=? 57) then n - 48 else n - 97 + 10.

Definition pattern_step_hex (c : ascii) (p : pat) : outcome pat :=
  if is_hex_digit c || ch_eq c "?" then
    Ok {| key := Z.lor (u64 (Z.shiftl (key p) 4)) (if ch_eq c "?" then 0 else hex_value c);
          mask := Z.lor (u64 (Z.shiftl (mask p) 4)) (if ch_eq c "?" then 0 else 15);
          shift := if ch_eq c "?" then u64 (shift p + 4) else 0 |}
  else Abort "invalid character in pattern string".

Definition pattern_decode_hex (s : string) : outcome pat := pattern_loop pattern_step_hex 16 s pat0.

Arguments pattern_decode_hex : simpl never.

(** [(((uint64_t)inst >> shift) & mask) == key]. *)
Definition pat_match (p : pat) (inst : Z) : bool :=
  Z.land (Z.shiftr inst (shift p)) (mask p) =? key p.

Definition INSTPAT_match (s : string) (inst : Z) : outcome bool :=
  p ← pattern_decode s; mret (pat_match p inst).

(** ** Specification *)

(** The bits of a pattern, most significant first; [None] for any other
    character. *)
Definition pat_char (c : ascii) : option (option bool) :=
  if ch_eq c "0" then Some (Some false) else if ch_eq c "1" then Some (Some true)
  else if ch_eq c "?" then Some None else None.

Fixpoint pat_bits (s : string) : option (list (option bool)) :=
  match s with
  | EmptyString => Some []
  | String c s' =>
      if ch_eq c " " then pat_bits s'
      else b ← pat_char c; bs ← pat_bits s'; Some (b :: bs)
  end.

(** The word agrees with the fixed bits, bit [i] counted from the least
    significant end of the pattern. *)
Fixpoint agrees (bs : list (option bool)) (x : Z) : Prop :=
  match bs with
  | [] => True
  | b :: bs' => (forall v, b = Some v -> Z.testbit x (Z.of_nat (length bs')) = v) /\ agrees bs' x
  end.

(** The state of the loop over the bits read so far, as numbers: [kv] and [mv]
    before the final shift. *)
Definition bit_val (o : option bool) : Z := match o with Some true => 1 | _ => 0 end.
Definition bit_msk (o : option bool) : Z := match o with Some _ => 1 | None => 0 end.

Definition bits_step (b : option bool) (p : pat) : pat :=
  {| key := 2 * key p + bit_val b; mask := 2 * mask p + bit_msk b;
     shift := match b with None => shift p + 1 | _ => 0 end |}.

Definition bits_fold (bs : list (option bool)) (p : pat) : pat := foldl (fun p b => bits_step b p) p bs.

Definition pat_range (n : Z) (p : pat) : Prop :=
  in_u n (key p) /\ in_u n (mask p) /\ 0 <= shift p <= n.

Lemma bits_step_range n b p : 0 <= n -> pat_range n p -> pat_range (n + 1) (bits_step b p).
Proof.
  unfold pat_range, in_u. intros Hn (Hk & Hm & Hs). rewrite Z.pow_add_r by lia. cbn.
  destruct b as [[]|]; cbn; lia.
Qed.

Lemma pattern_step_bits c b p n :
  0 <= n < 63 -> pat_range n p -> pat_char c = Some b -> pattern_step c p = Ok (bits_step b p).
Proof.
  unfold pat_range, in_u. intros Hn (Hk & Hm & Hs) Hc. unfold pattern_step, pat_char in *.
  assert (2 ^ n <= 2 ^ 62) by (apply Z.pow_le_mono_r; lia).
  assert (forall x y, 0 <= x < 2 ^ n -> 0 <= y < 2 -> Z.lor (u64 (Z.shiftl x 1)) y = 2 * x + y) as E.
  { intros x y Hx Hy. rewrite Z.shiftl_mul_pow2, wrap_small by (unfold in_u; lia).
    rewrite lor_add_shifted by (unfold in_u; lia). lia. }
  destruct (ch_eq c "0") eqn:E0, (ch_eq c "1") eqn:E1, (ch_eq c "?") eqn:E2; try done;
    injection Hc as <-; cbn [orb]; unfold bits_step; cbn [bit_val bit_msk];
    try (apply Ascii.eqb_eq in E0; apply Ascii.eqb_eq in E1; congruence);
    try (apply Ascii.eqb_eq in E0; apply Ascii.eqb_eq in E2; congruence);
    try (apply Ascii.eqb_eq in E1; apply Ascii.eqb_eq in E2; congruence);
    rewrite !E by lia; do 2 f_equal; apply wrap_small; unfold in_u; lia.
Qed.

Lemma pattern_loop_bits s bs p n fuel :
  pat_bits s = Some bs -> 0 <= n -> pat_range n p ->
  (String.length s < fuel)%nat -> n + Z.of_nat (length bs) < 64 ->
  pattern_loop pattern_step fuel s p =
  (let q := bits_fold bs p in
   Ok {| key := Z.shiftr (key q) (shift q); mask := Z.shiftr (mask q) (shift q); shift := shift q |}).
Proof.
  revert bs p n fuel; induction s as [|c s IH]; intros bs p n fuel Hb Hn Hp Hf Hl;
    (destruct fuel as [|fuel]; [cbn in Hf; lia|]); cbn [pattern_loop pat_bits String.length] in *.
  - injection Hb as <-. done.
  - destruct (ch_eq c " "); [apply (IH _ _ n); auto; lia|].
    destruct (pat_char c) as [b|] eqn:Ec; [|done]. cbn in Hb.
    destruct (pat_bits s) as [bs'|]; [|done]. injection Hb as <-. cbn [length] in Hl.
    rewrite (pattern_step_bits _ b _ n) by (done || lia). cbn [mbind outcome_bind].
    rewrite (IH bs' _ (n + 1)); [done|done|lia|by apply bits_step_range|lia|lia].
Qed.

(** The numbers computed from the bits. *)
Fixpoint bits_num (f : option bool -> Z) (bs : list (option bool)) : Z :=
  match bs with
  | [] => 0
  | b :: bs' => f b * 2 ^ Z.of_nat (length bs') + bits_num f bs'
  end.
Fixpoint trailing_free (bs : list (option bool)) (acc : Z) : Z :=
  match bs with
  | [] => acc
  | None :: bs' => trailing_free bs' (acc + 1)
  | Some _ :: bs' => trailing_free bs' 0
  end.

Lemma bits_fold_num bs p :
  bits_fold bs p =
  {| key := key p * 2 ^ Z.of_nat (length bs) + bits_num bit_val bs;
     mask := mask p * 2 ^ Z.of_nat (length bs) + bits_num bit_msk bs;
     shift := trailing_free bs (shift p) |}.
Proof.
  revert p; induction bs as [|b bs IH]; intros p.
  - destruct p; cbn. f_equal; lia.
  - change (bits_fold (b :: bs) p) with (bits_fold bs (bits_step b p)). rewrite IH.
    cbn [length bits_num bits_step key mask shift].
    rewrite Nat2Z.inj_succ, Z.pow_succ_r by lia. f_equal; [lia|lia|].
    destruct b; done.
Qed.

Lemma bits_num_range f bs : (forall b, 0 <= f b < 2) -> in_u (Z.of_nat (length bs)) (bits_num f bs).
Proof.
  intros Hf. unfold in_u. induction bs as [|b bs IH]; [cbn; lia|].
  cbn [bits_num length]. rewrite Nat2Z.inj_succ, Z.pow_succ_r by lia.
  specialize (Hf b). nia.
Qed.

Lemma bit_val_range b : 0 <= bit_val b < 2.
Proof. destruct b as [[]|]; cbn; lia. Qed.
Lemma bit_msk_range b : 0 <= bit_msk b < 2.
Proof. destruct b as [[]|]; cbn; lia. Qed.

(** Masked comparison of the whole pattern is agreement bit by bit. *)
Lemma land_bits_agrees bs x :
  Z.land x (bits_num bit_msk bs) = bits_num bit_val bs <-> agrees bs x.
Proof.
  induction bs as [|b bs IH]; [cbn; rewrite Z.land_0_r; tauto|].
  cbn [bits_num agrees]. set (n := Z.of_nat (length bs)) in *.
  pose proof (bits_num_range bit_msk bs bit_msk_range) as Rm. fold n in Rm.
  pose proof (bits_num_range bit_val bs bit_val_range) as Rv. fold n in Rv.
  assert (0 <= n) by lia.
  assert (Z.land x (bit_msk b * 2 ^ n + bits_num bit_msk bs) =
          Z.b2z (Z.testbit x n) * bit_msk b * 2 ^ n + Z.land x (bits_num bit_msk bs)) as ->.
  { rewrite <- !lor_add_shifted by (auto; rewrite Z.land_comm; by apply land_in_u).
    rewrite Z.land_lor_distr_r. f_equal.
    destruct b as [v|]; cbn [bit_msk]; [|rewrite !Z.mul_0_r, !Z.mul_0_l, Z.land_0_r; done].
    rewrite Z.mul_1_r, Z.mul_1_l. pose proof (land_mask_shifted x n 1) as E.
    change (Z.ones 1) with 1 in E. rewrite Z.mul_1_l in E. rewrite E by lia. f_equal. unfold field.
    rewrite <- Z.testbit_spec' by lia. done. }
  rewrite <- IH. split.
  - intros E. apply concat_inj in E as [E1 E2]; [|done|rewrite Z.land_comm; by apply land_in_u|done].
    split; [|done]. intros v ->. destruct v, (Z.testbit x n); cbn in E1; lia || done.
  - intros [Hb ->]. f_equal. f_equal. destruct b as [v|]; cbn [bit_msk bit_val]; [|lia].
    rewrite (Hb v eq_refl). by destruct v.
Qed.

(** The last [trailing_free] bits are free, so the final shift drops zeros. *)
Lemma trailing_free_le bs acc : trailing_free bs acc <= Z.max acc 0 + Z.of_nat (length bs).
Proof.
  revert acc; induction bs as [|[v|] bs IH]; intros acc; cbn [trailing_free length]; [lia| |].
  - specialize (IH 0). lia.
  - specialize (IH (acc + 1)). lia.
Qed.

Lemma trailing_free_nonneg bs acc : 0 <= acc -> 0 <= trailing_free bs acc.
Proof.
  revert acc; induction bs as [|[v|] bs IH]; intros acc H; cbn [trailing_free]; [lia| |]; apply IH; lia.
Qed.

Lemma trailing_free_low f bs acc i :
  (forall b, 0 <= f b < 2) -> f None = 0 -> 0 <= i < trailing_free bs acc ->
  Z.testbit (bits_num f bs) i = false.
Proof.
  intros Hf H0. revert acc; induction bs as [|[v|] bs IH]; intros acc Hi; cbn [bits_num trailing_free] in *.
  - apply Z.testbit_0_l.
  - pose proof (trailing_free_le bs 0).
    rewrite <- lor_add_shifted by (lia || by apply bits_num_range).
    rewrite Z.lor_spec, Z.mul_pow2_bits_low by lia. by apply (IH 0).
  - rewrite H0. apply (IH (acc + 1)). done.
Qed.

(** Dropping low bits that are zero on both sides loses nothing. *)
Lemma shiftr_eq_low a b s :
  0 <= s -> (forall i, 0 <= i < s -> Z.testbit a i = Z.testbit b i) ->
  Z.shiftr a s = Z.shiftr b s <-> a = b.
Proof.
  intros Hs Hl. split; [|by intros ->]. intros E. apply Z.bits_inj'. intros i Hi.
  destruct (Z.ltb_spec i s); [by apply Hl|].
  apply (f_equal (fun z => Z.testbit z (i - s))) in E.
  rewrite !Z.shiftr_spec in E by lia. by replace (i - s + s) with i in E by lia.
Qed.

(** The test of the INSTPAT macro on a well-formed pattern never panics and
    holds exactly of the words that agree with the pattern. *)
Lemma pattern_decode_bits s bs :
  pat_bits s = Some bs -> (String.length s < 64)%nat -> (length bs < 64)%nat ->
  exists p, pattern_decode s = Ok p /\ forall x, pat_match p x = true <-> agrees bs x.
Proof.
  intros Hb Hs Hl. unfold pattern_decode.
  rewrite (pattern_loop_bits s bs pat0 0 64 Hb) by (unfold pat_range, in_u; cbn; lia).
  eexists. split; [done|]. intros x. unfold pat_match. rewrite Z.eqb_eq.
  rewrite bits_fold_num. cbn [key mask shift pat0]. rewrite !Z.mul_0_l, !Z.add_0_l.
  rewrite <- Z.shiftr_land, <- land_bits_agrees. apply shiftr_eq_low.
  - by apply trailing_free_nonneg.
  - intros i Hi. rewrite Z.land_spec.
    rewrite !(trailing_free_low _ bs 0 i) by (auto using bit_val_range, bit_msk_range).
    apply andb_false_r.
Qed.
