(* ===== verification/Isa.v ===== *)
(** * The interface between a guest ISA and the rest of NEMU (isa.h, decode.h)

    [Decode] is the record passed to the instruction interpreter.  [GprFile] is
    what the RISC guests share: an array of general registers reached through
    [check_reg_idx].  [Isa] is the interface [cpu-exec.c], the debugger and
    DiffTest use: the functions of isa.h. *)
From S2P Require Import Prelude Outcome Bytes Config CommitEvent CommitRing Machine PhysMem Devices IoMap.
From S2P Require Import Vaddr Pattern.

Module Decode.
Record t (I : Type) := Mk {
  pc : Z; snpc : Z; dnpc : Z; exception : bool; exception_cause : Z; isa : I;
}.
Arguments pc {I} _. Arguments snpc {I} _. Arguments dnpc {I} _.
Arguments exception {I} _. Arguments exception_cause {I} _. Arguments isa {I} _.
Arguments Mk {I} _ _ _ _ _ _.
End Decode.

(** [riscv32_ISADecodeInfo], [mips32_ISADecodeInfo], [loongarch32r_ISADecodeInfo]. *)
Record ISADecodeInfo := { inst : Z }.
Abbreviation RDecode := (Decode.t ISADecodeInfo).

(** ** General registers *)

Class GprFile (CPU : Type) := {
  gprs : CPU -> list Z;
  set_gprs : list Z -> CPU -> CPU;
  nr_gpr : Z;
  gprs_set : forall l c, gprs (set_gprs l c) = l;
}.

Section Gpr.
Context `{Config} {CPU : Type} `{!GprFile CPU}.
Implicit Types s : nemu CPU.

Definition modify_cpu (f : CPU -> CPU) : M CPU unit := modify (fun s => with_cpu (f (cpu s)) s).

Definition check_reg_idx (idx : Z) : M CPU Z :=
  when CONFIG_RT_CHECK (assert_that ((0 <=? idx) && (idx <? nr_gpr)) "idx >= 0 && idx < NR_GPR") ;;
  mret idx.

(** [R(i)] read, and [R(i) = v]. *)
Definition R_get (i : Z) : M CPU Z :=
  idx ← check_reg_idx i;
  c ← gets cpu;
  match zlookup (gprs c) idx with Some v => mret v | None => undef "cpu.gpr out of bounds" end.

Definition R_set (i v : Z) : M CPU unit :=
  idx ← check_reg_idx i;
  c ← gets cpu;
  match zinsert (gprs c) idx (u32 v) with
  | Some l => modify_cpu (set_gprs l)
  | None => undef "cpu.gpr out of bounds"
  end.

(** A register file of the right length, with word-sized registers. *)
Definition gprs_ok (c : CPU) : Prop :=
  Z.of_nat (length (gprs c)) = nr_gpr /\ Forall (in_u 32) (gprs c).

Definition gpr_at (c : CPU) (i : Z) : Z := default 0 (zlookup (gprs c) i).

Lemma gpr_at_range c i : gprs_ok c -> in_u 32 (gpr_at c i).
Proof using Type.
  intros [_ Hf]. unfold gpr_at. destruct zlookup as [v|] eqn:E; [|cbn; unfold in_u; lia].
  apply zlookup_some in E as [_ E]. by eapply Forall_lookup_1.
Qed.

Lemma check_reg_idx_run i s : 0 <= i < nr_gpr -> check_reg_idx i s = Ok (i, s).
Proof using Type.
  intros Hi. unfold check_reg_idx, when, assert_that.
  rewrite (proj2 (Z.leb_le 0 i)), (proj2 (Z.ltb_lt i _)) by lia. by destruct CONFIG_RT_CHECK.
Qed.

Lemma R_get_run i s : gprs_ok (cpu s) -> 0 <= i < nr_gpr -> R_get i s = Ok (gpr_at (cpu s) i, s).
Proof using Type.
  intros [Hl _] Hi. unfold R_get. rewrite (bind_run _ _ _ _ _ (check_reg_idx_run i s Hi)).
  run_simpl. unfold gpr_at.
  destruct (zlookup_is_some (gprs (cpu s)) i) as [v ->]; [lia|]. done.
Qed.

(** Assigning a register. *)
Definition upd_gpr (i v : Z) (c : CPU) : CPU := set_gprs (<[Z.to_nat i := u32 v]> (gprs c)) c.

Lemma R_set_run i v s :
  gprs_ok (cpu s) -> 0 <= i < nr_gpr -> R_set i v s = Ok (tt, with_cpu (upd_gpr i v (cpu s)) s).
Proof using Type.
  intros [Hl _] Hi. unfold R_set. rewrite (bind_run _ _ _ _ _ (check_reg_idx_run i s Hi)).
  run_simpl. rewrite zinsert_is_some by lia. done.
Qed.

Lemma upd_gpr_ok i v c : gprs_ok c -> gprs_ok (upd_gpr i v c).
Proof using Type.
  intros [Hl Hf]. unfold gprs_ok, upd_gpr. rewrite gprs_set, length_insert. split; [done|].
  apply Forall_insert; [done|]. by apply wrap_range.
Qed.

Lemma gpr_at_upd i v c j :
  gprs_ok c -> 0 <= i < nr_gpr -> 0 <= j ->
  gpr_at (upd_gpr i v c) j = if decide (i = j) then u32 v else gpr_at c j.
Proof using Type.
  intros [Hl _] Hi Hj. unfold gpr_at, upd_gpr, zlookup. rewrite gprs_set.
  destruct (Z.ltb_spec j 0); [lia|]. case_decide as E.
  - subst. rewrite list_lookup_insert_eq by lia. done.
  - rewrite list_lookup_insert_ne by lia. done.
Qed.

(** An index outside the array stops the emulator under CONFIG_RT_CHECK. *)
Lemma R_get_checked i s : CONFIG_RT_CHECK = true -> nr_gpr <= i -> is_ok (R_get i s) = false.
Proof using Type.
  intros Hc Hi. unfold R_get, check_reg_idx. rewrite Hc. unfold when, assert_that.
  rewrite (proj2 (Z.ltb_ge i _)) by lia. rewrite andb_false_r. done.
Qed.
End Gpr.

(** ** Dispatch over a table of INSTPAT lines *)

Section Dispatch.
Context {A : Type}.

(** The lines between INSTPAT_START and INSTPAT_END: the first that matches. *)
Fixpoint instpat (table : list (string * A)) (i : Z) : outcome (option A) :=
  match table with
  | [] => Ok None
  | (p, a) :: table' =>
      b ← INSTPAT_match p i;
      if b : bool then Ok (Some a) else instpat table' i
  end.

Fixpoint compile (table : list (string * A)) : outcome (list (pat * A)) :=
  match table with
  | [] => Ok []
  | (p, a) :: table' => q ← pattern_decode p; t ← compile table'; Ok ((q, a) :: t)
  end.

Fixpoint find_pat (ps : list (pat * A)) (i : Z) : option A :=
  match ps with
  | [] => None
  | (p, a) :: ps' => if pat_match p i then Some a else find_pat ps' i
  end.

Lemma instpat_cons p a table i :
  instpat ((p, a) :: table) i = b ← INSTPAT_match p i; if b : bool then Ok (Some a) else instpat table i.
Proof. reflexivity. Qed.
Lemma compile_cons p a table :
  compile ((p, a) :: table) = q ← pattern_decode p; t ← compile table; Ok ((q, a) :: t).
Proof. reflexivity. Qed.

Lemma instpat_compile table ps i : compile table = Ok ps -> instpat table i = Ok (find_pat ps i).
Proof.
  revert ps; induction table as [|[p a] table IH]; intros ps Hc.
  - by injection Hc as <-.
  - rewrite instpat_cons. rewrite compile_cons in Hc. unfold INSTPAT_match.
    destruct (pattern_decode p) as [q| |]; [|discriminate Hc..].
    destruct (compile table) as [t| |]; [|discriminate Hc..].
    rewrite (IH t eq_refl). injection Hc as <-. cbn. by destruct (pat_match q i).
Qed.
End Dispatch.

(** ** The functions of isa.h *)

Class Isa `{Config} := {
  CPU_state : Type;
  DecodeInfo : Type;
  decode_info0 : DecodeInfo;
  (** the fields cpu-exec.c reaches into *)
  info_inst : DecodeInfo -> Z;
  cpu_pc : CPU_state -> Z;
  set_cpu_pc : Z -> CPU_state -> CPU_state;
  cpu_gpr : CPU_state -> list Z;
  cpu_zero : CPU_state;
  init_isa : M CPU_state unit;
  isa_exec_once : Decode.t DecodeInfo -> M CPU_state (Decode.t DecodeInfo);
  isa_raise_intr : Z -> Z -> M CPU_state Z;
  isa_query_intr : Z;
  isa_difftest_checkregs : CPU_state -> Z -> M CPU_state bool;
}.
Arguments CPU_state {H} _ : rename.
