(* ===== verification/CStr.v ===== *)
(** * The C library's string functions the debugger uses

    [isspace], [strtoull]/[strtol] (base 0), [strtok] with a set of delimiters,
    as the C standard defines them, on strings without their terminator. *)
From S2P Require Import Prelude.
From Stdlib Require Import Ascii.
#[local] Open Scope string_scope.
#[local] Open Scope Z_scope.

Definition ord (c : ascii) : Z := Z.of_nat (nat_of_ascii c).

(** Space, \t, \n, \v, \f, \r. *)
Definition isspace (c : ascii) : bool := (ord c =? 32) || ((9 <=? ord c) && (ord c <=? 13)).

(** The value of a digit in bases up to 36. *)
Definition digit (c : ascii) : option Z :=
  let n := ord c in
  if (48 <=? n) && (n <=? 57) then Some (n - 48)
  else if (97 <=? n) && (n <=? 122) then Some (n - 97 + 10)
  else if (65 <=? n) && (n <=? 90) then Some (n - 65 + 10) else None.
Definition digit_in (base : Z) (c : ascii) : option Z :=
  match digit c with Some d => if d <? base then Some d else None | None => None end.

Fixpoint skip_space (s : string) : string :=
  match s with String c s' => if isspace c then skip_space s' else s | EmptyString => s end.

(** The longest prefix of digits, as a number, and how many there are. *)
Fixpoint digits (base : Z) (s : string) (acc : Z) : Z :=
  match s with
  | EmptyString => acc
  | String c s' => match digit_in base c with Some d => digits base s' (acc * base + d) | None => acc end
  end.

(** An optional sign. *)
Definition sign (s : string) : bool * string :=
  match s with
  | String c s' => if Ascii.eqb c "-" then (true, s') else if Ascii.eqb c "+" then (false, s') else (false, s)
  | EmptyString => (false, s)
  end.

(** Base 0: 0x means 16, 0 means 8, otherwise 10.  The prefix 0x counts only
    when a hexadecimal digit follows. *)
Definition subject (s : string) : Z * string :=
  match s with
  | String z (String x (String d s')) =>
      if Ascii.eqb z "0" then
        if (Ascii.eqb x "x" || Ascii.eqb x "X")
           && match digit_in 16 d with Some _ => true | None => false end
        then (16, String d s') else (8, s)
      else (10, s)
  | String z _ => if Ascii.eqb z "0" then (8, s) else (10, s)
  | EmptyString => (10, s)
  end.

Definition parse (s : string) : bool * Z :=
  let (neg, s) := sign (skip_space s) in
  let (base, s) := subject s in
  (neg, digits base s 0).

(** [strtoull(s, NULL, 0)]: saturates, and negates modulo 2^64. *)
Definition strtoull (s : string) : Z :=
  let (neg, v) := parse s in
  if 2 ^ 64 <=? v then 2 ^ 64 - 1 else if neg then u64 (- v) else v.

(** [strtol(s, NULL, 0)] for a 64-bit long. *)
Definition strtol (s : string) : Z :=
  let (neg, v) := parse s in
  let v := if neg then - v else v in
  if v <? - 2 ^ 63 then - 2 ^ 63 else if 2 ^ 63 <=? v then 2 ^ 63 - 1 else v.

(** [strtok(s, delims)]: the first token and what follows the delimiter that
    ends it. *)
Section Tok.
Variable delim : ascii -> bool.

Fixpoint skip_delim (s : string) : string :=
  match s with String c s' => if delim c then skip_delim s' else s | EmptyString => s end.

Fixpoint token (s : string) : string * string :=
  match s with
  | EmptyString => (EmptyString, EmptyString)
  | String c s' =>
      if delim c then (EmptyString, s')
      else let (t, r) := token s' in (String c t, r)
  end.

Definition strtok (s : string) : option (string * string) :=
  match skip_delim s with EmptyString => None | s' => Some (token s') end.

Lemma token_length s : (String.length (token s).2 <= String.length s)%nat.
Proof.
  induction s as [|c s IH]; cbn; [lia|]. destruct (delim c); cbn; [lia|].
  destruct (token s) as [t r]; cbn in *. lia.
Qed.

Lemma skip_delim_length s : (String.length (skip_delim s) <= String.length s)%nat.
Proof. induction s as [|c s IH]; cbn; [lia|]. destruct (delim c); cbn; lia. Qed.

Lemma strtok_length s t r : strtok s = Some (t, r) -> (String.length r < String.length s)%nat.
Proof.
  unfold strtok. pose proof (skip_delim_length s) as Hs. destruct (skip_delim s) as [|c s'] eqn:E; [done|].
  assert (delim c = false) as Hd.
  { clear Hs. revert E. induction s as [|c0 s0 IH]; cbn; [done|]. destruct (delim c0) eqn:Ec; [done|].
    by intros [= -> ->]. }
  cbn [token]. rewrite Hd. pose proof (token_length s'). destruct (token s') as [t' r']; cbn in *.
  intros [= <- <-]. lia.
Qed.

(** All tokens, the order in which a loop of [strtok_r] calls yields them. *)
Fixpoint tokens_fuel (n : nat) (s : string) : list string :=
  match n with
  | O => []
  | S n' => match strtok s with Some (t, r) => t :: tokens_fuel n' r | None => [] end
  end.
Definition tokens (s : string) : list string := tokens_fuel (String.length s) s.

(** The fuel is enough. *)
Lemma tokens_step s :
  tokens s = match strtok s with Some (t, r) => t :: tokens r | None => [] end.
Proof.
  assert (forall n s, (String.length s <= n)%nat -> tokens_fuel n s = tokens s) as Hf.
  { induction n as [n IH] using lt_wf_ind. intros s0 Hs. unfold tokens.
    destruct n as [|n]; [by destruct s0; cbn in *; [|lia]|].
    destruct s0 as [|c s0]; [done|]. cbn [tokens_fuel String.length].
    destruct (strtok (String c s0)) as [[t r]|] eqn:E; [|done].
    apply strtok_length in E. cbn in *. rewrite !IH by lia. done. }
  unfold tokens at 1. destruct s as [|c s]; [done|]. cbn [tokens_fuel String.length].
  destruct (strtok (String c s)) as [[t r]|] eqn:E; [|done]. f_equal. apply Hf.
  apply strtok_length in E. cbn in E. lia.
Qed.
End Tok.

Definition is_space_char (c : ascii) : bool := Ascii.eqb c " ".
