(* ===== verification/Difftest.v ===== *)
(** * Differential testing, the design side (nemu/src/cpu/difftest/dut.c)

    The reference is a shared object loaded at run time.  It is known only
    through its interface: its state is what the commands it received made it,
    so the registers it reports are a function [ref_regs] of the log of
    commands, a parameter of the model. *)
From S2P Require Import Prelude Outcome Bytes Config CommitEvent CommitRing Machine PhysMem Devices IoMap.
From S2P Require Import Vaddr Pattern Isa.

Section Difftest.
Context `{Hcfg : Config} `{!Isa}.
Abbreviation CPU := (CPU_state _).
Abbreviation Mn := (M CPU).
Variable ref_regs : list (ref_cmd CPU) -> CPU.

Definition send_ref (c : ref_cmd CPU) : Mn unit :=
  modify (fun s => {s with ref_log ::= (fun l => l ++ [c])}).
(** [ref_difftest_regcpy(&ref_r, DIFFTEST_TO_DUT)]. *)
Definition read_ref : Mn CPU := gets (fun s => ref_regs (ref_log s)).

Definition set_dut (skip : bool) (n : Z) : Mn unit :=
  modify (fun s => {s with dut := {| is_skip_ref := skip; skip_dut_nr_inst := n |}}).

(** [for (; nr_ref -- > 0; ) ref_difftest_exec(1)]. *)
Fixpoint ref_exec_times (n : nat) : Mn unit :=
  match n with O => mret tt | S n' => send_ref (RefExec 1) ;; ref_exec_times n' end.

Definition difftest_skip_dut (nr_ref nr_dut : Z) : Mn unit :=
  d ← gets dut;
  set_dut (is_skip_ref d) (s32 (skip_dut_nr_inst d + nr_dut)) ;;
  ref_exec_times (Z.to_nat nr_ref).

(** The part of [init_difftest] that talks to the loaded reference; the image
    is the [img_size] bytes of physical memory at the reset vector. *)
Definition init_difftest (img_size port : Z) : Mn unit :=
  when CONFIG_DIFFTEST
    (send_ref (RefInit port) ;;
     p ← lift (guest_to_host RESET_VECTOR);
     m ← gets mem;
     send_ref (RefMemcpy RESET_VECTOR (ha_get_n (host_array m p.1) p.2 (Z.to_nat img_size))) ;;
     c ← gets cpu;
     send_ref (RefRegcpy c)).

Definition checkregs (ref_r : CPU) (pc : Z) : Mn unit :=
  ok ← isa_difftest_checkregs ref_r pc;
  when (negb ok)
    (modify (fun s => {s with nemu_state ::= (fun n => {n with state := NEMU_ABORT; halt_pc := pc})})).

Definition difftest_step (pc npc : Z) : Mn unit :=
  d ← gets dut;
  if 0 <? skip_dut_nr_inst d then
    ref_r ← read_ref;
    if cpu_pc ref_r =? npc then
      set_dut (is_skip_ref d) 0 ;;
      checkregs ref_r npc
    else
      set_dut (is_skip_ref d) (skip_dut_nr_inst d - 1) ;;
      if skip_dut_nr_inst d - 1 =? 0 then abort "can not catch up with ref.pc" else mret tt
  else if is_skip_ref d then
    c ← gets cpu;
    send_ref (RefRegcpy c) ;;
    set_dut false (skip_dut_nr_inst d)
  else
    send_ref (RefExec 1) ;;
    ref_r ← read_ref;
    checkregs ref_r pc.
End Difftest.

(** ** The reference side (ref.c), for NEMU built as a shared object *)

Section Ref.
Context `{Hcfg : Config} `{!Isa}.
Abbreviation CPU := (CPU_state _).
Abbreviation Mn := (M CPU).
(** [cpu_exec] of cpu-exec.c, bound by the linker. *)
Variable cpu_exec : Z -> Mn unit.

Definition difftest_set_mmio_replay (record : MMIOReplayRecord) : Mn unit := npc_mmio_replay_set record.
Definition difftest_mmio_replay_ok : Mn bool := npc_mmio_replay_ok.

Definition difftest_memcpy_to_ref (addr : Z) (buf : list Z) : Mn unit := paddr_memcpy_to_guest addr buf true.
Definition difftest_memcpy_to_dut (addr n : Z) : Mn (list Z) := paddr_memcpy_from_guest addr n.

Definition difftest_exec (n : Z) : Mn unit := cpu_exec n.

(** The event is what the last executed instruction recorded. *)
Definition difftest_step_event : Mn CommitEvent :=
  cpu_exec 1 ;;
  r ← gets ring;
  match commit_event_get_last r with
  | Some ev => mret ev
  | None => abort "assert(ok)"
  end.

Definition difftest_get_last_events (max_n : Z) : Mn (list CommitEvent) :=
  r ← gets ring; mret (commit_event_copy_last max_n r).

Definition difftest_raise_intr (NO : Z) : Mn unit := abort "assert(0)".

Definition difftest_init (rand_byte : option Z) (SDL_SCANCODE : string -> Z) (sd : option file) : Mn unit :=
  init_mem rand_byte ;;
  when CONFIG_DEVICE (init_device SDL_SCANCODE sd) ;;
  init_isa.
End Ref.
