(* ===== verification/CpuExec.v ===== *)
(** * Running the CPU (nemu/src/cpu/cpu-exec.c)

    One instruction and its commit event, the execution loop with the
    instruction limit and the breakpoints, [cpu_exec], and the exit status.
    Everything is stated over the interface [Isa].

    The loop of [execute] may run 2^64-1 times, so it is not written with fuel:
    [repeat_while] splits the count in binary and stops at the first iteration
    that breaks, which [repeat_while_nat] shows to be the loop. *)
From S2P Require Import Prelude Outcome Bytes Config CommitEvent CommitRing Machine PhysMem Devices IoMap.
From S2P Require Import Vaddr Pattern Isa Difftest.
#[local] Open Scope string_scope.
#[local] Open Scope Z_scope.

(** ** Loops that stop early *)

Section Loop.
Context {S A : Type} (body : A -> ST S (bool * A)).

Fixpoint repeat_nat (n : nat) (a : A) : ST S (bool * A) :=
  match n with
  | O => mret (true, a)
  | Datatypes.S n' => r ← body a; if r.1 : bool then repeat_nat n' r.2 else mret (false, r.2)
  end.

Fixpoint repeat_while (p : positive) (a : A) : ST S (bool * A) :=
  match p with
  | xH => body a
  | xO p' =>
      r ← repeat_while p' a;
      if r.1 : bool then repeat_while p' r.2 else mret (false, r.2)
  | xI p' =>
      r ← body a;
      if r.1 : bool then
        r ← repeat_while p' r.2;
        if r.1 : bool then repeat_while p' r.2 else mret (false, r.2)
      else mret (false, r.2)
  end.

Lemma bind_ext {B C} (m : ST S B) (k k' : B -> ST S C) s :
  (forall b s', k b s' = k' b s') -> (m ≫= k) s = (m ≫= k') s.
Proof. intros Hk. unfold mbind, st_bind. destruct (m s) as [[b s']| |]; [apply Hk|done|done]. Qed.

Lemma bind_assoc {B C D} (m : ST S B) (k : B -> ST S C) (h : C -> ST S D) s :
  ((m ≫= k) ≫= h) s = (m ≫= fun b => k b ≫= h) s.
Proof. unfold mbind, st_bind. by destruct (m s) as [[b s']| |]. Qed.

Lemma repeat_nat_add m n a s :
  repeat_nat (m + n) a s =
  (r ← repeat_nat m a; if r.1 : bool then repeat_nat n r.2 else mret (false, r.2)) s.
Proof.
  revert a s; induction m as [|m IH]; intros a s; [done|]. cbn [repeat_nat Nat.add].
  rewrite bind_assoc. apply bind_ext. intros [[] a'] s'; cbn [fst snd]; [apply IH|done].
Qed.

Lemma repeat_nat_one a s : repeat_nat 1 a s = body a s.
Proof.
  cbn. unfold mbind, st_bind. destruct (body a s) as [[[[] a'] s']| |]; done.
Qed.

Lemma repeat_while_nat p a s : repeat_while p a s = repeat_nat (Pos.to_nat p) a s.
Proof.
  revert a s; induction p as [p IH|p IH|]; intros a s.
  - rewrite Pos2Nat.inj_xI. cbn [repeat_while].
    replace (Datatypes.S (2 * Pos.to_nat p)) with (1 + (Pos.to_nat p + Pos.to_nat p))%nat by lia.
    rewrite repeat_nat_add. unfold mbind at 1, st_bind at 1. unfold mbind at 2, st_bind at 2.
    rewrite repeat_nat_one. destruct (body a s) as [[[[] a'] s']| |]; try done. cbn [fst snd].
    rewrite repeat_nat_add. unfold mbind, st_bind. rewrite IH.
    destruct (repeat_nat _ a' s') as [[[[] a2] s2]| |]; try done. cbn. apply IH.
  - rewrite Pos2Nat.inj_xO. cbn [repeat_while].
    replace (2 * Pos.to_nat p)%nat with (Pos.to_nat p + Pos.to_nat p)%nat by lia.
    rewrite repeat_nat_add. unfold mbind, st_bind. rewrite IH.
    destruct (repeat_nat _ a s) as [[[[] a2] s2]| |]; try done. cbn. apply IH.
  - symmetry. apply repeat_nat_one.
Qed.
End Loop.

(** ** cpu-exec.c *)

Section CpuExec.
Context `{Hcfg : Config} `{!Isa}.
Abbreviation CPU := (CPU_state _).
Abbreviation Dec := (Decode.t DecodeInfo).
Abbreviation Mn := (M CPU).

(** The registers of the DiffTest reference, from the commands it was sent. *)
Variable ref_regs : list (ref_cmd CPU) -> CPU.
(** What the host offers [device_update] after instruction [n]: the time and
    the pending events. *)
Variable host : Z -> Z * list SDL_Event.

(** sdb.c; always false in the shared object. *)
Definition sdb_breakpoint_hit (pc : Z) : Mn bool :=
  if CONFIG_TARGET_SHARE then mret false
  else
    l ← gets breakpoints;
    mret (if Nat.eqb (length l) 0 then false else existsb (fun b => b =? pc) l).

Definition event_has_wb (inst : Z) : bool :=
  let opcode := Z.land inst 0x7f in
  let rd := Z.land (Z.shiftr inst 7) 0x1f in
  let has_wb :=
    if (opcode =? 0x37) || (opcode =? 0x17) || (opcode =? 0x6f) || (opcode =? 0x67)
       || (opcode =? 0x03) || (opcode =? 0x13) || (opcode =? 0x33) || (opcode =? 0x73)
    then negb (rd =? 0) else false in
  if (opcode =? 0x73) && (Z.land (Z.shiftr inst 12) 0x7 =? 0) then false else has_wb.

Definition make_commit_event (s : Dec) (dnpc : Z) (m : nemu CPU) : CommitEvent :=
  let inst := info_inst (Decode.isa s) in
  let rd := Z.land (Z.shiftr inst 7) 0x1f in
  let wb := event_has_wb inst in
  let ev := {CommitEvent_zero with
               retire := g_nr_guest_inst m; cycle := g_nr_guest_inst m;
               ev_pc := Decode.pc s; ev_inst := inst; next_pc := dnpc;
               has_wb := b2z wb; ev_rd := rd} in
  let ev :=
    if wb && (rd <? Z.of_nat (length (cpu_gpr (cpu m))))
    then {ev with rd_value := default 0 (zlookup (cpu_gpr (cpu m)) rd)} else ev in
  if Decode.exception s then
    {ev with ev_exception := 1; ev_cause := Decode.exception_cause s; has_wb := 0; ev_rd := 0; rd_value := 0}
  else if decide (state (nemu_state m) = NEMU_ABORT) then
    {ev with ev_exception := 1; ev_cause := run_state_code NEMU_ABORT}
  else ev.

Definition difftest_after_commit (s : Dec) (dnpc : Z) : Mn unit :=
  when CONFIG_DIFFTEST (difftest_step ref_regs (Decode.pc s) dnpc).

Definition exec_once (s : Dec) (pc : Z) : Mn Dec :=
  s ← isa_exec_once {s with Decode.pc := pc; Decode.snpc := pc;
                       Decode.exception := false; Decode.exception_cause := 0};
  modify (fun m => with_cpu (set_cpu_pc (Decode.dnpc s) (cpu m)) m) ;;
  mret s.

Definition set_state (st : run_state) : Mn unit :=
  modify (fun m => {m with nemu_state ::= (fun n => {n with state := st})}).

(** One iteration of the loop of [execute]; [false] is a [break]. *)
Definition execute_iter (s : Dec) : Mn (bool * Dec) :=
  m ← get;
  if negb (nemu_inst_limit m =? 0) && (nemu_inst_limit m <=? g_nr_guest_inst m) then
    modify (fun m => {m with nemu_state :=
      {| state := NEMU_LIMIT; halt_pc := cpu_pc (cpu m); halt_ret := 1 |}}) ;;
    mret (false, s)
  else
    s ← exec_once s (cpu_pc (cpu m));
    modify (fun m => {m with g_nr_guest_inst := u64 (g_nr_guest_inst m + 1)}) ;;
    m ← get;
    let ev := make_commit_event s (cpu_pc (cpu m)) m in
    modify (fun m => {m with ring ::= commit_event_record ev}) ;;
    difftest_after_commit s (cpu_pc (cpu m)) ;;
    m ← get;
    if decide (state (nemu_state m) <> NEMU_RUNNING) then mret (false, s)
    else
      hit ← sdb_breakpoint_hit (cpu_pc (cpu m));
      if hit : bool then
        modify (fun m => {m with nemu_state ::= (fun n =>
          {n with state := NEMU_STOP; halt_pc := cpu_pc (cpu m)})}) ;;
        printf "NEMU_BREAK_HIT pc= insts=" [AZ (cpu_pc (cpu m)); AZ (g_nr_guest_inst m)] ;;
        mret (false, s)
      else
        when CONFIG_DEVICE
          (let (now, events) := host (g_nr_guest_inst m) in device_update now events) ;;
        mret (true, s).

(** [Decode s] is uninitialised before the first iteration. *)
Definition execute (garbage : Dec) (n : Z) : Mn unit :=
  match n with
  | Zpos p => repeat_while execute_iter p garbage ;; mret tt
  | _ => mret tt
  end.

Definition nemu_result (m : nemu CPU) : string :=
  match state (nemu_state m) with
  | NEMU_END => if halt_ret (nemu_state m) =? 0 then "good" else "bad"
  | NEMU_ABORT => "abort"
  | NEMU_QUIT => "quit"
  | NEMU_LIMIT => "limit"
  | NEMU_STOP => "stop"
  | NEMU_RUNNING => "running"
  end.

Definition report_result : Mn unit :=
  m ← get;
  printf "NEMU_RESULT status= state= halt_pc= halt_ret= insts= limit="
    [AS (nemu_result m); AZ (run_state_code (state (nemu_state m))); AZ (halt_pc (nemu_state m));
     AZ (halt_ret (nemu_state m)); AZ (g_nr_guest_inst m); AZ (nemu_inst_limit m)].

(** The line of [commit_event_format]. *)
Definition commit_event_format (ev : CommitEvent) : list arg :=
  [AZ (retire ev); AZ (cycle ev); AZ (ev_pc ev); AZ (ev_inst ev);
   AZ (if has_wb ev =? 0 then 0 else ev_rd ev); AZ (if has_wb ev =? 0 then 0 else rd_value ev);
   AZ (next_pc ev); AZ (ev_exception ev); AZ (ev_cause ev)].

(** [commit_event_dump_last] with its output. *)
Definition dump_last (n : Z) : Mn unit :=
  r ← gets ring;
  match commit_event_dump_last n r with
  | None => mret tt
  | Some evs =>
      printf "NEMU_LAST_BEGIN count=" [AZ (Z.of_nat (length evs))] ;;
      iter_list (fun ev => printf "NEMU_LAST" (commit_event_format ev)) evs ;;
      printf "NEMU_LAST_END" []
  end.

Definition assert_fail_msg : Mn unit := dump_last 0.

Definition cpu_exec (garbage : Dec) (n : Z) : Mn unit :=
  m ← get;
  match state (nemu_state m) with
  | NEMU_END | NEMU_ABORT | NEMU_QUIT =>
      printf "Program execution has ended. To restart the program, exit NEMU and run again." []
  | _ =>
      set_state NEMU_RUNNING ;;
      execute garbage (u64 n) ;;
      m ← get;
      match state (nemu_state m) with
      | NEMU_RUNNING => set_state NEMU_STOP
      | NEMU_END | NEMU_ABORT =>
          when (bool_decide (state (nemu_state m) = NEMU_ABORT) || negb (halt_ret (nemu_state m) =? 0))
            (dump_last 0) ;;
          report_result
      | NEMU_LIMIT => dump_last 0 ;; report_result
      | NEMU_QUIT | NEMU_STOP => report_result
      end
  end.

(** utils/state.c *)
Definition is_exit_status_bad (m : nemu CPU) : bool :=
  let good :=
    (bool_decide (state (nemu_state m) = NEMU_END) && (halt_ret (nemu_state m) =? 0))
    || bool_decide (state (nemu_state m) = NEMU_QUIT) in
  negb good.
End CpuExec.
