(* ===== verification/Sdb.v ===== *)
(** * The simple debugger (nemu/src/monitor/sdb/sdb.c)

    The breakpoint table, the commands and the three ways commands arrive: a
    script, batch mode, or lines from the terminal (an input list, the lines
    [readline] returns).  A handler returns the C function's [int]. *)
From S2P Require Import Prelude Outcome Bytes Config CommitEvent CommitRing Machine PhysMem Devices IoMap.
From S2P Require Import Vaddr Pattern Isa CStr Difftest CpuExec.
From Stdlib Require Import Ascii.
#[local] Open Scope string_scope.
#[local] Open Scope Z_scope.

Definition NR_BREAKPOINTS : Z := 16.

(** ** Breakpoints *)

(** [breakpoints[i] = breakpoints[-- nr_breakpoints]] for the first [i] that
    holds [addr]: the last entry takes its place. *)
Fixpoint index_of (addr : Z) (l : list Z) : option nat :=
  match l with
  | [] => None
  | b :: l' => if b =? addr then Some O else option_map S (index_of addr l')
  end.

Definition remove_bp (i : nat) (l : list Z) : list Z :=
  let last := List.last l 0 in
  take (length l - 1) (<[i := last]> l).

Section Sdb.
Context `{Hcfg : Config} `{!Isa}.
Abbreviation CPU := (CPU_state _).
Abbreviation Mn := (M CPU).
Variable ref_regs : list (ref_cmd CPU) -> CPU.
Variable host : Z -> Z * list SDL_Event.
Variable garbage : Decode.t DecodeInfo.

Abbreviation cpu_exec := (cpu_exec ref_regs host garbage).

Definition no_args (args : option string) : bool :=
  match args with None => true | Some s => String.eqb s EmptyString end.

Definition parse_count (args : option string) (default_value : Z) : Z :=
  match args with
  | None => default_value
  | Some s => if String.eqb s EmptyString then default_value else strtoull s
  end.

Definition cmd_c (args : option string) : Mn Z := cpu_exec (-1) ;; mret 0.
Definition cmd_run (args : option string) : Mn Z := cpu_exec (parse_count args (u64 (-1))) ;; mret 0.
Definition cmd_step (args : option string) : Mn Z := cpu_exec (parse_count args 1) ;; mret 0.
Definition cmd_q (args : option string) : Mn Z := set_state NEMU_QUIT ;; mret (-1).
Definition cmd_last (args : option string) : Mn Z := dump_last (parse_count args 0) ;; mret 0.

Definition set_breaks (l : list Z) : Mn unit := modify (fun s => {s with breakpoints := l}).

Definition cmd_break (args : option string) : Mn Z :=
  if no_args args then printf "Usage: break <addr>" [] ;; mret 0 else
  l ← gets breakpoints;
  if NR_BREAKPOINTS <=? Z.of_nat (length l) then
    printf "NEMU_BREAK status=full limit=" [AZ NR_BREAKPOINTS] ;; mret 0
  else
    let addr := u32 (strtoull (default EmptyString args)) in
    if existsb (fun b => b =? addr) l then
      printf "NEMU_BREAK status=exists addr=" [AZ addr] ;; mret 0
    else
      set_breaks (l ++ [addr]) ;;
      printf "NEMU_BREAK status=set addr=" [AZ addr] ;; mret 0.

Definition cmd_delete_break (args : option string) : Mn Z :=
  if no_args args then printf "Usage: delete-break <addr>" [] ;; mret 0 else
  let addr := u32 (strtoull (default EmptyString args)) in
  l ← gets breakpoints;
  match index_of addr l with
  | Some i =>
      set_breaks (remove_bp i l) ;;
      printf "NEMU_BREAK status=deleted addr=" [AZ addr] ;; mret 0
  | None => printf "NEMU_BREAK status=missing addr=" [AZ addr] ;; mret 0
  end.

Definition cmd_clear_breaks (args : option string) : Mn Z :=
  set_breaks [] ;; printf "NEMU_BREAK status=cleared" [] ;; mret 0.

Definition cmd_list_breaks (args : option string) : Mn Z :=
  l ← gets breakpoints;
  printf "NEMU_BREAK_LIST count=" [AZ (Z.of_nat (length l))] ;;
  iter_list (fun b => printf "NEMU_BREAK addr=" [AZ b]) l ;;
  mret 0.

(** ** Examining the machine *)

Fixpoint print_regs (fmt : string) (i : Z) (l : list Z) : Mn unit :=
  match l with
  | [] => mret tt
  | v :: l' => printf fmt [AZ i; AZ v] ;; print_regs fmt (i + 1) l'
  end.

(** [for (size_t off = 0; off < size; off += 4)]: [n] words remain. *)
Fixpoint print_mem (n : nat) (addr off size : Z) : Mn unit :=
  match n with
  | O => mret tt
  | S n' =>
      let len := if 4 <=? size - off then 4 else size - off in
      let cur := u32 (addr + u32 off) in
      v ← paddr_read cur len;
      printf "MEM = " [AZ cur; AZ v] ;;
      print_mem n' addr (off + 4) size
  end.

Definition cmd_print (args : option string) : Mn Z :=
  match args with
  | None => printf "Usage: print pc|reg [i]|mem <addr> <size>" [] ;; mret 0
  | Some args =>
      match strtok is_space_char args with
      | None => mret 0
      | Some (kind, rest) =>
          c ← gets cpu;
          if String.eqb kind "pc" then printf "pc = " [AZ (cpu_pc c)] ;; mret 0
          else if String.eqb kind "reg" then
            match strtok is_space_char rest with
            | None => print_regs "x = " 0 (cpu_gpr c) ;; mret 0
            | Some (idx_s, _) =>
                let idx := s32 (strtol idx_s) in
                match zlookup (cpu_gpr c) idx with
                | Some v => printf "x = " [AZ idx; AZ v] ;; mret 0
                | None => printf "invalid register index " [AZ idx] ;; mret 0
                end
            end
          else if String.eqb kind "mem" then
            match strtok is_space_char rest with
            | None => printf "Usage: print mem <addr> <size>" [] ;; mret 0
            | Some (addr_s, rest) =>
                match strtok is_space_char rest with
                | None => printf "Usage: print mem <addr> <size>" [] ;; mret 0
                | Some (size_s, _) =>
                    let addr := u32 (strtoull addr_s) in
                    let size := strtoull size_s in
                    print_mem (Z.to_nat ((size + 3) / 4)) addr 0 size ;; mret 0
                end
            end
          else printf "Unknown print target" [AS kind] ;; mret 0
      end
  end.

Definition cmd_dump (args : option string) : Mn Z :=
  let kind := match args with Some a => strtok is_space_char a | None => None end in
  if match kind with None => true | Some (k, _) => String.eqb k "state" end then
    m ← get;
    printf "NEMU_STATE pc= state= halt_pc= halt_ret="
      [AZ (cpu_pc (cpu m)); AZ (run_state_code (state (nemu_state m))); AZ (halt_pc (nemu_state m));
       AZ (halt_ret (nemu_state m))] ;;
    print_regs "NEMU_REG x=" 0 (cpu_gpr (cpu m)) ;; mret 0
  else printf "Usage: dump state" [] ;; mret 0.

(** The table, in order; [help] prints from it. *)
Definition cmd_names : list (string * string) := [
  ("help", "Display information about all supported commands");
  ("c", "Continue the execution of the program");
  ("run", "Run [n] retired instructions");
  ("step", "Step [n] retired instructions");
  ("si", "Alias of step [n]");
  ("print", "Print pc, reg, or memory");
  ("dump", "Dump state");
  ("last", "Print last [n] CommitEvents");
  ("break", "Set a PC breakpoint");
  ("delete-break", "Delete a PC breakpoint");
  ("clear-breaks", "Delete all PC breakpoints");
  ("list-breaks", "List PC breakpoints");
  ("q", "Exit NEMU"); ("quit", "Exit NEMU"); ("exit", "Exit NEMU")].

Definition cmd_help (args : option string) : Mn Z :=
  match match args with Some a => strtok is_space_char a | None => None end with
  | None => iter_list (fun nd => printf " - " [AS nd.1; AS nd.2]) cmd_names ;; mret 0
  | Some (a, _) =>
      match find (fun nd => String.eqb a nd.1) cmd_names with
      | Some nd => printf " - " [AS nd.1; AS nd.2] ;; mret 0
      | None => printf "Unknown command" [AS a] ;; mret 0
      end
  end.

Definition cmd_handlers : list (option string -> Mn Z) :=
  [cmd_help; cmd_c; cmd_run; cmd_step; cmd_step; cmd_print; cmd_dump; cmd_last; cmd_break;
   cmd_delete_break; cmd_clear_breaks; cmd_list_breaks; cmd_q; cmd_q; cmd_q].

Definition cmd_table : list (string * (option string -> Mn Z)) :=
  zip (map fst cmd_names) cmd_handlers.

(** ** Commands *)

Definition is_blank (c : ascii) : bool := Ascii.eqb c " " || (ord c =? 9) || (ord c =? 10).

Fixpoint trim_end (s : string) : string :=
  match s with
  | EmptyString => EmptyString
  | String c s' =>
      match trim_end s' with
      | EmptyString => if is_blank c then EmptyString else String c EmptyString
      | t => String c t
      end
  end.

(** The command word and its arguments; [None] is a blank line. *)
Definition split_command (str : string) : option (string * option string) :=
  match trim_end (skip_delim is_blank str) with
  | EmptyString => None
  | s =>
      match strtok is_space_char s with
      | None => None
      | Some (cmd, EmptyString) => Some (cmd, None)
      | Some (cmd, rest) => Some (cmd, Some rest)
      end
  end.

(** [sdl_clear_event_queue] drops host events before a command. *)
Definition sdb_exec_one (str : string) : Mn Z :=
  match split_command str with
  | None => mret 0
  | Some (cmd, args) =>
      match find (fun e => String.eqb cmd e.1) cmd_table with
      | Some e => e.2 args
      | None => printf "Unknown command" [AS cmd] ;; mret 0
      end
  end.

(** Commands in order until one returns a negative number. *)
Fixpoint exec_all (cmds : list string) : Mn Z :=
  match cmds with
  | [] => mret 0
  | c :: cmds' => r ← sdb_exec_one c; if r <? 0 then mret (-1) else exec_all cmds'
  end.

Definition is_separator (c : ascii) : bool := Ascii.eqb c ";" || (ord c =? 10).
Definition sdb_exec_script (text : string) : Mn Z := exec_all (tokens is_separator text).

Definition sdb_mainloop (script_text script_file : option string) (is_batch_mode : bool)
  (lines : list string) : Mn unit :=
  match script_text, script_file with
  | Some text, _ => sdb_exec_script text ;; mret tt
  | None, Some text => sdb_exec_script text ;; mret tt
  | None, None =>
      if is_batch_mode then cmd_c None ;; mret tt
      else exec_all lines ;; mret tt
  end.
End Sdb.

(** ** The breakpoint table is a bounded set *)

Definition bp_ok (l : list Z) : Prop := NoDup l /\ Z.of_nat (length l) <= NR_BREAKPOINTS.

Lemma index_of_some addr l i :
  index_of addr l = Some i -> l !! i = Some addr /\ (forall j, (j < i)%nat -> l !! j <> Some addr).
Proof.
  revert i; induction l as [|b l IH]; intros i; [done|]. cbn. destruct (Z.eqb_spec b addr) as [->|Hb].
  - intros [= <-]. split; [done|lia].
  - destruct (index_of addr l) as [k|]; [|done]. intros [= <-]. destruct (IH k eq_refl) as [H1 H2].
    split; [done|]. intros [|j] Hj; [by intros [= ->]|]. apply H2. lia.
Qed.

Lemma index_of_none addr l : index_of addr l = None <-> addr ∉ l.
Proof.
  induction l as [|b l IH]; cbn; [set_solver|]. destruct (Z.eqb_spec b addr) as [->|Hb].
  - split; [done|]. set_solver.
  - rewrite not_elem_of_cons, <- IH. destruct (index_of addr l); cbn; split; naive_solver.
Qed.

(** Removing by swapping with the last entry removes exactly that entry. *)
Lemma remove_bp_perm i l addr : l !! i = Some addr -> addr :: remove_bp i l ≡ₚ l.
Proof.
  intros Hi. unfold remove_bp.
  destruct (exists_last (l := l)) as (l' & x & ->); [by intros ->|].
  rewrite List.last_last, length_app. cbn [length].
  replace (length l' + 1 - 1)%nat with (length l') by lia.
  destruct (decide (i < length l')%nat) as [Hlt|Hge].
  - rewrite insert_app_l, take_app_length' by (rewrite ?length_insert; lia).
    rewrite lookup_app_l in Hi by lia.
    rewrite <- (list_insert_id l' i addr Hi) at 2.
    rewrite (insert_take_drop l' i x), (insert_take_drop l' i addr) by lia. solve_Permutation.
  - assert (i = length l') as ->.
    { apply lookup_lt_Some in Hi. rewrite length_app in Hi. cbn in Hi. lia. }
    rewrite lookup_app_r, Nat.sub_diag in Hi by lia. injection Hi as ->.
    rewrite insert_app_r_alt, Nat.sub_diag, take_app_length' by lia. solve_Permutation.
Qed.
