(* ===== verification/Monitor.v ===== *)
(** * Start-up and exit (monitor.c, engine/interpreter/init.c, nemu-main.c)

    The options are what [getopt_long] returns: option characters with their
    arguments.  [main_] is the program from start to exit status. *)
From S2P Require Import Prelude Outcome Bytes Config CommitEvent CommitRing Machine PhysMem Devices IoMap.
From S2P Require Import Vaddr Pattern Isa CStr Difftest CpuExec Sdb.
From Stdlib Require Import Ascii.
#[local] Open Scope string_scope.
#[local] Open Scope Z_scope.

(** The static variables of monitor.c and sdb.c that options set. *)
Record options := {
  diff_so_file : option string; img_file : option string; difftest_port : Z;
  is_batch_mode : bool; script_text : option string; script_file : option string;
  max_insts : Z;
}.
Definition options0 : options :=
  {| diff_so_file := None; img_file := None; difftest_port := 1234; is_batch_mode := false;
     script_text := None; script_file := None; max_insts := 0 |}.

(** One value of [getopt_long]; [opt_arg] is the non-option argument, code 1. *)
Inductive opt :=
| opt_b | opt_m (a : string) | opt_p (a : string) | opt_d (a : string)
| opt_e (a : string) | opt_f (a : string) | opt_arg (a : string) | opt_other.

(** [sscanf(a, "%d", &port)]: unchanged when no digit follows. *)
Definition scan_port (a : string) (port : Z) : Z :=
  let (neg, s) := sign (skip_space a) in
  match s with
  | String c _ =>
      match digit_in 10 c with
      | Some _ => let v := digits 10 s 0 in s32 (if neg then - v else v)
      | None => port
      end
  | EmptyString => port
  end.

(** The C string in a buffer. *)
Fixpoint text_of (buf : list Z) : string :=
  match buf with
  | [] => EmptyString
  | c :: buf' => if c =? 0 then EmptyString else String (ascii_of_nat (Z.to_nat (u8 c))) (text_of buf')
  end.

(** [exit(0)] after the usage message is [None]. *)
Fixpoint parse_args (os : list opt) (o : options) : option options :=
  match os with
  | [] => Some o
  | opt_b :: os' => parse_args os' {o with is_batch_mode := true}
  | opt_m a :: os' => parse_args os' {o with max_insts := strtoull a}
  | opt_p a :: os' => parse_args os' {o with difftest_port := scan_port a (difftest_port o)}
  | opt_d a :: os' => parse_args os' {o with diff_so_file := Some a}
  | opt_e a :: os' => parse_args os' {o with script_text := Some a}
  | opt_f a :: os' => parse_args os' {o with script_file := Some a}
  | opt_arg a :: _ => Some {o with img_file := Some a}
  | opt_other :: _ => None
  end.

Section Monitor.
Context `{Hcfg : Config} `{!Isa}.
Abbreviation CPU := (CPU_state _).
Abbreviation Mn := (M CPU).
Variable ref_regs : list (ref_cmd CPU) -> CPU.
Variable host : Z -> Z * list SDL_Event.
Variable garbage : Decode.t DecodeInfo.
(** The host's files; SDL's key codes; [rand()] under CONFIG_MEM_RANDOM. *)
Variable files : string -> option (list Z).
Variable SDL_SCANCODE : string -> Z.
Variable rand_byte : option Z.
Variable sd_img : option file.

Definition load_img (img : option string) : Mn Z :=
  match img with
  | None => mret 4096
  | Some f =>
      match files f with
      | None => abort "Can not open image"
      | Some buf =>
          assert_that (0 <? Z.of_nat (length buf)) "ret == 1" ;;
          paddr_memcpy_to_guest RESET_VECTOR buf true ;;
          mret (Z.of_nat (length buf))
      end
  end.

Definition init_monitor (os : list opt) : Mn options :=
  match parse_args os options0 with
  | None => abort "exit(0)"
  | Some o =>
      modify (fun s => {s with nemu_inst_limit := max_insts o}) ;;
      init_mem rand_byte ;;
      when CONFIG_DEVICE (init_device SDL_SCANCODE sd_img) ;;
      init_isa ;;
      img_size ← load_img (img_file o);
      assert_that (negb CONFIG_DIFFTEST || bool_decide (is_Some (diff_so_file o))) "ref_so_file != NULL" ;;
      init_difftest img_size (difftest_port o) ;;
      printf "Welcome to NEMU!" [] ;;
      printf "For help, type help" [] ;;
      mret o
  end.

Definition engine_start (o : options) (lines : list string) : Mn unit :=
  text ← match script_file o with
         | None => mret None
         | Some f =>
             if bool_decide (is_Some (script_text o)) then mret None else
             match files f with
             | None => abort "Can not open script file"
             | Some buf => mret (Some (text_of buf))
             end
         end;
  sdb_mainloop ref_regs host garbage (script_text o) text (is_batch_mode o) lines.

(** The exit status of the process. *)
Definition main_ (os : list opt) (lines : list string) : Mn bool :=
  o ← init_monitor os;
  engine_start o lines ;;
  gets is_exit_status_bad.
End Monitor.
