(* ===== verification/CpuTrace.v ===== *)
(** * Properties of the execution loop

    [ran m m' evs] says what a run from [m] to [m'] that retired the events
    [evs] did to the counters, the event ring and the pc; it composes, and
    every part of the loop satisfies it.  It is proved against the interface
    [Isa] and the laws [IsaLaws] that a guest promises. *)
From S2P Require Import Prelude Outcome Bytes Config CommitEvent CommitRing Machine PhysMem Devices IoMap.
From S2P Require Import Vaddr Pattern Isa Difftest CpuExec.

(** What the loop owns: the instruction interpreter leaves it alone. *)
Definition run_frame {CPU} (s : nemu CPU) : Z * Z * commit_ring_state * list Z :=
  (nemu_inst_limit s, g_nr_guest_inst s, ring s, breakpoints s).
Definition run_cpu_frame {CPU} (s : nemu CPU) : Z * Z * commit_ring_state * list Z * CPU := (run_frame s, cpu s).

Lemma run_frame_framed {CPU A} (m : M CPU A) :
  respects (keeps frame_of) m -> respects (keeps run_cpu_frame) m.
Proof.
  intros Hm s a s' Hr%Hm. unfold keeps, frame_of, run_cpu_frame, run_frame in *. injection Hr. congruence.
Qed.
Lemma run_frame_cpu {CPU A} (m : M CPU A) :
  respects (keeps run_cpu_frame) m -> respects (keeps run_frame) m.
Proof. intros Hm s a s' Hr%Hm. unfold keeps, run_cpu_frame in *. congruence. Qed.

(** An instruction may end the run, nothing else. *)
Definition ends {CPU} : relation (nemu CPU) := fun s s' =>
  state (nemu_state s') = state (nemu_state s) \/
  state (nemu_state s') = NEMU_END \/ state (nemu_state s') = NEMU_ABORT.

#[export] Instance ends_preorder {CPU} : PreOrder (ends (CPU := CPU)).
Proof.
  split; unfold ends; [by left|]. intros s1 s2 s3 [E1|[E1|E1]] [E2|[E2|E2]]; rewrite ?E1 in E2; auto.
Qed.

Lemma quiet_ends {CPU A} (m : M CPU A) : respects (keeps dev_frame) m -> respects ends m.
Proof.
  intros Hm s a s' Hr%Hm. unfold keeps, dev_frame in Hr. left. congruence.
Qed.
Lemma quiet_run_frame {CPU A} (m : M CPU A) : respects (keeps dev_frame) m -> respects (keeps run_frame) m.
Proof. intros. by apply run_frame_cpu, run_frame_framed, dev_frame_frame. Qed.

Lemma run_frame_set_state {CPU : Type} `{Config} st pc r :
  respects (keeps run_frame) (set_nemu_state (CPU := CPU) st pc r).
Proof. apply run_frame_cpu, run_frame_framed, framed_set_state. Qed.

Lemma ends_set_state {CPU : Type} `{Config} st pc r :
  st = NEMU_END \/ st = NEMU_ABORT -> respects ends (set_nemu_state (CPU := CPU) st pc r).
Proof. intros Hst s a s' Hr. right. unfold set_nemu_state in Hr. run_inv. cbn. exact Hst. Qed.

Class IsaLaws `{Hcfg : Config} (I : Isa) : Prop := {
  exec_frame d : respects (keeps run_frame) (isa_exec_once d);
  exec_ends d : respects ends (isa_exec_once d);
  checkregs_ends r p : respects ends (isa_difftest_checkregs r p);
  exec_pc d s d' s' : isa_exec_once d s = Ok (d', s') -> Decode.pc d' = Decode.pc d;
  checkregs_frame r p : respects (keeps run_cpu_frame) (isa_difftest_checkregs r p);
  pc_set v c : cpu_pc (set_cpu_pc v c) = v;
}.

(** ** Traces *)

(** Consecutive events: each starts where the previous one went. *)
Fixpoint chain (pc : Z) (evs : list CommitEvent) (pc' : Z) : Prop :=
  match evs with
  | [] => pc = pc'
  | ev :: evs' => ev_pc ev = pc /\ chain (next_pc ev) evs' pc'
  end.

Lemma chain_app pc evs1 pc1 evs2 pc2 :
  chain pc evs1 pc1 -> chain pc1 evs2 pc2 -> chain pc (evs1 ++ evs2) pc2.
Proof.
  revert pc; induction evs1 as [|ev evs1 IH]; intros pc; cbn; [by intros ->|].
  intros [<- H1] H2. eauto.
Qed.

(** Events numbered by the instruction counter, from [n + 1]. *)
Fixpoint numbered (n : Z) (evs : list CommitEvent) : Prop :=
  match evs with
  | [] => True
  | ev :: evs' => retire ev = u64 (n + 1) /\ numbered (n + 1) evs'
  end.

Lemma numbered_wrap n evs : numbered (u64 n) evs <-> numbered n evs.
Proof.
  assert (forall evs a b, u64 a = u64 b -> numbered a evs -> numbered b evs) as Hn.
  { clear. induction evs as [|ev evs IH]; intros a b E; cbn; [done|].
    assert (u64 (a + 1) = u64 (b + 1)) as E' by (by rewrite <- wrap_add_l, E, wrap_add_l).
    rewrite E'. intros [-> H]. split; [done|]. by apply (IH (a + 1)). }
  split; apply Hn; by rewrite wrap_wrap.
Qed.

Lemma numbered_app n evs1 evs2 :
  numbered n evs1 -> numbered (n + Z.of_nat (length evs1)) evs2 -> numbered n (evs1 ++ evs2).
Proof.
  revert n; induction evs1 as [|ev evs1 IH]; intros n; cbn [app length numbered].
  - intros _. by rewrite Z.add_0_r.
  - intros [-> H1] H2. split; [done|]. apply IH; [done|].
    rewrite Nat2Z.inj_succ in H2. by replace (n + 1 + Z.of_nat (length evs1)) with (n + Z.succ (Z.of_nat (length evs1))) by lia.
Qed.

Section Ran.
Context `{Hcfg : Config} `{I : !Isa} `{!IsaLaws I}.
Abbreviation CPU := (CPU_state _).
Implicit Types m : nemu CPU.

Record ran m m' (evs : list CommitEvent) : Prop := {
  ran_ring : ring m' = foldl (fun r ev => commit_event_record ev r) (ring m) evs;
  ran_count : u64 (g_nr_guest_inst m') = u64 (g_nr_guest_inst m + Z.of_nat (length evs));
  ran_chain : chain (cpu_pc (cpu m)) evs (cpu_pc (cpu m'));
  ran_numbered : numbered (g_nr_guest_inst m) evs;
  ran_limit : nemu_inst_limit m' = nemu_inst_limit m;
  ran_breaks : breakpoints m' = breakpoints m;
  ran_bound : in_u 64 (g_nr_guest_inst m) -> nemu_inst_limit m <> 0 -> nemu_inst_limit m < 2 ^ 64 ->
    g_nr_guest_inst m <= nemu_inst_limit m ->
    g_nr_guest_inst m + Z.of_nat (length evs) <= nemu_inst_limit m;
  ran_wf : in_u 64 (g_nr_guest_inst m) -> in_u 64 (g_nr_guest_inst m');
}.

Lemma ran_refl m m' : run_frame m' = run_frame m -> cpu_pc (cpu m') = cpu_pc (cpu m) -> ran m m' [].
Proof using Type.
  unfold run_frame. intros [= El Ec Er Eb] Ep. split; cbn; try congruence; try lia.
  by rewrite Ec, Z.add_0_r.
Qed.

Lemma ran_trans m1 m2 m3 evs1 evs2 : ran m1 m2 evs1 -> ran m2 m3 evs2 -> ran m1 m3 (evs1 ++ evs2).
Proof using Type.
  intros H1 H2. split.
  - by rewrite (ran_ring _ _ _ H2), (ran_ring _ _ _ H1), foldl_app.
  - rewrite (ran_count _ _ _ H2), <- wrap_add_l, (ran_count _ _ _ H1), wrap_add_l, length_app. f_equal. lia.
  - eapply chain_app; [apply H1|apply H2].
  - apply numbered_app; [apply H1|]. apply numbered_wrap. rewrite <- (ran_count _ _ _ H1).
    apply numbered_wrap, H2.
  - rewrite (ran_limit _ _ _ H2). apply H1.
  - rewrite (ran_breaks _ _ _ H2). apply H1.
  - intros Hu Hl Hl64 Hb. pose proof (ran_bound _ _ _ H1 Hu Hl Hl64 Hb) as B1.
    pose proof (ran_wf _ _ _ H1 Hu) as W2. pose proof (ran_count _ _ _ H1) as C.
    rewrite !wrap_small in C by (unfold in_u in *; lia).
    pose proof (ran_bound _ _ _ H2 W2) as B2. rewrite (ran_limit _ _ _ H1), C in B2.
    rewrite length_app. lia.
  - intros Hu. by apply H2, H1.
Qed.

(** Computations that touch neither the CPU nor what the loop owns. *)
Lemma ran_nothing {A} (c : M CPU A) s a s' :
  respects (keeps run_cpu_frame) c -> c s = Ok (a, s') -> ran s s' [].
Proof using Type.
  intros Hr Hrun. apply Hr in Hrun. unfold keeps, run_cpu_frame in Hrun. injection Hrun as Hc Hf.
  apply ran_refl; [|congruence]. unfold run_frame. congruence.
Qed.
End Ran.

(** ** The parts of the loop *)

Section LoopFacts.
Context `{Hcfg : Config} `{I : !Isa} `{L : !IsaLaws I}.
Abbreviation CPU := (CPU_state _).
Abbreviation framed m := (respects (keeps (run_cpu_frame (CPU := CPU))) m).
Variable ref_regs : list (ref_cmd CPU) -> CPU.
Variable host : Z -> Z * list SDL_Event.
Implicit Types m : nemu CPU.
Implicit Types d : Decode.t DecodeInfo.

Ltac framed_modify := apply respects_modify; intros ?; reflexivity.

Lemma framed_state f : framed (modify (fun m => {m with nemu_state ::= f})).
Proof using Type. framed_modify. Qed.
Lemma framed_line fmt a : framed (printf fmt a).
Proof using Type. framed_modify. Qed.
Lemma framed_set_dut b n : framed (set_dut b n).
Proof using Type. framed_modify. Qed.
Lemma framed_send c : framed (send_ref c).
Proof using Type. framed_modify. Qed.
Hint Resolve framed_state framed_line framed_set_dut framed_send : respects.

Lemma framed_checkregs r p : framed (checkregs r p).
Proof using L. unfold checkregs. apply respects_bind; [apply _|apply checkregs_frame|]. intros. respects_tac; reflexivity. Qed.
Hint Resolve framed_checkregs : respects.

Lemma framed_difftest pc npc : framed (difftest_step ref_regs pc npc).
Proof using L. unfold difftest_step, read_ref. respects_tac; reflexivity. Qed.
Hint Resolve framed_difftest : respects.

Lemma framed_key k b : framed (send_key k b).
Proof using Type. apply run_frame_framed. unfold send_key, key_enqueue, modify_keys. respects_tac; reflexivity. Qed.
Hint Resolve framed_key : respects.

Lemma framed_io f : framed (modify_io f).
Proof using Type. framed_modify. Qed.
Hint Resolve framed_io : respects.

Lemma framed_event e : framed (handle_event e).
Proof using Type. destruct e; cbn [handle_event]; respects_tac; reflexivity. Qed.
Hint Resolve framed_event : respects.

Lemma framed_device_update now evs : framed (device_update now evs).
Proof using Type. unfold device_update. respects_tac; reflexivity. Qed.
Hint Resolve framed_device_update : respects.

Lemma framed_dump n : framed (dump_last n).
Proof using Type. unfold dump_last. respects_tac; reflexivity. Qed.
Lemma framed_report : framed (report_result).
Proof using Type. unfold report_result, get. apply (respects_bind _ (gets id)); [apply respects_gets, _|intros]. apply framed_line. Qed.
Hint Resolve framed_dump framed_report : respects.

Ltac ends_modify := apply respects_modify; intros ?; left; reflexivity.

Lemma ends_abort_at pc :
  respects ends (modify (fun m : nemu CPU => {m with nemu_state ::= (fun n => {n with state := NEMU_ABORT; halt_pc := pc})})).
Proof using Type. apply respects_modify. intros s. right. right. reflexivity. Qed.
Lemma ends_set_dut b n : respects ends (set_dut b n).
Proof using Type. ends_modify. Qed.
Lemma ends_send c : respects ends (send_ref c).
Proof using Type. ends_modify. Qed.
Hint Resolve ends_abort_at ends_set_dut ends_send : respects.

Lemma ends_checkregs r p : respects ends (checkregs r p).
Proof using L.
  unfold checkregs. apply respects_bind; [apply _|apply checkregs_ends|]. intros.
  apply respects_when; [apply _|]. apply ends_abort_at.
Qed.
Hint Resolve ends_checkregs : respects.

Lemma ends_difftest pc npc : respects ends (difftest_step ref_regs pc npc).
Proof using L. unfold difftest_step, read_ref. respects_tac. Qed.

(** Host events may ask to quit, nothing else. *)
Definition quits : relation (nemu CPU) := fun m m' =>
  state (nemu_state m') = state (nemu_state m) \/ state (nemu_state m') = NEMU_QUIT.
#[local] Instance quits_preorder : PreOrder quits.
Proof using Type.
  split; unfold quits; [by left|]. intros s1 s2 s3 [E1|E1] [E2|E2]; rewrite ?E1 in E2; auto.
Qed.

Lemma quits_key k b : respects quits (send_key k b).
Proof using Type. unfold send_key, key_enqueue, modify_keys, modify_io. respects_tac; left; reflexivity. Qed.

Lemma quits_device_update now evs : respects quits (device_update now evs).
Proof using Type.
  unfold device_update, modify_io. respects_tac; try (left; reflexivity).
  match goal with |- respects _ (handle_event ?e) => destruct e end;
    cbn [handle_event]; respects_tac; try apply quits_key.
  right. reflexivity.
Qed.

Lemma exec_once_run d pc m d' m' :
  exec_once d pc m = Ok (d', m') ->
  run_frame m' = run_frame m /\ Decode.pc d' = pc /\ cpu_pc (cpu m') = Decode.dnpc d' /\ ends m m'.
Proof using L.
  unfold exec_once. intros Hr. run_inv. rewrite cpu_with_cpu, pc_set.
  match goal with H : isa_exec_once _ _ = _ |- _ =>
    pose proof (exec_frame _ _ _ _ H) as E1; pose proof (exec_pc _ _ _ _ H) as E2;
    pose proof (exec_ends _ _ _ _ H) as E3 end.
  split; [exact E1|]. split; [exact E2|]. split; [done|exact E3].
Qed.

Lemma event_fields d dnpc m :
  let ev := make_commit_event d dnpc m in
  retire ev = g_nr_guest_inst m /\ ev_pc ev = Decode.pc d /\ next_pc ev = dnpc
  /\ ev_inst ev = info_inst (Decode.isa d).
Proof using Type. unfold make_commit_event. cbv zeta. repeat case_match; done. Qed.

(** What one iteration of the loop did, and why it stopped. *)
Definition iter_post m (b : bool) m' (evs : list CommitEvent) : Prop :=
  ran m m' evs /\
  if b then length evs = 1%nat /\ (state (nemu_state m') = NEMU_RUNNING \/ state (nemu_state m') = NEMU_QUIT)
  else
    (evs = [] /\ state (nemu_state m') = NEMU_LIMIT /\ nemu_inst_limit m <> 0 /\
       nemu_inst_limit m <= g_nr_guest_inst m')
    \/ (length evs = 1%nat /\ state (nemu_state m') <> NEMU_RUNNING /\
        (ends m m' \/ (state (nemu_state m') = NEMU_STOP /\ cpu_pc (cpu m') ∈ breakpoints m))).

Lemma limit_iter d m :
  nemu_inst_limit m <> 0 -> nemu_inst_limit m <= g_nr_guest_inst m ->
  execute_iter ref_regs host d m =
  Ok (false, d, {m with nemu_state := {| state := NEMU_LIMIT; halt_pc := cpu_pc (cpu m); halt_ret := 1 |}}).
Proof using Type.
  intros Hl Hc. unfold execute_iter, get, mbind, st_bind.
  rewrite (proj2 (Z.eqb_neq _ _) Hl), (proj2 (Z.leb_le _ _) Hc). done.
Qed.

Lemma record_ran d m m1 pc :
  run_frame m1 = run_frame m -> Decode.pc d = cpu_pc (cpu m) -> pc = cpu_pc (cpu m1) ->
  (nemu_inst_limit m <> 0 -> g_nr_guest_inst m < nemu_inst_limit m) ->
  let m2 := {m1 with g_nr_guest_inst := u64 (g_nr_guest_inst m1 + 1)} in
  let ev := make_commit_event d pc m2 in
  ran m {m2 with ring ::= commit_event_record ev} [ev].
Proof using Type.
  intros Hf Hp -> Hl. cbv zeta. unfold run_frame in Hf. injection Hf as El Ec Er Eb.
  match goal with |- ran _ ?x _ => set (m3 := x) end.
  destruct (event_fields d (cpu_pc (cpu m1)) {m1 with g_nr_guest_inst := u64 (g_nr_guest_inst m1 + 1)})
    as (F1 & F2 & F3 & _).
  change (g_nr_guest_inst {m1 with g_nr_guest_inst := u64 (g_nr_guest_inst m1 + 1)})
    with (u64 (g_nr_guest_inst m1 + 1)) in F1.
  assert (g_nr_guest_inst m3 = u64 (g_nr_guest_inst m + 1)) as E3 by (by rewrite <- Ec).
  split.
  - change (ring m3) with (commit_event_record (make_commit_event d (cpu_pc (cpu m1)) {m1 with g_nr_guest_inst := u64 (g_nr_guest_inst m1 + 1)}) (ring m1)).
    cbn [foldl]. by rewrite Er.
  - rewrite E3, wrap_wrap. done.
  - cbn [chain]. rewrite F2, F3. split; [exact Hp|done].
  - cbn [numbered]. rewrite F1, Ec. done.
  - exact El.
  - exact Eb.
  - intros _ Hn _ _. specialize (Hl Hn). cbn [length]. lia.
  - intros _. rewrite E3. by apply wrap_range.
Qed.

Lemma hit_run pc b m m' : sdb_breakpoint_hit pc m = Ok (b, m') -> m' = m /\ (b = true -> pc ∈ breakpoints m).
Proof using Type.
  unfold sdb_breakpoint_hit. destruct CONFIG_TARGET_SHARE; intros Hr; run_inv; [done|]. split; [done|].
  case_match; [done|]. intros (x & Hx & E)%existsb_exists. apply Z.eqb_eq in E. subst x. by apply list_elem_of_In.
Qed.

Lemma execute_iter_post d m b d' m' :
  execute_iter ref_regs host d m = Ok (b, d', m') -> exists evs, iter_post m b m' evs.
Proof using L.
  destruct (decide (nemu_inst_limit m <> 0 /\ nemu_inst_limit m <= g_nr_guest_inst m)) as [[Hl Hc]|Hno].
  { rewrite limit_iter by done. intros [= <- <- <-]. exists []. split; [by apply ran_refl|]. left. done. }
  assert (nemu_inst_limit m <> 0 -> g_nr_guest_inst m < nemu_inst_limit m) as Hlt by lia.
  unfold execute_iter. unfold mbind at 1, st_bind at 1. unfold get at 1.
  assert (negb (nemu_inst_limit m =? 0) && (nemu_inst_limit m <=? g_nr_guest_inst m) = false) as ->.
  { apply not_true_is_false. rewrite andb_true_iff, negb_true_iff, Z.eqb_neq, Z.leb_le. done. }
  intros Hr. apply bind_ok in Hr as (d1 & m1 & Hex & Hr).
  destruct (exec_once_run _ _ _ _ _ Hex) as (Ef & Ep & Epc & Een).
  apply bind_ok in Hr as (? & m2 & Hm2 & Hr). apply modify_ok in Hm2.
  apply bind_ok in Hr as (? & ? & Hget & Hr). unfold get in Hget. injection Hget as <- <-.
  apply bind_ok in Hr as (? & m3 & Hm3 & Hr). apply modify_ok in Hm3.
  assert (cpu m2 = cpu m1) as Ecpu2 by (by subst m2).
  pose proof (record_ran d1 m m1 (cpu_pc (cpu m2)) Ef Ep (f_equal cpu_pc Ecpu2) Hlt) as Hran.
  cbv zeta in Hran. rewrite <- Hm2, <- Hm3 in Hran.
  match type of Hran with ran _ _ [?e] => exists [e] end.
  apply bind_ok in Hr as (? & m4 & Hdt & Hr).
  assert (ran m3 m4 [] /\ ends m3 m4) as [R4 E4].
  { unfold difftest_after_commit in Hdt. destruct CONFIG_DIFFTEST; [|injection Hdt as <- <-; split; [by apply ran_refl|by left]].
    unfold when in Hdt. split; [eapply ran_nothing; [|exact Hdt]; apply framed_difftest|].
    by eapply ends_difftest. }
  assert (ends m m4) as E14.
  { etransitivity; [exact Een|]. etransitivity; [|exact E4]. subst m3 m2. by left. }
  apply bind_ok in Hr as (? & ? & Hget & Hr). unfold get in Hget. injection Hget as <- <-.
  pose proof (ran_trans _ _ _ _ _ Hran R4) as R04.
  destruct (decide (state (nemu_state m4) <> NEMU_RUNNING)) as [Hst|Hst].
  { run_inv. simplify_eq. split; [exact R04|]. right. auto. }
  apply bind_ok in Hr as (hit & m5 & Hhit & Hr). apply hit_run in Hhit as [-> Hbp].
  assert (breakpoints m4 = breakpoints m) as Ebp by apply R04.
  destruct hit.
  - apply bind_ok in Hr as (? & m6 & Hm6 & Hr). apply modify_ok in Hm6.
    apply bind_ok in Hr as (? & m7 & Hm7 & Hr). apply modify_ok in Hm7. run_inv. simplify_eq.
    split; [|right; split; [done|]; split; [done|]; right; split; [done|]].
    + eapply (ran_trans _ _ _ _ [] R04), ran_refl; done.
    + rewrite <- Ebp. by apply Hbp.
  - apply bind_ok in Hr as (? & m6 & Hm6 & Hr). run_inv. simplify_eq.
    assert (ran m4 m6 [] /\ quits m4 m6) as [R6 Q6].
    { destruct CONFIG_DEVICE; unfold when in Hm6; [|run_inv; split; [by apply ran_refl|by left]].
      destruct (host _) as [now evs].
      split; [eapply ran_nothing; [|exact Hm6]; apply framed_device_update|].
      by eapply quits_device_update. }
    split; [exact (ran_trans _ _ _ _ _ R04 R6)|]. split; [done|].
    destruct (decide (state (nemu_state m4) = NEMU_RUNNING)) as [Hrun|]; [|tauto].
    destruct Q6 as [E|E]; [left; congruence|by right].
Qed.

Definition going m : Prop := state (nemu_state m) = NEMU_RUNNING \/ state (nemu_state m) = NEMU_QUIT.

(** What the loop did: a trace of at most [n] instructions; all of them if it
    was not left early, and the reason otherwise. *)
Definition loop_post (n : nat) m (b : bool) m' (evs : list CommitEvent) : Prop :=
  ran m m' evs /\ (length evs <= n)%nat /\
  if b then length evs = n /\ going m'
  else state (nemu_state m') <> NEMU_RUNNING
    /\ (state (nemu_state m') = NEMU_LIMIT -> nemu_inst_limit m <> 0 /\ nemu_inst_limit m <= g_nr_guest_inst m')
    /\ (state (nemu_state m') = NEMU_STOP -> cpu_pc (cpu m') ∈ breakpoints m).

Lemma iter_loop m b m' evs : going m -> iter_post m b m' evs -> loop_post 1 m b m' evs.
Proof using Type.
  intros Hg [Hr Hb]. split; [exact Hr|]. destruct b.
  - destruct Hb as [Hl Hs]. split; [lia|]. done.
  - destruct Hb as [(-> & Hs & Hl & Hc)|(Hl & Hs & Hw)].
    + split; [cbn; lia|]. rewrite Hs. done.
    + split; [lia|]. split; [done|]. unfold going, ends in *.
      split; intros Hs'; rewrite Hs' in *; destruct Hw as [[Hw|[Hw|Hw]]|[? Hw]];
        try done; destruct Hg as [Hg|Hg]; congruence.
Qed.

Lemma repeat_post n d m b d' m' :
  going m -> repeat_nat (execute_iter ref_regs host) n d m = Ok (b, d', m') ->
  exists evs, loop_post n m b m' evs.
Proof using L.
  revert d m; induction n as [|n IH]; intros d m Hg Hr; cbn [repeat_nat] in Hr.
  - run_inv. simplify_eq. exists []. split; [by apply ran_refl|]. done.
  - apply bind_ok in Hr as ([b1 d1] & m1 & Hit & Hr). cbn [fst snd] in Hr.
    apply execute_iter_post in Hit as [evs1 Hit]. apply iter_loop in Hit; [|done].
    destruct Hit as (R1 & L1 & P1). destruct b1.
    + destruct P1 as [E1 G1]. apply IH in Hr as (evs2 & R2 & L2 & P2); [|done].
      exists (evs1 ++ evs2). split; [by eapply ran_trans|]. rewrite length_app. split; [lia|].
      destruct b; [split; [lia|apply P2]|].
      by rewrite (ran_limit _ _ _ R1), (ran_breaks _ _ _ R1) in P2.
    + run_inv. simplify_eq. exists evs1. split; [exact R1|]. split; [lia|]. exact P1.
Qed.

Lemma execute_post d n m m' :
  going m -> 0 <= n -> execute ref_regs host d n m = Ok (tt, m') ->
  exists b evs, loop_post (Z.to_nat n) m b m' evs.
Proof using L.
  intros Hg Hn Hr. unfold execute in Hr. destruct n as [|p|p]; [|apply bind_ok in Hr as ([b d'] & m1 & Hp & Hr)|lia].
  - run_inv. exists true, []. split; [by apply ran_refl|]. done.
  - run_inv. rewrite repeat_while_nat in Hp. apply repeat_post in Hp as [evs Hp]; [|done].
    exists b, evs. by rewrite Z2Nat.inj_pos.
Qed.

(** ** [cpu_exec] *)

Definition finished m : Prop :=
  state (nemu_state m) = NEMU_END \/ state (nemu_state m) = NEMU_ABORT \/ state (nemu_state m) = NEMU_QUIT.
#[export] Instance finished_dec m : Decision (finished m).
Proof using Type. unfold finished. apply _. Defined.

(** Reporting changes only the output. *)
Lemma quiet_dump n : respects (keeps (fun m : nemu CPU => (run_cpu_frame m, nemu_state m))) (dump_last n).
Proof using Type.
  unfold dump_last. respects_tac; apply respects_modify; intros ?; reflexivity.
Qed.
Lemma quiet_report : respects (keeps (fun m : nemu CPU => (run_cpu_frame m, nemu_state m))) report_result.
Proof using Type.
  unfold report_result, get. apply (respects_bind _ (gets id)); [apply respects_gets, _|intros].
  apply respects_modify; intros ?; reflexivity.
Qed.

Lemma ran_report {A} (c : M CPU A) m a m' evs n :
  respects (keeps (fun m : nemu CPU => (run_cpu_frame m, nemu_state m))) c -> c m = Ok (a, m') ->
  ran n m evs -> ran n m' evs /\ nemu_state m' = nemu_state m /\ cpu m' = cpu m
  /\ g_nr_guest_inst m' = g_nr_guest_inst m.
Proof using Type.
  intros Hr Hc Hn. pose proof (Hr _ _ _ Hc) as E. unfold keeps in E.
  pose proof (f_equal snd E) as E3. apply (f_equal fst) in E. cbn [fst snd] in E, E3.
  pose proof (f_equal snd E) as E2. pose proof (f_equal fst E) as E1. cbn [fst snd run_cpu_frame] in E1, E2.
  split_and!; [|done|done|].
  - rewrite <- (app_nil_r evs). eapply ran_trans; [exact Hn|]. apply ran_refl; [done|by rewrite E2].
  - by injection E1.
Qed.

Lemma set_state_run st m : set_state st m = Ok (tt, {m with nemu_state ::= (fun n => {n with state := st})}).
Proof using Type. done. Qed.

Lemma cpu_exec_finished d n m m' :
  finished m -> cpu_exec ref_regs host d n m = Ok (tt, m') ->
  m' = {m with out ::= (fun o => o ++ [("Program execution has ended. To restart the program, exit NEMU and run again.", [])])}.
Proof using Type.
  intros Hf. unfold cpu_exec. unfold mbind at 1, st_bind at 1. unfold get at 1.
  destruct Hf as [-> | [-> | ->]]; intros Hr; unfold printf in Hr; by apply modify_ok in Hr.
Qed.

(** A call of [cpu_exec] that runs: a trace of at most [n] instructions, and a
    final state that says why it ended. *)
Definition exec_post n m m' (evs : list CommitEvent) : Prop :=
  ran m m' evs /\ Z.of_nat (length evs) <= n /\
  state (nemu_state m') <> NEMU_RUNNING /\
  (state (nemu_state m') = NEMU_LIMIT -> nemu_inst_limit m <> 0 /\ nemu_inst_limit m <= g_nr_guest_inst m') /\
  (state (nemu_state m') = NEMU_STOP -> Z.of_nat (length evs) = n \/ cpu_pc (cpu m') ∈ breakpoints m).

Lemma cpu_exec_runs d n m m' :
  ~ finished m -> cpu_exec ref_regs host d n m = Ok (tt, m') -> exists evs, exec_post (u64 n) m m' evs.
Proof using L.
  intros Hf Hr. pose proof (wrap_range 64 n ltac:(lia)) as Hn. set (k := u64 n) in *.
  set (m0 := {m with nemu_state ::= (fun n => {n with state := NEMU_RUNNING})}).
  assert (R0 : ran m m0 []) by (by apply ran_refl).
  assert (exists m1, execute ref_regs host d k m0 = Ok (tt, m1) /\
    match state (nemu_state m1) with
    | NEMU_RUNNING => set_state NEMU_STOP
    | NEMU_END | NEMU_ABORT =>
        when (bool_decide (state (nemu_state m1) = NEMU_ABORT) || negb (halt_ret (nemu_state m1) =? 0))
          (dump_last 0) ;;
        report_result
    | NEMU_LIMIT => dump_last 0 ;; report_result
    | NEMU_QUIT | NEMU_STOP => report_result
    end m1 = Ok (tt, m')) as (m1 & Hex & Hend).
  { unfold cpu_exec in Hr. unfold mbind at 1, st_bind at 1 in Hr. unfold get at 1 in Hr.
    destruct (state (nemu_state m)) eqn:Est; try (exfalso; apply Hf; unfold finished; rewrite Est; tauto);
      apply bind_ok in Hr as ([] & ? & Hs & Hr); rewrite set_state_run in Hs; injection Hs as <-;
      apply bind_ok in Hr as ([] & m1 & Hex & Hr); apply bind_ok in Hr as (? & ? & Hget & Hr);
      unfold get in Hget; injection Hget as <- <-; exists m1; (split; [exact Hex|exact Hr]). }
  apply execute_post in Hex as (b & evs & R1 & L1 & P1); [|by left|unfold in_u in *; lia].
  pose proof (ran_trans _ _ _ _ _ R0 R1) as R. cbn [app] in R.
  exists evs. assert (Hlen : Z.of_nat (length evs) <= k) by (unfold in_u in *; lia).
  assert (Hrep : forall m2, ran m m2 evs -> nemu_state m2 = nemu_state m1 -> cpu m2 = cpu m1 ->
    g_nr_guest_inst m2 = g_nr_guest_inst m1 -> state (nemu_state m1) <> NEMU_RUNNING -> exec_post k m m2 evs).
  { intros m2 R2 E2 Ec Eg Hne. unfold exec_post. rewrite E2, Ec, Eg. split_and!; [exact R2|done|done|..].
    - destruct b; [intros Hs; destruct P1 as [_ [G|G]]; congruence|apply P1].
    - destruct b; [intros _; left; destruct P1; unfold in_u in *; lia|intros Hs; right; by apply P1]. }
  destruct (decide (state (nemu_state m1) = NEMU_RUNNING)) as [Es|Hne].
  - rewrite Es in Hend. rewrite set_state_run in Hend. injection Hend as <-. unfold exec_post.
    split_and!; [|done|done|done|].
    + rewrite <- (app_nil_r evs). eapply ran_trans; [exact R|]. by apply ran_refl.
    + intros _. left. destruct b; [unfold in_u in *; lia|]. by destruct P1.
  - match type of Hend with ?c m1 = _ =>
      assert (respects (keeps (fun m : nemu CPU => (run_cpu_frame m, nemu_state m))) c) as Hq end.
    { destruct (state (nemu_state m1)); [done|..]; repeat respects_step; auto using quiet_dump, quiet_report. }
    destruct (ran_report _ _ _ _ _ _ Hq Hend R) as (? & ? & ? & ?). by apply Hrep.
Qed.
End LoopFacts.

(** ** Relations every guest instruction respects

    [GuestRel R] collects what a relation between states must allow for all
    the building blocks of a guest's interpreter to respect it: accesses,
    register writes, ending the run.  The loop's frame and [ends] are such
    relations; a guest proves its laws once, for any of them. *)

Class GuestRel `{Config} {CPU : Type} (R : relation (nemu CPU)) : Prop := {
  gr_pre :: PreOrder R;
  gr_quiet {A} (m : M CPU A) : respects (keeps dev_frame) m -> respects R m;
  gr_cpu f s : R s (with_cpu f s);
  gr_end pc c : respects R (set_nemu_state NEMU_END pc c);
  gr_abort pc c : respects R (set_nemu_state NEMU_ABORT pc c);
}.

#[export] Instance run_frame_GuestRel `{Config} {CPU : Type} : GuestRel (keeps (run_frame (CPU := CPU))).
Proof.
  split.
  - apply _.
  - intros A m. apply quiet_run_frame.
  - done.
  - intros. apply run_frame_set_state.
  - intros. apply run_frame_set_state.
Qed.

#[export] Instance ends_GuestRel `{Config} {CPU : Type} : GuestRel (ends (CPU := CPU)).
Proof.
  split.
  - apply _.
  - intros A m. apply quiet_ends.
  - by left.
  - intros. apply ends_set_state. auto.
  - intros. apply ends_set_state. auto.
Qed.

Section Guest.
Context `{Config} {CPU : Type} `{!GprFile CPU} (R : relation (nemu CPU)) `{!GuestRel R}.
Abbreviation ok m := (respects R m).

Lemma guest_read a l : ok (vaddr_read a l).
Proof using GuestRel0. apply gr_quiet. apply quiet_paddr_read. Qed.
Lemma guest_write a l v : ok (vaddr_write a l v).
Proof using GuestRel0. apply gr_quiet. apply quiet_paddr_write. Qed.
Lemma guest_fetch a l : ok (inst_fetch a l).
Proof using GuestRel0. apply gr_quiet. apply quiet_inst_fetch. Qed.
Lemma guest_cpu f : ok (modify_cpu f).
Proof using GuestRel0. apply respects_modify. intros s. apply gr_cpu. Qed.
Lemma guest_INV p : ok (INV p).
Proof using GuestRel0.
  unfold INV, invalid_inst.
  repeat first [apply guest_fetch | apply gr_quiet, quiet_printf | apply gr_abort | apply respects_bind; [apply _| |intros ?]].
Qed.
Lemma guest_NEMUTRAP p c : ok (NEMUTRAP p c).
Proof using GuestRel0. apply gr_end. Qed.
Lemma guest_R_get i : ok (R_get i).
Proof using GuestRel0. unfold R_get, check_reg_idx. respects_tac. Qed.
Lemma guest_R_set i v : ok (R_set i v).
Proof using GuestRel0. unfold R_set, check_reg_idx. respects_tac. apply guest_cpu. Qed.
End Guest.
#[export] Hint Resolve guest_read guest_write guest_fetch guest_cpu guest_INV guest_NEMUTRAP
  guest_R_get guest_R_set : respects.

(** ** The pc of the [Decode] record is never assigned *)

Section SamePc.
Context {CPU I : Type}.
Implicit Types d : Decode.t I.

Definition same_pc d (c : M CPU (Decode.t I)) : Prop :=
  forall s d' s', c s = Ok (d', s') -> Decode.pc d' = Decode.pc d.

Lemma same_pc_ret d d' : Decode.pc d' = Decode.pc d -> same_pc d (mret d').
Proof. intros E s d2 s' Hr. run_inv. congruence. Qed.
Lemma same_pc_bind {A} d (m : M CPU A) k : (forall a, same_pc d (k a)) -> same_pc d (m ≫= k).
Proof. intros Hk s d' s' Hr. run_inv. by eapply Hk. Qed.
Lemma same_pc_if d (b : bool) c1 c2 : same_pc d c1 -> same_pc d c2 -> same_pc d (if b then c1 else c2).
Proof. by destruct b. Qed.
End SamePc.

Ltac same_pc_tac :=
  repeat first
    [ apply same_pc_if | apply same_pc_ret; first [done | by case_match]
    | apply same_pc_bind; intros ? ].
