(* ===== verification/Riscv32.v ===== *)
(** * The riscv32 guest (nemu/src/isa/riscv32)

    CPU state, CSRs, exceptions, the decode table of inst.c line by line with
    the body of each instruction, [isa_exec_once] and [init_isa]. *)
From S2P Require Import Prelude Outcome Bytes Config CommitEvent CommitRing Machine PhysMem Devices IoMap.
From S2P Require Import Vaddr Pattern Isa.
#[local] Open Scope string_scope.
#[local] Open Scope Z_scope.

Record riscv32_CPU_state := {
  gpr : list Z; pc : Z; mstatus : Z; mtvec : Z; mepc : Z; mcause : Z;
}.

#[export] Instance riscv32_GprFile `{Config} : GprFile riscv32_CPU_state := {
  gprs := gpr; set_gprs l c := {c with gpr := l}; nr_gpr := NR_GPR; gprs_set _ _ := eq_refl;
}.

(** [CPU_state cpu = {}]. *)
Definition cpu_init `{Config} : riscv32_CPU_state :=
  {| gpr := replicate (Z.to_nat NR_GPR) 0; pc := 0; mstatus := 0; mtvec := 0; mepc := 0; mcause := 0 |}.

(** ** system/intr.c *)

Section Intr.
Context `{Config}.

Definition isa_raise_intr (NO epc : Z) : M riscv32_CPU_state Z :=
  modify_cpu (fun c => {c with mepc := epc}) ;;
  modify_cpu (fun c => {c with mcause := NO}) ;;
  c ← gets cpu; mret (mtvec c).

Definition INTR_EMPTY : Z := u32 (-1).
Definition isa_query_intr : Z := INTR_EMPTY.
End Intr.

(** ** inst.c: operands *)

Inductive itype := TYPE_I | TYPE_U | TYPE_S | TYPE_J | TYPE_B | TYPE_R | TYPE_N.

Definition immI (i : Z) : Z := u32 (SEXT (BITS i 31 20) 12).
Definition immU (i : Z) : Z := u32 (u64 (Z.shiftl (SEXT (BITS i 31 12) 20) 12)).
Definition immS (i : Z) : Z := u32 (Z.lor (u64 (Z.shiftl (SEXT (BITS i 31 25) 7) 5)) (BITS i 11 7)).
Definition immJ (i : Z) : Z :=
  u32 (SEXT (Z.lor (Z.lor (Z.lor (Z.shiftl (BITS i 31 31) 20) (Z.shiftl (BITS i 19 12) 12))
                          (Z.shiftl (BITS i 20 20) 11)) (Z.shiftl (BITS i 30 21) 1)) 21).
Definition immB (i : Z) : Z :=
  u32 (SEXT (Z.lor (Z.lor (Z.lor (Z.shiftl (BITS i 31 31) 12) (Z.shiftl (BITS i 7 7) 11))
                          (Z.shiftl (BITS i 30 25) 5)) (Z.shiftl (BITS i 11 8) 1)) 13).

(** The C variables [rd], [src1], [src2] and [imm] of an INSTPAT line. *)
Record operands := { rd : Z; src1 : Z; src2 : Z; imm : Z }.

Section Exec.
Context `{Config}.
Abbreviation Mn := (M riscv32_CPU_state).

Definition decode_operand (s : RDecode) (type : itype) : Mn operands :=
  let i := inst (Decode.isa s) in
  let rs1 := BITS i 19 15 in
  let rs2 := BITS i 24 20 in
  let rd := BITS i 11 7 in
  match type with
  | TYPE_I => a ← R_get rs1; mret {| rd := rd; src1 := a; src2 := 0; imm := immI i |}
  | TYPE_U => mret {| rd := rd; src1 := 0; src2 := 0; imm := immU i |}
  | TYPE_S => a ← R_get rs1; b ← R_get rs2; mret {| rd := rd; src1 := a; src2 := b; imm := immS i |}
  | TYPE_J => mret {| rd := rd; src1 := 0; src2 := 0; imm := immJ i |}
  | TYPE_B => a ← R_get rs1; b ← R_get rs2; mret {| rd := rd; src1 := a; src2 := b; imm := immB i |}
  | TYPE_R => a ← R_get rs1; b ← R_get rs2; mret {| rd := rd; src1 := a; src2 := b; imm := 0 |}
  | TYPE_N => mret {| rd := rd; src1 := 0; src2 := 0; imm := 0 |}
  end.

(** ** inst.c: CSRs and exceptions *)

Definition csr_read (addr : Z) : Mn Z :=
  c ← gets cpu;
  if addr =? 0xf11 then mret 0
  else if addr =? 0xf12 then mret 0
  else if addr =? 0x300 then mret 0x00001800
  else if addr =? 0x305 then mret (mtvec c)
  else if addr =? 0x341 then mret (mepc c)
  else if addr =? 0x342 then mret (mcause c)
  else INV (pc c) ;; mret 0.

Definition csr_write (addr val : Z) : Mn unit :=
  if addr =? 0x300 then modify_cpu (fun c => {c with mstatus := 0x00001800})
  else if addr =? 0x305 then modify_cpu (fun c => {c with mtvec := Z.land val (u32 (Z.lnot 3))})
  else if addr =? 0x341 then modify_cpu (fun c => {c with mepc := Z.land val (u32 (Z.lnot 3))})
  else if addr =? 0x342 then modify_cpu (fun c => {c with mcause := val})
  else c ← gets cpu; INV (pc c).

Definition raise_sync_exception (s : RDecode) (cause : Z) : Mn RDecode :=
  v ← isa_raise_intr cause (Decode.pc s);
  mret {s with Decode.exception := true; Decode.exception_cause := cause; Decode.dnpc := v}.
End Exec.

(** ** inst.c: the INSTPAT lines *)

Inductive iname :=
| i_lui | i_auipc | i_addi | i_slti | i_sltiu | i_xori | i_ori | i_andi | i_slli | i_srli | i_srai
| i_lb | i_lh | i_lw | i_lbu | i_lhu | i_sb | i_sh | i_sw
| i_add | i_sub | i_mul | i_mulh | i_mulhsu | i_mulhu | i_div | i_divu | i_rem | i_remu
| i_sll | i_srl | i_sra | i_slt | i_sltu | i_xor | i_or | i_and
| i_beq | i_bne | i_blt | i_bge | i_bltu | i_bgeu | i_jal | i_jalr
| i_csrrw | i_csrrs | i_csrrc | i_csrrwi | i_csrrsi | i_csrrci
| i_ecall | i_mret | i_ebreak | i_inv.
#[export] Instance iname_eq_dec : EqDecision iname.
Proof. solve_decision. Defined.

Definition decode_table : list (string * (iname * itype)) := [
  ("??????? ????? ????? ??? ????? 01101 11", (i_lui    , TYPE_U));
  ("??????? ????? ????? ??? ????? 00101 11", (i_auipc  , TYPE_U));
  ("??????? ????? ????? 000 ????? 00100 11", (i_addi   , TYPE_I));
  ("??????? ????? ????? 010 ????? 00100 11", (i_slti   , TYPE_I));
  ("??????? ????? ????? 011 ????? 00100 11", (i_sltiu  , TYPE_I));
  ("??????? ????? ????? 100 ????? 00100 11", (i_xori   , TYPE_I));
  ("??????? ????? ????? 110 ????? 00100 11", (i_ori    , TYPE_I));
  ("??????? ????? ????? 111 ????? 00100 11", (i_andi   , TYPE_I));
  ("0000000 ????? ????? 001 ????? 00100 11", (i_slli   , TYPE_I));
  ("0000000 ????? ????? 101 ????? 00100 11", (i_srli   , TYPE_I));
  ("0100000 ????? ????? 101 ????? 00100 11", (i_srai   , TYPE_I));
  ("??????? ????? ????? 000 ????? 00000 11", (i_lb     , TYPE_I));
  ("??????? ????? ????? 001 ????? 00000 11", (i_lh     , TYPE_I));
  ("??????? ????? ????? 010 ????? 00000 11", (i_lw     , TYPE_I));
  ("??????? ????? ????? 100 ????? 00000 11", (i_lbu    , TYPE_I));
  ("??????? ????? ????? 101 ????? 00000 11", (i_lhu    , TYPE_I));
  ("??????? ????? ????? 000 ????? 01000 11", (i_sb     , TYPE_S));
  ("??????? ????? ????? 001 ????? 01000 11", (i_sh     , TYPE_S));
  ("??????? ????? ????? 010 ????? 01000 11", (i_sw     , TYPE_S));
  ("0000000 ????? ????? 000 ????? 01100 11", (i_add    , TYPE_R));
  ("0100000 ????? ????? 000 ????? 01100 11", (i_sub    , TYPE_R));
  ("0000001 ????? ????? 000 ????? 01100 11", (i_mul    , TYPE_R));
  ("0000001 ????? ????? 001 ????? 01100 11", (i_mulh   , TYPE_R));
  ("0000001 ????? ????? 010 ????? 01100 11", (i_mulhsu , TYPE_R));
  ("0000001 ????? ????? 011 ????? 01100 11", (i_mulhu  , TYPE_R));
  ("0000001 ????? ????? 100 ????? 01100 11", (i_div    , TYPE_R));
  ("0000001 ????? ????? 101 ????? 01100 11", (i_divu   , TYPE_R));
  ("0000001 ????? ????? 110 ????? 01100 11", (i_rem    , TYPE_R));
  ("0000001 ????? ????? 111 ????? 01100 11", (i_remu   , TYPE_R));
  ("0000000 ????? ????? 001 ????? 01100 11", (i_sll    , TYPE_R));
  ("0000000 ????? ????? 101 ????? 01100 11", (i_srl    , TYPE_R));
  ("0100000 ????? ????? 101 ????? 01100 11", (i_sra    , TYPE_R));
  ("0000000 ????? ????? 010 ????? 01100 11", (i_slt    , TYPE_R));
  ("0000000 ????? ????? 011 ????? 01100 11", (i_sltu   , TYPE_R));
  ("0000000 ????? ????? 100 ????? 01100 11", (i_xor    , TYPE_R));
  ("0000000 ????? ????? 110 ????? 01100 11", (i_or     , TYPE_R));
  ("0000000 ????? ????? 111 ????? 01100 11", (i_and    , TYPE_R));
  ("??????? ????? ????? 000 ????? 11000 11", (i_beq    , TYPE_B));
  ("??????? ????? ????? 001 ????? 11000 11", (i_bne    , TYPE_B));
  ("??????? ????? ????? 100 ????? 11000 11", (i_blt    , TYPE_B));
  ("??????? ????? ????? 101 ????? 11000 11", (i_bge    , TYPE_B));
  ("??????? ????? ????? 110 ????? 11000 11", (i_bltu   , TYPE_B));
  ("??????? ????? ????? 111 ????? 11000 11", (i_bgeu   , TYPE_B));
  ("??????? ????? ????? ????? ????? 11011 11", (i_jal  , TYPE_J));
  ("??????? ????? ????? 000 ????? 11001 11", (i_jalr   , TYPE_I));
  ("??????? ????? ????? 001 ????? 11100 11", (i_csrrw  , TYPE_I));
  ("??????? ????? ????? 010 ????? 11100 11", (i_csrrs  , TYPE_I));
  ("??????? ????? ????? 011 ????? 11100 11", (i_csrrc  , TYPE_I));
  ("??????? ????? ????? 101 ????? 11100 11", (i_csrrwi , TYPE_I));
  ("??????? ????? ????? 110 ????? 11100 11", (i_csrrsi , TYPE_I));
  ("??????? ????? ????? 111 ????? 11100 11", (i_csrrci , TYPE_I));
  ("0000000 00000 00000 000 00000 11100 11", (i_ecall  , TYPE_N));
  ("0011000 00010 00000 000 00000 11100 11", (i_mret   , TYPE_N));
  ("0000000 00001 00000 000 00000 11100 11", (i_ebreak , TYPE_N));
  ("??????? ????? ????? ??? ????? ????? ??", (i_inv    , TYPE_N))].

(** The values the OP, OP-IMM and M instructions assign. *)
Definition slt (a b : Z) : Z := b2z (s32 a <? s32 b).
Definition sltu (a b : Z) : Z := b2z (a <? b).
Definition sll (a n : Z) : Z := u32 (Z.shiftl a n).
Definition srl (a n : Z) : Z := Z.shiftr a n.
Definition sra (a n : Z) : Z := u32 (Z.shiftr (s32 a) n).
Definition mulh (a b : Z) : Z := u32 (Z.shiftr (s64 (s32 a * s32 b)) 32).
Definition mulhsu (a b : Z) : Z := u32 (Z.shiftr (u64 (u64 (s32 a) * b)) 32).
Definition mulhu (a b : Z) : Z := u32 (Z.shiftr (u64 (a * b)) 32).

(** The operators [/] and [%] of C on two [int32_t] and on two [uint32_t]: undefined for a
    divisor 0 and for a quotient that does not fit. *)
Definition c_division (a b : Z) (r : Z) : outcome Z :=
  if b =? 0 then Undef "division by zero"
  else if (a =? - 2 ^ 31) && (b =? -1) then Undef "overflow of a division"
  else Ok r.
Definition c_div (a b : Z) : outcome Z := c_division a b (Z.quot a b).
Definition c_rem (a b : Z) : outcome Z := c_division a b (Z.rem a b).

Definition div (a b : Z) : outcome Z :=
  if b =? 0 then Ok (u32 (-1))
  else if (a =? 0x80000000) && (b =? u32 (-1)) then Ok a else q ← c_div (s32 a) (s32 b); Ok (u32 q).
Definition divu (a b : Z) : outcome Z := if b =? 0 then Ok (u32 (-1)) else c_div a b.
Definition rem (a b : Z) : outcome Z :=
  if b =? 0 then Ok a
  else if (a =? 0x80000000) && (b =? u32 (-1)) then Ok 0 else q ← c_rem (s32 a) (s32 b); Ok (u32 q).
Definition remu (a b : Z) : outcome Z := if b =? 0 then Ok a else c_rem a b.

Section Bodies.
Context `{Config}.
Abbreviation Mn := (M riscv32_CPU_state).

Definition load (s : RDecode) (o : operands) (len : Z) (ext : Z -> Z) : Mn RDecode :=
  let addr := u32 (src1 o + imm o) in
  if vaddr_access_ok addr len then v ← vaddr_read addr len; R_set (rd o) (ext v) ;; mret s
  else raise_sync_exception s 5.

Definition store (s : RDecode) (o : operands) (len : Z) : Mn RDecode :=
  let addr := u32 (src1 o + imm o) in
  if vaddr_access_ok addr len then vaddr_write addr len (src2 o) ;; mret s
  else raise_sync_exception s 7.

Definition branch (s : RDecode) (o : operands) (taken : bool) : Mn RDecode :=
  mret (if taken then {s with Decode.dnpc := u32 (Decode.pc s + imm o)} else s).

(** [csrr*]: the write happens when [wr]. *)
Definition csr_op (s : RDecode) (o : operands) (wr : bool) (f : Z -> Z) : Mn RDecode :=
  let i := inst (Decode.isa s) in
  t ← csr_read (BITS i 31 20);
  when wr (csr_write (BITS i 31 20) (f t)) ;;
  R_set (rd o) t ;; mret s.

Definition exec_body (n : iname) (s : RDecode) (o : operands) : Mn RDecode :=
  let a := src1 o in
  let b := src2 o in
  let i := inst (Decode.isa s) in
  let zimm := BITS i 19 15 in
  let W v := R_set (rd o) v ;; mret s in
  match n with
  | i_lui => W (imm o)
  | i_auipc => W (Decode.pc s + imm o)
  | i_addi => W (a + imm o)
  | i_slti => W (slt a (imm o))
  | i_sltiu => W (sltu a (imm o))
  | i_xori => W (Z.lxor a (imm o))
  | i_ori => W (Z.lor a (imm o))
  | i_andi => W (Z.land a (imm o))
  | i_slli => W (sll a (BITS (imm o) 4 0))
  | i_srli => W (srl a (BITS (imm o) 4 0))
  | i_srai => W (sra a (BITS (imm o) 4 0))
  | i_lb => load s o 1 (fun v => SEXT v 8)
  | i_lh => load s o 2 (fun v => SEXT v 16)
  | i_lw => load s o 4 id
  | i_lbu => load s o 1 id
  | i_lhu => load s o 2 id
  | i_sb => store s o 1
  | i_sh => store s o 2
  | i_sw => store s o 4
  | i_add => W (a + b)
  | i_sub => W (a - b)
  | i_mul => W (a * b)
  | i_mulh => W (mulh a b)
  | i_mulhsu => W (mulhsu a b)
  | i_mulhu => W (mulhu a b)
  | i_div => v ← lift (div a b); W v
  | i_divu => v ← lift (divu a b); W v
  | i_rem => v ← lift (rem a b); W v
  | i_remu => v ← lift (remu a b); W v
  | i_sll => W (sll a (BITS b 4 0))
  | i_srl => W (srl a (BITS b 4 0))
  | i_sra => W (sra a (BITS b 4 0))
  | i_slt => W (slt a b)
  | i_sltu => W (sltu a b)
  | i_xor => W (Z.lxor a b)
  | i_or => W (Z.lor a b)
  | i_and => W (Z.land a b)
  | i_beq => branch s o (a =? b)
  | i_bne => branch s o (negb (a =? b))
  | i_blt => branch s o (s32 a <? s32 b)
  | i_bge => branch s o (s32 b <=? s32 a)
  | i_bltu => branch s o (a <? b)
  | i_bgeu => branch s o (b <=? a)
  | i_jal =>
      R_set (rd o) (Decode.snpc s) ;; mret {s with Decode.dnpc := u32 (Decode.pc s + imm o)}
  | i_jalr =>
      R_set (rd o) (Decode.snpc s) ;;
      mret {s with Decode.dnpc := Z.land (u32 (a + imm o)) (u32 (Z.lnot 1))}
  | i_csrrw => csr_op s o true (fun _ => a)
  | i_csrrs => csr_op s o (negb (zimm =? 0)) (fun t => Z.lor t a)
  | i_csrrc => csr_op s o (negb (zimm =? 0)) (fun t => Z.land t (u32 (Z.lnot a)))
  | i_csrrwi => csr_op s o true (fun _ => zimm)
  | i_csrrsi => csr_op s o (negb (zimm =? 0)) (fun t => Z.lor t zimm)
  | i_csrrci => csr_op s o (negb (zimm =? 0)) (fun t => u32 (Z.land t (u64 (Z.lnot zimm))))
  | i_ecall => v ← isa_raise_intr 11 (Decode.pc s); mret {s with Decode.dnpc := v}
  | i_mret => c ← gets cpu; mret {s with Decode.dnpc := mepc c}
  | i_ebreak => a0 ← R_get 10; NEMUTRAP (Decode.pc s) a0 ;; mret s
  | i_inv => INV (Decode.pc s) ;; mret s
  end.

Definition decode_exec (s : RDecode) : Mn RDecode :=
  let s := {s with Decode.dnpc := Decode.snpc s} in
  m ← lift (instpat decode_table (inst (Decode.isa s)));
  s ← match m with
      | Some (n, type) => o ← decode_operand s type; exec_body n s o
      | None => mret s
      end;
  R_set 0 0 ;; mret s.

Definition isa_exec_once (s : RDecode) : Mn RDecode :=
  if negb (vaddr_access_ok (Decode.snpc s) 4) then
    let n := u32 (Decode.snpc s + 4) in
    raise_sync_exception
      {s with Decode.isa := {| inst := 0 |}; Decode.snpc := n; Decode.dnpc := n} 1
  else
    f ← inst_fetch (Decode.snpc s) 4;
    decode_exec {s with Decode.isa := {| inst := f.1 |}; Decode.snpc := f.2}.

(** ** init.c *)

Definition img : list Z := [0x00000297; 0x00028823; 0x0102c503; 0x00100073; 0xdeadbeef].
Definition img_bytes (words : list Z) : list Z := flat_map (le_split 4) words.

Definition restart : Mn unit :=
  modify_cpu (fun c => {c with pc := RESET_VECTOR}) ;;
  modify_cpu (fun c => {c with gpr := <[0%nat := 0]> (gpr c)}) ;;
  modify_cpu (fun c => {c with mstatus := 0x00001800}) ;;
  modify_cpu (fun c => {c with mtvec := 0}) ;;
  modify_cpu (fun c => {c with mepc := 0}) ;;
  modify_cpu (fun c => {c with mcause := 0}).

Definition init_isa : Mn unit :=
  paddr_memcpy_to_guest RESET_VECTOR (img_bytes img) true ;;
  restart.

(** difftest/dut.c: the comparison is a stub. *)
Definition isa_difftest_checkregs (ref_r : riscv32_CPU_state) (npc : Z) : Mn bool := mret false.
End Bodies.

#[export] Instance riscv32_Isa `{Config} : Isa := {
  CPU_state := riscv32_CPU_state;
  DecodeInfo := ISADecodeInfo;
  decode_info0 := {| inst := 0 |};
  info_inst := inst;
  cpu_pc := pc;
  set_cpu_pc v c := {c with pc := v};
  cpu_gpr := gpr;
  cpu_zero := cpu_init;
  Isa.init_isa := init_isa;
  Isa.isa_exec_once := isa_exec_once;
  Isa.isa_raise_intr := isa_raise_intr;
  Isa.isa_query_intr := isa_query_intr;
  Isa.isa_difftest_checkregs := isa_difftest_checkregs;
}.
