(* ===== verification/Riscv32Decode.v ===== *)
(** * Decoding of riscv32 instructions

    The instruction formats of the RISC-V manual as an encoder, and the
    correctness of the pattern table against it: [decode_table] classifies a
    word by opcode, funct3 and funct7 and nothing else, and the operands
    [decode_operand] extracts from an encoded instruction are the ones that
    were encoded. *)
From Stdlib Require Import Btauto.
From S2P Require Import Prelude Outcome Bytes Config CommitEvent CommitRing Machine PhysMem Devices IoMap.
From S2P Require Import Vaddr Pattern Isa Riscv32.

(** ** Formats *)

Definition opcode (n : iname) : Z :=
  match n with
  | i_lui => 0x37 | i_auipc => 0x17
  | i_addi | i_slti | i_sltiu | i_xori | i_ori | i_andi | i_slli | i_srli | i_srai => 0x13
  | i_lb | i_lh | i_lw | i_lbu | i_lhu => 0x03
  | i_sb | i_sh | i_sw => 0x23
  | i_add | i_sub | i_mul | i_mulh | i_mulhsu | i_mulhu | i_div | i_divu | i_rem | i_remu
  | i_sll | i_srl | i_sra | i_slt | i_sltu | i_xor | i_or | i_and => 0x33
  | i_beq | i_bne | i_blt | i_bge | i_bltu | i_bgeu => 0x63
  | i_jal => 0x6f | i_jalr => 0x67
  | i_csrrw | i_csrrs | i_csrrc | i_csrrwi | i_csrrsi | i_csrrci
  | i_ecall | i_mret | i_ebreak => 0x73
  | i_inv => 0
  end.

Definition funct3 (n : iname) : option Z :=
  match n with
  | i_lui | i_auipc | i_jal | i_inv => None
  | i_addi | i_lb | i_sb | i_add | i_sub | i_mul | i_beq | i_jalr | i_ecall | i_mret | i_ebreak => Some 0
  | i_slli | i_lh | i_sh | i_mulh | i_sll | i_bne | i_csrrw => Some 1
  | i_slti | i_lw | i_sw | i_mulhsu | i_slt | i_csrrs => Some 2
  | i_sltiu | i_mulhu | i_sltu | i_csrrc => Some 3
  | i_xori | i_lbu | i_div | i_xor | i_blt => Some 4
  | i_srli | i_srai | i_lhu | i_divu | i_srl | i_sra | i_bge | i_csrrwi => Some 5
  | i_ori | i_rem | i_or | i_bltu | i_csrrsi => Some 6
  | i_andi | i_remu | i_and | i_bgeu | i_csrrci => Some 7
  end.

Definition funct7 (n : iname) : option Z :=
  match n with
  | i_slli | i_srli | i_add | i_sll | i_srl | i_slt | i_sltu | i_xor | i_or | i_and => Some 0
  | i_srai | i_sub | i_sra => Some 0x20
  | i_mul | i_mulh | i_mulhsu | i_mulhu | i_div | i_divu | i_rem | i_remu => Some 1
  | _ => None
  end.

Definition type_of (n : iname) : itype :=
  match n with
  | i_lui | i_auipc => TYPE_U
  | i_jal => TYPE_J
  | i_ecall | i_mret | i_ebreak | i_inv => TYPE_N
  | _ => if opcode n =? 0x23 then TYPE_S else if opcode n =? 0x63 then TYPE_B
         else if opcode n =? 0x33 then TYPE_R else TYPE_I
  end.

(** The words without operands. *)
Definition whole_word (n : iname) : option Z :=
  match n with
  | i_ecall => Some 0x00000073 | i_mret => Some 0x30200073 | i_ebreak => Some 0x00100073
  | _ => None
  end.

Definition opt_eqb (o : option Z) (x : Z) : bool := match o with Some v => x =? v | None => true end.

(** [x] is an instruction word of [n]. *)
Definition is_form (n : iname) (x : Z) : bool :=
  match n with
  | i_inv => false
  | _ => match whole_word n with
         | Some w => x =? w
         | None => (field x 0 7 =? opcode n) && opt_eqb (funct3 n) (field x 12 3)
                   && opt_eqb (funct7 n) (field x 25 7)
         end
  end.

(** ** The masks of the table select the fields *)

Lemma land_opcode x : Z.land x 0x7f = field x 0 7.
Proof. change 0x7f with (Z.ones 7 * 2 ^ 0). rewrite land_mask_shifted by lia. lia. Qed.

Lemma land_opcode_f3 x : Z.land x 0x707f = field x 12 3 * 2 ^ 12 + field x 0 7.
Proof.
  change 0x707f with (Z.lor (Z.ones 3 * 2 ^ 12) 0x7f).
  rewrite Z.land_lor_distr_r, land_mask_shifted, land_opcode by lia. apply lor_add_shifted; [lia|].
  pose proof (field_range x 0 7). unfold in_u in *. lia.
Qed.

Lemma land_opcode_f3_f7 x :
  Z.land x 0xfe00707f = field x 25 7 * 2 ^ 25 + (field x 12 3 * 2 ^ 12 + field x 0 7).
Proof.
  change 0xfe00707f with (Z.lor (Z.ones 7 * 2 ^ 25) 0x707f).
  rewrite Z.land_lor_distr_r, land_mask_shifted, land_opcode_f3 by lia. apply lor_add_shifted; [lia|].
  pose proof (field_range x 0 7). pose proof (field_range x 12 3). unfold in_u in *. lia.
Qed.

Lemma eqb_opcode_f3 x k o f :
  in_u 7 o -> k = f * 2 ^ 12 + o ->
  (Z.land x 0x707f =? k) = (field x 0 7 =? o) && (field x 12 3 =? f).
Proof.
  intros Ho ->. rewrite land_opcode_f3. pose proof (field_range x 0 7). unfold in_u in *.
  apply eq_true_iff_eq. rewrite andb_true_iff, !Z.eqb_eq. lia.
Qed.

Lemma eqb_opcode_f3_f7 x k o f g :
  in_u 7 o -> in_u 3 f -> k = g * 2 ^ 25 + (f * 2 ^ 12 + o) ->
  (Z.land x 0xfe00707f =? k) = (field x 0 7 =? o) && (field x 12 3 =? f) && (field x 25 7 =? g).
Proof.
  intros Ho Hf ->. rewrite land_opcode_f3_f7. pose proof (field_range x 0 7).
  pose proof (field_range x 12 3). unfold in_u in *.
  apply eq_true_iff_eq. rewrite !andb_true_iff, !Z.eqb_eq. lia.
Qed.

Lemma land_word x : in_u 32 x -> Z.land x 0xffffffff = x.
Proof. intros Hx. change 0xffffffff with (Z.ones 32). rewrite Z.land_ones by lia. by apply Z.mod_small. Qed.

(** The table, compiled once. *)
Definition rv_pats : list (pat * (iname * itype)) :=
  Eval vm_compute in match compile decode_table with Ok t => t | _ => [] end.

Lemma rv_pats_ok : compile decode_table = Ok rv_pats.
Proof. vm_compute. reflexivity. Qed.

(** The same table over the fields of a word. *)
Definition field_match (p : pat) (x : Z) : bool :=
  if mask p =? 0x7f then field x 0 7 =? key p
  else if mask p =? 0x707f then (field x 0 7 =? field (key p) 0 7) && (field x 12 3 =? field (key p) 12 3)
  else if mask p =? 0xfe00707f then
    (field x 0 7 =? field (key p) 0 7) && (field x 12 3 =? field (key p) 12 3)
    && (field x 25 7 =? field (key p) 25 7)
  else if mask p =? 0xffffffff then x =? key p else true.

Definition pat_fine (p : pat) : bool :=
  if shift p =? 0 then
    if mask p =? 0x7f then true
    else if mask p =? 0x707f then key p =? field (key p) 12 3 * 2 ^ 12 + field (key p) 0 7
    else if mask p =? 0xfe00707f then
      key p =? field (key p) 25 7 * 2 ^ 25 + (field (key p) 12 3 * 2 ^ 12 + field (key p) 0 7)
    else mask p =? 0xffffffff
  else (mask p =? 0) && (key p =? 0).

Lemma pat_match_fields p x : in_u 32 x -> pat_fine p = true -> pat_match p x = field_match p x.
Proof.
  intros Hx. unfold pat_fine, pat_match, field_match. destruct (Z.eqb_spec (shift p) 0) as [->|_].
  - rewrite Z.shiftr_0_r. destruct (Z.eqb_spec (mask p) 0x7f) as [->|_]; [by rewrite land_opcode|].
    destruct (Z.eqb_spec (mask p) 0x707f) as [->|_].
    { intros ?%Z.eqb_eq. apply eqb_opcode_f3; [by apply field_range|done]. }
    destruct (Z.eqb_spec (mask p) 0xfe00707f) as [->|_].
    { intros ?%Z.eqb_eq. apply eqb_opcode_f3_f7; [by apply field_range..|done]. }
    intros ->%Z.eqb_eq. rewrite land_word by done. done.
  - rewrite andb_true_iff, !Z.eqb_eq. intros [-> ->]. rewrite Z.land_0_r. done.
Qed.

Fixpoint find_field {A} (ps : list (pat * A)) (x : Z) : option A :=
  match ps with
  | [] => None
  | (p, a) :: ps' => if field_match p x then Some a else find_field ps' x
  end.

Lemma instpat_fields x : in_u 32 x -> instpat decode_table x = Ok (find_field rv_pats x).
Proof.
  intros Hx. rewrite (instpat_compile _ _ x rv_pats_ok). f_equal.
  assert (forallb (fun q => pat_fine q.1) rv_pats = true) as Hf by (vm_compute; reflexivity).
  revert Hf. generalize rv_pats. induction l as [|[p a] l IH]; [done|].
  cbn [forallb fst find_pat find_field]. rewrite andb_true_iff. intros [Hp Hl].
  rewrite pat_match_fields by done. by rewrite IH.
Qed.

(** ** The classification *)

Ltac field_eqs :=
  repeat match goal with
  | H : _ && _ = true |- _ => apply andb_true_iff in H as [? ?]
  | H : (_ =? _) = true |- _ => apply Z.eqb_eq in H
  | H : opt_eqb _ _ = true |- _ => cbn [opt_eqb] in H
  end.

Lemma find_field_form x n : in_u 32 x -> is_form n x = true -> find_field rv_pats x = Some (n, type_of n).
Proof.
  intros Hx Hf.
  destruct n; cbn [is_form whole_word opcode funct3 funct7] in Hf; try discriminate Hf;
    field_eqs;
    try (match goal with H : x = _ |- _ => rewrite H; reflexivity end);
    cbv [find_field rv_pats field_match mask key];
    repeat match goal with H : field x _ _ = _ |- _ => rewrite H; clear H end; reflexivity.
Qed.

(** The tests of the table are those of [is_form], line by line. *)
Definition row_form (row : pat * (iname * itype)) (x : Z) : bool := field_match row.1 x.

Lemma rows_form x :
  Forall (fun row => row.2.1 = i_inv \/ (row_form row x = true -> is_form row.2.1 x = true)) rv_pats.
Proof.
  unfold rv_pats, row_form. repeat apply Forall_cons_2; [..|apply Forall_nil_2];
    cbn [fst snd]; first [left; reflexivity | right];
    cbv [field_match mask key shift Z.eqb Pos.eqb is_form whole_word opcode funct3 funct7 opt_eqb];
    intros Hm; field_eqs; rewrite ?andb_true_iff, ?Z.eqb_eq; repeat split; assumption.
Qed.

Lemma find_field_inv {A} (ps : list (pat * A)) x a :
  find_field ps x = Some a -> exists p, (p, a) ∈ ps /\ field_match p x = true.
Proof.
  induction ps as [|[p b] ps IH]; [done|]. cbn [find_field]. destruct (field_match p x) eqn:E.
  - intros [= ->]. exists p. split; [apply list_elem_of_here|done].
  - intros (q & Hq & Hm)%IH. exists q. split; [by apply list_elem_of_further|done].
Qed.

Lemma find_field_total x : exists n, find_field rv_pats x = Some (n, type_of n).
Proof.
  assert (Forall (fun q => q.2.2 = type_of q.2.1) rv_pats) as Ht by (repeat constructor).
  assert (exists a, find_field rv_pats x = Some a) as [[n t] Ha].
  { unfold rv_pats. cbn [find_field]. do 54 (case_match; [by eexists|]). by exists (i_inv, TYPE_N). }
  exists n. rewrite Ha. do 2 f_equal. apply find_field_inv in Ha as (p & Hp & _).
  exact (proj1 (Forall_forall _ _) Ht _ Hp).
Qed.

(** Every word is classified; it is an instruction word of its class, and of no
    other. *)
Lemma decode_class x :
  in_u 32 x ->
  exists n, instpat decode_table x = Ok (Some (n, type_of n)) /\
    forall m, is_form m x = true <-> m = n /\ n <> i_inv.
Proof.
  intros Hx. destruct (find_field_total x) as [n Hn]. exists n.
  rewrite instpat_fields, Hn by done. split; [done|]. intros m. split.
  - intros Hm. pose proof (find_field_form x m Hx Hm) as E. rewrite Hn in E. injection E as -> _.
    split; [done|]. intros ->. discriminate Hm.
  - intros [-> Hi]. apply find_field_inv in Hn as (p & Hp & Hm).
    pose proof (proj1 (Forall_forall _ _) (rows_form x) _ Hp) as [E|E]; [done|]. by apply E.
Qed.

(** ** The encoder *)

(** The six fields of an R-type word. *)
Definition mkword (f7 rs2 rs1 f3 rd op : Z) : Z :=
  f7 * 2 ^ 25 + (rs2 * 2 ^ 20 + (rs1 * 2 ^ 15 + (f3 * 2 ^ 12 + (rd * 2 ^ 7 + op)))).

Definition is_shift_imm (n : iname) : bool :=
  match n with i_slli | i_srli | i_srai => true | _ => false end.

(** [encode n rd rs1 rs2 imm]: [imm] is the immediate as a signed number, for
    lui and auipc the 20-bit value of the upper part, for the shifts by an
    immediate the shift amount. *)
Definition encode (n : iname) (rd rs1 rs2 imm : Z) : Z :=
  let f3 := default 0 (funct3 n) in
  let f7 := default 0 (funct7 n) in
  match whole_word n with
  | Some w => w
  | None =>
      match type_of n with
      | TYPE_R => mkword f7 rs2 rs1 f3 rd (opcode n)
      | TYPE_I =>
          if is_shift_imm n then mkword f7 imm rs1 f3 rd (opcode n)
          else mkword (field imm 5 7) (field imm 0 5) rs1 f3 rd (opcode n)
      | TYPE_S => mkword (field imm 5 7) rs2 rs1 f3 (field imm 0 5) (opcode n)
      | TYPE_B =>
          mkword (field imm 12 1 * 2 ^ 6 + field imm 5 6) rs2 rs1 f3
                 (field imm 1 4 * 2 + field imm 11 1) (opcode n)
      | TYPE_U => mkword (field imm 13 7) (field imm 8 5) (field imm 3 5) (field imm 0 3) rd (opcode n)
      | TYPE_J =>
          mkword (field imm 20 1 * 2 ^ 6 + field imm 5 6) (field imm 1 4 * 2 + field imm 11 1)
                 (field imm 15 5) (field imm 12 3) rd (opcode n)
      | TYPE_N => 0
      end
  end.

(** The immediates each format can hold. *)
Definition imm_ok (n : iname) (imm : Z) : Prop :=
  match type_of n with
  | TYPE_R | TYPE_N => imm = 0
  | TYPE_I => if is_shift_imm n then in_u 5 imm else in_s 12 imm
  | TYPE_S => in_s 12 imm
  | TYPE_B => in_s 13 imm /\ imm mod 2 = 0
  | TYPE_U => in_s 20 imm
  | TYPE_J => in_s 21 imm /\ imm mod 2 = 0
  end.

(** The value the instruction sees in its variable [imm]. *)
Definition imm_value (n : iname) (imm : Z) : Z :=
  match type_of n with
  | TYPE_U => u32 (imm * 2 ^ 12)
  | TYPE_R | TYPE_N => 0
  | TYPE_I => if is_shift_imm n then default 0 (funct7 n) * 2 ^ 5 + imm else u32 imm
  | _ => u32 imm
  end.

Section Fields.
Context (f7 rs2 rs1 f3 rd op : Z).
Context (H7 : in_u 7 f7) (H2 : in_u 5 rs2) (H1 : in_u 5 rs1) (H3 : in_u 3 f3) (Hd : in_u 5 rd) (Ho : in_u 7 op).
Abbreviation w := (mkword f7 rs2 rs1 f3 rd op).

Ltac solve_field := unfold field, mkword, in_u in *; Z.to_euclidean_division_equations; lia.

Lemma mkword_range : in_u 32 w.
Proof using All. unfold mkword, in_u in *. lia. Qed.
Lemma mkword_f7 : field w 25 7 = f7. Proof using All. solve_field. Qed.
Lemma mkword_rs2 : field w 20 5 = rs2. Proof using All. solve_field. Qed.
Lemma mkword_rs1 : field w 15 5 = rs1. Proof using All. solve_field. Qed.
Lemma mkword_f3 : field w 12 3 = f3. Proof using All. solve_field. Qed.
Lemma mkword_rd : field w 7 5 = rd. Proof using All. solve_field. Qed.
Lemma mkword_op : field w 0 7 = op. Proof using All. solve_field. Qed.
Lemma mkword_31_20 : field w 20 12 = f7 * 2 ^ 5 + rs2. Proof using All. solve_field. Qed.
Lemma mkword_31_12 : field w 12 20 = f7 * 2 ^ 13 + (rs2 * 2 ^ 8 + (rs1 * 2 ^ 3 + f3)).
Proof using All. solve_field. Qed.
Lemma mkword_31 : field w 31 1 = f7 / 2 ^ 6. Proof using All. solve_field. Qed.
Lemma mkword_30_25 : field w 25 6 = f7 mod 2 ^ 6. Proof using All. solve_field. Qed.
Lemma mkword_7 : field w 7 1 = rd mod 2. Proof using All. solve_field. Qed.
Lemma mkword_11_8 : field w 8 4 = rd / 2. Proof using All. solve_field. Qed.
Lemma mkword_19_12 : field w 12 8 = rs1 * 2 ^ 3 + f3. Proof using All. solve_field. Qed.
Lemma mkword_20 : field w 20 1 = rs2 mod 2. Proof using All. solve_field. Qed.
Lemma mkword_30_21 : field w 21 10 = (f7 mod 2 ^ 6) * 2 ^ 4 + rs2 / 2. Proof using All. solve_field. Qed.
End Fields.

(** Operand fields of an instruction. *)
Definition regs_in (rd rs1 rs2 : Z) : Prop := in_u 5 rd /\ in_u 5 rs1 /\ in_u 5 rs2.

Lemma opcode_range n : in_u 7 (opcode n).
Proof. destruct n; unfold in_u; cbn; lia. Qed.
Lemma funct3_range n : in_u 3 (default 0 (funct3 n)).
Proof. destruct n; unfold in_u; cbn; lia. Qed.
Lemma funct7_range n : in_u 7 (default 0 (funct7 n)).
Proof. destruct n; unfold in_u; cbn; lia. Qed.

Lemma join_range a b k m : 0 <= k -> 0 <= m -> in_u k a -> in_u m b -> in_u (k + m) (a * 2 ^ m + b).
Proof.
  unfold in_u. intros Hk Hm Ha Hb. rewrite Z.pow_add_r by lia.
  pose proof (pow2_pos k). pose proof (pow2_pos m). nia.
Qed.

Ltac fields_in :=
  repeat match goal with
  | |- in_u ?n (field _ _ ?n) => apply field_range; lia
  | |- in_u _ (opcode _) => apply opcode_range
  | |- in_u _ (default 0 (funct3 _)) => apply funct3_range
  | |- in_u _ (default 0 (funct7 _)) => apply funct7_range
  | |- in_u 7 (field _ _ 1 * 2 ^ 6 + field _ _ 6) => apply (join_range _ _ 1 6); [lia|lia| |]
  | |- in_u 5 (field _ _ 4 * 2 + field _ _ 1) => apply (join_range _ _ 4 1); [lia|lia| |]
  | |- in_u _ _ => assumption
  end.

(** The operands as the manual defines them: which registers a format has. *)
Definition has_rs1 (n : iname) : bool :=
  match type_of n with TYPE_I | TYPE_S | TYPE_B | TYPE_R => true | _ => false end.
Definition has_rs2 (n : iname) : bool :=
  match type_of n with TYPE_S | TYPE_B | TYPE_R => true | _ => false end.
Definition has_rd (n : iname) : bool :=
  match type_of n with TYPE_I | TYPE_U | TYPE_J | TYPE_R => true | _ => false end.

Definition imm_field (t : itype) (i : Z) : Z :=
  match t with
  | TYPE_I => immI i | TYPE_U => immU i | TYPE_S => immS i | TYPE_J => immJ i | TYPE_B => immB i
  | _ => 0
  end.

Section Encode.
Context (n : iname) (rd rs1 rs2 imm : Z).
Context (Hn : n <> i_inv) (Hr : regs_in rd rs1 rs2) (Hi : imm_ok n imm).
Abbreviation w := (encode n rd rs1 rs2 imm).

Lemma shift_imm_range : is_shift_imm n = true -> in_u 5 imm.
Proof using Hi Hn. destruct n; try done. Qed.

Lemma encode_mkword :
  whole_word n = None ->
  exists f7 r2 r1 f3 d, w = mkword f7 r2 r1 f3 d (opcode n) /\
    in_u 7 f7 /\ in_u 5 r2 /\ in_u 5 r1 /\ in_u 3 f3 /\ in_u 5 d.
Proof using Hn Hr Hi.
  pose proof shift_imm_range as Hs.
  intros Hw. destruct Hr as (Hd & H1 & H2). unfold encode. rewrite Hw.
  destruct (type_of n) eqn:Ht; [destruct (is_shift_imm n); [specialize (Hs eq_refl)|]|..];
    try (do 5 eexists; split; [reflexivity|]; repeat split_and; fields_in).
  destruct n; done.
Qed.

Lemma encode_range : in_u 32 w.
Proof using Hn Hr Hi.
  destruct (whole_word n) as [x|] eqn:Hw.
  - unfold encode. rewrite Hw. destruct n; try done; injection Hw as <-; unfold in_u; lia.
  - destruct (encode_mkword Hw) as (f7 & r2 & r1 & f3 & d & -> & H7 & H2 & H1 & H3 & Hd).
    apply mkword_range; auto using opcode_range.
Qed.

(** The encoder produces words of the named instruction. *)
Lemma encode_form : is_form n w = true.
Proof using Hn Hr Hi.
  pose proof shift_imm_range as Hs. destruct Hr as (Hd & H1 & H2).
  assert (forall f7 r2 r1 f3 d, in_u 7 f7 -> in_u 5 r2 -> in_u 5 r1 -> in_u 3 f3 -> in_u 5 d ->
    opt_eqb (funct3 n) f3 = true -> opt_eqb (funct7 n) f7 = true ->
    let x := mkword f7 r2 r1 f3 d (opcode n) in
    (field x 0 7 =? opcode n) && opt_eqb (funct3 n) (field x 12 3)
                 && opt_eqb (funct7 n) (field x 25 7) = true) as E.
  { intros f7 r2 r1 f3 d R7 R2 R1 R3 Rd E3 E7. cbv zeta.
    rewrite mkword_op, mkword_f3, mkword_f7, E3, E7, Z.eqb_refl by auto using opcode_range. done. }
  destruct n; try done; try (apply Z.eqb_refl); unfold is_form; cbn [whole_word]; unfold encode;
    cbn [whole_word type_of opcode Z.eqb Pos.eqb is_shift_imm];
    (apply E; [..|reflexivity|reflexivity]; try specialize (Hs eq_refl); fields_in).
Qed.

Lemma encode_regs :
  (has_rd n = true -> BITS w 11 7 = rd) /\
  (has_rs1 n = true -> BITS w 19 15 = rs1) /\
  (has_rs2 n = true -> BITS w 24 20 = rs2).
Proof using Hn Hr Hi.
  pose proof shift_imm_range as Hs. destruct Hr as (Hd & H1 & H2).
  unfold has_rd, has_rs1, has_rs2, encode. rewrite !BITS_field by lia.
  destruct (whole_word n) eqn:Hw; [destruct n; done|].
  destruct (type_of n) eqn:Ht; [destruct (is_shift_imm n) eqn:Es; [specialize (Hs eq_refl)|]|..];
    repeat split; intros; try discriminate;
    first [apply mkword_rd | apply mkword_rs1 | apply mkword_rs2]; fields_in.
Qed.
End Encode.

(** ** Immediates *)

Lemma field_wrap x w lo n : 0 <= lo -> 0 <= n -> lo + n <= w -> field (wrap w x) lo n = field x lo n.
Proof.
  intros. unfold field, wrap. rewrite <- !Z.land_ones, <- !Z.shiftr_div_pow2 by lia.
  apply Z.bits_inj'. intros i Hi. rewrite !Z.land_spec, !Z.shiftr_spec, Z.land_spec, !testbit_ones by lia.
  destruct (Z.ltb_spec i n); [|btauto]. destruct (Z.ltb_spec (i + lo) w); [btauto|lia].
Qed.

Lemma field_join x lo n m hi k :
  0 <= lo -> 0 <= n -> 0 <= m -> hi = lo + n -> k = n + m ->
  field x hi m * 2 ^ n + field x lo n = field x lo k.
Proof.
  intros Hl Hn Hm -> ->. unfold field. pose proof (pow2_pos lo). pose proof (pow2_pos n).
  pose proof (pow2_pos m).
  rewrite !Z.pow_add_r, <- Z.div_div, Z.rem_mul_r by lia. lia.
Qed.

Lemma field_low x n : field x 0 n = wrap n x.
Proof. unfold field. rewrite Z.pow_0_r, Z.div_1_r. done. Qed.

(** Disjoint parts. *)
Lemma lor_add_mult x y k : 0 <= k -> x mod 2 ^ k = 0 -> in_u k y -> Z.lor x y = x + y.
Proof.
  intros Hk Hx Hy. rewrite (Z.div_mod x (2 ^ k)), Hx, Z.add_0_r, Z.mul_comm by (pose proof (pow2_pos k); lia).
  by apply lor_add_shifted.
Qed.

Lemma sext_field_imm k x : 0 < k <= 32 -> in_s k x -> u32 (SEXT (wrap k x) k) = u32 x.
Proof.
  intros Hk Hx. unfold SEXT. rewrite wrap_wrap_le, sext_wrap_same, sext_small by (lia || done). done.
Qed.

Section Imm.
Context (f7 rs2 rs1 f3 rd op imm : Z).
Context (H7 : in_u 7 f7) (H2 : in_u 5 rs2) (H1 : in_u 5 rs1) (H3 : in_u 3 f3) (Hd : in_u 5 rd) (Ho : in_u 7 op).

Lemma immI_mkword : in_s 12 imm ->
  immI (mkword (field imm 5 7) (field imm 0 5) rs1 f3 rd op) = u32 imm.
Proof using H1 H3 Hd Ho.
  clear H7 H2. intros Hi. unfold immI. rewrite BITS_field, mkword_31_20 by (lia || fields_in).
  rewrite (field_join imm 0 5 7 5 12), field_low by lia.
  by apply sext_field_imm.
Qed.

Lemma immU_mkword : in_s 20 imm ->
  immU (mkword (field imm 13 7) (field imm 8 5) (field imm 3 5) (field imm 0 3) rd op) = u32 (imm * 2 ^ 12).
Proof using Hd Ho.
  clear H7 H2 H1 H3. intros Hi. unfold immU. rewrite BITS_field, mkword_31_12 by (lia || fields_in).
  rewrite (field_join imm 0 3 5 3 8), (field_join imm 0 8 5 8 13), (field_join imm 0 13 7 13 20), field_low by lia.
  rewrite wrap_wrap_le, Z.shiftl_mul_pow2 by lia. unfold SEXT.
  rewrite <- wrap_mul_l, (wrap_wrap_le 32 64), wrap_mul_l, sext_wrap_same, sext_small by (lia || done). done.
Qed.

Lemma immS_mkword : in_s 12 imm ->
  immS (mkword (field imm 5 7) rs2 rs1 f3 (field imm 0 5) op) = u32 imm.
Proof using H2 H1 H3 Ho.
  clear H7 Hd. intros Hi. unfold immS. rewrite !BITS_field, mkword_f7, mkword_rd by (lia || fields_in).
  assert (sext 7 (field imm 5 7) = imm / 2 ^ 5) as E.
  { unfold field. change ((imm / 2 ^ 5) mod 2 ^ 7) with (wrap 7 (imm / 2 ^ 5)).
    rewrite sext_wrap_same, sext_small by (lia || word_lia). done. }
  unfold SEXT. rewrite E, Z.shiftl_mul_pow2 by lia.
  rewrite wrap_mul_l.
  replace (u64 (imm / 2 ^ 5 * 2 ^ 5)) with (wrap 59 (imm / 2 ^ 5) * 2 ^ 5)
    by (unfold wrap; word_lia).
  rewrite lor_add_shifted by (lia || fields_in). unfold in_s in *. unfold field. word_lia.
Qed.

Lemma immB_mkword : in_s 13 imm -> imm mod 2 = 0 ->
  immB (mkword (field imm 12 1 * 2 ^ 6 + field imm 5 6) rs2 rs1 f3
               (field imm 1 4 * 2 + field imm 11 1) op) = u32 imm.
Proof using H2 H1 H3 Ho.
  clear H7 Hd. intros Hi He. unfold immB.
  rewrite !BITS_field, mkword_31, mkword_7, mkword_30_25, mkword_11_8 by (lia || fields_in).
  pose proof (field_range imm 12 1). pose proof (field_range imm 5 6).
  pose proof (field_range imm 11 1). pose proof (field_range imm 1 4). unfold in_u in *.
  rewrite Z.div_add_l, (Z.div_small (field imm 5 6)), Z.add_0_r by lia.
  replace ((field imm 1 4 * 2 + field imm 11 1) mod 2) with (field imm 11 1) by word_lia.
  replace ((field imm 12 1 * 2 ^ 6 + field imm 5 6) mod 2 ^ 6) with (field imm 5 6) by word_lia.
  replace ((field imm 1 4 * 2 + field imm 11 1) / 2) with (field imm 1 4) by word_lia.
  rewrite !Z.shiftl_mul_pow2 by lia.
  rewrite <- (sext_field_imm 13 imm) by (lia || done). do 2 f_equal.
  rewrite <- (field_low imm 13), <- (field_join imm 0 12 1 12 13), <- (field_join imm 0 11 1 11 12),
    <- (field_join imm 0 5 6 5 11), <- (field_join imm 0 1 4 1 5), (field_low imm 1) by lia.
  unfold wrap. change (2 ^ 1) with 2. rewrite He. cbn [Z.add].
  rewrite (lor_add_mult (field imm 12 1 * 2 ^ 12) _ 12) by (unfold in_u; word_lia).
  rewrite (lor_add_mult (_ + _) (_ * 2 ^ 5) 11) by (unfold in_u; word_lia).
  rewrite (lor_add_mult (_ + _ + _) _ 5) by (unfold in_u; word_lia).
  lia.
Qed.

Lemma immJ_mkword : in_s 21 imm -> imm mod 2 = 0 ->
  immJ (mkword (field imm 20 1 * 2 ^ 6 + field imm 5 6) (field imm 1 4 * 2 + field imm 11 1)
               (field imm 15 5) (field imm 12 3) rd op) = u32 imm.
Proof using Hd Ho.
  clear H7 H2 H1 H3. intros Hi He. unfold immJ.
  rewrite !BITS_field, mkword_31, mkword_19_12, mkword_20, mkword_30_21 by (lia || fields_in).
  pose proof (field_range imm 20 1). pose proof (field_range imm 5 6).
  pose proof (field_range imm 11 1). pose proof (field_range imm 1 4).
  pose proof (field_range imm 12 8). unfold in_u in *.
  rewrite Z.div_add_l, (Z.div_small (field imm 5 6)), Z.add_0_r by lia.
  replace ((field imm 1 4 * 2 + field imm 11 1) mod 2) with (field imm 11 1) by word_lia.
  replace ((field imm 20 1 * 2 ^ 6 + field imm 5 6) mod 2 ^ 6) with (field imm 5 6) by word_lia.
  replace ((field imm 1 4 * 2 + field imm 11 1) / 2) with (field imm 1 4) by word_lia.
  rewrite (field_join imm 12 3 5 15 8), (field_join imm 1 4 6 5 10), !Z.shiftl_mul_pow2 by lia.
  pose proof (field_range imm 1 10). unfold in_u in *.
  rewrite <- (sext_field_imm 21 imm) by (lia || done). do 2 f_equal.
  rewrite <- (field_low imm 21), <- (field_join imm 0 20 1 20 21), <- (field_join imm 0 12 8 12 20),
    <- (field_join imm 0 11 1 11 12), <- (field_join imm 0 1 10 1 11), (field_low imm 1) by lia.
  unfold wrap. change (2 ^ 1) with 2. rewrite He. cbn [Z.add].
  rewrite (lor_add_mult (field imm 20 1 * 2 ^ 20) _ 20) by (unfold in_u; word_lia).
  rewrite (lor_add_mult (_ + _) (_ * 2 ^ 11) 12) by (unfold in_u; word_lia).
  rewrite (lor_add_mult (_ + _ + _) _ 11) by (unfold in_u; word_lia).
  lia.
Qed.
End Imm.

(** The immediate decoded from an encoded instruction. *)
Lemma imm_encode n rd rs1 rs2 imm :
  n <> i_inv -> regs_in rd rs1 rs2 -> imm_ok n imm ->
  imm_field (type_of n) (encode n rd rs1 rs2 imm) = imm_value n imm.
Proof.
  intros Hn (Hd & H1 & H2) Hi. unfold encode, imm_value. unfold imm_ok in Hi.
  destruct (whole_word n) eqn:Hw; [destruct n; done|].
  destruct (type_of n) eqn:Ht; cbn [imm_field].
  - destruct (is_shift_imm n) eqn:Es; [|apply immI_mkword; fields_in; done].
    unfold immI. rewrite BITS_field, mkword_31_20 by (lia || fields_in).
    unfold SEXT. rewrite sext_small; [| lia |].
    + rewrite (wrap_wrap_le 32 64) by lia. destruct n; try done; cbn [funct7 default from_option id] in *; unfold id in *; word_lia.
    + destruct n; try done; cbn [funct7 default from_option id] in *; unfold id in *; word_lia.
  - apply immU_mkword; fields_in; done.
  - apply immS_mkword; fields_in; done.
  - destruct Hi. apply immJ_mkword; fields_in; done.
  - destruct Hi. apply immB_mkword; fields_in; done.
  - done.
  - done.
Qed.

Lemma shamt_value n imm :
  is_shift_imm n = true -> in_u 5 imm -> BITS (imm_value n imm) 4 0 = imm.
Proof.
  intros Hs Hi. rewrite BITS_field, field_low by lia.
  destruct n; try discriminate Hs; cbn [imm_value type_of opcode Z.eqb Pos.eqb is_shift_imm funct7 default from_option];
    unfold id; word_lia.
Qed.

(** The operands of [n] in a CPU state. *)
Definition operands_of `{Config} (n : iname) (c : riscv32_CPU_state) (rd rs1 rs2 imm : Z) (w : Z) : operands :=
  {| Riscv32.rd := if has_rd n then rd else BITS w 11 7;
     src1 := if has_rs1 n then gpr_at c rs1 else 0;
     src2 := if has_rs2 n then gpr_at c rs2 else 0;
     Riscv32.imm := imm_value n imm |}.

Section DecodeEncode.
Context `{Config}.
Context (n : iname) (rd rs1 rs2 imm : Z).
Context (Hn : n <> i_inv) (Hr : regs_in rd rs1 rs2) (Hi : imm_ok n imm).
Context (H1 : rs1 < NR_GPR) (H2 : rs2 < NR_GPR).
Context (s : RDecode) (st : nemu riscv32_CPU_state).
Context (Hs : inst (Decode.isa s) = encode n rd rs1 rs2 imm) (Hc : gprs_ok (cpu st)).

Lemma decode_operand_encode :
  decode_operand s (type_of n) st =
  Ok (operands_of n (cpu st) rd rs1 rs2 imm (inst (Decode.isa s)), st).
Proof using All.
  destruct (encode_regs n rd rs1 rs2 imm Hn Hr Hi) as (Ed & E1 & E2).
  pose proof (imm_encode n rd rs1 rs2 imm Hn Hr Hi) as Ei.
  destruct Hr as (Rd & R1 & R2).
  assert (R_get rs1 st = Ok (gpr_at (cpu st) rs1, st)) as G1
    by (apply R_get_run; [done|split; [apply R1|exact H1]]).
  assert (R_get rs2 st = Ok (gpr_at (cpu st) rs2, st)) as G2
    by (apply R_get_run; [done|split; [apply R2|exact H2]]).
  unfold decode_operand, operands_of. unfold has_rd, has_rs1, has_rs2 in *. rewrite Hs.
  destruct (type_of n); cbn [imm_field] in Ei;
    rewrite ?E1, ?E2, ?Ed by done; rewrite ?(bind_run _ _ _ _ _ G1), ?(bind_run _ _ _ _ _ G2);
    rewrite Ei; try reflexivity.
Qed.

(** Running an encoded instruction is running the body of its INSTPAT line on
    its operands, and resetting $zero. *)
Lemma decode_exec_encode :
  decode_exec s st =
  (s' ← exec_body n {s with Decode.dnpc := Decode.snpc s}
          (operands_of n (cpu st) rd rs1 rs2 imm (encode n rd rs1 rs2 imm));
   R_set 0 0 ;; mret s') st.
Proof using All.
  unfold decode_exec. cbv zeta.
  change (Decode.isa {s with Decode.dnpc := Decode.snpc s}) with (Decode.isa s).
  destruct (decode_class (inst (Decode.isa s))) as (m & Em & Hm).
  { rewrite Hs. by apply encode_range. }
  destruct (proj1 (Hm n)) as [E _]; [rewrite Hs; by apply encode_form|]. rewrite <- E in Em.
  rewrite Em. run_simpl.
  change (decode_operand {s with Decode.dnpc := Decode.snpc s}) with (decode_operand s).
  rewrite decode_operand_encode, Hs. reflexivity.
Qed.
End DecodeEncode.
