(* ===== verification/Riscv32Safety.v ===== *)
(** * Safety of the riscv32 interpreter

    The CPU invariant: the register file has its length and word-sized
    registers, $zero is 0, pc and the CSRs are words.  [isa_exec_once] never
    reaches undefined behaviour (an access outside the register file, a memory array or the
    space of the devices, or a division C leaves undefined) from a state that satisfies it,
    and keeps it. *)
From S2P Require Import Prelude Outcome Bytes Config CommitEvent CommitRing Machine PhysMem Devices IoMap.
From S2P Require Import Vaddr Pattern Isa Riscv32 Riscv32Decode.

Section Invariant.
Context `{Config}.

(** Everything but $zero, which an instruction may write before it is reset. *)
Record words_ok (c : riscv32_CPU_state) : Prop := {
  ok_gprs : gprs_ok c;
  ok_pc : in_u 32 (pc c);
  ok_mtvec : in_u 32 (mtvec c);
  ok_mepc : in_u 32 (mepc c);
  ok_mcause : in_u 32 (mcause c);
  ok_mstatus : in_u 32 (mstatus c);
}.
Definition cpu_ok (c : riscv32_CPU_state) : Prop := words_ok c /\ gpr_at c 0 = 0.
(** The emulator while it runs an instruction. *)
Definition good (s : nemu riscv32_CPU_state) : Prop := words_ok (cpu s) /\ io_fits s.

Record decode_ok (d : RDecode) : Prop := {
  ok_dpc : in_u 32 (Decode.pc d);
  ok_snpc : in_u 32 (Decode.snpc d);
  ok_dnpc : in_u 32 (Decode.dnpc d);
}.

Lemma NR_GPR_cases : NR_GPR = 16 \/ NR_GPR = 32.
Proof using Type. unfold NR_GPR. destruct CONFIG_RVE; auto. Qed.

Lemma cpu_init_ok : cpu_ok cpu_init.
Proof using Type.
  unfold cpu_init. split; [split; cbn; try (unfold in_u; lia)|].
  - unfold gprs_ok, nr_gpr. cbn [gprs riscv32_GprFile gpr]. rewrite length_replicate.
    split; [destruct NR_GPR_cases; cbn; lia|]. apply Forall_replicate. unfold in_u. lia.
  - unfold gpr_at. cbn [gprs riscv32_GprFile gpr]. by destruct NR_GPR_cases as [-> | ->].
Qed.
End Invariant.

(** ** Division *)

(** Signed division rounds towards zero; the two exceptional cases. *)
Definition div_spec (x y : Z) : Z := if y =? 0 then -1 else if (x =? - 2 ^ 31) && (y =? -1) then x else Z.quot x y.
Definition rem_spec (x y : Z) : Z := if y =? 0 then x else if (x =? - 2 ^ 31) && (y =? -1) then 0 else Z.rem x y.

Lemma s32_eqb a c : in_u 32 a -> in_s 32 c -> (a =? u32 c) = (s32 a =? c).
Proof.
  intros Ha Hc. apply eq_true_iff_eq. rewrite !Z.eqb_eq. split.
  - intros ->. rewrite sext_wrap_same, sext_small by (lia || done). done.
  - intros <-. rewrite wrap_sext, wrap_small by (lia || done). done.
Qed.

Lemma s32_zero b : in_u 32 b -> (b =? 0) = (s32 b =? 0).
Proof. intros Hb. apply (s32_eqb b 0 Hb). unfold in_s. lia. Qed.

Lemma s32_overflow a b :
  in_u 32 a -> in_u 32 b ->
  (a =? 0x80000000) && (b =? u32 (-1)) = (s32 a =? - 2 ^ 31) && (s32 b =? -1).
Proof.
  intros Ha Hb. rewrite <- (s32_eqb b (-1)), <- (s32_eqb a (- 2 ^ 31)) by (done || unfold in_s; lia). done.
Qed.

(** The guards of the code keep every division defined. *)
Lemma div_s32 a b : in_u 32 a -> in_u 32 b -> div a b = Ok (u32 (div_spec (s32 a) (s32 b))).
Proof.
  intros Ha Hb. unfold div, div_spec, c_div, c_division. rewrite s32_zero, s32_overflow by done.
  case_match; [done|]. case_match; [|done]. rewrite wrap_sext, wrap_small by (lia || done). done.
Qed.

Lemma rem_s32 a b : in_u 32 a -> in_u 32 b -> rem a b = Ok (u32 (rem_spec (s32 a) (s32 b))).
Proof.
  intros Ha Hb. unfold rem, rem_spec, c_rem, c_division. rewrite s32_zero, s32_overflow by done.
  case_match; [|case_match; done]. rewrite wrap_sext, wrap_small by (lia || done). done.
Qed.

Lemma divu_u32 a b : in_u 32 a -> in_u 32 b -> divu a b = Ok (if b =? 0 then 2 ^ 32 - 1 else a / b).
Proof.
  unfold in_u. intros Ha Hb. unfold divu, c_div, c_division. destruct (Z.eqb_spec b 0); [done|].
  rewrite (proj2 (Z.eqb_neq b (-1))), andb_false_r, Z.quot_div_nonneg by lia. done.
Qed.
Lemma remu_u32 a b : in_u 32 a -> in_u 32 b -> remu a b = Ok (if b =? 0 then a else a mod b).
Proof.
  unfold in_u. intros Ha Hb. unfold remu, c_rem, c_division. destruct (Z.eqb_spec b 0); [done|].
  rewrite (proj2 (Z.eqb_neq b (-1))), andb_false_r, Z.rem_mod_nonneg by lia. done.
Qed.

(** ** Fields of a fetched word *)
Lemma BITS_range x hi lo : 0 <= lo <= hi -> hi - lo < 63 -> in_u (hi - lo + 1) (BITS x hi lo).
Proof. intros. rewrite BITS_field by lia. apply field_range. lia. Qed.

Lemma imm_field_range t i : in_u 32 (imm_field t i).
Proof.
  destruct t; cbn [imm_field]; unfold immI, immU, immS, immJ, immB;
    try (apply wrap_range; lia); unfold in_u; lia.
Qed.

Section Safety.
Context `{Config}.
Context (Hcfg : config_ok = true).
(** [cpu.gpr] is never indexed outside its bounds: either there are 32
    registers, or indices are checked. *)
Context (Hreg : CONFIG_RT_CHECK = true \/ CONFIG_RVE = false).
Implicit Types s : nemu riscv32_CPU_state.
Implicit Types d : RDecode.

Lemma wp_R_get i s :
  0 <= i < 32 -> good s -> wp (R_get i) (fun v s' => s' = s /\ in_u 32 v) s.
Proof using Hreg.
  intros Hi [Hok Hio]. destruct (Z.ltb_spec i NR_GPR).
  - eapply wp_run; [apply R_get_run; [apply Hok|cbn; lia]|]. split; [done|]. apply gpr_at_range, Hok.
  - destruct Hreg as [Hc|Hc]; [|unfold NR_GPR in *; rewrite Hc in *; lia].
    unfold R_get, check_reg_idx. rewrite Hc. unfold when.
    apply wp_bind, wp_bind, wp_assert. rewrite (proj2 (Z.ltb_ge i _)) by (cbn; lia).
    rewrite andb_false_r. done.
Qed.

Lemma words_ok_gprs l c :
  words_ok c -> Z.of_nat (length l) = NR_GPR -> Forall (in_u 32) l -> words_ok {c with gpr := l}.
Proof using Type. intros [] Hl Hf. split; try done. Qed.

Lemma words_ok_upd i v c : words_ok c -> words_ok (upd_gpr i v c).
Proof using Type.
  intros Hok. pose proof (upd_gpr_ok i v c (ok_gprs _ Hok)) as Hg. destruct Hok. split; assumption.
Qed.

Lemma wp_R_set i v s :
  0 <= i < 32 -> good s ->
  wp (R_set i v) (fun _ s' => good s' /\ s' = with_cpu (upd_gpr i v (cpu s)) s) s.
Proof using Hreg.
  intros Hi [Hok Hio]. destruct (Z.ltb_spec i NR_GPR).
  - eapply wp_run; [apply R_set_run; [apply Hok|cbn; lia]|]. split; [|done].
    split; [rewrite cpu_with_cpu; by apply words_ok_upd|done].
  - destruct Hreg as [Hc|Hc]; [|unfold NR_GPR in *; rewrite Hc in *; lia].
    unfold R_set, check_reg_idx. rewrite Hc. unfold when.
    apply wp_bind, wp_bind, wp_assert. rewrite (proj2 (Z.ltb_ge i _)) by (cbn; lia).
    rewrite andb_false_r. done.
Qed.

(** The operations that leave the CPU alone. *)
Lemma wp_framed {A} (m : M riscv32_CPU_state A) s :
  respects (keeps frame_of) m -> safe io_fits m -> good s -> wp m (fun _ s' => good s') s.
Proof using Type.
  intros Hr Hs [Hok Hio]. eapply wp_mono; [by eapply wp_respects; [exact Hr|apply Hs]|].
  intros a s' [Hio' Hk]. apply (f_equal (fr_cpu _)) in Hk. cbn in Hk. split; [by rewrite Hk|done].
Qed.

Lemma wp_modify_cpu f s (Q : unit -> nemu riscv32_CPU_state -> Prop) :
  Q tt (with_cpu (f (cpu s)) s) -> wp (modify_cpu f) Q s.
Proof using Type. done. Qed.

Lemma wp_raise_intr NO epc s :
  in_u 32 NO -> in_u 32 epc -> good s ->
  wp (isa_raise_intr NO epc) (fun v s' => good s' /\ in_u 32 v) s.
Proof using Type.
  intros Hn He [Hok Hio]. unfold isa_raise_intr.
  apply wp_bind, wp_modify_cpu, wp_bind, wp_modify_cpu, wp_bind, wp_gets, wp_ret.
  rewrite !cpu_with_cpu. destruct Hok. split; [|done]. split; [rewrite cpu_with_cpu; split; done|done].
Qed.

Lemma wp_INV p s : in_u 32 p -> good s -> wp (INV p) (fun _ s' => good s') s.
Proof using Hcfg. intros Hp. apply wp_framed; [eauto with respects|by apply safe_invalid]. Qed.

Lemma wp_csr_read addr s :
  good s -> wp (csr_read addr) (fun v s' => good s' /\ in_u 32 v) s.
Proof using Hcfg.
  intros Hok. unfold csr_read. apply wp_bind, wp_gets. pose proof (proj1 Hok) as [].
  repeat case_match; try (apply wp_ret; split; [done|first [done|unfold in_u; lia]]).
  eapply wp_bind_with; [by apply wp_INV|]. intros ? s' Hs. apply wp_ret. split; [done|].
  unfold in_u; lia.
Qed.

Lemma wp_csr_write addr v s :
  in_u 32 v -> good s -> wp (csr_write addr v) (fun _ s' => good s') s.
Proof using Hcfg.
  intros Hv [Hok Hio]. unfold csr_write. pose proof Hok as [].
  assert (in_u 32 (Z.land v (u32 (Z.lnot 3)))) by (apply land_in_u; [lia|done]).
  repeat case_match; try (apply wp_modify_cpu; split; [rewrite cpu_with_cpu; split; first [done|unfold in_u; lia]|done]).
  apply wp_bind, wp_gets. by apply wp_INV.
Qed.

(** ** Instruction bodies *)

(** What a body may change in the [Decode] record. *)
Definition body_post d : RDecode -> nemu riscv32_CPU_state -> Prop := fun d' s' =>
  good s' /\ decode_ok d' /\ Decode.pc d' = Decode.pc d /\ Decode.isa d' = Decode.isa d
  /\ Decode.snpc d' = Decode.snpc d.

Record operands_ok (o : operands) : Prop := {
  ok_rd : 0 <= rd o < 32; ok_src1 : in_u 32 (src1 o); ok_src2 : in_u 32 (src2 o); ok_imm : in_u 32 (imm o);
}.

Lemma body_ret d d' s :
  good s -> decode_ok d' -> Decode.pc d' = Decode.pc d -> Decode.isa d' = Decode.isa d ->
  Decode.snpc d' = Decode.snpc d ->
  wp (mret d') (body_post d) s.
Proof using Type. intros. apply wp_ret. by unfold body_post. Qed.

Lemma body_W i v d d' s :
  0 <= i < 32 -> good s -> decode_ok d' -> Decode.pc d' = Decode.pc d ->
  Decode.isa d' = Decode.isa d -> Decode.snpc d' = Decode.snpc d ->
  wp (R_set i v ;; mret d') (body_post d) s.
Proof using Hreg.
  intros. eapply wp_bind_with; [by apply wp_R_set|]. intros ? s' [Hs _]. by apply body_ret.
Qed.

Lemma decode_ok_dnpc d v : decode_ok d -> in_u 32 v -> decode_ok {d with Decode.dnpc := v}.
Proof using Type. intros [] Hv. split; done. Qed.

Lemma body_raise d c s :
  decode_ok d -> in_u 32 c -> good s -> wp (raise_sync_exception d c) (body_post d) s.
Proof using Type.
  intros Hd Hc Hok. unfold raise_sync_exception.
  eapply wp_bind_with; [apply wp_raise_intr; [done|apply Hd|done]|]. intros v s' [Hs Hv].
  apply body_ret; try done. destruct Hd. split; done.
Qed.

Lemma body_load d o len ext s :
  decode_ok d -> operands_ok o -> good s -> wp (load d o len ext) (body_post d) s.
Proof using Hcfg Hreg.
  intros Hd Ho Hok. unfold load. case_match; [|apply body_raise; [done|unfold in_u; lia|done]].
  eapply wp_bind_with; [apply wp_framed; [apply framed_paddr_read|apply (safe_paddr_read Hcfg); by apply wrap_range|done]|].
  intros v s' Hs. apply body_W; try done. apply Ho.
Qed.

Lemma body_store d o len s :
  decode_ok d -> operands_ok o -> good s -> wp (store d o len) (body_post d) s.
Proof using Hcfg.
  intros Hd Ho Hok. unfold store. case_match; [|apply body_raise; [done|unfold in_u; lia|done]].
  eapply wp_bind_with; [apply wp_framed; [apply framed_paddr_write|apply (safe_paddr_write Hcfg); by apply wrap_range|done]|].
  intros v s' Hs. by apply body_ret.
Qed.

Lemma body_branch d o b s :
  decode_ok d -> good s -> wp (branch d o b) (body_post d) s.
Proof using Type.
  intros Hd Hok. unfold branch. destruct b; [|by apply body_ret].
  apply body_ret; try done. apply decode_ok_dnpc; [done|]. by apply wrap_range.
Qed.

Lemma body_csr d o wr f s :
  decode_ok d -> operands_ok o -> good s -> (forall t, in_u 32 t -> in_u 32 (f t)) ->
  wp (csr_op d o wr f) (body_post d) s.
Proof using Hcfg Hreg.
  intros Hd Ho Hok Hf. unfold csr_op.
  eapply wp_bind_with; [by apply wp_csr_read|]. intros t s' [Hs Ht].
  apply (wp_bind_with _ _ (fun _ s' => good s')).
  - apply wp_when; [|done]. intros _. by apply wp_csr_write; [apply Hf|].
  - intros ? s2 Hs2. apply body_W; try done. apply Ho.
Qed.

Lemma body_division i d o v s :
  o = Ok v -> 0 <= i < 32 -> good s -> decode_ok d -> wp (x ← lift o; R_set i x ;; mret d) (body_post d) s.
Proof using Hreg. intros -> Hi Hs Hd. apply wp_bind. change (wp (R_set i v ;; mret d) (body_post d) s). by apply body_W. Qed.

Lemma exec_body_safe n d o s :
  decode_ok d -> operands_ok o -> good s -> wp (exec_body n d o) (body_post d) s.
Proof using Hcfg Hreg.
  intros Hd Ho Hok. pose proof Ho as [Hrd Ha Hb Hi].
  assert (in_u 32 (BITS (inst (Decode.isa d)) 19 15)) as Hz.
  { pose proof (BITS_range (inst (Decode.isa d)) 19 15). unfold in_u in *. lia. }
  destruct n; cbn [exec_body];
    lazymatch goal with
    | |- wp (load _ _ _ _) _ _ => by apply body_load
    | |- wp (store _ _ _) _ _ => by apply body_store
    | |- wp (branch _ _ _) _ _ => by apply body_branch
    | |- wp (csr_op _ _ _ _) _ _ =>
        apply body_csr; [done..|intros t Ht; first [done | by apply land_in_u; [lia|] | by apply lor_in_u; [lia|..] | by apply wrap_range]]
    | |- wp (R_set _ _ ;; mret d) _ _ => apply body_W; done
    | |- wp (_ ← lift _; _) _ _ =>
        eapply body_division; [first [by apply div_s32 | by apply divu_u32 | by apply rem_s32 | by apply remu_u32]|done..]
    | |- _ => idtac
    end.
  - apply body_W; try done. apply decode_ok_dnpc; [done|]. by apply wrap_range.
  - apply body_W; try done. apply decode_ok_dnpc; [done|]. apply land_in_u; [lia|]. by apply wrap_range.
  - eapply wp_bind_with; [apply wp_raise_intr; [unfold in_u; lia|apply Hd|done]|]. intros v s' [Hs Hv].
    apply body_ret; try done. by apply decode_ok_dnpc.
  - apply wp_bind, wp_gets. apply body_ret; try done. apply decode_ok_dnpc; [done|]. apply (proj1 Hok).
  - eapply wp_bind_with; [apply wp_R_get; [lia|done]|]. intros a0 s' [-> Ha0].
    eapply wp_bind_with; [apply wp_framed; [apply framed_set_state|apply safe_set_state|done]|].
    intros ? s' Hs. by apply body_ret.
  - eapply wp_bind_with; [apply wp_INV; [apply Hd|done]|]. intros ? s' Hs. by apply body_ret.
Qed.

Lemma decode_operand_safe d t s :
  good s -> wp (decode_operand d t) (fun o s' => s' = s /\ operands_ok o) s.
Proof using Hreg.
  intros Hok. set (i := inst (Decode.isa d)).
  assert (forall k hi lo, 0 <= lo -> hi = lo + 4 -> k = BITS i hi lo -> 0 <= k < 32) as Hb.
  { intros k hi lo Hlo -> ->. pose proof (BITS_range i (lo + 4) lo ltac:(lia) ltac:(lia)).
    unfold in_u in *. by replace (lo + 4 - lo + 1) with 5 in * by lia. }
  pose proof (imm_field_range t i) as Him.
  assert (in_u 32 0) by (unfold in_u; lia).
  unfold decode_operand. fold i.
  destruct t; cbn [imm_field] in Him;
    repeat first
      [ apply wp_ret; split; [done|split; try done; by eapply (Hb _ 11 7)]
      | eapply wp_bind_with;
        [apply wp_R_get; [first [by eapply (Hb _ 19 15) | by eapply (Hb _ 24 20)]|done]|];
        intros ? ? [-> ?] ].
Qed.

(** ** The interpreter *)

(** Outcome of one instruction: the invariants of the CPU and of the windows, and the next pc. *)
Definition exec_post d : RDecode -> nemu riscv32_CPU_state -> Prop := fun d' s' =>
  cpu_ok (cpu s') /\ io_fits s' /\ decode_ok d' /\ Decode.pc d' = Decode.pc d.

Lemma with_gpr_zero_ok c : words_ok c -> cpu_ok (upd_gpr 0 0 c).
Proof using Type.
  intros Hok. split; [by apply words_ok_upd|].
  rewrite gpr_at_upd; [done|apply Hok|cbn; destruct NR_GPR_cases; lia|lia].
Qed.

Lemma decode_exec_safe d s :
  decode_ok d -> good s -> wp (decode_exec d) (exec_post d) s.
Proof using Hcfg Hreg.
  intros Hd Hok. unfold decode_exec.
  set (d0 := {d with Decode.dnpc := Decode.snpc d}).
  assert (decode_ok d0) as Hd0 by (apply decode_ok_dnpc; [done|apply Hd]).
  apply (wp_bind_with _ _ (fun _ s' => s' = s)).
  { unfold wp, lift. rewrite (instpat_compile _ _ _ rv_pats_ok). done. }
  intros m ? ->. apply (wp_bind_with _ _ (body_post d0)).
  - destruct m as [[n t]|]; [|by apply body_ret].
    eapply wp_bind_with; [by apply decode_operand_safe|]. intros o ? [-> Ho].
    by apply exec_body_safe.
  - intros d' s' (Hs & Hd' & Hp & _). eapply wp_bind_with; [apply wp_R_set; [lia|done]|].
    intros ? s2 [_ ->]. apply wp_ret. unfold exec_post. rewrite cpu_with_cpu. split; [apply with_gpr_zero_ok, Hs|].
    split; [apply Hs|]. split; [done|]. by rewrite Hp.
Qed.

Lemma isa_exec_once_safe d s :
  decode_ok d -> cpu_ok (cpu s) -> io_fits s -> wp (isa_exec_once d) (exec_post d) s.
Proof using Hcfg Hreg.
  intros Hd [Hok H0] Hio. unfold isa_exec_once. case_match.
  - unfold raise_sync_exception, isa_raise_intr.
    apply wp_bind, wp_bind, wp_modify_cpu, wp_bind, wp_modify_cpu, wp_bind, wp_gets, wp_ret, wp_ret.
    rewrite !cpu_with_cpu. destruct Hok, Hd. unfold exec_post. rewrite !cpu_with_cpu.
    split; [split; [split; try done; unfold in_u; cbn; lia|done]|]. split; [done|].
    split; [split; cbn; try done; by apply wrap_range|done].
  - unfold inst_fetch. apply (wp_bind_with _ _ (fun f s' => good s' /\ in_u 32 f.2)).
    + eapply wp_bind_with; [apply wp_framed; [apply framed_paddr_read|apply (safe_paddr_read Hcfg), Hd|by split]|].
      intros i s' Hs. apply wp_ret. split; [done|]. by apply wrap_range.
    + intros [i n] s' [Hs Hn]. cbn [fst snd] in *. eapply wp_mono; [apply decode_exec_safe; [|done]|].
      * destruct Hd. split; done.
      * intros d' s2 (Hc & Hi & Hd' & Hp). by split_and!.
Qed.
End Safety.
