(* ===== verification/Riscv32Sem.v ===== *)
(** * What riscv32 instructions do

    [alu_spec] gives the result of the integer instructions over mathematical
    integers, as the RISC-V manual words it; running the encoded instruction
    writes that result and nothing else.  Loads, stores, jumps and exceptions
    follow. *)
From S2P Require Import Prelude Outcome Bytes Config CommitEvent CommitRing Machine PhysMem Devices IoMap.
From S2P Require Import Vaddr Pattern Isa Riscv32 Riscv32Decode Riscv32Safety Difftest CpuExec CpuTrace.

(** ** Arithmetic of the C expressions *)

Lemma s32_range a : in_s 32 (s32 a).
Proof. apply sext_range. lia. Qed.

Lemma mul_s32_bounds a b : in_s 64 (s32 a * s32 b).
Proof.
  pose proof (s32_range a) as Ha. pose proof (s32_range b) as Hb. unfold in_s in *. cbn in *. nia.
Qed.

(** [mulh] with [mul] is the 64-bit signed product, and so on. *)
Lemma mulh_spec a b : mulh a b = u32 (s32 a * s32 b / 2 ^ 32).
Proof. unfold mulh. rewrite sext_small, Z.shiftr_div_pow2 by (lia || apply mul_s32_bounds). done. Qed.

Lemma mulhu_spec a b : in_u 32 a -> in_u 32 b -> mulhu a b = a * b / 2 ^ 32.
Proof.
  unfold in_u. intros Ha Hb. unfold mulhu. rewrite Z.shiftr_div_pow2 by lia.
  assert (0 <= a * b < 2 ^ 64) by (cbn in *; nia).
  rewrite (wrap_small 64) by done. apply wrap_small. unfold in_u. cbn in *. Z.to_euclidean_division_equations; lia.
Qed.

Lemma mulhsu_spec a b : mulhsu a b = u32 (s32 a * b / 2 ^ 32).
Proof.
  unfold mulhsu. rewrite wrap_mul_l, Z.shiftr_div_pow2 by lia.
  generalize (s32 a * b). intros p. unfold wrap.
  Z.to_euclidean_division_equations; lia.
Qed.

Lemma s32_inj a b : in_u 32 a -> in_u 32 b -> s32 a = s32 b -> a = b.
Proof.
  intros Ha Hb E. rewrite <- (wrap_small 32 a), <- (wrap_small 32 b) by done.
  rewrite <- (wrap_sext 32 a), <- (wrap_sext 32 b), E by lia. done.
Qed.

(** ** The integer instructions *)

Definition bit (b : bool) : Z := if b then 1 else 0.

Definition alu_spec (n : iname) (a b imm pc : Z) : option Z :=
  let m := b mod 32 in
  match n with
  | i_lui => Some (u32 (imm * 2 ^ 12))
  | i_auipc => Some (u32 (pc + imm * 2 ^ 12))
  | i_addi => Some (u32 (a + imm))
  | i_slti => Some (bit (s32 a <? imm))
  | i_sltiu => Some (bit (a <? u32 imm))
  | i_xori => Some (Z.lxor a (u32 imm))
  | i_ori => Some (Z.lor a (u32 imm))
  | i_andi => Some (Z.land a (u32 imm))
  | i_slli => Some (u32 (a * 2 ^ imm))
  | i_srli => Some (a / 2 ^ imm)
  | i_srai => Some (u32 (s32 a / 2 ^ imm))
  | i_add => Some (u32 (a + b))
  | i_sub => Some (u32 (a - b))
  | i_mul => Some (u32 (s32 a * s32 b))
  | i_mulh => Some (u32 (s32 a * s32 b / 2 ^ 32))
  | i_mulhsu => Some (u32 (s32 a * b / 2 ^ 32))
  | i_mulhu => Some (a * b / 2 ^ 32)
  | i_div => Some (u32 (div_spec (s32 a) (s32 b)))
  | i_divu => Some (if b =? 0 then 2 ^ 32 - 1 else a / b)
  | i_rem => Some (u32 (rem_spec (s32 a) (s32 b)))
  | i_remu => Some (if b =? 0 then a else a mod b)
  | i_sll => Some (u32 (a * 2 ^ m))
  | i_srl => Some (a / 2 ^ m)
  | i_sra => Some (u32 (s32 a / 2 ^ m))
  | i_slt => Some (bit (s32 a <? s32 b))
  | i_sltu => Some (bit (a <? b))
  | i_xor => Some (Z.lxor a b)
  | i_or => Some (Z.lor a b)
  | i_and => Some (Z.land a b)
  | _ => None
  end.

Lemma shamt_reg b : in_u 32 b -> BITS b 4 0 = b mod 32.
Proof. intros _. rewrite BITS_field, field_low by lia. done. Qed.

Lemma mul_low a b : u32 (a * b) = u32 (s32 a * s32 b).
Proof.
  rewrite <- (wrap_mul_l 32 (s32 a)), <- (wrap_mul_r 32 _ (s32 b)), !wrap_sext by lia.
  by rewrite wrap_mul_l, wrap_mul_r.
Qed.

Lemma in_s_mono k w x : 0 < k <= w -> in_s k x -> in_s w x.
Proof.
  unfold in_s. intros Hk Hx. pose proof (Z.pow_le_mono_r 2 (k - 1) (w - 1)). lia.
Qed.

Section Alu.
Context `{Config}.
Context (Hreg : CONFIG_RT_CHECK = true \/ CONFIG_RVE = false).
Context (n : iname) (rd rs1 rs2 imm : Z).
Context (Hn : n <> i_inv) (Hr : regs_in rd rs1 rs2) (Hi : imm_ok n imm).
Context (Hd : rd < NR_GPR) (H1 : rs1 < NR_GPR) (H2 : rs2 < NR_GPR).
Context (d : RDecode) (s : nemu riscv32_CPU_state).
Context (Hw : inst (Decode.isa d) = encode n rd rs1 rs2 imm) (Hc : cpu_ok (cpu s)).

Abbreviation a := (gpr_at (cpu s) rs1).
Abbreviation b := (gpr_at (cpu s) rs2).
Abbreviation ops := (operands_of n (cpu s) rd rs1 rs2 imm (encode n rd rs1 rs2 imm)).

Lemma alu_body v d' s' :
  alu_spec n a b imm (Decode.pc d') = Some v ->
  exec_body n d' ops s' = (R_set rd v ;; mret d') s'.
Proof using Hc Hi.
  clear Hw Hn d. assert (in_u 32 a) as Ha by (apply gpr_at_range, Hc). assert (in_u 32 b) as Hb by (apply gpr_at_range, Hc).
  assert (E : forall x y, u32 x = u32 y -> (R_set rd x ;; mret d') s' = (R_set rd y ;; mret d') s').
  { intros x y E. unfold R_set. by rewrite E. }
  pose proof (shamt_value n imm) as Hsh.
  pose proof (shamt_reg b Hb) as Hbb.
  assert (is_shift_imm n = true -> 0 <= imm) as Hnn.
  { intros Es. pose proof Hi as Hi'. destruct n; try discriminate Es; apply Hi'. }
  destruct n; cbn [alu_spec]; intros [= <-]; cbn [exec_body];
    cbn [operands_of Riscv32.rd src1 src2 Riscv32.imm has_rd has_rs1 has_rs2 type_of opcode Z.eqb Pos.eqb];
    rewrite ?Hbb; try (rewrite Hsh by (done || exact Hi));
    try (lazymatch goal with |- (lift _ ≫= _) _ = _ => rewrite ?div_s32, ?rem_s32, ?divu_u32, ?remu_u32 by done; reflexivity end);
    apply E; cbn [imm_value type_of opcode Z.eqb Pos.eqb is_shift_imm];
    rewrite ?wrap_wrap, ?wrap_add_r; try reflexivity.
  - unfold slt. do 3 f_equal. rewrite sext_wrap_same by lia. apply sext_small; [lia|].
    apply (in_s_mono 12); [lia|exact Hi].
  - unfold sll. by rewrite wrap_wrap, Z.shiftl_mul_pow2 by exact (Hnn eq_refl).
  - unfold srl. by rewrite Z.shiftr_div_pow2 by exact (Hnn eq_refl).
  - unfold sra. rewrite wrap_wrap. by rewrite Z.shiftr_div_pow2 by exact (Hnn eq_refl).
  - apply mul_low.
  - by rewrite mulh_spec, wrap_wrap.
  - by rewrite mulhsu_spec, wrap_wrap.
  - by rewrite mulhu_spec.
  - unfold sll. rewrite wrap_wrap, Z.shiftl_mul_pow2; [done|]. apply Z.mod_pos_bound. lia.
  - unfold srl. rewrite Z.shiftr_div_pow2; [done|]. apply Z.mod_pos_bound. lia.
  - unfold sra. rewrite wrap_wrap, Z.shiftr_div_pow2; [done|]. apply Z.mod_pos_bound. lia.
Qed.

(** The state after writing [v] to [rd] and resetting $zero. *)
Definition wb_cpu (c : riscv32_CPU_state) (v : Z) : riscv32_CPU_state := upd_gpr 0 0 (upd_gpr rd v c).

Lemma nr_gpr_pos : 0 < NR_GPR.
Proof using Type. destruct NR_GPR_cases; lia. Qed.

Lemma wb_cpu_gpr c v j :
  cpu_ok c -> 0 <= j ->
  gpr_at (wb_cpu c v) j = if decide (j = 0) then 0 else if decide (j = rd) then u32 v else gpr_at c j.
Proof using Hr Hd.
  intros Hok Hj. pose proof nr_gpr_pos. destruct Hr as [[Hrd _] _]. unfold wb_cpu.
  rewrite gpr_at_upd; [|apply words_ok_upd, Hok|cbn; lia|lia].
  destruct (decide (0 = j)), (decide (j = 0)); try lia; [done|].
  rewrite gpr_at_upd; [|apply Hok|cbn; lia|lia].
  destruct (decide (rd = j)), (decide (j = rd)); try lia; done.
Qed.

Lemma wb_run d' s' v :
  cpu_ok (cpu s') ->
  (x ← (R_set rd v ;; mret d' : M riscv32_CPU_state RDecode); R_set 0 0 ;; mret x) s' =
  Ok (d', with_cpu (wb_cpu (cpu s') v) s').
Proof using Hr Hd.
  intros Hok. pose proof nr_gpr_pos. destruct Hr as [[Hrd _] _].
  unfold mbind, st_bind. rewrite R_set_run by (cbn; first [apply Hok|lia]).
  unfold mret at 1, st_ret at 1. rewrite R_set_run by (rewrite ?cpu_with_cpu; cbn; first [apply words_ok_upd, Hok|lia]).
  reflexivity.
Qed.

(** An integer instruction writes its result and falls through. *)
Lemma exec_alu v :
  alu_spec n a b imm (Decode.pc d) = Some v ->
  decode_exec d s = Ok ({d with Decode.dnpc := Decode.snpc d}, with_cpu (wb_cpu (cpu s) v) s).
Proof using All.
  intros Hv. rewrite (decode_exec_encode n rd rs1 rs2 imm Hn Hr Hi H1 H2 d s Hw (ok_gprs _ (proj1 Hc))).
  rewrite <- wb_run by done. unfold mbind, st_bind.
  rewrite (alu_body v); [reflexivity|exact Hv].
Qed.
End Alu.

(** ** Control flow *)

Lemma with_cpu_id {CPU} (s : nemu CPU) : with_cpu (cpu s) s = s.
Proof. by destruct s. Qed.

Section Flow.
Context `{Config}.

(** A register file whose $zero is 0. *)
Definition zero_ok (c : riscv32_CPU_state) : Prop := gprs_ok c /\ gpr_at c 0 = 0.
Lemma cpu_zero_ok c : cpu_ok c -> zero_ok c.
Proof using Type. intros [[] ?]. by split. Qed.

Lemma upd_zero_id (c : riscv32_CPU_state) : zero_ok c -> upd_gpr 0 0 c = c.
Proof using Type.
  intros [[Hl _] H0]. unfold upd_gpr. change (Z.to_nat 0) with 0%nat. change (u32 0) with 0.
  rewrite list_insert_id; [by destruct c|].
  unfold gpr_at, zlookup in H0. cbn [Z.ltb Z.compare] in H0.
  change (Z.to_nat 0) with 0%nat in H0.
  destruct (lookup_lt_is_Some_2 (gprs c) 0) as [v Hv].
  { pose proof nr_gpr_pos. cbn [nr_gpr riscv32_GprFile] in Hl. lia. }
  rewrite Hv in H0 |- *. cbn in H0. by subst.
Qed.

Lemma R_set_zero (s : nemu riscv32_CPU_state) : zero_ok (cpu s) -> R_set 0 0 s = Ok (tt, s).
Proof using Type.
  intros Hok. pose proof nr_gpr_pos. rewrite R_set_run by (cbn; first [apply Hok|lia]).
  by rewrite upd_zero_id, with_cpu_id.
Qed.
End Flow.

(** The condition of a conditional branch. *)
Definition taken (n : iname) (a b : Z) : option bool :=
  match n with
  | i_beq => Some (a =? b)
  | i_bne => Some (negb (a =? b))
  | i_blt => Some (s32 a <? s32 b)
  | i_bge => Some (s32 b <=? s32 a)
  | i_bltu => Some (a <? b)
  | i_bgeu => Some (b <=? a)
  | _ => None
  end.

(** Width and extension of a load; width of a store. *)
Definition load_kind (n : iname) : option (Z * bool) :=
  match n with
  | i_lb => Some (1, true) | i_lh => Some (2, true) | i_lw => Some (4, false)
  | i_lbu => Some (1, false) | i_lhu => Some (2, false)
  | _ => None
  end.
Definition store_len (n : iname) : option Z :=
  match n with i_sb => Some 1 | i_sh => Some 2 | i_sw => Some 4 | _ => None end.

(** The value a load writes, from the bytes in memory. *)
Definition load_value (len : Z) (sg : bool) (v : Z) : Z := if sg then u32 (sext (8 * len) v) else v.

(** The trap taken for a synchronous exception. *)
Definition trap_cpu (cause epc : Z) (c : riscv32_CPU_state) : riscv32_CPU_state :=
  {c with mepc := epc; mcause := cause}.
Definition trap_decode (cause vec : Z) (d : RDecode) : RDecode :=
  {d with Decode.exception := true; Decode.exception_cause := cause; Decode.dnpc := vec}.

Section FlowExec.
Context `{Config}.
Context (n : iname) (rd rs1 rs2 imm : Z).
Context (Hn : n <> i_inv) (Hr : regs_in rd rs1 rs2) (Hi : imm_ok n imm).
Context (Hd : rd < NR_GPR) (H1 : rs1 < NR_GPR) (H2 : rs2 < NR_GPR).
Context (d : RDecode) (s : nemu riscv32_CPU_state).
Context (Hw : inst (Decode.isa d) = encode n rd rs1 rs2 imm) (Hc : cpu_ok (cpu s)).

Abbreviation a := (gpr_at (cpu s) rs1).
Abbreviation b := (gpr_at (cpu s) rs2).
Abbreviation d0 := {d with Decode.dnpc := Decode.snpc d}.
Abbreviation ops := (operands_of n (cpu s) rd rs1 rs2 imm (encode n rd rs1 rs2 imm)).
Abbreviation addr := (u32 (a + imm)).

(** The last step of [decode_exec]. *)
Lemma exec_then o :
  exec_body n d0 ops s = o ->
  decode_exec d s = match o with
                    | Ok (d', s') => (R_set 0 0 ;; mret d') s'
                    | Abort w => Abort w
                    | Undef w => Undef w
                    end.
Proof using All.
  intros <-. by rewrite (decode_exec_encode n rd rs1 rs2 imm Hn Hr Hi H1 H2 d s Hw (ok_gprs _ (proj1 Hc))).
Qed.

Lemma finish (d' : RDecode) (s' : nemu riscv32_CPU_state) : zero_ok (cpu s') -> (R_set 0 0 ;; mret d') s' = Ok (d', s').
Proof using Type. intros Hs. rewrite (bind_run _ _ _ _ _ (R_set_zero s' Hs)). done. Qed.

(** A branch changes nothing but the next pc. *)
Lemma exec_branch t :
  taken n a b = Some t ->
  decode_exec d s =
  Ok ({d with Decode.dnpc := if t then u32 (Decode.pc d + imm) else Decode.snpc d}, s).
Proof using All.
  intros Ht. erewrite exec_then; [|reflexivity].
  assert (exec_body n d0 ops s =
          Ok ({d with Decode.dnpc := if t then u32 (Decode.pc d + imm) else Decode.snpc d}, s)) as ->.
  { clear Hw. destruct n; try discriminate Ht; injection Ht as <-; cbn [exec_body];
      unfold branch;
      cbn [operands_of Riscv32.rd src1 src2 Riscv32.imm has_rd has_rs1 has_rs2 type_of opcode Z.eqb Pos.eqb
           imm_value is_shift_imm];
      change (Decode.pc d0) with (Decode.pc d); rewrite wrap_add_r;
      match goal with |- context [if ?c then _ else _] => destruct c end; reflexivity. }
  by apply finish, cpu_zero_ok.
Qed.

(** jal and jalr link and jump. *)
Lemma exec_jump target :
  match n with
  | i_jal => Some (u32 (Decode.pc d + imm))
  | i_jalr => Some (Z.land (u32 (a + imm)) (2 ^ 32 - 2))
  | _ => None
  end = Some target ->
  decode_exec d s =
  Ok ({d with Decode.dnpc := target}, with_cpu (wb_cpu rd (cpu s) (Decode.snpc d)) s).
Proof using All.
  intros Ht. rewrite (decode_exec_encode n rd rs1 rs2 imm Hn Hr Hi H1 H2 d s Hw (ok_gprs _ (proj1 Hc))).
  rewrite <- (wb_run rd rs1 rs2 Hr Hd) by done. unfold mbind, st_bind.
  destruct n; try discriminate Ht; injection Ht as <-; cbn [exec_body]; unfold mbind, st_bind;
    cbn [operands_of Riscv32.rd src1 src2 Riscv32.imm has_rd has_rs1 has_rs2 type_of opcode Z.eqb Pos.eqb
         imm_value is_shift_imm];
    rewrite ?wrap_add_r; reflexivity.
Qed.

(** A load from an accessible address. *)
Lemma exec_load len sg v s' :
  load_kind n = Some (len, sg) -> vaddr_access_ok addr len = true ->
  vaddr_read addr len s = Ok (v, s') ->
  decode_exec d s = Ok (d0, with_cpu (wb_cpu rd (cpu s') (load_value len sg v)) s').
Proof using All.
  intros Hk Hok Hv. 
  assert (cpu s' = cpu s) as Ecpu.
  { apply framed_paddr_read in Hv. by apply (f_equal (fr_cpu _)) in Hv. }
  rewrite (decode_exec_encode n rd rs1 rs2 imm Hn Hr Hi H1 H2 d s Hw (ok_gprs _ (proj1 Hc))).
  rewrite <- (wb_run rd rs1 rs2 Hr Hd) by (by rewrite Ecpu). unfold mbind, st_bind.
  destruct n; try discriminate Hk; injection Hk as <- <-; cbn [exec_body]; unfold load;
    cbn [operands_of Riscv32.rd src1 src2 Riscv32.imm has_rd has_rs1 has_rs2 type_of opcode Z.eqb Pos.eqb
         imm_value is_shift_imm];
    rewrite wrap_add_r, Hok; unfold mbind, st_bind; rewrite Hv;
    unfold load_value, SEXT, R_set; cbn [Z.mul Pos.mul id]; rewrite ?(wrap_wrap_le 32 64), ?wrap_wrap by lia; reflexivity.
Qed.

(** A load or store that the guard refuses raises an access fault and changes
    nothing else. *)
Lemma exec_fault cause :
  match load_kind n, store_len n with
  | Some (len, _), _ => vaddr_access_ok addr len = false /\ cause = 5
  | _, Some len => vaddr_access_ok addr len = false /\ cause = 7
  | _, _ => False
  end ->
  decode_exec d s =
  Ok (trap_decode cause (mtvec (cpu s)) d, with_cpu (trap_cpu cause (Decode.pc d) (cpu s)) s).
Proof using All.
  intros Hf. erewrite exec_then; [|reflexivity].
  assert (exec_body n d0 ops s =
    Ok (trap_decode cause (mtvec (cpu s)) d, with_cpu (trap_cpu cause (Decode.pc d) (cpu s)) s)) as ->.
  { clear Hw. destruct n; cbn [load_kind store_len] in Hf; try done; destruct Hf as [Hf ->];
      cbn [exec_body]; unfold load, store;
      cbn [operands_of Riscv32.rd src1 src2 Riscv32.imm has_rd has_rs1 has_rs2 type_of opcode Z.eqb Pos.eqb
         imm_value is_shift_imm];
      rewrite wrap_add_r, Hf; reflexivity. }
  apply finish. exact (cpu_zero_ok _ Hc).
Qed.

(** A store to an accessible address. *)
Lemma exec_store len s' :
  store_len n = Some len -> vaddr_access_ok addr len = true ->
  vaddr_write addr len b s = Ok (tt, s') ->
  decode_exec d s = Ok (d0, s').
Proof using All.
  intros Hk Hok Hv. erewrite exec_then; [|reflexivity].
  assert (cpu s' = cpu s) as Ecpu.
  { apply framed_paddr_write in Hv. by apply (f_equal (fr_cpu _)) in Hv. }
  assert (exec_body n d0 ops s = Ok (d0, s')) as ->.
  { clear Hw. destruct n; try discriminate Hk; injection Hk as <-; cbn [exec_body]; unfold store;
      cbn [operands_of Riscv32.rd src1 src2 Riscv32.imm has_rd has_rs1 has_rs2 type_of opcode Z.eqb Pos.eqb
           imm_value is_shift_imm];
      rewrite wrap_add_r, Hok; unfold mbind, st_bind; rewrite Hv; reflexivity. }
  apply finish. rewrite Ecpu. by apply cpu_zero_ok.
Qed.

(** An access that reaches past the top of the address space passes the guard
    and stops the emulator. *)
Lemma exec_load_top len sg :
  config_ok = true -> CONFIG_DEVICE = false ->
  load_kind n = Some (len, sg) -> 2 ^ 32 < addr + len ->
  decode_exec d s = Abort "address is out of bound of physical memory".
Proof using All.
  intros Hcfg Hdev Hk Htop. erewrite exec_then; [|reflexivity].
  assert (in_u 32 addr) as Ha by (apply wrap_range; lia).
  assert (0 < len <= 4) as Hl.
  { clear Hw. destruct n; try discriminate Hk; injection Hk as <- _; lia. }
  pose proof (vaddr_access_ok_wraps addr len Ha Hl ltac:(lia)) as Hok.
  pose proof (not_backed_wrap Hcfg addr len Ha Htop) as Hnb.
  assert (vaddr_read addr len s = Abort "address is out of bound of physical memory") as Hv.
  { unfold vaddr_read, paddr_read. by rewrite Hnb, Hdev. }
  assert (exec_body n d0 ops s = Abort "address is out of bound of physical memory") as ->; [|done].
  clear Hw Htop Hl Hnb. destruct n; try discriminate Hk; injection Hk as <- <-; cbn [exec_body]; unfold load;
    cbn [operands_of Riscv32.rd src1 src2 Riscv32.imm has_rd has_rs1 has_rs2 type_of opcode Z.eqb Pos.eqb
         imm_value is_shift_imm];
    rewrite wrap_add_r, Hok; unfold mbind, st_bind; by rewrite Hv.
Qed.
End FlowExec.

(** ** CSRs *)

(** The CSRs that exist, their values and the effect of a write. *)
Definition csr_get (c : riscv32_CPU_state) (addr : Z) : option Z :=
  if addr =? 0xf11 then Some 0 else if addr =? 0xf12 then Some 0
  else if addr =? 0x300 then Some 0x1800
  else if addr =? 0x305 then Some (mtvec c) else if addr =? 0x341 then Some (mepc c)
  else if addr =? 0x342 then Some (mcause c) else None.

(** mtvec and mepc are word aligned, mstatus is constant. *)
Definition csr_put (c : riscv32_CPU_state) (addr v : Z) : option riscv32_CPU_state :=
  if addr =? 0x300 then Some {c with mstatus := 0x1800}
  else if addr =? 0x305 then Some {c with mtvec := v - v mod 4}
  else if addr =? 0x341 then Some {c with mepc := v - v mod 4}
  else if addr =? 0x342 then Some {c with mcause := v} else None.

(** Whether the instruction writes the CSR, and the value. *)
Definition csr_new (n : iname) (rs1 a old : Z) : option (option Z) :=
  match n with
  | i_csrrw => Some (Some a)
  | i_csrrs => Some (if rs1 =? 0 then None else Some (Z.lor old a))
  | i_csrrc => Some (if rs1 =? 0 then None else Some (Z.ldiff old a))
  | i_csrrwi => Some (Some rs1)
  | i_csrrsi => Some (if rs1 =? 0 then None else Some (Z.lor old rs1))
  | i_csrrci => Some (if rs1 =? 0 then None else Some (Z.ldiff old rs1))
  | _ => None
  end.

Lemma land_align v : in_u 32 v -> Z.land v (u32 (Z.lnot 3)) = v - v mod 4.
Proof.
  intros Hv. change (u32 (Z.lnot 3)) with (Z.ones 30 * 2 ^ 2). rewrite land_mask_shifted by lia.
  unfold field, in_u in *. word_lia.
Qed.

Lemma land_not32 t x : in_u 32 t -> Z.land t (u32 (Z.lnot x)) = Z.ldiff t x.
Proof.
  intros Ht. apply Z.bits_inj'. intros i Hi. rewrite Z.land_spec, Z.ldiff_spec, testbit_wrap, Z.lnot_spec by lia.
  destruct (Z.ltb_spec i 32); [done|]. rewrite (testbit_high 32 t i) by (done || lia). done.
Qed.

Lemma land_not64 t x : in_u 32 t -> u32 (Z.land t (u64 (Z.lnot x))) = Z.ldiff t x.
Proof.
  intros Ht. apply Z.bits_inj'. intros i Hi. rewrite testbit_wrap, Z.land_spec, Z.ldiff_spec, testbit_wrap, Z.lnot_spec by lia.
  destruct (Z.ltb_spec i 32).
  - rewrite (proj2 (Z.ltb_lt i 64)) by lia. done.
  - rewrite (testbit_high 32 t i) by (done || lia). done.
Qed.

Lemma ldiff_in_u w x y : 0 <= w -> in_u w x -> in_u w (Z.ldiff x y).
Proof. intros Hw Hx. rewrite Z.ldiff_land. by apply land_in_u. Qed.

Section Csr.
Context `{Config}.
Implicit Types s : nemu riscv32_CPU_state.

Lemma csr_read_get addr v s : csr_get (cpu s) addr = Some v -> csr_read addr s = Ok (v, s).
Proof using Type.
  unfold csr_get, csr_read. run_simpl. repeat case_match; intros [= <-]; done.
Qed.

Lemma csr_write_put addr v c s :
  in_u 32 v -> csr_put (cpu s) addr v = Some c -> csr_write addr v s = Ok (tt, with_cpu c s).
Proof using Type.
  intros Hv. unfold csr_put, csr_write. repeat case_match; intros [= <-]; by rewrite ?land_align.
Qed.

Lemma csr_put_ok c addr v c' : cpu_ok c -> csr_put c addr v = Some c' -> zero_ok c' /\ gpr c' = gpr c.
Proof using Type.
  intros [[] H0]. unfold csr_put. repeat case_match; intros [= <-]; done.
Qed.

Context (n : iname) (rd rs1 rs2 imm : Z).
Context (Hr : regs_in rd rs1 rs2) (Hi : imm_ok n imm).
Context (Hd : rd < NR_GPR) (H1 : rs1 < NR_GPR) (H2 : rs2 < NR_GPR).
Context (d : RDecode) (s : nemu riscv32_CPU_state).
Context (Hw : inst (Decode.isa d) = encode n rd rs1 rs2 imm) (Hc : cpu_ok (cpu s)).

Lemma csr_get_range c addr v : cpu_ok c -> csr_get c addr = Some v -> in_u 32 v.
Proof using Type.
  intros [[] _]. unfold csr_get. repeat case_match; intros [= <-]; first [done | unfold in_u; lia].
Qed.

Lemma csr_addr :
  type_of n = TYPE_I -> is_shift_imm n = false -> whole_word n = None ->
  BITS (encode n rd rs1 rs2 imm) 31 20 = wrap 12 imm.
Proof using Hr Hi.
  clear Hc. intros Ht Es Ew. destruct Hr as (Rd & R1 & R2).
  unfold encode. rewrite Ew, Ht, Es, BITS_field, mkword_31_20 by (lia || fields_in).
  by rewrite (field_join imm 0 5 7 5 12), field_low by lia.
Qed.

Lemma csr_op_run o wr f (old : Z) nw c d' :
  zero_ok c -> Riscv32.rd o = rd -> Decode.isa d' = Decode.isa d ->
  BITS (inst (Decode.isa d)) 31 20 = wrap 12 imm ->
  csr_get (cpu s) (wrap 12 imm) = Some old ->
  match nw with Some v => csr_put (cpu s) (wrap 12 imm) v = Some c | None => c = cpu s end ->
  match nw with Some v => wr = true /\ f old = v /\ in_u 32 v | None => wr = false end ->
  csr_op d' o wr f s = Ok (d', with_cpu (upd_gpr rd old c) s).
Proof using Hr Hd.
  intros [Hg _] Ho Ed Ha Hget Hput Hnw. unfold csr_op. rewrite Ed, Ha.
  rewrite (bind_run _ _ _ _ _ (csr_read_get _ _ s Hget)).
  assert (when wr (csr_write (wrap 12 imm) (f old)) s = Ok (tt, with_cpu c s)) as Hwr.
  { destruct nw as [v|].
    - destruct Hnw as (-> & -> & Hv). by apply csr_write_put.
    - subst wr c. by rewrite with_cpu_id. }
  rewrite (bind_run _ _ _ _ _ Hwr), Ho. unfold mbind, st_bind.
  rewrite R_set_run by (cbn; first [exact Hg|destruct Hr as [[? ?] _]; lia]). reflexivity.
Qed.

(** A CSR instruction: the old value goes to [rd], the new one to the CSR. *)
Lemma exec_csr old nw c :
  csr_get (cpu s) (wrap 12 imm) = Some old ->
  csr_new n rs1 (gpr_at (cpu s) rs1) old = Some nw ->
  match nw with Some v => csr_put (cpu s) (wrap 12 imm) v = Some c | None => c = cpu s end ->
  decode_exec d s =
  Ok ({d with Decode.dnpc := Decode.snpc d}, with_cpu (upd_gpr 0 0 (upd_gpr rd old c)) s).
Proof using All.
  intros Hget Hnew Hput.
  assert (n <> i_inv) as Hn by (by intros ->).
  assert (cpu_ok (cpu s)) as [Hok H0] by done.
  pose proof (csr_get_range _ _ _ Hc Hget) as Ho.
  destruct (encode_regs n rd rs1 rs2 imm Hn Hr Hi) as (_ & E1 & _).
  assert (in_u 32 (gpr_at (cpu s) rs1)) as Ha by (apply gpr_at_range, Hok).
  assert (in_u 32 rs1) as Hrs by (destruct Hr as (_ & Hrr & _); unfold in_u in *; lia).
  rewrite (decode_exec_encode n rd rs1 rs2 imm Hn Hr Hi H1 H2 d s Hw (ok_gprs _ Hok)).
  assert (zero_ok c) as Hz.
  { destruct nw as [v|]; [by eapply csr_put_ok|]. subst. by apply cpu_zero_ok. }
  assert (exec_body n {d with Decode.dnpc := Decode.snpc d}
            (operands_of n (cpu s) rd rs1 rs2 imm (encode n rd rs1 rs2 imm)) s =
          Ok ({d with Decode.dnpc := Decode.snpc d}, with_cpu (upd_gpr rd old c) s)) as E.
  { pose proof csr_addr as Hadr. rewrite <- Hw in Hadr, E1.
    destruct n; try discriminate Hnew; injection Hnew as Enw; cbn [exec_body];
      change (Decode.isa {d with Decode.dnpc := Decode.snpc d}) with (Decode.isa d);
      rewrite ?E1 by done;
      (apply (csr_op_run _ _ _ old nw); [exact Hz|reflexivity|reflexivity|by apply Hadr|exact Hget|exact Hput|]);
      subst nw; clear Hput Hz; cbn [operands_of src1 has_rs1 type_of opcode Z.eqb Pos.eqb];
      try (destruct (Z.eqb_spec rs1 0); [reflexivity|]); (split; [reflexivity|]);
      rewrite ?land_not32, ?land_not64 by done; split; try done;
      first [by apply lor_in_u; [lia|..] | by apply ldiff_in_u; [lia|]]. }
  unfold mbind, st_bind. rewrite E. rewrite R_set_run; [reflexivity| |].
  - rewrite cpu_with_cpu. apply upd_gpr_ok, Hz.
  - pose proof nr_gpr_pos. cbn. lia.
Qed.
End Csr.

(** ** riscv32 implements the guest interface

    The laws [IsaLaws] for the riscv32 guest, so the theorems about the
    execution loop hold of it. *)

Section Laws.
Context `{Config}.

Section Rel.
Context (R : relation (nemu riscv32_CPU_state)) `{!GuestRel R}.
Abbreviation ok m := (respects R m).

Lemma rv_raise NO epc : ok (isa_raise_intr NO epc).
Proof using All. unfold isa_raise_intr. respects_tac. Qed.
Hint Resolve rv_raise : respects.

Lemma rv_csr_read a : ok (csr_read a).
Proof using All. unfold csr_read. respects_tac. Qed.
Lemma rv_csr_write a v : ok (csr_write a v).
Proof using All. unfold csr_write. respects_tac. Qed.
Hint Resolve rv_csr_read rv_csr_write : respects.

Lemma rv_body n d o : ok (exec_body n d o).
Proof using All.
  destruct n; cbn [exec_body]; unfold load, store, branch, csr_op, raise_sync_exception; respects_tac.
Qed.
Hint Resolve rv_body : respects.

Lemma rv_operand d t : ok (decode_operand d t).
Proof using All. unfold decode_operand. respects_tac. Qed.
Hint Resolve rv_operand : respects.

Lemma rv_exec d : ok (isa_exec_once d).
Proof using All. unfold isa_exec_once, decode_exec, raise_sync_exception. respects_tac. Qed.
End Rel.

Lemma body_pc n d o : same_pc d (exec_body n d o).
Proof using Type.
  destruct n; cbn [exec_body]; unfold load, store, branch, csr_op, raise_sync_exception; same_pc_tac.
Qed.

Lemma decode_exec_pc d : same_pc d (decode_exec d).
Proof using Type.
  unfold decode_exec. set (d0 := {d with Decode.dnpc := Decode.snpc d}). apply same_pc_bind. intros m s d' s' Hr.
  apply bind_ok in Hr as (d1 & s1 & Hb & Hr). run_inv.
  destruct m as [[n t]|]; run_inv; [|done]. by eapply (body_pc n d0).
Qed.

Lemma isa_exec_pc d : same_pc d (isa_exec_once d).
Proof using Type.
  unfold isa_exec_once, raise_sync_exception. apply same_pc_if; [same_pc_tac|]. apply same_pc_bind. intros f.
  intros s d' s' Hr. by apply decode_exec_pc in Hr.
Qed.

#[export] Instance riscv32_IsaLaws : IsaLaws riscv32_Isa.
Proof using Type.
  split.
  - intros d. apply rv_exec, _.
  - intros d. apply rv_exec, _.
  - intros r p s a s' Hr. cbn in Hr. unfold isa_difftest_checkregs in Hr. run_inv. reflexivity.
  - intros d s d' s'. apply isa_exec_pc.
  - intros r p s a s' Hr. cbn in Hr. unfold isa_difftest_checkregs in Hr. run_inv. reflexivity.
  - done.
Qed.
End Laws.
