(* ===== verification/Mips32.v ===== *)
(** * The mips32 guest (nemu/src/isa/mips32)

    The five INSTPAT lines of inst.c over the shared register file, init.c and
    the exception stubs, with the interface laws. *)
From S2P Require Import Prelude Outcome Bytes Config CommitEvent CommitRing Machine PhysMem Devices IoMap.
From S2P Require Import Vaddr Pattern Isa Difftest CpuExec CpuTrace.
#[local] Open Scope string_scope.
#[local] Open Scope Z_scope.

Module Mips32.

Record mips32_CPU_state := { gpr : list Z; pad : list Z; pc : Z }.

#[export] Instance mips32_GprFile : GprFile mips32_CPU_state := {
  gprs := gpr; set_gprs l c := {c with gpr := l}; nr_gpr := 32; gprs_set _ _ := eq_refl;
}.

Definition cpu_init : mips32_CPU_state := {| gpr := replicate 32 0; pad := replicate 5 0; pc := 0 |}.

Inductive itype := TYPE_I | TYPE_U | TYPE_N.
Inductive iname := i_lui | i_lw | i_sw | i_sdbbp | i_inv.

Definition immI (i : Z) : Z := u32 (SEXT (BITS i 15 0) 16).
Definition immU (i : Z) : Z := u32 (BITS i 15 0).

(** The C variables [rd], [src1] and [imm]; [src2] stays 0. *)
Record operands := { rd : Z; src1 : Z; imm : Z }.

Definition decode_table : list (string * (iname * itype)) := [
  ("001111 ????? ????? ????? ????? ??????", (i_lui  , TYPE_U));
  ("100011 ????? ????? ????? ????? ??????", (i_lw   , TYPE_I));
  ("101011 ????? ????? ????? ????? ??????", (i_sw   , TYPE_I));
  ("011100 ????? ????? ????? ????? 111111", (i_sdbbp, TYPE_N));
  ("?????? ????? ????? ????? ????? ??????", (i_inv  , TYPE_N))].

Section Exec.
Context `{Config}.
Abbreviation Mn := (M mips32_CPU_state).

Definition decode_operand (s : RDecode) (type : itype) : Mn operands :=
  let i := inst (Decode.isa s) in
  let rt := BITS i 20 16 in
  let rs := BITS i 25 21 in
  match type with
  | TYPE_I => a ← R_get rs; mret {| rd := rt; src1 := a; imm := immI i |}
  | TYPE_U => a ← R_get rs; mret {| rd := rt; src1 := a; imm := immU i |}
  | TYPE_N => mret {| rd := BITS i 15 11; src1 := 0; imm := 0 |}
  end.

Definition exec_body (n : iname) (s : RDecode) (o : operands) : Mn unit :=
  match n with
  | i_lui => R_set (rd o) (Z.shiftl (imm o) 16)
  | i_lw => v ← vaddr_read (u32 (src1 o + imm o)) 4; R_set (rd o) v
  | i_sw => v ← R_get (rd o); vaddr_write (u32 (src1 o + imm o)) 4 v
  | i_sdbbp => v0 ← R_get 2; NEMUTRAP (Decode.pc s) v0
  | i_inv => INV (Decode.pc s)
  end.

Definition decode_exec (s : RDecode) : Mn RDecode :=
  let s := {s with Decode.dnpc := Decode.snpc s} in
  m ← lift (instpat decode_table (inst (Decode.isa s)));
  match m with
  | Some (n, type) => o ← decode_operand s type; exec_body n s o
  | None => mret tt
  end ;;
  R_set 0 0 ;;
  mret s.

Definition isa_exec_once (s : RDecode) : Mn RDecode :=
  f ← inst_fetch (Decode.snpc s) 4;
  decode_exec {s with Decode.isa := {| inst := f.1 |}; Decode.snpc := f.2}.

(** system/intr.c *)
Definition isa_raise_intr (NO epc : Z) : Mn Z := mret 0.
Definition isa_query_intr : Z := u32 (-1).

(** init.c *)
Definition img : list Z := [0x3c048000; 0xac800000; 0x8c820000; 0x7000003f].
Definition restart : Mn unit :=
  modify_cpu (fun c => {c with pc := RESET_VECTOR}) ;;
  modify_cpu (fun c => {c with gpr := <[0%nat := 0]> (gpr c)}).
Definition init_isa : Mn unit :=
  paddr_memcpy_to_guest RESET_VECTOR (flat_map (le_split 4) img) true ;;
  restart.

Definition isa_difftest_checkregs (ref_r : mips32_CPU_state) (npc : Z) : Mn bool := mret false.
End Exec.

#[export] Instance mips32_Isa `{Config} : Isa := {
  CPU_state := mips32_CPU_state;
  DecodeInfo := ISADecodeInfo;
  decode_info0 := {| inst := 0 |};
  info_inst := inst;
  cpu_pc := pc;
  set_cpu_pc v c := {c with pc := v};
  cpu_gpr := gpr;
  cpu_zero := cpu_init;
  Isa.init_isa := init_isa;
  Isa.isa_exec_once := isa_exec_once;
  Isa.isa_raise_intr := isa_raise_intr;
  Isa.isa_query_intr := isa_query_intr;
  Isa.isa_difftest_checkregs := isa_difftest_checkregs;
}.

Section Laws.
Context `{Config}.

Section Rel.
Context (R : relation (nemu mips32_CPU_state)) `{!GuestRel R}.
Abbreviation ok m := (respects R m).

Lemma mips_operand d t : ok (decode_operand d t).
Proof using All. unfold decode_operand. respects_tac. Qed.
Lemma mips_body n d o : ok (exec_body n d o).
Proof using All. destruct n; cbn [exec_body]; respects_tac. Qed.
Hint Resolve mips_operand mips_body : respects.

Lemma mips_exec d : ok (isa_exec_once d).
Proof using All. unfold isa_exec_once, decode_exec. respects_tac. Qed.
End Rel.

Lemma mips_pc d : same_pc d (isa_exec_once d).
Proof using Type. unfold isa_exec_once, decode_exec. same_pc_tac. Qed.

#[export] Instance mips32_IsaLaws : IsaLaws mips32_Isa.
Proof using Type.
  split.
  - intros d. apply mips_exec, _.
  - intros d. apply mips_exec, _.
  - intros r p s a s' Hr. cbn in Hr. unfold isa_difftest_checkregs in Hr. run_inv. reflexivity.
  - intros d. apply mips_pc.
  - intros r p s a s' Hr. cbn in Hr. unfold isa_difftest_checkregs in Hr. run_inv. reflexivity.
  - done.
Qed.
End Laws.

(** ** Classification of the instructions *)

Definition pats : list (pat * (iname * itype)) :=
  Eval vm_compute in match compile decode_table with Ok t => t | _ => [] end.
Lemma mips_pats_ok : compile decode_table = Ok pats.
Proof. vm_compute. reflexivity. Qed.

(** The opcode is bits 31..26; sdbbp also has function code 63. *)
Definition class_of (x : Z) : iname :=
  let op := field x 26 6 in
  if op =? 15 then i_lui else if op =? 35 then i_lw else if op =? 43 then i_sw
  else if (op =? 28) && (field x 0 6 =? 63) then i_sdbbp else i_inv.

Definition type_of (n : iname) : itype :=
  match n with i_lui => TYPE_U | i_lw | i_sw => TYPE_I | _ => TYPE_N end.

Lemma top_field x : in_u 32 x -> Z.land (Z.shiftr x 26) 63 = field x 26 6.
Proof. intros _. by rewrite <- (field_land x 26 6). Qed.

Lemma land_two x : in_u 32 x -> Z.land x 0xfc00003f = field x 26 6 * 2 ^ 26 + field x 0 6.
Proof.
  intros _. change 0xfc00003f with (Z.lor (Z.ones 6 * 2 ^ 26) (Z.ones 6 * 2 ^ 0)).
  rewrite Z.land_lor_distr_r, !land_mask_shifted, Z.mul_1_r by lia. apply lor_add_shifted; [lia|].
  pose proof (field_range x 0 6). unfold in_u in *. lia.
Qed.

Lemma mips_instpat_class x :
  in_u 32 x -> instpat decode_table x = Ok (Some (class_of x, type_of (class_of x))).
Proof.
  intros Hx. rewrite (instpat_compile _ _ x mips_pats_ok). f_equal.
  unfold pats. cbn [find_pat]. unfold pat_match. cbn [key mask shift].
  rewrite Z.shiftr_0_r, !top_field, land_two, Z.land_0_r by done. unfold class_of.
  pose proof (field_range x 0 6). unfold in_u in *.
  repeat (case_match; [done|]).
  replace (field x 26 6 * 2 ^ 26 + field x 0 6 =? 1879048255) with ((field x 26 6 =? 28) && (field x 0 6 =? 63)).
  - by case_match.
  - apply eq_true_iff_eq. rewrite andb_true_iff, !Z.eqb_eq. lia.
Qed.

End Mips32.
