(* ===== verification/Loongarch32r.v ===== *)
(** * The loongarch32r guest (nemu/src/isa/loongarch32r)

    The five INSTPAT lines of inst.c over the shared register file, init.c and
    the exception stubs, with the interface laws. *)
From S2P Require Import Prelude Outcome Bytes Config CommitEvent CommitRing Machine PhysMem Devices IoMap.
From S2P Require Import Vaddr Pattern Isa Difftest CpuExec CpuTrace.
#[local] Open Scope string_scope.
#[local] Open Scope Z_scope.

Module Loongarch32r.

Record loongarch32r_CPU_state := { gpr : list Z; pc : Z }.

#[export] Instance loongarch32r_GprFile : GprFile loongarch32r_CPU_state := {
  gprs := gpr; set_gprs l c := {c with gpr := l}; nr_gpr := 32; gprs_set _ _ := eq_refl;
}.

Definition cpu_init : loongarch32r_CPU_state := {| gpr := replicate 32 0; pc := 0 |}.

Inductive itype := TYPE_2RI12 | TYPE_1RI20 | TYPE_N.
Inductive iname := i_pcaddu12i | i_ld_w | i_st_w | i_break | i_inv.

Definition simm12 (i : Z) : Z := u32 (SEXT (BITS i 21 10) 12).
Definition simm20 (i : Z) : Z := u32 (u64 (Z.shiftl (SEXT (BITS i 24 5) 20) 12)).

Record operands := { rd : Z; src1 : Z; imm : Z }.

Definition decode_table : list (string * (iname * itype)) := [
  ("0001110 ????? ????? ????? ????? ?????" , (i_pcaddu12i, TYPE_1RI20));
  ("0010100010 ???????????? ????? ?????"   , (i_ld_w     , TYPE_2RI12));
  ("0010100110 ???????????? ????? ?????"   , (i_st_w     , TYPE_2RI12));
  ("0000 0000 0010 10100 ????? ????? ?????", (i_break    , TYPE_N));
  ("????????????????? ????? ????? ?????"   , (i_inv      , TYPE_N))].

Section Exec.
Context `{Config}.
Abbreviation Mn := (M loongarch32r_CPU_state).

Definition decode_operand (s : RDecode) (type : itype) : Mn operands :=
  let i := inst (Decode.isa s) in
  let rj := BITS i 9 5 in
  let rd := BITS i 4 0 in
  match type with
  | TYPE_1RI20 => a ← R_get rj; mret {| rd := rd; src1 := a; imm := simm20 i |}
  | TYPE_2RI12 => a ← R_get rj; mret {| rd := rd; src1 := a; imm := simm12 i |}
  | TYPE_N => mret {| rd := rd; src1 := 0; imm := 0 |}
  end.

Definition exec_body (n : iname) (s : RDecode) (o : operands) : Mn unit :=
  match n with
  | i_pcaddu12i => R_set (rd o) (Decode.pc s + imm o)
  | i_ld_w => v ← vaddr_read (u32 (src1 o + imm o)) 4; R_set (rd o) v
  | i_st_w => v ← R_get (rd o); vaddr_write (u32 (src1 o + imm o)) 4 v
  | i_break => a0 ← R_get 4; NEMUTRAP (Decode.pc s) a0
  | i_inv => INV (Decode.pc s)
  end.

Definition decode_exec (s : RDecode) : Mn RDecode :=
  let s := {s with Decode.dnpc := Decode.snpc s} in
  m ← lift (instpat decode_table (inst (Decode.isa s)));
  match m with
  | Some (n, type) => o ← decode_operand s type; exec_body n s o
  | None => mret tt
  end ;;
  R_set 0 0 ;;
  mret s.

Definition isa_exec_once (s : RDecode) : Mn RDecode :=
  f ← inst_fetch (Decode.snpc s) 4;
  decode_exec {s with Decode.isa := {| inst := f.1 |}; Decode.snpc := f.2}.

(** system/intr.c *)
Definition isa_raise_intr (NO epc : Z) : Mn Z := mret 0.
Definition isa_query_intr : Z := u32 (-1).

(** init.c *)
Definition img : list Z := [0x1c00000c; 0x29804180; 0x28804184; 0x002a0000; 0xdeadbeef].
Definition restart : Mn unit :=
  modify_cpu (fun c => {c with pc := RESET_VECTOR}) ;;
  modify_cpu (fun c => {c with gpr := <[0%nat := 0]> (gpr c)}).
Definition init_isa : Mn unit :=
  paddr_memcpy_to_guest RESET_VECTOR (flat_map (le_split 4) img) true ;;
  restart.

Definition isa_difftest_checkregs (ref_r : loongarch32r_CPU_state) (npc : Z) : Mn bool := mret false.
End Exec.

#[export] Instance loongarch32r_Isa `{Config} : Isa := {
  CPU_state := loongarch32r_CPU_state;
  DecodeInfo := ISADecodeInfo;
  decode_info0 := {| inst := 0 |};
  info_inst := inst;
  cpu_pc := pc;
  set_cpu_pc v c := {c with pc := v};
  cpu_gpr := gpr;
  cpu_zero := cpu_init;
  Isa.init_isa := init_isa;
  Isa.isa_exec_once := isa_exec_once;
  Isa.isa_raise_intr := isa_raise_intr;
  Isa.isa_query_intr := isa_query_intr;
  Isa.isa_difftest_checkregs := isa_difftest_checkregs;
}.

Section Laws.
Context `{Config}.

Section Rel.
Context (R : relation (nemu loongarch32r_CPU_state)) `{!GuestRel R}.
Abbreviation ok m := (respects R m).

Lemma la_operand d t : ok (decode_operand d t).
Proof using All. unfold decode_operand. respects_tac. Qed.
Lemma la_body n d o : ok (exec_body n d o).
Proof using All. destruct n; cbn [exec_body]; respects_tac. Qed.
Hint Resolve la_operand la_body : respects.

Lemma la_exec d : ok (isa_exec_once d).
Proof using All. unfold isa_exec_once, decode_exec. respects_tac. Qed.
End Rel.

Lemma la_pc d : same_pc d (isa_exec_once d).
Proof using Type. unfold isa_exec_once, decode_exec. same_pc_tac. Qed.

#[export] Instance loongarch32r_IsaLaws : IsaLaws loongarch32r_Isa.
Proof using Type.
  split.
  - intros d. apply la_exec, _.
  - intros d. apply la_exec, _.
  - intros r p s a s' Hr. cbn in Hr. unfold isa_difftest_checkregs in Hr. run_inv. reflexivity.
  - intros d. apply la_pc.
  - intros r p s a s' Hr. cbn in Hr. unfold isa_difftest_checkregs in Hr. run_inv. reflexivity.
  - done.
Qed.
End Laws.

(** ** Classification of the instructions *)

Definition pats : list (pat * (iname * itype)) :=
  Eval vm_compute in match compile decode_table with Ok t => t | _ => [] end.
Lemma la_pats_ok : compile decode_table = Ok pats.
Proof. vm_compute. reflexivity. Qed.

(** The leading bits, in three widths. *)
Definition class_of (x : Z) : iname :=
  if field x 25 7 =? 0x0e then i_pcaddu12i
  else if field x 22 10 =? 0x0a2 then i_ld_w
  else if field x 22 10 =? 0x0a6 then i_st_w
  else if field x 15 17 =? 0x00054 then i_break
  else i_inv.

Definition type_of (n : iname) : itype :=
  match n with i_pcaddu12i => TYPE_1RI20 | i_ld_w | i_st_w => TYPE_2RI12 | _ => TYPE_N end.

Lemma la_instpat_class x : instpat decode_table x = Ok (Some (class_of x, type_of (class_of x))).
Proof.
  rewrite (instpat_compile _ _ x la_pats_ok). f_equal. unfold pats. cbn [find_pat]. unfold pat_match.
  cbn [key mask shift].
  change 127 with (Z.ones 7). change 1023 with (Z.ones 10). change 131071 with (Z.ones 17).
  rewrite !field_land, Z.land_0_r by lia. unfold class_of. repeat (case_match; [done|]). done.
Qed.

End Loongarch32r.
