(* ===== verification/KString.v ===== *)
(** * klib: string.c

    Memory is a byte array indexed by address, a pointer an address; the
    functions are the loops of the C code.  A loop that runs to a terminator
    has fuel, and is shown to finish when memory holds a C string ([cstr]); a
    counted loop recurses on its counter.  Each function is specified by the
    bytes it reads ([ha_get_n]) and the block it writes ([ha_put]). *)
From S2P Require Import Prelude Bytes.

Section Loops.
Implicit Types m : harray.

(** [*p] as [char] is a byte here; [strcmp] compares as [unsigned char]. *)
Fixpoint strlen_loop (fuel : nat) (m : harray) (p : Z) : option Z :=
  match fuel with
  | O => None
  | S f => if ha_get m p =? 0 then Some p else strlen_loop f m (p + 1)
  end.
Definition strlen (fuel : nat) (m : harray) (s : Z) : option Z :=
  p ← strlen_loop fuel m s; Some (p - s).

(** Copies up to and including the terminator. *)
Fixpoint strcpy (fuel : nat) (dst src : Z) (m : harray) : option harray :=
  match fuel with
  | O => None
  | S f =>
      let c := ha_get m src in
      let m := ha_set m dst c in
      if c =? 0 then Some m else strcpy f (dst + 1) (src + 1) m
  end.

(** The two loops of [strncpy]. *)
Fixpoint strncpy_pad (n : nat) (dst : Z) (m : harray) : harray :=
  match n with O => m | S n' => strncpy_pad n' (dst + 1) (ha_set m dst 0) end.
Fixpoint strncpy (n : nat) (dst src : Z) (m : harray) : harray :=
  match n with
  | O => m
  | S n' =>
      if ha_get m src =? 0 then strncpy_pad n dst m
      else strncpy n' (dst + 1) (src + 1) (ha_set m dst (ha_get m src))
  end.

Definition strcat (fuel : nat) (dst src : Z) (m : harray) : option harray :=
  n ← strlen fuel m dst; strcpy fuel (dst + n) src m.

Fixpoint strcmp (fuel : nat) (m : harray) (p1 p2 : Z) : option Z :=
  match fuel with
  | O => None
  | S f =>
      if negb (ha_get m p1 =? 0) && (ha_get m p1 =? ha_get m p2) then strcmp f m (p1 + 1) (p2 + 1)
      else Some (ha_get m p1 - ha_get m p2)
  end.

Fixpoint strncmp (n : nat) (m : harray) (p1 p2 : Z) : Z :=
  match n with
  | O => 0
  | S n' =>
      if negb (ha_get m p1 =? 0) && (ha_get m p1 =? ha_get m p2) then strncmp n' m (p1 + 1) (p2 + 1)
      else ha_get m p1 - ha_get m p2
  end.

Fixpoint memset (n : nat) (s c : Z) (m : harray) : harray :=
  match n with O => m | S n' => memset n' (s + 1) c (ha_set m s (u8 c)) end.

(** Forward copy, the loop of [memcpy] and of [memmove] when [d < s]. *)
Fixpoint memcpy (n : nat) (d s : Z) (m : harray) : harray :=
  match n with O => m | S n' => memcpy n' (d + 1) (s + 1) (ha_set m d (ha_get m s)) end.

(** Backward copy, [d] and [s] past the end: [while (n-- > 0) *--d = *--s]. *)
Fixpoint copy_down (n : nat) (d s : Z) (m : harray) : harray :=
  match n with
  | O => m
  | S n' => copy_down n' (d - 1) (s - 1) (ha_set m (d - 1) (ha_get m (s - 1)))
  end.

Definition memmove (n : nat) (dst src : Z) (m : harray) : harray :=
  if (dst =? src) || Nat.eqb n 0 then m
  else if dst <? src then memcpy n dst src m
  else copy_down n (dst + Z.of_nat n) (src + Z.of_nat n) m.

Fixpoint memcmp (n : nat) (m : harray) (p1 p2 : Z) : Z :=
  match n with
  | O => 0
  | S n' =>
      if negb (ha_get m p1 =? ha_get m p2) then ha_get m p1 - ha_get m p2
      else memcmp n' m (p1 + 1) (p2 + 1)
  end.
End Loops.

(** ** C strings *)

(** Memory holds the characters [cs] and a terminator at [p]. *)
Definition cstr (m : harray) (p : Z) (cs : list Z) : Prop :=
  ha_get_n m p (length cs + 1) = cs ++ [0] /\ Forall (fun c => c <> 0) cs.

Lemma cstr_nil m p : cstr m p [] <-> ha_get m p = 0.
Proof.
  unfold cstr. cbn. split; [intros [E _]; congruence|]. intros ->. split; [done|constructor].
Qed.

Lemma cstr_cons m p c cs : cstr m p (c :: cs) <-> ha_get m p = c /\ c <> 0 /\ cstr m (p + 1) cs.
Proof.
  unfold cstr. cbn. rewrite Forall_cons. split.
  - intros [[= E1 E2] [Hc Hcs]]. done.
  - intros (-> & Hc & E & Hcs). rewrite E. done.
Qed.

Lemma strlen_loop_cstr m p cs fuel :
  cstr m p cs -> (length cs < fuel)%nat -> strlen_loop fuel m p = Some (p + Z.of_nat (length cs)).
Proof.
  revert p fuel; induction cs as [|c cs IH]; intros p fuel Hs Hf; (destruct fuel as [|fuel]; [cbn in Hf; lia|]);
    cbn [strlen_loop].
  - apply cstr_nil in Hs. rewrite Hs. cbn. f_equal. lia.
  - apply cstr_cons in Hs as (-> & Hc & Hs). rewrite (proj2 (Z.eqb_neq _ _) Hc).
    rewrite IH by (done || (cbn in Hf; lia)). cbn [length]. f_equal. lia.
Qed.

Lemma strlen_cstr m p cs fuel :
  cstr m p cs -> (length cs < fuel)%nat -> strlen fuel m p = Some (Z.of_nat (length cs)).
Proof. intros Hs Hf. unfold strlen. rewrite (strlen_loop_cstr m p cs) by done. cbn. f_equal. lia. Qed.

(** ** Blocks *)

Lemma ha_get_n_S m p n : ha_get_n m p (S n) = ha_get m p :: ha_get_n m (p + 1) n.
Proof. done. Qed.

Lemma ha_get_n_snoc m p n : ha_get_n m p (S n) = ha_get_n m p n ++ [ha_get m (p + Z.of_nat n)].
Proof.
  revert p; induction n as [|n IH]; intros p; [cbn; by rewrite Z.add_0_r|].
  rewrite ha_get_n_S, IH. cbn [ha_get_n app]. do 3 f_equal. f_equal. lia.
Qed.

Lemma ha_set_get_other m i v j n :
  i < j \/ j + Z.of_nat n <= i -> ha_get_n (ha_set m i v) j n = ha_get_n m j n.
Proof.
  intros Hd. apply ha_get_n_ext. intros k Hk. rewrite ha_get_set. case_decide; [lia|done].
Qed.

Lemma cstr_set m p cs i v : cstr m p cs -> i < p \/ p + Z.of_nat (length cs) < i -> cstr (ha_set m i v) p cs.
Proof. intros [E Hc] Hd. split; [|done]. rewrite ha_set_get_other by lia. done. Qed.

(** [memset] writes a block of equal bytes. *)
Lemma memset_put n s c m : memset n s c m = ha_put m s (replicate n (u8 c)).
Proof. revert s m; induction n as [|n IH]; intros s m; [done|]. cbn. apply IH. Qed.

(** Forward copy is right unless the destination starts inside the source. *)
Lemma memcpy_put n d s m :
  d <= s \/ s + Z.of_nat n <= d ->
  ha_equiv (memcpy n d s m) (ha_put m d (ha_get_n m s n)).
Proof.
  revert d s m; induction n as [|n IH]; intros d s m Hd; [done|].
  cbn [memcpy]. rewrite IH by lia. rewrite ha_get_n_S. cbn [ha_put].
  by rewrite ha_set_get_other by lia.
Qed.

(** Backward copy is right unless the destination ends inside the source. *)
Lemma copy_down_put n d s m :
  s <= d \/ d + Z.of_nat n <= s ->
  ha_equiv (copy_down n (d + Z.of_nat n) (s + Z.of_nat n) m) (ha_put m d (ha_get_n m s n)).
Proof.
  revert m; induction n as [|n IH]; intros m Hd; [done|].
  cbn [copy_down]. replace (d + Z.of_nat (S n) - 1) with (d + Z.of_nat n) by lia.
  replace (s + Z.of_nat (S n) - 1) with (s + Z.of_nat n) by lia.
  rewrite IH by lia. rewrite ha_set_get_other by lia. rewrite ha_get_n_snoc.
  intros j. rewrite !ha_get_put, ha_get_set.
  pose proof (length_ha_get_n m s n) as Hl.
  destruct (decide (d + Z.of_nat n = j)) as [<-|Hne].
  - replace (Z.to_nat (d + Z.of_nat n - d)) with n by lia.
    rewrite (lookup_ge_None_2 (ha_get_n m s n) n) by lia. rewrite list_lookup_middle by done.
    by rewrite (proj2 (Z.leb_le d (d + Z.of_nat n))) by lia.
  - destruct (decide (Z.to_nat (j - d) < n)%nat) as [Hlt|Hge].
    + rewrite lookup_app_l by lia. done.
    + rewrite lookup_ge_None_2 by lia. rewrite lookup_app_r by lia.
      destruct (Z.to_nat (j - d) - length (ha_get_n m s n))%nat as [|k] eqn:Ek; [|done].
      cbn. case Z.leb_spec; [lia|done].
Qed.

Lemma ha_put_get_same m p n : ha_ok m -> ha_equiv (ha_put m p (ha_get_n m p n)) m.
Proof.
  intros Hm j. rewrite ha_get_put. destruct (decide (Z.to_nat (j - p) < n)%nat) as [Hlt|Hge].
  - rewrite ha_get_n_lookup by done. case Z.leb_spec; [intros|done].
    replace (p + Z.of_nat (Z.to_nat (j - p))) with j by lia. apply wrap_small. by apply ha_get_ok.
  - rewrite lookup_ge_None_2; [done|]. rewrite length_ha_get_n. lia.
Qed.

(** [memmove] is right however the blocks overlap. *)
Lemma memmove_put n d s m : ha_ok m -> ha_equiv (memmove n d s m) (ha_put m d (ha_get_n m s n)).
Proof.
  intros Hm. unfold memmove. destruct (Z.eqb_spec d s) as [->|Hne]; cbn [orb].
  - symmetry. by apply ha_put_get_same.
  - destruct n as [|n]; [done|]. cbn [Nat.eqb]. destruct (Z.ltb_spec d s).
    + apply memcpy_put. lia.
    + apply copy_down_put. lia.
Qed.

(** [strcpy] copies the string and its terminator. *)
Lemma strcpy_cstr fuel dst src cs m :
  cstr m src cs -> (length cs < fuel)%nat ->
  dst <= src \/ src + Z.of_nat (length cs) < dst ->
  exists m', strcpy fuel dst src m = Some m' /\ ha_equiv m' (ha_put m dst (cs ++ [0])).
Proof.
  revert dst src m fuel; induction cs as [|c cs IH]; intros dst src m fuel Hs Hf Hd;
    (destruct fuel as [|fuel]; [cbn in Hf; lia|]); cbn [strcpy].
  - apply cstr_nil in Hs. rewrite Hs. cbn. by eexists.
  - apply cstr_cons in Hs as (-> & Hc & Hs). rewrite (proj2 (Z.eqb_neq _ _) Hc). cbn [length] in *.
    apply (IH (dst + 1) (src + 1) (ha_set m dst c)); [|lia|lia].
    apply cstr_set; [done|lia].
Qed.

(** [strncpy] writes exactly [n] characters: the string, cut or padded. *)
Lemma strncpy_pad_put n dst m : strncpy_pad n dst m = ha_put m dst (replicate n 0).
Proof. revert dst m; induction n as [|n IH]; intros dst m; [done|]. cbn. apply IH. Qed.

Lemma strncpy_cstr n dst src cs m :
  cstr m src cs -> dst <= src \/ src + Z.of_nat (length cs) < dst ->
  ha_equiv (strncpy n dst src m) (ha_put m dst (take n (cs ++ replicate (n - length cs) 0))).
Proof.
  revert n dst src m; induction cs as [|c cs IH]; intros n dst src m Hs Hd; destruct n as [|n]; try done;
    cbn [strncpy].
  - apply cstr_nil in Hs. rewrite Hs. cbn [Z.eqb]. rewrite strncpy_pad_put.
    cbn [app length]. rewrite Nat.sub_0_r, take_ge by (rewrite length_replicate; lia). done.
  - apply cstr_cons in Hs as (-> & Hc & Hs). rewrite (proj2 (Z.eqb_neq _ _) Hc). cbn [length] in *.
    rewrite IH; [done| |lia]. apply cstr_set; [done|lia].
Qed.

(** [strcat] appends. *)
Lemma strcat_cstr fuel dst src ds cs m :
  cstr m dst ds -> cstr m src cs -> (length ds < fuel)%nat -> (length cs < fuel)%nat ->
  src + Z.of_nat (length cs) < dst + Z.of_nat (length ds) \/ dst + Z.of_nat (length ds) <= src ->
  exists m', strcat fuel dst src m = Some m' /\
    ha_equiv m' (ha_put m (dst + Z.of_nat (length ds)) (cs ++ [0])).
Proof.
  intros Hd Hs Hf1 Hf2 Hdis. unfold strcat. rewrite (strlen_cstr m dst ds) by done. cbn.
  apply strcpy_cstr; [done|done|lia].
Qed.

(** ** Comparison *)

(** The difference at the first position where the strings differ, the
    terminator counting as a character. *)
Fixpoint str_diff (a b : list Z) : Z :=
  match a, b with
  | [], [] => 0
  | [], y :: _ => 0 - y
  | x :: _, [] => x - 0
  | x :: a', y :: b' => if x =? y then str_diff a' b' else x - y
  end.

Lemma str_diff_zero a b : str_diff a b = 0 -> Forall (fun c => c <> 0) a -> Forall (fun c => c <> 0) b -> a = b.
Proof.
  revert b; induction a as [|x a IH]; intros [|y b]; cbn; try done.
  - intros E _ Hb. apply Forall_cons in Hb as [? _]. lia.
  - intros E Ha. apply Forall_cons in Ha as [? _]. lia.
  - destruct (Z.eqb_spec x y) as [->|]; [|lia]. intros E [_ Ha]%Forall_cons [_ Hb]%Forall_cons. f_equal. auto.
Qed.

Lemma strcmp_cstr fuel m p q cs ds :
  cstr m p cs -> cstr m q ds -> (length cs < fuel)%nat -> strcmp fuel m p q = Some (str_diff cs ds).
Proof.
  revert p q ds fuel; induction cs as [|c cs IH]; intros p q ds fuel Hs Hd Hf;
    (destruct fuel as [|fuel]; [cbn in Hf; lia|]); cbn [strcmp].
  - apply cstr_nil in Hs. rewrite Hs. cbn [Z.eqb negb andb].
    destruct ds as [|d ds]; [apply cstr_nil in Hd|apply cstr_cons in Hd as [Hd _]]; by rewrite Hd.
  - apply cstr_cons in Hs as (-> & Hc & Hs). rewrite (proj2 (Z.eqb_neq _ _) Hc). cbn [negb andb].
    destruct ds as [|d ds].
    + apply cstr_nil in Hd. rewrite Hd, (proj2 (Z.eqb_neq _ _) Hc). done.
    + apply cstr_cons in Hd as (-> & Hd0 & Hd). cbn [str_diff]. destruct (Z.eqb_spec c d) as [->|]; [|done].
      apply IH; [done|done|]. cbn in Hf. lia.
Qed.

(** Equality of C strings is what [strcmp] decides. *)
Lemma strcmp_eq fuel m p q cs ds :
  cstr m p cs -> cstr m q ds -> (length cs < fuel)%nat -> strcmp fuel m p q = Some 0 <-> cs = ds.
Proof.
  intros Hs Hd Hf. rewrite (strcmp_cstr fuel m p q cs ds) by done. split.
  - intros [= E]. apply str_diff_zero; [done|apply Hs|apply Hd].
  - intros ->. f_equal. clear. induction ds as [|d ds IH]; cbn; [done|]. by rewrite Z.eqb_refl.
Qed.

Lemma memcmp_diff n m p q :
  memcmp n m p q = str_diff (ha_get_n m p n) (ha_get_n m q n).
Proof.
  revert p q; induction n as [|n IH]; intros p q; [done|]. cbn. rewrite IH. by destruct (_ =? _).
Qed.

Lemma strncmp_diff n m p q cs ds :
  cstr m p cs -> cstr m q ds -> strncmp n m p q = str_diff (take n cs) (take n ds).
Proof.
  revert p q cs ds; induction n as [|n IH]; intros p q cs ds Hs Hd; [done|]. cbn [strncmp].
  destruct cs as [|c cs].
  - apply cstr_nil in Hs. rewrite Hs. cbn [Z.eqb negb andb].
    destruct ds as [|d ds]; [apply cstr_nil in Hd|apply cstr_cons in Hd as [Hd _]]; by rewrite Hd.
  - apply cstr_cons in Hs as (-> & Hc & Hs). rewrite (proj2 (Z.eqb_neq _ _) Hc). cbn [negb andb].
    destruct ds as [|d ds].
    + apply cstr_nil in Hd. rewrite Hd, (proj2 (Z.eqb_neq _ _) Hc). done.
    + apply cstr_cons in Hd as (-> & Hd0 & Hd). cbn [take str_diff]. destruct (Z.eqb_spec c d) as [->|]; [|done].
      by apply IH.
Qed.
