(* ===== verification/KStdlib.v ===== *)
(** * klib: ctype.c and stdlib.c

    Characters are their codes.  A string argument is the list of its
    characters, the terminator left out: reading past the end reads 0.  The
    four conversion functions share their shape and differ in the sign and the
    width of the result; a signed result that overflows is undefined.  [wl] is
    the width of [long], [size_t] and pointers. *)
From S2P Require Import Prelude Outcome.
#[local] Open Scope string_scope.
#[local] Open Scope Z_scope.

(** ** ctype.c *)

Definition iscntrl (c : Z) : bool := ((0 <=? c) && (c <=? 0x1f)) || (c =? 0x7f).
Definition isblank (c : Z) : bool := (c =? 9) || (c =? 32).
Definition isspace (c : Z) : bool := (c =? 32) || ((9 <=? c) && (c <=? 13)).
Definition isupper (c : Z) : bool := (65 <=? c) && (c <=? 90).
Definition islower (c : Z) : bool := (97 <=? c) && (c <=? 122).
Definition isalpha (c : Z) : bool := isupper c || islower c.
Definition isdigit (c : Z) : bool := (48 <=? c) && (c <=? 57).
Definition isxdigit (c : Z) : bool := isdigit c || ((65 <=? c) && (c <=? 70)) || ((97 <=? c) && (c <=? 102)).
Definition isalnum (c : Z) : bool := isalpha c || isdigit c.
Definition ispunct (c : Z) : bool :=
  ((33 <=? c) && (c <=? 47)) || ((58 <=? c) && (c <=? 64)) || ((91 <=? c) && (c <=? 96))
  || ((123 <=? c) && (c <=? 126)).
Definition isgraph (c : Z) : bool := (33 <=? c) && (c <=? 126).
Definition isprint (c : Z) : bool := (32 <=? c) && (c <=? 126).
Definition tolower (c : Z) : Z := if isupper c then c - 65 + 97 else c.
Definition toupper (c : Z) : Z := if islower c then c - 97 + 65 else c.

(** ** Conversions *)

Definition digit_value (c : Z) : Z :=
  if isdigit c then c - 48 else if isupper c then c - 65 + 10 else if islower c then c - 97 + 10 else -1.

(** [str[i]] at the head of what is left of the string. *)
Definition head (cs : list Z) : Z := hd 0 cs.

Fixpoint skip_spaces (cs : list Z) (i : Z) : list Z * Z :=
  match cs with c :: cs' => if isspace c then skip_spaces cs' (i + 1) else (cs, i) | [] => (cs, i) end.

(** The sign; the unsigned functions take only a plus. *)
Definition take_sign (sg : bool) (cs : list Z) (i : Z) : bool * list Z * Z :=
  if head cs =? 43 then (false, tail cs, i + 1)
  else if sg && (head cs =? 45) then (true, tail cs, i + 1)
  else (false, cs, i).

Definition is_x (c : Z) : bool := (c =? 120) || (c =? 88).

(** The base prefix. *)
Definition take_prefix (base : Z) (cs : list Z) (i : Z) : Z * list Z * Z :=
  if base =? 0 then
    if head cs =? 48 then
      if is_x (head (tail cs)) then (16, tail (tail cs), i + 2) else (8, tail cs, i + 1)
    else (10, cs, i)
  else if (base =? 16) && (head cs =? 48) then
    if is_x (head (tail cs)) then (base, tail (tail cs), i + 2) else (base, tail cs, i + 1)
  else (base, cs, i).

(** The digit loop; [acc_step] is [result = result * base + digit] in the type
    of the result. *)
Section Digits.
Variable acc_step : Z -> Z -> Z -> outcome Z.

Fixpoint digit_loop (base : Z) (cs : list Z) (result i : Z) : outcome (Z * Z) :=
  match cs with
  | [] => Ok (result, i)
  | c :: cs' =>
      let digit := digit_value c in
      if (digit <? 0) || (base <=? digit) then Ok (result, i)
      else r ← acc_step result base digit; digit_loop base cs' r (i + 1)
  end.
End Digits.

Definition signed_step (w r base d : Z) : outcome Z :=
  if decide (in_s w (r * base)) then
    if decide (in_s w (r * base + d)) then Ok (r * base + d) else Undef "signed overflow"
  else Undef "signed overflow".
Definition unsigned_step (w r base d : Z) : outcome Z := Ok (wrap w (r * base + d)).

Definition bad_base (base : Z) : bool := negb (base =? 0) && ((base <? 2) || (36 <? base)).

(** The result and the offset stored through [endptr]. *)
Definition strto_signed (w : Z) (str : list Z) (base : Z) : outcome (Z * Z) :=
  if bad_base base then Ok (0, 0) else
  let (cs, i) := skip_spaces str 0 in
  let '(negative, cs, i) := take_sign true cs i in
  let '(base, cs, i) := take_prefix base cs i in
  r ← digit_loop (signed_step w) base cs 0 i;
  Ok (if negative then - r.1 else r.1, r.2).

Definition strto_unsigned (w : Z) (str : list Z) (base : Z) : outcome (Z * Z) :=
  if bad_base base then Ok (0, 0) else
  let (cs, i) := skip_spaces str 0 in
  let '(_, cs, i) := take_sign false cs i in
  let '(base, cs, i) := take_prefix base cs i in
  digit_loop (unsigned_step w) base cs 0 i.

Section Stdlib.
Variable wl : Z.

Definition strtol (str : list Z) (base : Z) : outcome (Z * Z) := strto_signed wl str base.
Definition strtoll (str : list Z) (base : Z) : outcome (Z * Z) := strto_signed 64 str base.
Definition strtoul (str : list Z) (base : Z) : outcome (Z * Z) := strto_unsigned wl str base.
Definition strtoull (str : list Z) (base : Z) : outcome (Z * Z) := strto_unsigned 64 str base.
Definition atoi (nptr : list Z) : outcome Z := r ← strtol nptr 10; Ok (s32 r.1).
Definition atol (nptr : list Z) : outcome Z := r ← strtol nptr 10; Ok r.1.
Definition atoll (nptr : list Z) : outcome Z := r ← strtoll nptr 10; Ok r.1.

Definition abs (x : Z) : outcome Z :=
  if x <? 0 then if x =? - 2 ^ 31 then Undef "signed overflow" else Ok (- x) else Ok x.

(** ** rand *)

Definition RAND_MAX : Z := 32767.

(** The value and the new [random_seed]. *)
Definition rand (random_seed : Z) : Z * Z :=
  let s := if random_seed =? 0 then 0x7a2d5eed else random_seed in
  let feedback := Z.lxor 0 (Z.lor (Z.shiftr s 31) 1) in
  let feedback := Z.lxor feedback (Z.lor (Z.shiftr s 21) 1) in
  let feedback := Z.lxor feedback (Z.lor (Z.shiftr s 1) 1) in
  let feedback := Z.lxor feedback (Z.lor (Z.shiftr s 0) 1) in
  let s := Z.shiftr s 1 in
  let s := Z.lor s (u32 (Z.shiftl feedback 31)) in
  (Z.shiftr s 1 mod RAND_MAX, s).

Definition srand (seed : Z) : Z := seed.

(** ** malloc *)

(** [heap] of am.h, and the static variable [ptr]; 0 is NULL. *)
Variables heap_start heap_end : Z.

Definition ROUNDUP (a sz : Z) : Z := Z.land (wrap wl (a + sz - 1)) (wrap wl (Z.lnot (sz - 1))).

Definition malloc (size ptr : Z) : Z * Z :=
  let ptr := if ptr =? 0 then heap_end else ptr in
  let size := ROUNDUP size (wl / 8) in
  if wrap wl (ptr - size) <? heap_start then (0, ptr)
  else let ptr := wrap wl (ptr - size) in (ptr, ptr).
End Stdlib.

(** ** The digit loops compute the number *)

(** The value of a list of digits, most significant first. *)
Definition num (base : Z) (ds : list Z) : Z := foldl (fun acc d => acc * base + d) 0 ds.

Lemma num_snoc base ds d : num base (ds ++ [d]) = num base ds * base + d.
Proof. unfold num. by rewrite foldl_app. Qed.

Definition digits_ok (base : Z) (cs : list Z) : Prop := Forall (fun c => 0 <= digit_value c < base) cs.

Lemma num_range base ds : 2 <= base -> Forall (fun d => 0 <= d < base) ds -> 0 <= num base ds < base ^ Z.of_nat (length ds).
Proof.
  intros Hb. induction ds as [|d ds IH] using rev_ind; [cbn; lia|].
  intros [Hds Hd]%Forall_app. apply Forall_cons in Hd as [Hd _]. specialize (IH Hds).
  rewrite num_snoc, length_app. cbn [length]. rewrite Nat2Z.inj_add. change (Z.of_nat 1) with 1.
    rewrite Z.pow_add_r, Z.pow_1_r by lia. generalize dependent (base ^ Z.of_nat (length ds)). intros p Hp. nia.
Qed.

(** Reading the digits [cs] followed by a non-digit. *)
Lemma digit_loop_unsigned w base cs rest r i :
  0 <= w -> digits_ok base cs -> (rest = [] \/ digit_value (head rest) < 0 \/ base <= digit_value (head rest)) ->
  digit_loop (unsigned_step w) base (cs ++ rest) (wrap w r) i =
  Ok (wrap w (foldl (fun acc d => acc * base + d) r (map digit_value cs)), i + Z.of_nat (length cs)).
Proof.
  intros Hw. revert r i; induction cs as [|c cs IH]; intros r i Hc Hrest.
  - cbn [app map foldl length]. rewrite Z.add_0_r. destruct rest as [|c rest]; [done|]. cbn [digit_loop].
    destruct Hrest as [|Hrest]; [done|]. cbn in Hrest.
    destruct (Z.ltb_spec (digit_value c) 0), (Z.leb_spec base (digit_value c)); try done. lia.
  - apply Forall_cons in Hc as [Hd Hc]. cbn [app digit_loop map foldl length].
    rewrite (proj2 (Z.ltb_ge _ _)), (proj2 (Z.leb_gt _ _)) by lia. cbn [orb].
    assert (unsigned_step w (wrap w r) base (digit_value c) = Ok (wrap w (r * base + digit_value c))) as ->.
    { unfold unsigned_step. f_equal. by rewrite <- (wrap_add_l w (_ * _)), wrap_mul_l, wrap_add_l. }
    cbn [mbind outcome_bind]. rewrite IH by done. do 2 f_equal. lia.
Qed.

(** ** rand *)

(** The four feedback terms have their low bit set, so their sum is even and the
    shift register only ever shifts zeros in. *)
Lemma rand_seed s : in_u 32 s -> (rand s).2 = (if s =? 0 then 0x7a2d5eed else s) / 2.
Proof.
  intros Hs. unfold rand. cbn [snd]. set (x := if s =? 0 then 0x7a2d5eed else s).
  assert (in_u 32 x) as Hx by (unfold x; case_match; [unfold in_u; lia|done]).
  rewrite <- Z.shiftr_div_pow2 with (n := 1) by lia.
  match goal with |- Z.lor _ (u32 (Z.shiftl ?f 31)) = _ => set (fb := f) end.
  assert (u32 (Z.shiftl fb 31) = 0) as ->; [|apply Z.lor_0_r].
  apply Z.bits_inj'. intros i Hi. rewrite testbit_wrap, testbit_shiftl, Z.testbit_0_l by lia.
  destruct (Z.ltb_spec i 32); [|done]. cbn [andb]. destruct (Z.ltb_spec i 31).
  - apply Z.testbit_neg_r. lia.
  - replace i with 31 by lia. unfold fb. rewrite !Z.lxor_spec, !Z.lor_spec. cbn. by rewrite !orb_true_r.
Qed.

Lemma rand_range s : in_u 32 s -> 0 <= (rand s).1 < RAND_MAX.
Proof. intros _. apply Z.mod_pos_bound. unfold RAND_MAX. lia. Qed.

(** The seed is shifted out: after as many calls as it has bits it is gone. *)
Lemma rand_seed_iter n s :
  in_u 32 s -> (forall k, (k < n)%nat -> s / 2 ^ Z.of_nat k <> 0) ->
  Nat.iter n (fun x => (rand x).2) s = s / 2 ^ Z.of_nat n.
Proof.
  intros Hs. induction n as [|n IH]; intros Hk; [cbn; by rewrite Z.div_1_r|].
  cbn [Nat.iter nat_rect]. unfold Nat.iter in IH. rewrite IH by (intros; apply Hk; lia).
  specialize (Hk n ltac:(lia)). pose proof (pow2_pos (Z.of_nat n) ltac:(lia)) as Hp.
  rewrite rand_seed.
  - rewrite (proj2 (Z.eqb_neq _ _)) by done. rewrite Z.div_div, Nat2Z.inj_succ, Z.pow_succ_r by lia. f_equal. lia.
  - unfold in_u in *. split; [apply Z.div_pos; lia|]. apply Z.div_lt_upper_bound; [done|]. nia.
Qed.

Lemma rand_forgets s : in_u 32 s -> s <> 0 -> Nat.iter (Z.to_nat (Z.log2 s + 1)) (fun x => (rand x).2) s = 0.
Proof.
  intros Hs Hz. unfold in_u in Hs. pose proof (Z.log2_spec s ltac:(lia)) as [L1 L2].
  pose proof (Z.log2_nonneg s).
  rewrite rand_seed_iter; [|done|].
  - rewrite Z2Nat.id by lia. apply Z.div_small. rewrite Z.add_1_r. lia.
  - intros k Hk E. apply Z.div_small_iff in E; [|pose proof (pow2_pos (Z.of_nat k)); lia].
    pose proof (Z.pow_le_mono_r 2 (Z.of_nat k) (Z.log2 s)). lia.
Qed.

(** ** malloc *)

Section Malloc.
Variables (wl heap_start heap_end : Z).
Context (Hwl : wl = 32 \/ wl = 64) (Hheap : 0 < heap_start <= heap_end) (Hend : heap_end < 2 ^ wl).

(** Size in whole words. *)
Definition word_size (n : Z) : Z := (n + wl / 8 - 1) / (wl / 8) * (wl / 8).

Lemma ROUNDUP_spec n : 0 <= n -> n + wl / 8 - 1 < 2 ^ wl -> ROUNDUP wl n (wl / 8) = word_size n.
Proof using Hwl.
  clear Hheap Hend. intros Hn Hlt. unfold ROUNDUP, word_size.
  assert (exists k, 0 <= k <= 3 /\ wl / 8 = 2 ^ k) as (k & Hk & Ek).
  { destruct Hwl as [-> | ->]; [exists 2|exists 3]; split; try lia; reflexivity. }
  rewrite Ek in *. pose proof (pow2_pos k ltac:(lia)) as Hpk. rewrite (wrap_small wl (n + 2 ^ k - 1)) by (unfold in_u; lia).
  assert (2 ^ k < 2 ^ wl) by (apply Z.pow_lt_mono_r; destruct Hwl; lia).
  apply Z.bits_inj'. intros i Hi. rewrite Z.land_spec, testbit_wrap, Z.lnot_spec by lia.
  replace (2 ^ k - 1) with (Z.ones k) by (rewrite Z.ones_equiv; lia).
  rewrite testbit_ones, <- Z.shiftr_div_pow2, <- Z.shiftl_mul_pow2 by lia.
  rewrite testbit_shiftl by lia. destruct (Z.ltb_spec i k).
  - rewrite (Z.testbit_neg_r _ (i - k)) by lia. cbn. rewrite !andb_false_r. done.
  - rewrite Z.shiftr_spec by lia. replace (i - k + k) with i by lia. cbn [negb].
    destruct (Z.ltb_spec i wl); [by rewrite andb_true_r|].
    rewrite (testbit_high wl) by (unfold in_u; lia). done.
Qed.

(** A request that fits: the block below the previous one, or NULL. *)
Lemma malloc_run n ptr :
  0 <= n -> word_size n <= heap_start -> (ptr = 0 \/ heap_start <= ptr <= heap_end) ->
  let p := if ptr =? 0 then heap_end else ptr in
  malloc wl heap_start heap_end n ptr =
  if p - word_size n <? heap_start then (0, p) else (p - word_size n, p - word_size n).
Proof using Hwl Hheap Hend.
  intros Hn Hsz Hptr p. unfold malloc. fold p.
  assert (wl / 8 = 4 \/ wl / 8 = 8) as Hw8 by (destruct Hwl as [-> | ->]; [left|right]; done).
  assert (n <= word_size n < n + wl / 8) as Hws.
  { unfold word_size. destruct Hw8 as [-> | ->]; Z.to_euclidean_division_equations; lia. }
  assert (n + wl / 8 - 1 < 2 ^ wl) as Hlt.
  { assert (8 < 2 ^ wl - heap_end \/ n + wl / 8 - 1 <= word_size n + 7) as _ by lia.
    assert (word_size n mod (wl / 8) = 0) as Hm.
    { unfold word_size. apply Z.mod_mul. lia. }
    assert (2 ^ wl mod (wl / 8) = 0) as Hm2 by (destruct Hwl as [-> | ->]; reflexivity).
    destruct Hw8 as [E|E]; rewrite E in *; Z.to_euclidean_division_equations; lia. }
  rewrite ROUNDUP_spec by lia.
  assert (heap_start <= p <= heap_end) as Hp by (unfold p; destruct (Z.eqb_spec ptr 0); lia).
  rewrite wrap_small by (unfold in_u; lia). done.
Qed.

(** Blocks handed out so far: inside the heap, below one another. *)
Fixpoint stacked (ptr : Z) (blocks : list (Z * Z)) : Prop :=
  match blocks with
  | [] => ptr = heap_end
  | (p, n) :: bs => p = ptr /\ heap_start <= p /\ 0 <= n /\ exists q, p + n <= q /\ stacked q bs
  end.

Lemma stacked_le ptr bs : stacked ptr bs -> ptr <= heap_end.
Proof using Type.
  clear Hwl Hheap Hend. revert ptr; induction bs as [|[p n] bs IH]; intros ptr; cbn; [lia|].
  intros (-> & _ & Hn & q & Hq & Hs). specialize (IH q Hs). lia.
Qed.

Lemma stacked_above ptr bs p n : stacked ptr bs -> (p, n) ∈ bs -> ptr <= p /\ p + n <= heap_end.
Proof using Type.
  clear Hwl Hheap Hend. revert ptr; induction bs as [|[p0 n0] bs IH]; intros ptr; [set_solver|].
  intros (-> & _ & Hn & q & Hq & Hs) [[= -> ->]|Hin]%elem_of_cons.
  - pose proof (stacked_le _ _ Hs). lia.
  - destruct (IH _ Hs Hin). lia.
Qed.

(** Distinct blocks never overlap. *)
Lemma stacked_disjoint ptr bs i j p1 n1 p2 n2 :
  stacked ptr bs -> bs !! i = Some (p1, n1) -> bs !! j = Some (p2, n2) -> (i < j)%nat -> p1 + n1 <= p2.
Proof using Type.
  clear Hwl Hheap Hend. revert ptr i j; induction bs as [|[p0 n0] bs IH]; intros ptr i j; [done|].
  intros (-> & _ & Hn & q & Hq & Hs) H1 H2 Hij. destruct j as [|j]; [lia|]. cbn in H2. destruct i as [|i].
  - injection H1 as <- <-. apply list_elem_of_lookup_2 in H2. destruct (stacked_above _ _ _ _ Hs H2). lia.
  - eapply (IH q i j); eauto. lia.
Qed.

Lemma malloc_stacked n ptr bs :
  0 <= n -> word_size n <= heap_start -> (ptr = 0 /\ bs = [] \/ heap_start <= ptr /\ stacked ptr bs) ->
  let r := malloc wl heap_start heap_end n ptr in
  (r.1 = 0 /\ (if ptr =? 0 then r.2 = heap_end else r.2 = ptr)) \/
  (r.1 = r.2 /\ stacked r.2 ((r.1, n) :: bs)).
Proof using Hwl Hheap Hend.
  intros Hn Hsz Hs. cbv zeta.
  assert (wl / 8 = 4 \/ wl / 8 = 8) as Hw8 by (destruct Hwl as [-> | ->]; [left|right]; done).
  assert (n <= word_size n) as Hws.
  { unfold word_size. destruct Hw8 as [-> | ->]; Z.to_euclidean_division_equations; lia. }
  rewrite malloc_run; [|done|done|destruct Hs as [[-> _]|[? Hst]]; [by left|right; split; [done|by eapply stacked_le]]].
  destruct (Z.ltb_spec ((if ptr =? 0 then heap_end else ptr) - word_size n) heap_start); cbn [fst snd].
  - left. split; [done|]. by case_match.
  - right. split; [done|]. cbn [stacked]. split; [done|]. split; [lia|]. split; [done|].
    exists (if ptr =? 0 then heap_end else ptr). split; [lia|].
    destruct Hs as [[-> ->]|[Hge Hst]]; [done|]. destruct (Z.eqb_spec ptr 0); [lia|done].
Qed.

(** A huge request wraps to a block of size 0 and succeeds. *)
Lemma malloc_wraps ptr :
  heap_start <= ptr <= heap_end -> malloc wl heap_start heap_end (2 ^ wl - 1) ptr = (ptr, ptr).
Proof using Hwl Hheap Hend.
  intros Hp. unfold malloc. rewrite (proj2 (Z.eqb_neq ptr 0)) by lia.
  assert (ROUNDUP wl (2 ^ wl - 1) (wl / 8) = 0) as -> by (destruct Hwl as [-> | ->]; reflexivity).
  rewrite Z.sub_0_r, wrap_small by (unfold in_u; lia).
  rewrite (proj2 (Z.ltb_ge _ _)) by lia. done.
Qed.
End Malloc.
