(* ===== verification/KStdio.v ===== *)
(** * klib: stdio.c

    The printf engine, written over its state: either a [putch] sink or a
    buffer in memory with a limit, and the count of characters.  Format strings
    and string arguments are lists of characters without the terminator; the
    variadic arguments are a list of tagged values.  [wl] is the width of
    [size_t] and [long].

    The engine is [textual]: what it produces is a list of characters that does
    not depend on the state, so that [vsnprintf] stores the beginning of what
    [printf] prints, and a terminator. *)
From S2P Require Import Prelude Outcome Bytes KStdlib.
#[local] Open Scope string_scope.
#[local] Open Scope Z_scope.

Record printf_state := {
  to_putch : bool;             (* putch_fn != NULL *)
  sink : list Z;               (* what putch received *)
  pmem_ : harray; dest : Z;    (* the memory and the buffer *)
  count : Z; max_count : Z;
}.

(** A variadic argument, by the type it was passed with. *)
Inductive va :=
| VInt (v : Z) | VLong (v : Z) | VLLong (v : Z) | VDouble | VPtr (p : Z) | VStr (s : option (list Z)).

Section Stdio.
Variable wl : Z.

Definition printf_putch (st : printf_state) (ch : Z) : printf_state :=
  let st :=
    if count st <? max_count st then
      if to_putch st then {st with sink ::= (fun o => o ++ [ch])%list}
      else {st with pmem_ := ha_set (pmem_ st) (dest st + count st) ch}
    else st in
  {st with count := wrap wl (count st + 1)}.

Fixpoint pad_loop (n : nat) (ch : Z) (st : printf_state) : printf_state :=
  match n with O => st | S n' => pad_loop n' ch (printf_putch st ch) end.
Definition printf_pad (st : printf_state) (ch n : Z) : printf_state := pad_loop (Z.to_nat n) ch st.

Definition SPACE : Z := 32.
Definition ZERO : Z := 48.
Definition MINUS : Z := 45.

Definition printf_char (st : printf_state) (ch width : Z) (left_justified : bool) : printf_state :=
  let st := if negb left_justified && (1 <? width) then printf_pad st SPACE (width - 1) else st in
  let st := printf_putch st ch in
  if left_justified && (1 <? width) then printf_pad st SPACE (width - 1) else st.

Definition null_string : list Z := [40; 110; 117; 108; 108; 41].

Definition printf_string (st : printf_state) (str : option (list Z)) (width : Z) (left_justified : bool)
  : printf_state :=
  let str := default null_string str in
  let len := Z.of_nat (length str) in
  let st := if negb left_justified && (len <? width) then printf_pad st SPACE (width - len) else st in
  let st := foldl printf_putch st str in
  if left_justified && (len <? width) then printf_pad st SPACE (width - len) else st.

Definition digit_char (upper_case : bool) (rem : Z) : Z :=
  if rem <? 10 then rem + 48 else rem - 10 + (if upper_case then 65 else 97).

(** The do-while loop: [buffer[0..n_digits)], least significant first; 64
    iterations are enough for any 64-bit number. *)
Fixpoint digits_buffer (fuel : nat) (n base : Z) (upper_case : bool) : list Z :=
  match fuel with
  | O => []
  | S f =>
      let c := digit_char upper_case (n mod base) in
      if n / base =? 0 then [c] else c :: digits_buffer f (n / base) base upper_case
  end.

Definition printf_unsigned (st : printf_state) (n base width : Z) (left_justified : bool) (padding : Z)
  (upper_case : bool) : printf_state :=
  let buffer := digits_buffer 64 n base upper_case in
  let digits := Z.of_nat (length buffer) in
  let st := if negb left_justified && (digits <? width) then printf_pad st padding (width - digits) else st in
  let st := foldl printf_putch st (rev buffer) in
  if left_justified && (digits <? width) then printf_pad st SPACE (width - digits) else st.

Definition printf_signed (st : printf_state) (n width : Z) (left_justified : bool) (padding sign : Z)
  : printf_state :=
  let neg := n <? 0 in
  let val := if neg then u64 (- u64 n) else u64 n in
  let (st, width) :=
    if neg || negb (sign =? 0) then
      let (st, width) :=
        if negb left_justified && (padding =? SPACE) && (0 <? width)
        then (printf_pad st SPACE (width - 1), 1) else (st, width) in
      let st := printf_putch st (if neg then MINUS else sign) in
      (st, if 0 <? width then width - 1 else width)
    else (st, width) in
  printf_unsigned st val 10 width left_justified padding false.

(** ** Parsing a conversion specification *)

Record flags := { left_justified : bool; sign_ : Z; padding_ : Z }.
Definition flags0 : flags := {| left_justified := false; sign_ := 0; padding_ := SPACE |}.

Fixpoint parse_flags (fmt : list Z) (f : flags) : flags * list Z :=
  match fmt with
  | c :: fmt' =>
      if c =? 45 then parse_flags fmt' {f with left_justified := true}
      else if c =? 43 then parse_flags fmt' {f with sign_ := 43}
      else if c =? 32 then parse_flags fmt' {f with sign_ := 32}
      else if c =? 48 then parse_flags fmt' {f with padding_ := 48}
      else if c =? 35 then parse_flags fmt' f
      else (f, fmt)
  | [] => (f, fmt)
  end.

Fixpoint parse_width (fmt : list Z) (width : Z) : Z * list Z :=
  match fmt with
  | c :: fmt' => if isdigit c then parse_width fmt' (wrap wl (width * 10 + c - 48)) else (width, fmt)
  | [] => (width, fmt)
  end.

Fixpoint skip_digits (fmt : list Z) : list Z :=
  match fmt with c :: fmt' => if isdigit c then skip_digits fmt' else fmt | [] => fmt end.
Definition skip_precision (fmt : list Z) : list Z :=
  match fmt with c :: fmt' => if c =? 46 then skip_digits fmt' else fmt | [] => fmt end.

Fixpoint parse_length (fmt : list Z) (level : Z) : Z * list Z :=
  match fmt with
  | c :: fmt' =>
      if c =? 108 then parse_length fmt' (level + 1)
      else if c =? 104 then parse_length fmt' (level - 1) else (level, fmt)
  | [] => (level, fmt)
  end.

(** What the length modifiers select. *)
Definition arg_signed (level : Z) (a : va) : outcome Z :=
  match a with
  | VLLong v => if 2 <=? level then Ok (s64 v) else Undef "va_arg type"
  | VLong v => if level =? 1 then Ok (sext wl v) else Undef "va_arg type"
  | VInt v => if level <? 1 then Ok (s32 v) else Undef "va_arg type"
  | _ => Undef "va_arg type"
  end.
Definition arg_unsigned (level : Z) (a : va) : outcome Z :=
  match a with
  | VLLong v => if 2 <=? level then Ok (u64 v) else Undef "va_arg type"
  | VLong v => if level =? 1 then Ok (wrap wl v) else Undef "va_arg type"
  | VInt v => if level <? 1 then Ok (u32 v) else Undef "va_arg type"
  | _ => Undef "va_arg type"
  end.

Definition next_arg (args : list va) : outcome (va * list va) :=
  match args with [] => Undef "no argument" | a :: args' => Ok (a, args') end.

(** The characters with a meaning. *)
Definition is_float (c : Z) : bool :=
  (c =? 102) || (c =? 70) || (c =? 101) || (c =? 69) || (c =? 103) || (c =? 71) || (c =? 97) || (c =? 65).

(** One conversion; [c] is the conversion character. *)
Definition convert (st : printf_state) (f : flags) (width level c : Z) (args : list va)
  : outcome (printf_state * list va) :=
  let lj := left_justified f in
  if c =? 37 then Ok (printf_char st 37 width lj, args)
  else if c =? 99 then
    '(a, args) ← next_arg args;
    match a with VInt v => Ok (printf_char st (u8 v) width lj, args) | _ => Undef "va_arg type" end
  else if c =? 115 then
    '(a, args) ← next_arg args;
    match a with VStr s => Ok (printf_string st s width lj, args) | _ => Undef "va_arg type" end
  else if (c =? 100) || (c =? 105) then
    '(a, args) ← next_arg args;
    v ← arg_signed level a; Ok (printf_signed st v width lj (padding_ f) (sign_ f), args)
  else if c =? 117 then
    '(a, args) ← next_arg args;
    v ← arg_unsigned level a; Ok (printf_unsigned st v 10 width lj (padding_ f) false, args)
  else if c =? 112 then
    let st := printf_putch (printf_putch st 48) 120 in
    '(a, args) ← next_arg args;
    match a with
    | VPtr p => Ok (printf_unsigned st (wrap wl p) 16 width lj (padding_ f) false, args)
    | _ => Undef "va_arg type"
    end
  else if (c =? 120) || (c =? 88) then
    '(a, args) ← next_arg args;
    v ← arg_unsigned level a; Ok (printf_unsigned st v 16 width lj (padding_ f) (c =? 88), args)
  else if c =? 111 then
    '(a, args) ← next_arg args;
    v ← arg_unsigned level a; Ok (printf_unsigned st v 8 width lj (padding_ f) false, args)
  else if is_float c then
    '(a, args) ← next_arg args;
    match a with VDouble => Ok (st, args) | _ => Undef "va_arg type" end
  else Ok (printf_putch (printf_putch st 37) c, args).

(** Flags, width, precision, length modifiers. *)
Definition parse_spec (fmt : list Z) : flags * Z * Z * list Z :=
  let (f, fmt) := parse_flags fmt flags0 in
  let (width, fmt) := parse_width fmt 0 in
  let fmt := skip_precision fmt in
  let (level, fmt) := parse_length fmt 0 in
  (f, width, level, fmt).

(** [while ( *fmt )]; every iteration consumes a character, so the length of the
    format is fuel enough ([backend_fuel]). *)
Fixpoint backend_loop (fuel : nat) (st : printf_state) (fmt : list Z) (args : list va) : outcome printf_state :=
  match fuel with
  | O => Undef "fuel"
  | S fuel' =>
      match fmt with
      | [] => Ok st
      | c :: fmt' =>
          if negb (c =? 37) then backend_loop fuel' (printf_putch st c) fmt' args
          else
            let '(f, width, level, fmt2) := parse_spec fmt' in
            match fmt2 with
            | [] => Ok st
            | c :: fmt3 =>
                '(st, args) ← convert st f width level c args;
                backend_loop fuel' st fmt3 args
            end
      end
  end.
Definition printf_backend (st : printf_state) (fmt : list Z) (args : list va) : outcome printf_state :=
  backend_loop (S (length fmt)) st fmt args.

(** ** Entry points *)

(** The characters sent to [putch] and the return value. *)
Definition printf (fmt : list Z) (args : list va) : outcome (list Z * Z) :=
  st ← printf_backend
         {| to_putch := true; sink := []; pmem_ := ha_zero; dest := 0; count := 0; max_count := wrap wl (-1) |}
         fmt args;
  Ok (sink st, s32 (count st)).

Definition vsnprintf (m : harray) (out n : Z) (fmt : list Z) (args : list va) : outcome (harray * Z) :=
  st ← printf_backend
         {| to_putch := false; sink := []; pmem_ := m; dest := out; count := 0;
            max_count := if n =? 0 then 0 else n - 1 |}
         fmt args;
  let m := if 0 <? n then ha_set (pmem_ st) (out + (if count st <? n then count st else n - 1)) 0
           else pmem_ st in
  Ok (m, s32 (count st)).
Definition snprintf := vsnprintf.
Definition vsprintf (m : harray) (out : Z) (fmt : list Z) (args : list va) : outcome (harray * Z) :=
  vsnprintf m out (wrap wl (-1)) fmt args.
Definition sprintf := vsprintf.
End Stdio.

(** ** The engine emits a text *)

(** The text [s] in a field of [w] characters. *)
Definition justify (lj : bool) (pad w : Z) (s : list Z) : list Z :=
  let k := Z.to_nat (w - Z.of_nat (length s)) in
  (if lj then s ++ replicate k SPACE else replicate k pad ++ s)%list.

Definition digits_text (n base : Z) (upper_case : bool) : list Z := rev (digits_buffer 64 n base upper_case).

(** The sign and the digits of [printf_signed], as the code lays them out. *)
Definition signed_text (n width : Z) (lj : bool) (padding sign : Z) : list Z :=
  let val := if n <? 0 then u64 (- u64 n) else u64 n in
  if (n <? 0) || negb (sign =? 0) then
    let c := if n <? 0 then MINUS else sign in
    if negb lj && (padding =? SPACE) && (0 <? width)
    then (replicate (Z.to_nat (width - 1)) SPACE ++ [c] ++ digits_text val 10 false)%list
    else (c :: justify lj padding (if 0 <? width then width - 1 else width) (digits_text val 10 false))
  else justify lj padding width (digits_text val 10 false).

Section Emit.
Variable wl : Z.

Definition emit (t : list Z) (st : printf_state) : printf_state := foldl (printf_putch wl) st t.

Lemma emit_app t1 t2 st : emit (t1 ++ t2)%list st = emit t2 (emit t1 st).
Proof. apply foldl_app. Qed.
Lemma emit_cons c t st : emit (c :: t) st = emit t (printf_putch wl st c).
Proof. done. Qed.

Lemma pad_loop_emit n ch st : pad_loop wl n ch st = emit (replicate n ch) st.
Proof. revert st; induction n; intros; cbn; auto. Qed.

Lemma printf_pad_emit st ch n : printf_pad wl st ch n = emit (replicate (Z.to_nat n) ch) st.
Proof. apply pad_loop_emit. Qed.

Lemma pad_nonpos n : n <= 0 -> Z.to_nat n = 0%nat.
Proof. lia. Qed.

(** Both fields of the engine are [justify]. *)
Lemma justify_emit (lj : bool) pad w s len st :
  len = Z.of_nat (length s) ->
  (let st := if negb lj && (len <? w) then printf_pad wl st pad (w - len) else st in
   let st := emit s st in
   if lj && (len <? w) then printf_pad wl st SPACE (w - len) else st) = emit (justify lj pad w s) st.
Proof.
  intros ->. cbv zeta. unfold justify. destruct lj; cbn [negb andb]; rewrite emit_app;
    (destruct (Z.ltb_spec (Z.of_nat (length s)) w); [by rewrite printf_pad_emit|]);
    by rewrite pad_nonpos by lia.
Qed.

Lemma printf_char_emit st ch w lj : printf_char wl st ch w lj = emit (justify lj SPACE w [ch]) st.
Proof. apply (justify_emit lj SPACE w [ch] 1 st). done. Qed.

Lemma printf_string_emit st str w lj :
  printf_string wl st str w lj = emit (justify lj SPACE w (default null_string str)) st.
Proof. by apply justify_emit. Qed.

Lemma printf_unsigned_emit st n base w lj pad up :
  printf_unsigned wl st n base w lj pad up = emit (justify lj pad w (digits_text n base up)) st.
Proof. apply justify_emit. unfold digits_text. by rewrite length_rev. Qed.

Lemma printf_signed_emit st n w lj pad sign :
  printf_signed wl st n w lj pad sign = emit (signed_text n w lj pad sign) st.
Proof.
  unfold printf_signed, signed_text. destruct ((n <? 0) || negb (sign =? 0)); [|apply printf_unsigned_emit].
  destruct (negb lj && (pad =? SPACE) && (0 <? w)) eqn:E; rewrite printf_unsigned_emit; [|done].
  rewrite printf_pad_emit, !emit_app. f_equal.
  unfold justify. rewrite pad_nonpos; [|cbn; lia]. by destruct lj.
Qed.

(** ** Textual computations *)

Definition textual {X} (f : printf_state -> outcome (printf_state * X)) : Prop :=
  exists r : outcome (list Z * X), forall st, f st = (tx ← r; Ok (emit tx.1 st, tx.2)).

Lemma textual_ret {X} (f : printf_state -> printf_state) t (x : X) :
  (forall st, f st = emit t st) -> textual (fun st => Ok (f st, x)).
Proof. intros H. exists (Ok (t, x)). intros st. by rewrite H. Qed.
Lemma textual_undef {X} s : textual (fun _ => @Undef (printf_state * X) s).
Proof. by exists (Undef s). Qed.

Lemma textual_arg {X Y} (a : outcome Y) (f : Y -> printf_state -> outcome (printf_state * X)) :
  (forall y, textual (f y)) -> textual (fun st => y ← a; f y st).
Proof. intros H. destruct a as [y|s|s]; [apply (H y)|by exists (Abort s)|by exists (Undef s)]. Qed.

Lemma textual_bind {X Y} (f : printf_state -> outcome (printf_state * Y))
  (g : printf_state * Y -> outcome (printf_state * X)) :
  textual f -> (forall y, textual (fun st => g (st, y))) -> textual (fun st => f st ≫= g).
Proof.
  intros [r Hr] Hg. destruct r as [[t y]|s|s].
  - destruct (Hg y) as [r' Hr']. exists (tx ← r'; Ok ((t ++ tx.1)%list, tx.2)). intros st. rewrite Hr.
    cbn [mbind outcome_bind fst snd]. rewrite Hr'. destruct r' as [[t' x]|?|?]; [|done..].
    cbn [mbind outcome_bind fst snd]. by rewrite emit_app.
  - exists (Abort s). intros st. by rewrite Hr.
  - exists (Undef s). intros st. by rewrite Hr.
Qed.

Lemma textual_after {X} t (f : printf_state -> printf_state) (g : printf_state -> outcome (printf_state * X)) :
  (forall st, f st = emit t st) -> textual g -> textual (fun st => g (f st)).
Proof.
  intros Hf [r Hr]. exists (tx ← r; Ok ((t ++ tx.1)%list, tx.2)). intros st. rewrite Hr, Hf.
  destruct r as [[t' x]|?|?]; [|done..]. cbn [mbind outcome_bind fst snd]. by rewrite emit_app.
Qed.

Lemma printf_putch_emit st c : printf_putch wl st c = emit [c] st.
Proof. done. Qed.

Lemma convert_textual f w level c args : textual (fun st => convert wl st f w level c args).
Proof.
  unfold convert.
  repeat match goal with |- textual (fun st => if ?b then _ else _) => destruct b end;
    cbv zeta; repeat (apply textual_arg; intros; cbn beta;
      repeat match goal with x : _ * _ |- _ => destruct x end;
      repeat match goal with v : va |- _ => destruct v end);
    first [apply textual_undef|eapply textual_ret; intros; cbn beta].
  all: first [apply printf_char_emit|apply printf_string_emit|apply printf_signed_emit|apply printf_unsigned_emit
             |instantiate (1 := []); done|instantiate (1 := [37; c]); done|idtac].
  instantiate (1 := ([48; 120] ++ _)%list). rewrite emit_app. apply printf_unsigned_emit.
Qed.

(** ** The loop *)

Lemma parse_flags_length fmt f : (length (parse_flags fmt f).2 <= length fmt)%nat.
Proof.
  revert f; induction fmt as [|c fmt IH]; intros f; [done|]. cbn [parse_flags].
  repeat case_match; cbn [snd length]; try lia; (etransitivity; [apply IH|lia]).
Qed.
Lemma parse_width_length fmt w : (length (parse_width wl fmt w).2 <= length fmt)%nat.
Proof.
  revert w; induction fmt as [|c fmt IH]; intros w; [done|]. cbn [parse_width].
  case_match; cbn [snd length]; [etransitivity; [apply IH|lia]|lia].
Qed.
Lemma skip_precision_length fmt : (length (skip_precision fmt) <= length fmt)%nat.
Proof.
  destruct fmt as [|c fmt]; [done|]. cbn [skip_precision]. case_match; [|done]. cbn [length].
  induction fmt as [|d fmt IH]; cbn [skip_digits length]; [lia|]. case_match; cbn [length] in *; lia.
Qed.
Lemma parse_length_length fmt n : (length (parse_length fmt n).2 <= length fmt)%nat.
Proof.
  revert n; induction fmt as [|c fmt IH]; intros n; [done|]. cbn [parse_length].
  repeat case_match; cbn [snd length]; try lia; (etransitivity; [apply IH|lia]).
Qed.
Lemma parse_spec_length fmt : (length (parse_spec wl fmt).2 <= length fmt)%nat.
Proof.
  unfold parse_spec.
  pose proof (parse_flags_length fmt flags0) as H1. destruct (parse_flags fmt flags0) as [f f1].
  pose proof (parse_width_length f1 0) as H2. destruct (parse_width wl f1 0) as [w f2].
  pose proof (skip_precision_length f2) as H3.
  pose proof (parse_length_length (skip_precision f2) 0) as H4. destruct (parse_length _ 0) as [l f3].
  cbn [snd] in *. lia.
Qed.

(** Fuel beyond the length of the format changes nothing: the loop ends. *)
Lemma backend_loop_fuel n1 n2 st fmt args :
  (length fmt < n1)%nat -> (length fmt < n2)%nat -> backend_loop wl n1 st fmt args = backend_loop wl n2 st fmt args.
Proof.
  revert n2 st fmt args. induction n1 as [|n1 IH]; intros n2 st fmt args H1 H2; [lia|].
  destruct n2 as [|n2]; [lia|]. cbn [backend_loop]. destruct fmt as [|c fmt]; [done|]. cbn [length] in *.
  destruct (negb (c =? 37)); [apply IH; lia|].
  pose proof (parse_spec_length fmt) as HL. destruct (parse_spec wl fmt) as [[[f w] l] [|c' fmt']]; [done|].
  cbn [snd length] in HL. destruct (convert wl st f w l c' args) as [[st' args']|?|?]; [|done..].
  cbn [mbind outcome_bind]. apply IH; lia.
Qed.

(** The text does not depend on where it goes. *)
Lemma backend_loop_textual n fmt args :
  textual (fun st => st' ← backend_loop wl n st fmt args; Ok (st', tt)).
Proof.
  revert fmt args. induction n as [|n IH]; intros fmt args; [apply textual_undef|]. cbn [backend_loop].
  destruct fmt as [|c fmt]; [by apply (textual_ret (fun st => st) [])|].
  destruct (negb (c =? 37)).
  - apply (textual_after [c] (fun st => printf_putch wl st c)
             (fun st => st' ← backend_loop wl n st fmt args; Ok (st', tt))); [done|apply IH].
  - destruct (parse_spec wl fmt) as [[[f w] l] [|c' fmt']]; [by apply (textual_ret (fun st => st) [])|].
    assert (textual (fun st => convert wl st f w l c' args ≫=
      (fun sa => st' ← backend_loop wl n sa.1 fmt' sa.2; Ok (st', tt)))) as [r Hr].
    { apply textual_bind; [apply convert_textual|]. intros y. cbn [fst snd]. apply IH. }
    exists r. intros st. rewrite <- Hr. by destruct (convert wl st f w l c' args) as [[??]|?|?].
Qed.

(** ** What a text does to the state *)

Lemma printf_putch_mk p s m d n mx c :
  printf_putch wl (Build_printf_state p s m d n mx) c =
  Build_printf_state p (if (n <? mx) && p then s ++ [c] else s)%list (if (n <? mx) && negb p then ha_set m (d + n) c else m)
    d (wrap wl (n + 1)) mx.
Proof. unfold printf_putch. cbn [count max_count to_putch]. by destruct (n <? mx), p. Qed.

Lemma emit_frame t st :
  to_putch (emit t st) = to_putch st /\ dest (emit t st) = dest st /\ max_count (emit t st) = max_count st.
Proof.
  revert st; induction t as [|c t IH]; intros st; [done|]. rewrite emit_cons.
  destruct (IH (printf_putch wl st c)) as (-> & -> & ->). destruct st as [p s m d n mx]. unfold printf_putch.
  cbn [count max_count to_putch]. by destruct (n <? mx), p.
Qed.

Lemma emit_count t st : in_u wl (count st) -> count (emit t st) = wrap wl (count st + Z.of_nat (length t)).
Proof.
  revert st; induction t as [|c t IH]; intros st Hc; [cbn; by rewrite Z.add_0_r, wrap_small|].
  assert (0 <= wl) by (destruct (Z.leb_spec 0 wl); [done|unfold in_u in Hc; rewrite Z.pow_neg_r in Hc; lia]).
  assert (count (printf_putch wl st c) = wrap wl (count st + 1)) as E.
  { unfold printf_putch. by destruct (count st <? max_count st), (to_putch st). }
  rewrite emit_cons, IH; rewrite E; [|by apply wrap_range].
  rewrite wrap_add_l. f_equal. cbn [length]. lia.
Qed.

(** To [putch]: the beginning of the text that fits. *)
Lemma emit_sink t st :
  to_putch st = true -> 0 <= count st -> count st + Z.of_nat (length t) < 2 ^ wl ->
  sink (emit t st) = (sink st ++ take (Z.to_nat (max_count st - count st)) t)%list.
Proof.
  revert st; induction t as [|c t IH]; intros st Hp H0 Hlt; [by rewrite take_nil, app_nil_r|].
  rewrite emit_cons. cbn [length] in Hlt.
  destruct st as [p s m d n mx]. cbn [to_putch count sink max_count] in *. subst p.
  assert (wrap wl (n + 1) = n + 1) as E by (apply wrap_small; unfold in_u; lia).
  rewrite printf_putch_mk, E.
  rewrite IH; cbn [count max_count to_putch sink pmem_ dest]; [|done|lia|lia].
  destruct (Z.ltb_spec n mx); cbn [andb negb].
  - replace (Z.to_nat (mx - n)) with (S (Z.to_nat (mx - (n + 1)))) by lia. cbn [take]. by rewrite <- app_assoc.
  - by rewrite !pad_nonpos, !take_0 by lia.
Qed.

(** To memory: the same, at [dest + count]. *)
Lemma emit_pmem t st :
  to_putch st = false -> 0 <= count st -> count st + Z.of_nat (length t) < 2 ^ wl ->
  pmem_ (emit t st) = ha_put (pmem_ st) (dest st + count st) (take (Z.to_nat (max_count st - count st)) t).
Proof.
  revert st; induction t as [|c t IH]; intros st Hp H0 Hlt; [by rewrite take_nil|].
  rewrite emit_cons. cbn [length] in Hlt.
  destruct st as [p s m d n mx]. cbn [to_putch count sink max_count] in *. subst p.
  assert (wrap wl (n + 1) = n + 1) as E by (apply wrap_small; unfold in_u; lia).
  rewrite printf_putch_mk, E.
  rewrite IH; cbn [count max_count to_putch sink pmem_ dest]; [|done|lia|lia].
  destruct (Z.ltb_spec n mx); cbn [andb negb].
  - replace (Z.to_nat (mx - n)) with (S (Z.to_nat (mx - (n + 1)))) by lia. cbn [take ha_put].
    by replace (d + (n + 1)) with (d + n + 1) by lia.
  - by rewrite !pad_nonpos, !take_0 by lia.
Qed.

Definition st_putch : printf_state :=
  {| to_putch := true; sink := []; pmem_ := ha_zero; dest := 0; count := 0; max_count := wrap wl (-1) |}.

(** [printf] prints the whole text: short of [SIZE_MAX] characters nothing is cut. *)
Lemma emit_sink_prefix t1 t2 st : exists t, sink (emit t2 (emit t1 st)) = (sink (emit t1 st) ++ t)%list.
Proof.
  generalize (emit t1 st). clear st. intros st. revert st; induction t2 as [|c t2 IH]; intros st; [exists []; by rewrite app_nil_r|].
  rewrite emit_cons. destruct (IH (printf_putch wl st c)) as [t Ht]. rewrite Ht.
  destruct st as [p s m d n mx]. rewrite printf_putch_mk. cbn [sink].
  destruct ((n <? mx) && p); [exists (c :: t); by rewrite <- app_assoc|by exists t].
Qed.

Lemma printf_whole t :
  0 <= wl -> Z.of_nat (length (sink (emit t st_putch))) < 2 ^ wl - 1 ->
  sink (emit t st_putch) = t /\ Z.of_nat (length t) < 2 ^ wl - 1.
Proof.
  intros Hwl Hs. pose proof (pow2_pos wl Hwl).
  assert (max_count st_putch = 2 ^ wl - 1) as Hm.
  { cbn [max_count st_putch]. unfold wrap. rewrite <- (Z.mod_unique (-1) (2 ^ wl) (-1) (2 ^ wl - 1)); lia. }
  assert (forall t, Z.of_nat (length t) < 2 ^ wl -> sink (emit t st_putch) = take (Z.to_nat (2 ^ wl - 1)) t) as He.
  { intros t' Ht'. rewrite emit_sink, Hm; [by rewrite Z.sub_0_r|done|done|done]. }
  destruct (Z.ltb_spec (Z.of_nat (length t)) (2 ^ wl - 1)) as [Hl|Hl].
  - rewrite He by lia. rewrite take_ge; [done|lia].
  - exfalso. rewrite <- (take_drop (Z.to_nat (2 ^ wl - 1)) t), emit_app in Hs.
    destruct (emit_sink_prefix (take (Z.to_nat (2 ^ wl - 1)) t) (drop (Z.to_nat (2 ^ wl - 1)) t) st_putch) as [t' Ht'].
    rewrite Ht', length_app, He, length_take, length_take in Hs; [lia|]. rewrite length_take. lia.
Qed.
End Emit.

(** ** [vsnprintf] and [printf] agree *)

(** The buffer after [vsnprintf] of the text [t] with limit [n]. *)
Definition stored (m : harray) (out n : Z) (t : list Z) : harray :=
  if 0 <? n then ha_put m out (take (Z.to_nat (n - 1)) t ++ [0])%list else m.

Lemma ha_put_snoc m i bs b : ha_put m i (bs ++ [b]) = ha_set (ha_put m i bs) (i + Z.of_nat (length bs)) b.
Proof.
  revert m i; induction bs as [|c bs IH]; intros m i; cbn [app ha_put length]; [by rewrite Z.add_0_r|].
  rewrite IH. f_equal. lia.
Qed.

Lemma vsnprintf_of_printf wl m out n fmt args text r :
  0 <= wl -> in_u wl n -> printf wl fmt args = Ok (text, r) -> Z.of_nat (length text) < 2 ^ wl - 1 ->
  r = s32 (Z.of_nat (length text)) /\ vsnprintf wl m out n fmt args = Ok (stored m out n text, r).
Proof.
  intros Hwl Hn Hp Hlen. pose proof (pow2_pos wl Hwl).
  destruct (backend_loop_textual wl (S (length fmt)) fmt args) as [rr Hr].
  unfold printf, vsnprintf, printf_backend in *.
  pose proof (Hr (st_putch wl)) as H1. fold (st_putch wl) in Hp.
  destruct (backend_loop wl (S (length fmt)) (st_putch wl) fmt args) as [st1|?|?]; [|done..].
  destruct rr as [[t []]|?|?]; [|done..]. cbn [mbind outcome_bind fst snd] in H1, Hp.
  injection H1 as ->. injection Hp as Et Er.
  assert (text = t /\ Z.of_nat (length t) < 2 ^ wl - 1) as [-> Ht].
  { rewrite <- Et in Hlen |- *. by apply printf_whole. }
  rewrite emit_count in Er by (unfold in_u; cbn; lia). cbn [count st_putch] in Er.
  rewrite wrap_small in Er by (unfold in_u; lia). split; [done|].
  match goal with |- context [backend_loop wl _ ?s _ _] => set (st2 := s) end.
  specialize (Hr st2). destruct (backend_loop wl (S (length fmt)) st2 fmt args) as [st3|?|?]; [|done..].
  cbn [mbind outcome_bind fst snd] in Hr |- *. injection Hr as ->.
  rewrite emit_count by (unfold in_u; cbn; lia). rewrite emit_pmem by (cbn; lia || done).
  unfold st2. cbn [count dest pmem_ max_count]. rewrite wrap_small by (unfold in_u; lia).
  subst r. rewrite Z.add_0_l, Z.add_0_r, Z.sub_0_r. do 2 f_equal. unfold stored. unfold in_u in Hn.
  destruct (Z.ltb_spec 0 n); [|by replace n with 0 by lia].
  rewrite (proj2 (Z.eqb_neq n 0)), ha_put_snoc, length_take by lia. f_equal.
  destruct (Z.ltb_spec (Z.of_nat (length t)) n); lia.
Qed.

(** ** Digits *)

Lemma digit_char_value up d : 0 <= d < 36 -> digit_value (digit_char up d) = d.
Proof.
  intros Hd. unfold digit_char, digit_value, isdigit, isupper, islower.
  destruct (Z.ltb_spec d 10); [|destruct up];
    repeat match goal with |- context [?a <=? ?b] => destruct (Z.leb_spec a b) end; cbn; lia.
Qed.

Lemma digits_text_length n base up : (length (digits_text n base up) <= 64)%nat.
Proof.
  unfold digits_text. rewrite length_rev. generalize 64%nat. intros f. revert n.
  induction f as [|f IH]; intros n; cbn [digits_buffer length]; [lia|]. case_match; cbn [length]; [lia|].
  specialize (IH (n / base)). lia.
Qed.

(** [n / base ^ fuel = 0] ends the loop with all of [n]. *)
Lemma digits_buffer_num fuel n base up :
  2 <= base <= 36 -> 0 <= n < base ^ Z.of_nat fuel -> (0 < fuel)%nat ->
  num base (map digit_value (rev (digits_buffer fuel n base up))) = n
  /\ Forall (fun c => 0 <= digit_value c < base) (digits_buffer fuel n base up).
Proof.
  intros Hb. revert n; induction fuel as [|fuel IH]; intros n Hn Hf; [lia|]. cbn [digits_buffer].
  pose proof (Z.mod_pos_bound n base ltac:(lia)). pose proof (Z.div_mod n base ltac:(lia)).
  assert (digit_value (digit_char up (n mod base)) = n mod base) as Hd by (apply digit_char_value; lia).
  destruct (Z.eqb_spec (n / base) 0) as [E|E].
  - cbn [rev app map]. split; [unfold num; cbn; lia|]. repeat constructor; rewrite Hd; lia.
  - assert (0 <= n / base < base ^ Z.of_nat fuel).
    { rewrite Nat2Z.inj_succ, Z.pow_succ_r in Hn by lia.
      split; [apply Z.div_pos; lia|apply Z.div_lt_upper_bound; lia]. }
    destruct fuel as [|fuel]; [change (base ^ Z.of_nat 0) with 1 in *; lia|].
    destruct (IH (n / base)) as [IHn IHd]; [done|lia|]. split.
    + cbn [rev]. rewrite map_app. cbn [map]. rewrite num_snoc, IHn, Hd. lia.
    + constructor; [rewrite Hd; lia|done].
Qed.

(** No leading zeros. *)
Lemma digits_buffer_last fuel n base up :
  2 <= base -> 0 < n < base ^ Z.of_nat fuel -> exists d l, rev (digits_buffer fuel n base up) = digit_char up d :: l /\ 0 < d < base.
Proof.
  intros Hb. revert n; induction fuel as [|fuel IH]; intros n Hn; [cbn in Hn; lia|]. cbn [digits_buffer].
  pose proof (Z.mod_pos_bound n base ltac:(lia)). pose proof (Z.div_mod n base ltac:(lia)).
  destruct (Z.eqb_spec (n / base) 0) as [E|E].
  - exists (n mod base), []. split; [done|lia].
  - destruct (IH (n / base)) as (d & l & Hl & Hd).
    { rewrite Nat2Z.inj_succ, Z.pow_succ_r in Hn by lia. pose proof (Z.div_pos n base).
      split; [lia|apply Z.div_lt_upper_bound; lia]. }
    exists d. cbn [rev]. rewrite Hl. eexists. split; [done|done].
Qed.

Lemma strtoull_zero base up : 2 <= base <= 16 -> strtoull (digits_text 0 base up) base = Ok (0, Z.of_nat (length (digits_text 0 base up))).
Proof.
  intros Hb. assert (exists i, (i <= 14)%nat /\ base = Z.of_nat i + 2) as (i & Hi & ->) by (exists (Z.to_nat (base - 2)); lia).
  do 15 (destruct i as [|i]; [by destruct up|]). lia.
Qed.

(** [strtoull] reads back what [printf_unsigned] writes. *)
Lemma strtoull_digits n base up :
  2 <= base <= 16 -> in_u 64 n ->
  strtoull (digits_text n base up) base = Ok (n, Z.of_nat (length (digits_text n base up))).
Proof.
  intros Hb Hn. unfold in_u in Hn.
  assert (2 <= base <= 36) as Hb' by lia.
  assert (n < base ^ Z.of_nat 64) as Hlt by (pose proof (Z.pow_le_mono_l 2 base 64 ltac:(lia)); cbn [Z.of_nat Pos.of_succ_nat Pos.succ]; lia).
  destruct (digits_buffer_num 64 n base up Hb' ltac:(lia) ltac:(lia)) as [Hnum Hds].
  fold (digits_text n base up) in Hnum.
  assert (digits_ok base (digits_text n base up)) as Hok by (unfold digits_ok, digits_text; by apply List.Forall_rev).
  destruct (Z.eqb_spec n 0) as [-> |Hnz]; [by apply strtoull_zero|].
  destruct (digits_buffer_last 64 n base up ltac:(lia) ltac:(lia)) as (d & l & Hl & Hd).
  fold (digits_text n base up) in Hl.
  assert (bad_base base = false /\ (base =? 0) = false) as [Hbb Hb0] by (unfold bad_base; lia).
  unfold strtoull, strto_unsigned. rewrite Hbb.
  assert (isspace (digit_char up d) = false /\ digit_char up d <> 43 /\ digit_char up d <> 48) as (Hsp & H43 & H48).
  { unfold isspace, digit_char. destruct (Z.ltb_spec d 10); [|destruct up];
    repeat match goal with |- context [?a <=? ?b] => destruct (Z.leb_spec a b) | |- context [?a =? ?b] => destruct (Z.eqb_spec a b) end; cbn; lia. }
  rewrite Hl. cbn [skip_spaces]. rewrite Hsp. unfold take_sign. cbn [head hd andb].
  rewrite (proj2 (Z.eqb_neq _ 43)) by done. unfold take_prefix. rewrite Hb0. cbn [head hd].
  rewrite (proj2 (Z.eqb_neq _ 48)), andb_false_r by done. rewrite <- Hl.
  pose proof (digit_loop_unsigned 64 base (digits_text n base up) [] 0 0 ltac:(lia) Hok (or_introl eq_refl)) as HD.
  rewrite app_nil_r in HD. change (wrap 64 0) with 0 in HD. rewrite HD.
  unfold num in Hnum. rewrite Hnum, Z.add_0_l, wrap_small by done. done.
Qed.

(** The sign and the digits, without a field. *)
Lemma signed_text_plain n pad : signed_text n 0 false pad 0 = ((if n <? 0 then [MINUS] else []) ++ digits_text (Z.abs n mod 2 ^ 64) 10 false)%list.
Proof.
  unfold signed_text, justify. rewrite !(pad_nonpos (_ - _)) by (cbn; lia). cbn [negb andb Z.eqb orb].
  destruct (Z.ltb_spec n 0).
  - rewrite andb_false_r. cbn [orb Z.ltb Z.compare app replicate]. do 2 f_equal.
    unfold wrap. rewrite Z.abs_neq by lia. rewrite <- (Z.sub_0_l (n mod _)), Zminus_mod_idemp_r. done.
  - cbn [app replicate]. unfold wrap. by rewrite Z.abs_eq by lia.
Qed.

(** A negative number in a right-justified field of spaces: the pad ignores the
    digits, so the field is too wide by all of them but one. *)
Lemma signed_text_field n w :
  n < 0 -> 0 < w ->
  signed_text n w false SPACE 0 = (replicate (Z.to_nat (w - 1)) SPACE ++ [MINUS] ++ digits_text (u64 (- u64 n)) 10 false)%list.
Proof.
  intros Hn Hw. unfold signed_text. by rewrite (proj2 (Z.ltb_lt n 0)), (proj2 (Z.ltb_lt 0 w)) by lia.
Qed.
