(* ===== verification/KInt64.v ===== *)
(** * klib: int64.c

    The 64-bit division and bit-count routines a 32-bit target links.  A
    [udwords] is the union of a [du_int] and its two halves.  The compiler's
    [__builtin_clz] and [__builtin_ctz] count bits by their documentation and
    are undefined on zero; a shift by the width of its operand or more and a
    signed overflow are undefined too, so a run that is [Ok] does none. *)
From S2P Require Import Prelude Outcome.
#[local] Open Scope string_scope.
#[local] Open Scope Z_scope.

Record udwords := UD { high : Z; low : Z }.
Definition all (w : udwords) : Z := high w * 2 ^ 32 + low w.
Definition of_all (x : Z) : udwords := {| high := Z.shiftr x 32; low := u32 x |}.

Definition builtin_clz (x : Z) : outcome Z := if x =? 0 then Undef "clz of 0" else Ok (31 - Z.log2 x).
Fixpoint ctz_pos (p : positive) : Z := match p with xO q => 1 + ctz_pos q | _ => 0 end.
Definition builtin_ctz (x : Z) : outcome Z :=
  match x with Zpos p => Ok (ctz_pos p) | _ => Undef "ctz of 0" end.

(** Shifts of a [su_int]. *)
Definition shl (x k : Z) : outcome Z :=
  if (0 <=? k) && (k <? 32) then Ok (u32 (Z.shiftl x k)) else Undef "shift count".
Definition shr (x k : Z) : outcome Z :=
  if (0 <=? k) && (k <? 32) then Ok (Z.shiftr x k) else Undef "shift count".

Definition udiv (a b : Z) : outcome Z := if b =? 0 then Undef "division by zero" else Ok (a / b).
Definition umod (a b : Z) : outcome Z := if b =? 0 then Undef "division by zero" else Ok (a mod b).

(** ** __udivmoddi4 *)

(** The registers of the loop: remainder, quotient, carry. *)
Record divstate := { r_ : udwords; q_ : udwords; carry : Z }.

Definition udivmod_step (d : Z) (st : divstate) : divstate :=
  let r := r_ st in
  let q := q_ st in
  let rh := Z.lor (u32 (Z.shiftl (high r) 1)) (Z.shiftr (low r) 31) in
  let rl := Z.lor (u32 (Z.shiftl (low r) 1)) (Z.shiftr (high q) 31) in
  let qh := Z.lor (u32 (Z.shiftl (high q) 1)) (Z.shiftr (low q) 31) in
  let ql := Z.lor (u32 (Z.shiftl (low q) 1)) (carry st) in
  let r_all := all (UD rh rl) in
  let s := Z.shiftr (s64 (u64 (u64 (d - r_all) - 1))) 63 in
  {| r_ := of_all (u64 (r_all - Z.land d (u64 s))); q_ := UD qh ql; carry := Z.land s 1 |}.

(** [for (; sr > 0; --sr)] *)
Fixpoint udivmod_loop (sr : nat) (d : Z) (st : divstate) : divstate :=
  match sr with O => st | S sr' => udivmod_loop sr' d (udivmod_step d st) end.

Definition udivmod_finish (sr d : Z) (r q : udwords) : outcome (Z * Z) :=
  let st := udivmod_loop (Z.to_nat sr) d {| r_ := r; q_ := q; carry := 0 |} in
  Ok (Z.lor (u64 (Z.shiftl (all (q_ st)) 1)) (carry st), all (r_ st)).

(** [q.all = n.all << (64 - sr); r.all = n.all >> sr] for [1 <= sr <= 31]. *)
Definition split_low (n : udwords) (sr : Z) : outcome (udwords * udwords) :=
  qh ← shl (low n) (32 - sr);
  rh ← shr (high n) sr;
  rl ← shl (high n) (32 - sr);
  rl' ← shr (low n) sr;
  Ok (UD qh 0, UD rh (Z.lor rl rl')).

(** The quotient and the remainder stored through [rem]. *)
Definition udivmoddi4 (a b : Z) : outcome (Z * Z) :=
  let n := of_all a in
  let d := of_all b in
  if high n =? 0 then
    if high d =? 0 then r ← umod (low n) (low d); q ← udiv (low n) (low d); Ok (q, r)
    else Ok (0, low n)
  else if low d =? 0 then
    if high d =? 0 then r ← umod (high n) (low d); q ← udiv (high n) (low d); Ok (q, r)
    else if low n =? 0 then
      r ← umod (high n) (high d); q ← udiv (high n) (high d); Ok (q, all (UD r 0))
    else if Z.land (high d) (u32 (high d - 1)) =? 0 then
      k ← builtin_ctz (high d); q ← shr (high n) k;
      Ok (q, all (UD (Z.land (high n) (u32 (high d - 1))) (low n)))
    else
      cd ← builtin_clz (high d); cn ← builtin_clz (high n);
      let sr := u32 (cd - cn) in
      if 32 - 2 <? sr then Ok (0, all n)
      else let sr := sr + 1 in
        '(q, r) ← split_low n sr; udivmod_finish sr (all d) r q
  else if high d =? 0 then
    if Z.land (low d) (u32 (low d - 1)) =? 0 then
      let rem := Z.land (low n) (u32 (low d - 1)) in
      if low d =? 1 then Ok (all n, rem)
      else
        sr ← builtin_ctz (low d);
        qh ← shr (high n) sr; ql ← shl (high n) (32 - sr); ql' ← shr (low n) sr;
        Ok (all (UD qh (Z.lor ql ql')), rem)
    else
      cd ← builtin_clz (low d); cn ← builtin_clz (high n);
      let sr := u32 (1 + 32 + cd - cn) in
      if sr =? 32 then udivmod_finish sr (all d) (UD 0 (high n)) (UD (low n) 0)
      else if sr <? 32 then '(q, r) ← split_low n sr; udivmod_finish sr (all d) r q
      else
        ql ← shl (low n) (64 - sr);
        qh ← shl (high n) (64 - sr); qh' ← shr (low n) (sr - 32);
        rl ← shr (high n) (sr - 32);
        udivmod_finish sr (all d) (UD 0 rl) (UD (Z.lor qh qh') ql)
  else
    cd ← builtin_clz (high d); cn ← builtin_clz (high n);
    let sr := u32 (cd - cn) in
    if 32 - 1 <? sr then Ok (0, all n)
    else let sr := sr + 1 in
      if sr =? 32 then udivmod_finish sr (all d) (UD 0 (high n)) (UD (low n) 0)
      else '(q, r) ← split_low n sr; udivmod_finish sr (all d) r q.

Definition udivdi3 (a b : Z) : outcome Z := r ← udivmoddi4 a b; Ok r.1.
Definition umoddi3 (a b : Z) : outcome Z := r ← udivmoddi4 a b; Ok r.2.

(** ** Signed division *)

Definition ssub (x y : Z) : outcome Z := if decide (in_s 64 (x - y)) then Ok (x - y) else Undef "signed overflow".
Definition smul (x y : Z) : outcome Z := if decide (in_s 64 (x * y)) then Ok (x * y) else Undef "signed overflow".

(** [(a ^ s) - s]: negate when [s = -1]. *)
Definition negate_if (s a : Z) : outcome Z := ssub (Z.lxor a s) s.

(** The quotient is unsigned, so the last subtraction of [__divdi3] wraps. *)
Definition divdi3 (a b : Z) : outcome Z :=
  let s_a := Z.shiftr a 63 in
  let s_b := Z.shiftr b 63 in
  a ← negate_if s_a a;
  b ← negate_if s_b b;
  let s_a := Z.lxor s_a s_b in
  q ← udivmoddi4 (u64 a) (u64 b);
  Ok (s64 (u64 (Z.lxor q.1 (u64 s_a) - u64 s_a))).

Definition divmoddi4 (a b : Z) : outcome (Z * Z) :=
  d ← divdi3 a b;
  p ← smul d b; r ← ssub a p; Ok (d, r).

Definition moddi3 (a b : Z) : outcome Z :=
  let s := Z.shiftr b 63 in
  b ← negate_if s b;
  let s := Z.shiftr a 63 in
  a ← negate_if s a;
  r ← udivmoddi4 (u64 a) (u64 b);
  negate_if s (s64 r.2).

(** ** Bit counts *)

Definition clzsi2 (a : Z) : Z :=
  let x := u32 a in
  let t := Z.shiftl (b2z (Z.land x 0xFFFF0000 =? 0)) 4 in
  let x := Z.shiftr x (16 - t) in
  let r := t in
  let t := Z.shiftl (b2z (Z.land x 0xFF00 =? 0)) 3 in
  let x := Z.shiftr x (8 - t) in
  let r := r + t in
  let t := Z.shiftl (b2z (Z.land x 0xF0 =? 0)) 2 in
  let x := Z.shiftr x (4 - t) in
  let r := r + t in
  let t := Z.shiftl (b2z (Z.land x 0xC =? 0)) 1 in
  let x := Z.shiftr x (2 - t) in
  let r := r + t in
  s32 (r + Z.land (u32 (2 - x)) (u32 (- b2z (Z.land x 2 =? 0)))).

Definition ctzsi2 (a : Z) : Z :=
  let x := u32 a in
  let t := Z.shiftl (b2z (Z.land x 0x0000FFFF =? 0)) 4 in
  let x := Z.shiftr x t in
  let r := t in
  let t := Z.shiftl (b2z (Z.land x 0x00FF =? 0)) 3 in
  let x := Z.shiftr x t in
  let r := r + t in
  let t := Z.shiftl (b2z (Z.land x 0x0F =? 0)) 2 in
  let x := Z.shiftr x t in
  let r := r + t in
  let t := Z.shiftl (b2z (Z.land x 0x3 =? 0)) 1 in
  let x := Z.shiftr x t in
  let x := Z.land x 3 in
  let r := r + t in
  s32 (r + Z.land (u32 (2 - Z.shiftr x 1)) (u32 (- b2z (Z.land x 1 =? 0)))).

Definition ctzdi2 (a : Z) : Z :=
  let x := of_all (u64 a) in
  let f := - b2z (low x =? 0) in
  ctzsi2 (s32 (Z.lor (Z.land (high x) (u32 f)) (Z.land (low x) (u32 (Z.lnot f))))) + Z.land f 32.

Definition clzdi2 (a : Z) : Z :=
  let x := of_all (u64 a) in
  let f := - b2z (high x =? 0) in
  clzsi2 (s32 (Z.lor (Z.land (high x) (u32 (Z.lnot f))) (Z.land (low x) (u32 f)))) + Z.land f 32.

(** ** Words and halves *)

Definition words_in (w : udwords) : Prop := in_u 32 (high w) /\ in_u 32 (low w).

Lemma all_of_all x : all (of_all x) = x.
Proof.
  unfold all, of_all. cbn [high low]. rewrite Z.shiftr_div_pow2 by lia.
  unfold wrap. pose proof (Z.div_mod x (2 ^ 32) ltac:(lia)). lia.
Qed.

Lemma of_all_in x : in_u 64 x -> words_in (of_all x).
Proof. intros Hx. split; cbn [high low of_all]; [|word_range]. rewrite Z.shiftr_div_pow2 by lia. unfold in_u in *. split; [apply Z.div_pos; lia|apply Z.div_lt_upper_bound; lia]. Qed.

Lemma all_in w : words_in w -> in_u 64 (all w).
Proof. unfold words_in, in_u, all. lia. Qed.

Lemma shl_ok x k : 0 <= k < 32 -> shl x k = Ok (u32 (Z.shiftl x k)).
Proof. intros. unfold shl. by rewrite (proj2 (Z.leb_le 0 k)), (proj2 (Z.ltb_lt k 32)) by lia. Qed.
Lemma shr_ok x k : 0 <= k < 32 -> shr x k = Ok (Z.shiftr x k).
Proof. intros. unfold shr. by rewrite (proj2 (Z.leb_le 0 k)), (proj2 (Z.ltb_lt k 32)) by lia. Qed.
Lemma builtin_clz_ok x : x <> 0 -> builtin_clz x = Ok (31 - Z.log2 x).
Proof. intros. unfold builtin_clz. by rewrite (proj2 (Z.eqb_neq x 0)). Qed.

(** The shifted halves put together. *)
Lemma shift_in x k : 0 <= k <= 32 -> in_u 32 x -> u32 (Z.shiftl x k) = (x mod 2 ^ (32 - k)) * 2 ^ k.
Proof.
  intros Hk Hx. unfold wrap. rewrite Z.shiftl_mul_pow2 by lia.
  replace (2 ^ 32) with (2 ^ (32 - k) * 2 ^ k) by (rewrite <- Z.pow_add_r by lia; f_equal; lia).
  rewrite Z.mul_mod_distr_r; pose proof (pow2_pos k); pose proof (pow2_pos (32 - k)); lia.
Qed.

Lemma join_in hi lo k :
  1 <= k <= 31 -> in_u 32 hi -> in_u 32 lo ->
  Z.lor (u32 (Z.shiftl hi (32 - k))) (Z.shiftr lo k) = hi mod 2 ^ k * 2 ^ (32 - k) + lo / 2 ^ k.
Proof.
  intros Hk Hh Hl. rewrite shift_in, Z.shiftr_div_pow2 by (done || lia).
  replace (32 - (32 - k)) with k by lia. apply lor_add_shifted; [lia|].
  unfold in_u in *. pose proof (pow2_pos k). split; [apply Z.div_pos; lia|].
  apply Z.div_lt_upper_bound; [lia|]. rewrite <- Z.pow_add_r by lia. replace (k + (32 - k)) with 32 by lia. lia.
Qed.

Lemma div_words h l k : 0 <= k <= 32 -> in_u 32 l ->
  (h * 2 ^ 32 + l) / 2 ^ k = (h / 2 ^ k) * 2 ^ 32 + (h mod 2 ^ k * 2 ^ (32 - k) + l / 2 ^ k).
Proof.
  intros Hk Hl. pose proof (pow2_pos k ltac:(lia)).
  replace (2 ^ 32) with (2 ^ k * 2 ^ (32 - k)) by (rewrite <- Z.pow_add_r by lia; f_equal; lia).
  pose proof (Z.div_mod h (2 ^ k) ltac:(lia)) as E. rewrite E at 1.
  replace ((2 ^ k * (h / 2 ^ k) + h mod 2 ^ k) * (2 ^ k * 2 ^ (32 - k)) + l)
    with (l + ((h / 2 ^ k) * (2 ^ k * 2 ^ (32 - k)) + h mod 2 ^ k * 2 ^ (32 - k)) * 2 ^ k) by ring.
  rewrite Z.div_add by lia. ring.
Qed.

Lemma all_shr w k :
  words_in w -> 1 <= k <= 31 ->
  all (UD (Z.shiftr (high w) k) (Z.lor (u32 (Z.shiftl (high w) (32 - k))) (Z.shiftr (low w) k))) = all w / 2 ^ k.
Proof.
  intros [Hh Hl] Hk. unfold all. cbn [high low]. rewrite join_in, div_words, Z.shiftr_div_pow2 by (done || lia). done.
Qed.

(** ** One step of the shift-and-subtract loop *)

Lemma bit_shift_word x c : in_u 32 x -> 0 <= c <= 1 -> Z.lor (u32 (Z.shiftl x 1)) c = u32 (2 * x + c).
Proof.
  intros Hx Hc. rewrite shift_in by (done || lia). change (2 ^ 1) with 2. change (2 ^ (32 - 1)) with (2 ^ 31).
  rewrite (lor_add_shifted _ c 1) by (unfold in_u; cbn; lia).
  unfold in_u, wrap in *. Z.to_euclidean_division_equations. lia.
Qed.

Lemma top_bit x : in_u 32 x -> Z.shiftr x 31 = x / 2 ^ 31 /\ 0 <= x / 2 ^ 31 <= 1.
Proof. intros Hx. rewrite Z.shiftr_div_pow2 by lia. unfold in_u in Hx. split; [done|]. Z.to_euclidean_division_equations. lia. Qed.

(** Shifting a double word left by one with [c] shifted in. *)
Lemma all_shift w c :
  words_in w -> 0 <= c <= 1 ->
  let h := Z.lor (u32 (Z.shiftl (high w) 1)) (Z.shiftr (low w) 31) in
  let l := Z.lor (u32 (Z.shiftl (low w) 1)) c in
  words_in (UD h l) /\ all (UD h l) = u64 (2 * all w + c).
Proof.
  intros [Hh Hl] Hc. destruct (top_bit _ Hl) as [-> Ht]. cbv zeta. rewrite !bit_shift_word by done.
  split; [split; cbn [high low]; word_range|]. unfold all, in_u, wrap in *. cbn [high low] in *.
  Z.to_euclidean_division_equations. lia.
Qed.

Lemma sign_mask x : in_u 64 x -> Z.shiftr (s64 x) 63 = if x <? 2 ^ 63 then 0 else -1.
Proof.
  intros Hx. rewrite sext_unsigned, Z.shiftr_div_pow2 by (done || lia). change (64 - 1) with 63. unfold in_u in Hx.
  destruct (Z.ltb_spec x (2 ^ 63)); Z.to_euclidean_division_equations; lia.
Qed.

(** The state as numbers. *)
Definition st_in (st : divstate) : Prop := words_in (r_ st) /\ words_in (q_ st) /\ 0 <= carry st <= 1.

Lemma udivmod_step_spec d st :
  in_u 64 d -> st_in st ->
  let R := all (r_ st) in let Q := all (q_ st) in
  let R1 := 2 * R + Q / 2 ^ 63 in
  R1 < 2 ^ 64 -> R1 < 2 * d -> d - 2 ^ 63 <= R1 ->
  let st' := udivmod_step d st in
  st_in st' /\ all (q_ st') = u64 (2 * Q + carry st)
  /\ all (r_ st') = (if d <=? R1 then R1 - d else R1) /\ carry st' = b2z (d <=? R1).
Proof.
  intros Hd (Hr & Hq & Hc) R Q R1 H1 H2 H3. unfold udivmod_step.
  destruct (all_shift (q_ st) (carry st) Hq Hc) as [Hqi Hqv].
  assert (Hb : Z.shiftr (high (q_ st)) 31 = Q / 2 ^ 63 /\ 0 <= Q / 2 ^ 63 <= 1).
  { destruct Hq as [Hqh Hql]. destruct (top_bit _ Hqh) as [-> Hb]. unfold Q, all, in_u in *.
    Z.to_euclidean_division_equations. lia. }
  destruct Hb as [Eb Hb]. rewrite Eb.
  destruct (all_shift (r_ st) _ Hr Hb) as [Hri Hrv]. cbv zeta in Hri, Hrv. fold R in Hrv. fold R1 in Hrv.
  cbv zeta. rewrite Hrv.
  assert (0 <= R1) by (pose proof (all_in _ Hr); unfold in_u in *; lia).
  rewrite (wrap_small 64 R1) by (unfold in_u; lia). unfold in_u in Hd.
  assert (u64 (u64 (d - R1) - 1) = if d <=? R1 then d - R1 - 1 + 2 ^ 64 else d - R1 - 1) as ->.
  { rewrite wrap_sub_l. unfold wrap. destruct (Z.leb_spec d R1).
    - symmetry. apply (Z.mod_unique_pos _ _ (-1)); lia.
    - apply Z.mod_small. lia. }
  rewrite sign_mask by (unfold in_u; destruct (Z.leb_spec d R1); lia).
  cbn [r_ q_ carry]. unfold st_in. cbn [r_ q_ carry].
  destruct (Z.leb_spec d R1); [rewrite (proj2 (Z.ltb_ge (d - R1 - 1 + 2 ^ 64) (2 ^ 63))) by lia
    |rewrite (proj2 (Z.ltb_lt (d - R1 - 1) (2 ^ 63))) by lia]; cbn [b2z].
  - change (u64 (-1)) with (Z.ones 64). rewrite Z.land_ones, (Z.mod_small d) by lia.
    rewrite all_of_all, (wrap_small 64 (R1 - d)) by (unfold in_u; lia).
    split_and!; try done; try apply of_all_in; try (unfold in_u; lia).
  - change (u64 0) with 0. rewrite Z.land_0_r, Z.sub_0_r, all_of_all, (wrap_small 64 R1) by (unfold in_u; lia).
    split_and!; try done; try apply of_all_in; try (unfold in_u; lia).
Qed.

(** ** The loop divides *)

(** [j] bits of [n] are still in [Q]; above them [R] is the remainder of what was
    shifted out and [2 X + c] its quotient. *)
Definition div_inv (n d : Z) (j : nat) (st : divstate) : Prop :=
  st_in st /\ exists X, 0 <= X < 2 ^ (64 - Z.of_nat j)
    /\ all (q_ st) = (n mod 2 ^ Z.of_nat j) * 2 ^ (64 - Z.of_nat j) + X
    /\ 0 <= all (r_ st) < d
    /\ n / 2 ^ Z.of_nat j = (2 * X + carry st) * d + all (r_ st)
    /\ (j <> 0%nat -> d <= 2 ^ 63 \/ (j = 1%nat /\ 2 ^ 63 <= n /\ 2 * X + carry st = 0)).

(** The next bit of [n]. *)
Lemma next_bit n j : 0 <= n -> 0 <= j ->
  n mod 2 ^ (j + 1) = (n / 2 ^ j) mod 2 * 2 ^ j + n mod 2 ^ j
  /\ n / 2 ^ j = 2 * (n / 2 ^ (j + 1)) + (n / 2 ^ j) mod 2.
Proof.
  intros Hn Hj. pose proof (pow2_pos j Hj). rewrite Z.pow_add_r, Z.pow_1_r by lia.
  rewrite Z.rem_mul_r, <- Z.div_div by lia. pose proof (Z.div_mod (n / 2 ^ j) 2). lia.
Qed.

Lemma udivmod_step_inv n d j st :
  in_u 64 n -> in_u 64 d -> (j < 64)%nat -> div_inv n d (S j) st -> div_inv n d j (udivmod_step d st).
Proof.
  intros Hn Hd Hj (Hst & X & HX & HQ & HR & Hdiv & Hbig). unfold in_u in Hn.
  rewrite Nat2Z.inj_succ in *. unfold Z.succ in *. set (k := Z.of_nat j) in *.
  assert (0 <= k < 64) by lia. pose proof (pow2_pos k ltac:(lia)).
  destruct (next_bit n k ltac:(lia) ltac:(lia)) as [Em Ed].
  pose proof (Z.mod_pos_bound (n / 2 ^ k) 2 ltac:(lia)) as Hb. set (b := (n / 2 ^ k) mod 2) in *.
  pose proof (Z.mod_pos_bound n (2 ^ k) ltac:(lia)) as Hlow. set (n' := n mod 2 ^ k) in *.
  assert (E63 : 2 ^ k * 2 ^ (64 - (k + 1)) = 2 ^ 63) by (rewrite <- Z.pow_add_r by lia; f_equal; lia).
  assert (E64 : 2 ^ (64 - k) = 2 * 2 ^ (64 - (k + 1))) by (rewrite <- Z.pow_succ_r by lia; f_equal; lia).
  pose proof (pow2_pos (64 - (k + 1)) ltac:(lia)). set (P := 2 ^ (64 - (k + 1))) in *.
  assert (HQ' : all (q_ st) = b * 2 ^ 63 + (n' * P + X)) by (rewrite HQ, Em, <- E63; ring).
  assert (Hlt : 0 <= n' * P + X < 2 ^ 63) by nia.
  assert (Hbit : all (q_ st) / 2 ^ 63 = b) by (rewrite HQ'; Z.to_euclidean_division_equations; lia).
  pose proof Hst as (_ & _ & Hc).
  assert (HR1 : 2 * all (r_ st) + b = n / 2 ^ k - (2 * (2 * X + carry st)) * d) by (rewrite Ed, Hdiv; ring).
  assert (n / 2 ^ k <= n) by (apply Z.div_le_upper_bound; nia).
  assert (0 <= (2 * (2 * X + carry st)) * d) by (apply Z.mul_nonneg_nonneg; lia).
  destruct (udivmod_step_spec d st Hd Hst) as (Hst' & HQn & HRn & Hcn); rewrite ?Hbit in *; [lia|lia| |].
  { destruct (Hbig ltac:(lia)) as [|(Ej & Hge & EX)]; [lia|]. rewrite HR1, EX.
    assert (k = 0) as -> by lia. rewrite Z.div_1_r. unfold in_u in Hd. lia. }
  split; [done|]. exists (2 * X + carry st). fold k. rewrite E64. split; [lia|]. split; [|split; [|split]].
  - rewrite HQn, HQ'. unfold wrap. symmetry. apply (Z.mod_unique_pos _ _ b); [|lia]. nia.
  - rewrite HRn. destruct (Z.leb_spec d (2 * all (r_ st) + b)); lia.
  - rewrite HRn, Hcn, Ed, Hdiv. destruct (Z.leb_spec d (2 * all (r_ st) + b)); cbn [b2z]; ring.
  - intros Hj0. left. destruct (Hbig ltac:(lia)) as [|(? & _)]; lia.
Qed.

Lemma udivmod_loop_inv n d j st :
  in_u 64 n -> in_u 64 d -> (j <= 64)%nat -> div_inv n d j st -> div_inv n d 0 (udivmod_loop j d st).
Proof.
  intros Hn Hd. revert st; induction j as [|j IH]; intros st Hj Hi; [done|]. cbn [udivmod_loop].
  apply IH; [lia|]. apply udivmod_step_inv; auto with lia.
Qed.

(** From [q:r = n << (128 - sr)] with [n >> sr < d] the loop yields the quotient and
    the remainder. *)
Lemma udivmod_finish_spec n d sr r q :
  in_u 64 n -> in_u 64 d -> 1 <= sr <= 63 -> words_in r -> words_in q ->
  all q = u64 (n * 2 ^ (64 - sr)) -> all r = n / 2 ^ sr -> n / 2 ^ sr < d ->
  (d <= 2 ^ 63 \/ sr = 1 /\ 2 ^ 63 <= n) ->
  udivmod_finish sr d r q = Ok (n / d, n mod d).
Proof.
  intros Hn Hd Hsr Hr Hq Eq Er Hlt Hbig. unfold udivmod_finish.
  pose proof (pow2_pos sr ltac:(lia)) as Hps. unfold in_u in Hn.
  assert (div_inv n d (Z.to_nat sr) {| r_ := r; q_ := q; carry := 0 |}) as Hi.
  { split; [done|]. exists 0. rewrite Z2Nat.id by lia. cbn [r_ q_ carry].
    pose proof (pow2_pos (64 - sr) ltac:(lia)). pose proof (Z.div_pos n (2 ^ sr)).
    split; [lia|]. split; [|split; [lia|split; [lia|intros _; lia]]].
    rewrite Eq. unfold wrap. replace (2 ^ 64) with (2 ^ sr * 2 ^ (64 - sr)) by (rewrite <- Z.pow_add_r by lia; f_equal; lia).
    rewrite Z.mul_mod_distr_r by lia. lia. }
  apply udivmod_loop_inv in Hi; [|done|done|lia]. destruct Hi as (Hst & X & HX & HQ & HR & Hdiv & _).
  set (st := udivmod_loop _ _ _) in *. change (2 ^ Z.of_nat 0) with 1 in *. rewrite Z.mod_1_r, Z.mul_0_l, Z.add_0_l in HQ.
  rewrite Z.div_1_r in Hdiv. destruct Hst as (_ & _ & Hc).
  assert (n / d = 2 * X + carry st) as -> by (symmetry; apply (Z.div_unique_pos _ _ _ (all (r_ st))); lia).
  assert (n mod d = all (r_ st)) as -> by (symmetry; apply (Z.mod_unique_pos _ _ (2 * X + carry st)); lia).
  do 2 f_equal. rewrite HQ, Z.shiftl_mul_pow2, Z.pow_1_r by lia.
  assert (2 * X + carry st <= n) by nia.
  rewrite wrap_small by (unfold in_u; lia). change 2 with (2 ^ 1). rewrite lor_add_shifted by (unfold in_u; cbn; lia). lia.
Qed.

(** ** The entry cases *)

Lemma u64_shl n sr : 0 <= sr <= 64 -> u64 (n * 2 ^ (64 - sr)) = n mod 2 ^ sr * 2 ^ (64 - sr).
Proof.
  intros Hs. unfold wrap. replace (2 ^ 64) with (2 ^ sr * 2 ^ (64 - sr)) by (rewrite <- Z.pow_add_r by lia; f_equal; lia).
  pose proof (pow2_pos sr). pose proof (pow2_pos (64 - sr)). rewrite Z.mul_mod_distr_r; lia.
Qed.

Lemma low_mod n k : 0 <= k <= 32 -> low (of_all n) mod 2 ^ k = n mod 2 ^ k.
Proof. intros. exact (wrap_wrap_le k 32 n ltac:(lia)). Qed.

(** [r:q = n << (128 - sr)] *)
Definition split_at (n sr : Z) (qr : udwords * udwords) : Prop :=
  words_in qr.1 /\ words_in qr.2 /\ all qr.1 = u64 (n * 2 ^ (64 - sr)) /\ all qr.2 = n / 2 ^ sr.

Lemma words_shr w k : words_in w -> 1 <= k <= 31 ->
  words_in (UD (Z.shiftr (high w) k) (Z.lor (u32 (Z.shiftl (high w) (32 - k))) (Z.shiftr (low w) k))).
Proof. intros [Hh Hl] Hk. split; cbn [high low]; eauto 6 with word lia. Qed.

Lemma split_low_spec n sr :
  in_u 64 n -> 1 <= sr <= 31 -> exists qr, split_low (of_all n) sr = Ok qr /\ split_at n sr qr.
Proof.
  intros Hn Hs. pose proof (of_all_in n Hn) as Hw. destruct (Hw) as [Hh Hl].
  unfold split_low. rewrite !shl_ok, !shr_ok by lia. cbn [mbind outcome_bind]. eexists. split; [done|].
  split; [split; [apply wrap_range; lia|done]|]. split; [by apply words_shr|]. cbn [fst snd]. split.
  - rewrite u64_shl by lia. unfold all at 1. cbn [high low]. rewrite shift_in by (done || lia).
    replace (32 - (32 - sr)) with sr by lia. rewrite low_mod by lia.
    replace (64 - sr) with (32 - sr + 32) by lia. rewrite Z.pow_add_r by lia. ring.
  - rewrite all_shr, all_of_all by (done || lia). done.
Qed.

Lemma split_word n : in_u 64 n -> split_at n 32 (UD (low (of_all n)) 0, UD 0 (high (of_all n))).
Proof.
  intros Hn. pose proof (of_all_in n Hn) as [Hh Hl]. split; [done|]. split; [done|]. cbn [fst snd]. split.
  - rewrite u64_shl by lia. unfold all at 1. cbn [high low]. change (64 - 32) with 32. rewrite <- (low_mod n 32) by lia.
    rewrite (Z.mod_small (low _)) by apply Hl. lia.
  - unfold all at 1, of_all. cbn [high low]. rewrite Z.shiftr_div_pow2 by lia. lia.
Qed.

(** 33 <= sr <= 63 *)
Lemma split_high n sr :
  in_u 64 n -> 33 <= sr <= 63 ->
  split_at n sr
    (UD (Z.lor (u32 (Z.shiftl (high (of_all n)) (64 - sr))) (Z.shiftr (low (of_all n)) (sr - 32)))
        (u32 (Z.shiftl (low (of_all n)) (64 - sr))),
     UD 0 (Z.shiftr (high (of_all n)) (sr - 32))).
Proof.
  intros Hn Hs. pose proof (of_all_in n Hn) as [Hh Hl].
  split; [split; cbn [fst high low]; eauto 6 with word lia|]. split; [split; cbn [snd high low]; eauto with word lia; done|].
  cbn [fst snd]. split.
  - rewrite u64_shl by lia. unfold all at 1. cbn [high low]. replace (64 - sr) with (32 - (sr - 32)) by lia.
    rewrite join_in, shift_in by (done || lia). set (k := sr - 32) in *. replace (32 - (32 - k)) with k by lia.
    replace sr with (32 + k) by lia. rewrite Z.pow_add_r by lia. pose proof (pow2_pos k ltac:(lia)).
    rewrite Z.rem_mul_r by lia. assert (n / 2 ^ 32 = high (of_all n)) as ->.
    { unfold of_all. cbn [high]. by rewrite Z.shiftr_div_pow2 by lia. }
    change (n mod 2 ^ 32) with (low (of_all n)). pose proof (Z.div_mod (low (of_all n)) (2 ^ k) ltac:(lia)) as E.
    rewrite E at 3. assert (2 ^ 32 = 2 ^ k * 2 ^ (32 - k)) as -> by (rewrite <- Z.pow_add_r by lia; f_equal; lia). ring.
  - unfold all at 1. cbn [high low]. rewrite Z.mul_0_l, Z.add_0_l. unfold of_all. cbn [high].
    rewrite !Z.shiftr_div_pow2 by lia. rewrite Z.div_div by (pose proof (pow2_pos (sr - 32)); lia).
    rewrite <- Z.pow_add_r by lia. do 2 f_equal. lia.
Qed.

(** [sr] makes the first remainder smaller than the divisor. *)
Lemma start_below n d : 0 < n -> 0 < d -> n / 2 ^ (Z.log2 n - Z.log2 d + 1) < d \/ Z.log2 n < Z.log2 d.
Proof.
  intros Hn Hd. destruct (Z.ltb_spec (Z.log2 n) (Z.log2 d)); [by right|left].
  pose proof (Z.log2_nonneg d).
  pose proof (Z.log2_spec n Hn). pose proof (Z.log2_spec d Hd).
  pose proof (pow2_pos (Z.log2 n - Z.log2 d + 1) ltac:(lia)). apply Z.div_lt_upper_bound; [done|].
  assert (2 ^ Z.succ (Z.log2 n) = 2 ^ (Z.log2 n - Z.log2 d + 1) * 2 ^ Z.log2 d) as E by (rewrite <- Z.pow_add_r by lia; f_equal; lia).
  nia.
Qed.

Lemma log2_high n : in_u 64 n -> high (of_all n) <> 0 -> Z.log2 n = 32 + Z.log2 (high (of_all n)) /\ 0 < high (of_all n).
Proof.
  intros Hn Hh. pose proof (of_all_in n Hn) as [Hhi Hlo]. unfold in_u in *.
  split; [|lia]. rewrite <- (all_of_all n) at 1. unfold all.
  pose proof (Z.log2_spec (high (of_all n)) ltac:(lia)) as [L1 L2]. pose proof (Z.log2_nonneg (high (of_all n))).
  apply Z.log2_unique; [lia|]. rewrite Z.pow_succ_r in * by lia. rewrite Z.pow_add_r by lia. nia.
Qed.

Lemma log2_word x : in_u 32 x -> 0 <= Z.log2 x <= 31.
Proof.
  intros Hx. unfold in_u in Hx. pose proof (Z.log2_nonneg x). destruct (Z.ltb_spec 0 x); [|rewrite Z.log2_nonpos; lia].
  pose proof (Z.log2_lt_pow2 x 32 ltac:(lia)). lia.
Qed.

(** The power-of-two test. *)
Lemma pow2_test x : 0 < x -> in_u 32 x -> Z.land x (u32 (x - 1)) = 0 -> x = 2 ^ Z.log2 x.
Proof.
  intros Hx Hr E. rewrite wrap_small in E by (unfold in_u in *; lia).
  pose proof (Z.log2_spec x Hx) as [L1 L2]. pose proof (Z.log2_nonneg x).
  destruct (Z.eqb_spec x (2 ^ Z.log2 x)); [done|]. exfalso.
  assert (Z.log2 (x - 1) = Z.log2 x) as EL by (apply Z.log2_unique; lia).
  assert (Z.testbit (Z.land x (x - 1)) (Z.log2 x) = true) as Ht.
  { rewrite Z.land_spec, Z.bit_log2 by done. rewrite <- EL, Z.bit_log2; [done|]. pose proof (pow2_pos (Z.log2 x)). lia. }
  rewrite E, Z.testbit_0_l in Ht. done.
Qed.

Lemma ctz_pow2 k : 0 <= k -> builtin_ctz (2 ^ k) = Ok k.
Proof.
  intros Hk. pattern k. apply natlike_ind; [done| |done]. clear k Hk. intros k Hk IH.
  rewrite Z.pow_succ_r by done. pose proof (pow2_pos k Hk). destruct (2 ^ k) as [|p|p]; [lia| |lia].
  change (2 * Z.pos p) with (Z.pos (xO p)). cbn [builtin_ctz ctz_pos] in IH |- *. injection IH as IH. rewrite IH. f_equal. lia.
Qed.

Lemma land_pow2 n k : 0 <= k <= 31 -> Z.land n (u32 (2 ^ k - 1)) = n mod 2 ^ k.
Proof.
  intros Hk. pose proof (pow2_pos k ltac:(lia)). pose proof (Z.pow_le_mono_r 2 k 31).
  rewrite wrap_small by (unfold in_u; lia). rewrite <- Z.land_ones by lia. f_equal. rewrite Z.ones_equiv. lia.
Qed.

Lemma of_all_unique n d : all n = d -> words_in n -> of_all d = n.
Proof.
  intros <- [Hh Hl]. destruct n as [h l]. unfold of_all, all, in_u in *. cbn [high low] in *.
  rewrite Z.shiftr_div_pow2 by lia. f_equal; [|unfold wrap]; Z.to_euclidean_division_equations; lia.
Qed.

(** A finish from a split at a valid [sr]. *)
Lemma finish_split n d qr :
  let sr := Z.log2 n - Z.log2 d + 1 in
  in_u 64 n -> in_u 64 d -> 0 < n -> 0 < d -> 1 <= sr <= 63 -> split_at n sr qr ->
  udivmod_finish sr (all (of_all d)) qr.2 qr.1 = Ok (n / d, n mod d).
Proof.
  intros sr Hn Hd Hn0 Hpos Hsr (Hq & Hr & Eq & Er). rewrite all_of_all.
  pose proof (Z.log2_nonneg n). pose proof (Z.log2_nonneg d). unfold in_u in Hn, Hd.
  apply udivmod_finish_spec; try done.
  - by destruct (start_below n d Hn0 Hpos); [|exfalso; unfold sr in Hsr; lia].
  - destruct (Z.leb_spec d (2 ^ 63)); [by left|right].
    assert (Z.log2 d = 63) by (apply Z.log2_unique; lia).
    pose proof (proj1 (Z.log2_lt_pow2 n 64 Hn0) ltac:(lia)). assert (Z.log2 n = 63) as E by (unfold sr in Hsr; lia). split; [unfold sr; lia|].
    pose proof (Z.log2_spec n Hn0) as HL. rewrite E in HL. lia.
Qed.

Lemma pow2_exists x : 0 < x -> in_u 32 x -> Z.land x (u32 (x - 1)) = 0 -> exists k, x = 2 ^ k /\ 0 <= k <= 31.
Proof. intros H0 Hx Hl. exists (Z.log2 x). split; [by apply pow2_test|by apply log2_word]. Qed.

(** A negative shift count is a huge unsigned one. *)
Lemma wrap_neg k : -32 <= k < 0 -> u32 k = k + 2 ^ 32.
Proof. intros Hk. unfold wrap. symmetry. apply (Z.mod_unique_pos _ _ (-1)); lia. Qed.

Lemma div_mod_below n d : 0 <= n -> 0 < d -> Z.log2 n < Z.log2 d -> (n / d, n mod d) = (0, n).
Proof.
  intros Hn Hd Hl. assert (n < d) by (apply Z.log2_lt_cancel; done). by rewrite Z.div_small, Z.mod_small by lia.
Qed.

Lemma div_high_word n d :
  in_u 64 n -> in_u 64 d -> low (of_all d) = 0 -> 0 < high (of_all d) ->
  n / d = high (of_all n) / high (of_all d)
  /\ n mod d = high (of_all n) mod high (of_all d) * 2 ^ 32 + low (of_all n).
Proof.
  intros Hn Hd Edl Hdh. pose proof (of_all_in n Hn) as [Hnh Hnl]. pose proof (all_of_all n) as En.
  pose proof (all_of_all d) as Ed. unfold all, in_u in *.
  pose proof (Z.div_mod (high (of_all n)) (high (of_all d)) ltac:(lia)) as E.
  pose proof (Z.mod_pos_bound (high (of_all n)) (high (of_all d)) ltac:(lia)).
  split; symmetry; [apply (Z.div_unique_pos _ _ _ (high (of_all n) mod high (of_all d) * 2 ^ 32 + low (of_all n)))
    |apply (Z.mod_unique_pos _ _ (high (of_all n) / high (of_all d)))]; nia.
Qed.

(** Both halves of [n] are used: the general case for a divisor of two words,
    whose two copies in the code differ in the bound of [sr] they exclude. *)
Lemma udivmod_two_words n d bound (f : Z -> outcome (Z * Z)) :
  in_u 64 n -> in_u 64 d -> high (of_all n) <> 0 -> high (of_all d) <> 0 ->
  Z.log2 n - Z.log2 d <= bound <= 31 ->
  (forall sr, 1 <= sr <= 32 -> sr = Z.log2 n - Z.log2 d + 1 -> sr <= bound + 1 -> f sr = Ok (n / d, n mod d)) ->
  (cd ← builtin_clz (high (of_all d)); cn ← builtin_clz (high (of_all n));
   let sr := u32 (cd - cn) in if bound <? sr then Ok (0, all (of_all n)) else f (sr + 1)) = Ok (n / d, n mod d).
Proof.
  intros Hn Hd Enh Edh Hb Hf. destruct (log2_high n Hn Enh) as [ELn Hnh0]. destruct (log2_high d Hd Edh) as [ELd Hdh0].
  pose proof (of_all_in n Hn) as [Rn%log2_word _]. pose proof (of_all_in d Hd) as [Rd%log2_word _].
  rewrite !builtin_clz_ok by lia. cbn [mbind outcome_bind].
  replace (31 - Z.log2 (high (of_all d)) - (31 - Z.log2 (high (of_all n)))) with (Z.log2 n - Z.log2 d) by lia.
  destruct (Z.leb_spec (Z.log2 d) (Z.log2 n)) as [Hle|Hgt].
  - rewrite wrap_small by (unfold in_u; lia). rewrite (proj2 (Z.ltb_ge bound _)) by lia. apply Hf; lia.
  - rewrite wrap_neg by lia. rewrite (proj2 (Z.ltb_lt _ _)) by lia. rewrite all_of_all.
    pose proof (all_of_all d) as Ed. pose proof (of_all_in d Hd) as [_ Hl]. unfold all in Ed. unfold in_u in *.
    rewrite div_mod_below; [done|lia|lia|done].
Qed.

(** The facts every case of the division uses. *)
Ltac div_facts n d Hn Hd Hpos :=
  pose proof (of_all_in n Hn) as [Hnh Hnl]; pose proof (of_all_in d Hd) as [Hdh Hdl];
  pose proof (all_of_all n) as En; pose proof (all_of_all d) as Ed;
  pose proof (fun qr => finish_split n d qr Hn Hd) as Hfin;
  pose proof (log2_high n Hn) as Ln; pose proof (log2_high d Hd) as Ld;
  pose proof (log2_word _ Hnh) as Rn; pose proof (log2_word _ Hdh) as Rd; pose proof (log2_word _ Hdl) as Rdl;
  unfold all in En, Ed; unfold in_u in Hnh, Hnl, Hdh, Hdl;
  unfold udivmoddi4.

Section Cases.
Context (n d : Z) (Hn : in_u 64 n) (Hd : in_u 64 d) (Hpos : 0 < d).

Lemma udivmod_one_word : high (of_all n) = 0 -> udivmoddi4 n d = Ok (n / d, n mod d).
Proof using Hn Hd Hpos.
  intros Enh. div_facts n d Hn Hd Hpos. rewrite Enh in *. cbn [Z.eqb].
  destruct (Z.eqb_spec (high (of_all d)) 0) as [Edh|Edh].
  - unfold umod, udiv. rewrite (proj2 (Z.eqb_neq (low (of_all d)) 0)) by lia. cbn [mbind outcome_bind].
    do 2 f_equal; f_equal; lia.
  - do 2 f_equal; [symmetry; apply Z.div_small|symmetry; rewrite Z.mod_small]; lia.
Qed.

Lemma not_one x : 0 < x -> Z.land x (u32 (x - 1)) <> 0 -> Z.log2 x <> 0.
Proof using Type.
  clear Hn Hd Hpos. intros Hx Ep E0. apply Ep. pose proof (Z.log2_spec x Hx) as HS. rewrite E0 in HS.
  change (2 ^ Z.succ 0) with 2 in HS. change (2 ^ 0) with 1 in HS. by replace x with 1 by lia.
Qed.

Lemma udivmod_high_word :
  high (of_all n) <> 0 -> low (of_all d) = 0 -> udivmoddi4 n d = Ok (n / d, n mod d).
Proof using Hn Hd Hpos.
  intros Enh Edl. div_facts n d Hn Hd Hpos. rewrite (proj2 (Z.eqb_neq (high (of_all n)) 0)) by done.
  rewrite Edl in *. cbn [Z.eqb]. destruct (Ln Enh) as [ELn Hnh0].
  rewrite (proj2 (Z.eqb_neq (high (of_all d)) 0)) by lia. destruct (Ld ltac:(lia)) as [ELd Hdh0].
  pose proof (div_high_word n d Hn Hd Edl Hdh0) as [Eq Er].
  destruct (Z.eqb_spec (low (of_all n)) 0) as [Enl|Enl].
  { unfold umod, udiv. rewrite (proj2 (Z.eqb_neq (high (of_all d)) 0)) by lia. cbn [mbind outcome_bind].
    rewrite Eq, Er, Enl. done. }
  destruct (Z.eqb_spec (Z.land (high (of_all d)) (u32 (high (of_all d) - 1))) 0) as [Ep|Ep].
  { destruct (pow2_exists _ Hdh0 Hdh Ep) as (k & Ek & Hk). rewrite Eq, Er, Ek, ctz_pow2 by lia. cbn [mbind outcome_bind].
    rewrite shr_ok by lia. cbn [mbind outcome_bind]. rewrite Z.shiftr_div_pow2, land_pow2 by lia. done. }
  apply (udivmod_two_words n d (32 - 2) (fun sr =>
    '(q, r) ← split_low (of_all n) sr; udivmod_finish sr (all (of_all d)) r q)); [done|done|done|lia| |].
  - pose proof (not_one _ Hdh0 Ep). lia.
  - intros sr Hsr Es Hb. destruct (split_low_spec n sr) as ([q r] & -> & Hat); [done|lia|]. cbn [mbind outcome_bind].
    rewrite Es in *. apply (Hfin (q, r)); lia || done.
Qed.

Lemma udivmod_low_word :
  high (of_all n) <> 0 -> low (of_all d) <> 0 -> high (of_all d) = 0 -> udivmoddi4 n d = Ok (n / d, n mod d).
Proof using Hn Hd Hpos.
  intros Enh Edl Edh. div_facts n d Hn Hd Hpos. destruct (Ln Enh) as [ELn Hnh0].
  rewrite (proj2 (Z.eqb_neq (high (of_all n)) 0)), (proj2 (Z.eqb_neq (low (of_all d)) 0)) by done.
  rewrite Edh in *. cbn [Z.eqb]. assert (low (of_all d) = d) as Eld by lia. rewrite Eld in *.
  destruct (Z.eqb_spec (Z.land d (u32 (d - 1))) 0) as [Ep|Ep].
  { destruct (pow2_exists d Hpos Hdl Ep) as (k & Ek & Hk).
    assert (Z.land (low (of_all n)) (u32 (d - 1)) = n mod d) as -> by (rewrite Ek, land_pow2, low_mod by lia; done).
    destruct (Z.eqb_spec d 1) as [E1|E1]; [by rewrite all_of_all, E1, Z.div_1_r|].
    assert (k <> 0) by (intros ->; done).
    rewrite Ek at 1. rewrite ctz_pow2 by lia. cbn [mbind outcome_bind].
    rewrite !shr_ok, shl_ok by lia. cbn [mbind outcome_bind].
    rewrite all_shr, all_of_all, <- Ek by (done || lia || by apply of_all_in). done. }
  pose proof (not_one d Hpos Ep). rewrite !builtin_clz_ok by lia. cbn [mbind outcome_bind].
  replace (1 + 32 + (31 - Z.log2 d) - (31 - Z.log2 (high (of_all n)))) with (Z.log2 n - Z.log2 d + 1) by lia.
  rewrite wrap_small by (unfold in_u; lia).
  specialize (fun qr => Hfin qr ltac:(lia) Hpos ltac:(lia)).
  destruct (Z.eqb_spec (Z.log2 n - Z.log2 d + 1) 32) as [E32|E32].
  { apply (Hfin (UD (low (of_all n)) 0, UD 0 (high (of_all n)))). rewrite E32. by apply split_word. }
  destruct (Z.ltb_spec (Z.log2 n - Z.log2 d + 1) 32).
  - destruct (split_low_spec n (Z.log2 n - Z.log2 d + 1)) as ([q r] & -> & Hat); [done|lia|].
    by apply (Hfin (q, r)).
  - rewrite !shl_ok, !shr_ok by lia. cbn [mbind outcome_bind].
    apply (Hfin _ (split_high n (Z.log2 n - Z.log2 d + 1) Hn ltac:(lia))).
Qed.

Lemma udivmod_both_words :
  high (of_all n) <> 0 -> low (of_all d) <> 0 -> high (of_all d) <> 0 -> udivmoddi4 n d = Ok (n / d, n mod d).
Proof using Hn Hd Hpos.
  intros Enh Edl Edh. div_facts n d Hn Hd Hpos. destruct (Ln Enh) as [ELn Hnh0]. destruct (Ld Edh) as [ELd Hdh0].
  rewrite (proj2 (Z.eqb_neq (high (of_all n)) 0)), (proj2 (Z.eqb_neq (low (of_all d)) 0)), (proj2 (Z.eqb_neq (high (of_all d)) 0)) by done.
  apply (udivmod_two_words n d (32 - 1) (fun sr =>
    if sr =? 32 then udivmod_finish sr (all (of_all d)) (UD 0 (high (of_all n))) (UD (low (of_all n)) 0)
    else '(q, r) ← split_low (of_all n) sr; udivmod_finish sr (all (of_all d)) r q)); [done..|lia|].
  intros sr Hsr Es Hb. specialize (fun qr => Hfin qr ltac:(lia) Hpos ltac:(lia)). rewrite <- Es in Hfin.
  destruct (Z.eqb_spec sr 32) as [E32|E32]; [rewrite E32 in *; by apply (Hfin _ (split_word n Hn))|].
  destruct (split_low_spec n sr) as ([q r] & -> & Hat); [done|lia|]. by apply (Hfin (q, r)).
Qed.

(** [__udivmoddi4] divides. *)
Lemma udivmoddi4_spec : udivmoddi4 n d = Ok (n / d, n mod d).
Proof using Hn Hd Hpos.
  destruct (decide (high (of_all n) = 0)); [by apply udivmod_one_word|].
  destruct (decide (low (of_all d) = 0)); [by apply udivmod_high_word|].
  destruct (decide (high (of_all d) = 0)); [by apply udivmod_low_word|by apply udivmod_both_words].
Qed.
End Cases.

(** ** Signed division *)

Lemma lxor_ones q : in_u 64 q -> Z.lxor q (Z.ones 64) = Z.ones 64 - q.
Proof.
  intros Hq. assert (Z.lxor q (Z.ones 64) = wrap 64 (Z.lnot q)) as -> by bitwise.
  unfold in_u in Hq. unfold wrap, Z.lnot. change (Z.ones 64) with (2 ^ 64 - 1).
  symmetry. apply (Z.mod_unique_pos _ _ (-1)); lia.
Qed.

Lemma negate_if_sign a b : in_s 64 a -> in_s 64 b -> a <> - 2 ^ 63 -> negate_if (Z.shiftr b 63) a = Ok (if b <? 0 then - a else a).
Proof.
  intros Ha Hb Hmin. unfold negate_if, ssub.
  assert (Z.shiftr b 63 = if b <? 0 then -1 else 0) as ->.
  { rewrite Z.shiftr_div_pow2 by lia. unfold in_s in Hb. change (64 - 1) with 63 in Hb.
    destruct (Z.ltb_spec b 0); Z.to_euclidean_division_equations; lia. }
  unfold in_s in *. change (64 - 1) with 63 in *. destruct (b <? 0).
  - rewrite Z.lxor_m1_r. replace (Z.lnot a - -1) with (- a) by (unfold Z.lnot; lia). by rewrite decide_True by lia.
  - rewrite Z.lxor_0_r, Z.sub_0_r. by rewrite decide_True by lia.
Qed.

(** [__divdi3] is truncating division, except on the least value, where negating
    overflows. *)
Lemma divdi3_spec a b :
  in_s 64 a -> in_s 64 b -> a <> - 2 ^ 63 -> b <> - 2 ^ 63 -> b <> 0 -> divdi3 a b = Ok (Z.quot a b).
Proof.
  intros Ha Hb Hma Hmb Hb0. unfold divdi3.
  rewrite !negate_if_sign by done. cbn [mbind outcome_bind]. unfold in_s in *. change (64 - 1) with 63 in *.
  assert ((if a <? 0 then - a else a) = Z.abs a) as -> by (destruct (Z.ltb_spec a 0); lia).
  assert ((if b <? 0 then - b else b) = Z.abs b) as -> by (destruct (Z.ltb_spec b 0); lia).
  rewrite !(wrap_small 64 (Z.abs _)) by (unfold in_u; lia).
  rewrite udivmoddi4_spec by (unfold in_u; lia). cbn [mbind outcome_bind fst].
  assert (0 <= Z.abs a / Z.abs b < 2 ^ 63) as Hq.
  { split; [apply Z.div_pos; lia|]. apply Z.div_lt_upper_bound; nia. }
  assert (Z.lxor (Z.shiftr a 63) (Z.shiftr b 63) = if (a <? 0) && (0 <? b) || (0 <=? a) && (b <? 0) then -1 else 0) as ->.
  { rewrite !Z.shiftr_div_pow2 by lia.
    assert (forall x, - 2 ^ 63 <= x < 2 ^ 63 -> x / 2 ^ 63 = if x <? 0 then -1 else 0) as Hs.
    { intros x Hx. destruct (Z.ltb_spec x 0); Z.to_euclidean_division_equations; lia. }
    rewrite !Hs by lia. destruct (Z.ltb_spec a 0), (Z.ltb_spec b 0), (Z.ltb_spec 0 b), (Z.leb_spec 0 a); try lia; done. }
  assert (Z.quot a b = if (a <? 0) && (0 <? b) || (0 <=? a) && (b <? 0) then - (Z.abs a / Z.abs b) else Z.abs a / Z.abs b) as ->.
  { rewrite <- Z.quot_div_nonneg by lia.
    destruct (Z.ltb_spec a 0), (Z.ltb_spec b 0), (Z.ltb_spec 0 b), (Z.leb_spec 0 a); try lia; cbn [andb orb];
      rewrite ?(Z.abs_neq a), ?(Z.abs_neq b), ?(Z.abs_eq a), ?(Z.abs_eq b) by lia;
      rewrite ?Z.quot_opp_l, ?Z.quot_opp_r by lia; lia. }
  f_equal. destruct (_ || _).
  - change (u64 (-1)) with (Z.ones 64). set (q := Z.abs a / Z.abs b) in *.
    replace (Z.lxor q (Z.ones 64) - Z.ones 64) with (- q).
    + rewrite sext_wrap_same, sext_small by (unfold in_s; lia). done.
    + rewrite lxor_ones by (unfold in_u; lia). lia.
  - change (u64 0) with 0. rewrite Z.lxor_0_r, Z.sub_0_r, sext_wrap_same, sext_small by (unfold in_s; lia). done.
Qed.

Lemma quot_small a b : in_s 64 a -> a <> - 2 ^ 63 -> b <> 0 -> - 2 ^ 63 < Z.quot a b < 2 ^ 63.
Proof.
  intros Ha Hm Hb. unfold in_s in Ha. change (64 - 1) with 63 in Ha.
  pose proof (Z.quot_abs a b Hb). assert (0 <= Z.abs a ÷ Z.abs b <= Z.abs a) by
    (rewrite Z.quot_div_nonneg by lia; split; [apply Z.div_pos; lia|apply Z.div_le_upper_bound; nia]).
  lia.
Qed.

Lemma divmoddi4_spec a b :
  in_s 64 a -> in_s 64 b -> a <> - 2 ^ 63 -> b <> - 2 ^ 63 -> b <> 0 -> divmoddi4 a b = Ok (Z.quot a b, Z.rem a b).
Proof.
  intros Ha Hb Hma Hmb Hb0. unfold divmoddi4. rewrite divdi3_spec by done. cbn [mbind outcome_bind].
  pose proof (Z.quot_rem a b Hb0) as E. pose proof (Z.rem_bound_abs a b Hb0).
  assert (Z.abs (Z.quot a b * b) <= Z.abs a).
  { pose proof (Z.quot_abs a b Hb0). rewrite Z.abs_mul, <- H0, Z.quot_div_nonneg by lia.
    pose proof (Z.mul_div_le (Z.abs a) (Z.abs b) ltac:(lia)). lia. }
  unfold smul, ssub, in_s in *. change (64 - 1) with 63 in *.
  rewrite decide_True by lia. cbn [mbind outcome_bind]. rewrite decide_True by lia. cbn [mbind outcome_bind].
  do 2 f_equal. lia.
Qed.

Lemma moddi3_spec a b :
  in_s 64 a -> in_s 64 b -> a <> - 2 ^ 63 -> b <> - 2 ^ 63 -> b <> 0 -> moddi3 a b = Ok (Z.rem a b).
Proof.
  intros Ha Hb Hma Hmb Hb0. unfold moddi3. rewrite !negate_if_sign by done. cbn [mbind outcome_bind].
  assert ((if a <? 0 then - a else a) = Z.abs a) as -> by (destruct (Z.ltb_spec a 0); lia).
  assert ((if b <? 0 then - b else b) = Z.abs b) as -> by (destruct (Z.ltb_spec b 0); lia).
  assert (Ha' := Ha). unfold in_s in Ha', Hb. change (64 - 1) with 63 in *.
  rewrite !(wrap_small 64 (Z.abs _)) by (unfold in_u; lia).
  rewrite udivmoddi4_spec by (unfold in_u; lia). cbn [mbind outcome_bind snd].
  pose proof (Z.mod_pos_bound (Z.abs a) (Z.abs b) ltac:(lia)).
  assert (Z.abs a mod Z.abs b <= Z.abs a) by (apply Z.mod_le; lia).
  rewrite sext_small by (unfold in_s; lia). rewrite negate_if_sign by (done || unfold in_s; lia). f_equal.
  pose proof (Z.rem_abs a b Hb0) as E. rewrite <- (Z.rem_mod_nonneg (Z.abs a)) by lia. rewrite E.
  destruct (Z.ltb_spec a 0); [pose proof (Z.rem_nonpos a b)|pose proof (Z.rem_nonneg a b)]; lia.
Qed.

(** ** Bit counts *)

Lemma land_high_mask x k : 0 <= k -> in_u (2 * k) x -> (Z.land x (Z.ones k * 2 ^ k) =? 0) = (x <? 2 ^ k).
Proof.
  intros Hk Hx. rewrite land_mask_shifted by lia. pose proof (pow2_pos k Hk). unfold field, in_u in *.
  replace (2 * k) with (k + k) in Hx by lia. rewrite Z.pow_add_r in Hx by lia.
  assert (0 <= x / 2 ^ k < 2 ^ k) by (split; [apply Z.div_pos|apply Z.div_lt_upper_bound]; lia).
  rewrite Z.mod_small by done. pose proof (Z.div_small_iff x (2 ^ k) ltac:(lia)).
  destruct (Z.ltb_spec x (2 ^ k)) as [Hl|Hl].
  - rewrite Z.div_small by lia. done.
  - apply Z.eqb_neq. assert (0 < x / 2 ^ k) by (apply Z.div_str_pos; lia). nia.
Qed.

(** One halving step of [__clzsi2]: [t] leading zeros found, [k] bits left. *)
Lemma clz_step x k t :
  0 < k -> 0 < x < 2 ^ (2 * k) -> t = (if x <? 2 ^ k then k else 0) ->
  0 < Z.shiftr x (k - t) < 2 ^ k /\ Z.log2 x = (k - t) + Z.log2 (Z.shiftr x (k - t)).
Proof.
  intros Hk Hx ->. pose proof (pow2_pos k ltac:(lia)). destruct (Z.ltb_spec x (2 ^ k)).
  - rewrite Z.sub_diag, Z.shiftr_0_r. lia.
  - rewrite Z.sub_0_r. assert (k <= Z.log2 x) by (apply Z.log2_le_pow2; lia).
    rewrite Z.log2_shiftr, Z.max_r, Z.shiftr_div_pow2 by lia. split; [|lia].
    replace (2 * k) with (k + k) in Hx by lia. rewrite Z.pow_add_r in Hx by lia.
    split; [apply Z.div_str_pos; lia|apply Z.div_lt_upper_bound; lia].
Qed.

Lemma clzsi2_spec x : 0 < x < 2 ^ 32 -> clzsi2 x = 31 - Z.log2 x.
Proof.
  intros Hx. unfold clzsi2. rewrite wrap_small by (unfold in_u; lia).
  change 0xFFFF0000 with (Z.ones 16 * 2 ^ 16). change 0xFF00 with (Z.ones 8 * 2 ^ 8).
  change 0xF0 with (Z.ones 4 * 2 ^ 4). change 0xC with (Z.ones 2 * 2 ^ 2).
  assert (forall (b : bool) k, Z.shiftl (b2z b) k = if b then 2 ^ k else 0) as Hsh.
  { intros [] k; cbn [b2z]; [apply Z.shiftl_1_l|apply Z.shiftl_0_l]. }
  rewrite !Hsh. rewrite land_high_mask by (unfold in_u; lia).
  destruct (clz_step x 16 _ ltac:(lia) Hx eq_refl) as [H1 E1].
  change (2 ^ 4) with 16. set (t1 := if x <? 2 ^ 16 then 16 else 0) in *. set (x1 := Z.shiftr x (16 - t1)) in *.
  rewrite land_high_mask by (unfold in_u; cbn; lia).
  destruct (clz_step x1 8 _ ltac:(lia) H1 eq_refl) as [H2 E2].
  change (2 ^ 3) with 8. set (t2 := if x1 <? 2 ^ 8 then 8 else 0) in *. set (x2 := Z.shiftr x1 (8 - t2)) in *.
  rewrite land_high_mask by (unfold in_u; cbn; lia).
  destruct (clz_step x2 4 _ ltac:(lia) H2 eq_refl) as [H3 E3].
  change (2 ^ 2) with 4. set (t3 := if x2 <? 2 ^ 4 then 4 else 0) in *. set (x3 := Z.shiftr x2 (4 - t3)) in *.
  rewrite land_high_mask by (unfold in_u; cbn; lia).
  destruct (clz_step x3 2 _ ltac:(lia) H3 eq_refl) as [H4 E4].
  change (2 ^ 1) with 2. set (t4 := if x3 <? 2 ^ 2 then 2 else 0) in *. set (x4 := Z.shiftr x3 (2 - t4)) in *.
  assert (Z.land (u32 (2 - x4)) (u32 (- b2z (Z.land x4 2 =? 0))) = 1 - Z.log2 x4) as ->.
  { change (2 ^ 2) with 4 in H4. assert (x4 = 1 \/ x4 = 2 \/ x4 = 3) as [-> | [-> | ->]] by lia; reflexivity. }
  rewrite sext_small; [lia|lia|]. pose proof (log2_word x ltac:(unfold in_u; lia)). unfold in_s. cbn. lia.
Qed.

(** [c] trailing zeros. *)
Definition is_ctz (x c : Z) : Prop := 0 <= c /\ exists y, x = y * 2 ^ c /\ Z.odd y = true.

Lemma is_ctz_unique x c c' : is_ctz x c -> is_ctz x c' -> c = c'.
Proof.
  assert (forall x c c', is_ctz x c -> is_ctz x c' -> ~ c < c') as H.
  { intros z d d' (Hd & y & -> & Hy) (Hd' & y' & E & Hy') Hlt. pose proof (pow2_pos d Hd).
    replace d' with (d + Z.succ (d' - d - 1)) in E by lia. rewrite Z.pow_add_r, Z.pow_succ_r in E by lia.
    assert (y = 2 * (y' * 2 ^ (d' - d - 1))) as -> by nia. by rewrite Z.odd_mul in Hy. }
  intros H1 H2. pose proof (H _ _ _ H1 H2). pose proof (H _ _ _ H2 H1). lia.
Qed.

Lemma ctz_pos_spec p : is_ctz (Zpos p) (ctz_pos p).
Proof.
  induction p as [p _|p (Hc & y & E & Hy)|].
  - split; [cbn; lia|]. exists (Zpos (xI p)). split; [cbn; lia|done].
  - cbn [ctz_pos]. split; [lia|]. exists y. split; [|done].
    rewrite Z.add_comm, Z.pow_add_r, Z.pow_1_r by lia. lia.
  - split; [cbn; lia|]. by exists 1.
Qed.

(** One step of [__ctzsi2]. *)
Lemma ctz_step x c k t :
  0 < k -> is_ctz x c -> c < 2 * k -> t = (if Z.land x (Z.ones k) =? 0 then k else 0) ->
  is_ctz (Z.shiftr x t) (c - t) /\ 0 <= c - t < k.
Proof.
  intros Hk (Hc & y & E & Hy) Hlt ->. rewrite Z.land_ones by lia. pose proof (pow2_pos k ltac:(lia)).
  pose proof (pow2_pos c Hc). destruct (Z.eqb_spec (x mod 2 ^ k) 0) as [E0|E0].
  - assert (k <= c).
    { destruct (Z.leb_spec k c); [done|exfalso]. rewrite E in E0. replace k with (c + Z.succ (k - c - 1)) in E0 by lia.
      rewrite Z.pow_add_r, (Z.mul_comm (2 ^ c)), Z.mul_mod_distr_r in E0 by (rewrite ?Z.pow_succ_r by lia; pose proof (pow2_pos (k - c - 1)); lia).
      rewrite Z.pow_succ_r in E0 by lia. pose proof (pow2_pos (k - c - 1) ltac:(lia)).
      assert (y mod (2 * 2 ^ (k - c - 1)) = 0) as Hm by nia. apply Z.mod_divide in Hm as [z Hz]; [|lia].
      rewrite Hz in Hy. replace (z * (2 * 2 ^ (k - c - 1))) with (2 * (z * 2 ^ (k - c - 1))) in Hy by ring.
      by rewrite Z.odd_mul in Hy. }
    split; [|lia]. split; [lia|]. exists y. split; [|done]. rewrite E, Z.shiftr_div_pow2 by lia.
    replace c with ((c - k) + k) at 1 by lia. rewrite Z.pow_add_r, Z.mul_assoc, Z.div_mul by lia. done.
  - rewrite Z.shiftr_0_r, Z.sub_0_r. split; [split; [done|by exists y]|]. split; [done|].
    destruct (Z.ltb_spec c k); [done|exfalso]. apply E0. rewrite E. replace c with ((c - k) + k) by lia.
    rewrite Z.pow_add_r, Z.mul_assoc by lia. apply Z.mod_mul. lia.
Qed.

Lemma ctzsi2_spec x c : in_u 32 x -> is_ctz x c -> c < 32 -> ctzsi2 x = c.
Proof.
  intros Hx Hc Hlt. unfold ctzsi2. rewrite wrap_small by done.
  change 0x0000FFFF with (Z.ones 16). change 0x00FF with (Z.ones 8).
  change 0x0F with (Z.ones 4).
  assert (forall (b : bool) k, Z.shiftl (b2z b) k = if b then 2 ^ k else 0) as Hsh.
  { intros [] k; cbn [b2z]; [apply Z.shiftl_1_l|apply Z.shiftl_0_l]. }
  rewrite !Hsh.
  destruct (ctz_step x c 16 _ ltac:(lia) Hc Hlt eq_refl) as [H1 E1].
  change (2 ^ 4) with 16. set (t1 := if Z.land x (Z.ones 16) =? 0 then 16 else 0) in *. set (x1 := Z.shiftr x t1) in *.
  destruct (ctz_step x1 _ 8 _ ltac:(lia) H1 ltac:(lia) eq_refl) as [H2 E2].
  change (2 ^ 3) with 8. set (t2 := if Z.land x1 (Z.ones 8) =? 0 then 8 else 0) in *. set (x2 := Z.shiftr x1 t2) in *.
  destruct (ctz_step x2 _ 4 _ ltac:(lia) H2 ltac:(lia) eq_refl) as [H3 E3].
  change (2 ^ 2) with 4. set (t3 := if Z.land x2 (Z.ones 4) =? 0 then 4 else 0) in *. set (x3 := Z.shiftr x2 t3) in *.
  destruct (ctz_step x3 _ 2 _ ltac:(lia) H3 ltac:(lia) eq_refl) as [H4 E4].
  change (2 ^ 1) with 2. change (Z.land x3 (Z.ones 2)) with (Z.land x3 3) in *. set (t4 := if Z.land x3 3 =? 0 then 2 else 0) in *. set (x4 := Z.shiftr x3 t4) in *.
  set (c4 := c - t1 - t2 - t3 - t4) in *.
  assert (Z.land (u32 (2 - Z.shiftr (Z.land x4 3) 1)) (u32 (- b2z (Z.land (Z.land x4 3) 1 =? 0))) = c4) as ->.
  { change (Z.land x4 3) with (Z.land x4 (Z.ones 2)). rewrite Z.land_ones by lia. destruct H4 as (_ & y & E & Hy). rewrite E.
    apply Z.odd_spec in Hy as [z ->].
    assert (c4 = 0 \/ c4 = 1) as [-> | ->] by lia.
    - assert ((2 * z + 1) * 2 ^ 0 mod 2 ^ 2 = 1 \/ (2 * z + 1) * 2 ^ 0 mod 2 ^ 2 = 3) as [-> | ->] by
        (change (2 ^ 0) with 1; change (2 ^ 2) with 4; Z.to_euclidean_division_equations; lia); reflexivity.
    - assert ((2 * z + 1) * 2 ^ 1 mod 2 ^ 2 = 2) as -> by
        (change (2 ^ 1) with 2; change (2 ^ 2) with 4; Z.to_euclidean_division_equations; lia). reflexivity. }
  destruct Hc as [Hc _]. rewrite sext_small; unfold in_s; cbn; lia.
Qed.

(** The routines agree with the builtins they implement. *)
Lemma bit_counts_builtin x :
  0 < x < 2 ^ 32 -> builtin_clz x = Ok (clzsi2 x) /\ builtin_ctz x = Ok (ctzsi2 x).
Proof.
  intros Hx. split.
  - rewrite builtin_clz_ok, clzsi2_spec by lia. done.
  - destruct x as [|p|p]; [lia| |lia]. cbn [builtin_ctz]. f_equal. symmetry. apply ctzsi2_spec; [unfold in_u; lia|apply ctz_pos_spec|].
    destruct (ctz_pos_spec p) as (Hc & y & E & Hy). destruct (Z.ltb_spec (ctz_pos p) 32); [done|exfalso].
    pose proof (Z.pow_le_mono_r 2 32 (ctz_pos p) ltac:(lia) ltac:(lia)).
    assert (y <> 0) by (intros ->; done). nia.
Qed.

Lemma mask_select (b : bool) h l :
  in_u 32 h -> in_u 32 l ->
  Z.lor (Z.land h (u32 (- b2z b))) (Z.land l (u32 (Z.lnot (- b2z b)))) = if b then h else l.
Proof.
  intros Hh Hl. destruct b.
  - change (u32 (- b2z true)) with (Z.ones 32). change (u32 (Z.lnot (- b2z true))) with 0.
    by rewrite Z.land_0_r, Z.lor_0_r, Z.land_ones, Z.mod_small by (done || lia).
  - change (u32 (- b2z false)) with 0. change (u32 (Z.lnot (- b2z false))) with (Z.ones 32).
    by rewrite Z.land_0_r, Z.lor_0_l, Z.land_ones, Z.mod_small by (done || lia).
Qed.

Lemma clzsi2_s32 x : clzsi2 (s32 x) = clzsi2 x.
Proof. unfold clzsi2. by rewrite wrap_sext by lia. Qed.
Lemma ctzsi2_s32 x : ctzsi2 (s32 x) = ctzsi2 x.
Proof. unfold ctzsi2. by rewrite wrap_sext by lia. Qed.

Lemma clzdi2_spec a : 0 < u64 a -> clzdi2 a = 63 - Z.log2 (u64 a).
Proof.
  intros Ha. unfold clzdi2. set (x := u64 a) in *. assert (in_u 64 x) as Hx by (apply wrap_range; lia).
  pose proof (of_all_in x Hx) as [Hh Hl]. rewrite Z.lor_comm, mask_select, clzsi2_s32 by done.
  pose proof (all_of_all x) as E. unfold all in E. pose proof (log2_high x Hx) as HL.
  unfold in_u in Hh, Hl. destruct (Z.eqb_spec (high (of_all x)) 0) as [E0|E0].
  - rewrite clzsi2_spec by lia. replace (low (of_all x)) with x by lia. change (Z.land (- b2z true) 32) with 32. lia.
  - destruct (HL E0). rewrite clzsi2_spec by lia. change (Z.land (- b2z false) 32) with 0. lia.
Qed.

Lemma ctzdi2_spec a c : 0 < u64 a -> is_ctz (u64 a) c -> ctzdi2 a = c.
Proof.
  intros Ha Hc. unfold ctzdi2. set (x := u64 a) in *. assert (in_u 64 x) as Hx by (apply wrap_range; lia).
  pose proof (of_all_in x Hx) as [Hh Hl]. rewrite mask_select, ctzsi2_s32 by done.
  pose proof (all_of_all x) as E. unfold all in E. destruct Hc as (Hc0 & y & Ey & Hy). pose proof (pow2_pos c Hc0).
  assert (0 < y) by nia.
  assert (c < 2 * 32) as Hc64.
  { destruct (Z.ltb_spec c 64); [done|exfalso]. pose proof (Z.pow_le_mono_r 2 64 c). unfold in_u in Hx. nia. }
  assert (is_ctz x c) as Hc' by (split; [done|by exists y]).
  destruct (Z.eqb_spec (low (of_all x)) 0) as [E0|E0].
  - assert (32 <= c).
    { destruct (ctz_step x c 32 _ ltac:(lia) Hc' Hc64 eq_refl) as [_ Hr].
      rewrite Z.land_ones in Hr by lia. change (x mod 2 ^ 32) with (low (of_all x)) in Hr. rewrite E0 in Hr. cbn in Hr. lia. }
    rewrite (ctzsi2_spec _ (c - 32)); [change (Z.land (- b2z true) 32) with 32; lia|done| |lia].
    split; [lia|]. exists y. split; [|done].
    assert (2 ^ c = 2 ^ (c - 32) * 2 ^ 32) as E2 by (rewrite <- Z.pow_add_r by lia; f_equal; lia). nia.
  - assert (c < 32).
    { destruct (ctz_step x c 32 _ ltac:(lia) Hc' Hc64 eq_refl) as [_ Hr].
      rewrite Z.land_ones in Hr by lia. change (x mod 2 ^ 32) with (low (of_all x)) in Hr.
      rewrite (proj2 (Z.eqb_neq _ 0)) in Hr by done. lia. }
    rewrite (ctzsi2_spec _ c); [change (Z.land (- b2z false) 32) with 0; lia|done| |done].
    split; [done|]. exists (y - high (of_all x) * 2 ^ (32 - c)). split.
    + rewrite Z.mul_sub_distr_r, <- Z.mul_assoc, <- Z.pow_add_r by lia. replace (32 - c + c) with 32 by lia. lia.
    + replace (32 - c) with (Z.succ (31 - c)) by lia. rewrite Z.pow_succ_r by lia.
      rewrite Z.odd_sub, Hy, !Z.odd_mul. cbn. by rewrite andb_false_r.
Qed.
