(* ===== verification/RingBuffer.v ===== *)
(** * RT-Thread: components/drivers/ipc/ringbuffer.c

    The control block is a record; the bytes [buffer_ptr] points to are an array
    of [pool_size] cells, and an access outside it is undefined.  The one-bit
    mirrors and the 31-bit indices wrap at their width.  Each operation is the C
    function with the data read or written as a list; [contents] is the queue the
    buffer stands for. *)
From S2P Require Import Prelude Outcome Bytes.
#[local] Open Scope string_scope.
#[local] Open Scope Z_scope.

Record rt_ringbuffer := {
  buffer_ptr : harray; pool_size : Z;
  read_mirror : Z; read_index : Z;
  write_mirror : Z; write_index : Z;
  buffer_size : Z;
}.

Inductive rt_ringbuffer_state := RT_RINGBUFFER_EMPTY | RT_RINGBUFFER_FULL | RT_RINGBUFFER_HALFFULL.

(** [~m] in a bit field of width 1. *)
Definition flip (m : Z) : Z := wrap 1 (Z.lnot m).

(** [rt_memcpy(&buffer_ptr[i], bs, length)] and the reading direction. *)
Definition buf_write (rb : rt_ringbuffer) (i : Z) (bs : list Z) : outcome rt_ringbuffer :=
  if (0 <=? i) && (i + Z.of_nat (length bs) <=? pool_size rb)
  then Ok {rb with buffer_ptr ::= (fun b => ha_put b i bs)} else Undef "write outside the pool".
Definition buf_read (rb : rt_ringbuffer) (i n : Z) : outcome (list Z) :=
  if (0 <=? i) && (0 <=? n) && (i + n <=? pool_size rb)
  then Ok (ha_get_n (buffer_ptr rb) i (Z.to_nat n)) else Undef "read outside the pool".

Definition rt_ringbuffer_status (rb : rt_ringbuffer) : rt_ringbuffer_state :=
  if read_index rb =? write_index rb then
    if read_mirror rb =? write_mirror rb then RT_RINGBUFFER_EMPTY else RT_RINGBUFFER_FULL
  else RT_RINGBUFFER_HALFFULL.

Definition rt_ringbuffer_data_len (rb : rt_ringbuffer) : Z :=
  match rt_ringbuffer_status rb with
  | RT_RINGBUFFER_EMPTY => 0
  | RT_RINGBUFFER_FULL => buffer_size rb
  | RT_RINGBUFFER_HALFFULL =>
      if read_index rb <? write_index rb then write_index rb - read_index rb
      else buffer_size rb - (read_index rb - write_index rb)
  end.

Definition rt_ringbuffer_space_len (rb : rt_ringbuffer) : Z := u32 (buffer_size rb - rt_ringbuffer_data_len rb).

Definition rt_ringbuffer_get_size (rb : rt_ringbuffer) : Z := u32 (buffer_size rb).

Definition RT_ALIGN_DOWN (size align : Z) : Z := Z.land size (Z.lnot (align - 1)).

(** [pool] holds [pool_len] bytes. *)
Definition rt_ringbuffer_init (RT_ALIGN_SIZE : Z) (pool : harray) (pool_len size : Z) : outcome rt_ringbuffer :=
  if 0 <? size then
    Ok {| buffer_ptr := pool; pool_size := pool_len; read_mirror := 0; read_index := 0;
          write_mirror := 0; write_index := 0; buffer_size := s32 (RT_ALIGN_DOWN size RT_ALIGN_SIZE) |}
  else Abort "size > 0".

Definition rt_ringbuffer_reset (rb : rt_ringbuffer) : rt_ringbuffer :=
  {rb with read_mirror := 0; read_index := 0; write_mirror := 0; write_index := 0}.

(** Stores [bs] from the write index on, in one or two copies, and moves the index. *)
Definition put_wrapped (rb : rt_ringbuffer) (bs : list Z) : outcome rt_ringbuffer :=
  let length := Z.of_nat (length bs) in
  let room := buffer_size rb - write_index rb in
  if length <? u32 room then
    rb ← buf_write rb (write_index rb) bs;
    Ok {rb with write_index ::= (fun w => wrap 31 (w + length))}
  else
    rb ← buf_write rb (write_index rb) (take (Z.to_nat room) bs);
    rb ← buf_write rb 0 (drop (Z.to_nat room) bs);
    Ok {rb with write_mirror ::= flip; write_index := wrap 31 (length - room)}.

Definition rt_ringbuffer_put (rb : rt_ringbuffer) (ptr : list Z) : outcome (Z * rt_ringbuffer) :=
  let size := rt_ringbuffer_space_len rb in
  if size =? 0 then Ok (0, rb) else
  let n := if size <? Z.of_nat (length ptr) then size else Z.of_nat (length ptr) in
  rb ← put_wrapped rb (take (Z.to_nat n) ptr); Ok (n, rb).

Definition rt_ringbuffer_put_force (rb : rt_ringbuffer) (ptr : list Z) : outcome (Z * rt_ringbuffer) :=
  let space_length := rt_ringbuffer_space_len rb in
  let ptr := if u32 (buffer_size rb) <? Z.of_nat (length ptr)
             then drop (Z.to_nat (Z.of_nat (length ptr) - u32 (buffer_size rb))) ptr else ptr in
  let n := Z.of_nat (length ptr) in
  let room := buffer_size rb - write_index rb in
  rb ← put_wrapped rb ptr;
  if space_length <? n then
    if n <? u32 room then Ok (n, {rb with read_index := write_index rb})
    else
      let rb := if write_index rb <=? read_index rb then {rb with read_mirror ::= flip} else rb in
      Ok (n, {rb with read_index := write_index rb})
  else Ok (n, rb).

(** The bytes read; the return value is their number. *)
Definition rt_ringbuffer_get (rb : rt_ringbuffer) (length : Z) : outcome (list Z * rt_ringbuffer) :=
  let size := rt_ringbuffer_data_len rb in
  if size =? 0 then Ok ([], rb) else
  let length := if size <? length then size else length in
  let room := buffer_size rb - read_index rb in
  if length <? u32 room then
    d ← buf_read rb (read_index rb) length;
    Ok (d, {rb with read_index ::= (fun r => wrap 31 (r + length))})
  else
    d1 ← buf_read rb (read_index rb) room;
    d2 ← buf_read rb 0 (length - room);
    Ok ((d1 ++ d2)%list, {rb with read_mirror ::= flip; read_index := wrap 31 (length - room)}).

(** The offset stored through [ptr] ([None] for RT_NULL) and the size; the cast is to
    [rt_size_t]. *)
Definition rt_ringbuffer_peek (rb : rt_ringbuffer) : option Z * Z * rt_ringbuffer :=
  let size := rt_ringbuffer_data_len rb in
  if size =? 0 then (None, 0, rb) else
  let room := buffer_size rb - read_index rb in
  if size <? u64 room then (Some (read_index rb), size, {rb with read_index ::= (fun r => wrap 31 (r + size))})
  else (Some (read_index rb), room, {rb with read_mirror ::= flip; read_index := 0}).

Definition rt_ringbuffer_putchar (rb : rt_ringbuffer) (ch : Z) : outcome (Z * rt_ringbuffer) :=
  if rt_ringbuffer_space_len rb =? 0 then Ok (0, rb) else
  rb ← buf_write rb (write_index rb) [ch];
  if write_index rb =? buffer_size rb - 1 then Ok (1, {rb with write_mirror ::= flip; write_index := 0})
  else Ok (1, {rb with write_index ::= (fun w => wrap 31 (w + 1))}).

Definition rt_ringbuffer_putchar_force (rb : rt_ringbuffer) (ch : Z) : outcome (Z * rt_ringbuffer) :=
  let old_state := rt_ringbuffer_status rb in
  rb ← buf_write rb (write_index rb) [ch];
  if write_index rb =? buffer_size rb - 1 then
    let rb := {rb with write_mirror ::= flip; write_index := 0} in
    match old_state with
    | RT_RINGBUFFER_FULL => Ok (1, {rb with read_mirror ::= flip; read_index := write_index rb})
    | _ => Ok (1, rb)
    end
  else
    let rb := {rb with write_index ::= (fun w => wrap 31 (w + 1))} in
    match old_state with
    | RT_RINGBUFFER_FULL => Ok (1, {rb with read_index := write_index rb})
    | _ => Ok (1, rb)
    end.

Definition rt_ringbuffer_getchar (rb : rt_ringbuffer) : outcome (option Z * rt_ringbuffer) :=
  if rt_ringbuffer_data_len rb =? 0 then Ok (None, rb) else
  d ← buf_read rb (read_index rb) 1;
  if read_index rb =? buffer_size rb - 1 then Ok (head d, {rb with read_mirror ::= flip; read_index := 0})
  else Ok (head d, {rb with read_index ::= (fun r => wrap 31 (r + 1))}).

(** ** Cells of a circular array *)

Section Ring.
Variable bs : Z.

(** The index [k] places after [i]. *)
Definition adv (i k : Z) : Z := if i + k <? bs then i + k else i + k - bs.

Definition cells (b : harray) (i : Z) (n : nat) : list Z :=
  (fun k => ha_get b (adv i (Z.of_nat k))) <$> seq 0 n.

(** A store of [l] at [i], wrapping at the end. *)
Definition ring_put (b : harray) (i : Z) (l : list Z) : harray :=
  ha_put (ha_put b i (take (Z.to_nat (bs - i)) l)) 0 (drop (Z.to_nat (bs - i)) l).

Lemma adv_adv i a b : 0 <= i < bs -> 0 <= a -> 0 <= b -> a + b <= bs -> adv (adv i a) b = adv i (a + b) \/ adv (adv i a) b + bs = adv i (a + b).
Proof. unfold adv. intros. repeat case Z.ltb_spec; lia. Qed.

Lemma adv_range i k : 0 <= i < bs -> 0 <= k <= bs -> 0 <= adv i k < bs.
Proof. unfold adv. intros. case Z.ltb_spec; lia. Qed.

Lemma length_cells b i n : length (cells b i n) = n.
Proof. unfold cells. by rewrite length_fmap, length_seq. Qed.

Lemma lookup_cells b i n k : (k < n)%nat -> cells b i n !! k = Some (ha_get b (adv i (Z.of_nat k))).
Proof. intros H. unfold cells. rewrite list_lookup_fmap, lookup_seq_lt by done. done. Qed.

Lemma cells_split b i a c :
  0 <= i < bs -> Z.of_nat (a + c) <= bs ->
  cells b i (a + c) = (cells b i a ++ cells b (adv i (Z.of_nat a)) c)%list.
Proof.
  intros Hi Hn. apply list_eq. intros k. destruct (decide (k < a)%nat) as [Hk|Hk].
  - rewrite lookup_app_l by (by rewrite length_cells). rewrite !lookup_cells by lia. done.
  - rewrite lookup_app_r by (rewrite length_cells; lia). rewrite length_cells.
    destruct (decide (k < a + c)%nat).
    + rewrite !lookup_cells by lia. do 2 f_equal. unfold adv. repeat case Z.ltb_spec; lia.
    + rewrite !lookup_ge_None_2; rewrite ?length_cells; auto; lia.
Qed.

Lemma take_cells b i n c : (c <= n)%nat -> take c (cells b i n) = cells b i c.
Proof. intros H. unfold cells. by rewrite <- fmap_take, take_seq, Nat.min_l by done. Qed.

Lemma drop_cells b i n c :
  0 <= i < bs -> (c <= n)%nat -> Z.of_nat n <= bs -> drop c (cells b i n) = cells b (adv i (Z.of_nat c)) (n - c).
Proof.
  intros Hi H Hn. replace n with (c + (n - c))%nat at 1 by lia. rewrite cells_split by lia.
  rewrite drop_app_length'; [done|by rewrite length_cells].
Qed.

(** Reading a straight run. *)
Lemma cells_get_n b i n : 0 <= i -> i + Z.of_nat n <= bs -> cells b i n = ha_get_n b i n.
Proof.
  intros Hi Hn. apply list_eq. intros k. destruct (decide (k < n)%nat).
  - rewrite lookup_cells, ha_get_n_lookup by done. do 2 f_equal. unfold adv. case Z.ltb_spec; lia.
  - rewrite !lookup_ge_None_2; rewrite ?length_cells, ?length_ha_get_n; auto; lia.
Qed.

Lemma ring_put_get b i l j :
  0 <= i < bs -> Z.of_nat (length l) <= bs -> 0 <= j < bs ->
  ha_get (ring_put b i l) j =
  match l !! Z.to_nat (if i <=? j then j - i else j - i + bs) with Some x => u8 x | None => ha_get b j end.
Proof.
  intros Hi Hl Hj. unfold ring_put. rewrite !ha_get_put, Z.sub_0_r, lookup_drop.
  rewrite (proj2 (Z.leb_le 0 j)) by lia.
  destruct (Z.leb_spec i j).
  - rewrite lookup_take_lt by lia.
    assert (l !! (Z.to_nat (bs - i) + Z.to_nat j)%nat = None) as -> by (apply lookup_ge_None_2; lia).
    done.
  - replace (Z.to_nat (bs - i) + Z.to_nat j)%nat with (Z.to_nat (j - i + bs)) by lia.
    destruct (l !! Z.to_nat (j - i + bs)); [done|]. by destruct (take _ l !! _).
Qed.

(** The written cells hold the data; those before and after are unchanged. *)
Lemma cells_ring_put_same b i l :
  0 <= i < bs -> Z.of_nat (length l) <= bs -> bytes_ok l -> cells (ring_put b i l) i (length l) = l.
Proof.
  intros Hi Hl Hb. apply list_eq. intros k. destruct (decide (k < length l)%nat) as [Hk|Hk].
  - rewrite lookup_cells by done. destruct (lookup_lt_is_Some_2 l k Hk) as [x Hx]. rewrite Hx.
    rewrite ring_put_get by (done || apply adv_range; lia).
    assert (Z.to_nat (if i <=? adv i (Z.of_nat k) then adv i (Z.of_nat k) - i else adv i (Z.of_nat k) - i + bs) = k) as ->.
    { unfold adv. repeat case Z.ltb_spec; repeat case Z.leb_spec; lia. }
    rewrite Hx. f_equal. apply wrap_small. by eapply Forall_lookup in Hb.
  - rewrite !lookup_ge_None_2; rewrite ?length_cells; auto; lia.
Qed.

Lemma cells_ring_put_other b i l n :
  0 <= i < bs -> Z.of_nat (n + length l) <= bs -> cells (ring_put b (adv i (Z.of_nat n)) l) i n = cells b i n.
Proof.
  intros Hi Hl. apply list_eq. intros k. destruct (decide (k < n)%nat) as [Hk|Hk].
  - rewrite !lookup_cells by done. f_equal.
    rewrite ring_put_get by (lia || apply adv_range; lia).
    assert (l !! Z.to_nat (if adv i (Z.of_nat n) <=? adv i (Z.of_nat k) then adv i (Z.of_nat k) - adv i (Z.of_nat n)
                           else adv i (Z.of_nat k) - adv i (Z.of_nat n) + bs) = None) as ->; [|done].
    apply lookup_ge_None_2. unfold adv. repeat case Z.ltb_spec; repeat case Z.leb_spec; lia.
  - rewrite !lookup_ge_None_2; rewrite ?length_cells; auto; lia.
Qed.

(** Appending [l] to the [n] cells from [i]. *)
Lemma cells_append b i n l :
  0 <= i < bs -> Z.of_nat (n + length l) <= bs -> bytes_ok l ->
  cells (ring_put b (adv i (Z.of_nat n)) l) i (n + length l) = (cells b i n ++ l)%list.
Proof.
  intros Hi Hn Hb. rewrite cells_split by lia. rewrite cells_ring_put_other by lia.
  rewrite cells_ring_put_same; [done|apply adv_range; lia|lia|done].
Qed.
End Ring.

(** ** The queue a buffer stands for *)

Record ring_repr (rb : rt_ringbuffer) (q : list Z) : Prop := {
  rr_size : 0 < buffer_size rb < 2 ^ 31 /\ buffer_size rb <= pool_size rb;
  rr_read : 0 <= read_index rb < buffer_size rb /\ 0 <= read_mirror rb <= 1;
  rr_len : Z.of_nat (length q) <= buffer_size rb;
  rr_write : write_index rb = adv (buffer_size rb) (read_index rb) (Z.of_nat (length q));
  rr_mirror : write_mirror rb =
    if read_index rb + Z.of_nat (length q) <? buffer_size rb then read_mirror rb else flip (read_mirror rb);
  rr_cells : q = cells (buffer_size rb) (buffer_ptr rb) (read_index rb) (length q);
}.

Lemma flip_mirror m : 0 <= m <= 1 -> flip m = 1 - m.
Proof. intros Hm. assert (m = 0 \/ m = 1) as [-> | ->] by lia; done. Qed.

Lemma flip_flip m : 0 <= m <= 1 -> flip (flip m) = m.
Proof. intros Hm. assert (m = 0 \/ m = 1) as [-> | ->] by lia; done. Qed.

(** The state left by one store of [l]. *)
Definition rb_stored (rb : rt_ringbuffer) (l : list Z) : rt_ringbuffer :=
  let n := Z.of_nat (length l) in
  {| buffer_ptr := ring_put (buffer_size rb) (buffer_ptr rb) (write_index rb) l; pool_size := pool_size rb;
     read_mirror := read_mirror rb; read_index := read_index rb;
     write_mirror := if write_index rb + n <? buffer_size rb then write_mirror rb else flip (write_mirror rb);
     write_index := adv (buffer_size rb) (write_index rb) n; buffer_size := buffer_size rb |}.

Definition rb_consumed (rb : rt_ringbuffer) (n : Z) : rt_ringbuffer :=
  {| buffer_ptr := buffer_ptr rb; pool_size := pool_size rb;
     read_mirror := if read_index rb + n <? buffer_size rb then read_mirror rb else flip (read_mirror rb);
     read_index := adv (buffer_size rb) (read_index rb) n;
     write_mirror := write_mirror rb; write_index := write_index rb; buffer_size := buffer_size rb |}.

Section Ops.
Context (rb : rt_ringbuffer) (q : list Z) (Hr : ring_repr rb q).

Lemma data_len_repr : rt_ringbuffer_data_len rb = Z.of_nat (length q).
Proof using Hr.
  destruct Hr as [[Hs _] [Hri Hm] Hl Hw Hwm _]. unfold rt_ringbuffer_data_len, rt_ringbuffer_status.
  rewrite flip_mirror in Hwm by done. revert Hw Hwm. unfold adv.
  case Z.ltb_spec; intros ? -> ->; repeat case Z.eqb_spec; repeat case Z.ltb_spec; lia.
Qed.

Lemma status_full_repr : rt_ringbuffer_status rb = RT_RINGBUFFER_FULL <-> Z.of_nat (length q) = buffer_size rb.
Proof using Hr.
  destruct Hr as [[Hs _] [Hri Hm] Hl Hw Hwm _]. unfold rt_ringbuffer_status.
  rewrite flip_mirror in Hwm by done. revert Hw Hwm. unfold adv.
  case Z.ltb_spec; intros ? -> ->; repeat case Z.eqb_spec; intros; split; intros; first [done|lia|exfalso; lia].
Qed.

Lemma space_len_repr : rt_ringbuffer_space_len rb = buffer_size rb - Z.of_nat (length q).
Proof using Hr.
  unfold rt_ringbuffer_space_len. rewrite data_len_repr. destruct Hr. apply wrap_small. unfold in_u. lia.
Qed.

Lemma write_index_range : 0 <= write_index rb < buffer_size rb.
Proof using Hr. destruct Hr as [? ? ? -> _ _]. apply adv_range; lia. Qed.

Lemma put_wrapped_spec l :
  Z.of_nat (length l) <= buffer_size rb -> put_wrapped rb l = Ok (rb_stored rb l).
Proof using Hr.
  intros Hl. pose proof write_index_range as Hw. destruct Hr as [[Hs Hp] _ _ _ _ _]. clear Hr.
  unfold put_wrapped, rb_stored. destruct rb as [b ps rm ri wm wi n].
  cbn [buffer_ptr pool_size read_mirror read_index write_mirror write_index buffer_size] in *.
  rewrite (wrap_small 32 (n - wi)) by (unfold in_u; lia). unfold buf_write, adv, ring_put.
  cbn [pool_size buffer_ptr]. destruct (Z.ltb_spec (Z.of_nat (length l)) (n - wi)).
  - rewrite (proj2 (Z.leb_le 0 wi)), (proj2 (Z.leb_le _ ps)), (proj2 (Z.ltb_lt (wi + _) n)) by lia.
    cbn [andb mbind outcome_bind]. rewrite take_ge, drop_ge by lia. f_equal.
    change (Build_rt_ringbuffer (ha_put b wi l) ps rm ri wm (wrap 31 (wi + Z.of_nat (length l))) n =
      Build_rt_ringbuffer (ha_put b wi l) ps rm ri wm (wi + Z.of_nat (length l)) n).
    by rewrite wrap_small by (unfold in_u; lia).
  - rewrite length_take, (proj2 (Z.leb_le 0 wi)), (proj2 (Z.leb_le (wi + _) ps)) by lia.
    cbn [andb mbind outcome_bind pool_size]. rewrite length_drop.
    change (pool_size _) with ps. rewrite (proj2 (Z.leb_le (0 + _) ps)), (proj2 (Z.ltb_ge (wi + _) n)) by lia.
    cbn [Z.leb Z.compare andb mbind outcome_bind]. f_equal. rewrite wrap_small by (unfold in_u; lia).
    by replace (Z.of_nat (length l) - (n - wi)) with (wi + Z.of_nat (length l) - n) by lia.
Qed.

(** A store that fits appends. *)
Lemma rb_stored_repr l :
  bytes_ok l -> Z.of_nat (length q + length l) <= buffer_size rb -> ring_repr (rb_stored rb l) (q ++ l).
Proof using Hr.
  intros Hb Hl. pose proof write_index_range. destruct Hr as [[Hs Hp] [Hri Hm] Hq Hw Hwm Hc].
  split; cbn [rb_stored buffer_ptr pool_size read_mirror read_index write_mirror write_index buffer_size];
    rewrite ?length_app; try done; try lia.
  - rewrite Hw. unfold adv. repeat case Z.ltb_spec; lia.
  - rewrite Hwm, Hw. unfold adv. pose proof (flip_flip (read_mirror rb) Hm).
    repeat case Z.ltb_spec; intros; try done; lia.
  - rewrite Hw, cells_append by (done || lia). by rewrite <- Hc.
Qed.

Lemma rb_consumed_repr n :
  0 <= n <= Z.of_nat (length q) -> ring_repr (rb_consumed rb n) (drop (Z.to_nat n) q).
Proof using Hr.
  intros Hn. destruct Hr as [[Hs Hp] [Hri Hm] Hq Hw Hwm Hc].
  split; cbn [rb_consumed buffer_ptr pool_size read_mirror read_index write_mirror write_index buffer_size];
    rewrite ?length_drop; try done; try lia.
  - split; [apply adv_range; lia|]. rewrite flip_mirror by done. case Z.ltb_spec; lia.
  - rewrite Hw. unfold adv. repeat case Z.ltb_spec; lia.
  - rewrite Hwm. unfold adv. pose proof (flip_flip (read_mirror rb) Hm).
    repeat case Z.ltb_spec; intros; try done; lia.
  - rewrite Hc at 1. rewrite drop_cells by lia. by rewrite Z2Nat.id by lia.
Qed.

Lemma get_spec n :
  0 <= n ->
  rt_ringbuffer_get rb n =
  Ok (take (Z.to_nat n) q, rb_consumed rb (Z.min n (Z.of_nat (length q)))).
Proof using Hr.
  intros Hn. pose proof data_len_repr as Hd. destruct Hr as [[Hs Hp] [Hri Hm] Hq Hw Hwm Hc]. clear Hr.
  unfold rt_ringbuffer_get. rewrite Hd.
  assert (Hmin : (if Z.of_nat (length q) <? n then Z.of_nat (length q) else n) = Z.min n (Z.of_nat (length q)))
    by (case Z.ltb_spec; lia).
  rewrite Hmin. set (k := Z.min n (Z.of_nat (length q))).
  assert (take (Z.to_nat n) q = cells (buffer_size rb) (buffer_ptr rb) (read_index rb) (Z.to_nat k)) as ->.
  { rewrite Hc at 1. destruct (decide (Z.to_nat n <= length q)%nat).
    - rewrite take_cells by done. f_equal. lia.
    - rewrite take_ge by (rewrite length_cells; lia). f_equal. lia. }
  destruct rb as [b ps rm ri wm wi m]. unfold rb_consumed, buf_read.
  cbn [buffer_ptr pool_size read_mirror read_index write_mirror write_index buffer_size] in *.
  destruct (Z.eqb_spec (Z.of_nat (length q)) 0).
  { assert (k = 0) as -> by lia. unfold adv. rewrite Z.add_0_r, (proj2 (Z.ltb_lt ri m)) by lia. done. }
  rewrite (wrap_small 32) by (unfold in_u; lia). unfold adv. destruct (Z.ltb_spec k (m - ri)).
  - rewrite (proj2 (Z.leb_le 0 ri)), (proj2 (Z.leb_le 0 k)), (proj2 (Z.leb_le _ ps)), (proj2 (Z.ltb_lt (ri + k) m)) by lia.
    cbn [andb mbind outcome_bind]. rewrite cells_get_n by lia. f_equal. f_equal.
    change (Build_rt_ringbuffer b ps rm (wrap 31 (ri + k)) wm wi m = Build_rt_ringbuffer b ps rm (ri + k) wm wi m).
    by rewrite wrap_small by (unfold in_u; lia).
  - rewrite (proj2 (Z.leb_le 0 ri)), (proj2 (Z.leb_le 0 (m - ri))), (proj2 (Z.leb_le (ri + (m - ri)) ps)) by lia.
    rewrite (proj2 (Z.leb_le 0 (k - (m - ri)))), (proj2 (Z.leb_le (0 + (k - (m - ri))) ps)), (proj2 (Z.ltb_ge (ri + k) m)) by lia.
    cbn [Z.leb Z.compare andb mbind outcome_bind]. f_equal. f_equal.
    + replace (Z.to_nat k) with (Z.to_nat (m - ri) + Z.to_nat (k - (m - ri)))%nat by lia.
      rewrite cells_split, !cells_get_n by (unfold adv; repeat case Z.ltb_spec; lia).
      do 2 f_equal. unfold adv. case Z.ltb_spec; lia.
    + rewrite wrap_small by (unfold in_u; lia). by replace (k - (m - ri)) with (ri + k - m) by lia.
Qed.
End Ops.

Section Puts.
Context (rb : rt_ringbuffer) (q : list Z) (Hr : ring_repr rb q).

Lemma put_spec l :
  bytes_ok l ->
  let n := Z.min (Z.of_nat (length l)) (buffer_size rb - Z.of_nat (length q)) in
  exists rb', rt_ringbuffer_put rb l = Ok (n, rb') /\ ring_repr rb' (q ++ take (Z.to_nat n) l)
    /\ buffer_size rb' = buffer_size rb.
Proof using Hr.
  intros Hb n. pose proof (rr_len _ _ Hr) as Hl. unfold rt_ringbuffer_put. rewrite (space_len_repr rb q Hr).
  destruct (Z.eqb_spec (buffer_size rb - Z.of_nat (length q)) 0) as [E|E].
  - exists rb. assert (n = 0) as -> by lia. by rewrite app_nil_r.
  - assert ((if buffer_size rb - Z.of_nat (length q) <? Z.of_nat (length l)
             then buffer_size rb - Z.of_nat (length q) else Z.of_nat (length l)) = n) as -> by (unfold n; case Z.ltb_spec; lia).
    rewrite (put_wrapped_spec rb q Hr) by (rewrite length_take; lia). cbn [mbind outcome_bind].
    eexists. split; [done|]. split; [|done]. apply (rb_stored_repr rb q Hr); [by apply Forall_take|rewrite length_take; lia].
Qed.

(** An overflowing store is a store after dropping the oldest bytes. *)
Definition forced (l : list Z) : rt_ringbuffer :=
  rb_stored (rb_consumed rb (Z.of_nat (length q) + Z.of_nat (length l) - buffer_size rb)) l.

Lemma forced_repr l :
  bytes_ok l -> Z.of_nat (length l) <= buffer_size rb -> buffer_size rb < Z.of_nat (length q) + Z.of_nat (length l) ->
  ring_repr (forced l) (drop (length q + length l - Z.to_nat (buffer_size rb)) q ++ l).
Proof using Hr.
  intros Hb Hl Ho. pose proof (rr_len _ _ Hr). unfold forced.
  replace (length q + length l - Z.to_nat (buffer_size rb))%nat
    with (Z.to_nat (Z.of_nat (length q) + Z.of_nat (length l) - buffer_size rb)) by lia.
  apply rb_stored_repr; [apply (rb_consumed_repr rb q Hr); lia|done|]. cbn [buffer_size rb_consumed].
  rewrite length_drop. lia.
Qed.

(** Where the read index lands when the write index has overtaken it. *)
Lemma forced_eq l :
  Z.of_nat (length l) <= buffer_size rb -> buffer_size rb < Z.of_nat (length q) + Z.of_nat (length l) ->
  let st := rb_stored rb l in
  forced l =
  {| buffer_ptr := buffer_ptr st; pool_size := pool_size rb;
     read_mirror := if (buffer_size rb <=? write_index rb + Z.of_nat (length l)) && (write_index st <=? read_index rb)
                    then flip (read_mirror rb) else read_mirror rb;
     read_index := write_index st; write_mirror := write_mirror st; write_index := write_index st;
     buffer_size := buffer_size rb |}.
Proof using Hr.
  intros Hl Ho. destruct Hr as [[Hs Hp] [Hri Hm] Hq Hw Hwm Hc]. clear Hr. cbv zeta.
  unfold forced, rb_stored, rb_consumed.
  cbn [buffer_ptr pool_size read_mirror read_index write_mirror write_index buffer_size].
  set (n := buffer_size rb) in *. set (ri := read_index rb) in *. set (d := Z.of_nat (length q)) in *.
  set (k := Z.of_nat (length l)) in *. rewrite Hw. f_equal.
  - unfold adv. repeat case Z.ltb_spec; repeat case Z.leb_spec; intros; try done; lia.
  - unfold adv. repeat case Z.ltb_spec; lia.
Qed.

Lemma put_force_spec l :
  bytes_ok l ->
  exists rb', rt_ringbuffer_put_force rb l = Ok (Z.min (Z.of_nat (length l)) (buffer_size rb), rb')
    /\ ring_repr rb' (drop (length q + length l - Z.to_nat (buffer_size rb)) (q ++ l))
    /\ buffer_size rb' = buffer_size rb.
Proof using Hr.
  intros Hb. pose proof (rr_len _ _ Hr) as Hq. pose proof (rr_size _ _ Hr) as [Hs _].
  pose proof (write_index_range rb q Hr) as Hwr.
  unfold rt_ringbuffer_put_force. rewrite (space_len_repr rb q Hr), !(wrap_small 32) by (unfold in_u; lia).
  set (l' := if buffer_size rb <? Z.of_nat (length l) then drop _ l else l).
  assert (Hl' : Z.of_nat (length l') = Z.min (Z.of_nat (length l)) (buffer_size rb)).
  { unfold l'. case Z.ltb_spec; intros; rewrite ?length_drop; lia. }
  assert (Hb' : bytes_ok l') by (unfold l'; case_match; [by apply Forall_drop|done]).
  assert (Hd : drop (length q + length l - Z.to_nat (buffer_size rb)) (q ++ l)
               = (drop (length q + length l' - Z.to_nat (buffer_size rb)) q ++ l')%list).
  { unfold l'. destruct (Z.ltb_spec (buffer_size rb) (Z.of_nat (length l))).
    - rewrite drop_app_ge by lia. rewrite (drop_ge q) by (rewrite length_drop; lia). cbn [app]. f_equal. lia.
    - rewrite drop_app_le by lia. done. }
  rewrite Hd, (put_wrapped_spec rb q Hr) by lia. cbn [mbind outcome_bind]. rewrite Hl'.
  destruct (Z.ltb_spec (buffer_size rb - Z.of_nat (length q)) (Z.min (Z.of_nat (length l)) (buffer_size rb))) as [Ho|Ho].
  - pose proof (forced_repr l' Hb' ltac:(lia) ltac:(lia)) as HR. pose proof (forced_eq l' ltac:(lia) ltac:(lia)) as HE.
    exists (forced l'). split; [|split; [done|by rewrite HE]]. rewrite HE, Hl'.
    destruct (Z.ltb_spec (Z.min (Z.of_nat (length l)) (buffer_size rb)) (buffer_size rb - write_index rb)).
    + rewrite (proj2 (Z.leb_gt (buffer_size rb) _)) by lia. done.
    + rewrite (proj2 (Z.leb_le (buffer_size rb) _)) by lia. cbn [andb].
      change (read_index (rb_stored rb l')) with (read_index rb). by destruct (write_index (rb_stored rb l') <=? read_index rb).
  - exists (rb_stored rb l'). split; [done|]. split; [|done].
    replace (length q + length l' - Z.to_nat (buffer_size rb))%nat with 0%nat by lia.
    apply (rb_stored_repr rb q Hr); [done|lia].
Qed.

(** ** Bytes *)

Lemma ring_put_one b i ch n : 0 <= i < n -> ring_put n b i [ch] = ha_put b i [ch].
Proof using Type.
  clear Hr. intros Hi. unfold ring_put. assert (exists k, Z.to_nat (n - i) = S k) as [k ->] by (exists (Z.to_nat (n - i - 1)); lia).
  cbn [take drop]. by rewrite take_nil, drop_nil.
Qed.

Lemma buf_write_one ch : buf_write rb (write_index rb) [ch] = Ok {rb with buffer_ptr ::= (fun b => ha_put b (write_index rb) [ch])}.
Proof using Hr.
  pose proof (write_index_range rb q Hr). destruct Hr as [[Hs Hp] _ _ _ _ _]. unfold buf_write. cbn [length].
  rewrite (proj2 (Z.leb_le 0 (write_index rb))), (proj2 (Z.leb_le (write_index rb + Z.of_nat 1) (pool_size rb))) by lia. done.
Qed.

(** The one-byte store and its index are those of the block store. *)
Lemma store_one ch :
  rb_stored rb [ch] =
  let st := {rb with buffer_ptr ::= (fun b => ha_put b (write_index rb) [ch])} in
  if write_index rb =? buffer_size rb - 1 then {st with write_mirror ::= flip; write_index := 0}
  else {st with write_index ::= (fun w => wrap 31 (w + 1))}.
Proof using Hr.
  pose proof (write_index_range rb q Hr). destruct Hr as [[Hs Hp] _ _ _ _ _]. clear Hr.
  unfold rb_stored. destruct rb as [b ps rm ri wm wi n].
  cbn [buffer_ptr pool_size read_mirror read_index write_mirror write_index buffer_size length] in *.
  change (Z.of_nat 1) with 1. rewrite ring_put_one by done. unfold adv. cbv zeta.
  destruct (Z.eqb_spec wi (n - 1)) as [->|].
  - rewrite (proj2 (Z.ltb_ge (n - 1 + 1) n)) by lia. by replace (n - 1 + 1 - n) with 0 by lia.
  - rewrite (proj2 (Z.ltb_lt (wi + 1) n)) by lia.
    change (Build_rt_ringbuffer (ha_put b wi [ch]) ps rm ri wm (wi + 1) n =
      Build_rt_ringbuffer (ha_put b wi [ch]) ps rm ri wm (wrap 31 (wi + 1)) n).
    by rewrite wrap_small by (unfold in_u; lia).
Qed.
End Puts.

Lemma bytes_one ch : in_u 8 ch -> bytes_ok [ch].
Proof. intros. by apply Forall_singleton. Qed.

Section Chars.
Context (rb : rt_ringbuffer) (q : list Z) (Hr : ring_repr rb q).

Lemma putchar_spec ch :
  in_u 8 ch ->
  let n := if decide (Z.of_nat (length q) = buffer_size rb) then 0 else 1 in
  exists rb', rt_ringbuffer_putchar rb ch = Ok (n, rb') /\ ring_repr rb' (q ++ take (Z.to_nat n) [ch])
    /\ buffer_size rb' = buffer_size rb.
Proof using Hr.
  intros Hch n. pose proof (rr_len _ _ Hr). unfold rt_ringbuffer_putchar. rewrite (space_len_repr rb q Hr). unfold n. clear n.
  case_decide as Hd.
  - rewrite Hd, Z.sub_diag. exists rb. by rewrite app_nil_r.
  - change (take (Z.to_nat 1) [ch]) with [ch]. rewrite (proj2 (Z.eqb_neq (buffer_size rb - _) 0)) by lia.
    rewrite (buf_write_one rb q Hr). cbn [mbind outcome_bind].
    exists (rb_stored rb [ch]). split; [|split; [|done]].
    + rewrite (store_one rb q Hr). cbv zeta. cbn [write_index buffer_size].
      change (write_index {rb with buffer_ptr ::= _}) with (write_index rb).
      change (buffer_size {rb with buffer_ptr ::= _}) with (buffer_size rb).
      by destruct (write_index rb =? buffer_size rb - 1).
    + apply (rb_stored_repr rb q Hr); [by apply bytes_one|cbn [length]; lia].
Qed.

Lemma putchar_force_spec ch :
  in_u 8 ch ->
  exists rb', rt_ringbuffer_putchar_force rb ch = Ok (1, rb')
    /\ ring_repr rb' (drop (S (length q) - Z.to_nat (buffer_size rb)) (q ++ [ch]))
    /\ buffer_size rb' = buffer_size rb.
Proof using Hr.
  intros Hch. pose proof (rr_len _ _ Hr) as Hq. pose proof (rr_size _ _ Hr) as [Hs _].
  pose proof (write_index_range rb q Hr) as Hwr. pose proof (status_full_repr rb q Hr) as Hfull.
  pose proof (store_one rb q Hr ch) as Hst. cbv zeta in Hst.
  unfold rt_ringbuffer_putchar_force. rewrite (buf_write_one rb q Hr). cbn [mbind outcome_bind].
  set (st := {rb with buffer_ptr ::= _}) in *.
  change (write_index st) with (write_index rb). change (buffer_size st) with (buffer_size rb).
  destruct (decide (Z.of_nat (length q) = buffer_size rb)) as [Hd|Hd].
  - rewrite (proj2 Hfull Hd).
    assert (Hb : bytes_ok [ch]) by (by apply bytes_one).
    pose proof (forced_repr rb q Hr [ch] Hb ltac:(cbn; lia) ltac:(cbn; lia)) as HR.
    pose proof (forced_eq rb q Hr [ch] ltac:(cbn; lia) ltac:(cbn; lia)) as HE.
    exists (forced rb q [ch]). split; [|split; [|by rewrite HE]].
    + rewrite HE, Hst. cbn [length]. change (Z.of_nat 1) with 1.
      assert (Hri : read_index rb = write_index rb).
      { rewrite (rr_write _ _ Hr), Hd. pose proof (rr_read _ _ Hr). unfold adv. case Z.ltb_spec; lia. }
      rewrite Hri. destruct (Z.eqb_spec (write_index rb) (buffer_size rb - 1)) as [E|E].
      * rewrite (proj2 (Z.leb_le (buffer_size rb) _)) by lia.
        change (write_index {st with write_mirror ::= flip; write_index := 0}) with 0.
        rewrite (proj2 (Z.leb_le 0 _)) by lia. done.
      * rewrite (proj2 (Z.leb_gt (buffer_size rb) _)) by lia. done.
    + replace (S (length q) - Z.to_nat (buffer_size rb))%nat with (length q + length [ch] - Z.to_nat (buffer_size rb))%nat
        by (cbn [length]; lia). rewrite drop_app_le by (cbn [length]; lia). exact HR.
  - exists (rb_stored rb [ch]). split; [|split; [|done]].
    + assert (rt_ringbuffer_status rb <> RT_RINGBUFFER_FULL) as Hnf by (intros F; by apply Hd, Hfull).
      rewrite Hst. destruct (write_index rb =? buffer_size rb - 1), (rt_ringbuffer_status rb); done.
    + replace (S (length q) - Z.to_nat (buffer_size rb))%nat with 0%nat by lia.
      apply (rb_stored_repr rb q Hr); [by apply bytes_one|cbn [length]; lia].
Qed.

Lemma consumed_one :
  rb_consumed rb 1 = if read_index rb =? buffer_size rb - 1 then {rb with read_mirror ::= flip; read_index := 0}
                     else {rb with read_index ::= (fun r => wrap 31 (r + 1))}.
Proof using Hr.
  destruct Hr as [[Hs Hp] [Hri Hm] _ _ _ _]. clear Hr. unfold rb_consumed. destruct rb as [b ps rm ri wm wi n].
  cbn [buffer_ptr pool_size read_mirror read_index write_mirror write_index buffer_size] in *. unfold adv.
  destruct (Z.eqb_spec ri (n - 1)) as [->|].
  - rewrite (proj2 (Z.ltb_ge (n - 1 + 1) n)) by lia. by replace (n - 1 + 1 - n) with 0 by lia.
  - rewrite (proj2 (Z.ltb_lt (ri + 1) n)) by lia.
    change (Build_rt_ringbuffer b ps rm (ri + 1) wm wi n = Build_rt_ringbuffer b ps rm (wrap 31 (ri + 1)) wm wi n).
    by rewrite wrap_small by (unfold in_u; lia).
Qed.

(** The cell at the read index is the oldest byte. *)
Lemma read_head : q <> [] -> head q = Some (ha_get (buffer_ptr rb) (read_index rb)).
Proof using Hr.
  intros Hq. destruct q as [|x q'] eqn:E; [done|]. pose proof (rr_cells _ _ Hr) as Hc. pose proof (rr_read _ _ Hr) as [Hri _].
  assert (cells (buffer_size rb) (buffer_ptr rb) (read_index rb) (length (x :: q')) !! 0%nat
          = Some (ha_get (buffer_ptr rb) (read_index rb))) as Hl.
  { rewrite lookup_cells by (cbn; lia). do 2 f_equal. unfold adv. case Z.ltb_spec; lia. }
  rewrite <- Hc in Hl. exact Hl.
Qed.

Lemma getchar_spec :
  exists rb', rt_ringbuffer_getchar rb = Ok (head q, rb') /\ ring_repr rb' (tail q) /\ buffer_size rb' = buffer_size rb.
Proof using Hr.
  unfold rt_ringbuffer_getchar. rewrite (data_len_repr rb q Hr).
  destruct (decide (q = [])) as [->|Hq]; [by exists rb|].
  assert (0 < length q)%nat as Hl by (destruct q; [done|cbn; lia]).
  rewrite (proj2 (Z.eqb_neq _ 0)) by lia. pose proof (rr_read _ _ Hr) as [Hri _]. pose proof (rr_size _ _ Hr) as [Hs Hp].
  unfold buf_read. rewrite (proj2 (Z.leb_le 0 (read_index rb))), (proj2 (Z.leb_le 0 1)), (proj2 (Z.leb_le _ (pool_size rb))) by lia.
  cbn [andb mbind outcome_bind]. exists (rb_consumed rb 1). rewrite consumed_one, read_head by done.
  split; [by destruct (read_index rb =? buffer_size rb - 1)|].
  rewrite <- consumed_one. split; [|done]. pose proof (rb_consumed_repr rb q Hr 1 ltac:(lia)) as H.
  by destruct q.
Qed.

(** [peek] hands out the run of readable bytes up to the end of the array. *)
Lemma peek_spec :
  exists p n rb', rt_ringbuffer_peek rb = (p, n, rb') /\ 0 <= n <= Z.of_nat (length q)
    /\ (n = 0 <-> q = []) /\ ring_repr rb' (drop (Z.to_nat n) q)
    /\ (forall a, p = Some a -> ha_get_n (buffer_ptr rb) a (Z.to_nat n) = take (Z.to_nat n) q)
    /\ (p = None <-> q = []) /\ buffer_size rb' = buffer_size rb.
Proof using Hr.
  unfold rt_ringbuffer_peek. rewrite (data_len_repr rb q Hr).
  destruct (decide (q = [])) as [E0|Hq].
  { rewrite E0. exists None, 0, rb. split; [done|]. split; [cbn; lia|]. split; [done|]. split; [by rewrite <- E0|done]. }
  assert (0 < length q)%nat as Hl by (destruct q; [done|cbn; lia]).
  rewrite (proj2 (Z.eqb_neq _ 0)) by lia. pose proof (rr_read _ _ Hr) as [Hri _]. pose proof (rr_size _ _ Hr) as [Hs Hp].
  rewrite (wrap_small 64) by (unfold in_u; lia).
  assert (forall n, 0 < n -> n <= Z.of_nat (length q) -> n <= buffer_size rb - read_index rb ->
    0 <= n <= Z.of_nat (length q) /\ (n = 0 <-> q = []) /\ ring_repr (rb_consumed rb n) (drop (Z.to_nat n) q)
    /\ (forall a, Some (read_index rb) = Some a -> ha_get_n (buffer_ptr rb) a (Z.to_nat n) = take (Z.to_nat n) q)
    /\ (Some (read_index rb) = None <-> q = []) /\ buffer_size (rb_consumed rb n) = buffer_size rb) as H.
  { intros n H0 H1 H2. split; [lia|]. split; [split; [lia|done]|]. split; [apply (rb_consumed_repr rb q Hr); lia|].
    split; [|split; [split; done|done]]. intros a [= <-]. pose proof (rr_cells _ _ Hr) as Hc. rewrite Hc at 1.
    rewrite take_cells, cells_get_n by lia. done. }
  destruct (Z.ltb_spec (Z.of_nat (length q)) (buffer_size rb - read_index rb)) as [Hlt|Hge].
  - exists (Some (read_index rb)), (Z.of_nat (length q)), (rb_consumed rb (Z.of_nat (length q))).
    split; [|apply H; lia]. f_equal. unfold rb_consumed, adv. rewrite (proj2 (Z.ltb_lt _ _)) by lia.
    destruct rb as [b ps rm ri wm wi m]. cbn [buffer_ptr read_index buffer_size pool_size read_mirror write_mirror write_index] in *.
    change (Build_rt_ringbuffer b ps rm (wrap 31 (ri + Z.of_nat (length q))) wm wi m
            = Build_rt_ringbuffer b ps rm (ri + Z.of_nat (length q)) wm wi m).
    by rewrite wrap_small by (unfold in_u; lia).
  - exists (Some (read_index rb)), (buffer_size rb - read_index rb), (rb_consumed rb (buffer_size rb - read_index rb)).
    split; [|apply H; lia]. f_equal. unfold rb_consumed, adv. rewrite (proj2 (Z.ltb_ge _ _)) by lia.
    by replace (read_index rb + (buffer_size rb - read_index rb) - buffer_size rb) with 0 by lia.
Qed.
End Chars.

Lemma rt_ringbuffer_init_repr align pool pool_len size k :
  0 <= k <= 30 -> align = 2 ^ k -> align <= size < 2 ^ 31 -> size <= pool_len ->
  exists rb, rt_ringbuffer_init align pool pool_len size = Ok rb /\ ring_repr rb [] /\ buffer_size rb = size / align * align.
Proof.
  intros Hk -> Hs Hp. pose proof (pow2_pos k ltac:(lia)). unfold rt_ringbuffer_init. rewrite (proj2 (Z.ltb_lt 0 size)) by lia.
  assert (RT_ALIGN_DOWN size (2 ^ k) = size / 2 ^ k * 2 ^ k) as ->.
  { unfold RT_ALIGN_DOWN. replace (2 ^ k - 1) with (Z.ones k) by (rewrite Z.ones_equiv; lia).
    rewrite <- Z.shiftr_div_pow2, <- Z.shiftl_mul_pow2 by lia. apply Z.bits_inj'. intros i Hi.
    rewrite Z.land_spec, Z.lnot_spec, testbit_ones, testbit_shiftl by lia. destruct (Z.ltb_spec i k).
    - rewrite (Z.testbit_neg_r _ (i - k)) by lia. apply andb_false_r.
    - rewrite Z.shiftr_spec by lia. replace (i - k + k) with i by lia. apply andb_true_r. }
  pose proof (Z.mul_div_le size (2 ^ k) ltac:(lia)). assert (0 < size / 2 ^ k) by (apply Z.div_str_pos; lia).
  rewrite sext_small by (unfold in_s; lia || lia). eexists. split; [done|]. split; [|done].
  split; cbn [buffer_size pool_size read_index read_mirror write_index write_mirror length]; try lia; try done.
  all: unfold adv; cbn; by rewrite (proj2 (Z.ltb_lt 0 _)) by nia.
Qed.

Lemma rt_ringbuffer_reset_repr rb q : ring_repr rb q -> ring_repr (rt_ringbuffer_reset rb) [].
Proof.
  intros [[Hs Hp] _ _ _ _ _]. destruct rb as [b ps rm ri wm wi n].
  change (rt_ringbuffer_reset _) with (Build_rt_ringbuffer b ps 0 0 0 0 n).
  split; cbn [buffer_size pool_size read_index read_mirror write_index write_mirror length] in *; try lia; try done.
  all: unfold adv; by rewrite (proj2 (Z.ltb_lt (0 + Z.of_nat 0) n)) by lia.
Qed.

(** ** Sequences of operations against a bounded queue *)

Inductive rb_op :=
| OPut (l : list Z) | OPutForce (l : list Z) | OGet (n : Z) | OPutchar (ch : Z) | OPutcharForce (ch : Z)
| OGetchar | OReset | ODataLen | OSpaceLen.

Inductive rb_out := RSize (n : Z) | RBytes (l : list Z) | RByte (b : option Z) | RNone.

Definition rb_step (o : rb_op) (rb : rt_ringbuffer) : outcome (rb_out * rt_ringbuffer) :=
  match o with
  | OPut l => r ← rt_ringbuffer_put rb l; Ok (RSize r.1, r.2)
  | OPutForce l => r ← rt_ringbuffer_put_force rb l; Ok (RSize r.1, r.2)
  | OGet n => r ← rt_ringbuffer_get rb n; Ok (RBytes r.1, r.2)
  | OPutchar ch => r ← rt_ringbuffer_putchar rb ch; Ok (RSize r.1, r.2)
  | OPutcharForce ch => r ← rt_ringbuffer_putchar_force rb ch; Ok (RSize r.1, r.2)
  | OGetchar => r ← rt_ringbuffer_getchar rb; Ok (RByte r.1, r.2)
  | OReset => Ok (RNone, rt_ringbuffer_reset rb)
  | ODataLen => Ok (RSize (rt_ringbuffer_data_len rb), rb)
  | OSpaceLen => Ok (RSize (rt_ringbuffer_space_len rb), rb)
  end.

(** The queue keeps at most [cap] bytes: a plain store drops what does not fit, a
    forced one drops the oldest. *)
Definition q_step (cap : Z) (o : rb_op) (q : list Z) : rb_out * list Z :=
  let room := cap - Z.of_nat (length q) in
  match o with
  | OPut l => let n := Z.min (Z.of_nat (length l)) room in (RSize n, q ++ take (Z.to_nat n) l)%list
  | OPutForce l => (RSize (Z.min (Z.of_nat (length l)) cap), drop (length q + length l - Z.to_nat cap) (q ++ l)%list)
  | OGet n => (RBytes (take (Z.to_nat n) q), drop (Z.to_nat n) q)
  | OPutchar ch => if decide (room = 0) then (RSize 0, q) else (RSize 1, q ++ [ch])%list
  | OPutcharForce ch => (RSize 1, drop (length q + 1 - Z.to_nat cap) (q ++ [ch])%list)
  | OGetchar => (RByte (head q), tail q)
  | OReset => (RNone, [])
  | ODataLen => (RSize (Z.of_nat (length q)), q)
  | OSpaceLen => (RSize room, q)
  end.

Fixpoint rb_run (ops : list rb_op) (rb : rt_ringbuffer) : outcome (list rb_out * rt_ringbuffer) :=
  match ops with
  | [] => Ok ([], rb)
  | o :: ops' => r ← rb_step o rb; r' ← rb_run ops' r.2; Ok (r.1 :: r'.1, r'.2)
  end.
Fixpoint q_run (cap : Z) (ops : list rb_op) (q : list Z) : list rb_out * list Z :=
  match ops with
  | [] => ([], q)
  | o :: ops' => let r := q_step cap o q in let r' := q_run cap ops' r.2 in (r.1 :: r'.1, r'.2)
  end.

Definition op_ok (o : rb_op) : Prop :=
  match o with
  | OPut l | OPutForce l => bytes_ok l
  | OPutchar ch | OPutcharForce ch => in_u 8 ch
  | OGet n => 0 <= n
  | _ => True
  end.

Lemma rb_step_refines o rb q :
  ring_repr rb q -> op_ok o ->
  exists out rb', rb_step o rb = Ok (out, rb') /\ buffer_size rb' = buffer_size rb
    /\ out = (q_step (buffer_size rb) o q).1 /\ ring_repr rb' (q_step (buffer_size rb) o q).2.
Proof.
  intros Hr Ho. destruct o as [l|l|n|ch|ch| | | |]; cbn [rb_step q_step op_ok fst snd] in *.
  - destruct (put_spec rb q Hr l Ho) as (rb' & -> & HR & Hb). cbn [mbind outcome_bind fst snd]. by eexists _, rb'.
  - destruct (put_force_spec rb q Hr l Ho) as (rb' & -> & HR & Hb). cbn [mbind outcome_bind fst snd]. by eexists _, rb'.
  - rewrite (get_spec rb q Hr n Ho). cbn [mbind outcome_bind fst snd]. eexists _, _. split; [done|]. split; [done|]. split; [done|].
    destruct (Z.leb_spec n (Z.of_nat (length q))).
    + rewrite Z.min_l by done. apply rb_consumed_repr; [done|lia].
    + rewrite Z.min_r, (drop_ge q (Z.to_nat n)) by lia.
      pose proof (rb_consumed_repr rb q Hr (Z.of_nat (length q)) ltac:(lia)) as H'. rewrite drop_ge in H' by lia. done.
  - destruct (putchar_spec rb q Hr ch Ho) as (rb' & -> & HR & Hb). cbn [mbind outcome_bind fst snd].
    eexists _, rb'. split; [done|]. split; [done|].
    destruct (decide (Z.of_nat (length q) = buffer_size rb)), (decide (buffer_size rb - Z.of_nat (length q) = 0)); try lia;
      cbn [fst snd]; split; try done. by rewrite app_nil_r in HR.
  - destruct (putchar_force_spec rb q Hr ch Ho) as (rb' & -> & HR & Hb). cbn [mbind outcome_bind fst snd].
    eexists _, rb'. split; [done|]. split; [done|]. split; [done|]. by rewrite Nat.add_1_r.
  - destruct (getchar_spec rb q Hr) as (rb' & -> & HR & Hb). cbn [mbind outcome_bind fst snd]. by eexists _, rb'.
  - eexists _, _. split; [done|]. split; [by destruct rb|]. split; [done|]. by eapply rt_ringbuffer_reset_repr.
  - rewrite (data_len_repr rb q Hr). by eexists _, rb.
  - rewrite (space_len_repr rb q Hr). by eexists _, rb.
Qed.

Lemma rb_run_refines ops rb q :
  ring_repr rb q -> Forall op_ok ops ->
  exists outs rb', rb_run ops rb = Ok (outs, rb') /\ outs = (q_run (buffer_size rb) ops q).1
    /\ ring_repr rb' (q_run (buffer_size rb) ops q).2.
Proof.
  revert rb q; induction ops as [|o ops IH]; intros rb q Hr Ho; [by eexists _, _|].
  apply Forall_cons in Ho as [Ho Hops]. cbn [rb_run q_run fst snd].
  destruct (rb_step_refines o rb q Hr Ho) as (out & rb1 & -> & Hb & -> & Hr1). cbn [mbind outcome_bind fst snd].
  destruct (IH rb1 _ Hr1 Hops) as (outs & rb2 & -> & -> & Hr2). cbn [mbind outcome_bind fst snd].
  rewrite Hb in *. by eexists _, rb2.
Qed.
