(* ===== verification/RtList.v ===== *)
(** * RT-Thread: the intrusive lists of include/rtservice.h

    A list node is a name (a head or a member of some object) and the store maps it to
    its [next] and [prev].  Every node of a closed list is the source of one link and
    the target of one, so a set of lists is described by its links ([edges]), and each
    operation replaces two links by two others. *)
From S2P Require Import Prelude Outcome.
#[local] Open Scope string_scope.
#[local] Open Scope list_scope.
#[local] Open Scope Z_scope.

Section RtList.
Context {node : Type} `{Countable node}.
Abbreviation store := (gmap node (node * node)).
Abbreviation Mn := (ST store).

(** ** The code *)

Definition ld_next (p : node) : Mn node := fun s =>
  match s !! p with Some (n, _) => Ok (n, s) | None => Undef "read of a list node that does not exist" end.
Definition ld_prev (p : node) : Mn node := fun s =>
  match s !! p with Some (_, q) => Ok (q, s) | None => Undef "read of a list node that does not exist" end.
Definition st_next (p v : node) : Mn unit := fun s =>
  match s !! p with Some (_, q) => Ok (tt, <[p := (v, q)]> s) | None => Undef "write to a list node that does not exist" end.
Definition st_prev (p v : node) : Mn unit := fun s =>
  match s !! p with Some (n, _) => Ok (tt, <[p := (n, v)]> s) | None => Undef "write to a list node that does not exist" end.

Definition rt_list_init (l : node) : Mn unit := modify (fun s => <[l := (l, l)]> s).

Definition rt_list_insert_after (l n : node) : Mn unit :=
  ln ← ld_next l;
  st_prev ln n ;;
  ln ← ld_next l;
  st_next n ln ;;
  st_next l n ;;
  st_prev n l.

Definition rt_list_insert_before (l n : node) : Mn unit :=
  lp ← ld_prev l;
  st_next lp n ;;
  lp ← ld_prev l;
  st_prev n lp ;;
  st_prev l n ;;
  st_next n l.

Definition rt_list_remove (n : node) : Mn unit :=
  nn ← ld_next n;
  np ← ld_prev n;
  st_prev nn np ;;
  np ← ld_prev n;
  nn ← ld_next n;
  st_next np nn ;;
  st_prev n n ;;
  st_next n n.

Definition rt_list_isempty (l : node) : Mn bool :=
  ln ← ld_next l; mret (bool_decide (ln = l)).

Fixpoint list_len_loop (fuel : nat) (l p : node) (len : Z) : Mn Z :=
  match fuel with
  | O => undef "fuel"
  | S fuel' =>
      pn ← ld_next p;
      if bool_decide (pn = l) then mret len else list_len_loop fuel' l pn (u32 (len + 1))
  end.
Definition rt_list_len (l : node) : Mn Z :=
  s ← get; list_len_loop (S (base.size s)) l l 0.

(** ** Links *)

Definition nx (s : store) (p : node) : option node := fst <$> s !! p.
Definition pv (s : store) (p : node) : option node := snd <$> s !! p.
Definition linked (s : store) (E : list (node * node)) : Prop :=
  Forall (fun e => nx s e.1 = Some e.2 /\ pv s e.2 = Some e.1) E.

#[export] Instance linked_perm s : Proper ((≡ₚ) ==> iff) (linked s).
Proof. unfold linked. intros E E' HE. by rewrite HE. Qed.

Lemma linked_cons s e E : linked s (e :: E) <-> (nx s e.1 = Some e.2 /\ pv s e.2 = Some e.1) /\ linked s E.
Proof. unfold linked. by rewrite Forall_cons. Qed.

Lemma linked_cons_2 s e f E :
  linked s (e :: f :: E) <-> (nx s e.1 = Some e.2 /\ pv s e.2 = Some e.1) /\ (nx s f.1 = Some f.2 /\ pv s f.2 = Some f.1) /\ linked s E.
Proof. by rewrite !linked_cons. Qed.

Lemma nx_some s p v : nx s p = Some v <-> exists q, s !! p = Some (v, q).
Proof. unfold nx. destruct (s !! p) as [[a b]|]; cbn; split; [intros [= ->]; eauto|intros [q [= -> ->]]; done|done|intros [q ?]; done]. Qed.
Lemma pv_some s p v : pv s p = Some v <-> exists q, s !! p = Some (q, v).
Proof. unfold pv. destruct (s !! p) as [[a b]|]; cbn; split; [intros [= ->]; eauto|intros [q [= -> ->]]; done|done|intros [q ?]; done]. Qed.

Lemma ld_next_run s p v : nx s p = Some v -> ld_next p s = Ok (v, s).
Proof. intros [q E]%nx_some. unfold ld_next. by rewrite E. Qed.
Lemma ld_prev_run s p v : pv s p = Some v -> ld_prev p s = Ok (v, s).
Proof. intros [q E]%pv_some. unfold ld_prev. by rewrite E. Qed.

(** A write to one of the two fields of a node. *)
Lemma st_next_run s p v x :
  nx s p = Some x -> exists s', st_next p v s = Ok (tt, s') /\
    (forall q, nx s' q = if decide (q = p) then Some v else nx s q) /\ (forall q, pv s' q = pv s q).
Proof.
  intros [y E]%nx_some. unfold st_next. rewrite E. eexists. split; [done|]. unfold nx, pv.
  split; intros q; destruct (decide (q = p)) as [->|]; rewrite ?lookup_insert_eq, ?lookup_insert_ne, ?E by done; done.
Qed.
Lemma st_prev_run s p v x :
  nx s p = Some x -> exists s', st_prev p v s = Ok (tt, s') /\
    (forall q, pv s' q = if decide (q = p) then Some v else pv s q) /\ (forall q, nx s' q = nx s q).
Proof.
  intros [y E]%nx_some. unfold st_prev. rewrite E. eexists. split; [done|]. unfold nx, pv.
  split; intros q; destruct (decide (q = p)) as [->|]; rewrite ?lookup_insert_eq, ?lookup_insert_ne, ?E by done; done.
Qed.

Lemma nx_pv s p v : pv s p = Some v -> exists x, nx s p = Some x.
Proof. intros [q E]%pv_some. exists q. apply nx_some. eauto. Qed.
Lemma pv_nx s p v : nx s p = Some v -> exists x, pv s p = Some x.
Proof. intros [q E]%nx_some. exists q. apply pv_some. eauto. Qed.

(** Links between other nodes are kept. *)
Lemma linked_frame s s' E :
  (forall a b, (a, b) ∈ E -> nx s' a = nx s a /\ pv s' b = pv s b) -> linked s E -> linked s' E.
Proof.
  unfold linked. rewrite !Forall_forall. intros Hf Hl [a b] Hin. cbn. destruct (Hf a b Hin) as [-> ->]. exact (Hl _ Hin).
Qed.

(** Sources and targets are distinct. *)
Definition proper_links (E : list (node * node)) : Prop := NoDup E.*1 /\ NoDup E.*2.

Lemma proper_fresh a b E : proper_links ((a, b) :: E) -> forall c d, (c, d) ∈ E -> c <> a /\ d <> b.
Proof.
  intros [[H1 _]%NoDup_cons [H2 _]%NoDup_cons] c d Hin. split; intros ->.
  - apply H1, list_elem_of_fmap. by exists (a, d).
  - apply H2, list_elem_of_fmap. by exists (c, b).
Qed.

Lemma proper_tail e E : proper_links (e :: E) -> proper_links E.
Proof. intros [[_ H1]%NoDup_cons [_ H2]%NoDup_cons]. by split. Qed.

Ltac list_step :=
  match goal with
  | |- context [(ld_next ?p ≫= _) ?s] => erewrite (bind_run (ld_next p)); [|apply ld_next_run]
  | |- context [(ld_prev ?p ≫= _) ?s] => erewrite (bind_run (ld_prev p)); [|apply ld_prev_run]
  end.

(** [n] may hold anything before: only that it is no end of a link matters. *)
Lemma insert_after_fresh s l r n x E :
  linked s ((l, r) :: E) -> proper_links ((l, r) :: E) -> nx s n = Some x -> n <> l -> n <> r ->
  (forall a b, (a, b) ∈ E -> a <> n /\ b <> n) ->
  exists s', rt_list_insert_after l n s = Ok (tt, s') /\ linked s' ((l, n) :: (n, r) :: E).
Proof.
  intros ([N1 P1] & Hl)%linked_cons Hp N2 Hnl Hnr F2. cbn [fst snd] in *. pose proof (proper_fresh _ _ _ Hp) as F1.
  unfold rt_list_insert_after. list_step; [|exact N1]. destruct (nx_pv _ _ _ P1) as [y X1].
  destruct (st_prev_run s r n y X1) as (s1 & E1 & V1 & W1). erewrite bind_run; [|exact E1].
  list_step; [|by rewrite W1; exact N1]. destruct (st_next_run s1 n r x) as (s2 & E2 & V2 & W2); [by rewrite W1|].
  erewrite bind_run; [|exact E2]. destruct (st_next_run s2 l n r) as (s3 & E3 & V3 & W3).
  { rewrite V2, decide_False by done. by rewrite W1. }
  erewrite bind_run; [|exact E3]. destruct (st_prev_run s3 n l r) as (s4 & E4 & V4 & W4).
  { rewrite V3, decide_False by done. rewrite V2, decide_True by done. done. }
  exists s4. split; [exact E4|].
  assert (forall q, nx s4 q = if decide (q = l) then Some n else if decide (q = n) then Some r else nx s q) as Hn.
  { intros q. by rewrite W4, V3, V2, W1. }
  assert (forall q, pv s4 q = if decide (q = n) then Some l else if decide (q = r) then Some n else pv s q) as Hv.
  { intros q. by rewrite V4, W3, W2, V1. }
  apply linked_cons_2. cbn [fst snd]. rewrite !Hn, !Hv.
  split; [split; repeat case_decide; congruence|]. split; [split; repeat case_decide; congruence|].
  eapply linked_frame; [|exact Hl]. intros a b Hin.
  destruct (F1 a b Hin) as [? ?]. destruct (F2 a b Hin) as [? ?]. by rewrite Hn, Hv, !decide_False by done.
Qed.

Lemma insert_after_links s l r n E :
  linked s ((l, r) :: (n, n) :: E) -> proper_links ((l, r) :: (n, n) :: E) ->
  exists s', rt_list_insert_after l n s = Ok (tt, s') /\ linked s' ((l, n) :: (n, r) :: E).
Proof.
  intros ([N1 P1] & [N2 P2] & Hl)%linked_cons_2 Hp. cbn [fst snd] in *.
  pose proof (proper_fresh _ _ _ Hp) as F1. pose proof (proper_fresh _ _ _ (proper_tail _ _ Hp)) as F2.
  destruct (F1 n n) as [Hnl Hnr]; [by apply elem_of_cons; left|].
  eapply insert_after_fresh; [by apply linked_cons| |exact N2|done|done|exact F2].
  destruct Hp as [Hp1 Hp2]. cbn in *. apply NoDup_cons in Hp1 as [A1 [_ A2]%NoDup_cons], Hp2 as [B1 [_ B2]%NoDup_cons].
  split; cbn; apply NoDup_cons; (split; [|done]); [intros Hin; apply A1|intros Hin; apply B1]; by right.
Qed.

Lemma insert_before_links s p l n E :
  linked s ((p, l) :: (n, n) :: E) -> proper_links ((p, l) :: (n, n) :: E) ->
  exists s', rt_list_insert_before l n s = Ok (tt, s') /\ linked s' ((p, n) :: (n, l) :: E).
Proof.
  intros ([N1 P1] & [N2 P2] & Hl)%linked_cons_2 Hp. cbn [fst snd] in *.
  pose proof (proper_fresh _ _ _ Hp) as F1. pose proof (proper_fresh _ _ _ (proper_tail _ _ Hp)) as F2.
  destruct (F1 n n) as [Hnp Hnl]; [by apply elem_of_cons; left|].
  unfold rt_list_insert_before. list_step; [|exact P1].
  destruct (st_next_run s p n l N1) as (s1 & E1 & V1 & W1). erewrite bind_run; [|exact E1].
  list_step; [|by rewrite W1; exact P1]. destruct (st_prev_run s1 n p n) as (s2 & E2 & V2 & W2).
  { by rewrite V1, decide_False by done. }
  erewrite bind_run; [|exact E2]. destruct (nx_pv _ _ _ P1) as [x X1].
  assert (exists y, nx s2 l = Some y) as [y Y]. { rewrite W2, V1. case_decide; eauto. }
  destruct (st_prev_run s2 l n y Y) as (s3 & E3 & V3 & W3). erewrite bind_run; [|exact E3].
  destruct (st_next_run s3 n l n) as (s4 & E4 & V4 & W4). { by rewrite W3, W2, V1, decide_False by done. }
  exists s4. split; [exact E4|].
  assert (forall q, nx s4 q = if decide (q = n) then Some l else if decide (q = p) then Some n else nx s q) as Hn.
  { intros q. by rewrite V4, W3, W2, V1. }
  assert (forall q, pv s4 q = if decide (q = l) then Some n else if decide (q = n) then Some p else pv s q) as Hv.
  { intros q. by rewrite W4, V3, V2, W1. }
  apply linked_cons_2. cbn [fst snd]. rewrite !Hn, !Hv.
  split; [split; repeat case_decide; congruence|]. split; [split; repeat case_decide; congruence|].
  eapply linked_frame; [|exact Hl]. intros a b Hin.
  destruct (F1 a b) as [? ?]; [by apply elem_of_cons; right|]. destruct (F2 a b Hin) as [? ?].
  by rewrite Hn, Hv, !decide_False by done.
Qed.

Lemma remove_links s l n r E :
  linked s ((l, n) :: (n, r) :: E) -> proper_links ((l, n) :: (n, r) :: E) ->
  exists s', rt_list_remove n s = Ok (tt, s') /\ linked s' ((l, r) :: (n, n) :: E).
Proof.
  intros ([N1 P1] & [N2 P2] & Hl)%linked_cons_2 Hp. cbn [fst snd] in *.
  pose proof (proper_fresh _ _ _ Hp) as F1. pose proof (proper_fresh _ _ _ (proper_tail _ _ Hp)) as F2.
  destruct (F1 n r) as [Hnl Hrn]; [by apply elem_of_cons; left|].
  unfold rt_list_remove. list_step; [|exact N2]. list_step; [|exact P1]. destruct (nx_pv _ _ _ P2) as [x X].
  destruct (st_prev_run s r l x X) as (s1 & E1 & V1 & W1). erewrite bind_run; [|exact E1].
  list_step; [|by rewrite V1, decide_False by done; exact P1]. list_step; [|by rewrite W1; exact N2].
  destruct (st_next_run s1 l r n) as (s2 & E2 & V2 & W2); [by rewrite W1|]. erewrite bind_run; [|exact E2].
  destruct (st_prev_run s2 n n r) as (s3 & E3 & V3 & W3). { by rewrite V2, decide_False, W1 by done. }
  erewrite bind_run; [|exact E3]. destruct (st_next_run s3 n n r) as (s4 & E4 & V4 & W4).
  { by rewrite W3, V2, decide_False, W1 by done. }
  exists s4. split; [exact E4|].
  assert (forall q, nx s4 q = if decide (q = n) then Some n else if decide (q = l) then Some r else nx s q) as Hn.
  { intros q. by rewrite V4, W3, V2, W1. }
  assert (forall q, pv s4 q = if decide (q = n) then Some n else if decide (q = r) then Some l else pv s q) as Hv.
  { intros q. by rewrite W4, V3, W2, V1. }
  apply linked_cons_2. cbn [fst snd]. rewrite !Hn, !Hv.
  split; [split; repeat case_decide; congruence|]. split; [split; repeat case_decide; congruence|].
  eapply linked_frame; [|exact Hl]. intros a b Hin.
  destruct (F1 a b) as [? ?]; [by apply elem_of_cons; right|]. destruct (F2 a b Hin) as [? ?].
  by rewrite Hn, Hv, !decide_False by done.
Qed.

(** Removing a node that is in no list changes nothing. *)
Lemma remove_single s n E : linked s ((n, n) :: E) -> rt_list_remove n s = Ok (tt, s).
Proof.
  intros [[[q Hn]%nx_some [q' Hv]%pv_some] _]%linked_cons. cbn [fst snd] in *. assert (s !! n = Some (n, n)) as E0 by congruence.
  assert (<[n := (n, n)]> s = s) as Hid by (by apply insert_id).
  unfold rt_list_remove, ld_next, ld_prev, st_next, st_prev. run_simpl. repeat (rewrite ?E0, ?Hid; cbn beta iota). done.
Qed.

(** ** Lists *)

(** A closed list: its head and the members in order. *)
Abbreviation ring := (node * list node)%type.

Definition edges (r : ring) : list (node * node) := zip (r.1 :: r.2) (r.2 ++ [r.1]).
#[local] Arguments edges : simpl never.
Definition nodes (R : list ring) : list node := R ≫= (fun r => r.1 :: r.2).
(** The store holds the closed lists [R], all of them apart. *)
Definition rings (s : store) (R : list ring) : Prop := linked s (R ≫= edges) /\ NoDup (nodes R).

Lemma edges_sources r : (edges r).*1 = r.1 :: r.2.
Proof. unfold edges. rewrite fst_zip; [done|]. rewrite length_app. cbn. lia. Qed.
Lemma edges_targets r : (edges r).*2 = r.2 ++ [r.1].
Proof. unfold edges. rewrite snd_zip; [done|]. rewrite length_app. cbn. lia. Qed.

Lemma rings_proper_links s R : rings s R -> proper_links (R ≫= edges).
Proof.
  intros [_ Hnd]. unfold proper_links, nodes in *.
  assert ((R ≫= edges).*1 = R ≫= (fun r => r.1 :: r.2)) as ->.
  { clear Hnd. induction R as [|r R IH]; [done|].
    change ((edges r ++ (R ≫= edges)).*1 = (r.1 :: r.2) ++ (R ≫= (fun r => r.1 :: r.2))). by rewrite fmap_app, IH, edges_sources. }
  split; [done|]. assert ((R ≫= edges).*2 ≡ₚ R ≫= (fun r => r.1 :: r.2)) as ->; [|done].
  clear Hnd. induction R as [|r R IH]; [done|].
  change ((edges r ++ (R ≫= edges)).*2 ≡ₚ (r.1 :: r.2) ++ (R ≫= (fun r => r.1 :: r.2))). rewrite fmap_app, IH, edges_targets.
  by rewrite (Permutation_app_comm r.2).
Qed.

#[export] Instance proper_links_perm : Proper ((≡ₚ) ==> iff) proper_links.
Proof. intros E E' HE. unfold proper_links. by rewrite HE. Qed.

#[export] Instance nodes_perm : Proper ((≡ₚ) ==> (≡ₚ)) nodes.
Proof. intros R R' HR. unfold nodes. by rewrite HR. Qed.

#[export] Instance rings_perm s : Proper ((≡ₚ) ==> iff) (rings s).
Proof. intros R R' HR. unfold rings. by rewrite HR. Qed.

(** Where a link is cut when a member comes or goes. *)
Lemma edges_split h n xs ys :
  exists pre suf, let l := default h (last xs) in let r := default h (head ys) in
    edges (h, xs ++ ys) = pre ++ (l, r) :: suf /\ edges (h, xs ++ n :: ys) = pre ++ (l, n) :: (n, r) :: suf.
Proof.
  assert (exists init, h :: xs = init ++ [default h (last xs)] /\ length init = length xs) as (init & Hi & Hlen).
  { destruct xs as [|x xs _] using rev_ind; [by exists []|]. exists (h :: xs). rewrite last_snoc, length_app. cbn. split; [done|lia]. }
  assert (exists rest, ys ++ [h] = default h (head ys) :: rest) as (rest & Hr).
  { destruct ys as [|y ys]; [by exists []|by exists (ys ++ [h])]. }
  exists (zip init xs), (zip ys rest). cbv zeta. unfold edges. cbn [fst snd].
  set (l := default h (last xs)) in *. set (r := default h (head ys)) in *.
  assert (forall zs, h :: xs ++ zs = init ++ l :: zs) as Hs.
  { intros zs. rewrite app_comm_cons, Hi, <- app_assoc. done. }
  rewrite !Hs, <- !app_assoc. cbn [app]. rewrite Hr, !zip_with_app by done. done.
Qed.

Lemma rings_cons s r R : rings s (r :: R) -> linked s (edges r ++ R ≫= edges) /\ NoDup (r.1 :: r.2 ++ nodes R).
Proof. intros [H1 H2]. split; [exact H1|]. exact H2. Qed.

Section RingOps.
Variables (s : store) (h n : node) (xs ys : list node) (R : list ring).

Lemma ring_insert (op : Mn unit) :
  (forall E, linked s ((default h (last xs), default h (head ys)) :: (n, n) :: E) ->
    proper_links ((default h (last xs), default h (head ys)) :: (n, n) :: E) ->
    exists s', op s = Ok (tt, s') /\ linked s' ((default h (last xs), n) :: (n, default h (head ys)) :: E)) ->
  rings s ((h, xs ++ ys) :: (n, []) :: R) -> exists s', op s = Ok (tt, s') /\ rings s' ((h, xs ++ n :: ys) :: R).
Proof.
  intros Hop Hr. pose proof (rings_proper_links _ _ Hr) as Hp. destruct Hr as [Hl Hnd].
  destruct (edges_split h n xs ys) as (pre & suf & E1 & E2). cbn [mbind list_bind] in *.
  change (edges (n, [])) with [(n, n)] in *. rewrite E1 in *. set (l := default h (last xs)) in *. set (r := default h (head ys)) in *.
  assert ((pre ++ (l, r) :: suf) ++ [(n, n)] ++ (R ≫= edges) ≡ₚ (l, r) :: (n, n) :: pre ++ suf ++ (R ≫= edges)) as HP by solve_Permutation.
  change (mbind edges R) with (R ≫= edges) in *. rewrite HP in Hl. rewrite HP in Hp.
  destruct (Hop _ Hl Hp) as (s' & Eo & Hl'). exists s'. split; [exact Eo|]. split.
  - cbn. rewrite E2. change (mbind edges R) with (R ≫= edges).
    assert ((pre ++ (l, n) :: (n, r) :: suf) ++ (R ≫= edges) ≡ₚ (l, n) :: (n, r) :: pre ++ suf ++ (R ≫= edges)) as HP' by solve_Permutation.
    by rewrite HP'.
  - unfold nodes in *. cbn in *. assert (h :: (xs ++ n :: ys) ++ (R ≫= (fun r => r.1 :: r.2)) ≡ₚ h :: (xs ++ ys) ++ n :: (R ≫= (fun r => r.1 :: r.2))) as ->; [|done].
    solve_Permutation.
Qed.

Lemma ring_insert_after :
  rings s ((h, xs ++ ys) :: (n, []) :: R) ->
  exists s', rt_list_insert_after (default h (last xs)) n s = Ok (tt, s') /\ rings s' ((h, xs ++ n :: ys) :: R).
Proof. apply ring_insert. intros E. apply insert_after_links. Qed.

Lemma ring_insert_before :
  rings s ((h, xs ++ ys) :: (n, []) :: R) ->
  exists s', rt_list_insert_before (default h (head ys)) n s = Ok (tt, s') /\ rings s' ((h, xs ++ n :: ys) :: R).
Proof. apply ring_insert. intros E. apply insert_before_links. Qed.

Lemma ring_remove :
  rings s ((h, xs ++ n :: ys) :: R) ->
  exists s', rt_list_remove n s = Ok (tt, s') /\ rings s' ((h, xs ++ ys) :: (n, []) :: R).
Proof.
  intros Hr. pose proof (rings_proper_links _ _ Hr) as Hp. destruct Hr as [Hl Hnd].
  destruct (edges_split h n xs ys) as (pre & suf & E1 & E2). cbn [mbind list_bind] in *. change (mbind edges R) with (R ≫= edges) in *.
  rewrite E2 in *. set (l := default h (last xs)) in *. set (r := default h (head ys)) in *.
  assert ((pre ++ (l, n) :: (n, r) :: suf) ++ (R ≫= edges) ≡ₚ (l, n) :: (n, r) :: pre ++ suf ++ (R ≫= edges)) as HP by solve_Permutation.
  rewrite HP in Hl. rewrite HP in Hp. destruct (remove_links _ _ _ _ _ Hl Hp) as (s' & Eo & Hl').
  exists s'. split; [exact Eo|]. split.
  - cbn. change (edges (n, [])) with [(n, n)]. rewrite E1. change (mbind edges R) with (R ≫= edges).
    assert ((pre ++ (l, r) :: suf) ++ [(n, n)] ++ (R ≫= edges) ≡ₚ (l, r) :: (n, n) :: pre ++ suf ++ (R ≫= edges)) as -> by solve_Permutation.
    done.
  - unfold nodes in *. cbn in *. assert (h :: (xs ++ ys) ++ n :: (R ≫= (fun r => r.1 :: r.2)) ≡ₚ h :: (xs ++ n :: ys) ++ (R ≫= (fun r => r.1 :: r.2))) as ->; [|done].
    solve_Permutation.
Qed.

Lemma ring_remove_single : rings s ((n, []) :: R) -> rt_list_remove n s = Ok (tt, s).
Proof. intros [Hl _]. cbn in Hl. change (edges (n, [])) with [(n, n)] in Hl. by eapply remove_single. Qed.

Lemma ring_link : rings s ((h, xs ++ ys) :: R) -> nx s (default h (last xs)) = Some (default h (head ys)) /\
  pv s (default h (head ys)) = Some (default h (last xs)).
Proof.
  intros [Hl _]. destruct (edges_split h n xs ys) as (pre & suf & E1 & _). cbn in Hl. rewrite E1 in Hl. unfold linked in Hl.
  rewrite Forall_forall in Hl. apply (Hl (_, _)). apply elem_of_app. left. apply elem_of_app. right. apply elem_of_cons. by left.
Qed.
End RingOps.

Lemma ring_next s h ns R : rings s ((h, ns) :: R) -> ld_next h s = Ok (default h (head ns), s).
Proof. intros Hr. apply ld_next_run. exact (proj1 (ring_link s h h [] ns R Hr)). Qed.
Lemma ring_prev s h ns R : rings s ((h, ns) :: R) -> ld_prev h s = Ok (default h (last ns), s).
Proof. intros Hr. apply ld_prev_run. rewrite <- (app_nil_r ns) in Hr. exact (proj2 (ring_link s h h ns [] R Hr)). Qed.
(** The successor of a member, the head after the last. *)
Lemma ring_next_member s h xs n ys R : rings s ((h, xs ++ n :: ys) :: R) -> ld_next n s = Ok (default h (head ys), s).
Proof.
  intros Hr. apply ld_next_run. change (xs ++ n :: ys) with (xs ++ [n] ++ ys) in Hr. rewrite app_assoc in Hr.
  pose proof (proj1 (ring_link s h h _ ys R Hr)) as H1. by rewrite last_snoc in H1.
Qed.

(** The last member is none of those before it, nor the head. *)
Lemma last_apart (h n : node) xs ys : NoDup (h :: xs ++ n :: ys) -> default h (last xs) <> default h (last (xs ++ n :: ys)).
Proof.
  intros Hnd Heq. rewrite last_app_cons in Heq. destruct (last (n :: ys)) as [l|] eqn:El; [|by apply last_None in El].
  apply last_Some in El as [init El]. cbn in Heq. rewrite app_comm_cons in Hnd. apply NoDup_app in Hnd as (_ & Hd & _).
  apply (Hd l); [|rewrite El; apply elem_of_app; right; by left].
  destruct (last xs) as [x|] eqn:Ex; cbn in Heq; subst; [|by left]. right. apply last_Some in Ex as [init' ->]. apply elem_of_app. right. by left.
Qed.

Lemma rings_nodup s h ns R : rings s ((h, ns) :: R) -> NoDup (h :: ns).
Proof. intros [_ Hnd]. unfold nodes in Hnd. cbn in Hnd. rewrite app_comm_cons in Hnd. by apply NoDup_app in Hnd as [? _]. Qed.

Lemma ring_isempty s h ns R :
  rings s ((h, ns) :: R) -> rt_list_isempty h s = Ok (bool_decide (ns = []), s).
Proof.
  intros Hr. unfold rt_list_isempty. erewrite bind_run; [|by eapply ring_next]. unfold mret, st_ret. do 2 f_equal.
  apply bool_decide_ext. pose proof (rings_nodup _ _ _ _ Hr) as [Hh _]%NoDup_cons.
  destruct ns as [|n ns]; [done|]. cbn. split; [|done]. intros ->. destruct Hh. apply elem_of_cons. by left.
Qed.

Lemma nodes_in_store s R p : rings s R -> p ∈ nodes R -> p ∈ dom s.
Proof.
  intros Hr Hp. pose proof Hr as [Hl _]. unfold nodes in Hp. apply list_elem_of_bind in Hp as (r & Hp & HR).
  rewrite <- edges_sources in Hp. apply list_elem_of_fmap in Hp as ([a b] & -> & Hin).
  unfold linked in Hl. rewrite Forall_forall in Hl. destruct (Hl (a, b)) as [Hn _]; [apply list_elem_of_bind; eauto|].
  cbn in *. apply nx_some in Hn as [q Hn]. apply elem_of_dom. eauto.
Qed.

Lemma ring_size s h ns R : rings s ((h, ns) :: R) -> (length ns < base.size s)%nat.
Proof.
  intros Hr. pose proof (rings_nodup _ _ _ _ Hr) as Hnd. rewrite <- size_dom.
  assert (list_to_set (h :: ns) ⊆ dom s) as Hs.
  { intros p Hp%elem_of_list_to_set. eapply nodes_in_store; [exact Hr|]. unfold nodes. cbn.
    apply elem_of_cons in Hp as [->|Hp]; apply elem_of_cons; [by left|right]. apply elem_of_app. by left. }
  apply subseteq_size in Hs. rewrite size_list_to_set in Hs by done. cbn in Hs. lia.
Qed.

Lemma len_loop_run fuel s h xs p ys R len :
  rings s ((h, xs ++ ys) :: R) -> p = default h (last xs) -> (length ys < fuel)%nat -> 0 <= len -> len + Z.of_nat (length ys) < 2 ^ 32 ->
  list_len_loop fuel h p len s = Ok (len + Z.of_nat (length ys), s).
Proof.
  revert xs p ys len. induction fuel as [|fuel IH]; intros xs p ys len Hr -> Hf H0 Hb; [lia|]. cbn [list_len_loop].
  erewrite bind_run; [|apply ld_next_run; exact (proj1 (ring_link s h h xs ys R Hr))].
  pose proof (rings_nodup _ _ _ _ Hr) as [Hh _]%NoDup_cons. destruct ys as [|y ys]; cbn [head length] in *; [change (default h None) with h|change (default h (Some y)) with y].
  - rewrite bool_decide_eq_true_2 by done. by rewrite Z.add_0_r.
  - rewrite bool_decide_eq_false_2.
    2:{ intros ->. apply Hh, elem_of_app. right. apply elem_of_cons. by left. }
    rewrite (wrap_small 32) by (unfold in_u; lia).
    rewrite (IH (xs ++ [y]) y ys); [do 2 f_equal; lia|by rewrite <- app_assoc|by rewrite last_snoc|lia|lia|lia].
Qed.

Lemma ring_len s h ns R :
  rings s ((h, ns) :: R) -> Z.of_nat (length ns) < 2 ^ 32 -> rt_list_len h s = Ok (Z.of_nat (length ns), s).
Proof.
  intros Hr Hb. unfold rt_list_len. erewrite bind_run; [|reflexivity].
  rewrite (len_loop_run _ s h [] h ns R 0); [done|done|done|pose proof (ring_size _ _ _ _ Hr); lia|lia|lia].
Qed.

(** The ends of links are nodes. *)
Lemma edge_nodes R a b : (a, b) ∈ R ≫= edges -> a ∈ nodes R /\ b ∈ nodes R.
Proof.
  intros Hin. apply list_elem_of_bind in Hin as (r & Hin & HR). unfold nodes. split; apply list_elem_of_bind; exists r; (split; [|done]).
  - rewrite <- edges_sources. apply list_elem_of_fmap. by exists (a, b).
  - assert (b ∈ (edges r).*2) as Hb by (apply list_elem_of_fmap; by exists (a, b)).
    rewrite edges_targets in Hb. by rewrite Permutation_app_comm in Hb.
Qed.

(** A node in no list, whatever it holds, is inserted as a member. *)
Lemma ring_insert_fresh s h n xs ys R x :
  rings s ((h, xs ++ ys) :: R) -> nx s n = Some x -> n ∉ nodes ((h, xs ++ ys) :: R) ->
  exists s', rt_list_insert_after (default h (last xs)) n s = Ok (tt, s') /\ rings s' ((h, xs ++ n :: ys) :: R).
Proof.
  intros Hr Hx Hn. pose proof (rings_proper_links _ _ Hr) as Hp. pose proof (edge_nodes ((h, xs ++ ys) :: R)) as He. destruct Hr as [Hl Hnd].
  destruct (edges_split h n xs ys) as (pre & suf & E1 & E2). cbn [mbind list_bind] in *.
  rewrite E1 in *. set (l := default h (last xs)) in *. set (r := default h (head ys)) in *. change (mbind edges R) with (R ≫= edges) in *.
  assert ((pre ++ (l, r) :: suf) ++ (R ≫= edges) ≡ₚ (l, r) :: pre ++ suf ++ (R ≫= edges)) as HP by solve_Permutation.
  rewrite HP in Hl. rewrite HP in Hp. setoid_rewrite HP in He.
  assert (forall a b, (a, b) ∈ (l, r) :: pre ++ suf ++ (R ≫= edges) -> a <> n /\ b <> n) as Hout.
  { intros a b [Ha Hb]%He. split; intros ->; done. }
  destruct (Hout l r) as [? ?]; [by left|].
  destruct (insert_after_fresh s l r n x _ Hl Hp Hx) as (s' & Eo & Hl'); [done|done|intros a b Hin; apply Hout; by right|].
  exists s'. split; [exact Eo|]. split.
  - cbn. rewrite E2. change (mbind edges R) with (R ≫= edges).
    assert ((pre ++ (l, n) :: (n, r) :: suf) ++ (R ≫= edges) ≡ₚ (l, n) :: (n, r) :: pre ++ suf ++ (R ≫= edges)) as -> by solve_Permutation.
    done.
  - unfold nodes in *. cbn in *. assert (h :: (xs ++ n :: ys) ++ (R ≫= (fun r => r.1 :: r.2)) ≡ₚ n :: h :: (xs ++ ys) ++ (R ≫= (fun r => r.1 :: r.2))) as -> by solve_Permutation.
    by apply NoDup_cons.
Qed.

(** A node initialised for the first time joins as an empty list. *)
Lemma ring_init s n R : rings s R -> n ∉ nodes R -> exists s', rt_list_init n s = Ok (tt, s') /\ rings s' ((n, []) :: R).
Proof.
  intros [Hl Hnd] Hn. eexists. split; [reflexivity|]. split.
  - cbn. change (edges (n, [])) with [(n, n)]. cbn. apply linked_cons. cbn. unfold nx, pv. rewrite lookup_insert_eq. split; [done|].
    eapply linked_frame; [|exact Hl]. intros a b Hin.
    apply edge_nodes in Hin as [Ha Hb].
    unfold nx, pv. rewrite !lookup_insert_ne by (intros ->; done). done.
  - unfold nodes in *. cbn. by apply NoDup_cons.
Qed.
End RtList.
