(* ===== verification/RtKernel.v ===== *)
(** * RT-Thread: the state of the kernel, and __rt_ffs of src/kservice.c

    One record for the data that the objects, the scheduler, the timers, the threads and
    the IPC objects share: the store of list nodes, the object headers, the threads, the
    timers, the semaphores and so on, and the global variables of scheduler_up.c, clock.c
    and timer.c.  Kernel objects are named by
    numbers; the header (struct rt_object) that a thread or a timer starts with is kept in
    a map of its own, as object.c treats all kinds alike.  A context switch is recorded
    in [context_switches], not performed: the caller's code continues as it does when the
    thread is switched back to at once.  [timeouts] records the timers whose function was
    called. *)
From S2P Require Import Prelude Outcome RtList.
#[local] Open Scope string_scope.
#[local] Open Scope list_scope.
#[local] Open Scope Z_scope.

(** ** Objects *)

Inductive objid :=
| OThread (t : Z)
| OTimer (tm : Z)
| OOther (i : Z).

#[export] Instance objid_eq_dec : EqDecision objid.
Proof. solve_decision. Defined.

Definition objid_code (o : objid) : nat * Z :=
  match o with OThread t => (0%nat, t) | OTimer t => (1%nat, t) | OOther i => (2%nat, i) end.
Definition objid_decode (c : nat * Z) : objid :=
  match c with (0%nat, t) => OThread t | (1%nat, t) => OTimer t | (_, i) => OOther i end.
#[export] Instance objid_countable : Countable objid.
Proof. refine (inj_countable' objid_code objid_decode _). by intros []. Defined.

(** ** List nodes

    In order: rt_thread_priority_table[prio]; thread->tlist; _timer_list[row] or
    _soft_timer_list[row]; timer->row[row]; the local list of rt_timer_check or
    rt_soft_timer_check; _object_container[index].object_list; object->list;
    _rt_thread_defunct; ipc->suspend_thread; the suspend_sender_thread of a mailbox or a
    message queue; thread->taken_object_list; mutex->taken_list; the null pointer, which
    is no node of the store. *)

Inductive knode :=
| PrioHead (prio : Z)
| TList (t : Z)
| TimerHead (soft : bool) (row : nat)
| TimerRow (tm : Z) (row : nat)
| TmpHead (soft : bool)
| ObjHead (index : nat)
| ObjNode (o : objid)
| DefunctHead
| SuspendHead (i : Z)
| SenderHead (i : Z)
| TakenHead (t : Z)
| TakenNode (m : Z)
| NullNode.

#[export] Instance knode_eq_dec : EqDecision knode.
Proof. solve_decision. Defined.

Definition knode_code (n : knode) : Z * Z * nat :=
  match n with
  | PrioHead p => (0, p, 0%nat)
  | TList t => (1, t, 0%nat)
  | TimerHead s r => (2, b2z s, r)
  | TimerRow t r => (3, t, r)
  | TmpHead s => (4, b2z s, 0%nat)
  | ObjHead i => (5, 0, i)
  | ObjNode o => (6, (objid_code o).2, (objid_code o).1)
  | DefunctHead => (7, 0, 0%nat)
  | SuspendHead i => (8, i, 0%nat)
  | SenderHead i => (9, i, 0%nat)
  | TakenHead t => (10, t, 0%nat)
  | TakenNode m => (11, m, 0%nat)
  | NullNode => (12, 0, 0%nat)
  end.
Definition knode_decode (c : Z * Z * nat) : knode :=
  match c with
  | (0, p, _) => PrioHead p
  | (1, t, _) => TList t
  | (2, s, r) => TimerHead (s =? 1) r
  | (3, t, r) => TimerRow t r
  | (4, s, _) => TmpHead (s =? 1)
  | (5, _, i) => ObjHead i
  | (6, t, n) => ObjNode (objid_decode (n, t))
  | (7, _, _) => DefunctHead
  | (8, i, _) => SuspendHead i
  | (9, i, _) => SenderHead i
  | (10, t, _) => TakenHead t
  | (11, m, _) => TakenNode m
  | (_, _, _) => NullNode
  end.
#[export] Instance knode_countable : Countable knode.
Proof. refine (inj_countable' knode_code knode_decode _). by intros [| |[]| |[]| |[]| | | | | |]. Defined.

(** ** The state *)

Record rt_object := { ob_name : list Z; ob_type : Z; ob_flag : Z }.

Record rt_thread := {
  th_entry : Z; th_parameter : Z; stack_addr : Z; stack_size : Z;
  stat : Z; current_priority : Z; init_priority : Z;
  number : Z; number_mask : Z; high_mask : Z;
  th_init_tick : Z; remaining_tick : Z; th_error : Z; thread_timer : Z; cleanup : Z;
  pending_object : option objid; event_set : Z; event_info : Z;
}.

Record rt_timer := {
  timeout_func : Z; tm_parameter : Z; tm_init_tick : Z; timeout_tick : Z;
}.

(** Semaphores, mutexes, events and mailboxes without their headers.  [msg_pool] is the
    array a mailbox's messages are kept in. *)
Record rt_semaphore := { sem_value : Z }.
Record rt_mutex := {
  ceiling_priority : Z; mx_priority : Z; hold : Z; owner : option Z;
}.
Record rt_event := { ev_set : Z }.
Record rt_mailbox := {
  msg_pool : list Z; mb_size : Z; mb_entry : Z; in_offset : Z; out_offset : Z;
}.

(** A message of a message queue: the link and the bytes that follow it.  A pointer to a
    message is its number in the pool. *)
Record rt_mq_message := { msg_next : option Z; msg_data : list Z }.
Record rt_messagequeue := {
  mq_pool : list rt_mq_message; msg_size : Z; max_msgs : Z; mq_entry : Z;
  msg_queue_head : option Z; msg_queue_tail : option Z; msg_queue_free : option Z;
}.

(** A memory pool without its header, and the word in front of a block of a pool: a
    pointer to the next free block, or to the pool that the block in use belongs to. *)
Record rt_mempool := {
  mp_start_address : Z; mp_size : Z; mp_block_size : Z; mp_block_list : option Z; block_total_count : Z; block_free_count : Z;
}.
Inductive block_word :=
| NextBlock (p : option Z)
| PoolOf (mp : Z).

Record kernel := {
  links : gmap knode (knode * knode);
  objects : gmap objid rt_object;
  threads : gmap Z rt_thread;
  timers : gmap Z rt_timer;
  semaphores : gmap Z rt_semaphore;
  mutexes : gmap Z rt_mutex;
  events : gmap Z rt_event;
  mailboxes : gmap Z rt_mailbox;
  messagequeues : gmap Z rt_messagequeue;
  mempools : gmap Z rt_mempool;
  block_words : gmap Z block_word;
  rt_thread_ready_priority_group : Z;
  rt_thread_ready_table : list Z;
  rt_scheduler_lock_nest : Z;
  rt_current_thread : option Z;
  rt_current_priority : Z;
  context_switches : list (option Z * Z);
  timeouts : list Z;
  rt_tick : Z;
  random_nr : Z;
  soft_timer_status : Z;
  rt_errno : Z;
}.

Abbreviation K := (ST kernel).

(** A list operation on the kernel's nodes. *)
Definition on_list {A} (m : ST (gmap knode (knode * knode)) A) : K A := fun k =>
  match m (links k) with
  | Ok (a, l) => Ok (a, {k with links := l})
  | Abort w => Abort w
  | Undef w => Undef w
  end.

(** Access to the fields of an object. *)
Definition thread (t : Z) : K rt_thread :=
  k ← get; match threads k !! t with Some x => mret x | None => undef "not a thread" end.
Definition set_thread (t : Z) (f : rt_thread -> rt_thread) : K unit :=
  k ← get;
  match threads k !! t with
  | Some x => modify (fun k => {k with threads ::= <[t := f x]> })
  | None => undef "not a thread"
  end.
Definition object (o : objid) : K rt_object :=
  k ← get; match objects k !! o with Some x => mret x | None => undef "not an object" end.
Definition set_object (o : objid) (f : rt_object -> rt_object) : K unit :=
  k ← get;
  match objects k !! o with
  | Some x => modify (fun k => {k with objects ::= <[o := f x]> })
  | None => undef "not an object"
  end.
Definition timer (t : Z) : K rt_timer :=
  k ← get; match timers k !! t with Some x => mret x | None => undef "not a timer" end.
Definition set_timer (t : Z) (f : rt_timer -> rt_timer) : K unit :=
  k ← get;
  match timers k !! t with
  | Some x => modify (fun k => {k with timers ::= <[t := f x]> })
  | None => undef "not a timer"
  end.

(** The field [f] of the record at [i], which is one of a table of records. *)
Section Table.
Context {A : Type} (table : kernel -> gmap Z A) (update : (gmap Z A -> gmap Z A) -> kernel -> kernel) (why : string).

Definition load (i : Z) : K A := k ← get; match table k !! i with Some x => mret x | None => undef why end.
Definition store (i : Z) (f : A -> A) : K unit :=
  k ← get; match table k !! i with Some x => modify (update (insert i (f x))) | None => undef why end.

Lemma load_run i k x : table k !! i = Some x -> load i k = Ok (x, k).
Proof. intros E. unfold load. run_simpl. by rewrite E. Qed.
Lemma store_run i f k x : table k !! i = Some x -> store i f k = Ok (tt, update (insert i (f x)) k).
Proof. intros E. unfold store. run_simpl. by rewrite E. Qed.
End Table.

Definition semaphore : Z -> K rt_semaphore := load semaphores "not a semaphore".
Definition set_semaphore : Z -> (rt_semaphore -> rt_semaphore) -> K unit :=
  store semaphores (fun f k => {k with semaphores ::= f}) "not a semaphore".
Definition mutex : Z -> K rt_mutex := load mutexes "not a mutex".
Definition set_mutex : Z -> (rt_mutex -> rt_mutex) -> K unit :=
  store mutexes (fun f k => {k with mutexes ::= f}) "not a mutex".
Definition event : Z -> K rt_event := load events "not an event".
Definition set_event : Z -> (rt_event -> rt_event) -> K unit :=
  store events (fun f k => {k with events ::= f}) "not an event".
Definition mailbox : Z -> K rt_mailbox := load mailboxes "not a mailbox".
Definition set_mailbox : Z -> (rt_mailbox -> rt_mailbox) -> K unit :=
  store mailboxes (fun f k => {k with mailboxes ::= f}) "not a mailbox".
Definition messagequeue : Z -> K rt_messagequeue := load messagequeues "not a message queue".
Definition set_messagequeue : Z -> (rt_messagequeue -> rt_messagequeue) -> K unit :=
  store messagequeues (fun f k => {k with messagequeues ::= f}) "not a message queue".
Definition mempool : Z -> K rt_mempool := load mempools "not a memory pool".
Definition set_mempool : Z -> (rt_mempool -> rt_mempool) -> K unit :=
  store mempools (fun f k => {k with mempools ::= f}) "not a memory pool".

(** *** Runs of the accesses *)

Lemma on_list_run {A} (m : ST (gmap knode (knode * knode)) A) k a l :
  m (links k) = Ok (a, l) -> on_list m k = Ok (a, {k with links := l}).
Proof. unfold on_list. by intros ->. Qed.

(** A list operation that only reads. *)
Lemma on_list_read {A} (m : ST (gmap knode (knode * knode)) A) k a :
  m (links k) = Ok (a, links k) -> on_list m k = Ok (a, k).
Proof. intros E. rewrite (on_list_run _ _ _ _ E). by destruct k. Qed.

Lemma set_thread_run t f k x : threads k !! t = Some x -> set_thread t f k = Ok (tt, {k with threads ::= <[t := f x]> }).
Proof. intros E. unfold set_thread. run_simpl. by rewrite E. Qed.
Lemma thread_run t k x : threads k !! t = Some x -> thread t k = Ok (x, k).
Proof. intros E. unfold thread. run_simpl. by rewrite E. Qed.
Lemma set_timer_run t f k x : timers k !! t = Some x -> set_timer t f k = Ok (tt, {k with timers ::= <[t := f x]> }).
Proof. intros E. unfold set_timer. run_simpl. by rewrite E. Qed.
Lemma timer_run t k x : timers k !! t = Some x -> timer t k = Ok (x, k).
Proof. intros E. unfold timer. run_simpl. by rewrite E. Qed.
Lemma set_object_run o f k x : objects k !! o = Some x -> set_object o f k = Ok (tt, {k with objects ::= <[o := f x]> }).
Proof. intros E. unfold set_object. run_simpl. by rewrite E. Qed.
Lemma object_run o k x : objects k !! o = Some x -> object o k = Ok (x, k).
Proof. intros E. unfold object. run_simpl. by rewrite E. Qed.

(** ** __rt_ffs *)

Definition lowest_bit_bitmap : list Z :=
  [0; 0; 1; 0; 2; 0; 1; 0; 3; 0; 1; 0; 2; 0; 1; 0;
   4; 0; 1; 0; 2; 0; 1; 0; 3; 0; 1; 0; 2; 0; 1; 0;
   5; 0; 1; 0; 2; 0; 1; 0; 3; 0; 1; 0; 2; 0; 1; 0;
   4; 0; 1; 0; 2; 0; 1; 0; 3; 0; 1; 0; 2; 0; 1; 0;
   6; 0; 1; 0; 2; 0; 1; 0; 3; 0; 1; 0; 2; 0; 1; 0;
   4; 0; 1; 0; 2; 0; 1; 0; 3; 0; 1; 0; 2; 0; 1; 0;
   5; 0; 1; 0; 2; 0; 1; 0; 3; 0; 1; 0; 2; 0; 1; 0;
   4; 0; 1; 0; 2; 0; 1; 0; 3; 0; 1; 0; 2; 0; 1; 0;
   7; 0; 1; 0; 2; 0; 1; 0; 3; 0; 1; 0; 2; 0; 1; 0;
   4; 0; 1; 0; 2; 0; 1; 0; 3; 0; 1; 0; 2; 0; 1; 0;
   5; 0; 1; 0; 2; 0; 1; 0; 3; 0; 1; 0; 2; 0; 1; 0;
   4; 0; 1; 0; 2; 0; 1; 0; 3; 0; 1; 0; 2; 0; 1; 0;
   6; 0; 1; 0; 2; 0; 1; 0; 3; 0; 1; 0; 2; 0; 1; 0;
   4; 0; 1; 0; 2; 0; 1; 0; 3; 0; 1; 0; 2; 0; 1; 0;
   5; 0; 1; 0; 2; 0; 1; 0; 3; 0; 1; 0; 2; 0; 1; 0;
   4; 0; 1; 0; 2; 0; 1; 0; 3; 0; 1; 0; 2; 0; 1; 0].

Definition lowest (i : Z) : Z := default 0 (zlookup lowest_bit_bitmap i).

Definition rt_ffs (value : Z) : Z :=
  if value =? 0 then 0
  else if negb (Z.land value 0xff =? 0) then lowest (Z.land value 0xff) + 1
  else if negb (Z.land value 0xff00 =? 0) then lowest (Z.shiftr (Z.land value 0xff00) 8) + 9
  else if negb (Z.land value 0xff0000 =? 0) then lowest (Z.shiftr (Z.land value 0xff0000) 16) + 17
  else lowest (Z.shiftr (Z.land (u32 value) 0xff000000) 24) + 25.

(** [k] is the lowest bit of [x] that is set. *)
Definition first_bit (x k : Z) : Prop := Z.testbit x k = true /\ forall j, 0 <= j < k -> Z.testbit x j = false.

Definition byte_ok (b : Z) : bool :=
  let k := lowest b in Z.testbit b k && (0 <=? k) && (k <? 8) && (Z.land b (Z.ones k) =? 0).

Lemma lowest_byte b : 0 < b < 256 -> first_bit b (lowest b) /\ 0 <= lowest b < 8.
Proof.
  intros Hb. assert (forallb byte_ok (seqZ 1 255) = true) as Hall by (vm_compute; reflexivity).
  rewrite forallb_forall in Hall. specialize (Hall b). rewrite <- list_elem_of_In, elem_of_seqZ in Hall.
  specialize (Hall ltac:(lia)). unfold byte_ok in Hall. rewrite !andb_true_iff, Z.leb_le, Z.ltb_lt, Z.eqb_eq in Hall.
  destruct Hall as [[[H1 H2] H3] H4]. split; [split; [done|]|lia]. intros j Hj.
  assert (Z.testbit (Z.land b (Z.ones (lowest b))) j = false) as H5 by (rewrite H4; apply Z.bits_0).
  rewrite Z.land_spec, Z.ones_spec_low, andb_true_r in H5 by lia. done.
Qed.

Lemma field_bit x lo n j : 0 <= lo -> 0 <= j < n -> Z.testbit (field x lo n) j = Z.testbit x (lo + j).
Proof.
  intros Hlo Hj. unfold field. rewrite Z.mod_pow2_bits_low, Z.div_pow2_bits by lia. f_equal. lia.
Qed.

(** The lowest byte that is not zero holds the lowest bit. *)
Lemma first_bit_byte x sh :
  0 <= sh -> field x sh 8 <> 0 -> (forall j, 0 <= j < sh -> Z.testbit x j = false) ->
  first_bit x (sh + lowest (field x sh 8)) /\ sh <= sh + lowest (field x sh 8) < sh + 8.
Proof.
  intros Hsh Hne Hz. pose proof (field_range x sh 8 ltac:(lia)) as Hr. unfold in_u in Hr.
  destruct (lowest_byte (field x sh 8)) as [[H1 H2] H3]; [change (2 ^ 8) with 256 in *; lia|].
  set (k := lowest (field x sh 8)) in *. split; [split|lia].
  - by rewrite field_bit in H1 by lia.
  - intros j Hj. destruct (Z.lt_ge_cases j sh); [by apply Hz; lia|].
    specialize (H2 (j - sh) ltac:(lia)). rewrite field_bit in H2 by lia. by replace (sh + (j - sh)) with j in H2 by lia.
Qed.

Lemma zero_byte x sh :
  0 <= sh -> field x sh 8 = 0 -> (forall j, 0 <= j < sh -> Z.testbit x j = false) ->
  forall j, 0 <= j < sh + 8 -> Z.testbit x j = false.
Proof.
  intros Hsh Hf Hz j Hj. destruct (Z.lt_ge_cases j sh); [by apply Hz; lia|].
  replace j with (sh + (j - sh)) by lia. rewrite <- (field_bit x sh 8) by lia. by rewrite Hf, Z.bits_0.
Qed.

Lemma rt_ffs_spec v : u32 v <> 0 -> exists k, rt_ffs v = k + 1 /\ first_bit v k /\ 0 <= k < 32.
Proof.
  intros Hv. assert (v <> 0) as Hv0 by (intros ->; done). unfold rt_ffs. rewrite (proj2 (Z.eqb_neq v 0)) by done.
  assert (Z.land v 0xff = field v 0 8) as ->.
  { change 0xff with (Z.ones 8 * 2 ^ 0). rewrite land_mask_shifted by lia. lia. }
  assert (forall sh, 0 <= sh -> Z.land v (Z.ones 8 * 2 ^ sh) = field v sh 8 * 2 ^ sh) as Hm by (intros; apply land_mask_shifted; lia).
  change 0xff00 with (Z.ones 8 * 2 ^ 8). change 0xff0000 with (Z.ones 8 * 2 ^ 16). change 0xff000000 with (Z.ones 8 * 2 ^ 24).
  rewrite !Hm, land_mask_shifted by lia. rewrite !Z.shiftr_div_pow2, !Z.div_mul by lia.
  assert (field (u32 v) 24 8 = field v 24 8) as ->.
  { apply Z.bits_inj'. intros j Hj. destruct (Z.lt_ge_cases j 8).
    - rewrite !field_bit, testbit_wrap by lia. by rewrite (proj2 (Z.ltb_lt _ _)) by lia.
    - pose proof (field_range (u32 v) 24 8 ltac:(lia)). pose proof (field_range v 24 8 ltac:(lia)). by rewrite !(testbit_high 8) by (done || lia). }
  assert (forall j, 0 <= j < 0 -> Z.testbit v j = false) as Z0 by lia.
  destruct (Z.eqb_spec (field v 0 8) 0) as [F0|F0]; cbn [negb].
  2:{ destruct (first_bit_byte v 0 ltac:(lia) F0 Z0). eexists; split; [|split; [eassumption|lia]]. lia. }
  pose proof (zero_byte v 0 ltac:(lia) F0 Z0) as Z1.
  destruct (Z.eqb_spec (field v 8 8 * 2 ^ 8) 0) as [F1|F1]; cbn [negb].
  2:{ destruct (first_bit_byte v 8 ltac:(lia) ltac:(lia) Z1). eexists; split; [|split; [eassumption|lia]]. lia. }
  pose proof (zero_byte v 8 ltac:(lia) ltac:(lia) Z1) as Z2.
  destruct (Z.eqb_spec (field v 16 8 * 2 ^ 16) 0) as [F2|F2]; cbn [negb].
  2:{ destruct (first_bit_byte v 16 ltac:(lia) ltac:(lia) Z2). eexists; split; [|split; [eassumption|lia]]. lia. }
  pose proof (zero_byte v 16 ltac:(lia) ltac:(lia) Z2) as Z3.
  destruct (Z.eqb_spec (field v 24 8) 0) as [F3|F3].
  { exfalso. apply Hv, Z.bits_inj'. intros j Hj. rewrite Z.bits_0, testbit_wrap by lia. case Z.ltb_spec; [|done]. intros.
    apply (zero_byte v 24 ltac:(lia) F3 Z3). lia. }
  destruct (first_bit_byte v 24 ltac:(lia) F3 Z3). eexists; split; [|split; [eassumption|lia]]. lia.
Qed.
