(* ===== verification/RtSched.v ===== *)
(** * RT-Thread: src/scheduler_up.c

    The ready threads of each priority are in a list of their own, a bit of the ready
    group (for more than 32 priorities, of a two-level table) says that the list is not
    empty.  [prio_max] is RT_THREAD_PRIORITY_MAX.  Hooks, the stack check and signals
    are not modelled; interrupts do not occur inside an operation, as the code disables
    them. *)
From S2P Require Import Prelude Outcome RtList RtKernel.
#[local] Open Scope string_scope.
#[local] Open Scope list_scope.
#[local] Open Scope Z_scope.

Definition RT_THREAD_INIT : Z := 0x00.
Definition RT_THREAD_CLOSE : Z := 0x01.
Definition RT_THREAD_READY : Z := 0x02.
Definition RT_THREAD_RUNNING : Z := 0x03.
Definition RT_THREAD_SUSPEND_MASK : Z := 0x04.
Definition RT_THREAD_STAT_MASK : Z := 0x07.
Definition RT_THREAD_STAT_YIELD : Z := 0x08.
Definition RT_THREAD_STAT_YIELD_MASK : Z := RT_THREAD_STAT_YIELD.

Section Sched.
Variable prio_max : Z.

(** [#if RT_THREAD_PRIORITY_MAX > 32] *)
Definition two_level : bool := 32 <? prio_max.

(** The thread and its priority. *)
Definition scheduler_get_highest_priority_thread : K (Z * Z) :=
  k ← get;
  prio ← (if two_level then
            let number := rt_ffs (s32 (rt_thread_ready_priority_group k)) - 1 in
            match zlookup (rt_thread_ready_table k) number with
            | Some b => mret (Z.shiftl number 3 + rt_ffs b - 1)
            | None => undef "rt_thread_ready_table[number]"
            end
          else mret (rt_ffs (s32 (rt_thread_ready_priority_group k)) - 1));
  n ← on_list (ld_next (PrioHead prio));
  match n with
  | TList t => mret (t, prio)
  | _ => undef "an entry that is not a thread"
  end.

Definition set_ready_bits (x : rt_thread) : K unit :=
  when two_level
    (k ← get;
     match zlookup (rt_thread_ready_table k) (number x) with
     | Some b => modify (fun k => {k with rt_thread_ready_table ::= (fun l => <[Z.to_nat (number x) := Z.lor b (high_mask x)]> l)})
     | None => undef "rt_thread_ready_table[thread->number]"
     end) ;;
  modify (fun k => {k with rt_thread_ready_priority_group ::= (fun g => Z.lor g (number_mask x))}).

Definition clear_ready_bits (x : rt_thread) : K unit :=
  if two_level then
    k ← get;
    match zlookup (rt_thread_ready_table k) (number x) with
    | Some b =>
        let b' := Z.land b (u8 (Z.lnot (high_mask x))) in
        modify (fun k => {k with rt_thread_ready_table ::= (fun l => <[Z.to_nat (number x) := b']> l)}) ;;
        when (b' =? 0)
          (modify (fun k => {k with rt_thread_ready_priority_group ::= (fun g => Z.land g (u32 (Z.lnot (number_mask x))))}))
    | None => undef "rt_thread_ready_table[thread->number]"
    end
  else modify (fun k => {k with rt_thread_ready_priority_group ::= (fun g => Z.land g (u32 (Z.lnot (number_mask x))))}).

(** [thread->stat = s | (thread->stat & ~RT_THREAD_STAT_MASK)] *)
Definition with_stat (s : Z) (x : rt_thread) : rt_thread :=
  {x with stat ::= (fun st => Z.lor s (Z.land st (Z.lnot RT_THREAD_STAT_MASK)))}.

Definition rt_schedule_insert_thread (t : Z) : K unit :=
  k ← get;
  if bool_decide (rt_current_thread k = Some t) then set_thread t (with_stat RT_THREAD_RUNNING)
  else
    set_thread t (with_stat RT_THREAD_READY) ;;
    x ← thread t;
    (if negb (Z.land (stat x) RT_THREAD_STAT_YIELD_MASK =? 0)
     then on_list (rt_list_insert_before (PrioHead (current_priority x)) (TList t))
     else on_list (rt_list_insert_after (PrioHead (current_priority x)) (TList t))) ;;
    set_ready_bits x.

Definition rt_schedule_remove_thread (t : Z) : K unit :=
  on_list (rt_list_remove (TList t)) ;;
  x ← thread t;
  e ← on_list (rt_list_isempty (PrioHead (current_priority x)));
  when e (clear_ready_bits x).

(** The thread that runs. *)
Definition current : K Z :=
  k ← get; match rt_current_thread k with Some t => mret t | None => undef "rt_current_thread is null" end.

Definition clear_yield (x : rt_thread) : rt_thread :=
  {x with stat ::= (fun st => Z.land st (Z.lnot RT_THREAD_STAT_YIELD_MASK))}.

(** What to run next: whether it replaces the running thread, which then goes back to the
    ready list. *)
Definition choose_thread (to_thread highest : Z) : K (Z * bool) :=
  c ← current;
  x ← thread c;
  if Z.land (stat x) RT_THREAD_STAT_MASK =? RT_THREAD_RUNNING then
    let r :=
      if current_priority x <? highest then (c, false)
      else if (current_priority x =? highest) && (Z.land (stat x) RT_THREAD_STAT_YIELD_MASK =? 0) then (c, false)
      else (to_thread, true) in
    set_thread c clear_yield ;;
    mret r
  else mret (to_thread, false).

Definition rt_schedule : K unit :=
  k ← get;
  when ((rt_scheduler_lock_nest k =? 0) && negb (rt_thread_ready_priority_group k =? 0)) (
    h ← scheduler_get_highest_priority_thread;
    let '(to_thread, highest) := h in
    r ← choose_thread to_thread highest;
    let '(to_thread, need_insert_from_thread) := r in
    from ← current;
    if to_thread =? from then
      rt_schedule_remove_thread from ;;
      set_thread from (with_stat RT_THREAD_RUNNING)
    else
      modify (fun k => {k with rt_current_priority := u8 highest; rt_current_thread := Some to_thread}) ;;
      when need_insert_from_thread (rt_schedule_insert_thread from) ;;
      rt_schedule_remove_thread to_thread ;;
      set_thread to_thread (with_stat RT_THREAD_RUNNING) ;;
      modify (fun k => {k with context_switches ::= cons (Some from, to_thread)})).

Definition rt_system_scheduler_init : K unit :=
  modify (fun k => {k with rt_scheduler_lock_nest := 0}) ;;
  iter_list (fun p => on_list (rt_list_init (PrioHead p))) (seqZ 0 prio_max) ;;
  modify (fun k => {k with rt_thread_ready_priority_group := 0}) ;;
  when two_level (modify (fun k => {k with rt_thread_ready_table := replicate 32 0})).

Definition rt_system_scheduler_start : K unit :=
  h ← scheduler_get_highest_priority_thread;
  let '(to_thread, _) := h in
  modify (fun k => {k with rt_current_thread := Some to_thread}) ;;
  rt_schedule_remove_thread to_thread ;;
  set_thread to_thread (fun x => {x with stat := RT_THREAD_RUNNING}) ;;
  modify (fun k => {k with context_switches ::= cons (None, to_thread)}).

Definition rt_enter_critical : K unit :=
  modify (fun k => {k with rt_scheduler_lock_nest ::= (fun n => s16 (n + 1))}).

Definition rt_exit_critical : K unit :=
  modify (fun k => {k with rt_scheduler_lock_nest ::= (fun n => s16 (n - 1))}) ;;
  k ← get;
  when (rt_scheduler_lock_nest k <=? 0) (
    modify (fun k => {k with rt_scheduler_lock_nest := 0}) ;;
    when (bool_decide (is_Some (rt_current_thread k))) rt_schedule).

Definition rt_critical_level : K Z := k ← get; mret (u16 (rt_scheduler_lock_nest k)).
End Sched.
