(* ===== verification/RtObject.v ===== *)
(** * RT-Thread: src/object.c

    The object headers and the list of the objects of each class.  [cfg] says which kinds
    of object the configuration has (RT_USING_SEMAPHORE and so on).  RT_DEBUG is on: a
    failed RT_ASSERT is [Abort].  [rt_malloc] stands for the heap: the object that a block
    given out for a class becomes.  Hooks, modules and custom objects' data are not
    modelled. *)
From S2P Require Import Prelude Outcome RtList RtKernel RtSched.
#[local] Open Scope string_scope.
#[local] Open Scope list_scope.
#[local] Open Scope Z_scope.

Definition RT_Object_Class_Null : Z := 0x00.
Definition RT_Object_Class_Thread : Z := 0x01.
Definition RT_Object_Class_Semaphore : Z := 0x02.
Definition RT_Object_Class_Mutex : Z := 0x03.
Definition RT_Object_Class_Event : Z := 0x04.
Definition RT_Object_Class_MailBox : Z := 0x05.
Definition RT_Object_Class_MessageQueue : Z := 0x06.
Definition RT_Object_Class_MemHeap : Z := 0x07.
Definition RT_Object_Class_MemPool : Z := 0x08.
Definition RT_Object_Class_Device : Z := 0x09.
Definition RT_Object_Class_Timer : Z := 0x0a.
Definition RT_Object_Class_Module : Z := 0x0b.
Definition RT_Object_Class_Memory : Z := 0x0c.
Definition RT_Object_Class_Channel : Z := 0x0d.
Definition RT_Object_Class_Custom : Z := 0x0e.
Definition RT_Object_Class_Static : Z := 0x80.

Definition RT_EOK : Z := 0.
Definition RT_ERROR : Z := 1.
Definition RT_ETIMEOUT : Z := 2.
Definition RT_EINTR : Z := 9.
Definition RT_EINVAL : Z := 10.

Record rt_config := {
  using_semaphore : bool; using_mutex : bool; using_event : bool; using_mailbox : bool;
  using_messagequeue : bool; using_memheap : bool; using_mempool : bool; using_device : bool;
  using_module : bool; using_heap : bool; using_smart : bool;
}.

(** [#ifdef] around an item. *)
Definition ifdef (b : bool) (l : list Z) : list Z := if b then l else [].

(** The kinds that enum rt_object_info_type and the initialiser of _object_container
    start with. *)
Definition common_kinds (cfg : rt_config) : list Z :=
  [RT_Object_Class_Thread] ++ ifdef (using_semaphore cfg) [RT_Object_Class_Semaphore] ++
  ifdef (using_mutex cfg) [RT_Object_Class_Mutex] ++ ifdef (using_event cfg) [RT_Object_Class_Event] ++
  ifdef (using_mailbox cfg) [RT_Object_Class_MailBox] ++ ifdef (using_messagequeue cfg) [RT_Object_Class_MessageQueue] ++
  ifdef (using_memheap cfg) [RT_Object_Class_MemHeap] ++ ifdef (using_mempool cfg) [RT_Object_Class_MemPool] ++
  ifdef (using_device cfg) [RT_Object_Class_Device] ++ [RT_Object_Class_Timer] ++ ifdef (using_module cfg) [RT_Object_Class_Module] ++
  ifdef (using_heap cfg) [RT_Object_Class_Memory].

(** The enumerators, each by the class it stands for. *)
Definition rt_object_info_type (cfg : rt_config) : list Z :=
  common_kinds cfg ++ ifdef (using_smart cfg) [RT_Object_Class_Channel] ++ ifdef (using_heap cfg) [RT_Object_Class_Custom].

Definition RT_Object_Info_Unknown (cfg : rt_config) : nat := length (rt_object_info_type cfg).

(** The [type] fields of the array; entries without an initialiser are zero. *)
Definition object_container (cfg : rt_config) : list Z :=
  let init := common_kinds cfg ++ ifdef (using_smart cfg) [RT_Object_Class_Channel; RT_Object_Class_Custom] in
  init ++ replicate (RT_Object_Info_Unknown cfg - length init) RT_Object_Class_Null.

(** *** Strings of kservice.c: a C string is its characters without the final NUL *)

Definition hd_char (s : list Z) : Z := hd 0 s.

Fixpoint rt_strncpy (n : nat) (src : list Z) : list Z :=
  match n with
  | O => []
  | S n' => match src with
            | [] => 0 :: replicate n' 0
            | c :: src' => if c =? 0 then 0 :: replicate n' 0 else c :: rt_strncpy n' src'
            end
  end.

Fixpoint strncmp_loop (res : Z) (cs ct : list Z) (count : nat) : Z :=
  match count with
  | O => res
  | S n =>
      let res := s8 (hd_char cs - hd_char ct) in
      if negb (res =? 0) || (hd_char cs =? 0) then res else strncmp_loop res (tl cs) (tl ct) n
  end.
Definition rt_strncmp (cs ct : list Z) (count : nat) : Z := strncmp_loop 0 cs ct count.

Definition rt_object_get_type (o : objid) : K Z :=
  x ← object o; mret (Z.land (ob_type x) (u8 (Z.lnot RT_Object_Class_Static))).
Definition rt_object_is_systemobject (o : objid) : K bool :=
  x ← object o; mret (negb (Z.land (ob_type x) RT_Object_Class_Static =? 0)).

Section Object.
Variables (prio_max : Z) (cfg : rt_config) (RT_NAME_MAX : nat) (rt_malloc : Z -> kernel -> option objid).

(** The index of the entry found. *)
Fixpoint information_loop (type : Z) (container : list Z) (index : nat) : option nat :=
  match container with
  | [] => None
  | c :: l => if c =? type then Some index else information_loop type l (S index)
  end.
Definition rt_object_get_information (type : Z) : option nat := information_loop type (object_container cfg) 0.

(** [rt_list_for_each]: the body says whether to break. *)
Fixpoint for_each {A} (fuel : nat) (head node : knode) (body : A -> knode -> K (A * bool)) (a : A) : K A :=
  if bool_decide (node = head) then mret a
  else match fuel with
  | O => undef "a list that does not end"
  | S fuel' =>
      r ← body a node;
      let '(a, stop) := r in
      if stop : bool then mret a
      else n ← on_list (ld_next node); for_each fuel' head n body a
  end.
Definition rt_list_for_each {A} (head : knode) (body : A -> knode -> K (A * bool)) (a : A) : K A :=
  n ← on_list (ld_next head);
  k ← get;
  for_each (size (links k)) head n body a.

(** [rt_list_entry(node, struct rt_object, list)] *)
Definition object_entry (node : knode) : K objid :=
  match node with ObjNode o => mret o | _ => undef "an entry that is not an object" end.

Definition rt_object_get_length (type : Z) : K Z :=
  match rt_object_get_information type with
  | None => mret 0
  | Some i => rt_list_for_each (ObjHead i) (fun count _ => mret (s32 (count + 1), false)) 0
  end.

(** The pointers stored, in order. *)
Definition rt_object_get_pointers (type maxlen : Z) : K (list objid) :=
  if maxlen <=? 0 then mret []
  else match rt_object_get_information type with
  | None => mret []
  | Some i =>
      rt_list_for_each (ObjHead i) (fun pointers node =>
        o ← object_entry node;
        mret (pointers ++ [o], maxlen <=? Z.of_nat (length pointers) + 1)) []
  end.

(** The test against a second initialisation. *)
Definition check_new (i : nat) (o : objid) : K unit :=
  rt_enter_critical ;;
  rt_list_for_each (ObjHead i) (fun _ node =>
    obj ← object_entry node;
    assert_that (negb (bool_decide (obj = o))) "obj != object" ;;
    mret (tt, false)) tt ;;
  rt_exit_critical prio_max.

Definition rt_object_init (o : objid) (type : Z) (name : list Z) : K unit :=
  match rt_object_get_information type with
  | None => abort "information != RT_NULL"
  | Some i =>
      check_new i o ;;
      set_object o (fun x => {x with ob_type := u8 (Z.lor type RT_Object_Class_Static); ob_name := rt_strncpy RT_NAME_MAX name}) ;;
      on_list (rt_list_insert_after (ObjHead i) (ObjNode o))
  end.

Definition rt_object_detach (o : objid) : K unit :=
  set_object o (fun x => {x with ob_type := 0}) ;;
  on_list (rt_list_remove (ObjNode o)).

(** The memory of a new object, all zero.  The timer inside the thread [t] is the timer
    [t]. *)
Definition zero_header (o : objid) : K unit :=
  modify (fun k => {k with objects ::= <[o := {| ob_name := replicate RT_NAME_MAX 0; ob_type := 0; ob_flag := 0 |}]>;
                           links ::= <[ObjNode o := (NullNode, NullNode)]> }).
Definition zero_timer (t : Z) : K unit :=
  zero_header (OTimer t) ;;
  modify (fun k => {k with timers ::= <[t := {| timeout_func := 0; tm_parameter := 0; tm_init_tick := 0; timeout_tick := 0 |}]> }).
(** The body of an IPC object. *)
Definition zero_ipc (type i : Z) : K unit :=
  modify (fun k =>
    if type =? RT_Object_Class_Semaphore then {k with semaphores ::= <[i := {| sem_value := 0 |}]> }
    else if type =? RT_Object_Class_Mutex then
      {k with mutexes ::= <[i := {| ceiling_priority := 0; mx_priority := 0; hold := 0; owner := None |}]> }
    else if type =? RT_Object_Class_Event then {k with events ::= <[i := {| ev_set := 0 |}]> }
    else if type =? RT_Object_Class_MailBox then
      {k with mailboxes ::= <[i := {| msg_pool := []; mb_size := 0; mb_entry := 0; in_offset := 0; out_offset := 0 |}]> }
    else if type =? RT_Object_Class_MessageQueue then
      {k with messagequeues ::= <[i := {| mq_pool := []; msg_size := 0; max_msgs := 0; mq_entry := 0;
                                          msg_queue_head := None; msg_queue_tail := None; msg_queue_free := None |}]> }
    else if type =? RT_Object_Class_MemPool then
      {k with mempools ::= <[i := {| mp_start_address := 0; mp_size := 0; mp_block_size := 0; mp_block_list := None;
                                     block_total_count := 0; block_free_count := 0 |}]> }
    else k).
Definition clear_memory (type : Z) (o : objid) : K unit :=
  match o with
  | OThread t =>
      zero_header (OThread t) ;;
      zero_timer t ;;
      modify (fun k => {k with threads ::= <[t :=
        {| th_entry := 0; th_parameter := 0; stack_addr := 0; stack_size := 0; stat := 0; current_priority := 0; init_priority := 0;
           number := 0; number_mask := 0; high_mask := 0; th_init_tick := 0; remaining_tick := 0; th_error := 0; thread_timer := t; cleanup := 0;
           pending_object := None; event_set := 0; event_info := 0 |}]> })
  | OTimer t => zero_timer t
  | OOther i => zero_header o ;; zero_ipc type i
  end.

(** The memory of an object that is freed, its list nodes included. *)
Definition node_of (o : objid) (n : knode) : bool :=
  match n, o with
  | ObjNode o', _ => bool_decide (o' = o) || match o', o with OTimer t', OThread t => t' =? t | _, _ => false end
  | TList t', OThread t => t' =? t
  | TimerRow t' _, OTimer t => t' =? t
  | TimerRow t' _, OThread t => t' =? t
  | TakenHead t', OThread t => t' =? t
  | SuspendHead i', OOther i => i' =? i
  | SenderHead i', OOther i => i' =? i
  | TakenNode i', OOther i => i' =? i
  | _, _ => false
  end.
Definition free_memory (o : objid) : K unit :=
  modify (fun k => {k with objects ::= delete o; links ::= filter (fun p => node_of o p.1 = false)}) ;;
  match o with
  | OThread t => modify (fun k => {k with threads ::= delete t; timers ::= delete t; objects ::= delete (OTimer t)})
  | OTimer t => modify (fun k => {k with timers ::= delete t})
  | OOther i => modify (fun k => {k with semaphores ::= delete i; mutexes ::= delete i; events ::= delete i;
                                         mailboxes ::= delete i; messagequeues ::= delete i; mempools ::= delete i})
  end.

Definition rt_object_allocate (type : Z) (name : list Z) : K (option objid) :=
  match rt_object_get_information type with
  | None => abort "information != RT_NULL"
  | Some i =>
      k ← get;
      match rt_malloc type k with
      | None => mret None
      | Some o =>
          clear_memory type o ;;
          set_object o (fun x => {x with ob_type := u8 type; ob_flag := 0; ob_name := rt_strncpy RT_NAME_MAX name}) ;;
          on_list (rt_list_insert_after (ObjHead i) (ObjNode o)) ;;
          mret (Some o)
      end
  end.

Definition rt_object_delete (o : objid) : K unit :=
  x ← object o;
  assert_that (Z.land (ob_type x) RT_Object_Class_Static =? 0) "!(object->type & RT_Object_Class_Static)" ;;
  set_object o (fun x => {x with ob_type := RT_Object_Class_Null}) ;;
  on_list (rt_list_remove (ObjNode o)) ;;
  free_memory o.

Definition rt_object_find (name : option (list Z)) (type : Z) : K (option objid) :=
  match name, rt_object_get_information type with
  | Some name, Some i =>
      rt_enter_critical ;;
      r ← rt_list_for_each (ObjHead i) (fun _ node =>
            o ← object_entry node;
            x ← object o;
            mret (if rt_strncmp (ob_name x) name RT_NAME_MAX =? 0 then (Some o, true) else (None, false))) None;
      rt_exit_critical prio_max ;;
      mret r
  | _, _ => mret None
  end.

(** The error and what the buffer holds. *)
Definition rt_object_get_name (o : option objid) (name : bool) (name_size : Z) : K (Z * list Z) :=
  match o with
  | Some o =>
      if name && negb (name_size =? 0)
      then x ← object o; mret (0, rt_strncpy (Z.to_nat name_size) (ob_name x))
      else mret (- RT_EINVAL, [])
  | None => mret (- RT_EINVAL, [])
  end.
End Object.
