(* ===== verification/RtObjectFacts.v ===== *)
(** * Kernel objects: the registry

    The list of the objects of one class as a lookup table from names: what rt_object_find
    returns, and what rt_object_init adds. *)
From S2P Require Import Prelude Outcome RtList RtKernel RtSched RtObject.
#[local] Open Scope string_scope.
#[local] Open Scope list_scope.
#[local] Open Scope Z_scope.

Abbreviation kring := (knode * list knode)%type.

(** ** Names *)

(** The first [n] characters of a string, up to the NUL. *)
Fixpoint cname (n : nat) (s : list Z) : list Z :=
  match n, s with
  | S n', c :: s' => if c =? 0 then [] else c :: cname n' s'
  | _, _ => []
  end.

Definition chars (s : list Z) : Prop := Forall (in_s 8) s.

Lemma s8_diff a b : in_s 8 a -> in_s 8 b -> s8 (a - b) = 0 <-> a = b.
Proof.
  intros Ha Hb. split; [|intros ->; by rewrite Z.sub_diag]. intros E. apply (f_equal (wrap 8)) in E. rewrite wrap_sext in E by lia.
  unfold in_s, wrap in *. change (2 ^ (8 - 1)) with 128 in *. change (2 ^ 8) with 256 in E. change (0 mod 256) with 0 in E. Z.to_euclidean_division_equations. lia.
Qed.

Lemma strncmp_loop_zero n cs ct : chars cs -> chars ct -> strncmp_loop 0 cs ct n = 0 <-> cname n cs = cname n ct.
Proof.
  revert cs ct. induction n as [|n IH]; intros cs ct Hs Ht; [done|]. cbn [strncmp_loop cname].
  assert (in_s 8 0) as H0 by (unfold in_s; change (2 ^ (8 - 1)) with 128; lia).
  assert (in_s 8 (hd_char cs)) as H1 by (destruct Hs; assumption). assert (in_s 8 (hd_char ct)) as H2 by (destruct Ht; assumption).
  pose proof (s8_diff _ _ H1 H2) as Hd. destruct (Z.eqb_spec (s8 (hd_char cs - hd_char ct)) 0) as [E|E]; cbn [negb orb].
  - apply Hd in E. rewrite E, Z.sub_diag. change (s8 0) with 0. destruct cs as [|c cs], ct as [|d ct]; cbn in E |- *; subst; cbn.
    + done.
    + done.
    + done.
    + destruct (Z.eqb_spec d 0); [done|]. apply Forall_cons in Hs as [_ Hs], Ht as [_ Ht]. rewrite IH by done. split; [by intros ->|by intros [= ?]].
  - split; [done|]. intros Heq. destruct E. apply Hd. destruct cs as [|c cs], ct as [|d ct]; cbn in *; try done.
    + by destruct (Z.eqb_spec d 0).
    + by destruct (Z.eqb_spec c 0).
    + destruct (Z.eqb_spec c 0), (Z.eqb_spec d 0); congruence.
Qed.

Lemma cname_copy n s : cname n (rt_strncpy n s) = cname n s.
Proof.
  revert s. induction n as [|n IH]; intros s; [done|]. destruct s as [|c s]; cbn; [done|]. destruct (Z.eqb_spec c 0) as [->|Hc]; cbn; [done|].
  rewrite (proj2 (Z.eqb_neq _ _) Hc). by rewrite IH.
Qed.

Lemma copy_chars n s : chars s -> chars (rt_strncpy n s).
Proof.
  assert (in_s 8 0) as H0 by (unfold in_s; change (2 ^ (8 - 1)) with 128; lia).
  assert (forall m, chars (0 :: replicate m 0)) as Hz.
  { intros m. apply Forall_cons. split; [done|]. apply Forall_forall. intros x [-> _]%elem_of_replicate. done. }
  revert s. induction n as [|n IH]; intros s Hs; [constructor|]. destruct s as [|c s]; cbn; [apply Hz|].
  apply Forall_cons in Hs as [Hc Hs]. destruct (c =? 0); [apply Hz|]. apply Forall_cons. split; [done|]. by apply IH.
Qed.

(** ** Loops over a list *)

Fixpoint fold_until {A B} (f : A -> B -> A * bool) (a : A) (l : list B) : A :=
  match l with
  | [] => a
  | b :: l' => let r := f a b in if r.2 then r.1 else fold_until f r.1 l'
  end.

Lemma for_each_run {A B} (node : B -> knode) (body : A -> knode -> K (A * bool)) (f : A -> B -> A * bool) k h R fuel ys xs a :
  rings (links k) ((h, node <$> (xs ++ ys)) :: R) -> (forall a b, b ∈ ys -> body a (node b) k = Ok (f a b, k)) -> (length ys <= fuel)%nat ->
  for_each fuel h (default h (head (node <$> ys))) body a k = Ok (fold_until f a ys, k).
Proof.
  revert fuel xs a. induction ys as [|y ys IH]; intros fuel xs a Hr Hb Hf; cbn [fmap list_fmap head default].
  - destruct fuel; cbn [for_each]; by rewrite bool_decide_eq_true_2.
  - pose proof (rings_nodup _ _ _ _ Hr) as [Hh _]%NoDup_cons. rewrite fmap_app, fmap_cons in Hr, Hh.
    destruct fuel as [|fuel]; [cbn in Hf; lia|]. cbn [for_each]. change (default h (Some (node y))) with (node y). rewrite bool_decide_eq_false_2.
    2:{ intros <-. apply Hh, elem_of_app. right. by left. }
    erewrite bind_run; [|apply Hb; by left]. cbn [fold_until]. destruct (f a y) as [a' []]; [done|]. cbn [fst snd].
    erewrite bind_run; [|apply on_list_read; exact (ring_next_member _ _ (node <$> xs) (node y) (node <$> ys) _ Hr)].
    apply (IH fuel (xs ++ [y])); [by rewrite <- app_assoc, fmap_app|intros a2 b Hin; apply Hb; by right|cbn in Hf; lia].
Qed.

Lemma list_for_each_run {A B} (node : B -> knode) (body : A -> knode -> K (A * bool)) (f : A -> B -> A * bool) k h R ys a :
  rings (links k) ((h, node <$> ys) :: R) -> (forall a b, b ∈ ys -> body a (node b) k = Ok (f a b, k)) ->
  rt_list_for_each h body a k = Ok (fold_until f a ys, k).
Proof.
  intros Hr Hb. unfold rt_list_for_each. erewrite bind_run; [|apply on_list_read; by rewrite (ring_next _ _ _ _ Hr)].
  erewrite bind_run; [|reflexivity]. pose proof (ring_size _ _ _ _ Hr) as Hs. rewrite length_fmap in Hs.
  apply (for_each_run node body f k h R _ ys []); [done|done|lia].
Qed.

(** ** The registry *)

Section Registry.
Variables (prio_max : Z) (cfg : rt_config) (NAME_MAX : nat).

(** rt_exit_critical does not schedule: the system is not started, or the scheduler is
    locked by a caller. *)
Definition no_switch (k : kernel) : Prop :=
  0 <= rt_scheduler_lock_nest k < 32767 /\ (rt_current_thread k = None \/ 0 < rt_scheduler_lock_nest k).

Definition locked (k : kernel) : kernel := {k with rt_scheduler_lock_nest ::= (fun n => s16 (n + 1))}.

Lemma exit_enter k : no_switch k -> rt_exit_critical prio_max (locked k) = Ok (tt, k).
Proof.
  intros [Hn Hc]. unfold rt_exit_critical. erewrite bind_run; [|reflexivity].
  set (k1 := {locked k with rt_scheduler_lock_nest ::= (fun n => s16 (n - 1))}).
  assert (s16 (s16 (rt_scheduler_lock_nest k + 1) - 1) = rt_scheduler_lock_nest k) as Hs.
  { assert (forall x, 0 <= x < 32768 -> s16 x = x) as Hx by (intros x Hx; apply sext_small; [lia|unfold in_s; change (2 ^ (16 - 1)) with 32768; lia]).
    rewrite (Hx (rt_scheduler_lock_nest k + 1)), Z.add_simpl_r, Hx by lia. done. }
  assert (k1 = k) as ->.
  { unfold k1, locked. destruct k. cbn in *. by rewrite Hs. }
  erewrite bind_run; [|reflexivity]. destruct (Z.leb_spec (rt_scheduler_lock_nest k) 0); [|done]. cbn [when].
  assert (rt_scheduler_lock_nest k = 0) as Hz by lia. destruct Hc as [Hc|Hc]; [|lia].
  assert ({k with rt_scheduler_lock_nest := rt_scheduler_lock_nest k} = k) as E by (by destruct k). rewrite Hz in E.
  erewrite bind_run; [|reflexivity]. rewrite E. rewrite Hc. done.
Qed.


(** The objects [os] of the container entry [i], in the order of the list. *)
Record registry (k : kernel) (i : nat) (os : list objid) (R : list kring) : Prop := {
  re_rings : rings (links k) ((ObjHead i, ObjNode <$> os) :: R);
  re_known : forall o, o ∈ os -> exists x, objects k !! o = Some x /\ chars (ob_name x);
}.

(** The object has this name, as far as names are kept. *)
Definition named (k : kernel) (name : list Z) (o : objid) : bool :=
  match objects k !! o with Some x => bool_decide (cname NAME_MAX (ob_name x) = cname NAME_MAX name) | None => false end.

Lemma find_fold (p : objid -> bool) os :
  fold_until (fun (_ : option objid) o => if p o then (Some o, true) else (None, false)) None os = List.find p os.
Proof. induction os as [|o os IH]; [done|]. cbn. by destruct (p o). Qed.

Lemma fold_until_ext {A B} (f g : A -> B -> A * bool) a l : (forall a b, b ∈ l -> f a b = g a b) -> fold_until f a l = fold_until g a l.
Proof.
  revert a. induction l as [|b l IH]; intros a Hfg; [done|]. cbn. rewrite Hfg by (by left). destruct (g a b) as [a' []]; [done|]. cbn.
  apply IH. intros. apply Hfg. by right.
Qed.

Lemma object_find_run k type i os R name :
  rt_object_get_information cfg type = Some i -> registry k i os R -> chars name -> no_switch k ->
  rt_object_find prio_max cfg NAME_MAX (Some name) type k = Ok (List.find (named k name) os, k).
Proof.
  intros Hi [Hr Hk] Hname Hn. unfold rt_object_find. rewrite Hi. rewrite bind_run with (a := tt) (s1 := locked k) by done.
  set (f := fun (_ : option objid) o => match objects k !! o with
    | Some x => if rt_strncmp (ob_name x) name NAME_MAX =? 0 then (Some o, true) else (None, false) | None => (None, false) end).
  erewrite bind_run; [|eapply (list_for_each_run ObjNode _ f (locked k)); [exact Hr|]].
  2:{ intros a o Ho. destruct (Hk o Ho) as (x & Hx & _). erewrite bind_run; [|reflexivity].
      erewrite bind_run; [|apply object_run; exact Hx]. unfold f. by rewrite Hx. }
  erewrite bind_run; [|by apply exit_enter]. unfold mret, st_ret. do 2 f_equal. rewrite <- find_fold. apply fold_until_ext.
  intros a o Ho. destruct (Hk o Ho) as (x & Hx & Hc). unfold f, named. rewrite Hx.
  pose proof (strncmp_loop_zero NAME_MAX _ _ Hc Hname) as Hz. case_bool_decide as Hd.
  - apply Hz in Hd. unfold rt_strncmp. by rewrite Hd.
  - destruct (Z.eqb_spec (rt_strncmp (ob_name x) name NAME_MAX) 0) as [E|E]; [|done]. by apply Hz in E.
Qed.

Lemma object_init_run k type i os R o x name v :
  rt_object_get_information cfg type = Some i -> registry k i os R -> chars name -> no_switch k ->
  objects k !! o = Some x -> nx (links k) (ObjNode o) = Some v -> ObjNode o ∉ nodes ((ObjHead i, ObjNode <$> os) :: R) ->
  exists k', rt_object_init prio_max cfg NAME_MAX o type name k = Ok (tt, k') /\ registry k' i (o :: os) R /\ no_switch k' /\
    objects k' = <[o := {x with ob_type := u8 (Z.lor type RT_Object_Class_Static); ob_name := rt_strncpy NAME_MAX name}]> (objects k).
Proof.
  intros Hi [Hr Hk] Hname Hn Hx Hv Hout. set (y := {x with ob_type := u8 (Z.lor type RT_Object_Class_Static); ob_name := rt_strncpy NAME_MAX name}).
  assert (o ∉ os) as Ho.
  { intros Ho. apply Hout. unfold nodes. apply list_elem_of_bind. exists (ObjHead i, ObjNode <$> os). split; [right; by apply list_elem_of_fmap_2|by left]. }
  set (k1 := {k with objects ::= <[o := y]> }).
  destruct (ring_insert_fresh (links k) (ObjHead i) (ObjNode o) [] (ObjNode <$> os) R v Hr Hv Hout) as (l & El & Hl).
  exists {k1 with links := l}. split; [|split; [split; [exact Hl|]|by split]].
  - unfold rt_object_init. rewrite Hi. rewrite bind_run with (a := tt) (s1 := k).
    2:{ unfold check_new. rewrite bind_run with (a := tt) (s1 := locked k) by done.
        erewrite bind_run; [|eapply (list_for_each_run ObjNode _ (fun (_ : unit) _ => (tt, false)) (locked k)); [exact Hr|]].
        2:{ intros a o' Ho'. erewrite bind_run; [|reflexivity]. rewrite bool_decide_eq_false_2 by congruence. done. }
        by apply exit_enter. }
    erewrite bind_run; [|by apply set_object_run; exact Hx]. fold y. by apply on_list_run.
  - intros o' Ho'. cbn. destruct (decide (o' = o)) as [->|Hne].
    + rewrite lookup_insert_eq. exists y. split; [done|]. by apply copy_chars.
    + rewrite lookup_insert_ne by done. apply Hk. apply elem_of_cons in Ho' as [?|?]; done.
Qed.

Lemma find_after_init k k' o x y name name' os :
  o ∉ os -> ob_name y = rt_strncpy NAME_MAX name -> objects k !! o = Some x -> objects k' = <[o := y]> (objects k) ->
  List.find (named k' name') (o :: os) = if decide (cname NAME_MAX name = cname NAME_MAX name') then Some o else List.find (named k name') os.
Proof.
  intros Ho Hy Hx Hk. cbn. unfold named at 1. rewrite Hk, lookup_insert_eq, Hy, cname_copy. case_decide as Hd.
  - by rewrite bool_decide_eq_true_2.
  - rewrite bool_decide_eq_false_2 by done. clear -Ho Hk. induction os as [|o' os IH]; [done|]. apply not_elem_of_cons in Ho as [Hne Ho]. cbn.
    unfold named at 1 3. rewrite Hk, lookup_insert_ne by done. by rewrite IH.
Qed.
End Registry.

(** Without RT_USING_SMART the array has no entry for custom objects, although the
    enumeration counts one: rt_custom_object_create finds no information for its class and
    fails its assertion. *)
Lemma custom_not_registered cfg : using_smart cfg = false -> rt_object_get_information cfg RT_Object_Class_Custom = None.
Proof.
  intros Hs. destruct cfg as [a b c d e f g h i j k]; cbn in Hs; subst k.
  destruct a, b, c, d, e, f, g, h, i, j; reflexivity.
Qed.
