(* ===== verification/RtTimer.v ===== *)
(** * RT-Thread: src/timer.c, the timers as objects

    Initialisation, stopping, control.  Starting a timer, which may resume the timer
    thread, is in RtTimerStart.  [level] is RT_TIMER_SKIP_LIST_LEVEL.  Function pointers
    are numbers, 0 is the null pointer. *)
From S2P Require Import Prelude Outcome RtList RtKernel RtSched RtObject.
#[local] Open Scope string_scope.
#[local] Open Scope list_scope.
#[local] Open Scope Z_scope.

Definition RT_TIMER_FLAG_DEACTIVATED : Z := 0x0.
Definition RT_TIMER_FLAG_ACTIVATED : Z := 0x1.
Definition RT_TIMER_FLAG_ONE_SHOT : Z := 0x0.
Definition RT_TIMER_FLAG_PERIODIC : Z := 0x2.
Definition RT_TIMER_FLAG_SOFT_TIMER : Z := 0x4.
Definition RT_TICK_MAX : Z := 0xffffffff.
(** [RT_TICK_MAX / 2] *)
Definition half_tick : Z := RT_TICK_MAX / 2.

Definition rt_tick_get : K Z := gets rt_tick.

(** [timer->parent.flag &= ~bits], [timer->parent.flag |= bits] *)
Definition clear_flag (t bits : Z) : K unit := set_object (OTimer t) (fun x => {x with ob_flag ::= (fun f => Z.land f (u8 (Z.lnot bits))) }).
Definition set_flag (t bits : Z) : K unit := set_object (OTimer t) (fun x => {x with ob_flag ::= (fun f => Z.lor f bits) }).
Definition has_flag (t bits : Z) : K bool := x ← object (OTimer t); mret (negb (Z.land (ob_flag x) bits =? 0)).

Section Timer.
Variables (prio_max : Z) (cfg : rt_config) (RT_NAME_MAX : nat) (rt_malloc : Z -> kernel -> option objid) (level : nat).

Definition timer_init (t timeout parameter time flag : Z) : K unit :=
  set_object (OTimer t) (fun x => {x with ob_flag := flag}) ;;
  clear_flag t RT_TIMER_FLAG_ACTIVATED ;;
  set_timer t (fun x => {x with timeout_func := timeout; tm_parameter := parameter; timeout_tick := 0; tm_init_tick := time}) ;;
  iter_list (fun i => on_list (rt_list_init (TimerRow t i))) (seq 0 level).

(** [rt_list_entry(node, struct rt_timer, row[i])] *)
Definition timer_entry (node : knode) : K Z :=
  match node with TimerRow t _ => mret t | _ => undef "an entry that is not a timer" end.

(** The error and the tick stored. *)
Definition timer_list_next_timeout (soft : bool) : K (Z * option Z) :=
  e ← on_list (rt_list_isempty (TimerHead soft (level - 1)));
  if negb e then
    n ← on_list (ld_next (TimerHead soft (level - 1)));
    t ← timer_entry n;
    x ← timer t;
    mret (RT_EOK, Some (timeout_tick x))
  else mret (- RT_ERROR, None).

Definition timer_remove (t : Z) : K unit :=
  iter_list (fun i => on_list (rt_list_remove (TimerRow t i))) (seq 0 level).

Definition assert_timer (t : Z) : K unit :=
  ty ← rt_object_get_type (OTimer t);
  assert_that (ty =? RT_Object_Class_Timer) "rt_object_get_type(&timer->parent) == RT_Object_Class_Timer".

Definition rt_timer_init (t : Z) (name : list Z) (timeout parameter time flag : Z) : K unit :=
  assert_that (negb (timeout =? 0)) "timeout != RT_NULL" ;;
  assert_that (time <? half_tick) "time < RT_TICK_MAX / 2" ;;
  rt_object_init prio_max cfg RT_NAME_MAX (OTimer t) RT_Object_Class_Timer name ;;
  timer_init t timeout parameter time flag.

Definition rt_timer_detach (t : Z) : K Z :=
  assert_timer t ;;
  sys ← rt_object_is_systemobject (OTimer t);
  assert_that sys "rt_object_is_systemobject(&timer->parent)" ;;
  timer_remove t ;;
  clear_flag t RT_TIMER_FLAG_ACTIVATED ;;
  rt_object_detach (OTimer t) ;;
  mret RT_EOK.

Definition rt_timer_create (name : list Z) (timeout parameter time flag : Z) : K (option Z) :=
  assert_that (negb (timeout =? 0)) "timeout != RT_NULL" ;;
  assert_that (time <? half_tick) "time < RT_TICK_MAX / 2" ;;
  o ← rt_object_allocate cfg RT_NAME_MAX rt_malloc RT_Object_Class_Timer name;
  match o with
  | None => mret None
  | Some (OTimer t) => timer_init t timeout parameter time flag ;; mret (Some t)
  | Some _ => undef "a block that is not a timer"
  end.

Definition rt_timer_delete (t : Z) : K Z :=
  assert_timer t ;;
  sys ← rt_object_is_systemobject (OTimer t);
  assert_that (negb sys) "rt_object_is_systemobject(&timer->parent) == RT_FALSE" ;;
  timer_remove t ;;
  clear_flag t RT_TIMER_FLAG_ACTIVATED ;;
  rt_object_delete (OTimer t) ;;
  mret RT_EOK.

Definition rt_timer_stop (t : Z) : K Z :=
  assert_timer t ;;
  a ← has_flag t RT_TIMER_FLAG_ACTIVATED;
  if negb a then mret (- RT_ERROR)
  else
    timer_remove t ;;
    clear_flag t RT_TIMER_FLAG_ACTIVATED ;;
    mret RT_EOK.

(** The commands, with the value that [arg] points at or is, and those that store a value
    there. *)
Inductive timer_ctrl :=
| SET_TIME (tick : Z)
| GET_TIME
| SET_ONESHOT
| SET_PERIODIC
| GET_STATE
| GET_REMAIN_TIME
| GET_FUNC
| SET_FUNC (func : Z)
| GET_PARM
| SET_PARM (parm : Z)
| UNKNOWN.

Definition rt_timer_control (t : Z) (cmd : timer_ctrl) : K (Z * option Z) :=
  assert_timer t ;;
  match cmd with
  | GET_TIME => x ← timer t; mret (RT_EOK, Some (tm_init_tick x))
  | SET_TIME tick =>
      assert_that (tick <? half_tick) "tick < RT_TICK_MAX / 2" ;;
      set_timer t (fun x => {x with tm_init_tick := tick}) ;; mret (RT_EOK, None)
  | SET_ONESHOT => clear_flag t RT_TIMER_FLAG_PERIODIC ;; mret (RT_EOK, None)
  | SET_PERIODIC => set_flag t RT_TIMER_FLAG_PERIODIC ;; mret (RT_EOK, None)
  | GET_STATE =>
      a ← has_flag t RT_TIMER_FLAG_ACTIVATED;
      mret (RT_EOK, Some (if a : bool then RT_TIMER_FLAG_ACTIVATED else RT_TIMER_FLAG_DEACTIVATED))
  | GET_REMAIN_TIME => x ← timer t; mret (RT_EOK, Some (timeout_tick x))
  | GET_FUNC => x ← timer t; mret (RT_EOK, Some (timeout_func x))
  | SET_FUNC func => set_timer t (fun x => {x with timeout_func := func}) ;; mret (RT_EOK, None)
  | GET_PARM => x ← timer t; mret (RT_EOK, Some (tm_parameter x))
  | SET_PARM parm => set_timer t (fun x => {x with tm_parameter := parm}) ;; mret (RT_EOK, None)
  | UNKNOWN => mret (RT_EOK, None)
  end.

Definition rt_system_timer_init : K unit :=
  iter_list (fun i => on_list (rt_list_init (TimerHead false i))) (seq 0 level).

Definition rt_timer_next_timeout_tick : K Z :=
  r ← timer_list_next_timeout false;
  mret (default RT_TICK_MAX r.2).
End Timer.
