(* ===== verification/RtThread.v ===== *)
(** * RT-Thread: src/thread.c

    The threads, but for the functions that start a thread's timer (RtTimerStart) and those
    that end a thread (RtThreadEnd).  The stack's contents, the scheduler of several
    processors, signals and light-weight processes are not modelled; of kernel/idle.c, the
    queue of defunct threads.  A function that calls rt_schedule continues here as it does
    when the thread is switched back to. *)
From S2P Require Import Prelude Outcome RtList RtKernel RtSched RtObject RtTimer.
#[local] Open Scope string_scope.
#[local] Open Scope list_scope.
#[local] Open Scope Z_scope.

Definition RT_THREAD_SUSPEND_INTERRUPTIBLE : Z := 0x04.
Definition RT_THREAD_SUSPEND : Z := RT_THREAD_SUSPEND_INTERRUPTIBLE.
Definition RT_THREAD_SUSPEND_KILLABLE : Z := 0x06.
Definition RT_THREAD_SUSPEND_UNINTERRUPTIBLE : Z := 0x07.
Definition RT_INTERRUPTIBLE : Z := 0.
Definition RT_KILLABLE : Z := 1.
Definition RT_UNINTERRUPTIBLE : Z := 2.
(** The timeout function of threads, as a function pointer. *)
Definition id_thread_timeout : Z := 1.

Definition rt_thread_self : K (option Z) := gets rt_current_thread.

(** [thread->stat & RT_THREAD_STAT_MASK], [thread->stat & RT_THREAD_SUSPEND_MASK] *)
Definition stat_of (x : rt_thread) : Z := Z.land (stat x) RT_THREAD_STAT_MASK.
Definition is_suspended (x : rt_thread) : bool := Z.land (stat x) RT_THREAD_SUSPEND_MASK =? RT_THREAD_SUSPEND_MASK.

(** [thread->remaining_tick = thread->init_tick; thread->stat |= RT_THREAD_STAT_YIELD] *)
Definition end_slice (x : rt_thread) : rt_thread :=
  {x with remaining_tick := th_init_tick x; stat ::= (fun s => Z.lor s RT_THREAD_STAT_YIELD) }.

Definition assert_thread (t : Z) : K unit :=
  ty ← rt_object_get_type (OThread t);
  assert_that (ty =? RT_Object_Class_Thread) "rt_object_get_type((rt_object_t)thread) == RT_Object_Class_Thread".

Definition rt_thread_defunct_enqueue (t : Z) : K unit := on_list (rt_list_insert_after DefunctHead (TList t)).

Definition rt_thread_defunct_dequeue : K (option Z) :=
  n ← on_list (ld_next DefunctHead);
  match n with
  | DefunctHead => mret None
  | TList t => on_list (rt_list_remove (TList t)) ;; mret (Some t)
  | _ => undef "an entry that is not a thread"
  end.

Section Thread.
Variables (prio_max : Z) (cfg : rt_config) (RT_NAME_MAX : nat) (rt_malloc : Z -> kernel -> option objid).
(** A block for a stack of this size. *)
Variable stack_malloc : Z -> kernel -> option Z.
Variable level : nat.

(** The priority attributes. *)
Definition with_priority (x : rt_thread) : rt_thread :=
  if two_level prio_max then
    {x with number := Z.shiftr (current_priority x) 3;
            number_mask := u32 (Z.shiftl 1 (Z.shiftr (current_priority x) 3));
            high_mask := u8 (Z.shiftl 1 (Z.land (current_priority x) 0x07))}
  else {x with number_mask := u32 (Z.shiftl 1 (current_priority x))}.

Definition thread_init (t : Z) (entry parameter stack_start size priority tick : Z) : K Z :=
  on_list (rt_list_init (TList t)) ;;
  assert_that (priority <? prio_max) "priority < RT_THREAD_PRIORITY_MAX" ;;
  set_thread t (fun x => {x with
    th_entry := entry; th_parameter := parameter; RtKernel.stack_addr := stack_start; RtKernel.stack_size := size;
    init_priority := priority; current_priority := priority; number_mask := 0; number := 0; high_mask := 0;
    th_init_tick := tick; remaining_tick := tick; th_error := RT_EOK; stat := RT_THREAD_INIT; cleanup := 0}) ;;
  when (using_mutex cfg) (
    on_list (rt_list_init (TakenHead t)) ;;
    set_thread t (fun x => {x with pending_object := None})) ;;
  when (using_event cfg) (set_thread t (fun x => {x with event_set := 0; event_info := 0})) ;;
  x ← thread t;
  o ← object (OThread t);
  rt_timer_init prio_max cfg RT_NAME_MAX level (thread_timer x) (ob_name o) id_thread_timeout t 0 RT_TIMER_FLAG_ONE_SHOT ;;
  mret RT_EOK.

Definition rt_thread_init (t : Z) (name : list Z) (entry parameter stack_start size priority tick : Z) : K Z :=
  assert_that (negb (stack_start =? 0)) "stack_start != RT_NULL" ;;
  rt_object_init prio_max cfg RT_NAME_MAX (OThread t) RT_Object_Class_Thread name ;;
  thread_init t entry parameter stack_start size priority tick.

Definition rt_thread_create (name : list Z) (entry parameter size priority tick : Z) : K (option Z) :=
  o ← rt_object_allocate cfg RT_NAME_MAX rt_malloc RT_Object_Class_Thread name;
  match o with
  | None => mret None
  | Some (OThread t) =>
      k ← get;
      match stack_malloc size k with
      | None => rt_object_delete (OThread t) ;; mret None
      | Some stack_start => thread_init t entry parameter stack_start size priority tick ;; mret (Some t)
      end
  | Some _ => undef "a block that is not a thread"
  end.

Definition rt_thread_set_suspend_state (t suspend_flag : Z) : K unit :=
  st ← (if suspend_flag =? RT_INTERRUPTIBLE then mret RT_THREAD_SUSPEND_INTERRUPTIBLE
        else if suspend_flag =? RT_KILLABLE then mret RT_THREAD_SUSPEND_KILLABLE
        else if suspend_flag =? RT_UNINTERRUPTIBLE then mret RT_THREAD_SUSPEND_UNINTERRUPTIBLE
        else abort "0");
  set_thread t (with_stat st).

Definition rt_thread_suspend_with_flag (t suspend_flag : Z) : K Z :=
  assert_thread t ;;
  k ← get;
  assert_that (bool_decide (rt_current_thread k = Some t)) "thread == rt_thread_self()" ;;
  x ← thread t;
  if negb (stat_of x =? RT_THREAD_READY) && negb (stat_of x =? RT_THREAD_RUNNING) then mret (- RT_ERROR)
  else
    rt_schedule_remove_thread prio_max t ;;
    rt_thread_set_suspend_state t suspend_flag ;;
    rt_timer_stop level (thread_timer x) ;;
    mret RT_EOK.

Definition rt_thread_suspend (t : Z) : K Z := rt_thread_suspend_with_flag t RT_UNINTERRUPTIBLE.

Definition rt_thread_resume (t : Z) : K Z :=
  assert_thread t ;;
  x ← thread t;
  if negb (is_suspended x) then mret (- RT_ERROR)
  else
    on_list (rt_list_remove (TList t)) ;;
    rt_timer_stop level (thread_timer x) ;;
    rt_schedule_insert_thread prio_max t ;;
    mret RT_EOK.

Definition rt_thread_startup (t : Z) : K Z :=
  x ← thread t;
  assert_that (stat_of x =? RT_THREAD_INIT) "(thread->stat & RT_THREAD_STAT_MASK) == RT_THREAD_INIT" ;;
  assert_thread t ;;
  set_thread t (fun x => {with_priority x with stat := RT_THREAD_SUSPEND}) ;;
  rt_thread_resume t ;;
  self ← rt_thread_self;
  when (bool_decide (is_Some self)) (rt_schedule prio_max) ;;
  mret RT_EOK.

Definition thread_timeout (t : Z) : K unit :=
  x ← thread t;
  assert_that (is_suspended x) "(thread->stat & RT_THREAD_SUSPEND_MASK) == RT_THREAD_SUSPEND_MASK" ;;
  assert_thread t ;;
  set_thread t (fun x => {x with th_error := - RT_ETIMEOUT}) ;;
  on_list (rt_list_remove (TList t)) ;;
  rt_schedule_insert_thread prio_max t ;;
  rt_schedule prio_max.

Definition rt_thread_yield : K Z :=
  t ← current;
  set_thread t end_slice ;;
  rt_schedule prio_max ;;
  mret RT_EOK.

(** rt_thread_control with RT_THREAD_CTRL_CHANGE_PRIORITY. *)
Definition change_priority (t prio : Z) : K Z :=
  assert_thread t ;;
  (if two_level prio_max || (prio <? 32) then mret tt else undef "a shift by more than 31") ;;
  x ← thread t;
  (if stat_of x =? RT_THREAD_READY then
     rt_schedule_remove_thread prio_max t ;;
     set_thread t (fun x => with_priority {x with current_priority := prio}) ;;
     rt_schedule_insert_thread prio_max t
   else set_thread t (fun x => with_priority {x with current_priority := prio})) ;;
  mret RT_EOK.

End Thread.
