(* ===== verification/RtTimerStart.v ===== *)
(** * RT-Thread: src/timer.c, the timers that run, and src/clock.c

    Starting a timer and checking for timers that are due.  [level] and [mask] are
    RT_TIMER_SKIP_LIST_LEVEL and RT_TIMER_SKIP_LIST_MASK, [soft] is RT_USING_TIMER_SOFT,
    [timer_thread] the thread that runs soft timers, [call] what a timeout function of the
    application does.  The clock's tick and the sleeping functions of src/thread.c follow. *)
From S2P Require Import Prelude Outcome RtList RtKernel RtSched RtObject RtTimer RtThread.
#[local] Open Scope string_scope.
#[local] Open Scope list_scope.
#[local] Open Scope Z_scope.

Definition RT_SOFT_TIMER_IDLE : Z := 1.
Definition RT_SOFT_TIMER_BUSY : Z := 0.

Section TimerStart.
Variables (prio_max : Z) (level : nat) (mask : Z) (soft : bool) (timer_thread : Z) (call : Z -> Z -> K unit).

(** [row_head[row_lvl] + 1]: the node of the next row in the same array. *)
Definition next_row (node : knode) : knode :=
  match node with
  | TimerHead s r => TimerHead s (S r)
  | TimerRow t r => TimerRow t (S r)
  | n => n
  end.

(** The walk along one row to the place of a timer due at [tick]: past the timers that are
    due before it or at the same time. *)
Fixpoint row_loop (fuel : nat) (head node : knode) (tick : Z) : K knode :=
  last ← on_list (ld_prev head);
  if bool_decide (node = last) then mret node
  else match fuel with
  | O => undef "a list that does not end"
  | S fuel' =>
      p ← on_list (ld_next node);
      t ← timer_entry p;
      x ← timer t;
      if u32 (timeout_tick x - tick) =? 0 then row_loop fuel' head p tick
      else if u32 (timeout_tick x - tick) <? half_tick then mret node
      else row_loop fuel' head p tick
  end.

(** [row_head] for the rows from [row] on. *)
Fixpoint find_rows (rows : nat) (softl : bool) (row : nat) (node : knode) (tick : Z) : K (list knode) :=
  match rows with
  | O => mret []
  | S rows' =>
      k ← get;
      n ← row_loop (size (links k)) (TimerHead softl row) node tick;
      l ← find_rows rows' softl (S row) (next_row n) tick;
      mret (n :: l)
  end.

(** The insertion into the rows below the last one, from the last but one on. *)
Fixpoint insert_rows (t : Z) (heads : list knode) (tst_nr : Z) : K unit :=
  match heads with
  | [] => mret tt
  | h :: heads' =>
      if Z.land tst_nr mask =? 0 then
        on_list (rt_list_insert_after h (TimerRow t (length heads'))) ;;
        insert_rows t heads' (Z.shiftr tst_nr (Z.shiftr (mask + 1) 1))
      else mret tt
  end.

(** The timer goes into the rows of the skip list. *)
Definition insert_timer (t : Z) (softl : bool) : K unit :=
  x ← timer t;
  row_head ← find_rows level softl 0 (TimerHead softl 0) (timeout_tick x);
  modify (fun k => {k with random_nr ::= (fun n => u32 (n + 1))}) ;;
  k ← get;
  match rev row_head with
  | h :: heads =>
      on_list (rt_list_insert_after h (TimerRow t (level - 1))) ;;
      insert_rows t heads (random_nr k)
  | [] => undef "row_head[RT_TIMER_SKIP_LIST_LEVEL - 1]"
  end.

Definition rt_timer_start (t : Z) : K Z :=
  assert_timer t ;;
  timer_remove level t ;;
  clear_flag t RT_TIMER_FLAG_ACTIVATED ;;
  now ← rt_tick_get;
  set_timer t (fun x => {x with timeout_tick := u32 (now + tm_init_tick x)}) ;;
  fl ← has_flag t RT_TIMER_FLAG_SOFT_TIMER;
  insert_timer t (soft && fl) ;;
  set_flag t RT_TIMER_FLAG_ACTIVATED ;;
  need_schedule ← (if soft && fl then
      k ← get;
      x ← thread timer_thread;
      if (soft_timer_status k =? RT_SOFT_TIMER_IDLE) && is_suspended x
      then rt_thread_resume prio_max level timer_thread ;; mret true
      else mret false
    else mret false);
  when need_schedule (rt_schedule prio_max) ;;
  mret RT_EOK.

(** The timeout function of a timer. *)
Definition call_timeout (f parameter : Z) : K unit :=
  if f =? id_thread_timeout then thread_timeout prio_max parameter else call f parameter.

(** The first timer of the list. *)
Definition first_timer (softl : bool) : K (option Z) :=
  e ← on_list (rt_list_isempty (TimerHead softl (level - 1)));
  if e : bool then mret None
  else n ← on_list (ld_next (TimerHead softl (level - 1))); t ← timer_entry n; mret (Some t).

(** A timer that is due leaves the list for the temporary one. *)
Definition take_timer (softl : bool) (t : Z) : K unit :=
  timer_remove level t ;;
  p ← has_flag t RT_TIMER_FLAG_PERIODIC;
  when (negb p) (clear_flag t RT_TIMER_FLAG_ACTIVATED) ;;
  on_list (rt_list_insert_after (TmpHead softl) (TimerRow t (level - 1))).

(** After the call, unless the timer was stopped or started by it: a periodic timer is
    started again. *)
Definition restart_timer (softl : bool) (t : Z) : K unit :=
  e ← on_list (rt_list_isempty (TmpHead softl));
  when (negb e) (
    on_list (rt_list_remove (TimerRow t (level - 1))) ;;
    p ← has_flag t RT_TIMER_FLAG_PERIODIC;
    a ← has_flag t RT_TIMER_FLAG_ACTIVATED;
    when (p && a) (clear_flag t RT_TIMER_FLAG_ACTIVATED ;; rt_timer_start t ;; mret tt)).

Definition run_timeout (t : Z) : K unit :=
  x ← timer t;
  modify (fun k => {k with timeouts ::= cons t}) ;;
  call_timeout (timeout_func x) (tm_parameter x).

(** One round of a loop of checks: the new current tick, or the end. *)
Definition check_timer (current_tick : Z) : K (option Z) :=
  f ← first_timer false;
  match f with
  | None => mret None
  | Some t =>
      x ← timer t;
      if u32 (current_tick - timeout_tick x) <? half_tick then
        take_timer false t ;;
        run_timeout t ;;
        now ← rt_tick_get;
        restart_timer false t ;;
        mret (Some now)
      else mret None
  end.

Fixpoint check_loop (fuel : nat) (current_tick : Z) : K unit :=
  match fuel with
  | O => undef "the checks do not end"
  | S fuel' =>
      r ← check_timer current_tick;
      match r with Some now => check_loop fuel' now | None => mret tt end
  end.

Definition rt_timer_check (fuel : nat) : K unit :=
  on_list (rt_list_init (TmpHead false)) ;;
  now ← rt_tick_get;
  check_loop fuel now.

Definition soft_status (s : Z) : K unit := modify (fun k => {k with soft_timer_status := s}).

Definition check_soft_timer : K bool :=
  f ← first_timer true;
  match f with
  | None => mret false
  | Some t =>
      x ← timer t;
      now ← rt_tick_get;
      if u32 (now - timeout_tick x) <? half_tick then
        take_timer true t ;;
        soft_status RT_SOFT_TIMER_BUSY ;;
        run_timeout t ;;
        soft_status RT_SOFT_TIMER_IDLE ;;
        restart_timer true t ;;
        mret true
      else mret false
  end.

Fixpoint soft_check_loop (fuel : nat) : K unit :=
  match fuel with
  | O => undef "the checks do not end"
  | S fuel' => r ← check_soft_timer; if r : bool then soft_check_loop fuel' else mret tt
  end.

Definition rt_soft_timer_check (fuel : nat) : K unit :=
  on_list (rt_list_init (TmpHead true)) ;;
  soft_check_loop fuel.

(** One round of the timer thread up to the check: it suspends itself when there is no
    timer; otherwise the ticks to sleep, if any. *)
Definition timer_thread_wait : K (option Z) :=
  r ← timer_list_next_timeout level true;
  match r with
  | (_, Some next_timeout) =>
      now ← rt_tick_get;
      mret (if u32 (next_timeout - now) <? half_tick then Some (u32 (next_timeout - now)) else None)
  | (_, None) =>
      t ← current;
      rt_thread_suspend_with_flag prio_max level t RT_UNINTERRUPTIBLE ;;
      rt_schedule prio_max ;;
      mret None
  end.
End TimerStart.

(** * RT-Thread: src/clock.c and the sleeping functions of src/thread.c

    [word] is the width of rt_ubase_t, [tps] is RT_TICK_PER_SECOND.  A function that
    sleeps is split at its call of rt_schedule: [.._return] is what the thread does when it
    runs again. *)

Definition RT_WAITING_FOREVER : Z := -1.

Section Clock.
Variables (prio_max : Z) (level : nat) (mask : Z) (soft : bool) (timer_thread : Z) (call : Z -> Z -> K unit) (word tps : Z).

Definition rt_tick_set (tick : Z) : K unit := modify (fun k => {k with rt_tick := tick}).

(** rt_tick_increase up to the call of rt_timer_check. *)
Definition tick_slice : K unit :=
  modify (fun k => {k with rt_tick ::= (fun n => u32 (n + 1))}) ;;
  t ← current;
  set_thread t (fun x => {x with remaining_tick ::= (fun n => wrap word (n - 1))}) ;;
  x ← thread t;
  when (remaining_tick x =? 0) (
    set_thread t end_slice ;;
    rt_schedule prio_max).

Definition rt_tick_increase (fuel : nat) : K unit :=
  tick_slice ;;
  rt_timer_check prio_max level mask soft timer_thread call fuel.

(** An [int] result. *)
Definition int (x : Z) : outcome Z := if bool_decide (in_s 32 x) then Ok x else Undef "signed overflow".

Definition rt_tick_from_millisecond (ms : Z) : outcome Z :=
  if ms <? 0 then Ok (u32 RT_WAITING_FOREVER)
  else
    a ← int (tps * Z.quot ms 1000);
    b ← int (tps * Z.rem ms 1000);
    c ← int (b + 999);
    Ok (u32 (u32 a + Z.quot c 1000)).

Definition rt_tick_get_millisecond : K Z :=
  now ← rt_tick_get;
  mret (if 1000 mod tps =? 0 then u32 (now * (1000 / tps)) else 0).

(** rt_thread_sleep: the error when it returns at once. *)
Definition rt_thread_sleep (tick : Z) : K (option Z) :=
  if tick =? 0 then mret (Some (- RT_EINVAL))
  else
    t ← current;
    assert_thread t ;;
    l ← rt_critical_level;
    assert_that (l =? 0) "0" ;;
    set_thread t (fun x => {x with th_error := RT_EOK}) ;;
    err ← rt_thread_suspend_with_flag prio_max level t RT_INTERRUPTIBLE;
    if err =? RT_EOK then
      x ← thread t;
      rt_timer_control (thread_timer x) (SET_TIME tick) ;;
      rt_timer_start prio_max level mask soft timer_thread (thread_timer x) ;;
      set_thread t (fun x => {x with th_error := - RT_EINTR}) ;;
      rt_schedule prio_max ;;
      mret None
    else mret (Some err).

(** [if (thread->error == -RT_ETIMEOUT) thread->error = RT_EOK] *)
Definition clear_timeout (x : rt_thread) : rt_thread :=
  if th_error x =? - RT_ETIMEOUT then {x with th_error := RT_EOK} else x.

Definition rt_thread_sleep_return (t : Z) : K Z :=
  set_thread t clear_timeout ;;
  mret RT_EOK.

Definition rt_thread_mdelay (ms : Z) : K (option Z) :=
  tick ← lift (rt_tick_from_millisecond ms);
  rt_thread_sleep tick.

(** rt_thread_delay_until: the new value of [*tick], and the error when the time has
    passed. *)
Definition rt_thread_delay_until (tick inc_tick : Z) : K (Z * option Z) :=
  t ← current;
  assert_thread t ;;
  set_thread t (fun x => {x with th_error := RT_EOK}) ;;
  cur_tick ← rt_tick_get;
  if u32 (cur_tick - tick) <? inc_tick then
    let tick := u32 (tick + inc_tick) in
    rt_thread_suspend_with_flag prio_max level t RT_UNINTERRUPTIBLE ;;
    x ← thread t;
    rt_timer_control (thread_timer x) (SET_TIME (u32 (tick - cur_tick))) ;;
    rt_timer_start prio_max level mask soft timer_thread (thread_timer x) ;;
    rt_schedule prio_max ;;
    mret (tick, None)
  else
    x ← thread t;
    mret (cur_tick, Some (th_error x)).

Definition rt_thread_delay_until_return (t : Z) : K Z :=
  set_thread t clear_timeout ;;
  x ← thread t;
  mret (th_error x).
End Clock.
