(* ===== verification/RtTimerFacts.v ===== *)
(** * Timers: the list of timers is sorted by deadline

    For RT_TIMER_SKIP_LIST_LEVEL = 1, the default.  A deadline is counted without wrap-around
    ([D], a number that [timeout_tick] holds the low 32 bits of); the code's comparisons of
    32-bit ticks agree with the order of deadlines as long as they are less than half the
    range apart. *)
From stdpp Require Import sorting.
From S2P Require Import Prelude Outcome RtList RtKernel RtSched RtObject RtTimer RtThread RtTimerStart.
#[local] Open Scope string_scope.
#[local] Open Scope list_scope.
#[local] Open Scope Z_scope.

Abbreviation kring := (knode * list knode)%type.

Definition row0 (t : Z) : knode := TimerRow t 0.

Record timers_inv (k : kernel) (s : bool) (D : Z -> Z) (ts : list Z) (R : list kring) : Prop := {
  ti_rings : rings (links k) ((TimerHead s 0, row0 <$> ts) :: R);
  ti_timer : forall t, t ∈ ts -> exists x, timers k !! t = Some x /\ timeout_tick x = u32 (D t);
  ti_sorted : StronglySorted (fun a b => D a <= D b) ts;
}.

(** The code's test that a timer is due later. *)
Definition later (x : rt_timer) (tick : Z) : bool :=
  negb (u32 (timeout_tick x - tick) =? 0) && (u32 (timeout_tick x - tick) <? half_tick).

(** Deadlines that 32-bit ticks can tell apart. *)
Definition near (d d' : Z) : Prop := d - 2 ^ 31 <= d' < d + half_tick.

Lemma u32_sub a b : u32 (u32 a - u32 b) = u32 (a - b).
Proof. unfold wrap. by rewrite <- Zminus_mod. Qed.

Lemma later_deadline x d d' : timeout_tick x = u32 d' -> near d d' -> later x (u32 d) = (d <? d').
Proof.
  intros E [H1 H2]. unfold later. rewrite E, u32_sub. unfold half_tick, RT_TICK_MAX in *. change (0xffffffff / 2) with (2 ^ 31 - 1) in *.
  unfold wrap. destruct (Z.ltb_spec d d').
  - rewrite Z.mod_small by lia. rewrite (proj2 (Z.eqb_neq _ _)), (proj2 (Z.ltb_lt _ _)) by lia. done.
  - destruct (decide (d' = d)) as [->|]; [by rewrite Z.sub_diag|].
    replace ((d' - d) mod 2 ^ 32) with (d' - d + 2 ^ 32) by (rewrite <- (Z.mod_small (d' - d + 2 ^ 32) (2 ^ 32)) at 1 by lia; symmetry; rewrite <- (Z_mod_plus_full _ 1); f_equal; lia).
    rewrite (proj2 (Z.ltb_ge _ _)) by lia. apply andb_false_r.
Qed.

(** The walk stops in front of the first timer that is due later. *)
Lemma row_loop_run k s tick post pre R fuel :
  rings (links k) ((TimerHead s 0, row0 <$> (pre ++ post)) :: R) ->
  (forall t, t ∈ post -> exists x, timers k !! t = Some x) -> (length post < fuel)%nat ->
  exists pre' post', post = pre' ++ post' /\
    row_loop fuel (TimerHead s 0) (default (TimerHead s 0) (last (row0 <$> pre))) tick k = Ok (default (TimerHead s 0) (last (row0 <$> (pre ++ pre'))), k) /\
    (forall t x, t ∈ pre' -> timers k !! t = Some x -> later x tick = false) /\
    (forall t x, head post' = Some t -> timers k !! t = Some x -> later x tick = true).
Proof.
  revert pre fuel. induction post as [|t post IH]; intros pre fuel Hr Ht Hf; destruct fuel as [|fuel]; [lia| |lia|]; cbn [row_loop].
  - exists [], []. split; [done|]. rewrite app_nil_r in *. split; [|by split; [intros ? ? ?%not_elem_of_nil|]].
    erewrite bind_run; [|apply on_list_read; by rewrite (ring_prev _ _ _ _ Hr)]. by rewrite bool_decide_eq_true_2.
  - pose proof (rings_nodup _ _ _ _ Hr) as Hnd.
    erewrite bind_run; [|apply on_list_read; by rewrite (ring_prev _ _ _ _ Hr)].
    rewrite fmap_app, fmap_cons in Hnd, Hr |- *. rewrite bool_decide_eq_false_2 by (by apply last_apart).
    erewrite bind_run; [|apply on_list_read, ld_next_run; exact (proj1 (ring_link _ _ (row0 t) _ _ _ Hr))].
    cbn [head default]. change (timer_entry (row0 t)) with (mret (M := ST kernel) t). erewrite bind_run; [|reflexivity].
    destruct (Ht t) as [x Hx]; [by left|]. erewrite bind_run; [|by apply timer_run].
    destruct (later x tick) eqn:El.
    + exists [], (t :: post). unfold later in El. apply andb_true_iff in El as [E1 E2]. apply negb_true_iff in E1. rewrite E1, E2.
      rewrite app_nil_r. split; [done|]. split; [done|]. split; [by intros ? ? ?%not_elem_of_nil|].
      intros t' x' [= <-] Hx'. assert (x' = x) as -> by congruence. unfold later. by rewrite E1, E2.
    + destruct (IH (pre ++ [t]) fuel) as (pre' & post' & -> & E & H1 & H2); [| |cbn in Hf; lia|].
      * by rewrite <- app_assoc, !fmap_app.
      * intros t' Hin. apply Ht. by right.
      * exists (t :: pre'), post'. split; [done|]. split; [|split; [|done]].
        -- replace (row0 <$> pre ++ [t]) with ((row0 <$> pre) ++ [row0 t]) in E by (by rewrite fmap_app). rewrite last_snoc in E. cbn [default] in E. rewrite <- app_assoc in E. unfold later in El.
           destruct (u32 (timeout_tick x - tick) =? 0); [exact E|]. cbn in El. by rewrite El.
        -- intros t' x' Hin Hx'. apply elem_of_cons in Hin as [->|Hin]; [by assert (x' = x) as -> by congruence|by eapply H1].
Qed.

(** ** Where a timer goes *)

(** After those due before it or at the same time. *)
Definition place (D : Z -> Z) (d t : Z) (ts : list Z) : list Z :=
  filter (fun t' => D t' <= d) ts ++ t :: filter (fun t' => d < D t') ts.

Lemma filter_none {A} (P : A -> Prop) `{!forall x, Decision (P x)} l : Forall (fun x => ~ P x) l -> filter P l = [].
Proof. induction 1; [done|]. by rewrite filter_cons_False. Qed.
Lemma filter_every {A} (P : A -> Prop) `{!forall x, Decision (P x)} l : Forall P l -> filter P l = l.
Proof. induction 1 as [|? ? ? ? IH]; [done|]. by rewrite filter_cons_True, IH. Qed.

Lemma place_split D d t l1 l2 :
  Forall (fun t' => D t' <= d) l1 -> Forall (fun t' => d < D t') l2 -> place D d t (l1 ++ l2) = l1 ++ t :: l2.
Proof.
  intros H1 H2. unfold place. rewrite !filter_app, (filter_every (fun t' => D t' <= d) l1), (filter_every (fun t' => d < D t') l2) by done.
  rewrite (filter_none (fun t' => D t' <= d) l2), (filter_none (fun t' => d < D t') l1); [by rewrite app_nil_r|by eapply Forall_impl; [exact H1|]; cbn; intros; lia|by eapply Forall_impl; [exact H2|]; cbn; intros; lia].
Qed.

Lemma place_sorted D d t ts : D t = d ->
  StronglySorted (fun a b => D a <= D b) ts -> StronglySorted (fun a b => D a <= D b) (place D d t ts).
Proof.
  intros Ed Hs. assert (forall P `{!forall x : Z, Decision (P x)}, StronglySorted (fun a b => D a <= D b) (filter P ts)) as Hf.
  { intros P HP. induction Hs as [|a l Hl IH Ha]; [constructor|]. rewrite filter_cons. case_decide; [|done].
    apply StronglySorted_cons. split; [|done]. rewrite Forall_forall in *. intros b [_ Hb]%list_elem_of_filter. by apply Ha. }
  unfold place. apply StronglySorted_app. split; [|split; [apply Hf|]].
  - intros a b [Ha _]%list_elem_of_filter Hb. apply elem_of_cons in Hb as [->|[Hb _]%list_elem_of_filter]; lia.
  - apply StronglySorted_cons. split; [|apply Hf]. apply Forall_forall. intros b [Hb _]%list_elem_of_filter. lia.
Qed.

Lemma elem_of_place D d t ts t' : t' ∈ place D d t ts <-> t' = t \/ t' ∈ ts.
Proof.
  unfold place. rewrite elem_of_app, elem_of_cons, !list_elem_of_filter. split; [naive_solver|].
  intros [->|H]; [by auto|]. destruct (Z.le_gt_cases (D t') d); auto with lia.
Qed.

(** ** The insertion *)

Lemma insert_timer_run k s D ts R mask t x d :
  timers_inv k s D ts ((row0 t, []) :: R) -> timers k !! t = Some x -> timeout_tick x = u32 d -> Forall (fun t' => near d (D t')) ts ->
  exists l, insert_timer 1 mask t s k = Ok (tt, {k with links := l; random_nr := u32 (random_nr k + 1)}) /\
    rings l ((TimerHead s 0, row0 <$> place D d t ts) :: R).
Proof.
  intros [Hr Ht Hs] Hx Ed Hn. unfold insert_timer. erewrite bind_run; [|by apply timer_run].
  pose proof Hr as Hsize%ring_size. rewrite length_fmap in Hsize.
  destruct (row_loop_run k s (timeout_tick x) ts [] _ (base.size (links k)) Hr) as (pre & post & -> & E & H1 & H2);
    [intros t' Hin; destruct (Ht t' Hin) as (? & ? & _); eauto|done|].
  rewrite Forall_forall in Hn. assert (forall t' x', t' ∈ pre ++ post -> timers k !! t' = Some x' -> later x' (timeout_tick x) = (d <? D t')) as Hl.
  { intros t' x' Hin Hx'. destruct (Ht t' Hin) as (x2 & Hx2 & E2). assert (x2 = x') as -> by congruence. rewrite Ed. apply later_deadline; [done|]. by apply Hn. }
  rewrite place_split.
  2:{ apply Forall_forall. intros t' Hin. assert (t' ∈ pre ++ post) as Hin' by (apply elem_of_app; by left).
      destruct (Ht t' Hin') as (x' & Hx' & _). specialize (H1 t' x' Hin Hx'). rewrite (Hl t' x' Hin' Hx') in H1. lia. }
  2:{ apply StronglySorted_app in Hs as (_ & _ & Hs). destruct post as [|b post]; [constructor|].
      assert (b ∈ pre ++ b :: post) as Hin by (apply elem_of_app; right; by left). destruct (Ht b Hin) as (x' & Hx' & _).
      specialize (H2 b x' eq_refl Hx'). rewrite (Hl b x' Hin Hx') in H2. apply StronglySorted_cons in Hs as [Hs _].
      apply Forall_cons. split; [lia|]. eapply Forall_impl; [exact Hs|]. cbn. intros. lia. }
  rewrite fmap_app, fmap_cons. rewrite fmap_app in Hr.
  destruct (ring_insert_after (links k) (TimerHead s 0) (row0 t) (row0 <$> pre) (row0 <$> post) R Hr) as (l & El & Hrl).
  exists l. split; [|done]. cbn [find_rows app] in *. rewrite bind_run with (a := [default (TimerHead s 0) (last (row0 <$> pre))]) (s1 := k).
  2:{ erewrite bind_run; [|reflexivity]. cbn [last fmap list_fmap default] in E. erewrite bind_run; [|exact E]. reflexivity. }
  erewrite bind_run; [|reflexivity]. erewrite bind_run; [|reflexivity]. cbn [rev app Nat.sub].
  erewrite bind_run; [|by apply on_list_run; exact El]. reflexivity.
Qed.

(** ** rt_timer_start *)

Definition set_deadline (D : Z -> Z) (t d : Z) : Z -> Z := fun t' => if decide (t' = t) then d else D t'.
Lemma set_deadline_eq D t d : set_deadline D t d t = d.
Proof. unfold set_deadline. by rewrite decide_True. Qed.
Lemma set_deadline_ne D t d t' : t' <> t -> set_deadline D t d t' = D t'.
Proof. intros. unfold set_deadline. by rewrite decide_False. Qed.

(** The timers and the other lists once the timer [t] is taken out of its list, if it is in
    one. *)
Definition detached (t : Z) (ts : list Z) (R : list kring) (ts' : list Z) (R' : list kring) : Prop :=
  (exists pre post, ts = pre ++ t :: post /\ ts' = pre ++ post /\ R ≡ₚ R') \/ (ts' = ts /\ R ≡ₚ (row0 t, []) :: R').

Lemma timers_inv_perm k s D ts R R' : R ≡ₚ R' -> timers_inv k s D ts R -> timers_inv k s D ts R'.
Proof. intros HR [H1 H2 H3]. split; [by rewrite <- HR|done|done]. Qed.

Lemma timers_inv_nodup k s D ts R : timers_inv k s D ts R -> NoDup ts.
Proof. intros [Hr _ _]. apply rings_nodup in Hr. apply NoDup_cons in Hr as [_ Hr]. by apply NoDup_fmap_1 in Hr. Qed.

Lemma timers_inv_alone k s D ts t R : timers_inv k s D ts ((row0 t, []) :: R) -> t ∉ ts.
Proof.
  intros [[_ Hnd] _ _] Hin. unfold nodes in Hnd. cbn in Hnd. apply NoDup_cons in Hnd as [_ Hnd]. apply NoDup_app in Hnd as (_ & Hd & _).
  apply (Hd (row0 t)); [by apply list_elem_of_fmap_2|by left].
Qed.

Lemma timer_remove_run k s D ts R t ts' R' :
  timers_inv k s D ts R -> detached t ts R ts' R' ->
  exists l, timer_remove 1 t k = Ok (tt, {k with links := l}) /\ timers_inv {k with links := l} s D ts' ((row0 t, []) :: R').
Proof.
  intros Hinv [(pre & post & -> & -> & HR)|[-> HR]]; apply (timers_inv_perm _ _ _ _ _ _ HR) in Hinv as [Hr Ht Hs].
  - rewrite fmap_app, fmap_cons in Hr. destruct (ring_remove _ _ _ _ _ _ Hr) as (l & E & Hl).
    exists l. split; [unfold timer_remove; cbn [seq iter_list]; by erewrite bind_run; [|by apply on_list_run; exact E]|].
    split; [by rewrite fmap_app| |].
    + intros t' Hin. apply Ht. rewrite elem_of_app, elem_of_cons in *. tauto.
    + apply StronglySorted_app in Hs as (H1 & H2 & H3). apply StronglySorted_cons in H3 as [_ H3]. apply StronglySorted_app.
      split; [|done]. intros a b Ha Hb. apply H1; [done|by right].
  - exists (links k). assert ({k with links := links k} = k) as -> by (by destruct k). split; [|done].
    unfold timer_remove. cbn [seq iter_list]. erewrite bind_run; [done|]. apply on_list_read. rewrite (Permutation_swap (row0 t, [])) in Hr.
    by eapply ring_remove_single.
Qed.

Definition is_timer (o : rt_object) : Prop := Z.land (ob_type o) (u8 (Z.lnot RT_Object_Class_Static)) = RT_Object_Class_Timer.
Definition flag_set (o : rt_object) (bits : Z) : bool := negb (Z.land (ob_flag o) bits =? 0).
Definition without (bits : Z) (o : rt_object) : rt_object := {o with ob_flag ::= (fun f => Z.land f (u8 (Z.lnot bits))) }.
Definition with_flag (bits : Z) (o : rt_object) : rt_object := {o with ob_flag ::= (fun f => Z.lor f bits) }.

Lemma assert_timer_run k t o : objects k !! OTimer t = Some o -> is_timer o -> assert_timer t k = Ok (tt, k).
Proof.
  intros Eo Ht. unfold assert_timer, rt_object_get_type. erewrite bind_run; [|erewrite bind_run; [|by apply object_run]; reflexivity].
  by rewrite Ht.
Qed.
Lemma has_flag_run k t o bits : objects k !! OTimer t = Some o -> has_flag t bits k = Ok (flag_set o bits, k).
Proof. intros Eo. unfold has_flag. by erewrite bind_run; [|by apply object_run]. Qed.

(** What starting a timer leaves alone. *)
Record timers_rest (k k' : kernel) : Prop := {
  tr_threads : threads k' = threads k;
  tr_group : rt_thread_ready_priority_group k' = rt_thread_ready_priority_group k;
  tr_table : rt_thread_ready_table k' = rt_thread_ready_table k;
  tr_lock : rt_scheduler_lock_nest k' = rt_scheduler_lock_nest k;
  tr_current : rt_current_thread k' = rt_current_thread k;
  tr_tick : rt_tick k' = rt_tick k;
  tr_timeouts : timeouts k' = timeouts k;
  tr_semaphores : semaphores k' = semaphores k;
  tr_mutexes : mutexes k' = mutexes k;
  tr_events : events k' = events k;
  tr_mailboxes : mailboxes k' = mailboxes k;
  tr_messagequeues : messagequeues k' = messagequeues k;
  tr_mempools : mempools k' = mempools k;
  tr_words : block_words k' = block_words k;
}.

Lemma land_soft f : Z.land (Z.lor (Z.land f (u8 (Z.lnot RT_TIMER_FLAG_ACTIVATED))) 0) RT_TIMER_FLAG_SOFT_TIMER = Z.land f RT_TIMER_FLAG_SOFT_TIMER.
Proof. by rewrite Z.lor_0_r, <- Z.land_assoc. Qed.

Lemma timer_start_run prio_max mask soft timer_thread k D ts R t ts' R' x o T :
  timers_inv k false D ts R -> detached t ts R ts' R' ->
  timers k !! t = Some x -> objects k !! OTimer t = Some o -> is_timer o -> soft && flag_set o RT_TIMER_FLAG_SOFT_TIMER = false ->
  rt_tick k = u32 T -> Forall (fun t' => near (T + tm_init_tick x) (D t')) ts' ->
  exists k', let d := T + tm_init_tick x in let D' := set_deadline D t d in
    rt_timer_start prio_max 1 mask soft timer_thread t k = Ok (RT_EOK, k') /\ timers_inv k' false D' (place D' d t ts') R' /\
    timers k' = <[t := {x with timeout_tick := u32 d}]> (timers k) /\
    objects k' = <[OTimer t := with_flag RT_TIMER_FLAG_ACTIVATED (without RT_TIMER_FLAG_ACTIVATED o)]> (objects k) /\
    timers_rest k k'.
Proof.
  intros Hinv Hdet Hx Ho Hty Hsoft HT Hnear. set (d := T + tm_init_tick x) in *. set (D' := set_deadline D t d).
  destruct (timer_remove_run _ _ _ _ _ _ _ _ Hinv Hdet) as (l1 & E1 & Hinv1). pose proof (timers_inv_alone _ _ _ _ _ _ Hinv1) as Hout.
  set (k1 := {k with links := l1}) in *. set (o1 := without RT_TIMER_FLAG_ACTIVATED o). set (x1 := {x with timeout_tick := u32 d}).
  set (k2 := {k1 with objects ::= <[OTimer t := o1]> }). set (k3 := {k2 with timers ::= <[t := x1]> }).
  assert (forall t', t' ∈ ts' -> D' t' = D t') as HD by (intros t' Hin; apply set_deadline_ne; congruence).
  assert (timers_inv k3 false D' ts' ((row0 t, []) :: R')) as Hinv3.
  { destruct Hinv1 as [Hr Ht Hs]. split; [exact Hr| |].
    - intros t' Hin. rewrite HD by done. destruct (Ht t' Hin) as (x' & Hx' & E'). exists x'. split; [|done].
      unfold k3. cbn. rewrite lookup_insert_ne by congruence. exact Hx'.
    - clear -Hs HD. induction Hs as [|a l Hl IH Ha]; [constructor|]. apply StronglySorted_cons. split.
      + rewrite Forall_forall in *. intros b Hb. rewrite !HD by (by (left + right)). by apply Ha.
      + apply IH. intros t' Hin. apply HD. by right. }
  assert (timers k3 !! t = Some x1) as Hx3 by (unfold k3; cbn; by rewrite lookup_insert_eq).
  destruct (insert_timer_run k3 false D' ts' R' mask t x1 d Hinv3 Hx3 eq_refl) as (l & E3 & Hl).
  { rewrite Forall_forall in *. intros t' Hin. rewrite HD by done. by apply Hnear. }
  eexists. cbv zeta. split; [|split; [|split; [|split]]].
  - unfold rt_timer_start. erewrite bind_run; [|by eapply assert_timer_run]. erewrite bind_run; [|exact E1].
    erewrite bind_run; [|by apply set_object_run]. fold o1 k2. rewrite bind_run with (a := rt_tick k) (s1 := k2) by done. rewrite HT.
    assert (u32 (u32 T + tm_init_tick x) = u32 d) as Hu by (unfold wrap, d; by rewrite Z.add_mod_idemp_l).
    rewrite bind_run with (a := tt) (s1 := k3) by (rewrite (set_timer_run _ _ k2 x Hx); cbv beta; rewrite Hu; reflexivity).
    assert (objects k3 !! OTimer t = Some o1) as Ho3 by (unfold k3, k2; cbn; by rewrite lookup_insert_eq).
    assert (flag_set o1 RT_TIMER_FLAG_SOFT_TIMER = flag_set o RT_TIMER_FLAG_SOFT_TIMER) as Hso.
    { unfold flag_set, o1, without. cbn. by rewrite <- Z.land_assoc. }
    erewrite bind_run; [|by apply has_flag_run; exact Ho3]. rewrite Hso.
    rewrite Hsoft. erewrite bind_run; [|exact E3].
    erewrite bind_run; [|by apply set_object_run; exact Ho3].
    erewrite bind_run; [|reflexivity]. reflexivity.
  - split; [exact Hl| |by apply place_sorted; [apply set_deadline_eq|apply Hinv3]].
    intros t' [->|Hin]%elem_of_place; [exists x1; by rewrite set_deadline_eq|by apply Hinv3].
  - done.
  - cbn. by rewrite insert_insert_eq.
  - by split.
Qed.

(** * Timers: rt_timer_check runs what is due

    For timers of the application whose functions leave the timers alone ([quiet]):
    rt_timer_check returns, having called the functions of the timers that are due, once
    each, in the order of their deadlines. *)

(** What the timers consist of. *)
Record same_timers (k k' : kernel) : Prop := {
  st_links : links k' = links k;
  st_timers : timers k' = timers k;
  st_objects : objects k' = objects k;
  st_tick : rt_tick k' = rt_tick k;
  st_timeouts : timeouts k' = timeouts k;
}.

Definition quiet (call : Z -> Z -> K unit) : Prop := forall f p k, exists k', call f p k = Ok (tt, k') /\ same_timers k k'.

Section Check.
Variables (prio_max mask : Z) (soft : bool) (timer_thread : Z) (call : Z -> Z -> K unit).
Context (Hquiet : quiet call).
(** Which timers are periodic, and the ticks they are set to. *)
Variables (P : Z -> bool) (I : Z -> Z).

(** A hard timer of the application that is active. *)
Record armed (k : kernel) (t : Z) (x : rt_timer) (o : rt_object) : Prop := {
  ar_timer : timers k !! t = Some x;
  ar_object : objects k !! OTimer t = Some o;
  ar_func : timeout_func x <> id_thread_timeout;
  ar_init : tm_init_tick x = I t;
  ar_type : is_timer o;
  ar_active : flag_set o RT_TIMER_FLAG_ACTIVATED = true;
  ar_periodic : flag_set o RT_TIMER_FLAG_PERIODIC = P t;
  ar_hard : soft && flag_set o RT_TIMER_FLAG_SOFT_TIMER = false;
}.

Abbreviation start := (rt_timer_start prio_max 1 mask soft timer_thread).
Abbreviation tmp := (TmpHead false).

Lemma first_timer_run k D t ts R : timers_inv k false D (t :: ts) R -> first_timer 1 false k = Ok (Some t, k).
Proof using Type.
  intros [Hr _ _]. unfold first_timer. cbn [Nat.sub].
  erewrite bind_run; [|apply on_list_read; by rewrite (ring_isempty _ _ _ _ Hr)]. rewrite bool_decide_eq_false_2 by done.
  erewrite bind_run; [|apply on_list_read; by rewrite (ring_next _ _ _ _ Hr)]. done.
Qed.
Lemma first_timer_none k D R : timers_inv k false D [] R -> first_timer 1 false k = Ok (None, k).
Proof using Type.
  intros [Hr _ _]. unfold first_timer. cbn [Nat.sub].
  erewrite bind_run; [|apply on_list_read; by rewrite (ring_isempty _ _ _ _ Hr)]. done.
Qed.

Lemma timers_inv_links k k' D ts R s :
  rings (links k') ((TimerHead s 0, row0 <$> ts) :: R) -> (forall t, t ∈ ts -> timers k' !! t = timers k !! t) ->
  forall R', timers_inv k s D ts R' -> timers_inv k' s D ts R.
Proof using Type. intros Hr Hk R' [_ Ht Hs]. split; [done| |done]. intros t Hin. rewrite Hk by done. by apply Ht. Qed.

(** The flag of a timer that has left the list. *)
Definition taken (t : Z) (o : rt_object) : rt_object := if P t then o else without RT_TIMER_FLAG_ACTIVATED o.

Lemma take_timer_run k D t ts R x o :
  timers_inv k false D (t :: ts) ((tmp, []) :: R) -> armed k t x o ->
  exists l, take_timer 1 false t k = Ok (tt, {k with links := l; objects := <[OTimer t := taken t o]> (objects k)}) /\
    rings l ((TimerHead false 0, row0 <$> ts) :: (tmp, [row0 t]) :: R).
Proof using Type.
  intros Hinv [Hx Ho _ _ _ _ Hp _]. destruct (timer_remove_run k false D (t :: ts) ((tmp, []) :: R) t ts ((tmp, []) :: R) Hinv) as (l1 & E1 & [Hr1 _ _]).
  { left. by exists [], ts. }
  set (k1 := {k with links := l1}) in *. set (k2 := {k1 with objects := <[OTimer t := taken t o]> (objects k)}).
  assert (rings l1 ((tmp, []) :: (row0 t, []) :: (TimerHead false 0, row0 <$> ts) :: R)) as Hr2.
  { assert ((tmp, []) :: (row0 t, []) :: (TimerHead false 0, row0 <$> ts) :: R ≡ₚ (TimerHead false 0, row0 <$> ts) :: (row0 t, []) :: (tmp, []) :: R) as -> by solve_Permutation.
    exact Hr1. }
  destruct (ring_insert_after l1 tmp (row0 t) [] [] _ Hr2) as (l & El & Hl). exists l. split.
  - unfold take_timer. erewrite bind_run; [|exact E1]. erewrite bind_run; [|by apply has_flag_run]. rewrite Hp.
    rewrite bind_run with (a := tt) (s1 := k2).
    2:{ unfold taken in k2. unfold k2. destruct (P t); cbn [negb when]; [|by apply set_object_run]. unfold mret, st_ret. do 2 f_equal. rewrite insert_id by done. by destruct k. }
    rewrite (on_list_run _ k2 tt l); [done|exact El].
  - by rewrite Permutation_swap.
Qed.

Lemma run_timeout_run k t x : timers k !! t = Some x -> timeout_func x <> id_thread_timeout ->
  exists k', run_timeout prio_max call t k = Ok (tt, k') /\ same_timers {k with timeouts := t :: timeouts k} k'.
Proof using Hquiet.
  intros Hx Hf. unfold run_timeout. erewrite bind_run; [|by apply timer_run]. erewrite bind_run; [|reflexivity].
  unfold call_timeout. rewrite (proj2 (Z.eqb_neq _ _) Hf). apply Hquiet.
Qed.

(** After the call: a timer that is not periodic stays out. *)
Lemma restart_oneshot k D t ts R o :
  timers_inv k false D ts ((tmp, [row0 t]) :: R) -> objects k !! OTimer t = Some (taken t o) -> P t = false -> flag_set o RT_TIMER_FLAG_PERIODIC = P t ->
  exists l, restart_timer prio_max 1 mask soft timer_thread false t k = Ok (tt, {k with links := l}) /\
    timers_inv {k with links := l} false D ts ((tmp, []) :: (row0 t, []) :: R).
Proof using Type.
  intros Hinv Ho HP Hp. pose proof Hinv as [Hr _ _]. rewrite Permutation_swap in Hr.
  destruct (ring_remove _ tmp (row0 t) [] [] _ Hr) as (l & El & Hl). exists l. split.
  - unfold restart_timer. erewrite bind_run; [|apply on_list_read; by rewrite (ring_isempty _ _ _ _ Hr)]. cbn [negb when bool_decide].
    rewrite bool_decide_eq_false_2 by done. cbn [negb when]. erewrite bind_run; [|by apply on_list_run; exact El].
    erewrite bind_run; [|by apply has_flag_run; exact Ho]. erewrite bind_run; [|by apply has_flag_run; exact Ho].
    assert (flag_set (taken t o) RT_TIMER_FLAG_PERIODIC = false) as ->; [|done].
    unfold taken. rewrite HP. rewrite HP in Hp. rewrite <- Hp. unfold flag_set, without. cbn. by rewrite <- Z.land_assoc.
  - eapply (timers_inv_links k); [|done|exact Hinv].
    assert ((TimerHead false 0, row0 <$> ts) :: (tmp, []) :: (row0 t, []) :: R ≡ₚ (tmp, []) :: (row0 t, []) :: (TimerHead false 0, row0 <$> ts) :: R) as -> by solve_Permutation.
    exact Hl.
Qed.

(** A periodic one is started again. *)
Lemma restart_periodic k D t ts R x o T :
  timers_inv k false D ts ((tmp, [row0 t]) :: R) -> armed k t x o -> P t = true -> rt_tick k = u32 T -> Forall (fun t' => near (T + I t) (D t')) ts ->
  exists k', let D' := set_deadline D t (T + I t) in
    restart_timer prio_max 1 mask soft timer_thread false t k = Ok (tt, k') /\ timers_inv k' false D' (place D' (T + I t) t ts) ((tmp, []) :: R) /\
    timers k' = <[t := {x with timeout_tick := u32 (T + I t)}]> (timers k) /\
    (exists o', objects k' = <[OTimer t := o']> (objects k) /\ armed k' t {x with timeout_tick := u32 (T + I t)} o') /\ timers_rest k k'.
Proof using Type.
  intros Hinv [Hx Ho Hf Hi Hty Ha Hp Hh] HP HT Hn. pose proof Hinv as [Hr _ _]. rewrite Permutation_swap in Hr.
  destruct (ring_remove _ tmp (row0 t) [] [] _ Hr) as (l & El & Hl). set (k1 := {k with links := l}).
  set (o1 := without RT_TIMER_FLAG_ACTIVATED o). set (k2 := {k1 with objects ::= <[OTimer t := o1]> }).
  assert (timers_inv k2 false D ts ((row0 t, []) :: (tmp, []) :: R)) as Hinv2.
  { eapply (timers_inv_links k); [|done|exact Hinv].
    assert ((TimerHead false 0, row0 <$> ts) :: (row0 t, []) :: (tmp, []) :: R ≡ₚ (tmp, []) :: (row0 t, []) :: (TimerHead false 0, row0 <$> ts) :: R) as -> by solve_Permutation.
    exact Hl. }
  assert (objects k2 !! OTimer t = Some o1) as Ho2 by (unfold k2; cbn; by rewrite lookup_insert_eq).
  destruct (timer_start_run prio_max mask soft timer_thread k2 D ts _ t ts ((tmp, []) :: R) x o1 T Hinv2) as (k' & E & Hinv' & Hti & Hob & Hrest);
    [by right|done|done|done| |done|by rewrite Hi|].
  { rewrite <- Hh. f_equal. unfold flag_set, o1, without. cbn. by rewrite <- Z.land_assoc. }
  rewrite Hi in Hinv', Hti. exists k'. cbv zeta. split; [|split; [exact Hinv'|split; [exact Hti|split; [|by destruct Hrest]]]].
  - unfold restart_timer. erewrite bind_run; [|apply on_list_read; by rewrite (ring_isempty _ _ _ _ Hr)].
    rewrite bool_decide_eq_false_2 by done. cbn [negb when]. erewrite bind_run; [|by apply on_list_run; exact El].
    erewrite bind_run; [|by apply has_flag_run; exact Ho]. erewrite bind_run; [|by apply has_flag_run; exact Ho].
    rewrite Hp, HP, Ha. cbn [andb when]. erewrite bind_run; [|by apply set_object_run; exact Ho]. fold o1. by erewrite bind_run; [|exact E].
  - eexists. split; [rewrite Hob; unfold k2; cbn; by rewrite insert_insert_eq|].
    split; [by rewrite Hti, lookup_insert_eq|by rewrite Hob, lookup_insert_eq|done|exact Hi|exact Hty| | |].
    + unfold flag_set, with_flag, without. cbn. apply negb_true_iff, Z.eqb_neq. intros Hz.
      apply (f_equal (fun z => Z.testbit z 0)) in Hz. by rewrite Z.bits_0, Z.land_spec, Z.lor_spec, orb_true_r in Hz.
    + rewrite <- Hp. unfold flag_set, with_flag, without. cbn. by rewrite Z.land_lor_distr_l, Z.lor_0_r, <- !Z.land_assoc.
    + rewrite <- Hh. f_equal. unfold flag_set, with_flag, without. cbn. by rewrite Z.land_lor_distr_l, Z.lor_0_r, <- !Z.land_assoc.
Qed.

(** ** One timer, and all *)

(** The deadlines and the list after the timer [t] has fired at tick [T]. *)
Definition fire (T : Z) (s : (Z -> Z) * list Z) (t : Z) : (Z -> Z) * list Z :=
  if P t then (set_deadline s.1 t (T + I t), place (set_deadline s.1 t (T + I t)) (T + I t) t s.2) else s.
(** The list nodes of a timer that is not started again. *)
Definition left_out (t : Z) : list kring := if P t then [] else [(row0 t, [])].

Lemma check_due k D t ts R x o T :
  timers_inv k false D (t :: ts) ((tmp, []) :: R) -> armed k t x o -> rt_tick k = u32 T -> 0 <= T - D t < half_tick ->
  (P t = true -> Forall (fun t' => near (T + I t) (D t')) ts) ->
  exists k', check_timer prio_max 1 mask soft timer_thread call (u32 T) k = Ok (Some (u32 T), k') /\
    timers_inv k' false (fire T (D, ts) t).1 (fire T (D, ts) t).2 ((tmp, []) :: left_out t ++ R) /\
    rt_tick k' = u32 T /\ timeouts k' = t :: timeouts k /\
    (forall t' x' o', t' <> t -> armed k t' x' o' -> armed k' t' x' o') /\ (P t = true -> exists x' o', armed k' t x' o').
Proof using Hquiet.
  intros Hinv Har HT Hdue Hnear. pose proof Har as [Hx Ho Hf Hi Hty Ha Hp Hh].
  destruct (take_timer_run k D t ts R x o Hinv Har) as (l & E1 & Hl).
  set (k1 := {k with links := l; objects := <[OTimer t := taken t o]> (objects k)}) in *.
  destruct (run_timeout_run k1 t x Hx Hf) as (k2 & E2 & [Sl St So Sk Su]). change (links k2 = l) in Sl. change (rt_tick k2 = rt_tick k) in Sk. change (timeouts k2 = t :: timeouts k) in Su. change (timers k2 = timers k) in St. change (objects k2 = <[OTimer t := taken t o]> (objects k)) in So.
  assert (timers_inv k2 false D ts ((tmp, [row0 t]) :: R)) as Hinv2.
  { destruct Hinv as [_ Ht Hs]. apply StronglySorted_cons in Hs as [_ Hs].
    split; [by rewrite Sl| |done]. intros t' Hin. rewrite St. apply Ht. by right. }
  assert (t ∉ ts) as Hout by (pose proof (timers_inv_nodup _ _ _ _ _ Hinv) as Hnd; by apply NoDup_cons in Hnd as [? _]).
  assert (objects k2 !! OTimer t = Some (taken t o)) as Ho2 by (by rewrite So, lookup_insert_eq).
  assert (forall t' x' o', t' <> t -> armed k t' x' o' -> armed k2 t' x' o') as Hother.
  { intros t' x' o' Hne [A1 A2 A3 A4 A5 A6 A7 A8]. split; try done; [by rewrite St|]. by rewrite So, lookup_insert_ne by congruence. }
  assert (check_timer prio_max 1 mask soft timer_thread call (u32 T) k = (restart_timer prio_max 1 mask soft timer_thread false t ;; mret (Some (u32 T))) k2) as ->.
  { unfold check_timer. erewrite bind_run; [|by eapply first_timer_run]. cbv beta iota. erewrite bind_run; [|by apply timer_run].
    destruct (ti_timer _ _ _ _ _ Hinv t) as (x' & Hx' & Ed); [by left|]. assert (x' = x) as -> by congruence.
    assert ((u32 (u32 T - timeout_tick x) <? half_tick) = true) as ->.
    { assert (in_u 32 (T - D t)) as Hin.
      { unfold in_u. unfold half_tick, RT_TICK_MAX in Hdue. change (0xffffffff / 2) with (2 ^ 31 - 1) in Hdue. lia. }
      rewrite Ed, u32_sub, wrap_small by (done || lia). apply Z.ltb_lt. lia. }
    erewrite bind_run; [|exact E1]. erewrite bind_run; [|exact E2].
    rewrite bind_run with (a := u32 T) (s1 := k2); [done|]. unfold rt_tick_get, gets. by rewrite Sk, HT. }
  unfold fire, left_out. destruct (P t) eqn:HP.
  - destruct (restart_periodic k2 D t ts R x o T Hinv2) as (k' & E3 & Hinv' & Hti & (o' & Hob & Har') & Hrest);
      [|done|by rewrite Sk|by apply Hnear|].
    { split; try done; [by rewrite St| |by rewrite HP]. rewrite Ho2. unfold taken. by rewrite HP. }
    exists k'. split; [by erewrite bind_run; [|exact E3]|]. split; [exact Hinv'|]. split; [by rewrite (tr_tick _ _ Hrest), Sk|].
    split; [by rewrite (tr_timeouts _ _ Hrest), Su|]. split; [|by eauto].
    intros t' x' o2 Hne H2. destruct (Hother t' x' o2 Hne H2) as [A1 A2 A3 A4 A5 A6 A7 A8]. split; try done.
    + rewrite Hti, lookup_insert_ne by congruence. done.
    + rewrite Hob, lookup_insert_ne by congruence. done.
  - destruct (restart_oneshot k2 D t ts R o Hinv2 Ho2 HP) as (l' & E3 & Hinv'); [by rewrite Hp, HP|].
    eexists. split; [by erewrite bind_run; [|exact E3]|]. split; [exact Hinv'|]. split; [by change (rt_tick k2 = u32 T); rewrite Sk|]. split; [exact Su|].
    split; [|done]. intros t' x' o2 Hne H2. destruct (Hother t' x' o2 Hne H2). by split.
Qed.

(** A timer whose deadline is ahead is left alone, and so are all after it. *)
Lemma check_ahead k D T l R :
  timers_inv k false D l R -> Forall (fun t => T < D t < T + half_tick) l -> check_timer prio_max 1 mask soft timer_thread call (u32 T) k = Ok (None, k).
Proof using Type.
  intros Hinv Hl. unfold check_timer. destruct l as [|t ts]; [by erewrite bind_run; [|by eapply first_timer_none]|].
  erewrite bind_run; [|by eapply first_timer_run]. cbv beta iota. apply Forall_cons in Hl as [Hd _].
  destruct (ti_timer _ _ _ _ _ Hinv t) as (x & Hx & Ed); [by left|]. erewrite bind_run; [|by apply timer_run].
  unfold half_tick, RT_TICK_MAX in *. change (0xffffffff / 2) with (2 ^ 31 - 1) in *.
  assert ((u32 (u32 T - timeout_tick x) <? 2 ^ 31 - 1) = false) as ->; [|done].
  apply Z.ltb_ge. rewrite Ed, u32_sub. unfold wrap. rewrite <- (Z_mod_plus_full _ 1), Z.mod_small by lia. lia.
Qed.

Section Loop.
Variables (T late : Z).
Context (Hlate : 0 <= late < half_tick).

Definition due_now (D : Z -> Z) (t : Z) : Prop := T - late <= D t <= T.
Definition ahead (D : Z -> Z) (t : Z) : Prop := T < D t < T + half_tick.
Definition period_ok (t : Z) : Prop := P t = true -> 1 <= I t < half_tick /\ I t + late <= 2 ^ 31.

Lemma fire_near D ts t : period_ok t -> P t = true -> Forall (fun t' => due_now D t' \/ ahead D t') ts -> Forall (fun t' => near (T + I t) (D t')) ts.
Proof using Hlate.
  intros Ho HP. destruct (Ho HP). intros Hts. eapply Forall_impl; [exact Hts|]. cbn. intros t' Ht'. unfold near, due_now, ahead in *.
  unfold half_tick, RT_TICK_MAX in *. change (0xffffffff / 2) with (2 ^ 31 - 1) in *. lia.
Qed.

(** The timers still due stay in front. *)
Lemma fire_split D t due l : t ∉ due -> period_ok t -> Forall (due_now D) due ->
  (fire T (D, due ++ l) t).1 = (fire T (D, l) t).1 /\ (fire T (D, due ++ l) t).2 = due ++ (fire T (D, l) t).2 /\
  Forall (due_now (fire T (D, l) t).1) due.
Proof using Hlate.
  intros Hout Hok Hdue. unfold fire. destruct (P t) eqn:HP; [|done]. cbn [fst snd]. split; [done|].
  assert (Forall (due_now (set_deadline D t (T + I t))) due) as Hdue'.
  { rewrite Forall_forall in *. intros t' Hin. unfold due_now in *. rewrite set_deadline_ne by congruence. by apply Hdue. }
  split; [|done]. destruct (Hok HP) as [HI _]. unfold place. rewrite !filter_app.
  rewrite (filter_every (fun t' => set_deadline D t (T + I t) t' <= T + I t) due), (filter_none (fun t' => T + I t < set_deadline D t (T + I t) t') due);
    [by rewrite <- app_assoc| |]; (eapply Forall_impl; [exact Hdue'|]; unfold due_now; intros; lia).
Qed.

Lemma fire_ahead D l t : period_ok t -> Forall (ahead D) l -> t ∉ l -> Forall (ahead (fire T (D, l) t).1) (fire T (D, l) t).2.
Proof using Hlate.
  intros Hok Hl Hout. unfold fire. destruct (P t) eqn:HP; [|done]. cbn [fst snd]. rewrite Forall_forall in *. destruct (Hok HP) as [HI _].
  intros t' [->|Hin]%elem_of_place; unfold ahead in *; [rewrite set_deadline_eq; lia|]. rewrite set_deadline_ne by congruence. by apply Hl.
Qed.

Lemma elem_of_fire D l t t' : t' ∈ (fire T (D, l) t).2 <-> (t' = t /\ P t = true) \/ t' ∈ l.
Proof using Hlate. unfold fire. destruct (P t); cbn [snd]; [rewrite elem_of_place; naive_solver|naive_solver]. Qed.

Lemma check_loop_run due l k D R fuel :
  timers_inv k false D (due ++ l) ((tmp, []) :: R) -> (forall t, t ∈ due ++ l -> exists x o, armed k t x o) -> rt_tick k = u32 T ->
  Forall (due_now D) due -> Forall (ahead D) l -> (forall t, t ∈ due -> period_ok t) -> (length due < fuel)%nat ->
  exists k', check_loop prio_max 1 mask soft timer_thread call fuel (u32 T) k = Ok (tt, k') /\
    timers_inv k' false (foldl (fire T) (D, l) due).1 (foldl (fire T) (D, l) due).2 ((tmp, []) :: (due ≫= left_out) ++ R) /\
    timeouts k' = rev due ++ timeouts k /\ rt_tick k' = u32 T /\ Forall (ahead (foldl (fire T) (D, l) due).1) (foldl (fire T) (D, l) due).2.
Proof using Hquiet Hlate.
  revert l k D R fuel. induction due as [|t due IH]; intros l k D R fuel Hinv Harm HT Hdue Hl Hok Hf; (destruct fuel as [|fuel]; [cbn in Hf; lia|]); cbn [check_loop].
  - exists k. split; [|done]. by erewrite bind_run; [|by eapply check_ahead].
  - apply Forall_cons in Hdue as [Hd Hdue]. pose proof (timers_inv_nodup _ _ _ _ _ Hinv) as Hnd. cbn in Hnd. apply NoDup_cons in Hnd as [Hout Hnd].
    assert (period_ok t) as Hokt by (apply Hok; by left). apply not_elem_of_app in Hout as [Hout1 Hout2].
    destruct (Harm t) as (x & o & Har); [by left|].
    destruct (check_due k D t (due ++ l) R x o T Hinv Har HT) as (k1 & E1 & Hinv1 & HT1 & Hlog1 & Hoth & Hself).
    { unfold due_now in Hd. lia. }
    { intros HP. apply fire_near; [done|done|]. apply Forall_app. split; (eapply Forall_impl; [eassumption|]); cbn; auto. }
    destruct (fire_split D t due l Hout1 Hokt Hdue) as (F1 & F2 & F3). rewrite F1, F2 in Hinv1.
    destruct (fire T (D, l) t) as [D1 l1] eqn:EF. cbn [fst snd] in *.
    destruct (IH l1 k1 D1 (left_out t ++ R) fuel Hinv1) as (k' & E & Hinv' & Hlog & HT' & Hah);
      [|done|done| |intros t' Hin; apply Hok; by right|cbn in Hf; lia|].
    + intros t' Hin. assert (t' ∈ due ++ l \/ (t' = t /\ P t = true)) as [Hin'|[-> HP]].
      { apply elem_of_app in Hin as [Hin|Hin]; [left; apply elem_of_app; by left|].
        pose proof (elem_of_fire D l t t') as He. rewrite EF in He. apply He in Hin as [?|Hin]; [by right|left; apply elem_of_app; by right]. }
      * destruct (Harm t') as (x' & o' & Har'); [by right|]. exists x', o'. apply Hoth; [|done]. intros ->. apply elem_of_app in Hin' as [?|?]; done.
      * by apply Hself.
    + pose proof (fire_ahead D l t Hokt Hl Hout2) as Ha. by rewrite EF in Ha.
    + exists k'. split; [by erewrite bind_run; [|exact E1]|]. cbn [foldl]. rewrite EF. split; [|split; [|done]].
      * eapply timers_inv_perm; [|exact Hinv']. f_equiv. change ((t :: due) ≫= left_out) with (left_out t ++ (due ≫= left_out)). solve_Permutation.
      * rewrite Hlog, Hlog1. cbn [rev]. by rewrite <- app_assoc.
Qed.

(** A sorted list is what is due and what is ahead. *)
Lemma due_split (D : Z -> Z) (l : list Z) : StronglySorted (fun a b => D a <= D b) l -> l = filter (fun t => D t <= T) l ++ filter (fun t => T < D t) l.
Proof using Type.
  induction 1 as [|t l Hl IH Ht]; [done|]. destruct (Z.le_gt_cases (D t) T).
  - rewrite (filter_cons_True (fun t => D t <= T)), (filter_cons_False (fun t => T < D t)) by lia. cbn. by rewrite <- IH.
  - rewrite (filter_none (fun t => D t <= T) (t :: l)), (filter_every (fun t => T < D t) (t :: l)); [done| |];
      (apply Forall_cons; split; [lia|eapply Forall_impl; [exact Ht|]; cbn; intros; lia]).
Qed.

Lemma timer_check_run k D ts R fuel :
  timers_inv k false D ts R -> tmp ∉ nodes ((TimerHead false 0, row0 <$> ts) :: R) -> (forall t, t ∈ ts -> exists x o, armed k t x o) ->
  rt_tick k = u32 T -> Forall (fun t => T - late <= D t < T + half_tick) ts -> (forall t, t ∈ ts -> period_ok t) -> (length ts < fuel)%nat ->
  let due := filter (fun t => D t <= T) ts in let s := foldl (fire T) (D, filter (fun t => T < D t) ts) due in
  exists k', rt_timer_check prio_max 1 mask soft timer_thread call fuel k = Ok (tt, k') /\ timeouts k' = rev due ++ timeouts k /\
    timers_inv k' false s.1 s.2 ((tmp, []) :: (due ≫= left_out) ++ R) /\ Forall (ahead s.1) s.2.
Proof using Hquiet Hlate.
  intros [Hr Ht Hs] Htmp Harm HT Hb Hok Hf due s. destruct (ring_init _ _ _ Hr Htmp) as (l & El & Hl).
  pose proof (due_split D ts Hs) as Hsplit. fold due in Hsplit.
  destruct (check_loop_run due (filter (fun t => T < D t) ts) {k with links := l} D R fuel) as (k' & E & Hinv & Hlog & _ & Hah).
  - rewrite <- Hsplit. split; [|exact Ht|exact Hs]. by rewrite Permutation_swap.
  - rewrite <- Hsplit. intros t Hin. destruct (Harm t Hin) as (x & o & []). exists x, o. by split.
  - exact HT.
  - unfold due. rewrite Forall_forall in *. intros t [Hd Hin]%list_elem_of_filter. specialize (Hb t Hin). unfold due_now. lia.
  - rewrite Forall_forall in *. intros t [Hd Hin]%list_elem_of_filter. specialize (Hb t Hin). unfold ahead. lia.
  - intros t [_ Hin]%list_elem_of_filter. by apply Hok.
  - rewrite Hsplit, length_app in Hf. lia.
  - exists k'. split; [|done]. unfold rt_timer_check. erewrite bind_run; [|by apply on_list_run; exact El].
    rewrite bind_run with (a := u32 T) (s1 := {k with links := l}); [exact E|]. unfold rt_tick_get, gets. change (rt_tick {k with links := l}) with (rt_tick k). by rewrite HT.
Qed.
End Loop.

(** A periodic timer of 0 ticks is due again as soon as it is started: the loop never
    ends. *)
Lemma zero_period_loops k D t x o R T fuel :
  timers_inv k false D [t] ((tmp, []) :: R) -> armed k t x o -> P t = true -> I t = 0 -> rt_tick k = u32 T -> 0 <= T - D t < half_tick ->
  check_loop prio_max 1 mask soft timer_thread call fuel (u32 T) k = Undef "the checks do not end".
Proof using Hquiet.
  revert k D x o. induction fuel as [|fuel IH]; intros k D x o Hinv Har HP HI HT Hd; [done|]. cbn [check_loop].
  destruct (check_due k D t [] R x o T Hinv Har HT Hd) as (k1 & E1 & Hinv1 & HT1 & _ & _ & Hself); [by constructor|].
  erewrite bind_run; [|exact E1]. destruct (Hself HP) as (x1 & o1 & Har1). unfold fire, left_out in Hinv1. rewrite HP, HI, Z.add_0_r in Hinv1.
  eapply IH; [exact Hinv1|exact Har1|done|done|done|]. cbn [fst]. rewrite set_deadline_eq. lia.
Qed.
End Check.
