(* ===== verification/RtSchedFacts.v ===== *)
(** * The scheduler: the bits of the ready group

    [ready_bit k p]: what the tables say of priority [p].  Setting and clearing the bits of
    a thread, and finding the first that is set. *)
From S2P Require Import Prelude Outcome RtList RtKernel RtSched.
#[local] Open Scope string_scope.
#[local] Open Scope list_scope.
#[local] Open Scope Z_scope.

Section Facts.
Variable prio_max : Z.
Context (Hmax : 0 < prio_max <= 256).
Abbreviation two_level := (two_level prio_max).

(** ** The bits *)

Record masks_ok (x : rt_thread) : Prop := {
  mk_prio : 0 <= current_priority x < prio_max;
  mk_masks : if two_level
    then number x = current_priority x / 8 /\ number_mask x = 2 ^ number x /\ high_mask x = 2 ^ (current_priority x mod 8)
    else number_mask x = 2 ^ current_priority x;
}.

(** The bit that says priority [p] has ready threads. *)
Definition ready_bit (k : kernel) (p : Z) : bool :=
  if two_level then
    match zlookup (rt_thread_ready_table k) (p / 8) with Some b => Z.testbit b (p mod 8) | None => false end
  else Z.testbit (rt_thread_ready_priority_group k) p.

Record bits_ok (k : kernel) : Prop := {
  bo_group : in_u 32 (rt_thread_ready_priority_group k);
  bo_table : if two_level
    then length (rt_thread_ready_table k) = 32%nat /\
         forall i b, zlookup (rt_thread_ready_table k) i = Some b ->
           in_u 8 b /\ Z.testbit (rt_thread_ready_priority_group k) i = negb (b =? 0)
    else forall p, prio_max <= p -> Z.testbit (rt_thread_ready_priority_group k) p = false;
  bo_high : forall p, prio_max <= p < 256 -> ready_bit k p = false;
}.

Lemma testbit_s32 g j : in_u 32 g -> 0 <= j < 32 -> Z.testbit (s32 g) j = Z.testbit g j.
Proof using Type.
  intros Hg Hj. transitivity (Z.testbit (wrap 32 (s32 g)) j); [|by rewrite wrap_sext, wrap_small by (done || lia)].
  rewrite testbit_wrap by lia. by rewrite (proj2 (Z.ltb_lt j 32)) by lia.
Qed.

Lemma ffs_group g :
  in_u 32 g -> g <> 0 -> exists k, rt_ffs (s32 g) = k + 1 /\ Z.testbit g k = true /\ (forall j, 0 <= j < k -> Z.testbit g j = false) /\ 0 <= k < 32.
Proof using Type.
  intros Hg Hne. destruct (rt_ffs_spec (s32 g)) as (k & E & [H1 H2] & Hk); [by rewrite wrap_sext, wrap_small by (done || lia)|].
  exists k. split; [done|]. rewrite testbit_s32 in H1 by (done || lia). split; [done|]. split; [|lia].
  intros j Hj. specialize (H2 j Hj). by rewrite testbit_s32 in H2 by (done || lia).
Qed.

Lemma ffs_byte b :
  in_u 8 b -> b <> 0 -> exists k, rt_ffs b = k + 1 /\ Z.testbit b k = true /\ (forall j, 0 <= j < k -> Z.testbit b j = false) /\ 0 <= k < 8.
Proof using Type.
  intros Hb Hne. unfold in_u in Hb. change (2 ^ 8) with 256 in Hb.
  destruct (rt_ffs_spec b) as (k & E & [H1 H2] & Hk); [rewrite wrap_small by (unfold in_u; lia); done|].
  exists k. split; [done|]. split; [done|]. split; [done|]. destruct (Z.lt_ge_cases k 8); [lia|].
  by rewrite (testbit_high 8) in H1 by (done || lia).
Qed.

Lemma pow_testbit n j : 0 <= n -> Z.testbit (2 ^ n) j = bool_decide (j = n).
Proof using Type.
  intros Hn. destruct (Z.lt_ge_cases j 0); [by rewrite Z.testbit_neg_r, bool_decide_eq_false_2 by lia|].
  rewrite Z.pow2_bits_eqb by lia. case Z.eqb_spec; intros; [by rewrite bool_decide_eq_true_2 by lia|by rewrite bool_decide_eq_false_2 by lia].
Qed.

Lemma set_bit g n j : 0 <= n -> Z.testbit (Z.lor g (2 ^ n)) j = Z.testbit g j || bool_decide (j = n).
Proof using Type. intros Hn. by rewrite Z.lor_spec, pow_testbit. Qed.

Lemma clear_bit w g n j :
  0 <= w -> in_u w g -> 0 <= n -> Z.testbit (Z.land g (wrap w (Z.lnot (2 ^ n)))) j = Z.testbit g j && negb (bool_decide (j = n)).
Proof using Type.
  intros Hw Hg Hn. destruct (Z.lt_ge_cases j 0); [by rewrite !Z.testbit_neg_r by lia|].
  rewrite Z.land_spec, testbit_wrap, Z.lnot_spec, pow_testbit by lia. case Z.ltb_spec; intros; [done|].
  by rewrite (testbit_high w g) by (done || lia).
Qed.

Lemma set_bit_range w g n : 0 <= n < w -> in_u w g -> in_u w (Z.lor g (2 ^ n)).
Proof using Type. intros Hn Hg. apply lor_in_u; [lia|done|]. unfold in_u. split; [lia|]. apply Z.pow_lt_mono_r; lia. Qed.

Lemma clear_bit_range w g n : 0 <= w -> in_u w g -> in_u w (Z.land g (wrap w (Z.lnot (2 ^ n)))).
Proof using Type. intros. by apply land_in_u. Qed.

Definition with_bits (k : kernel) (g : Z) (t : list Z) : kernel :=
  {k with rt_thread_ready_priority_group := g; rt_thread_ready_table := t}.

Lemma with_bits_group k g t : rt_thread_ready_priority_group (with_bits k g t) = g.
Proof using Type. done. Qed.
Lemma with_bits_table k g t : rt_thread_ready_table (with_bits k g t) = t.
Proof using Type. done. Qed.

Lemma masks_range x : masks_ok x -> two_level = true -> 0 <= number x < 32 /\ 0 <= current_priority x mod 8 < 8 /\
  number x = current_priority x / 8.
Proof using Hmax.
  intros [H1 H2] E. rewrite E in H2. destruct H2 as (-> & _ & _). split; [|split; [apply Z.mod_pos_bound; lia|done]].
  split; [apply Z.div_pos; lia|apply Z.div_lt_upper_bound; lia].
Qed.

Lemma zlookup_insert_eq (l : list Z) i v : 0 <= i < Z.of_nat (length l) -> zlookup (<[Z.to_nat i := v]> l) i = Some v.
Proof using Type. intros Hi. unfold zlookup. rewrite (proj2 (Z.ltb_ge i 0)) by lia. apply list_lookup_insert_eq. lia. Qed.
Lemma zlookup_insert_ne (l : list Z) i j v : 0 <= i -> i <> j -> zlookup (<[Z.to_nat i := v]> l) j = zlookup l j.
Proof using Type. intros Hi Hne. unfold zlookup. case Z.ltb_spec; intros; [done|]. apply list_lookup_insert_ne. lia. Qed.
Lemma zlookup_total (l : list Z) i : 0 <= i < Z.of_nat (length l) -> exists v, zlookup l i = Some v.
Proof using Type. intros Hi. unfold zlookup. rewrite (proj2 (Z.ltb_ge i 0)) by lia. apply lookup_lt_is_Some_2. lia. Qed.

Lemma set_ready_spec x k :
  masks_ok x -> bits_ok k -> exists g t, set_ready_bits prio_max x k = Ok (tt, with_bits k g t) /\ bits_ok (with_bits k g t) /\
    forall p, 0 <= p < 256 -> ready_bit (with_bits k g t) p = ready_bit k p || bool_decide (p = current_priority x).
Proof using Hmax.
  intros Hx [Hg Ht Hh]. unfold set_ready_bits, ready_bit in *. destruct two_level eqn:E.
  - destruct (masks_range x Hx E) as (Hn & Hm & Hnum). destruct Hx as [Hp Hmk]. rewrite E in Hmk. destruct Hmk as (_ & HM & HH).
    destruct Ht as [Hlen Htab]. destruct (zlookup_total (rt_thread_ready_table k) (number x)) as [b Hb]; [lia|].
    destruct (Htab _ _ Hb) as [Hb8 Hbg].
    exists (Z.lor (rt_thread_ready_priority_group k) (number_mask x)), (<[Z.to_nat (number x) := Z.lor b (high_mask x)]> (rt_thread_ready_table k)).
    split; [|split; [split|]].
    + run_simpl. rewrite Hb. reflexivity.
    + rewrite with_bits_group. rewrite HM. by apply set_bit_range.
    + rewrite E, with_bits_table, with_bits_group, length_insert. split; [done|]. intros i b'. rewrite HM, set_bit by lia.
      destruct (decide (i = number x)) as [->|Hne].
      * rewrite zlookup_insert_eq by lia. intros [= <-]. rewrite HH. split; [by apply set_bit_range|].
        rewrite bool_decide_eq_true_2, orb_true_r by done. symmetry. apply negb_true_iff, Z.eqb_neq. intros Hz.
        assert (Z.testbit (Z.lor b (2 ^ (current_priority x mod 8))) (current_priority x mod 8) = false) as Hbit by (rewrite Hz; apply Z.bits_0).
        by rewrite set_bit, bool_decide_eq_true_2, orb_true_r in Hbit by lia.
      * rewrite zlookup_insert_ne by lia. intros Hi. destruct (Htab _ _ Hi) as [? ->]. split; [done|].
        by rewrite bool_decide_eq_false_2, orb_false_r by done.
    + intros p Hpr. specialize (Hh p Hpr). unfold ready_bit. rewrite E, ?with_bits_table, ?with_bits_group.
      destruct (decide (p / 8 = number x)) as [Heq|Hne].
      * rewrite Heq, zlookup_insert_eq by lia. rewrite Heq, Hb in Hh. rewrite HH, set_bit, Hh by lia. rewrite orb_false_l.
        apply bool_decide_eq_false_2. intros Hmod. assert (p = current_priority x) by (Z.to_euclidean_division_equations; lia). lia.
      * by rewrite zlookup_insert_ne by lia.
    + intros p Hpr. rewrite with_bits_table. destruct (decide (p / 8 = number x)) as [Heq|Hne].
      * rewrite Heq, zlookup_insert_eq, Hb by lia. rewrite HH, set_bit by lia. f_equal. apply bool_decide_ext.
        split; [intros Hmod; Z.to_euclidean_division_equations; lia|by intros ->].
      * rewrite zlookup_insert_ne by lia. rewrite (bool_decide_eq_false_2 (p = _)), orb_false_r; [done|]. intros ->. lia.
  - destruct Hx as [Hp HM]. rewrite E in HM. exists (Z.lor (rt_thread_ready_priority_group k) (number_mask x)), (rt_thread_ready_table k).
    assert (prio_max <= 32) by (unfold RtSched.two_level in E; apply Z.ltb_ge in E; lia).
    split; [reflexivity|split; [split|]]; rewrite ?with_bits_group.
    + rewrite HM. apply set_bit_range; [lia|done].
    + rewrite E. intros p Hpr. rewrite ?with_bits_group, HM, set_bit by lia. rewrite (Ht p Hpr). apply bool_decide_eq_false_2. lia.
    + intros p Hpr. unfold ready_bit. rewrite E, ?with_bits_group, HM, set_bit by lia. rewrite Ht by lia. apply bool_decide_eq_false_2. lia.
    + intros p Hpr. rewrite ?with_bits_group, HM, set_bit by lia. done.
Qed.

Lemma clear_ready_spec x k :
  masks_ok x -> bits_ok k -> exists g t, clear_ready_bits prio_max x k = Ok (tt, with_bits k g t) /\ bits_ok (with_bits k g t) /\
    forall p, 0 <= p < 256 -> ready_bit (with_bits k g t) p = ready_bit k p && negb (bool_decide (p = current_priority x)).
Proof using Hmax.
  intros Hx [Hg Ht Hh]. unfold clear_ready_bits, ready_bit in *. destruct two_level eqn:E.
  - destruct (masks_range x Hx E) as (Hn & Hm & Hnum). destruct Hx as [Hp Hmk]. rewrite E in Hmk. destruct Hmk as (_ & HM & HH).
    destruct Ht as [Hlen Htab]. destruct (zlookup_total (rt_thread_ready_table k) (number x)) as [b Hb]; [lia|].
    destruct (Htab _ _ Hb) as [Hb8 Hbg]. set (b' := Z.land b (u8 (Z.lnot (high_mask x)))).
    assert (in_u 8 b') as Hb' by (unfold b'; rewrite HH; apply clear_bit_range; [lia|done]).
    assert (forall j, Z.testbit b' j = Z.testbit b j && negb (bool_decide (j = current_priority x mod 8))) as Hbit.
    { intros j. unfold b'. rewrite HH. apply clear_bit; [lia|done|lia]. }
    set (g' := if b' =? 0 then Z.land (rt_thread_ready_priority_group k) (u32 (Z.lnot (number_mask x))) else rt_thread_ready_priority_group k).
    exists g', (<[Z.to_nat (number x) := b']> (rt_thread_ready_table k)).
    assert (forall i, Z.testbit g' i = Z.testbit (rt_thread_ready_priority_group k) i && negb ((b' =? 0) && bool_decide (i = number x))) as Hgbit.
    { intros i. unfold g'. destruct (b' =? 0); [|by rewrite andb_true_r]. rewrite HM. apply clear_bit; [lia|done|lia]. }
    assert (forall p, 0 <= p < 256 -> ready_bit (with_bits k g' (<[Z.to_nat (number x):=b']> (rt_thread_ready_table k))) p =
      ready_bit k p && negb (bool_decide (p = current_priority x))) as Hready.
    { intros p Hpr. unfold ready_bit. rewrite E, ?with_bits_table, ?with_bits_group. destruct (decide (p / 8 = number x)) as [Heq|Hne].
      - rewrite Heq, zlookup_insert_eq, Hb, Hbit by lia. f_equal. f_equal. apply bool_decide_ext.
        split; [intros Hmod; Z.to_euclidean_division_equations; lia|by intros ->].
      - rewrite zlookup_insert_ne by lia. rewrite (bool_decide_eq_false_2 (p = _)), andb_true_r; [done|]. intros ->. lia. }
    split; [|split; [split|]].
    + run_simpl. rewrite Hb. fold b'. unfold g'. by destruct (b' =? 0).
    + rewrite with_bits_group. unfold g'. destruct (b' =? 0); [|done]. rewrite HM. by apply clear_bit_range.
    + rewrite E, with_bits_table, with_bits_group, length_insert. split; [done|]. intros i c. rewrite Hgbit.
      destruct (decide (i = number x)) as [->|Hne].
      * rewrite zlookup_insert_eq by lia. intros [= <-]. split; [done|]. rewrite bool_decide_eq_true_2, andb_true_r by done.
        rewrite Hbg. destruct (Z.eqb_spec b 0) as [->|]; [done|]. done.
      * rewrite zlookup_insert_ne by lia. intros Hi. destruct (Htab _ _ Hi) as [? ->]. split; [done|].
        by rewrite bool_decide_eq_false_2, andb_false_r, andb_true_r by done.
    + intros p Hpr. rewrite Hready by lia. unfold ready_bit. rewrite E. by rewrite Hh.
    + intros p Hpr. specialize (Hready p Hpr). unfold ready_bit in Hready. by rewrite E in Hready.
  - destruct Hx as [Hp HM]. rewrite E in HM.
    exists (Z.land (rt_thread_ready_priority_group k) (u32 (Z.lnot (number_mask x)))), (rt_thread_ready_table k).
    assert (prio_max <= 32) by (unfold RtSched.two_level in E; apply Z.ltb_ge in E; lia).
    split; [reflexivity|split; [split|]]; rewrite ?with_bits_group.
    + rewrite HM. by apply clear_bit_range.
    + rewrite E. intros p Hpr. rewrite HM, clear_bit by (done || lia). by rewrite (Ht p Hpr).
    + intros p Hpr. unfold ready_bit. rewrite ?E, ?with_bits_group, HM, clear_bit by (done || lia). by rewrite Ht by lia.
    + intros p Hpr. unfold ready_bit. rewrite ?E, ?with_bits_group, HM, clear_bit by (done || lia). done.
Qed.

Lemma ready_group k p : bits_ok k -> 0 <= p < 256 -> ready_bit k p = true -> rt_thread_ready_priority_group k <> 0.
Proof using Type.
  intros [Hg Ht _] Hp. unfold ready_bit. destruct two_level.
  - destruct (zlookup _ _) as [b|] eqn:Hb; [|done]. destruct Ht as [_ Ht]. destruct (Ht _ _ Hb) as [_ Hbit]. intros Hr Hz.
    rewrite Hz, Z.bits_0 in Hbit. symmetry in Hbit. apply negb_false_iff, Z.eqb_eq in Hbit as ->. by rewrite Z.bits_0 in Hr.
  - intros Hr Hz. by rewrite Hz, Z.bits_0 in Hr.
Qed.

Lemma highest_run k :
  bits_ok k -> rt_thread_ready_priority_group k <> 0 ->
  exists p, 0 <= p < prio_max /\ ready_bit k p = true /\ (forall j, 0 <= j < p -> ready_bit k j = false) /\
    forall t, on_list (ld_next (PrioHead p)) k = Ok (TList t, k) -> scheduler_get_highest_priority_thread prio_max k = Ok ((t, p), k).
Proof using Hmax.
  intros [Hg Ht Hh] Hne. destruct (ffs_group _ Hg Hne) as (n & En & Hn & Hlow & Hr).
  unfold scheduler_get_highest_priority_thread, ready_bit in *. destruct two_level eqn:E.
  - destruct Ht as [Hlen Ht]. destruct (zlookup_total (rt_thread_ready_table k) n) as [b Hb]; [lia|].
    destruct (Ht _ _ Hb) as [Hb8 Hbg]. rewrite Hn in Hbg. symmetry in Hbg. apply negb_true_iff, Z.eqb_neq in Hbg.
    destruct (ffs_byte b Hb8 Hbg) as (m & Em & Hm & Hmlow & Hmr).
    assert ((8 * n + m) / 8 = n) as Hd by (Z.to_euclidean_division_equations; lia).
    assert ((8 * n + m) mod 8 = m) as Hmod by (Z.to_euclidean_division_equations; lia).
    assert (8 * n + m < prio_max) as Hlt.
    { destruct (Z.lt_ge_cases (8 * n + m) prio_max); [done|]. specialize (Hh (8 * n + m) ltac:(lia)). rewrite Hd, Hb, Hmod in Hh. congruence. }
    exists (8 * n + m). split; [lia|]. rewrite Hd, Hb, Hmod. split; [done|]. split.
    + intros j Hj. destruct (zlookup (rt_thread_ready_table k) (j / 8)) as [c|] eqn:Hc; [|done].
      destruct (decide (j / 8 = n)) as [Heq|Hne']; [|].
      * rewrite Heq, Hb in Hc. injection Hc as <-. apply Hmlow. Z.to_euclidean_division_equations; lia.
      * destruct (Ht _ _ Hc) as [_ Hcg]. rewrite Hlow in Hcg by (Z.to_euclidean_division_equations; lia).
        symmetry in Hcg. apply negb_false_iff, Z.eqb_eq in Hcg as ->. apply Z.bits_0.
    + intros t Hld. run_simpl. rewrite En, Z.add_simpl_r, Hb, Em, Z.shiftl_mul_pow2 by lia.
      replace (n * 2 ^ 3 + (m + 1) - 1) with (8 * n + m) by lia. by rewrite Hld.
  - assert (n < prio_max) as Hlt by (destruct (Z.lt_ge_cases n prio_max); [done|]; rewrite Ht in Hn; done).
    exists n. split; [lia|]. split; [done|]. split; [done|]. intros t Hld. run_simpl. rewrite En, Z.add_simpl_r, Hld. done.
Qed.
End Facts.

(** * The scheduler: the ready queues

    [sched_inv k q R]: the store holds a list of threads for each priority ([q]) and the
    other lists [R]; the threads in the queues are ready and of that priority; the bits
    of the ready group say which queues are not empty.  What each operation of
    scheduler_up.c does to the queues. *)

Abbreviation queues := (Z -> list Z).

Definition upd (q : queues) (p : Z) (l : list Z) : queues := fun p' => if decide (p' = p) then l else q p'.

Lemma upd_same q p l : upd q p l p = l.
Proof. unfold upd. by rewrite decide_True. Qed.
Lemma upd_other q p l p' : p' <> p -> upd q p l p' = q p'.
Proof. intros. unfold upd. by rewrite decide_False. Qed.

Definition state_is (s : Z) (x : rt_thread) : bool := Z.land (stat x) RT_THREAD_STAT_MASK =? s.
Definition yields (x : rt_thread) : bool := negb (Z.land (stat x) RT_THREAD_STAT_YIELD_MASK =? 0).

Lemma with_stat_state s x : in_u 3 s -> state_is s (with_stat s x) = true.
Proof.
  intros Hs. unfold state_is, with_stat. cbn. apply Z.eqb_eq, Z.bits_inj'. intros j Hj.
  change RT_THREAD_STAT_MASK with (Z.ones 3). rewrite Z.land_spec, Z.lor_spec, Z.land_spec, Z.lnot_spec by lia.
  destruct (Z.lt_ge_cases j 3); [|by rewrite Z.ones_spec_high, andb_false_r, (testbit_high 3) by (done || lia)].
  rewrite Z.ones_spec_low by lia. by rewrite andb_false_r, orb_false_r, andb_true_r.
Qed.

Lemma with_stat_yields s x : in_u 3 s -> yields (with_stat s x) = yields x.
Proof.
  intros Hs. unfold yields, with_stat. cbn. do 2 f_equal. apply Z.bits_inj'. intros j Hj.
  change RT_THREAD_STAT_MASK with (Z.ones 3). change RT_THREAD_STAT_YIELD_MASK with (2 ^ 3).
  rewrite !Z.land_spec, Z.lor_spec, Z.land_spec, Z.lnot_spec, pow_testbit by lia.
  case_bool_decide as E; [|by rewrite !andb_false_r]. rewrite E, (testbit_high 3), Z.ones_spec_high by (done || lia). by rewrite andb_true_r.
Qed.

Lemma clear_yield_state s x : state_is s (clear_yield x) = state_is s x.
Proof.
  unfold state_is, clear_yield. cbn. f_equal. rewrite <- Z.land_assoc. f_equal.
Qed.
Lemma clear_yield_yields x : yields (clear_yield x) = false.
Proof.
  unfold yields, clear_yield. cbn. rewrite <- Z.land_assoc. change (Z.land _ RT_THREAD_STAT_YIELD_MASK) with 0. by rewrite Z.land_0_r.
Qed.

Lemma filter_all {A} `{EqDecision A} (p : A) (l : list A) : p ∉ l -> filter (fun p' => p' <> p) l = l.
Proof.
  induction l as [|a l IH]; intros Hp; [done|]. apply not_elem_of_cons in Hp as [Ha Hp].
  by rewrite filter_cons_True, IH by congruence.
Qed.

Lemma perm_filter {A} `{EqDecision A} (p : A) (l : list A) : p ∈ l -> NoDup l -> l ≡ₚ p :: filter (fun p' => p' <> p) l.
Proof.
  induction l as [|a l IH]; intros Hin Hnd; [by apply not_elem_of_nil in Hin|]. apply NoDup_cons in Hnd as [Ha Hnd].
  destruct (decide (a = p)) as [->|Hne].
  - rewrite filter_cons_False by naive_solver. f_equiv. symmetry. by rewrite filter_all.
  - apply elem_of_cons in Hin as [->|Hin]; [done|]. rewrite filter_cons_True by done. rewrite Permutation_swap. f_equiv. by apply IH.
Qed.

(** The state after the lists, the bits and the threads have changed. *)
Definition put (k : kernel) (l : gmap knode (knode * knode)) (g : Z) (tb : list Z) (th : gmap Z rt_thread) : kernel :=
  with_bits {k with links := l; threads := th} g tb.

Lemma put_threads k l g tb th : threads (put k l g tb th) = th.
Proof. done. Qed.

Section Inv.
Variable prio_max : Z.
Context (Hmax : 0 < prio_max <= 256).
Abbreviation masks_ok := (masks_ok prio_max).
Abbreviation bits_ok := (bits_ok prio_max).
Abbreviation ready_bit := (ready_bit prio_max).
Abbreviation kring := (knode * list knode)%type.

Definition prio_ring (q : queues) (p : Z) : kring := (PrioHead p, TList <$> q p).
Definition prio_rings (q : queues) : list kring := prio_ring q <$> seqZ 0 prio_max.

Record sched_inv (k : kernel) (q : queues) (R : list kring) : Prop := {
  si_rings : rings (links k) (prio_rings q ++ R);
  si_queued : forall p t, 0 <= p < prio_max -> t ∈ q p ->
    exists x, threads k !! t = Some x /\ masks_ok x /\ current_priority x = p /\ state_is RT_THREAD_READY x = true;
  si_bits : bits_ok k;
  si_ready : forall p, 0 <= p < prio_max -> ready_bit k p = negb (bool_decide (q p = []));
}.

#[export] Instance sched_inv_perm k q : Proper ((≡ₚ) ==> iff) (sched_inv k q).
Proof using Type. clear Hmax. intros R R' HR. split; intros [H1 H2 H3 H4]; split; try done; [by rewrite <- HR|by rewrite HR]. Qed.

(** The queue of one priority and the rest. *)
Definition other_rings (q : queues) (p : Z) : list kring := prio_ring q <$> filter (fun p' => p' <> p) (seqZ 0 prio_max).

Lemma prio_rings_at q p : 0 <= p < prio_max -> prio_rings q ≡ₚ prio_ring q p :: other_rings q p.
Proof using Hmax.
  intros Hp. unfold prio_rings, other_rings. rewrite <- fmap_cons. apply Permutation_map.
  apply perm_filter; [apply elem_of_seqZ; lia|apply NoDup_seqZ].
Qed.

Lemma other_rings_upd q p l : other_rings (upd q p l) p = other_rings q p.
Proof using Hmax.
  unfold other_rings. apply list_fmap_ext. intros i a Ha%list_elem_of_lookup_2%list_elem_of_filter. unfold prio_ring. by rewrite upd_other by apply Ha.
Qed.

Lemma rings_at s q R p : 0 <= p < prio_max ->
  rings s (prio_rings q ++ R) <-> rings s ((PrioHead p, TList <$> q p) :: other_rings q p ++ R).
Proof using Hmax. intros Hp. by rewrite (prio_rings_at q p) by done. Qed.

Lemma rings_at_upd s q R p l : 0 <= p < prio_max ->
  rings s (prio_rings (upd q p l) ++ R) <-> rings s ((PrioHead p, TList <$> l) :: other_rings q p ++ R).
Proof using Hmax. intros Hp. by rewrite (rings_at _ _ _ p), upd_same, other_rings_upd by done. Qed.

(** A node that heads a list of [R] is in no queue. *)
Lemma queued_apart s q R t ns p t' : rings s (prio_rings q ++ (TList t, ns) :: R) -> 0 <= p < prio_max -> t' ∈ q p -> t' <> t.
Proof using Hmax.
  intros Hr Hp Hin ->. apply (rings_at _ _ _ p Hp) in Hr as [_ Hnd]. unfold nodes in Hnd. cbn in Hnd.
  apply NoDup_cons in Hnd as [_ Hnd]. apply NoDup_app in Hnd as (_ & Hd & _). apply (Hd (TList t)); [by apply list_elem_of_fmap_2|].
  apply list_elem_of_bind. exists (TList t, ns). split; [by left|]. apply elem_of_app. right. by left.
Qed.

Lemma bits_ok_frame k k' :
  rt_thread_ready_priority_group k' = rt_thread_ready_priority_group k -> rt_thread_ready_table k' = rt_thread_ready_table k ->
  bits_ok k -> bits_ok k'.
Proof using Type. intros E1 E2 [H1 H2 H3]. unfold RtSchedFacts.ready_bit in H3. split; unfold RtSchedFacts.ready_bit; rewrite ?E1, ?E2; done. Qed.

(** A change to a thread that is in no queue. *)
Lemma sched_inv_set k q R t ns y :
  sched_inv k q ((TList t, ns) :: R) -> sched_inv {k with threads ::= <[t := y]> } q ((TList t, ns) :: R).
Proof using Hmax.
  intros [H1 H2 H3 H4]. split; [exact H1| |by apply (bits_ok_frame k)|exact H4].
  intros p t' Hp Ht. cbn. rewrite lookup_insert_ne; [by apply H2|]. intros <-. by eapply queued_apart.
Qed.

Lemma insert_run k q R t x :
  sched_inv k q ((TList t, []) :: R) -> threads k !! t = Some x -> masks_ok x -> rt_current_thread k <> Some t ->
  exists l g tb, let k' := put k l g tb (<[t := with_stat RT_THREAD_READY x]> (threads k)) in
    rt_schedule_insert_thread prio_max t k = Ok (tt, k') /\
    sched_inv k' (upd q (current_priority x) (if yields x then q (current_priority x) ++ [t] else t :: q (current_priority x))) R.
Proof using Hmax.
  intros Hinv Ht Hx Hc. set (p := current_priority x). pose proof (mk_prio _ _ Hx) as Hp. fold p in Hp.
  set (y := with_stat RT_THREAD_READY x). pose proof Hinv as [Hr Hq Hb Hrd].
  set (k1 := {k with threads ::= <[t := y]> }). set (q' := upd q p (if yields x then q p ++ [t] else t :: q p)).
  assert (exists l, (if yields y then on_list (rt_list_insert_before (PrioHead p) (TList t)) else on_list (rt_list_insert_after (PrioHead p) (TList t))) k1
    = Ok (tt, {k1 with links := l}) /\ rings l (prio_rings q' ++ R)) as (l & El & Hl).
  { unfold q'. setoid_rewrite (rings_at_upd _ _ _ _ _ Hp). rewrite <- Permutation_middle in Hr.
    assert (rings (links k1) ((PrioHead p, TList <$> q p) :: (TList t, []) :: other_rings q p ++ R)) as Hr1.
    { revert Hr. rewrite Permutation_middle, (rings_at _ _ _ p Hp). by rewrite <- Permutation_middle. }
    unfold y. rewrite with_stat_yields by done. destruct (yields x).
    - destruct (ring_insert_before (links k) (PrioHead p) (TList t) (TList <$> q p) [] (other_rings q p ++ R)) as (l & E & Hl); [by rewrite app_nil_r|].
      exists l. split; [by apply on_list_run|]. by rewrite fmap_app.
    - destruct (ring_insert_after (links k) (PrioHead p) (TList t) [] (TList <$> q p) (other_rings q p ++ R) Hr1) as (l & E & Hl).
      exists l. split; [by apply on_list_run|]. done. }
  destruct (set_ready_spec prio_max Hmax y {k1 with links := l}) as (g & tb & Eb & Hb' & Hbit); [by destruct Hx|by apply (bits_ok_frame k)|].
  exists l, g, tb. cbv zeta. split.
  - unfold rt_schedule_insert_thread. erewrite bind_run; [|reflexivity]. rewrite bool_decide_eq_false_2 by done.
    erewrite bind_run; [|by apply set_thread_run]. fold y. erewrite bind_run; [|by apply thread_run; cbn; rewrite lookup_insert_eq].
    fold k1. fold (yields y). change (current_priority y) with p. erewrite bind_run; [|exact El]. exact Eb.
  - split; [exact Hl| |exact Hb'|].
    + intros p' t' Hp' Hin. rewrite put_threads. destruct (decide (t' = t)) as [->|Hne].
      * rewrite lookup_insert_eq. exists y. split; [done|]. split; [by destruct Hx|]. split; [|by apply with_stat_state].
        unfold q', upd in Hin. case_decide as Hd; [done|]. by destruct (queued_apart (links k) q R t [] p' t (si_rings _ _ _ Hinv) Hp' Hin).
      * rewrite lookup_insert_ne by done. apply Hq; [done|]. unfold q', upd in Hin. case_decide as Hd; [|done]. subst p'.
        destruct (yields x); [apply elem_of_app in Hin as [?|Hin%list_elem_of_singleton]|apply elem_of_cons in Hin as [?|?]]; done.
    + intros p' Hp'. change (put k l g tb _) with (with_bits {k1 with links := l} g tb). rewrite Hbit by lia.
      change (ready_bit {k1 with links := l} p') with (ready_bit k p'). rewrite Hrd by done. change (current_priority y) with p. unfold q', upd.
      case_decide as Hd; [subst p'|by rewrite (bool_decide_eq_false_2 (p' = p)), orb_false_r].
      rewrite (bool_decide_eq_true_2 (p = p)), orb_true_r by done. symmetry. apply negb_true_iff, bool_decide_eq_false_2.
      destruct (yields x); [|done]. by destruct (q p).
Qed.

Lemma remove_run k q R p xs t ys :
  sched_inv k q R -> 0 <= p < prio_max -> q p = xs ++ t :: ys ->
  exists l g tb, let k' := put k l g tb (threads k) in
    rt_schedule_remove_thread prio_max t k = Ok (tt, k') /\ sched_inv k' (upd q p (xs ++ ys)) ((TList t, []) :: R).
Proof using Hmax.
  intros [Hr Hq Hb Hrd] Hp Eq. destruct (Hq p t Hp) as (x & Ht & Hx & Hxp & Hst); [rewrite Eq; set_solver|].
  set (q' := upd q p (xs ++ ys)).
  assert (exists l, rt_list_remove (TList t) (links k) = Ok (tt, l) /\ rings l (prio_rings q' ++ (TList t, []) :: R)) as (l & El & Hl).
  { unfold q'. setoid_rewrite (rings_at_upd _ _ _ _ _ Hp). apply (rings_at _ _ _ p Hp) in Hr. rewrite Eq, fmap_app, fmap_cons in Hr.
    destruct (ring_remove _ _ _ _ _ _ Hr) as (l & E & Hl). exists l. split; [done|]. rewrite fmap_app. by rewrite <- Permutation_middle. }
  assert (rt_list_isempty (PrioHead p) l = Ok (bool_decide (q' p = []), l)) as Ee.
  { pose proof Hl as Hl'. apply (rings_at _ _ _ p Hp) in Hl'. rewrite (ring_isempty _ _ _ _ Hl'). do 2 f_equal.
    apply bool_decide_ext. by destruct (q' p). }
  assert (exists g tb, when (bool_decide (q' p = [])) (clear_ready_bits prio_max x) {k with links := l} = Ok (tt, put k l g tb (threads k)) /\
    bits_ok (put k l g tb (threads k)) /\ forall p', 0 <= p' < prio_max -> ready_bit (put k l g tb (threads k)) p' = negb (bool_decide (q' p' = []))) as (g & tb & Eb & Hb' & Hbit).
  { assert (forall p', 0 <= p' < prio_max -> p' <> p -> ready_bit k p' = negb (bool_decide (q' p' = []))) as Ho.
    { intros p' Hp' Hne. unfold q'. rewrite upd_other by done. by apply Hrd. }
    case_bool_decide as He; cbn [when].
    - destruct (clear_ready_spec prio_max Hmax x {k with links := l}) as (g & tb & Eb & Hb' & Hbit); [done|by apply (bits_ok_frame k)|].
      exists g, tb. split; [exact Eb|]. split; [exact Hb'|]. intros p' Hp'. change (put k l g tb (threads k)) with (with_bits {k with links := l} g tb).
      rewrite Hbit by lia. rewrite Hxp. destruct (decide (p' = p)) as [->|Hne]; [by rewrite !bool_decide_eq_true_2, andb_false_r by done|].
      rewrite (bool_decide_eq_false_2 (p' = p)), andb_true_r by done. by apply Ho.
    - exists (rt_thread_ready_priority_group k), (rt_thread_ready_table k). split; [done|]. split; [by apply (bits_ok_frame k)|]. intros p' Hp'.
      destruct (decide (p' = p)) as [->|Hne]; [|by apply Ho]. rewrite (bool_decide_eq_false_2 (q' p = [])) by done.
      change (ready_bit k p = true). rewrite Hrd by done. rewrite bool_decide_eq_false_2; [done|]. rewrite Eq. by destruct xs. }
  exists l, g, tb. cbv zeta. split.
  - unfold rt_schedule_remove_thread. erewrite bind_run; [|by apply on_list_run]. erewrite bind_run; [|by apply thread_run].
    rewrite Hxp. erewrite bind_run; [|by apply on_list_run; exact Ee]. exact Eb.
  - split; [exact Hl| |exact Hb'|exact Hbit]. intros p' t' Hp' Hin. apply Hq; [done|]. unfold q', upd in Hin. case_decide as Hd; [|done].
    subst p'. rewrite Eq. set_solver.
Qed.
End Inv.
