(* ===== verification/RtSchedRun.v ===== *)
(** * The scheduler: what rt_schedule does

    The invariant of the whole state ([sys_inv]) and the effect of rt_schedule on the
    queues and the running thread, case by case. *)
From S2P Require Import Prelude Outcome RtList RtKernel RtSched RtSchedFacts RtThread.
#[local] Open Scope string_scope.
#[local] Open Scope list_scope.
#[local] Open Scope Z_scope.

Section Run.
Variable prio_max : Z.
Context (Hmax : 0 < prio_max <= 256).
Abbreviation masks_ok := (masks_ok prio_max).
Abbreviation sched_inv := (sched_inv prio_max).
Abbreviation kring := (knode * list knode)%type.

Lemma highest_spec k q R :
  sched_inv k q R -> rt_thread_ready_priority_group k <> 0 ->
  exists p t ts, 0 <= p < prio_max /\ q p = t :: ts /\ (forall j, 0 <= j < p -> q j = []) /\
    scheduler_get_highest_priority_thread prio_max k = Ok ((t, p), k).
Proof using Hmax.
  intros [Hr Hq Hb Hrd] Hne. destruct (highest_run prio_max Hmax k Hb Hne) as (p & Hp & Hrp & Hlow & Hrun).
  rewrite Hrd in Hrp by done. apply negb_true_iff, bool_decide_eq_false_1 in Hrp. destruct (q p) as [|t ts] eqn:Eq; [done|].
  exists p, t, ts. split; [done|]. split; [done|]. split.
  - intros j Hj. specialize (Hlow j Hj). rewrite Hrd in Hlow by lia. by apply negb_false_iff, bool_decide_eq_true_1 in Hlow.
  - apply Hrun. apply (rings_at prio_max Hmax _ _ _ p Hp) in Hr. rewrite Eq in Hr. apply on_list_read. by rewrite (ring_next _ _ _ _ Hr).
Qed.

Lemma group_zero k q R : sched_inv k q R -> rt_thread_ready_priority_group k = 0 <-> forall p, 0 <= p < prio_max -> q p = [].
Proof using Hmax.
  intros Hinv. destruct (decide (rt_thread_ready_priority_group k = 0)) as [Hz|Hne]; split; try done.
  - intros _ p Hp. pose proof Hinv as [_ _ Hb Hrd]. specialize (Hrd p Hp). destruct (ready_bit prio_max k p) eqn:Er.
    + by destruct (ready_group prio_max k p Hb ltac:(lia) Er).
    + symmetry in Hrd. by apply negb_false_iff, bool_decide_eq_true_1 in Hrd.
  - intros Hall. destruct (highest_spec k q R Hinv Hne) as (p & t & ts & Hp & Eq & _). by rewrite Hall in Eq.
Qed.

(** Removing the running thread, which is in no queue. *)
Lemma remove_idle_run k q R t x :
  sched_inv k q ((TList t, []) :: R) -> threads k !! t = Some x -> masks_ok x ->
  exists g tb, let k' := put k (links k) g tb (threads k) in
    rt_schedule_remove_thread prio_max t k = Ok (tt, k') /\ sched_inv k' q ((TList t, []) :: R).
Proof using Hmax.
  intros [Hr Hq Hb Hrd] Ht Hx. set (p := current_priority x). pose proof (mk_prio _ _ Hx) as Hp. fold p in Hp.
  assert (rt_list_remove (TList t) (links k) = Ok (tt, links k)) as El.
  { rewrite <- Permutation_middle in Hr. by eapply ring_remove_single. }
  assert (rt_list_isempty (PrioHead p) (links k) = Ok (bool_decide (q p = []), links k)) as Ee.
  { pose proof Hr as Hr'. apply (rings_at prio_max Hmax _ _ _ p Hp) in Hr'. rewrite (ring_isempty _ _ _ _ Hr'). do 2 f_equal.
    apply bool_decide_ext. by destruct (q p). }
  assert (forall l, l = links k -> {k with links := l} = k) as Hid by (intros l ->; by destruct k).
  assert (exists g tb, when (bool_decide (q p = [])) (clear_ready_bits prio_max x) k = Ok (tt, put k (links k) g tb (threads k)) /\
    bits_ok prio_max (put k (links k) g tb (threads k)) /\
    forall p', 0 <= p' < prio_max -> ready_bit prio_max (put k (links k) g tb (threads k)) p' = negb (bool_decide (q p' = []))) as (g & tb & Eb & Hb' & Hbit).
  { case_bool_decide as He; cbn [when].
    - destruct (clear_ready_spec prio_max Hmax x k Hx Hb) as (g & tb & Eb & Hb' & Hbit).
      assert (put k (links k) g tb (threads k) = with_bits k g tb) as Ek by (by destruct k).
      exists g, tb. rewrite Ek. split; [exact Eb|]. split; [exact Hb'|]. intros p' Hp'. rewrite Hbit, Hrd by lia. fold p.
      case_bool_decide as Hd; [done|]. destruct (decide (p' = p)) as [->|Hne]; [done|]. by rewrite bool_decide_eq_false_2.
    - exists (rt_thread_ready_priority_group k), (rt_thread_ready_table k).
      assert (put k (links k) (rt_thread_ready_priority_group k) (rt_thread_ready_table k) (threads k) = k) as -> by (by destruct k). done. }
  exists g, tb. cbv zeta. split.
  - unfold rt_schedule_remove_thread. erewrite bind_run; [|by apply on_list_run]. rewrite (Hid _ eq_refl).
    erewrite bind_run; [|by apply thread_run]. fold p. erewrite bind_run; [|by apply on_list_run; exact Ee]. by rewrite (Hid _ eq_refl).
  - by split.
Qed.

(** ** rt_schedule *)

Lemma schedule_nothing k :
  rt_scheduler_lock_nest k <> 0 \/ rt_thread_ready_priority_group k = 0 -> rt_schedule prio_max k = Ok (tt, k).
Proof using Type.
  intros Hc. unfold rt_schedule. erewrite bind_run; [|reflexivity].
  destruct (Z.eqb_spec (rt_scheduler_lock_nest k) 0); [|done]. destruct (Z.eqb_spec (rt_thread_ready_priority_group k) 0); [done|]. by destruct Hc.
Qed.

(** The running thread goes on: no ready thread is more urgent. *)
Definition goes_on (x : rt_thread) (highest : Z) : bool :=
  (current_priority x <? highest) || ((current_priority x =? highest) && negb (yields x)).

Lemma current_run k c : rt_current_thread k = Some c -> current k = Ok (c, k).
Proof using Type. intros E. unfold current. run_simpl. by rewrite E. Qed.

Lemma choose_running k c x t highest :
  rt_current_thread k = Some c -> threads k !! c = Some x -> state_is RT_THREAD_RUNNING x = true ->
  choose_thread t highest k = Ok (if goes_on x highest then (c, false) else (t, true), {k with threads ::= <[c := clear_yield x]> }).
Proof using Type.
  intros Ec Ex Hs. unfold choose_thread. erewrite bind_run; [|by apply current_run]. erewrite bind_run; [|by apply thread_run].
  unfold state_is in Hs. rewrite Hs. erewrite bind_run; [|by apply set_thread_run]. unfold mret, st_ret, goes_on, yields. do 2 f_equal.
  destruct (current_priority x <? highest); [done|]. destruct (current_priority x =? highest); [|done]. by destruct (Z.land _ _ =? 0).
Qed.

Lemma choose_stopped k c x t highest :
  rt_current_thread k = Some c -> threads k !! c = Some x -> state_is RT_THREAD_RUNNING x = false ->
  choose_thread t highest k = Ok ((t, false), k).
Proof using Type.
  intros Ec Ex Hs. unfold choose_thread. erewrite bind_run; [|by apply current_run]. erewrite bind_run; [|by apply thread_run].
  unfold state_is in Hs. by rewrite Hs.
Qed.

(** What rt_schedule leaves alone. *)
Record same_rest (k k' : kernel) : Prop := {
  sr_timers : timers k' = timers k;
  sr_lock : rt_scheduler_lock_nest k' = rt_scheduler_lock_nest k;
  sr_tick : rt_tick k' = rt_tick k;
}.

(** The thread [t] leaves its queue and runs. *)
Lemma start_thread k q R p xs t ys y c :
  sched_inv k q R -> 0 <= p < prio_max -> q p = xs ++ t :: ys -> threads k !! t = Some y ->
  exists k', (rt_schedule_remove_thread prio_max t ;; set_thread t (with_stat RT_THREAD_RUNNING) ;;
      modify (fun k => {k with context_switches ::= cons (Some c, t)})) k = Ok (tt, k') /\
    sched_inv k' (upd q p (xs ++ ys)) ((TList t, []) :: R) /\ threads k' = <[t := with_stat RT_THREAD_RUNNING y]> (threads k) /\
    rt_current_thread k' = rt_current_thread k /\ same_rest k k'.
Proof using Hmax.
  intros Hinv Hp Eq Ey. destruct (remove_run prio_max Hmax k q R p xs t ys Hinv Hp Eq) as (l & g & tb & E1 & Hinv1).
  pose proof (sched_inv_set _ Hmax _ _ _ _ _ (with_stat RT_THREAD_RUNNING y) Hinv1) as Hinv2.
  eexists. split; [|split; [|split; [|split]]].
  - erewrite bind_run; [|exact E1]. erewrite bind_run; [|by apply set_thread_run; rewrite put_threads]. reflexivity.
  - destruct Hinv2 as [H1 H2 H3 H4]. split; [exact H1|exact H2|by eapply bits_ok_frame; [| |exact H3]|exact H4].
  - done.
  - done.
  - by split.
Qed.

Section Running.
Variables (k : kernel) (q : queues) (R : list kring) (c : Z) (x : rt_thread) (p t : Z) (ts : list Z).
Context (Hlock : rt_scheduler_lock_nest k = 0) (Hcur : rt_current_thread k = Some c) (Hx : threads k !! c = Some x)
  (Hp : 0 <= p < prio_max) (Hq : q p = t :: ts) (Hlow : forall j, 0 <= j < p -> q j = []).

(** rt_schedule once it has found the first ready thread. *)
Lemma schedule_start R0 : sched_inv k q R0 ->
  rt_schedule prio_max k = (
    r ← choose_thread t p;
    let '(to_thread, need_insert_from_thread) := r in
    from ← current;
    if to_thread =? from then
      rt_schedule_remove_thread prio_max from ;;
      set_thread from (with_stat RT_THREAD_RUNNING)
    else
      modify (fun k => {k with rt_current_priority := u8 p; rt_current_thread := Some to_thread}) ;;
      when need_insert_from_thread (rt_schedule_insert_thread prio_max from) ;;
      rt_schedule_remove_thread prio_max to_thread ;;
      set_thread to_thread (with_stat RT_THREAD_RUNNING) ;;
      modify (fun k => {k with context_switches ::= cons (Some from, to_thread)})) k.
Proof using Hmax Hlock Hp Hq Hlow.
  intros Hinv. unfold rt_schedule. erewrite bind_run; [|reflexivity]. rewrite Hlock.
  assert (rt_thread_ready_priority_group k <> 0) as Hne by (intros Hz; by rewrite (proj1 (group_zero _ _ _ Hinv) Hz p Hp) in Hq).
  rewrite (proj2 (Z.eqb_neq _ _) Hne). cbn [when andb negb]. change (0 =? 0) with true. cbn [when andb negb].
  destruct (highest_spec k q R0 Hinv Hne) as (p' & t' & ts' & Hp' & Hq' & Hlow' & Hrun).
  assert (p' = p) as ->.
  { destruct (Z.lt_trichotomy p' p) as [?|[?|?]]; [|done|]; [rewrite Hlow in Hq' by lia|rewrite Hlow' in Hq by lia]; done. }
  rewrite Hq in Hq'. injection Hq' as <- <-. by erewrite bind_run; [|exact Hrun].
Qed.

Lemma schedule_keep :
  sched_inv k q ((TList c, []) :: R) -> masks_ok x -> state_is RT_THREAD_RUNNING x = true -> goes_on x p = true ->
  exists k', rt_schedule prio_max k = Ok (tt, k') /\ sched_inv k' q ((TList c, []) :: R) /\
    threads k' = <[c := with_stat RT_THREAD_RUNNING (clear_yield x)]> (threads k) /\ rt_current_thread k' = Some c /\ same_rest k k'.
Proof using Hmax Hlock Hp Hq Hlow Hcur Hx.
  intros Hinv Hm Hs Hg. rewrite (schedule_start _ Hinv). erewrite bind_run; [|by apply choose_running]. rewrite Hg.
  pose proof (sched_inv_set _ Hmax _ _ _ _ _ (clear_yield x) Hinv) as Hinv1. set (k1 := {k with threads ::= <[c := clear_yield x]> }) in *.
  erewrite bind_run; [|by apply current_run]. rewrite Z.eqb_refl.
  destruct (remove_idle_run k1 q R c (clear_yield x) Hinv1) as (g & tb & E & Hinv2); [by unfold k1; cbn; rewrite lookup_insert_eq|by destruct Hm|].
  erewrite bind_run; [|exact E]. eexists. split; [by apply set_thread_run; rewrite put_threads; apply lookup_insert_eq|].
  split; [by apply (sched_inv_set _ Hmax)|]. split; [|by split]. apply insert_insert_eq.
Qed.

Lemma schedule_switch :
  sched_inv k q ((TList c, []) :: R) -> masks_ok x -> state_is RT_THREAD_RUNNING x = true -> goes_on x p = false ->
  exists k' y, threads k !! t = Some y /\ rt_schedule prio_max k = Ok (tt, k') /\
    sched_inv k' (upd (upd q (current_priority x) (c :: q (current_priority x))) p (if decide (current_priority x = p) then c :: ts else ts)) ((TList t, []) :: R) /\
    threads k' = <[t := with_stat RT_THREAD_RUNNING y]> (<[c := with_stat RT_THREAD_READY (clear_yield x)]> (threads k)) /\
    rt_current_thread k' = Some t /\ same_rest k k'.
Proof using Hmax Hlock Hp Hq Hlow Hcur Hx.
  intros Hinv Hm Hs Hg. rewrite (schedule_start _ Hinv). erewrite bind_run; [|by apply choose_running]. rewrite Hg.
  assert (t ∈ q p) as Hin by (rewrite Hq; by left).
  assert (t <> c) as Hne by (by eapply queued_apart; [|apply si_rings, Hinv| |exact Hin]).
  destruct (si_queued _ _ _ _ Hinv p t Hp Hin) as (y & Hy & _).
  pose proof (sched_inv_set _ Hmax _ _ _ _ _ (clear_yield x) Hinv) as Hinv1. set (k1 := {k with threads ::= <[c := clear_yield x]> }) in *.
  erewrite bind_run; [|by apply current_run]. rewrite (proj2 (Z.eqb_neq _ _) Hne). erewrite bind_run; [|reflexivity]. cbn [when].
  set (k2 := {k1 with rt_current_priority := u8 p; rt_current_thread := Some t}).
  assert (sched_inv k2 q ((TList c, []) :: R)) as Hinv2.
  { destruct Hinv1 as [H1 H2 H3 H4]. split; [exact H1|exact H2|by eapply bits_ok_frame; [| |exact H3]|exact H4]. }
  destruct (insert_run prio_max Hmax k2 q R c (clear_yield x) Hinv2) as (l & g & tb & E & Hinv3);
    [by unfold k2, k1; cbn; rewrite lookup_insert_eq|by destruct Hm|by unfold k2; cbn; intros [= ?]|].
  rewrite clear_yield_yields in Hinv3. change (current_priority (clear_yield x)) with (current_priority x) in Hinv3.
  erewrite bind_run; [|exact E].
  destruct (start_thread _ _ _ p (if decide (current_priority x = p) then [c] else []) t ts y c Hinv3) as (k' & E' & Hinv' & Hth & Hcur' & Hrest); [done| | |].
  - unfold upd. destruct (decide (current_priority x = p)) as [->|]; [rewrite decide_True, Hq by done|rewrite decide_False by done]; done.
  - rewrite put_threads, lookup_insert_ne by done. unfold k2, k1. cbn. by rewrite lookup_insert_ne.
  - exists k', y. split; [done|]. split; [exact E'|]. split; [by case_decide|]. split; [|split; [done|by destruct Hrest]].
    rewrite Hth, put_threads. f_equal. apply insert_insert_eq.
Qed.

Lemma schedule_leave :
  sched_inv k q R -> state_is RT_THREAD_RUNNING x = false -> c ∉ q p ->
  exists k' y, threads k !! t = Some y /\ rt_schedule prio_max k = Ok (tt, k') /\ sched_inv k' (upd q p ts) ((TList t, []) :: R) /\
    threads k' = <[t := with_stat RT_THREAD_RUNNING y]> (threads k) /\ rt_current_thread k' = Some t /\ same_rest k k'.
Proof using Hmax Hlock Hp Hq Hlow Hcur Hx.
  intros Hinv Hs Hc. rewrite (schedule_start _ Hinv). erewrite bind_run; [|by eapply choose_stopped].
  assert (t ∈ q p) as Hin by (rewrite Hq; by left). assert (t <> c) as Hne by congruence.
  destruct (si_queued _ _ _ _ Hinv p t Hp Hin) as (y & Hy & _).
  erewrite bind_run; [|by apply current_run]. rewrite (proj2 (Z.eqb_neq _ _) Hne). erewrite bind_run; [|reflexivity]. cbn [when].
  set (k2 := {k with rt_current_priority := u8 p; rt_current_thread := Some t}).
  assert (sched_inv k2 q R) as Hinv2.
  { destruct Hinv as [H1 H2 H3 H4]. split; [exact H1|exact H2|by eapply bits_ok_frame; [| |exact H3]|exact H4]. }
  erewrite bind_run; [|reflexivity].
  destruct (start_thread k2 q R p [] t ts y c Hinv2 Hp Hq Hy) as (k' & E' & Hinv' & Hth & Hcur' & Hrest).
  exists k', y. split; [done|]. split; [exact E'|]. split; [done|]. split; [done|]. split; [done|by destruct Hrest].
Qed.
End Running.
End Run.

(** ** A system that runs

    The invariant of the whole state ([sys_inv]): rt_schedule keeps it and picks the most
    urgent thread, and what repeated yields do to the threads of one priority. *)

Lemma end_slice_state s x : state_is s (end_slice x) = state_is s x.
Proof.
  unfold state_is, end_slice. cbn. f_equal. rewrite Z.land_lor_distr_l. change (Z.land RT_THREAD_STAT_YIELD _) with 0. apply Z.lor_0_r.
Qed.
Lemma end_slice_yields x : yields (end_slice x) = true.
Proof.
  unfold yields. change (stat (end_slice x)) with (Z.lor (stat x) RT_THREAD_STAT_YIELD). apply negb_true_iff, Z.eqb_neq. intros Hz.
  assert (Z.testbit (Z.land (Z.lor (stat x) RT_THREAD_STAT_YIELD) RT_THREAD_STAT_YIELD_MASK) 3 = false) as Hb by (rewrite Hz; apply Z.bits_0).
  rewrite Z.land_spec, Z.lor_spec in Hb. by rewrite orb_true_r in Hb.
Qed.


Section Sys.
Variable prio_max : Z.
Context (Hmax : 0 < prio_max <= 256).
Abbreviation masks_ok := (masks_ok prio_max).
Abbreviation sched_inv := (sched_inv prio_max).
Abbreviation kring := (knode * list knode)%type.

(** The threads of all queues. *)
Definition ready (q : queues) : list Z := seqZ 0 prio_max ≫= q.

Record sys_inv (k : kernel) (q : queues) (R : list kring) (c : Z) (x : rt_thread) : Prop := {
  sys_sched : sched_inv k q R;
  sys_current : rt_current_thread k = Some c;
  sys_thread : threads k !! c = Some x;
  sys_masks : masks_ok x;
  sys_apart : forall p, 0 <= p < prio_max -> c ∉ q p;
  sys_alone : state_is RT_THREAD_RUNNING x = true -> exists R', R ≡ₚ (TList c, []) :: R';
}.

Definition ready_rest (q : queues) (p : Z) : list Z := filter (fun p' => p' <> p) (seqZ 0 prio_max) ≫= q.

Lemma ready_at q p : 0 <= p < prio_max -> ready q ≡ₚ q p ++ ready_rest q p.
Proof using Type.
  intros Hp. unfold ready, ready_rest.
  assert (p ∈ seqZ 0 prio_max) as Hin by (apply elem_of_seqZ; lia). pose proof (NoDup_seqZ 0 prio_max) as Hnd.
  change (seqZ 0 prio_max ≫= q ≡ₚ (p :: filter (fun p' => p' <> p) (seqZ 0 prio_max)) ≫= q). f_equiv. by apply perm_filter.
Qed.

Lemma ready_upd q p l : 0 <= p < prio_max -> ready (upd q p l) ≡ₚ l ++ ready_rest q p.
Proof using Type.
  intros Hp. rewrite (ready_at _ p), upd_same by done. f_equiv. unfold ready_rest. apply Permutation_refl'. apply Forall_bind_ext, Forall_forall.
  intros p' [Hne _]%list_elem_of_filter. by apply upd_other.
Qed.

(** A thread joins a queue, or leaves it. *)
Lemma ready_join q p t : 0 <= p < prio_max -> ready (upd q p (t :: q p)) ≡ₚ t :: ready q.
Proof using Type. intros Hp. by rewrite ready_upd, (ready_at q p) by done. Qed.
Lemma ready_leave q p t l : 0 <= p < prio_max -> q p ≡ₚ t :: l -> t :: ready (upd q p l) ≡ₚ ready q.
Proof using Type. intros Hp Hq. by rewrite ready_upd, (ready_at q p), Hq by done. Qed.

(** What the switch to [t] leaves in the queues, and its effect on the invariant. *)
Lemma switched k k' q R p t y :
  0 <= p < prio_max -> t ∈ q p -> threads k !! t = Some y -> sched_inv k q R ->
  forall q' R' th, sched_inv k' q' ((TList t, []) :: R') -> threads k' = <[t := with_stat RT_THREAD_RUNNING y]> th ->
  rt_current_thread k' = Some t ->
  sys_inv k' q' ((TList t, []) :: R') t (with_stat RT_THREAD_RUNNING y) /\ current_priority y = p.
Proof using Hmax.
  intros Hp Hin Hy Hinv q' R' th Hinv' Hth Hcur. destruct (si_queued _ _ _ _ Hinv p t Hp Hin) as (y' & Hy' & Hm & Hcp & _).
  assert (y' = y) as -> by congruence. split; [|done]. split; [done|done|by rewrite Hth, lookup_insert_eq|by destruct Hm| |by eexists].
  intros p' Hp' Hin'. by destruct (queued_apart _ Hmax _ _ _ _ _ _ _ (si_rings _ _ _ _ Hinv') Hp' Hin').
Qed.

(** The threads that rt_schedule does not look at. *)
Definition bystander (q : queues) (c t : Z) : Prop := t <> c /\ forall p, 0 <= p < prio_max -> t ∉ q p.

Lemma bystander_ready q c t p u : bystander q c t -> 0 <= p < prio_max -> u ∈ q p -> t <> u.
Proof using Type. intros [_ Hb] Hp Hin ->. by apply (Hb p Hp). Qed.

(** The running thread calls rt_schedule. *)
Lemma schedule_running k q R c x :
  sched_inv k q ((TList c, []) :: R) -> rt_scheduler_lock_nest k = 0 -> rt_current_thread k = Some c -> threads k !! c = Some x ->
  masks_ok x -> state_is RT_THREAD_RUNNING x = true ->
  exists k' q' c' x', rt_schedule prio_max k = Ok (tt, k') /\ sched_inv k' q' ((TList c', []) :: R) /\ rt_current_thread k' = Some c' /\
    threads k' !! c' = Some x' /\ masks_ok x' /\ state_is RT_THREAD_RUNNING x' = true /\ (forall p, 0 <= p < current_priority x' -> q' p = []) /\
    c' :: ready q' ≡ₚ c :: ready q /\ forall t, bystander q c t -> threads k' !! t = threads k !! t.
Proof using Hmax.
  intros Hinv Hlock Hcur Hx Hm Hs. pose proof (mk_prio _ _ Hm) as Hcp.
  destruct (decide (rt_thread_ready_priority_group k = 0)) as [Hz|Hne].
  { pose proof (proj1 (group_zero _ Hmax _ _ _ Hinv) Hz) as Hnone. exists k, q, c, x. rewrite schedule_nothing by auto.
    repeat (split; [done|]). split; [|done]. intros p Hp. apply Hnone. lia. }
  destruct (highest_spec _ Hmax _ _ _ Hinv Hne) as (p & t & ts & Hp & Hq & Hlow & _). assert (t ∈ q p) as Hin by (rewrite Hq; by left).
  destruct (goes_on x p) eqn:Hg.
  - destruct (schedule_keep _ Hmax k q R c x p t ts Hlock Hcur Hx Hp Hq Hlow Hinv Hm Hs Hg) as (k' & E & Hinv' & Hth & Hcur' & _).
    exists k', q, c, (with_stat RT_THREAD_RUNNING (clear_yield x)). split; [done|]. split; [done|]. split; [done|]. split; [by rewrite Hth, lookup_insert_eq|].
    split; [by destruct Hm|]. split; [by apply with_stat_state|]. split; [|split; [done|]].
    + intros j Hj. apply Hlow. change (current_priority (with_stat _ _)) with (current_priority x) in Hj.
      unfold goes_on in Hg. apply orb_true_iff in Hg as [Hg|[Hg _]%andb_true_iff]; lia.
    + intros t' [Hne' _]. by rewrite Hth, lookup_insert_ne.
  - destruct (schedule_switch _ Hmax k q R c x p t ts Hlock Hcur Hx Hp Hq Hlow Hinv Hm Hs Hg) as (k' & y & Hy & E & Hinv' & Hth & Hcur' & _).
    destruct (switched k k' q _ p t y Hp Hin Hy Hinv _ _ _ Hinv' Hth Hcur') as [[_ _ Hy' Hmy _ _] Hyp].
    do 4 eexists. split; [exact E|]. split; [exact Hinv'|]. split; [done|]. split; [exact Hy'|]. split; [done|]. split; [by apply with_stat_state|].
    change (current_priority (with_stat _ y)) with (current_priority y). rewrite Hyp.
    apply orb_false_iff in Hg as [Hge%Z.ltb_ge _]. split; [|split].
    + intros j Hj. rewrite !upd_other by lia. by apply Hlow.
    + rewrite <- (ready_join q (current_priority x) c) by done. apply ready_leave; [done|]. unfold upd.
      destruct (decide (current_priority x = p)) as [->|]; [rewrite decide_True, Hq by done; apply Permutation_swap|by rewrite decide_False, Hq by done].
    + intros t' Hb. pose proof (bystander_ready _ _ _ _ _ Hb Hp Hin). destruct Hb as [Hb _]. by rewrite Hth, !lookup_insert_ne by done.
Qed.

(** A thread that is no longer ready to run calls rt_schedule. *)
Lemma schedule_stopped k q R c x p0 :
  sched_inv k q R -> rt_scheduler_lock_nest k = 0 -> rt_current_thread k = Some c -> threads k !! c = Some x ->
  (forall p, 0 <= p < prio_max -> c ∉ q p) -> state_is RT_THREAD_RUNNING x = false -> 0 <= p0 < prio_max -> q p0 <> [] ->
  exists k' q' c' x', rt_schedule prio_max k = Ok (tt, k') /\ sched_inv k' q' ((TList c', []) :: R) /\ rt_current_thread k' = Some c' /\
    threads k' !! c' = Some x' /\ masks_ok x' /\ state_is RT_THREAD_RUNNING x' = true /\ (forall p, 0 <= p < current_priority x' -> q' p = []) /\
    c' :: ready q' ≡ₚ ready q /\ forall t, (forall p, 0 <= p < prio_max -> t ∉ q p) -> threads k' !! t = threads k !! t.
Proof using Hmax.
  intros Hinv Hlock Hcur Hx Hap Hs Hp0 Hq0.
  assert (rt_thread_ready_priority_group k <> 0) as Hne by (intros Hz; by rewrite (proj1 (group_zero _ Hmax _ _ _ Hinv) Hz) in Hq0).
  destruct (highest_spec _ Hmax _ _ _ Hinv Hne) as (p & t & ts & Hp & Hq & Hlow & _). assert (t ∈ q p) as Hin by (rewrite Hq; by left).
  destruct (schedule_leave _ Hmax k q R c x p t ts Hlock Hcur Hx Hp Hq Hlow Hinv Hs (Hap p Hp)) as (k' & y & Hy & E & Hinv' & Hth & Hcur' & _).
  destruct (switched k k' q R p t y Hp Hin Hy Hinv _ _ _ Hinv' Hth Hcur') as [[_ _ Hy' Hmy _ _] Hyp].
  do 4 eexists. split; [exact E|]. split; [exact Hinv'|]. split; [done|]. split; [exact Hy'|]. split; [done|]. split; [by apply with_stat_state|].
  change (current_priority (with_stat _ y)) with (current_priority y). rewrite Hyp. split; [|split].
  - intros j Hj. rewrite upd_other by lia. by apply Hlow.
  - apply ready_leave; [done|by rewrite Hq].
  - intros t' Hb. assert (t <> t') by (intros ->; by apply (Hb p Hp)). by rewrite Hth, lookup_insert_ne.
Qed.

Lemma schedule_sys k q R c x :
  sys_inv k q R c x -> rt_scheduler_lock_nest k = 0 ->
  state_is RT_THREAD_RUNNING x = true \/ (exists p, 0 <= p < prio_max /\ q p <> []) ->
  exists k' q' R' c' x', rt_schedule prio_max k = Ok (tt, k') /\ sys_inv k' q' R' c' x' /\
    state_is RT_THREAD_RUNNING x' = true /\ (forall p, 0 <= p < current_priority x' -> q' p = []) /\
    c' :: ready q' ≡ₚ (if state_is RT_THREAD_RUNNING x then [c] else []) ++ ready q.
Proof using Hmax.
  intros [Hinv Hcur Hx Hm Hap Hal] Hlock Hsome.
  assert (forall k' q' R c' x', sched_inv k' q' ((TList c', []) :: R) -> rt_current_thread k' = Some c' -> threads k' !! c' = Some x' -> masks_ok x' ->
    sys_inv k' q' ((TList c', []) :: R) c' x') as Hmk.
  { intros k' q' R1 c' x' H1 H2 H3 H4. split; try done; [|by eexists]. intros p Hp Hin. by destruct (queued_apart _ Hmax _ _ _ _ _ _ _ (si_rings _ _ _ _ H1) Hp Hin). }
  destruct (state_is RT_THREAD_RUNNING x) eqn:Hs.
  - destruct (Hal eq_refl) as [R0 HR]. rewrite HR in Hinv.
    destruct (schedule_running k q R0 c x Hinv Hlock Hcur Hx Hm Hs) as (k' & q' & c' & x' & E & H1 & H2 & H3 & H4 & H5 & H6 & H7 & _).
    exists k', q', ((TList c', []) :: R0), c', x'. auto 10.
  - destruct Hsome as [?|(p & Hp & Hq)]; [done|].
    destruct (schedule_stopped k q R c x p Hinv Hlock Hcur Hx Hap Hs Hp Hq) as (k' & q' & c' & x' & E & H1 & H2 & H3 & H4 & H5 & H6 & H7 & _).
    exists k', q', ((TList c', []) :: R), c', x'. auto 10.
Qed.

(** ** Yields *)

(** The thread that runs gives way, again and again. *)
Fixpoint yield_times (n : nat) : K unit :=
  match n with
  | O => mret tt
  | S n' => rt_thread_yield prio_max ;; yield_times n'
  end.

Lemma yield_step k q R c x t ts :
  sys_inv k q R c x -> rt_scheduler_lock_nest k = 0 -> state_is RT_THREAD_RUNNING x = true ->
  q (current_priority x) = t :: ts -> (forall j, 0 <= j < current_priority x -> q j = []) ->
  exists k' q' R' y, rt_thread_yield prio_max k = Ok (0, k') /\ sys_inv k' q' R' t y /\ rt_scheduler_lock_nest k' = 0 /\
    state_is RT_THREAD_RUNNING y = true /\ current_priority y = current_priority x /\
    q' (current_priority x) = c :: ts /\ forall p, p <> current_priority x -> q' p = q p.
Proof using Hmax.
  intros [Hinv Hcur Hx Hm Hap Hal] Hlock Hs Hq Hlow. set (p := current_priority x) in *. pose proof (mk_prio _ _ Hm) as Hp. fold p in Hp.
  destruct (Hal Hs) as [R' HR]. rewrite HR in Hinv.
  pose proof (sched_inv_set _ Hmax _ _ _ _ _ (end_slice x) Hinv) as Hinv1. set (k1 := {k with threads ::= <[c := end_slice x]> }) in *.
  assert (t ∈ q p) as Hin by (rewrite Hq; by left).
  assert (t <> c) as Hne by (intros ->; by apply (Hap p Hp)).
  destruct (si_queued _ _ _ _ Hinv1 p t Hp Hin) as (y & Hy & _ & Hyp & _).
  destruct (schedule_switch _ Hmax k1 q R' c (end_slice x) p t ts) as (k' & y' & Hy' & E & Hinv' & Hth & Hcur' & Hrest);
    [done|done|by unfold k1; cbn; rewrite lookup_insert_eq|done|done|done|done|by destruct Hm|by rewrite end_slice_state| |].
  { unfold goes_on. rewrite end_slice_yields. change (current_priority (end_slice x)) with p. by rewrite Z.ltb_irrefl, andb_false_r. }
  assert (y' = y) as -> by congruence.
  destruct (switched k1 k' q _ p t y Hp Hin Hy Hinv1 _ _ _ Hinv' Hth Hcur') as [Hsys _].
  do 4 eexists. split; [|split; [exact Hsys|]].
  - unfold rt_thread_yield. erewrite bind_run; [|by apply current_run]. erewrite bind_run; [|by apply set_thread_run].
    fold k1. by erewrite bind_run; [|exact E].
  - split; [by rewrite (sr_lock _ _ Hrest)|]. split; [by apply with_stat_state|]. split; [done|].
    change (current_priority (end_slice x)) with p. rewrite upd_same, decide_True by done. split; [done|]. intros p' Hp'. by rewrite !upd_other.
Qed.

Lemma yield_alternates n k q R c x t ts :
  sys_inv k q R c x -> rt_scheduler_lock_nest k = 0 -> state_is RT_THREAD_RUNNING x = true ->
  q (current_priority x) = t :: ts -> (forall j, 0 <= j < current_priority x -> q j = []) ->
  exists k' q' R' y, yield_times n k = Ok (tt, k') /\ sys_inv k' q' R' (if Nat.even n then c else t) y /\
    q' (current_priority x) = (if Nat.even n then t else c) :: ts.
Proof using Hmax.
  revert k q R c x t. induction n as [|n IH]; intros k q R c x t Hsys Hlock Hs Hq Hlow.
  - by exists k, q, R, x.
  - destruct (yield_step k q R c x t ts Hsys Hlock Hs Hq Hlow) as (k1 & q1 & R1 & y & E & Hsys1 & Hlock1 & Hs1 & Hp1 & Hq1 & Ho1).
    destruct (IH k1 q1 R1 t y c Hsys1 Hlock1 Hs1) as (k' & q' & R' & z & E' & Hsys' & Hq'); [by rewrite Hp1| |].
    + intros j Hj. rewrite Hp1 in Hj. rewrite Ho1 by lia. by apply Hlow.
    + exists k', q', R', z. cbn [yield_times]. erewrite bind_run; [|exact E]. split; [done|].
      rewrite Nat.even_succ, <- Nat.negb_even. rewrite Hp1 in Hq'. by destruct (Nat.even n).
Qed.
End Sys.
