(* ===== verification/RtWorld.v ===== *)
(** * RT-Thread: the threads of a running system

    A description of a kernel state ([world]): the ready queues, the lists of threads that
    wait for something, the timers that run and those that do not.  [winv k s]: the state
    [k] is as [s] says.  Each operation the IPC objects are made of is a change of the
    description.  Timers are kept in a skip list of one row. *)
From stdpp Require Import sorting.
From S2P Require Import Prelude Outcome RtList RtKernel RtSched RtObject RtTimer RtThread RtTimerStart RtTimerFacts.
From S2P Require Import RtSchedFacts RtSchedRun.
#[local] Open Scope string_scope.
#[local] Open Scope list_scope.
#[local] Open Scope Z_scope.

(** One step of a run: the first part returns, by [t]. *)
Tactic Notation "step" tactic3(t) := erewrite bind_run; [|solve [t]].

Record world := {
  wq : queues;
  wheads : list knode;
  wwait : knode -> list Z;
  wactive : list Z;
  widle : list Z;
  wdue : Z -> Z;
  wother : list kring;
}.

Definition wait_ring (w : knode -> list Z) (h : knode) : kring := (h, TList <$> w h).
Definition wait_rings (s : world) : list kring := wait_ring (wwait s) <$> wheads s.
Definition idle_rings (s : world) : list kring := (fun t => (row0 t, [])) <$> widle s.
Definition active_ring (s : world) : kring := (TimerHead false 0, row0 <$> wactive s).
Definition world_rings (s : world) : list kring := wait_rings s ++ active_ring s :: idle_rings s ++ wother s.

Definition wtimers (s : world) : list Z := wactive s ++ widle s.

(** A timer object that is a hard timer. *)
Record timer_ok (k : kernel) (active : bool) (t : Z) : Prop := {
  to_timer : is_Some (timers k !! t);
  to_object : exists o, objects k !! OTimer t = Some o /\ is_timer o /\ flag_set o RT_TIMER_FLAG_ACTIVATED = active /\
    flag_set o RT_TIMER_FLAG_SOFT_TIMER = false;
}.

Definition is_thread (o : rt_object) : Prop := Z.land (ob_type o) (u8 (Z.lnot RT_Object_Class_Static)) = RT_Object_Class_Thread.

Section World.
Variable prio_max : Z.
Context (Hmax : 0 < prio_max <= 256).
Abbreviation masks_ok := (masks_ok prio_max).
Abbreviation sched_inv := (sched_inv prio_max).
Abbreviation prio_rings := (prio_rings prio_max).

(** A thread that the scheduler and the timers can work on. *)
Definition thread_ok (k : kernel) (s : world) (t : Z) : Prop :=
  exists x o, threads k !! t = Some x /\ masks_ok x /\ objects k !! OThread t = Some o /\ is_thread o /\ thread_timer x ∈ wtimers s.

Definition suspended (k : kernel) (t : Z) : Prop := exists x, threads k !! t = Some x /\ is_suspended x = true.

Record winv (k : kernel) (s : world) : Prop := {
  wi_sched : sched_inv k (wq s) (world_rings s);
  wi_timers : timers_inv k false (wdue s) (wactive s) (prio_rings (wq s) ++ wait_rings s ++ idle_rings s ++ wother s);
  wi_active : forall t, t ∈ wactive s -> timer_ok k true t;
  wi_idle : forall t, t ∈ widle s -> timer_ok k false t;
  wi_waiting : forall h t, h ∈ wheads s -> t ∈ wwait s h -> suspended k t /\ thread_ok k s t;
  wi_ready : forall p t, 0 <= p < prio_max -> t ∈ wq s p -> thread_ok k s t;
}.

(** What the operations on threads leave alone. *)
Record frame (k k' : kernel) : Prop := {
  fr_semaphores : semaphores k' = semaphores k;
  fr_mutexes : mutexes k' = mutexes k;
  fr_events : events k' = events k;
  fr_mailboxes : mailboxes k' = mailboxes k;
  fr_messagequeues : messagequeues k' = messagequeues k;
  fr_mempools : mempools k' = mempools k;
  fr_words : block_words k' = block_words k;
  fr_tick : rt_tick k' = rt_tick k;
  fr_lock : rt_scheduler_lock_nest k' = rt_scheduler_lock_nest k;
  fr_objects : forall o, (forall t, o <> OTimer t) -> objects k' !! o = objects k !! o;
}.

#[export] Instance frame_preorder : PreOrder frame.
Proof using Type.
  clear Hmax. split; [by split|]. intros k1 k2 k3 [A1 A2 A3 A4 A5 A6 A7 A8 A9 A10] [B1 B2 B3 B4 B5 B6 B7 B8 B9 B10].
  split; [congruence..|]. intros o Ho. by rewrite B10, A10.
Qed.

Lemma world_rings_timers s :
  prio_rings (wq s) ++ world_rings s ≡ₚ active_ring s :: prio_rings (wq s) ++ wait_rings s ++ idle_rings s ++ wother s.
Proof using Type. unfold world_rings. solve_Permutation. Qed.

(** The two views of the lists agree. *)
Lemma timers_of_rings k s :
  rings (links k) (prio_rings (wq s) ++ world_rings s) ->
  (forall t, t ∈ wactive s -> exists x, timers k !! t = Some x /\ timeout_tick x = u32 (wdue s t)) ->
  StronglySorted (fun a b => wdue s a <= wdue s b) (wactive s) ->
  timers_inv k false (wdue s) (wactive s) (prio_rings (wq s) ++ wait_rings s ++ idle_rings s ++ wother s).
Proof using Type. intros Hr Ht Hs. split; [|done|done]. by rewrite world_rings_timers in Hr. Qed.

Lemma thread_ok_frame k k' s s' t :
  frame k k' -> threads k' !! t = threads k !! t -> wtimers s' ≡ₚ wtimers s -> thread_ok k s t -> thread_ok k' s' t.
Proof using Type.
  intros Hf Ht Hs (x & o & Hx & Hm & Ho & Hty & Hin). exists x, o. rewrite Ht, (fr_objects _ _ Hf), Hs by done. done.
Qed.

(** A change of the state of a thread keeps what it is otherwise. *)
Definition alike (x y : rt_thread) : Prop :=
  current_priority y = current_priority x /\ init_priority y = init_priority x /\ number y = number x /\ number_mask y = number_mask x /\
  high_mask y = high_mask x /\ thread_timer y = thread_timer x.

#[export] Instance alike_preorder : PreOrder alike.
Proof using Type.
  clear Hmax. split; [by unfold alike|]. unfold alike. intros x y z (A1 & A2 & A3 & A4 & A5 & A6) (B1 & B2 & B3 & B4 & B5 & B6).
  repeat split; congruence.
Qed.

Lemma masks_ok_alike x y : alike x y -> masks_ok x -> masks_ok y.
Proof using Type. intros (A1 & A2 & A3 & A4 & A5 & A6) [H1 H2]. split; rewrite ?A1, ?A3, ?A4, ?A5; done. Qed.

Lemma thread_ok_alike k k' s s' t x y :
  frame k k' -> threads k !! t = Some x -> threads k' !! t = Some y -> alike x y -> wtimers s' ≡ₚ wtimers s ->
  thread_ok k s t -> thread_ok k' s' t.
Proof using Type.
  intros Hf Hx Hy Ha Hs (x' & o & Hx' & Hm & Ho & Hty & Hin). assert (x' = x) as -> by congruence.
  exists y, o. rewrite (fr_objects _ _ Hf), Hs by done. split; [done|]. split; [by eapply masks_ok_alike|]. split; [done|]. split; [done|].
  by destruct Ha as (_ & _ & _ & _ & _ & ->).
Qed.
End World.
