(* ===== verification/RtIpc.v ===== *)
(** * RT-Thread: src/ipc.c, the lists of waiting threads

    What semaphores, mutexes, events, mailboxes and message queues share.  A waiting thread
    is in the suspend list of the object it waits for; the list is in the order of arrival
    or in the order of priority.  A function that may wait is split at its call of
    rt_schedule: the first part returns [None] (or [Blocked]) when the thread waits, the
    part named [.._return] is what the thread does when it runs again.  The operations are
    called by threads, not by interrupts, and interrupts do not occur inside them. *)
From S2P Require Import Prelude Outcome RtList RtKernel RtSched RtObject RtTimer RtThread RtTimerStart.
#[local] Open Scope string_scope.
#[local] Open Scope list_scope.
#[local] Open Scope Z_scope.

Definition RT_IPC_FLAG_FIFO : Z := 0x00.
Definition RT_IPC_FLAG_PRIO : Z := 0x01.
Definition RT_WAITING_NO : Z := 0.
Definition RT_EFULL : Z := 3.

(** [RT_ASSERT((flag == RT_IPC_FLAG_FIFO) || (flag == RT_IPC_FLAG_PRIO))] *)
Definition assert_flag (flag : Z) : K unit :=
  assert_that ((flag =? RT_IPC_FLAG_FIFO) || (flag =? RT_IPC_FLAG_PRIO)) "(flag == RT_IPC_FLAG_FIFO) || (flag == RT_IPC_FLAG_PRIO)".

(** [RT_ASSERT(rt_object_get_type(&ipc->parent.parent) == class)] *)
Definition assert_class (i class : Z) : K unit :=
  ty ← rt_object_get_type (OOther i);
  assert_that (ty =? class) "rt_object_get_type(&ipc->parent.parent) == class".

(** The same with the assertion that the object was initialised, or that it was created. *)
Definition assert_static (i class : Z) (static : bool) : K unit :=
  assert_class i class ;;
  sys ← rt_object_is_systemobject (OOther i);
  assert_that (Bool.eqb sys static) "rt_object_is_systemobject(&ipc->parent.parent)".

Definition debug_in_thread_context : K unit :=
  self ← rt_thread_self;
  assert_that (bool_decide (is_Some self)) "0".

Definition debug_scheduler_available (need_check : bool) : K unit :=
  when need_check (
    l ← rt_critical_level;
    assert_that (l =? 0) "0" ;;
    debug_in_thread_context).

Definition set_ipc_flag (i flag : Z) : K unit := set_object (OOther i) (fun x => {x with ob_flag := flag}).
Definition ipc_flag (i : Z) : K Z := x ← object (OOther i); mret (ob_flag x).
Definition set_error (t err : Z) : K unit := set_thread t (fun x => {x with th_error := err}).

(** [rt_list_entry(node, struct rt_thread, tlist)] *)
Definition thread_entry (node : knode) : K Z :=
  match node with TList t => mret t | _ => undef "an entry that is not a thread" end.

(** The first thread of a list. *)
Definition first_thread (list : knode) : K Z := n ← on_list (ld_next list); thread_entry n.

Section Ipc.
Variables (prio_max : Z) (level : nat) (mask : Z) (soft : bool) (timer_thread : Z).

Definition ipc_object_init (i : Z) : K unit := on_list (rt_list_init (SuspendHead i)).

(** The search for the place of the thread [t]: whether there is one before the end. *)
Definition insert_by_priority (list : knode) (t : Z) : K bool :=
  rt_list_for_each list (fun _ n =>
    sthread ← thread_entry n;
    x ← thread t;
    y ← thread sthread;
    if current_priority x <? current_priority y then
      on_list (rt_list_insert_before (TList sthread) (TList t)) ;;
      mret (true, true)
    else mret (false, false)) false.

Definition ipc_list_insert (list : knode) (t flag : Z) : K unit :=
  if flag =? RT_IPC_FLAG_FIFO then on_list (rt_list_insert_before list (TList t))
  else if flag =? RT_IPC_FLAG_PRIO then
    found ← insert_by_priority list t;
    when (negb found) (on_list (rt_list_insert_before list (TList t)))
  else abort "0".

Definition ipc_list_suspend (list : knode) (t flag suspend_flag : Z) : K Z :=
  x ← thread t;
  ret ← (if negb (is_suspended x) then rt_thread_suspend_with_flag prio_max level t suspend_flag else mret RT_EOK);
  if negb (ret =? RT_EOK) then mret ret
  else
    ipc_list_insert list t flag ;;
    mret RT_EOK.

Definition ipc_list_resume (list : knode) : K unit :=
  t ← first_thread list;
  set_error t RT_EOK ;;
  rt_thread_resume prio_max level t ;;
  mret tt.

Fixpoint resume_all_loop (fuel : nat) (list : knode) : K unit :=
  e ← on_list (rt_list_isempty list);
  if e : bool then mret tt
  else match fuel with
  | O => undef "a list that does not end"
  | S fuel' =>
      t ← first_thread list;
      set_error t (- RT_ERROR) ;;
      rt_thread_resume prio_max level t ;;
      resume_all_loop fuel' list
  end.
Definition ipc_list_resume_all (list : knode) : K unit :=
  k ← get; resume_all_loop (size (links k)) list.

(** The timer of a thread that waits for [timeout] ticks. *)
Definition start_wait (t timeout : Z) : K unit :=
  x ← thread t;
  rt_timer_control (thread_timer x) (SET_TIME timeout) ;;
  rt_timer_start prio_max level mask soft timer_thread (thread_timer x) ;;
  mret tt.

(** The end of the functions that put something into an object. *)
Definition resume_receiver (list : knode) : K Z :=
  e ← on_list (rt_list_isempty list);
  if negb e then
    ipc_list_resume list ;;
    rt_schedule prio_max ;;
    mret RT_EOK
  else mret RT_EOK.
End Ipc.
