(* ===== verification/RtWorldOps.v ===== *)
(** * RT-Thread: operations as changes of the description of the state

    Stopping a thread's timer, suspending the running thread, putting it into a list of
    waiting threads, and resuming a thread of such a list. *)
From stdpp Require Import sorting.
From S2P Require Import Prelude Outcome RtList RtKernel RtSched RtObject RtTimer RtThread RtTimerStart RtTimerFacts.
From S2P Require Import RtSchedFacts RtSchedRun RtWorld RtIpc.
#[local] Open Scope string_scope.
#[local] Open Scope list_scope.
#[local] Open Scope Z_scope.

Section Ops.
Variable prio_max : Z.
Context (Hmax : 0 < prio_max <= 256).
Abbreviation masks_ok := (masks_ok prio_max).
Abbreviation sched_inv := (sched_inv prio_max).
Abbreviation prio_rings := (prio_rings prio_max).
Abbreviation winv := (winv prio_max).
Abbreviation thread_ok := (thread_ok prio_max).

(** The scheduler's invariant where only the other lists have changed. *)
Lemma sched_inv_change k k' q R R' :
  sched_inv k q R -> rings (links k') (prio_rings q ++ R') ->
  (forall p t, 0 <= p < prio_max -> t ∈ q p -> threads k' !! t = threads k !! t) ->
  rt_thread_ready_priority_group k' = rt_thread_ready_priority_group k -> rt_thread_ready_table k' = rt_thread_ready_table k ->
  sched_inv k' q R'.
Proof using Type.
  intros [_ H2 H3 H4] Hr Ht Eg Et. split; [done| |by eapply bits_ok_frame|].
  - intros p t Hp Hin. rewrite (Ht p t Hp Hin). by apply H2.
  - intros p Hp. rewrite <- H4 by done. unfold ready_bit. by rewrite Eg, Et.
Qed.

(** ** Timers *)

Definition stop_timer (tm : Z) (s : world) : world :=
  if decide (tm ∈ wactive s) then {s with wactive ::= filter (fun t => t <> tm); widle ::= cons tm} else s.

Lemma stop_timer_timers tm s : NoDup (wactive s) -> wtimers (stop_timer tm s) ≡ₚ wtimers s.
Proof using Type.
  intros Hnd. unfold stop_timer, wtimers. case_decide as Hin; [|done]. cbn.
  etransitivity; [|apply Permutation_app_tail; symmetry; by apply (perm_filter tm)]. solve_Permutation.
Qed.

Lemma thread_ok_objects k k' s s' t :
  threads k' !! t = threads k !! t -> objects k' !! OThread t = objects k !! OThread t -> wtimers s' ≡ₚ wtimers s ->
  thread_ok k s t -> thread_ok k' s' t.
Proof using Type.
  intros Ht Ho Hs (x & o & Hx & Hm & Hob & Hty & Hin). exists x, o. rewrite Ht, Ho, Hs. done.
Qed.

Lemma timer_stop_world k s tm :
  winv k s -> tm ∈ wtimers s -> exists err k', rt_timer_stop 1 tm k = Ok (err, k') /\ winv k' (stop_timer tm s) /\ frame k k' /\
    threads k' = threads k /\ rt_current_thread k' = rt_current_thread k.
Proof using Hmax.
  intros [Hsch Hti Hac Hid Hwa Hre] Hin. pose proof (timers_inv_nodup _ _ _ _ _ Hti) as Hnd.
  pose proof (stop_timer_timers tm s Hnd) as HP. unfold stop_timer in *. case_decide as Ha.
  2:{ apply elem_of_app in Hin as [Hin|Hin]; [done|]. destruct (Hid tm Hin) as [_ (o & Ho & Hty & Hf & _)].
      exists (- RT_ERROR), k. split; [|split; [by split|done]].
      unfold rt_timer_stop. step (by eapply assert_timer_run). step (by apply has_flag_run). by rewrite Hf. }
  destruct (Hac tm Ha) as [Hx (o & Ho & Hty & Hf & Hs)]. pose proof (list_elem_of_split _ _ Ha) as (pre & post & Eact).
  assert (filter (fun t => t <> tm) (wactive s) = pre ++ post) as Efil.
  { rewrite Eact in Hnd |- *. rewrite filter_app, filter_cons_False by naive_solver. apply NoDup_app in Hnd as (_ & Hd & Hnd).
    apply NoDup_cons in Hnd as [Hn _]. rewrite (filter_all tm post), filter_all; [done| |done]. intros H'. apply (Hd tm H'). by left. }
  destruct (timer_remove_run k false (wdue s) (wactive s) _ tm (pre ++ post) (prio_rings (wq s) ++ wait_rings s ++ idle_rings s ++ wother s) Hti) as (l & El & Hinv1).
  { left. exists pre, post. split; [done|]. by split. }
  set (o' := without RT_TIMER_FLAG_ACTIVATED o). set (k' := {{k with links := l} with objects ::= <[OTimer tm := o']> }).
  assert (frame k k') as Hfr.
  { split; try done. intros o2 Ho2. unfold k'. cbn. rewrite lookup_insert_ne; [done|]. intros <-. by apply (Ho2 tm). }
  exists RT_EOK, k'. split; [|split; [|done]].
  { unfold rt_timer_stop. step (by eapply assert_timer_run). step (by apply has_flag_run). rewrite Hf. cbn [negb].
    step (exact El). unfold clear_flag. erewrite bind_run; [done|]. by apply set_object_run. }
  assert ({s with wactive ::= filter (fun t => t <> tm); widle ::= cons tm} = {s with wactive := pre ++ post; widle ::= cons tm}) as Es by (by rewrite <- Efil).
  rewrite Es in *. set (s' := {s with wactive := pre ++ post; widle ::= cons tm}) in *.
  assert (rings (links k') (prio_rings (wq s) ++ world_rings s')) as Hr'.
  { destruct Hinv1 as [Hr _ _]. unfold s', world_rings, active_ring, idle_rings, wait_rings. cbn.
    match goal with |- rings _ ?R => match type of Hr with rings _ ?R2 => assert (R ≡ₚ R2) as -> by solve_Permutation end end. exact Hr. }
  assert (timers k' = timers k) as Etm by done.
  destruct Hinv1 as [_ Ht1 Hs1].
  split.
  - by eapply sched_inv_change.
  - by apply timers_of_rings.
  - intros t Ht. change (t ∈ pre ++ post) in Ht. rewrite <- Efil in Ht. apply list_elem_of_filter in Ht as [Hne Ht]. destruct (Hac t Ht) as [H1 (o2 & H2)].
    split; [done|]. exists o2. unfold k'. cbn. rewrite lookup_insert_ne by congruence. done.
  - intros t Ht. unfold s' in Ht. cbn in Ht. destruct (decide (t = tm)) as [->|Hne].
    + split; [done|]. exists o'. unfold k'. cbn. rewrite lookup_insert_eq. split; [done|]. split; [done|].
      unfold flag_set, o', without. cbn. rewrite <- !Z.land_assoc. split; [by rewrite Z.land_0_r|]. exact Hs.
    + apply elem_of_cons in Ht as [?|Ht]; [done|]. destruct (Hid t Ht) as [H1 (o2 & H2)]. split; [done|]. exists o2.
      unfold k'. cbn. rewrite lookup_insert_ne by congruence. done.
  - intros h t Hh Ht. destruct (Hwa h t Hh Ht) as [H1 H2]. split; [done|]. eapply thread_ok_frame; [exact Hfr|done|exact HP|exact H2].
  - intros p t Hp Ht. eapply thread_ok_frame; [exact Hfr|done|exact HP|]. by eapply Hre.
Qed.
(** ** Threads in no list *)

Definition alone (t : Z) (s : world) : world := {s with wother ::= cons (TList t, [])}.

Lemma alone_ready k s c p t : winv k (alone c s) -> 0 <= p < prio_max -> t ∈ wq s p -> t <> c.
Proof using Hmax.
  intros Hw Hp Hin. pose proof (si_rings _ _ _ _ (wi_sched _ _ _ Hw)) as Hr.
  eapply (queued_apart prio_max Hmax (links k) (wq s) (wait_rings s ++ active_ring s :: idle_rings s ++ wother s) c [] p t); [|done|done].
  match goal with |- rings _ ?R => match type of Hr with rings _ ?R2 => assert (R ≡ₚ R2) as -> end end; [|exact Hr].
  unfold world_rings, alone, wait_rings, active_ring, idle_rings. cbn. solve_Permutation.
Qed.

Lemma alone_waiting k s c h t : winv k (alone c s) -> h ∈ wheads s -> t ∈ wwait s h -> t <> c.
Proof using Type.
  intros Hw Hh Hin ->. pose proof (si_rings _ _ _ _ (wi_sched _ _ _ Hw)) as [_ Hnd].
  assert (prio_rings (wq s) ++ world_rings (alone c s) ≡ₚ (TList c, []) :: wait_rings s ++ prio_rings (wq s) ++ active_ring s :: idle_rings s ++ wother s) as HP.
  { unfold world_rings, alone, wait_rings, active_ring, idle_rings. cbn. solve_Permutation. }
  change (wq (alone c s)) with (wq s) in Hnd. rewrite HP in Hnd. unfold nodes in Hnd. cbn in Hnd.
  apply NoDup_cons in Hnd as [Hnd _]. apply Hnd. rewrite bind_app. apply elem_of_app. left.
  apply list_elem_of_bind. exists (wait_ring (wwait s) h). split; [cbn; right; by apply list_elem_of_fmap_2|by apply list_elem_of_fmap_2].
Qed.

(** A change of the state of the kernel that concerns neither lists nor timers. *)
Lemma winv_keep k k' s :
  winv k s -> sched_inv k' (wq s) (world_rings s) -> links k' = links k -> timers k' = timers k -> objects k' = objects k ->
  (forall t, (exists p, 0 <= p < prio_max /\ t ∈ wq s p) \/ (exists h, h ∈ wheads s /\ t ∈ wwait s h) -> threads k' !! t = threads k !! t) ->
  winv k' s.
Proof using Type.
  intros [Hsch [Hr Ht Hs] Hac Hid Hwa Hre] Hsch' El Etm Eo Eth.
  assert (forall t, (exists p, 0 <= p < prio_max /\ t ∈ wq s p) \/ (exists h, h ∈ wheads s /\ t ∈ wwait s h) -> thread_ok k s t -> thread_ok k' s t) as Hok.
  { intros t Hin. apply thread_ok_objects; [by apply Eth|by rewrite Eo|done]. }
  split; [done|split; [by rewrite El|by rewrite Etm|done]| | | |].
  - intros t Hin. destruct (Hac t Hin) as [H1 H2]. split; [by rewrite Etm|by rewrite Eo].
  - intros t Hin. destruct (Hid t Hin) as [H1 H2]. split; [by rewrite Etm|by rewrite Eo].
  - intros h t Hh Hin. destruct (Hwa h t Hh Hin) as [(x & Hx & Hsu) H2]. split; [|apply Hok; eauto].
    exists x. rewrite Eth by eauto. done.
  - intros p t Hp Hin. apply Hok; eauto.
Qed.

Lemma winv_set k s c y : winv k (alone c s) -> winv {k with threads ::= <[c := y]> } (alone c s).
Proof using Hmax.
  intros Hw. eapply winv_keep; [exact Hw| |done..|].
  - pose proof (wi_sched _ _ _ Hw) as Hs. change (wq (alone c s)) with (wq s) in *.
    assert (world_rings (alone c s) ≡ₚ (TList c, []) :: wait_rings s ++ active_ring s :: idle_rings s ++ wother s) as HP.
    { unfold world_rings, alone, wait_rings, active_ring, idle_rings. cbn. solve_Permutation. }
    rewrite HP in Hs |- *. by apply (sched_inv_set _ Hmax).
  - intros t [(p & Hp & Hin)|(h & Hh & Hin)]; cbn; apply lookup_insert_ne; symmetry; [by eapply alone_ready|by eapply alone_waiting].
Qed.

(** ** The running thread *)

Record runs (k : kernel) (s : world) (c : Z) (x : rt_thread) : Prop := {
  ru_world : winv k (alone c s);
  ru_current : rt_current_thread k = Some c;
  ru_thread : threads k !! c = Some x;
  ru_ok : thread_ok k s c;
  ru_running : state_is RT_THREAD_RUNNING x = true;
}.

Lemma thread_ok_masks k s t x : thread_ok k s t -> threads k !! t = Some x -> masks_ok x.
Proof using Type. intros (x' & o & Hx & Hm & _) Hx'. by assert (x' = x) as <- by congruence. Qed.
Lemma thread_ok_timer k s t x : thread_ok k s t -> threads k !! t = Some x -> thread_timer x ∈ wtimers s.
Proof using Type. intros (x' & o & Hx & _ & _ & _ & Hin) Hx'. by assert (x' = x) as <- by congruence. Qed.
Lemma assert_thread_run k s t : thread_ok k s t -> assert_thread t k = Ok (tt, k).
Proof using Type.
  intros (x & o & _ & _ & Ho & Hty & _). unfold assert_thread, rt_object_get_type.
  erewrite bind_run; [|step (by apply object_run); reflexivity]. unfold is_thread in Hty. by rewrite Hty.
Qed.

Definition suspend_stat (flag : Z) : Z :=
  if flag =? RT_INTERRUPTIBLE then RT_THREAD_SUSPEND_INTERRUPTIBLE
  else if flag =? RT_KILLABLE then RT_THREAD_SUSPEND_KILLABLE else RT_THREAD_SUSPEND_UNINTERRUPTIBLE.
Definition suspend_flag_ok (flag : Z) : Prop := flag = RT_INTERRUPTIBLE \/ flag = RT_KILLABLE \/ flag = RT_UNINTERRUPTIBLE.

Lemma suspend_stat_range flag : suspend_flag_ok flag -> in_u 3 (suspend_stat flag) /\ Z.land (suspend_stat flag) RT_THREAD_SUSPEND_MASK = RT_THREAD_SUSPEND_MASK.
Proof using Type. unfold suspend_flag_ok. intros [-> | [-> | ->]]; by vm_compute. Qed.

Lemma with_stat_suspended flag x : suspend_flag_ok flag -> is_suspended (with_stat (suspend_stat flag) x) = true.
Proof using Type.
  intros Hf. unfold is_suspended, with_stat. cbn. rewrite Z.land_lor_distr_l. destruct (suspend_stat_range flag Hf) as [_ ->].
  rewrite <- Z.land_assoc. change (Z.land (Z.lnot RT_THREAD_STAT_MASK) RT_THREAD_SUSPEND_MASK) with 0. rewrite Z.land_0_r. done.
Qed.

Lemma suspend_world k s c x flag :
  runs k s c x -> suspend_flag_ok flag ->
  exists k', rt_thread_suspend_with_flag prio_max 1 c flag k = Ok (RT_EOK, k') /\ winv k' (stop_timer (thread_timer x) (alone c s)) /\
    frame k k' /\ threads k' = <[c := with_stat (suspend_stat flag) x]> (threads k) /\ rt_current_thread k' = Some c.
Proof using Hmax.
  intros [Hw Hcur Hx Hok Hrun] Hf. pose proof (wi_sched _ _ _ Hw) as Hsch.
  assert (world_rings (alone c s) ≡ₚ (TList c, []) :: wait_rings s ++ active_ring s :: idle_rings s ++ wother s) as HP.
  { unfold world_rings, alone, wait_rings, active_ring, idle_rings. cbn. solve_Permutation. }
  rewrite HP in Hsch. destruct (remove_idle_run prio_max Hmax k _ _ c x Hsch Hx) as (g & tb & E1 & Hsch1); [by eapply thread_ok_masks|].
  set (k1 := put k (links k) g tb (threads k)) in *. rewrite <- HP in Hsch1.
  assert (winv k1 (alone c s)) as Hw1 by (by eapply winv_keep).
  pose proof (winv_set k1 s c (with_stat (suspend_stat flag) x) Hw1) as Hw2. set (k2 := {k1 with threads ::= _}) in *.
  destruct (timer_stop_world k2 _ (thread_timer x) Hw2) as (err & k' & E3 & Hw3 & Hfr & Hth & Hc).
  { by eapply thread_ok_timer in Hx. }
  exists k'. split; [|split; [exact Hw3|split; [|split; [by rewrite Hth|by rewrite Hc]]]].
  - unfold rt_thread_suspend_with_flag. step (by eapply assert_thread_run). step (reflexivity). rewrite Hcur, bool_decide_eq_true_2 by done.
    step (reflexivity). step (by apply thread_run).
    assert (stat_of x = RT_THREAD_RUNNING) as -> by (unfold state_is in Hrun; by apply Z.eqb_eq in Hrun).
    change (negb (RT_THREAD_RUNNING =? RT_THREAD_READY) && negb (RT_THREAD_RUNNING =? RT_THREAD_RUNNING)) with false. cbv iota.
    step (exact E1). rewrite bind_run with (a := tt) (s1 := k2).
    2:{ unfold rt_thread_set_suspend_state. rewrite bind_run with (a := suspend_stat flag) (s1 := k1) by (destruct Hf as [-> | [-> | ->]]; reflexivity).
        apply set_thread_run. exact Hx. }
    by step (exact E3).
  - etransitivity; [|exact Hfr]. by split.
Qed.
End Ops.
