(* ===== verification/RtWait.v ===== *)
(** * RT-Thread: joining and leaving a list of waiting threads

    _ipc_list_suspend puts a thread at the end of the list, or in front of the first
    thread that is less urgent ([enqueue]); rt_thread_resume takes a thread out of a list
    and makes it ready. *)
From S2P Require Import Prelude Outcome RtList RtKernel RtSched RtObject RtTimer RtThread RtTimerStart RtTimerFacts.
From S2P Require Import RtSchedFacts RtSchedRun RtWorld RtIpc RtWorldOps.
#[local] Open Scope string_scope.
#[local] Open Scope list_scope.
#[local] Open Scope Z_scope.

Definition prio_of (k : kernel) (t : Z) : Z := match threads k !! t with Some x => current_priority x | None => 0 end.

Lemma prio_of_run k t x : threads k !! t = Some x -> prio_of k t = current_priority x.
Proof. unfold prio_of. by intros ->. Qed.

(** In front of the first thread that is less urgent. *)
Fixpoint by_prio (p : Z -> Z) (t : Z) (ws : list Z) : list Z :=
  match ws with
  | [] => [t]
  | a :: l => if p t <? p a then t :: a :: l else a :: by_prio p t l
  end.

Definition enqueue (flag : Z) (p : Z -> Z) (t : Z) (ws : list Z) : list Z :=
  if flag =? RT_IPC_FLAG_FIFO then ws ++ [t] else by_prio p t ws.

Definition ipc_flag_ok (flag : Z) : Prop := flag = RT_IPC_FLAG_FIFO \/ flag = RT_IPC_FLAG_PRIO.

Lemma by_prio_perm p t ws : by_prio p t ws ≡ₚ t :: ws.
Proof.
  induction ws as [|a l IH]; [done|]. cbn [by_prio]. destruct (p t <? p a); [done|]. rewrite IH. apply Permutation_swap.
Qed.
Lemma enqueue_perm flag p t ws : enqueue flag p t ws ≡ₚ t :: ws.
Proof. unfold enqueue. destruct (flag =? RT_IPC_FLAG_FIFO); [by rewrite Permutation_app_comm|apply by_prio_perm]. Qed.

Lemma by_prio_ext p p' t ws : (forall a, a ∈ t :: ws -> p' a = p a) -> by_prio p' t ws = by_prio p t ws.
Proof.
  induction ws as [|a l IH]; intros He; [done|]. cbn [by_prio]. rewrite (He t), (He a) by set_solver. destruct (p t <? p a); [done|].
  f_equal. apply IH. set_solver.
Qed.

(** A sorted list stays sorted, and threads of one priority keep the order of arrival. *)
Lemma by_prio_sorted p t ws :
  Sorting.Sorted.StronglySorted (fun a b => p a <= p b) ws -> Sorting.Sorted.StronglySorted (fun a b => p a <= p b) (by_prio p t ws).
Proof.
  induction 1 as [|a l Hl IH Ha]; cbn [by_prio]; [repeat constructor|]. destruct (Z.ltb_spec (p t) (p a)).
  - constructor; [by constructor|]. constructor; [lia|]. eapply Forall_impl; [exact Ha|]. cbn. intros. lia.
  - constructor; [done|]. rewrite by_prio_perm. by constructor.
Qed.

Definition wupd (w : knode -> list Z) (h : knode) (l : list Z) : knode -> list Z := fun h' => if decide (h' = h) then l else w h'.
Lemma wupd_same w h l : wupd w h l h = l.
Proof. unfold wupd. by rewrite decide_True. Qed.
Lemma wupd_other w h l h' : h' <> h -> wupd w h l h' = w h'.
Proof. intros. unfold wupd. by rewrite decide_False. Qed.

(** ** The search for the place *)

Lemma insert_loop_run fuel k h c xs ys R :
  rings (links k) ((h, TList <$> (xs ++ ys)) :: (TList c, []) :: R) -> (forall t, t ∈ c :: ys -> is_Some (threads k !! t)) -> (length ys <= fuel)%nat ->
  exists found l,
    for_each fuel h (default h (head (TList <$> ys))) (fun _ n =>
      sthread ← thread_entry n; x ← thread c; y ← thread sthread;
      if current_priority x <? current_priority y then
        on_list (rt_list_insert_before (TList sthread) (TList c)) ;; mret (true, true)
      else mret (false, false)) false k = Ok (found, {k with links := l}) /\
    if found : bool then rings l ((h, TList <$> (xs ++ by_prio (prio_of k) c ys)) :: R)
    else l = links k /\ by_prio (prio_of k) c ys = ys ++ [c].
Proof.
  revert xs fuel. induction ys as [|y ys IH]; intros xs fuel Hr Ht Hf; cbn [fmap list_fmap head default].
  - exists false, (links k). split; [|done]. assert ({k with links := links k} = k) as -> by (by destruct k).
    destruct fuel; cbn [for_each]; by rewrite bool_decide_eq_true_2.
  - pose proof (rings_nodup _ _ _ _ Hr) as [Hh _]%NoDup_cons. pose proof Hr as Hr0. rewrite fmap_app, fmap_cons in Hr, Hh.
    destruct fuel as [|fuel]; [cbn in Hf; lia|]. cbn [for_each]. change (default h (Some (TList y))) with (TList y). rewrite bool_decide_eq_false_2.
    2:{ intros <-. apply Hh, elem_of_app. right. by left. }
    destruct (Ht c) as [x Hx]; [by left|]. destruct (Ht y) as [z Hz]; [right; by left|].
    cbn [by_prio]. rewrite (prio_of_run k c x Hx), (prio_of_run k y z Hz). destruct (Z.ltb_spec (current_priority x) (current_priority z)) as [Hlt|Hge].
    + destruct (ring_insert_before (links k) h (TList c) (TList <$> xs) (TList <$> y :: ys) R) as (l & El & Hl).
      { by rewrite <- fmap_app. }
      exists true, l. split.
      * rewrite bind_run with (a := (true, true)) (s1 := {k with links := l}); [reflexivity|]. step (reflexivity). step (by apply thread_run). step (by apply thread_run).
        rewrite (proj2 (Z.ltb_lt _ _)) by done. step (by apply on_list_run; exact El). reflexivity.
      * by rewrite fmap_app, fmap_cons.
    + destruct (IH (xs ++ [y]) fuel) as (found & l & E & Hl); [by rewrite <- app_assoc|intros t Hin; apply Ht; set_solver|cbn in Hf; lia|].
      exists found, l. split.
      * erewrite bind_run.
        2:{ step (reflexivity). step (by apply thread_run). step (by apply thread_run). rewrite (proj2 (Z.ltb_ge _ _)) by done. reflexivity. }
        cbv beta iota. erewrite bind_run; [|apply on_list_read; exact (ring_next_member _ _ (TList <$> xs) (TList y) (TList <$> ys) _ Hr)]. exact E.
      * destruct found; [by rewrite <- app_assoc in Hl|]. destruct Hl as [-> ->]. done.
Qed.

Lemma insert_ring_run k h c flag ws R :
  rings (links k) ((h, TList <$> ws) :: (TList c, []) :: R) -> (forall t, t ∈ c :: ws -> is_Some (threads k !! t)) -> ipc_flag_ok flag ->
  exists l, ipc_list_insert h c flag k = Ok (tt, {k with links := l}) /\ rings l ((h, TList <$> enqueue flag (prio_of k) c ws) :: R).
Proof.
  intros Hr Ht Hf. assert (forall l, {{k with links := links k} with links := l} = {k with links := l}) as Hid by done.
  destruct (ring_insert_before (links k) h (TList c) (TList <$> ws) [] R) as (l0 & E0 & Hl0); [by rewrite app_nil_r|].
  cbn [head default] in E0. assert ((TList <$> ws) ++ [TList c] = TList <$> (ws ++ [c])) as Hfm by (by rewrite fmap_app). rewrite Hfm in Hl0.
  unfold ipc_list_insert, enqueue. destruct Hf as [-> | ->].
  - change (RT_IPC_FLAG_FIFO =? RT_IPC_FLAG_FIFO) with true. cbv iota. exists l0. split; [by apply on_list_run|done].
  - change (RT_IPC_FLAG_PRIO =? RT_IPC_FLAG_FIFO) with false. change (RT_IPC_FLAG_PRIO =? RT_IPC_FLAG_PRIO) with true. cbv iota.
    destruct (insert_loop_run (size (links k)) k h c [] ws R Hr Ht) as (found & l & E & Hl).
    { pose proof (ring_size _ _ _ _ Hr) as Hs. rewrite length_fmap in Hs. lia. }
    unfold insert_by_priority, rt_list_for_each. erewrite bind_run.
    2:{ step (apply on_list_read; by rewrite (ring_next _ _ _ _ Hr)). step (reflexivity). exact E. }
    destruct found; cbn [negb when].
    + exists l. split; [reflexivity|exact Hl].
    + destruct Hl as [-> ->]. assert ({k with links := links k} = k) as -> by (by destruct k). exists l0. split; [by apply on_list_run|done].
Qed.

Section Wait.
Variable prio_max : Z.
Context (Hmax : 0 < prio_max <= 256).
Abbreviation masks_ok := (masks_ok prio_max).
Abbreviation sched_inv := (sched_inv prio_max).
Abbreviation prio_rings := (prio_rings prio_max).
Abbreviation winv := (winv prio_max).
Abbreviation thread_ok := (thread_ok prio_max).

(** ** Lists of waiting threads *)

Lemma heads_nodup (st : gmap knode (knode * knode)) R : rings st R -> NoDup R.*1.
Proof using Type.
  intros [_ Hnd]. induction R as [|[h ns] R IH]; [constructor|]. unfold nodes in *. cbn in *.
  apply NoDup_cons in Hnd as [Hn Hnd]. apply NoDup_app in Hnd as (_ & _ & Hnd). apply NoDup_cons. split; [|by apply IH].
  intros Hin. apply Hn. apply elem_of_app. right. apply list_elem_of_fmap in Hin as ([h' ns'] & -> & Hin).
  apply list_elem_of_bind. exists (h', ns'). split; [by left|done].
Qed.

Lemma wheads_nodup k s : winv k s -> NoDup (wheads s).
Proof using Type.
  intros Hw. pose proof (heads_nodup _ _ (si_rings _ _ _ _ (wi_sched _ _ _ Hw))) as Hnd.
  unfold world_rings in Hnd. rewrite !fmap_app in Hnd. apply NoDup_app in Hnd as (_ & _ & Hnd). apply NoDup_app in Hnd as (Hnd & _ & _).
  unfold wait_rings in Hnd. rewrite <- list_fmap_compose in Hnd. by rewrite (list_fmap_ext (fst ∘ wait_ring (wwait s)) id), list_fmap_id in Hnd by done.
Qed.

Definition set_wait (h : knode) (l : list Z) (s : world) : world := {s with wwait ::= (fun w => wupd w h l)}.

(** The other lists. *)
Definition rest_rings (s : world) (h : knode) : list kring :=
  (wait_ring (wwait s) <$> filter (fun h' => h' <> h) (wheads s)) ++ active_ring s :: idle_rings s ++ wother s.

Lemma world_rings_at s h : h ∈ wheads s -> NoDup (wheads s) -> world_rings s ≡ₚ (h, TList <$> wwait s h) :: rest_rings s h.
Proof using Type.
  intros Hh Hnd. unfold world_rings, rest_rings, wait_rings.
  transitivity ((wait_ring (wwait s) <$> (h :: filter (fun h' => h' <> h) (wheads s))) ++ active_ring s :: idle_rings s ++ wother s); [|done].
  apply Permutation_app_tail.
  apply Permutation_map. by apply perm_filter.
Qed.

Lemma rest_rings_set s h l : rest_rings (set_wait h l s) h = rest_rings s h.
Proof using Type.
  unfold rest_rings, set_wait, active_ring, idle_rings. cbn. f_equal. apply list_fmap_ext.
  intros i a Ha%list_elem_of_lookup_2%list_elem_of_filter. unfold wait_ring. by rewrite wupd_other by apply Ha.
Qed.

Lemma world_rings_set s h l : h ∈ wheads s -> NoDup (wheads s) -> world_rings (set_wait h l s) ≡ₚ (h, TList <$> l) :: rest_rings s h.
Proof using Type.
  intros Hh Hnd. rewrite (world_rings_at _ h), rest_rings_set by done. cbn. by rewrite wupd_same.
Qed.

Lemma world_rings_alone c s : world_rings (alone c s) ≡ₚ (TList c, []) :: world_rings s.
Proof using Type. unfold world_rings, alone, wait_rings, active_ring, idle_rings. cbn. solve_Permutation. Qed.

(** Only the links have changed. *)
Lemma winv_links k l s s' :
  winv k s -> rings l (prio_rings (wq s') ++ world_rings s') -> wq s' = wq s -> wactive s' = wactive s -> widle s' = widle s -> wdue s' = wdue s ->
  (forall h t, h ∈ wheads s' -> t ∈ wwait s' h -> suspended k t /\ thread_ok k s t) -> winv {k with links := l} s'.
Proof using Type.
  intros [Hsch [Hr Ht Hs] Hac Hid Hwa Hre] Hl Eq Ea Ei Ed Hw. assert (wtimers s' = wtimers s) as Et by (unfold wtimers; congruence).
  split.
  - rewrite Eq in Hl |- *. by eapply sched_inv_change.
  - apply timers_of_rings; [done|by rewrite Ea, Ed|by rewrite Ea, Ed].
  - rewrite Ea. intros t Hin. by destruct (Hac t Hin).
  - rewrite Ei. intros t Hin. by destruct (Hid t Hin).
  - intros h t Hh Hin. destruct (Hw h t Hh Hin) as [H1 H2]. split; [exact H1|]. by apply (thread_ok_objects _ k _ s); [| |rewrite Et|].
  - rewrite Eq. intros p t Hp Hin. apply (thread_ok_objects _ k _ s); [done|done|by rewrite Et|]. by eapply Hre.
Qed.

(** The suspended thread [c] has been linked into the list [h]. *)
Lemma join_world k l s c h ws :
  winv k (alone c s) -> h ∈ wheads s -> suspended k c -> thread_ok k s c -> ws ≡ₚ c :: wwait s h ->
  (forall R, rings (links k) ((h, TList <$> wwait s h) :: (TList c, []) :: R) -> rings l ((h, TList <$> ws) :: R)) ->
  winv {k with links := l} (set_wait h ws s).
Proof using Type.
  clear Hmax. intros Hw Hh Hsu Hok Hws Hl. pose proof (wheads_nodup _ _ Hw) as Hnd. change (wheads (alone c s)) with (wheads s) in Hnd.
  pose proof (si_rings _ _ _ _ (wi_sched _ _ _ Hw)) as Hr. change (wq (alone c s)) with (wq s) in Hr.
  rewrite world_rings_alone, (world_rings_at s h) in Hr by done. eapply winv_links; [exact Hw| |done..|].
  - rewrite world_rings_set by done. change (wq (set_wait _ _ s)) with (wq s).
    assert (rings (links k) ((h, TList <$> wwait s h) :: (TList c, []) :: prio_rings (wq s) ++ rest_rings s h)) as Hr'.
    { match goal with |- rings _ ?R1 => match type of Hr with rings _ ?R2 => assert (R1 ≡ₚ R2) as -> by solve_Permutation end end. exact Hr. }
    apply Hl in Hr'. match goal with |- rings _ ?R1 => match type of Hr' with rings _ ?R2 => assert (R1 ≡ₚ R2) as -> by solve_Permutation end end. exact Hr'.
  - intros h' t Hh' Hin. cbn in Hh', Hin. unfold wupd in Hin. case_decide as Hd.
    + subst h'. rewrite Hws in Hin. apply elem_of_cons in Hin as [->|Hin]; [done|]. by apply (wi_waiting _ _ _ Hw h t).
    + by apply (wi_waiting _ _ _ Hw h' t).
Qed.

Lemma wait_world k s c h flag :
  winv k (alone c s) -> h ∈ wheads s -> suspended k c -> thread_ok k s c -> ipc_flag_ok flag ->
  exists l, ipc_list_insert h c flag k = Ok (tt, {k with links := l}) /\
    winv {k with links := l} (set_wait h (enqueue flag (prio_of k) c (wwait s h)) s).
Proof using Hmax.
  intros Hw Hh Hsu Hok Hf. pose proof (wheads_nodup _ _ Hw) as Hnd. change (wheads (alone c s)) with (wheads s) in Hnd.
  assert (forall t, t ∈ c :: wwait s h -> is_Some (threads k !! t)) as Hth.
  { intros t Ht. apply elem_of_cons in Ht as [->|Ht]; [by destruct Hsu as (x & -> & _)|]. by destruct (wi_waiting _ _ _ Hw h t Hh Ht) as [(x & -> & _) _]. }
  assert (forall R, rings (links k) ((h, TList <$> wwait s h) :: (TList c, []) :: R) -> exists l, ipc_list_insert h c flag k = Ok (tt, {k with links := l}) /\
    rings l ((h, TList <$> enqueue flag (prio_of k) c (wwait s h)) :: R)) as Hop by (intros R HR; by apply insert_ring_run).
  pose proof (si_rings _ _ _ _ (wi_sched _ _ _ Hw)) as Hr. change (wq (alone c s)) with (wq s) in Hr.
  rewrite world_rings_alone, (world_rings_at s h) in Hr by done.
  destruct (Hop (prio_rings (wq s) ++ rest_rings s h)) as (l & El & _).
  { match goal with |- rings _ ?R1 => match type of Hr with rings _ ?R2 => assert (R1 ≡ₚ R2) as -> by solve_Permutation end end. exact Hr. }
  exists l. split; [done|]. apply (join_world k l s c h); [done..|by rewrite enqueue_perm|]. intros R HR.
  destruct (Hop R HR) as (l' & El' & Hl'). pose proof (eq_trans (eq_sym El) El') as E.
  apply (f_equal (fun r => match r with Ok (_, k0) => links k0 | _ => l end)) in E. change (l = l') in E. by subst l'.
Qed.

(** ** rt_thread_resume *)

(** The thread [t], in no list, is put into the ready queue and its timer is stopped. *)
Definition inserted (x : rt_thread) (t : Z) (s : world) : world :=
  {s with wq ::= (fun q => upd q (current_priority x) (if yields x then q (current_priority x) ++ [t] else t :: q (current_priority x)))}.
Definition woke (x : rt_thread) (t : Z) (s : world) : world := inserted x t (stop_timer (thread_timer x) s).
Definition wake (x : rt_thread) (t : Z) (h : knode) (l : list Z) (s : world) : world := woke x t (set_wait h l s).

Lemma stop_timer_fields tm s : wq (stop_timer tm s) = wq s /\ wheads (stop_timer tm s) = wheads s /\ wwait (stop_timer tm s) = wwait s /\
  wother (stop_timer tm s) = wother s /\ wdue (stop_timer tm s) = wdue s.
Proof using Type. unfold stop_timer. by case_decide. Qed.
Lemma stop_timer_alone tm c s : stop_timer tm (alone c s) = alone c (stop_timer tm s).
Proof using Type. unfold stop_timer. change (wactive (alone c s)) with (wactive s). by case_decide. Qed.

Lemma insert_alone k s t x :
  winv k (alone t s) -> thread_ok k s t -> threads k !! t = Some x -> rt_current_thread k <> Some t ->
  exists k', rt_schedule_insert_thread prio_max t k = Ok (tt, k') /\ winv k' (inserted x t s) /\ frame k k' /\
    threads k' = <[t := with_stat RT_THREAD_READY x]> (threads k) /\ rt_current_thread k' = rt_current_thread k.
Proof using Hmax.
  intros Hw Hok Hx Hc. pose proof (wi_sched _ _ _ Hw) as Hsch. rewrite world_rings_alone in Hsch. change (wq (alone t s)) with (wq s) in Hsch.
  assert (masks_ok x) as Hm by (by eapply thread_ok_masks).
  destruct (insert_run prio_max Hmax k (wq s) _ t x Hsch Hx Hm Hc) as (l3 & g & tb & E3 & Hsch3).
  set (k3 := put k l3 g tb _) in *. assert (frame k k3) as Hf3 by (by split).
  exists k3. split; [done|]. split; [|split; [done|split; [by unfold k3; rewrite put_threads|done]]].
  set (s3 := inserted x t s). assert (sched_inv k3 (wq s3) (world_rings s3)) as Hs3 by exact Hsch3.
  pose proof Hw as [_ [_ Hti Hso] Hac Hid Hwa Hre].
  assert (forall a, a <> t -> thread_ok k s a -> thread_ok k3 s3 a) as Hkeep.
  { intros a Ha. apply thread_ok_objects; [|done|done]. unfold k3. rewrite put_threads. by apply lookup_insert_ne. }
  assert (thread_ok k3 s3 t) as Hok3.
  { destruct Hok as (x0 & o & Hx0 & _ & Ho & Hty & Htm). assert (x0 = x) as -> by congruence.
    exists (with_stat RT_THREAD_READY x), o. split; [apply lookup_insert_eq|]. split; [by destruct Hm|]. done. }
  split; [done| |intros a Ha; by destruct (Hac a Ha)|intros a Ha; by destruct (Hid a Ha)| |].
  - apply timers_of_rings; [apply Hs3|done|done].
  - intros h' t' Hh' Hin. assert (t' <> t) as Hne by (by eapply (alone_waiting prio_max k s t h' t' Hw)).
    destruct (Hwa h' t' Hh' Hin) as [(y & Hy & Hsy) Hoy]. split; [|by apply Hkeep].
    exists y. unfold k3. rewrite put_threads, lookup_insert_ne by done. done.
  - intros p t' Hp Hin. destruct (decide (t' = t)) as [->|Hne]; [done|]. apply Hkeep; [done|]. apply (Hre p t' Hp). change (wq (alone t s)) with (wq s).
    unfold s3, inserted, upd in Hin. cbn in Hin. case_decide as Hd; [subst p|done]. destruct (yields x); set_solver.
Qed.

Lemma ready_alone k s t x :
  winv k (alone t s) -> thread_ok k s t -> threads k !! t = Some x -> rt_current_thread k <> Some t ->
  exists k', (rt_timer_stop 1 (thread_timer x) ;; rt_schedule_insert_thread prio_max t ;; mret RT_EOK) k = Ok (RT_EOK, k') /\ winv k' (woke x t s) /\ frame k k' /\
    threads k' = <[t := with_stat RT_THREAD_READY x]> (threads k) /\ rt_current_thread k' = rt_current_thread k.
Proof using Hmax.
  intros Hw Hok Hx Hc. destruct (timer_stop_world prio_max Hmax k _ (thread_timer x) Hw) as (err & k2 & E2 & Hw2 & Hf2 & Ht2 & Hc2).
  { by eapply thread_ok_timer in Hx. }
  rewrite stop_timer_alone in Hw2. destruct (insert_alone k2 (stop_timer (thread_timer x) s) t x Hw2) as (k3 & E3 & Hw3 & Hf3 & Ht3 & Hc3).
  { eapply thread_ok_frame; [exact Hf2|by rewrite Ht2| |exact Hok]. apply stop_timer_timers. by eapply (timers_inv_nodup k false), Hw. }
  { by rewrite Ht2. }
  { by rewrite Hc2. }
  exists k3. split; [step (exact E2); by step (exact E3)|]. split; [exact Hw3|]. split; [by etransitivity|]. split; [by rewrite Ht3, Ht2|congruence].
Qed.

(** The thread [t] leaves the list [h]. *)
Lemma leave_list k s h xs t ys :
  winv k s -> h ∈ wheads s -> wwait s h = xs ++ t :: ys ->
  exists l, rt_list_remove (TList t) (links k) = Ok (tt, l) /\ winv {k with links := l} (alone t (set_wait h (xs ++ ys) s)).
Proof using Type.
  clear Hmax. intros Hw Hh Hws. pose proof (wheads_nodup _ _ Hw) as Hnd. set (s1 := set_wait h (xs ++ ys) s). pose proof (si_rings _ _ _ _ (wi_sched _ _ _ Hw)) as Hr.
  destruct (ring_remove (links k) h (TList t) (TList <$> xs) (TList <$> ys) (prio_rings (wq s) ++ rest_rings s h)) as (l & El & Hl0).
  { assert ((h, (TList <$> xs) ++ TList t :: (TList <$> ys)) :: prio_rings (wq s) ++ rest_rings s h ≡ₚ prio_rings (wq s) ++ world_rings s) as ->; [|done].
    rewrite (world_rings_at s h), Hws, fmap_app, fmap_cons by done. solve_Permutation. }
  assert (rings l (prio_rings (wq s) ++ world_rings (alone t s1))) as Hl.
  { rewrite world_rings_alone. unfold s1. rewrite world_rings_set, fmap_app by done.
    match goal with |- rings _ ?R => match type of Hl0 with rings _ ?R2 => assert (R ≡ₚ R2) as -> by solve_Permutation end end. done. }
  exists l. split; [done|]. eapply winv_links; [exact Hw|exact Hl|done..|]. intros h' t' Hh' Hin. cbn in Hh', Hin. unfold wupd in Hin. case_decide as Hd; [subst h'|].
  - apply (wi_waiting _ _ _ Hw h t' Hh). rewrite Hws. set_solver.
  - by apply (wi_waiting _ _ _ Hw h' t').
Qed.

Lemma resume_world k s h xs t ys x :
  winv k s -> h ∈ wheads s -> wwait s h = xs ++ t :: ys -> rt_current_thread k <> Some t -> threads k !! t = Some x ->
  exists k', rt_thread_resume prio_max 1 t k = Ok (RT_EOK, k') /\ winv k' (wake x t h (xs ++ ys) s) /\ frame k k' /\
    threads k' = <[t := with_stat RT_THREAD_READY x]> (threads k) /\ rt_current_thread k' = rt_current_thread k.
Proof using Hmax.
  intros Hw Hh Hws Hc Hx. destruct (wi_waiting _ _ _ Hw h t Hh) as [(x' & Hx' & Hsu) Hok]; [rewrite Hws; set_solver|]. assert (x' = x) as -> by congruence.
  destruct (leave_list k s h xs t ys Hw Hh Hws) as (l & El & Hw1). set (k1 := {k with links := l}) in *.
  destruct (ready_alone k1 _ t x Hw1 Hok Hx Hc) as (k' & E & Hw' & Hf & Hth & Hcu). exists k'. split; [|split; [exact Hw'|split; [|done]]].
  - unfold rt_thread_resume. step (by eapply assert_thread_run). step (by apply thread_run). rewrite Hsu. cbn [negb].
    step (by apply on_list_run; exact El). exact E.
  - etransitivity; [|exact Hf]. by split.
Qed.

(** The same for a suspended thread in no list. *)
Lemma resume_alone k s t x :
  winv k (alone t s) -> thread_ok k s t -> threads k !! t = Some x -> is_suspended x = true -> rt_current_thread k <> Some t ->
  exists k', rt_thread_resume prio_max 1 t k = Ok (RT_EOK, k') /\ winv k' (woke x t s) /\ frame k k' /\
    threads k' = <[t := with_stat RT_THREAD_READY x]> (threads k) /\ rt_current_thread k' = rt_current_thread k.
Proof using Hmax.
  intros Hw Hok Hx Hsu Hc. destruct (ready_alone k s t x Hw Hok Hx Hc) as (k' & E & H). exists k'. split; [|done].
  assert (rings (links k) ((TList t, []) :: prio_rings (wq s) ++ world_rings s)) as Hr.
  { pose proof (si_rings _ _ _ _ (wi_sched _ _ _ Hw)) as Hr. rewrite world_rings_alone in Hr. by rewrite <- Permutation_middle in Hr. }
  unfold rt_thread_resume. step (by eapply assert_thread_run). step (by apply thread_run). rewrite Hsu. cbn [negb].
  rewrite bind_run with (a := tt) (s1 := k); [exact E|]. rewrite (on_list_run _ _ _ _ (ring_remove_single _ _ _ Hr)). by destruct k.
Qed.
End Wait.
