(* ===== verification/RtWorldSched.v ===== *)
(** * RT-Thread: rescheduling and starting a timer in terms of the description of the state *)
From stdpp Require Import sorting.
From S2P Require Import Prelude Outcome RtList RtKernel RtSched RtObject RtTimer RtThread RtTimerStart RtTimerFacts.
From S2P Require Import RtSchedFacts RtSchedRun RtWorld RtIpc RtWorldOps RtWait.
#[local] Open Scope string_scope.
#[local] Open Scope list_scope.
#[local] Open Scope Z_scope.

(** rt_schedule changes nothing but lists, the ready bits and the states of threads. *)
Record sched_step (k k' : kernel) : Prop := {
  ss_timers : timers k' = timers k;
  ss_objects : objects k' = objects k;
  ss_frame : frame k k';
  ss_threads : forall t x, threads k !! t = Some x -> exists st, threads k' !! t = Some {x with stat := st};
}.

#[export] Instance sched_step_preorder : PreOrder sched_step.
Proof.
  split.
  - intros k. split; [done..|reflexivity|]. intros t x Hx. exists (stat x). by destruct x.
  - intros k1 k2 k3 [A1 A2 A3 A4] [B1 B2 B3 B4]. split; [congruence..|by etransitivity|]. intros t x Hx.
    destruct (A4 t x Hx) as [st1 H1]. destruct (B4 t _ H1) as [st2 H2]. by exists st2.
Qed.

Lemma sched_step_set_thread t f : (forall x, f x = {x with stat := stat (f x)}) -> respects sched_step (set_thread t f).
Proof.
  intros Hf k u k' E. unfold set_thread in E. run_simpl in E. destruct (threads k !! t) as [x|] eqn:Ex; [|done]. injection E as <- <-.
  split; [done..|by split|]. intros t' y Hy. change (exists st, <[t := f x]> (threads k) !! t' = Some {y with stat := st}). destruct (decide (t' = t)) as [->|Hne].
  - rewrite lookup_insert_eq. assert (y = x) as -> by congruence. eexists. by rewrite Hf.
  - rewrite lookup_insert_ne by done. exists (stat y). rewrite Hy. by destruct y.
Qed.

Lemma sched_step_modify f :
  (forall k, timers (f k) = timers k /\ objects (f k) = objects k /\ threads (f k) = threads k /\ frame k (f k)) -> respects sched_step (modify f).
Proof.
  intros Hf k u k' E. run_inv. destruct (Hf k) as (H1 & H2 & H3 & H4). split; [done..|]. intros t x Hx. exists (stat x). rewrite H3, Hx. by destruct x.
Qed.

Lemma sched_step_get {A} (g : kernel -> K A) : (forall k, respects sched_step (g k)) -> respects sched_step (get ≫= g).
Proof. intros Hg k a k' E. by apply (Hg k k a). Qed.

Lemma sched_step_on_list {A} (m : ST (gmap knode (knode * knode)) A) : respects sched_step (on_list m).
Proof.
  intros k a k' E. unfold on_list in E. destruct (m (links k)) as [[b l]| |]; [|done|done]. injection E as <- <-.
  split; [done..|by split|]. intros t x Hx. exists (stat x). change (threads k !! t = Some {x with stat := stat x}). rewrite Hx. by destruct x.
Qed.

Lemma sched_step_thread t : respects sched_step (thread t).
Proof. unfold thread. apply sched_step_get. intros k. destruct (threads k !! t); respects_tac. Qed.
Lemma sched_step_current : respects sched_step current.
Proof. unfold current. apply sched_step_get. intros k. destruct (rt_current_thread k); respects_tac. Qed.

#[export] Hint Resolve sched_step_on_list sched_step_thread sched_step_current : respects.

Ltac sched_tac :=
  repeat match goal with
  | |- respects sched_step (get ≫= _) => apply sched_step_get; intros ?
  | |- respects sched_step (set_thread _ _) => apply sched_step_set_thread; intros ?; reflexivity
  | |- respects sched_step (modify _) => apply sched_step_modify; intros ?; done
  | |- respects sched_step (let '(_, _) := ?p in _) => destruct p
  | _ => respects_step
  end.

Lemma sched_step_remove prio_max t : respects sched_step (rt_schedule_remove_thread prio_max t).
Proof. unfold rt_schedule_remove_thread, clear_ready_bits. sched_tac. Qed.

Lemma sched_step_insert prio_max t : respects sched_step (rt_schedule_insert_thread prio_max t).
Proof. unfold rt_schedule_insert_thread, set_ready_bits. sched_tac. Qed.

#[export] Hint Resolve sched_step_remove sched_step_insert : respects.

Lemma sched_step_schedule prio_max : respects sched_step (rt_schedule prio_max).
Proof. unfold rt_schedule, scheduler_get_highest_priority_thread, choose_thread. sched_tac. Qed.

Section WorldSched.
Variable prio_max : Z.
Context (Hmax : 0 < prio_max <= 256).
Abbreviation masks_ok := (masks_ok prio_max).
Abbreviation sched_inv := (sched_inv prio_max).
Abbreviation winv := (winv prio_max).
Abbreviation thread_ok := (thread_ok prio_max).
Abbreviation runs := (runs prio_max).
Abbreviation ready := (ready prio_max).

Lemma elem_of_ready q t : t ∈ ready q <-> exists p, 0 <= p < prio_max /\ t ∈ q p.
Proof using Type.
  clear Hmax. unfold RtSchedRun.ready. rewrite list_elem_of_bind. split.
  - intros (p & Hin & Hp%elem_of_seqZ). exists p. split; [lia|done].
  - intros (p & Hp & Hin). exists p. split; [done|]. apply elem_of_seqZ. lia.
Qed.

(** A thread that waits is in no queue. *)
Lemma waiting_ready k s h t p : winv k s -> h ∈ wheads s -> t ∈ wwait s h -> 0 <= p < prio_max -> t ∉ wq s p.
Proof using Type.
  intros Hw Hh Ht Hp Hin. pose proof (si_rings _ _ _ _ (wi_sched _ _ _ Hw)) as [_ Hnd].
  unfold nodes in Hnd. rewrite bind_app in Hnd. apply NoDup_app in Hnd as (_ & Hd & _). apply (Hd (TList t)).
  - apply list_elem_of_bind. exists (prio_ring (wq s) p). split; [right; by apply list_elem_of_fmap_2|].
    apply list_elem_of_fmap_2, elem_of_seqZ. lia.
  - unfold world_rings. rewrite bind_app. apply elem_of_app. left. apply list_elem_of_bind. exists (wait_ring (wwait s) h).
    split; [right; by apply list_elem_of_fmap_2|by apply list_elem_of_fmap_2].
Qed.

Lemma suspended_state s x : is_suspended x = true -> in_u 2 s -> state_is s x = false.
Proof using Type.
  intros Hs Hu. unfold is_suspended in Hs. unfold state_is. apply Z.eqb_eq in Hs. apply Z.eqb_neq. intros E.
  assert (Z.testbit (Z.land (stat x) RT_THREAD_STAT_MASK) 2 = true) as Hb.
  { apply (f_equal (fun z => Z.testbit z 2)) in Hs. rewrite Z.land_spec in Hs |- *. change (Z.testbit RT_THREAD_STAT_MASK 2) with true.
    change (Z.testbit RT_THREAD_SUSPEND_MASK 2) with true in Hs. done. }
  rewrite E, (testbit_high 2) in Hb by (done || lia). done.
Qed.

Lemma thread_ok_step k k' s s' t : sched_step k k' -> wtimers s' = wtimers s -> thread_ok k s t -> thread_ok k' s' t.
Proof using Type.
  intros Hst Hs (x & o & Hx & [Hm1 Hm2] & Ho & Hty & Hin). destruct (ss_threads _ _ Hst t x Hx) as [st Hx'].
  exists {x with stat := st}, o. rewrite (ss_objects _ _ Hst), Hs. done.
Qed.

(** The new state of the scheduler, and what becomes of the rest. *)
Lemma winv_resched k k' s0 s q' c' :
  winv k s0 -> wheads s0 = wheads s -> wwait s0 = wwait s -> wactive s0 = wactive s -> widle s0 = widle s -> wdue s0 = wdue s ->
  sched_step k k' -> sched_inv k' q' ((TList c', []) :: world_rings s) ->
  (forall h t, h ∈ wheads s -> t ∈ wwait s h -> threads k' !! t = threads k !! t) -> (forall t, t ∈ ready q' -> thread_ok k s t) ->
  winv k' (alone c' {s with wq := q'}).
Proof using Type.
  intros [_ [_ Hti Hso] Hac Hid Hwa _] Eh Ew Ea Ei Ed Hst Hinv Hwt Hrd. rewrite Eh, Ew in Hwa. rewrite Ea in *. rewrite Ei in Hid. rewrite Ed in Hti, Hso.
  assert (forall t, thread_ok k s0 t -> thread_ok k s t) as Hok0.
  { intros t. apply thread_ok_objects; [done|done|]. unfold wtimers. by rewrite Ea, Ei. }
  assert (sched_inv k' (wq (alone c' {s with wq := q'})) (world_rings (alone c' {s with wq := q'}))) as Hs'.
  { assert (world_rings (alone c' {s with wq := q'}) ≡ₚ (TList c', []) :: world_rings s) as HP by exact (world_rings_alone c' {s with wq := q'}). rewrite HP. exact Hinv. }
  assert (forall t, thread_ok k s t -> thread_ok k' (alone c' {s with wq := q'}) t) as Hok1.
  { intros t. by apply thread_ok_step. }
  split; [done| | | | |].
  - apply timers_of_rings; [apply Hs'|by rewrite (ss_timers _ _ Hst)|done].
  - intros t Hin. destruct (Hac t Hin) as [H1 H2]. split; [by rewrite (ss_timers _ _ Hst)|by rewrite (ss_objects _ _ Hst)].
  - intros t Hin. destruct (Hid t Hin) as [H1 H2]. split; [by rewrite (ss_timers _ _ Hst)|by rewrite (ss_objects _ _ Hst)].
  - intros h t Hh Hin. destruct (Hwa h t Hh Hin) as [(x & Hx & Hsu) Hok]. split; [exists x; by rewrite (Hwt h t)|auto].
  - intros p t Hp Hin. apply Hok1, Hrd, elem_of_ready. eauto.
Qed.

(** What rt_schedule leaves: a running system with the most urgent thread at work. *)
Definition urgent (q : queues) (x : rt_thread) : Prop := forall p, 0 <= p < current_priority x -> q p = [].

Lemma schedule_runs k s c x :
  runs k s c x -> rt_scheduler_lock_nest k = 0 ->
  exists k' q' c' x', rt_schedule prio_max k = Ok (tt, k') /\ runs k' {s with wq := q'} c' x' /\ urgent q' x' /\
    c' :: ready q' ≡ₚ c :: ready (wq s) /\ sched_step k k'.
Proof using Hmax.
  intros [Hw Hcur Hx Hok Hs] Hlock. pose proof (wi_sched _ _ _ Hw) as Hsch. rewrite world_rings_alone in Hsch. change (wq (alone c s)) with (wq s) in Hsch.
  destruct (schedule_running prio_max Hmax k (wq s) _ c x Hsch Hlock Hcur Hx) as (k' & q' & c' & x' & E & H1 & H2 & H3 & H4 & H5 & H6 & H7 & H8);
    [by eapply thread_ok_masks|done|].
  pose proof (sched_step_schedule prio_max k tt k' E) as Hst.
  assert (forall t, t ∈ c' :: ready q' -> thread_ok k s t) as Hall.
  { intros t Ht. rewrite H7 in Ht. apply elem_of_cons in Ht as [->|(p & Hp & Ht)%elem_of_ready]; [done|]. by apply (wi_ready _ _ _ Hw p t). }
  exists k', q', c', x'. split; [done|]. split; [|by split]. split; [|done|done| |done].
  - eapply winv_resched; [exact Hw|done..| |].
    + intros h t Hh Ht. apply H8. split; [by eapply alone_waiting|]. intros p Hp. by eapply (waiting_ready k (alone c s)).
    + intros t Ht. apply Hall. by right.
  - eapply thread_ok_step; [exact Hst|reflexivity|]. apply Hall. by left.
Qed.

(** A thread that waits calls rt_schedule. *)
Lemma schedule_waits k s h c p0 :
  winv k s -> h ∈ wheads s -> c ∈ wwait s h -> rt_current_thread k = Some c -> rt_scheduler_lock_nest k = 0 ->
  0 <= p0 < prio_max -> wq s p0 <> [] ->
  exists k' q' c' x', rt_schedule prio_max k = Ok (tt, k') /\ runs k' {s with wq := q'} c' x' /\ urgent q' x' /\
    c' :: ready q' ≡ₚ ready (wq s) /\ sched_step k k' /\ threads k' !! c = threads k !! c.
Proof using Hmax.
  intros Hw Hh Hc Hcur Hlock Hp0 Hq0. destruct (wi_waiting _ _ _ Hw h c Hh Hc) as [(x & Hx & Hsu) Hok].
  destruct (schedule_stopped prio_max Hmax k (wq s) _ c x p0 (wi_sched _ _ _ Hw) Hlock Hcur Hx) as (k' & q' & c' & x' & E & H1 & H2 & H3 & H4 & H5 & H6 & H7 & H8);
    [by intros p Hp; eapply waiting_ready|by apply suspended_state|done|done|].
  pose proof (sched_step_schedule prio_max k tt k' E) as Hst.
  assert (forall t, t ∈ c' :: ready q' -> t ∈ ready (wq s)) as Hsub by (intros t Ht; by rewrite H7 in Ht).
  assert (forall t, t ∈ c' :: ready q' -> thread_ok k s t) as Hall.
  { intros t Ht. apply Hsub, elem_of_ready in Ht as (p & Hp & Ht). by apply (wi_ready _ _ _ Hw p t). }
  assert (forall h t, h ∈ wheads s -> t ∈ wwait s h -> threads k' !! t = threads k !! t) as Hsame.
  { intros h' t Hh' Ht. apply H8. intros p Hp. by eapply waiting_ready. }
  exists k', q', c', x'. split; [done|]. split; [|split; [done|split; [done|split; [done|by eapply Hsame]]]]. split; [|done|done| |done].
  - eapply winv_resched; [exact Hw|done..| ]. intros t Ht. apply Hall. by right.
  - eapply thread_ok_step; [exact Hst|reflexivity|]. apply Hall. by left.
Qed.
End WorldSched.

(** ** Starting the timer of a waiting thread *)

(** The timer [tm] runs and is due at [d]. *)
Definition arm (tm d : Z) (s : world) : world :=
  {s with wactive ::= place (set_deadline (wdue s) tm d) d tm; widle ::= filter (fun t => t <> tm); wdue := set_deadline (wdue s) tm d}.

Section WorldTimer.
Variable prio_max : Z.
Context (Hmax : 0 < prio_max <= 256).
Abbreviation sched_inv := (sched_inv prio_max).
Abbreviation prio_rings := (prio_rings prio_max).
Abbreviation winv := (winv prio_max).
Abbreviation thread_ok := (thread_ok prio_max).

Lemma widle_nodup k s : winv k s -> NoDup (widle s).
Proof using Type.
  intros Hw. pose proof (heads_nodup _ _ (si_rings _ _ _ _ (wi_sched _ _ _ Hw))) as Hnd.
  unfold world_rings in Hnd. rewrite !fmap_app, fmap_cons, fmap_app in Hnd. apply NoDup_app in Hnd as (_ & _ & Hnd). apply NoDup_app in Hnd as (_ & _ & Hnd).
  apply NoDup_cons in Hnd as [_ Hnd]. apply NoDup_app in Hnd as (Hnd & _ & _).
  unfold idle_rings in Hnd. rewrite <- list_fmap_compose in Hnd. by apply NoDup_fmap_1 in Hnd.
Qed.

Lemma place_perm D d t ts : place D d t ts ≡ₚ t :: ts.
Proof using Type.
  unfold place. rewrite <- Permutation_middle. f_equiv. induction ts as [|a l IH]; [done|]. rewrite !filter_cons.
  repeat case_decide; try lia; [cbn; by rewrite IH|by rewrite <- Permutation_middle, IH].
Qed.

Lemma arm_timers tm d s : tm ∈ widle s -> NoDup (widle s) -> wtimers (arm tm d s) ≡ₚ wtimers s.
Proof using Type.
  intros Hin Hnd. unfold wtimers. change (wactive (arm tm d s)) with (place (set_deadline (wdue s) tm d) d tm (wactive s)).
  change (widle (arm tm d s)) with (filter (fun t => t <> tm) (widle s)). rewrite place_perm.
  etransitivity; [|apply Permutation_app_head; symmetry; by apply (perm_filter tm)]. solve_Permutation.
Qed.

Lemma start_wait_world mask soft timer_thread k s t x timeout T :
  winv k s -> threads k !! t = Some x -> thread_timer x ∈ widle s -> 0 <= timeout < half_tick -> rt_tick k = u32 T ->
  Forall (fun tm => near (T + timeout) (wdue s tm)) (wactive s) ->
  exists k', start_wait prio_max 1 mask soft timer_thread t timeout k = Ok (tt, k') /\ winv k' (arm (thread_timer x) (T + timeout) s) /\ frame k k' /\
    threads k' = threads k /\ rt_current_thread k' = rt_current_thread k.
Proof using Hmax.
  intros Hw Hx Hid Hto HT Hnear. pose proof (widle_nodup _ _ Hw) as Hnd. set (tm := thread_timer x) in *.
  pose proof Hw as [Hsch Hti Hac Hidle Hwa Hre]. destruct (Hidle tm Hid) as [[y Hy] (o & Ho & Hty & Hact & Hsoft)].
  set (y1 := {y with tm_init_tick := timeout}). set (k1 := {k with timers ::= <[tm := y1]> }).
  pose proof (arm_timers tm (T + timeout) s Hid Hnd) as HP.
  assert (tm ∉ wactive s) as Hna.
  { intros Hin. destruct (Hac tm Hin) as [_ (o2 & Ho2 & _ & Hact2 & _)]. congruence. }
  assert (timers_inv k1 false (wdue s) (wactive s) (prio_rings (wq s) ++ wait_rings s ++ idle_rings s ++ wother s)) as Hti1.
  { destruct Hti as [H1 H2 H3]. split; [done| |done]. intros t' Hin. unfold k1. cbn. rewrite lookup_insert_ne by congruence. by apply H2. }
  set (R' := prio_rings (wq s) ++ wait_rings s ++ idle_rings (arm tm (T + timeout) s) ++ wother s).
  assert (idle_rings s ≡ₚ (row0 tm, []) :: idle_rings (arm tm (T + timeout) s)) as HI.
  { unfold idle_rings. change (widle (arm _ _ s)) with (filter (fun t => t <> tm) (widle s)).
    set (g := fun t : Z => (row0 t, []) : kring). change ((row0 tm, []) :: (g <$> filter (fun t => t <> tm) (widle s))) with (g <$> tm :: filter (fun t => t <> tm) (widle s)).
    apply Permutation_map. by apply perm_filter. }
  destruct (timer_start_run prio_max mask soft timer_thread k1 (wdue s) (wactive s) (prio_rings (wq s) ++ wait_rings s ++ idle_rings s ++ wother s) tm (wactive s) R' y1 o T Hti1)
    as (k' & E & Hinv & Htm & Hob & [Hr1 Hr2 Hr3 Hr4 Hr5 Hr6 Hr7]).
  { right. split; [done|]. unfold R'. rewrite HI. solve_Permutation. }
  { unfold k1. cbn. apply lookup_insert_eq. }
  { done. }
  { done. }
  { by rewrite Hsoft, andb_false_r. }
  { done. }
  { done. }
  change (tm_init_tick y1) with timeout in *. set (s' := arm tm (T + timeout) s) in *.
  assert (frame k k') as Hf.
  { split; try done. intros o2 Ho2. rewrite Hob. cbn. rewrite lookup_insert_ne; [done|]. intros <-. by apply (Ho2 tm). }
  assert (forall t', t' <> tm -> timers k' !! t' = timers k !! t') as Htk.
  { intros t' Hne. rewrite Htm, !lookup_insert_ne by done. unfold k1. cbn. by rewrite lookup_insert_ne. }
  assert (forall t' b, t' <> tm -> timer_ok k b t' -> timer_ok k' b t') as Hkeep.
  { intros t' b Hne [H1 (o2 & H2)]. split; [by rewrite Htk|]. exists o2. rewrite Hob, lookup_insert_ne by congruence. done. }
  exists k'. split; [|split; [|split; [done|split; [exact Hr1|exact Hr5]]]].
  - unfold start_wait. step (by apply thread_run). fold tm. erewrite bind_run.
    2:{ unfold rt_timer_control. step (by eapply assert_timer_run). rewrite bind_run with (a := tt) (s1 := k).
        2:{ unfold assert_that. by rewrite (proj2 (Z.ltb_lt _ _)) by lia. }
        erewrite bind_run; [reflexivity|]. by apply set_timer_run. }
    fold y1 k1. by step (exact E).
  - assert (rings (links k') (prio_rings (wq s') ++ world_rings s')) as Hr'.
    { destruct Hinv as [Hr _ _]. rewrite world_rings_timers. exact Hr. }
    assert (forall t', thread_ok k s t' -> thread_ok k' s' t') as Hok.
    { intros t'. apply thread_ok_frame; [done|by rewrite Hr1|done]. }
    split.
    + apply (sched_inv_change prio_max k k' (wq s) _ _ Hsch Hr'); [intros; by rewrite Hr1|done|done].
    + exact Hinv.
    + intros t' Hin. change (t' ∈ place (set_deadline (wdue s) tm (T + timeout)) (T + timeout) tm (wactive s)) in Hin.
      apply elem_of_place in Hin as [->|Hin]; [|by apply Hkeep; [congruence|auto]].
      split; [rewrite Htm, lookup_insert_eq; done|]. eexists. rewrite Hob, lookup_insert_eq. split; [done|]. split; [done|].
      unfold flag_set, with_flag, without. cbn. split.
      * apply negb_true_iff, Z.eqb_neq. intros Hz. apply (f_equal (fun z => Z.testbit z 0)) in Hz.
        by rewrite Z.bits_0, Z.land_spec, Z.lor_spec, orb_true_r in Hz.
      * rewrite Z.land_lor_distr_l, Z.lor_0_r, <- Z.land_assoc. exact Hsoft.
    + intros t' Hin. change (t' ∈ filter (fun t => t <> tm) (widle s)) in Hin. apply list_elem_of_filter in Hin as [Hne Hin]. apply Hkeep; auto.
    + intros h t' Hh Hin. destruct (Hwa h t' Hh Hin) as [(z & Hz & Hsu) Hokt]. split; [exists z; by rewrite Hr1|auto].
    + intros p t' Hp Hin. apply Hok. by eapply Hre.
Qed.
End WorldTimer.

(** * RT-Thread: deciding that a state is as described

    [check_runs] evaluates the conditions of [runs] on a given state and description, for
    at most 32 priorities. *)

Section Check.
Variable prio_max : Z.
Context (Hmax : 0 < prio_max <= 32).

Definition check_rings (k : kernel) (R : list kring) : bool :=
  forallb (fun e => bool_decide (nx (links k) e.1 = Some e.2) && bool_decide (pv (links k) e.2 = Some e.1)) (R ≫= edges) && bool_decide (NoDup (nodes R)).

Definition check_masks (x : rt_thread) : bool :=
  (0 <=? current_priority x) && (current_priority x <? prio_max) && (number_mask x =? 2 ^ current_priority x).

Definition check_thread (k : kernel) (s : world) (t : Z) : bool :=
  match threads k !! t, objects k !! OThread t with
  | Some x, Some o =>
      check_masks x && (Z.land (ob_type o) (u8 (Z.lnot RT_Object_Class_Static)) =? RT_Object_Class_Thread) && bool_decide (thread_timer x ∈ wtimers s)
  | _, _ => false
  end.

Definition check_on (k : kernel) (t : Z) (P : rt_thread -> bool) : bool := match threads k !! t with Some x => P x | None => false end.

Definition check_timer (k : kernel) (active : bool) (t : Z) : bool :=
  match timers k !! t, objects k !! OTimer t with
  | Some x, Some o =>
      (Z.land (ob_type o) (u8 (Z.lnot RT_Object_Class_Static)) =? RT_Object_Class_Timer) && Bool.eqb (flag_set o RT_TIMER_FLAG_ACTIVATED) active &&
      negb (flag_set o RT_TIMER_FLAG_SOFT_TIMER)
  | _, _ => false
  end.

Fixpoint check_sorted (D : Z -> Z) (ts : list Z) : bool :=
  match ts with [] => true | t :: l => forallb (fun u => D t <=? D u) l && check_sorted D l end.

Definition check_bits (k : kernel) (q : queues) : bool :=
  let g := rt_thread_ready_priority_group k in
  (0 <=? g) && (g <? 2 ^ prio_max) && forallb (fun p => Bool.eqb (Z.testbit g p) (negb (bool_decide (q p = [])))) (seqZ 0 prio_max).

Definition check_world (k : kernel) (s : world) : bool :=
  check_rings k (prio_rings prio_max (wq s) ++ world_rings s) &&
  forallb (fun p => forallb (fun t => check_thread k s t && check_on k t (fun x => (current_priority x =? p) && state_is RT_THREAD_READY x)) (wq s p)) (seqZ 0 prio_max) &&
  check_bits k (wq s) &&
  forallb (fun t => check_timer k true t && match timers k !! t with Some x => timeout_tick x =? u32 (wdue s t) | None => false end) (wactive s) &&
  check_sorted (wdue s) (wactive s) && forallb (check_timer k false) (widle s) &&
  forallb (fun h => forallb (fun t => check_thread k s t && check_on k t is_suspended) (wwait s h)) (wheads s).

Definition check_runs (k : kernel) (s : world) (c : Z) : bool :=
  check_world k (alone c s) && bool_decide (rt_current_thread k = Some c) && check_thread k s c && check_on k c (state_is RT_THREAD_RUNNING).

Lemma forallb_elem {A} (f : A -> bool) l : forallb f l = true <-> forall x, x ∈ l -> f x = true.
Proof using Type. rewrite forallb_forall. setoid_rewrite list_elem_of_In. done. Qed.

Lemma check_rings_sound k R : check_rings k R = true -> rings (links k) R.
Proof using Type.
  unfold check_rings. intros [H1 H2%bool_decide_eq_true]%andb_prop. split; [|done]. apply Forall_forall. intros e He.
  rewrite forallb_elem in H1. specialize (H1 e He). by apply andb_prop in H1 as [H3%bool_decide_eq_true H4%bool_decide_eq_true].
Qed.

Lemma check_masks_sound x : check_masks x = true -> masks_ok prio_max x.
Proof using Hmax.
  unfold check_masks. rewrite !andb_true_iff, Z.leb_le, Z.ltb_lt, Z.eqb_eq. intros [[H1 H2] H3]. split; [lia|].
  unfold two_level. by rewrite (proj2 (Z.ltb_ge _ _)) by lia.
Qed.

Lemma check_thread_sound k s t : check_thread k s t = true -> thread_ok prio_max k s t.
Proof using Hmax.
  unfold check_thread. destruct (threads k !! t) as [x|] eqn:Ex; [|done]. destruct (objects k !! OThread t) as [o|] eqn:Eo; [|done].
  rewrite !andb_true_iff, Z.eqb_eq. intros [[H1 H2] H3%bool_decide_eq_true]. exists x, o. split; [done|]. split; [by apply check_masks_sound|done].
Qed.

Lemma check_on_sound k t P : check_on k t P = true -> exists x, threads k !! t = Some x /\ P x = true.
Proof using Type. unfold check_on. destruct (threads k !! t) as [x|]; [|done]. by exists x. Qed.

Lemma check_timer_sound k a t : check_timer k a t = true -> timer_ok k a t.
Proof using Type.
  unfold check_timer. destruct (timers k !! t) as [x|] eqn:Ex; [|done]. destruct (objects k !! OTimer t) as [o|] eqn:Eo; [|done].
  rewrite !andb_true_iff, Z.eqb_eq, eqb_true_iff, negb_true_iff. intros [[H1 H2] H3]. split; [by rewrite Ex|by exists o].
Qed.

Lemma check_sorted_sound D ts : check_sorted D ts = true -> Sorting.Sorted.StronglySorted (fun a b => D a <= D b) ts.
Proof using Type.
  induction ts as [|t l IH]; cbn [check_sorted]; [by constructor|]. intros [H1 H2]%andb_prop. constructor; [by apply IH|].
  apply Forall_forall. rewrite forallb_elem in H1. intros u Hu. by apply Z.leb_le, H1.
Qed.

Lemma check_bits_sound k q : check_bits k q = true -> bits_ok prio_max k /\ (forall p, 0 <= p < prio_max -> ready_bit prio_max k p = negb (bool_decide (q p = []))).
Proof using Hmax.
  unfold check_bits. rewrite !andb_true_iff, Z.leb_le, Z.ltb_lt, forallb_elem. intros [[H1 H2] H3].
  assert (two_level prio_max = false) as Et by (unfold two_level; by rewrite (proj2 (Z.ltb_ge _ _)) by lia).
  assert (forall p, prio_max <= p -> Z.testbit (rt_thread_ready_priority_group k) p = false) as Hhigh.
  { intros p Hp. apply (testbit_high prio_max); [unfold in_u; lia|lia]. }
  split; [split|].
  - unfold in_u. split; [done|]. eapply Z.lt_le_trans; [exact H2|]. apply Z.pow_le_mono_r; lia.
  - rewrite Et. exact Hhigh.
  - intros p Hp. unfold ready_bit. rewrite Et. apply Hhigh. lia.
  - intros p Hp. unfold ready_bit. rewrite Et. apply eqb_true_iff, H3, elem_of_seqZ. lia.
Qed.

Lemma check_world_sound k s : check_world k s = true -> winv prio_max k s.
Proof using Hmax.
  unfold check_world. rewrite !andb_true_iff, !forallb_elem. intros [[[[[[H1 H2] H3] H4] H5] H6] H7].
  apply check_rings_sound in H1. apply check_bits_sound in H3 as [H3 H3'].
  assert (forall p t, 0 <= p < prio_max -> t ∈ wq s p -> check_thread k s t = true /\ check_on k t (fun x => (current_priority x =? p) && state_is RT_THREAD_READY x) = true) as Hq.
  { intros p t Hp Ht. apply andb_prop. pose proof (H2 p ltac:(apply elem_of_seqZ; lia)) as H2'. rewrite forallb_elem in H2'. by apply H2'. }
  split.
  - split; try done. intros p t Hp Ht. destruct (Hq p t Hp Ht) as [Hc Ho]. apply check_on_sound in Ho as (x & Hx & Hx').
    apply andb_prop in Hx' as [Hx1%Z.eqb_eq Hx2]. exists x. split; [done|]. split; [|done].
    eapply thread_ok_masks; [by apply check_thread_sound|done].
  - apply timers_of_rings; [done| |by apply check_sorted_sound]. intros t Ht. specialize (H4 t Ht). apply andb_prop in H4 as [_ H4].
    destruct (timers k !! t) as [x|]; [|done]. exists x. split; [done|]. by apply Z.eqb_eq.
  - intros t Ht. specialize (H4 t Ht). apply andb_prop in H4 as [H4 _]. by apply check_timer_sound.
  - intros t Ht. by apply check_timer_sound, H6.
  - intros h t Hh Ht. specialize (H7 h Hh). rewrite forallb_elem in H7. specialize (H7 t Ht). apply andb_prop in H7 as [Hc Ho].
    split; [by apply check_on_sound|by apply check_thread_sound].
  - intros p t Hp Ht. by apply check_thread_sound, (Hq p t).
Qed.

Lemma check_runs_sound k s c : check_runs k s c = true -> exists x, threads k !! c = Some x /\ runs prio_max k s c x.
Proof using Hmax.
  unfold check_runs. rewrite !andb_true_iff. intros [[[H1 H2%bool_decide_eq_true] H3] H4]. apply check_on_sound in H4 as (x & Hx & Hr).
  exists x. split; [done|]. split; try done; [by apply check_world_sound|by apply check_thread_sound].
Qed.

(** The same where the thread is known. *)
Lemma check_runs_at k s c x : threads k !! c = Some x -> check_runs k s c = true -> runs prio_max k s c x.
Proof using Hmax. intros Hx Hc. apply check_runs_sound in Hc as (y & Hy & Hr). by assert (y = x) as -> by congruence. Qed.
End Check.
