(* ===== verification/RtBlock.v ===== *)
(** * RT-Thread: a thread blocks, a thread is woken up

    What the functions of ipc.c that wait and those that wake up have in common, and what
    the change of a thread's priority does. *)
From S2P Require Import Prelude Outcome RtList RtKernel RtSched RtObject RtTimer RtThread RtTimerStart RtTimerFacts.
From S2P Require Import RtSchedFacts RtSchedRun RtWorld RtIpc RtWorldOps RtWait RtWorldSched.
#[local] Open Scope string_scope.
#[local] Open Scope list_scope.
#[local] Open Scope Z_scope.

(** A time to wait: for ever, or a number of ticks such that 32-bit ticks tell its end from
    the deadlines of the other timers. *)
Definition wait_time_ok (T : Z) (s : world) (timeout : Z) : Prop :=
  timeout < 0 \/ (0 < timeout < half_tick /\ Forall (fun tm => near (T + timeout) (wdue s tm)) (wactive s)).

Definition arm_wait (tm T timeout : Z) (s : world) : world := if 0 <? timeout then arm tm (T + timeout) s else s.

Lemma arm_wait_fields tm T timeout s : wq (arm_wait tm T timeout s) = wq s /\ wheads (arm_wait tm T timeout s) = wheads s /\
  wwait (arm_wait tm T timeout s) = wwait s /\ wother (arm_wait tm T timeout s) = wother s.
Proof. unfold arm_wait. by destruct (0 <? timeout). Qed.

Lemma frame_set_error t err k x : threads k !! t = Some x -> frame k {k with threads ::= <[t := {x with th_error := err}]> }.
Proof. by split. Qed.

(** ** IPC objects *)

(** An IPC object of a class, with its flag. *)
Definition ipc_at (k : kernel) (i class flag : Z) : Prop :=
  exists o, objects k !! OOther i = Some o /\ Z.land (ob_type o) (u8 (Z.lnot RT_Object_Class_Static)) = class /\ ob_flag o = flag /\ ipc_flag_ok flag.

Lemma assert_class_run k i class flag : ipc_at k i class flag -> assert_class i class k = Ok (tt, k).
Proof.
  intros (o & Ho & Hc & _). unfold assert_class, rt_object_get_type.
  erewrite bind_run; [|step (by apply object_run); reflexivity]. rewrite Hc. unfold assert_that. by rewrite Z.eqb_refl.
Qed.
Lemma ipc_flag_run k i class flag : ipc_at k i class flag -> ipc_flag i k = Ok (flag, k).
Proof. intros (o & Ho & _ & <- & _). unfold ipc_flag. by step (by apply object_run). Qed.
Lemma ipc_at_frame k k' i class flag : frame k k' -> ipc_at k i class flag -> ipc_at k' i class flag.
Proof. intros Hf (o & Ho & H). exists o. by rewrite (fr_objects _ _ Hf). Qed.
Lemma ipc_at_flag k i class flag : ipc_at k i class flag -> ipc_flag_ok flag.
Proof. by intros (o & _ & _ & _ & Hf). Qed.

Lemma scheduler_available_run k c : rt_scheduler_lock_nest k = 0 -> rt_current_thread k = Some c -> debug_scheduler_available true k = Ok (tt, k).
Proof.
  intros Hl Hc. unfold debug_scheduler_available, debug_in_thread_context. cbn [when].
  step (by unfold rt_critical_level; reflexivity). rewrite Hl. change (0 =? 0) with true. step (reflexivity).
  step (by unfold rt_thread_self; reflexivity). rewrite Hc. by rewrite bool_decide_eq_true_2.
Qed.

Section Block.
Variable prio_max : Z.
Context (Hmax : 0 < prio_max <= 256).
Abbreviation winv := (winv prio_max).
Abbreviation thread_ok := (thread_ok prio_max).
Abbreviation runs := (runs prio_max).
Abbreviation ready := (ready prio_max).

(** The running thread's own fields change. *)
Lemma runs_set k s c x y : runs k s c x -> alike x y -> stat y = stat x -> runs {k with threads ::= <[c := y]> } s c y.
Proof using Hmax.
  intros [Hw Hcur Hx Hok Hrun] Ha Hs. split; [by apply winv_set|done|apply lookup_insert_eq| |by unfold state_is; rewrite Hs].
  eapply (thread_ok_alike prio_max k _ s s c x y); [by split|done|apply lookup_insert_eq|done|done|done].
Qed.

Lemma runs_frame_tables k k' s c x : runs k s c x -> links k' = links k -> timers k' = timers k -> objects k' = objects k -> threads k' = threads k ->
  rt_current_thread k' = rt_current_thread k -> rt_thread_ready_priority_group k' = rt_thread_ready_priority_group k ->
  rt_thread_ready_table k' = rt_thread_ready_table k -> runs k' s c x.
Proof using Type.
  intros [Hw Hcur Hx Hok Hrun] El Et Eo Eth Ec Eg Etb. split; [|by rewrite Ec|by rewrite Eth| |done].
  - eapply winv_keep; [exact Hw| |done..|intros; by rewrite Eth]. eapply (sched_inv_change prio_max k); [apply Hw|rewrite El; apply Hw|intros; by rewrite Eth|done|done].
  - by apply (thread_ok_objects prio_max k k' s s c); [rewrite Eth|rewrite Eo| |].
Qed.

Lemma running_not_suspended k s c x : runs k s c x -> is_suspended x = false.
Proof using Type.
  intros Hr. destruct (is_suspended x) eqn:E; [|done]. pose proof (suspended_state RT_THREAD_RUNNING x E) as Hs.
  rewrite (ru_running _ _ _ _ _ Hr) in Hs. by discriminate Hs.
Qed.

Lemma ipc_suspend_world k s c x h flag sflag :
  runs k s c x -> suspend_flag_ok sflag -> ipc_flag_ok flag -> h ∈ wheads s ->
  exists k', ipc_list_suspend prio_max 1 h c flag sflag k = Ok (RT_EOK, k') /\
    winv k' (set_wait h (enqueue flag (prio_of k) c (wwait s h)) (stop_timer (thread_timer x) s)) /\ frame k k' /\
    threads k' = <[c := with_stat (suspend_stat sflag) x]> (threads k) /\ rt_current_thread k' = Some c.
Proof using Hmax.
  intros Hr Hsf Hf Hh. destruct (suspend_world prio_max Hmax k s c x sflag Hr Hsf) as (k1 & E1 & Hw1 & Hf1 & Ht1 & Hc1).
  rewrite stop_timer_alone in Hw1. set (s1 := stop_timer (thread_timer x) s) in *.
  destruct (stop_timer_fields (thread_timer x) s) as (Fq & Fh & Fw & Fo & Fd). fold s1 in Fq, Fh, Fw, Fo, Fd.
  set (y := with_stat (suspend_stat sflag) x) in *. pose proof (ru_thread _ _ _ _ _ Hr) as Hx.
  assert (threads k1 !! c = Some y) as Hy by (rewrite Ht1; apply lookup_insert_eq).
  assert (thread_ok k1 s1 c) as Hok1.
  { eapply (thread_ok_alike prio_max k k1 s s1 c x y); [done|done|done|by unfold alike| |by apply Hr].
    apply stop_timer_timers. by eapply timers_inv_nodup, Hr. }
  destruct (wait_world prio_max Hmax k1 s1 c h flag Hw1) as (l & E2 & Hw2); [by rewrite Fh|by exists y; split; [|apply with_stat_suspended]|done|done|].
  assert (forall a, prio_of k1 a = prio_of k a) as Hp.
  { intros a. unfold prio_of. rewrite Ht1. destruct (decide (a = c)) as [->|Hne]; [by rewrite lookup_insert_eq, Hx|by rewrite lookup_insert_ne]. }
  assert (enqueue flag (prio_of k1) c (wwait s1 h) = enqueue flag (prio_of k) c (wwait s h)) as Eq.
  { unfold enqueue. rewrite Fw. destruct (flag =? RT_IPC_FLAG_FIFO); [done|]. by apply by_prio_ext. }
  rewrite Eq in Hw2. exists {k1 with links := l}. split; [|split; [done|split; [|done]]].
  - unfold ipc_list_suspend. step (by apply thread_run). rewrite (running_not_suspended _ _ _ _ Hr). cbn [negb].
    step (exact E1). change (negb (RT_EOK =? RT_EOK)) with false. cbv iota. by step (exact E2).
  - etransitivity; [exact Hf1|]. by split.
Qed.

(** The end of a wait for at most [timeout] ticks: another thread runs. *)
Lemma block_world mask soft timer_thread k s c x h timeout T p0 :
  winv k s -> h ∈ wheads s -> c ∈ wwait s h -> rt_current_thread k = Some c -> threads k !! c = Some x -> thread_timer x ∈ widle s ->
  rt_scheduler_lock_nest k = 0 -> 0 <= p0 < prio_max -> wq s p0 <> [] -> rt_tick k = u32 T -> wait_time_ok T s timeout ->
  exists k' q' c' x', let s' := arm_wait (thread_timer x) T timeout s in
    (when (0 <? timeout) (start_wait prio_max 1 mask soft timer_thread c timeout) ;; rt_schedule prio_max) k = Ok (tt, k') /\
    runs k' {s' with wq := q'} c' x' /\ urgent q' x' /\ c' :: ready q' ≡ₚ ready (wq s) /\ frame k k' /\ threads k' !! c = Some x /\
    (forall t y, threads k !! t = Some y -> exists st, threads k' !! t = Some {y with stat := st}).
Proof using Hmax.
  intros Hw Hh Hc Hcur Hx Hid Hlock Hp0 Hq0 HT Hto. unfold arm_wait.
  assert (exists k1, when (0 <? timeout) (start_wait prio_max 1 mask soft timer_thread c timeout) k = Ok (tt, k1) /\
    winv k1 (if 0 <? timeout then arm (thread_timer x) (T + timeout) s else s) /\ frame k k1 /\ threads k1 = threads k /\
    rt_current_thread k1 = rt_current_thread k) as (k1 & E1 & Hw1 & Hf1 & Ht1 & Hc1).
  { destruct (Z.ltb_spec 0 timeout); cbn [when].
    - destruct Hto as [?|[Hr Hn]]; [lia|]. apply start_wait_world; try done. lia.
    - exists k. split; [done|]. by split. }
  set (s1 := if 0 <? timeout then _ else s) in *.
  assert (wq s1 = wq s /\ wheads s1 = wheads s /\ wwait s1 = wwait s) as (Fq & Fh & Fw) by (unfold s1; by destruct (0 <? timeout)).
  destruct (schedule_waits prio_max Hmax k1 s1 h c p0 Hw1) as (k' & q' & c' & x' & E & Hr & Hu & HP & Hst & Hsame);
    [by rewrite Fh|by rewrite Fw|by rewrite Hc1|by rewrite (fr_lock _ _ Hf1)|done|by rewrite Fq|].
  exists k', q', c', x'. cbv zeta. split; [by step (exact E1)|]. split; [done|]. split; [done|]. split; [by rewrite <- Fq|].
  split; [by etransitivity; [|apply Hst]|]. split; [by rewrite Hsame, Ht1|]. intros t y Hy. apply (ss_threads _ _ Hst). by rewrite Ht1.
Qed.

(** ** Waking up *)

(** Changes to a thread that the scheduler does not see. *)
Lemma winv_alike k s t x y :
  winv k s -> threads k !! t = Some x -> alike x y -> stat y = stat x -> winv {k with threads ::= <[t := y]> } s.
Proof using Type.
  intros [[Hr Hq Hb Hrd] [Hr2 Hti Hso] Hac Hid Hwa Hre] Hx Ha Hs. set (k' := {k with threads ::= <[t := y]> }).
  assert (forall u z, threads k !! u = Some z -> exists z', threads k' !! u = Some z' /\ alike z z' /\ stat z' = stat z) as Hth.
  { intros u z Hz. destruct (decide (u = t)) as [->|Hne]; [exists y; assert (z = x) as -> by congruence; by split; [apply lookup_insert_eq|]|].
    exists z. split; [by rewrite <- Hz; apply lookup_insert_ne|done]. }
  assert (forall u, thread_ok k s u -> thread_ok k' s u) as Hok.
  { intros u Hu. pose proof Hu as (z & o & Hz & _). destruct (Hth u z Hz) as (z' & Hz' & Haz & _).
    eapply (thread_ok_alike prio_max k k' s s u z z'); [by split|done|done|done|done|done]. }
  split; [split; [done| |by apply (bits_ok_frame prio_max k)|done]|split; [done|done|done]|intros u Hu; by destruct (Hac u Hu)|intros u Hu; by destruct (Hid u Hu)| |].
  - intros p u Hp Hu. destruct (Hq p u Hp Hu) as (z & Hz & Hm & Hcp & Hst). destruct (Hth u z Hz) as (z' & Hz' & Haz & Esz).
    exists z'. split; [done|]. split; [by eapply masks_ok_alike|]. destruct Haz as (-> & _). split; [done|]. unfold state_is. by rewrite Esz.
  - intros h u Hh Hu. destruct (Hwa h u Hh Hu) as [(z & Hz & Hsu) Hoku]. destruct (Hth u z Hz) as (z' & Hz' & Haz & Esz).
    split; [|by apply Hok]. exists z'. split; [done|]. unfold is_suspended. by rewrite Esz.
  - intros p u Hp Hu. apply Hok. by eapply Hre.
Qed.

(** The ring of the list [h], next to the others. *)
Lemma wait_ring_at k s c h : winv k (alone c s) -> h ∈ wheads s ->
  rings (links k) ((h, TList <$> wwait s h) :: (TList c, []) :: prio_rings prio_max (wq s) ++ rest_rings s h).
Proof using Type.
  intros Hw Hh. pose proof (si_rings _ _ _ _ (wi_sched _ _ _ Hw)) as Hr. pose proof (wheads_nodup _ _ _ Hw) as Hnd.
  change (wheads (alone c s)) with (wheads s) in Hnd. change (wq (alone c s)) with (wq s) in Hr.
  rewrite world_rings_alone, (world_rings_at s h) in Hr by done.
  match goal with |- rings _ ?R => match type of Hr with rings _ ?R2 => assert (R ≡ₚ R2) as -> by solve_Permutation end end. exact Hr.
Qed.

Lemma wwait_nodup k s c h : winv k (alone c s) -> h ∈ wheads s -> NoDup (wwait s h).
Proof using Type.
  intros Hw Hh. pose proof (rings_nodup _ _ _ _ (wait_ring_at k s c h Hw Hh)) as [_ Hnd]%NoDup_cons. by apply NoDup_fmap_1 in Hnd.
Qed.

Lemma woke_alone x t c s : woke x t (alone c s) = alone c (woke x t s).
Proof using Type. unfold woke. by rewrite stop_timer_alone. Qed.
Lemma wake_alone x t h l c s : wake x t h l (alone c s) = alone c (wake x t h l s).
Proof using Type. unfold wake. change (set_wait h l (alone c s)) with (alone c (set_wait h l s)). apply woke_alone. Qed.

Lemma woke_ready x t s : 0 <= current_priority x < prio_max -> ready (wq (woke x t s)) ≡ₚ t :: ready (wq s).
Proof using Type.
  intros Hp. destruct (stop_timer_fields (thread_timer x) s) as (Eq & _).
  match goal with |- ready ?Q ≡ₚ _ => change Q with (upd (wq (stop_timer (thread_timer x) s)) (current_priority x)
    (if yields x then wq (stop_timer (thread_timer x) s) (current_priority x) ++ [t] else t :: wq (stop_timer (thread_timer x) s) (current_priority x))) end.
  rewrite Eq, ready_upd, (ready_at prio_max (wq s) (current_priority x)) by done. destruct (yields x); solve_Permutation.
Qed.
Lemma wake_ready x t h l s : 0 <= current_priority x < prio_max -> ready (wq (wake x t h l s)) ≡ₚ t :: ready (wq s).
Proof using Type. intros Hp. exact (woke_ready x t (set_wait h l s) Hp). Qed.

(** A change to another thread that the scheduler does not see. *)
Lemma runs_alike k s c x t y z :
  runs k s c x -> t <> c -> threads k !! t = Some y -> alike y z -> stat z = stat y -> runs {k with threads ::= <[t := z]> } s c x.
Proof using Type.
  intros [Hw Hcur Hx Hok Hrun] Hne Hy Ha Hst. set (k' := {k with threads ::= <[t := z]> }).
  assert (threads k' !! c = threads k !! c) as Ec by (by apply lookup_insert_ne).
  split; [by eapply winv_alike|done|by rewrite Ec| |done]. by apply (thread_ok_objects prio_max k k' s s c).
Qed.

Lemma waiting_not_current k s c x h t : runs k s c x -> h ∈ wheads s -> t ∈ wwait s h -> t <> c.
Proof using Type. intros [Hw _ _ _ _] Hh Ht. by eapply alone_waiting. Qed.

(** A waiting thread is made ready. *)
Lemma resume_thread_runs k s c x h xs t ys y :
  runs k s c x -> h ∈ wheads s -> wwait s h = xs ++ t :: ys -> threads k !! t = Some y ->
  exists k', rt_thread_resume prio_max 1 t k = Ok (RT_EOK, k') /\ runs k' (wake y t h (xs ++ ys) s) c x /\ frame k k' /\
    threads k' = <[t := with_stat RT_THREAD_READY y]> (threads k).
Proof using Hmax.
  intros Hr Hh Hws Hy. assert (t <> c) as Hne by (eapply waiting_not_current; [exact Hr|exact Hh|rewrite Hws; set_solver]).
  destruct Hr as [Hw Hcur Hx Hok Hrun].
  destruct (resume_world prio_max Hmax k (alone c s) h xs t ys y Hw) as (k' & E & Hw' & Hf & Hth & Hc); [done|done|congruence|done|].
  rewrite wake_alone in Hw'. exists k'. split; [exact E|]. split; [|done]. split; [done|by rewrite Hc|by rewrite Hth, lookup_insert_ne| |done].
  destruct Hok as (x0 & o & Hx0 & Hm & Ho & Hty & Htm). exists x0, o. rewrite Hth, lookup_insert_ne by done. split; [done|]. split; [done|].
  rewrite (fr_objects _ _ Hf) by done. split; [done|]. split; [done|]. change (thread_timer x0 ∈ wtimers (stop_timer (thread_timer y) (set_wait h (xs ++ ys) s))).
  rewrite stop_timer_timers; [done|]. by eapply (timers_inv_nodup k false), Hw.
Qed.

(** The first thread of a list is made ready, without an error. *)
Lemma resume_first_world k s c x h t ws y :
  runs k s c x -> h ∈ wheads s -> wwait s h = t :: ws -> threads k !! t = Some y ->
  exists k', let y' := with_stat RT_THREAD_READY {y with th_error := RT_EOK} in
    ipc_list_resume prio_max 1 h k = Ok (tt, k') /\ runs k' (wake y t h ws s) c x /\ frame k k' /\ threads k' = <[t := y']> (threads k) /\ t <> c.
Proof using Hmax.
  intros Hr Hh Hws Hy. assert (t <> c) as Hne by (eapply waiting_not_current; [exact Hr|exact Hh|rewrite Hws; by left]).
  set (y1 := {y with th_error := RT_EOK}). set (k1 := {k with threads ::= <[t := y1]> }).
  assert (alike y y1) as Ha by (by unfold alike). pose proof (runs_alike k s c x t y y1 Hr Hne Hy Ha eq_refl) as Hr1. fold k1 in Hr1.
  assert (threads k1 !! t = Some y1) as Hy1 by (apply lookup_insert_eq).
  destruct (resume_thread_runs k1 s c x h [] t ws y1 Hr1 Hh Hws Hy1) as (k' & E & Hr' & Hf & Hth).
  exists k'. cbv zeta. split; [|split; [exact Hr'|split; [by etransitivity; [|exact Hf]|split; [|done]]]].
  - unfold ipc_list_resume, first_thread. rewrite bind_run with (a := t) (s1 := k).
    2:{ rewrite bind_run with (a := TList t) (s1 := k); [reflexivity|]. apply on_list_read.
        pose proof (wait_ring_at k s c h (ru_world _ _ _ _ _ Hr) Hh) as Hri. rewrite Hws in Hri. by rewrite (ring_next _ _ _ _ Hri). }
    step (by apply set_thread_run). fold y1 k1. by step (exact E).
  - rewrite Hth. change (threads k1) with (<[t := y1]> (threads k)). apply insert_insert_eq.
Qed.

Lemma stopped_idle tm s : tm ∈ wtimers s -> tm ∈ widle (stop_timer tm s).
Proof using Type. unfold wtimers, stop_timer. rewrite elem_of_app. case_decide; [by left|]. intros [?|?]; done. Qed.

(** No thread that could run is more urgent than the one that runs. *)
Lemma urgent_ready k s c x t y : runs k s c x -> urgent (wq s) x -> t ∈ c :: ready (wq s) -> threads k !! t = Some y -> current_priority x <= current_priority y.
Proof using Type.
  intros Hr Hu Ht Hy. apply elem_of_cons in Ht as [->|(p & Hp & Hin)%elem_of_ready].
  - assert (y = x) as -> by (pose proof (ru_thread _ _ _ _ _ Hr); congruence). done.
  - destruct (si_queued _ _ _ _ (wi_sched _ _ _ (ru_world _ _ _ _ _ Hr)) p t Hp Hin) as (y' & Hy' & _ & Ep & _). assert (y' = y) as -> by congruence.
    destruct (Z.le_gt_cases (current_priority x) (current_priority y)); [done|]. rewrite (Hu p) in Hin by lia. by apply elem_of_nil in Hin.
Qed.

(** The description of the state once the thread [c] waits in the list [h]. *)
Definition blocked (k : kernel) (c : Z) (x : rt_thread) (h : knode) (flag T timeout : Z) (s : world) : world :=
  arm_wait (thread_timer x) T timeout (set_wait h (enqueue flag (prio_of k) c (wwait s h)) (stop_timer (thread_timer x) s)).

Lemma blocked_fields k c x h flag T timeout s :
  wq (blocked k c x h flag T timeout s) = wq s /\ wheads (blocked k c x h flag T timeout s) = wheads s /\
  wwait (blocked k c x h flag T timeout s) = wupd (wwait s) h (enqueue flag (prio_of k) c (wwait s h)) /\ wother (blocked k c x h flag T timeout s) = wother s.
Proof using Type.
  destruct (stop_timer_fields (thread_timer x) s) as (Eq & Eh & Ew & Eo & _).
  destruct (arm_wait_fields (thread_timer x) T timeout (set_wait h (enqueue flag (prio_of k) c (wwait s h)) (stop_timer (thread_timer x) s))) as (Aq & Ah & Aw & Ao).
  unfold blocked. rewrite Aq, Ah, Aw, Ao. split; [exact Eq|]. split; [exact Eh|]. split; [|exact Eo].
  unfold set_wait. change (wwait {stop_timer (thread_timer x) s with wwait ::= ?f}) with (f (wwait (stop_timer (thread_timer x) s))). by rewrite Ew.
Qed.

(** The thread's timer is the one that wakes it up. *)
Definition wakes_at (s : world) (tm T timeout : Z) : Prop := 0 < timeout -> tm ∈ wactive s /\ wdue s tm = T + timeout.

Lemma blocked_wakes k c x h flag T timeout s : wakes_at (blocked k c x h flag T timeout s) (thread_timer x) T timeout.
Proof using Type.
  intros Ht. unfold blocked, arm_wait. rewrite (proj2 (Z.ltb_lt _ _)) by done. split; [by apply elem_of_place; left|apply set_deadline_eq].
Qed.

Lemma prio_of_alike k c x y t : threads k !! c = Some x -> alike x y -> prio_of {k with threads ::= <[c := y]> } t = prio_of k t.
Proof using Type.
  intros Hx (Hp & _). unfold prio_of. change (threads {k with threads ::= <[c := y]> }) with (<[c := y]> (threads k)).
  destruct (decide (t = c)) as [->|Hne]; [by rewrite lookup_insert_eq, Hx|by rewrite lookup_insert_ne].
Qed.

Lemma blocked_set k c x y h flag T timeout s :
  threads k !! c = Some x -> alike x y -> blocked {k with threads ::= <[c := y]> } c y h flag T timeout s = blocked k c x h flag T timeout s.
Proof using Type.
  intros Hx Ha. unfold blocked. pose proof Ha as (_ & _ & _ & _ & _ & ->). unfold enqueue. destruct (flag =? RT_IPC_FLAG_FIFO); [done|].
  rewrite (by_prio_ext (prio_of k)); [done|]. intros a _. by apply prio_of_alike with (x := x).
Qed.

(** The running thread [c] waits in the list [h]: another thread runs. *)
Lemma wait_blocks mask soft timer_thread k s c x h flag timeout sflag T p0 :
  runs k s c x -> h ∈ wheads s -> rt_scheduler_lock_nest k = 0 -> suspend_flag_ok sflag -> ipc_flag_ok flag ->
  0 <= p0 < prio_max -> wq s p0 <> [] -> rt_tick k = u32 T -> wait_time_ok T (stop_timer (thread_timer x) s) timeout ->
  exists k1 k2 k' q' c' x', let s' := {blocked k c x h flag T timeout s with wq := q'} in
    ipc_list_suspend prio_max 1 h c flag sflag k = Ok (RT_EOK, k1) /\
    when (0 <? timeout) (start_wait prio_max 1 mask soft timer_thread c timeout) k1 = Ok (tt, k2) /\ rt_schedule prio_max k2 = Ok (tt, k') /\
    runs k' s' c' x' /\ urgent q' x' /\ c' :: ready q' ≡ₚ ready (wq s) /\ frame k k1 /\ frame k k' /\
    threads k' !! c = Some (with_stat (suspend_stat sflag) x).
Proof using Hmax.
  intros Hr Hh Hlock Hsf Hflag Hp0 Hq0 HT Hto. pose proof (ru_thread _ _ _ _ _ Hr) as Hx.
  destruct (ipc_suspend_world k s c x h flag sflag Hr Hsf Hflag Hh) as (k1 & E1 & Hw1 & Hf1 & Ht1 & Hc1).
  destruct (stop_timer_fields (thread_timer x) s) as (Fq & Fh & Fw & Fo & Fd). set (s0 := stop_timer (thread_timer x) s) in *.
  set (s1 := set_wait _ _ _) in Hw1.
  destruct (block_world mask soft timer_thread k1 s1 c (with_stat (suspend_stat sflag) x) h timeout T p0 Hw1)
    as (k' & q' & c' & x' & E' & Hr' & Hu & HP & Hf' & Hx' & _).
  - change (h ∈ wheads s0). by rewrite Fh.
  - change (c ∈ wupd (wwait s0) h (enqueue flag (prio_of k) c (wwait s h)) h). rewrite wupd_same, enqueue_perm. by left.
  - done.
  - rewrite Ht1. apply lookup_insert_eq.
  - change (thread_timer (with_stat _ x)) with (thread_timer x). apply (stopped_idle (thread_timer x) s). eapply thread_ok_timer; [apply Hr|exact Hx].
  - by rewrite (fr_lock _ _ Hf1).
  - exact Hp0.
  - change (wq s0 p0 <> []). by rewrite Fq.
  - by rewrite (fr_tick _ _ Hf1).
  - exact Hto.
  - apply bind_ok in E' as ([] & k2 & E2 & E3). exists k1, k2, k', q', c', x'. cbv zeta. repeat (split; [done|]).
    split; [|split; [done|split; [by etransitivity|done]]]. etransitivity; [exact HP|]. change (ready (wq s0) ≡ₚ ready (wq s)). by rewrite Fq.
Qed.

(** The thread [c] waits in the list [h]; another one runs. *)
Record waits_in (k : kernel) (s : world) (c : Z) (x : rt_thread) (h : knode) (flag T timeout sflag : Z) (k' : kernel) (s' : world) (c' : Z) (x' : rt_thread) : Prop := {
  wt_world : exists q', s' = {blocked k c x h flag T timeout s with wq := q'};
  wt_thread : threads k' !! c = Some (with_stat (suspend_stat sflag) {x with th_error := - RT_EINTR});
  wt_urgent : urgent (wq s') x';
  wt_ready : c' :: ready (wq s') ≡ₚ ready (wq s);
  wt_frame : frame k k';
}.

(** ** The first thread that waits is woken up *)

Lemma isempty_wait k s c x h : runs k s c x -> h ∈ wheads s -> on_list (rt_list_isempty h) k = Ok (bool_decide (wwait s h = []), k).
Proof using Type.
  intros [Hw _ _ _ _] Hh. apply on_list_read. rewrite (ring_isempty _ _ _ _ (wait_ring_at k s c h Hw Hh)). do 2 f_equal. by destruct (wwait s h).
Qed.

(** The waiting thread [t] was made ready and the most urgent thread runs. *)
Record woken (k : kernel) (s : world) (c : Z) (h : knode) (t : Z) (ws : list Z) (k' : kernel) (s' : world) (c' : Z) (x' : rt_thread) : Prop := {
  wo_thread : exists y, threads k !! t = Some y /\ (exists q', s' = {wake y t h ws s with wq := q'});
  wo_error : exists z, threads k' !! t = Some z /\ th_error z = RT_EOK;
  wo_urgent : urgent (wq s') x';
  wo_ready : c' :: ready (wq s') ≡ₚ c :: t :: ready (wq s);
  wo_frame : frame k k';
}.

Lemma woken_wait k s c h t ws k' s' c' x' : woken k s c h t ws k' s' c' x' -> wheads s' = wheads s /\ wwait s' = wupd (wwait s) h ws.
Proof using Type.
  intros [(y & _ & q' & ->) _ _ _ _]. destruct (stop_timer_fields (thread_timer y) (set_wait h ws s)) as (_ & Eh & Ew & _).
  split; [exact Eh|exact Ew].
Qed.

Lemma resume_runs k s c x h t ws :
  runs k s c x -> h ∈ wheads s -> wwait s h = t :: ws -> rt_scheduler_lock_nest k = 0 ->
  exists k' s' c' x', (ipc_list_resume prio_max 1 h ;; rt_schedule prio_max) k = Ok (tt, k') /\ runs k' s' c' x' /\ woken k s c h t ws k' s' c' x'.
Proof using Hmax.
  intros Hr Hh Hws Hlock. destruct (wi_waiting _ _ _ (ru_world _ _ _ _ _ Hr) h t) as [(y & Hy & _) Hok]; [done|change (t ∈ wwait s h); rewrite Hws; by left|].
  destruct (resume_first_world k s c x h t ws y Hr Hh Hws Hy) as (k1 & E1 & Hr1 & Hf1 & Ht1 & Hne).
  destruct (schedule_runs prio_max Hmax k1 _ c x Hr1) as (k' & q' & c' & x' & E & Hr' & Hu & HP & Hst); [by rewrite (fr_lock _ _ Hf1)|].
  exists k', {wake y t h ws s with wq := q'}, c', x'. split; [by step (exact E1)|]. split; [done|]. split.
  - exists y. split; [done|]. by exists q'.
  - destruct (ss_threads _ _ Hst t (with_stat RT_THREAD_READY {y with th_error := RT_EOK})) as [st Hst'].
    + rewrite Ht1. apply lookup_insert_eq.
    + eexists. split; [exact Hst'|done].
  - done.
  - etransitivity; [exact HP|]. f_equiv. apply wake_ready. destruct (thread_ok_masks _ _ _ _ _ Hok Hy) as [H1 _]. lia.
  - etransitivity; [exact Hf1|apply Hst].
Qed.

(** The end of the functions that put something into an object. *)
Definition received (k : kernel) (s : world) (c : Z) (x : rt_thread) (h : knode) (k' : kernel) (s' : world) (c' : Z) (x' : rt_thread) : Prop :=
  match wwait s h with
  | [] => k' = k /\ s' = s /\ c' = c /\ x' = x
  | t :: ws => woken k s c h t ws k' s' c' x'
  end.

Lemma received_frame k s c x h k' s' c' x' : received k s c x h k' s' c' x' -> frame k k'.
Proof using Type. unfold received. destruct (wwait s h); [by intros (-> & _)|apply wo_frame]. Qed.

Lemma resume_receiver_runs k s c x h :
  runs k s c x -> h ∈ wheads s -> rt_scheduler_lock_nest k = 0 ->
  exists k' s' c' x', resume_receiver prio_max 1 h k = Ok (RT_EOK, k') /\ runs k' s' c' x' /\ received k s c x h k' s' c' x'.
Proof using Hmax.
  intros Hr Hh Hlock. unfold received, resume_receiver. rewrite (bind_run _ _ _ _ _ (isempty_wait k s c x h Hr Hh)).
  destruct (wwait s h) as [|t ws] eqn:E.
  - exists k, s, c, x. done.
  - destruct (resume_runs k s c x h t ws Hr Hh E Hlock) as (k' & s' & c' & x' & E' & Hr' & Hwo). exists k', s', c', x'. split; [|done].
    apply bind_ok in E' as ([] & k1 & E1 & E2). cbn [negb bool_decide decide_rel]. rewrite bool_decide_eq_false_2 by done. cbn [negb].
    by step (exact E1); step (exact E2).
Qed.
End Block.

(** ** Changing the priority of a thread

    What RT_THREAD_CTRL_CHANGE_PRIORITY does to a thread that is ready, running or waiting. *)

Section Priority.
Variable prio_max : Z.
Context (Hmax : 0 < prio_max <= 256).
Abbreviation winv := (winv prio_max).
Abbreviation thread_ok := (thread_ok prio_max).
Abbreviation runs := (runs prio_max).
Abbreviation ready := (ready prio_max).
Abbreviation masks_ok := (masks_ok prio_max).

Definition reprio (x : rt_thread) (prio : Z) : rt_thread := with_priority prio_max {x with current_priority := prio}.

Lemma reprio_fields x prio : current_priority (reprio x prio) = prio /\ stat (reprio x prio) = stat x /\ thread_timer (reprio x prio) = thread_timer x /\
  init_priority (reprio x prio) = init_priority x /\ th_error (reprio x prio) = th_error x /\ pending_object (reprio x prio) = pending_object x.
Proof using Type. unfold reprio, with_priority. by destruct (two_level prio_max). Qed.

Lemma reprio_masks x prio : 0 <= prio < prio_max -> masks_ok (reprio x prio).
Proof using Hmax.
  intros Hp. split; [by rewrite (proj1 (reprio_fields x prio))|]. unfold reprio, with_priority.
  destruct (two_level prio_max) eqn:Et.
  - change (Z.shiftr prio 3 = prio / 8 /\ u32 (Z.shiftl 1 (Z.shiftr prio 3)) = 2 ^ Z.shiftr prio 3 /\ u8 (Z.shiftl 1 (Z.land prio 7)) = 2 ^ (prio mod 8)).
    assert (Z.shiftr prio 3 = prio / 8) as -> by (rewrite Z.shiftr_div_pow2 by lia; done).
    assert (Z.land prio 7 = prio mod 8) as -> by (change 7 with (Z.ones 3); rewrite Z.land_ones by lia; done).
    assert (0 <= prio / 8 < 32) by (split; [apply Z.div_pos; lia|apply Z.div_lt_upper_bound; lia]).
    pose proof (Z.mod_pos_bound prio 8). rewrite !Z.shiftl_1_l. split; [done|]. split; apply wrap_small; unfold in_u.
    + split; [lia|]. apply Z.pow_lt_mono_r; lia.
    + split; [lia|]. apply Z.pow_lt_mono_r; lia.
  - change (u32 (Z.shiftl 1 prio) = 2 ^ prio). unfold two_level in Et. apply Z.ltb_ge in Et. rewrite Z.shiftl_1_l. apply wrap_small. unfold in_u. split; [lia|]. apply Z.pow_lt_mono_r; lia.
Qed.

Lemma shift_ok prio k : 0 <= prio < prio_max -> ((if two_level prio_max || (prio <? 32) then mret tt else undef "a shift by more than 31") : K unit) k = Ok (tt, k).
Proof using Type.
  clear Hmax. intros Hp. unfold two_level. destruct (Z.ltb_spec 32 prio_max); [done|]. cbn [orb]. by rewrite (proj2 (Z.ltb_lt _ _)) by lia.
Qed.

(** ** A thread that is not ready *)

Lemma ready_state_suspended x : is_suspended x = true -> (stat_of x =? RT_THREAD_READY) = false.
Proof using Type. intros Hs. exact (suspended_state RT_THREAD_READY x Hs ltac:(unfold in_u, RT_THREAD_READY; lia)). Qed.

Lemma change_other_run k s t x prio :
  thread_ok k s t -> threads k !! t = Some x -> 0 <= prio < prio_max -> (stat_of x =? RT_THREAD_READY) = false ->
  change_priority prio_max t prio k = Ok (RT_EOK, {k with threads ::= <[t := reprio x prio]> }).
Proof using Type.
  clear Hmax. intros Hok Hx Hp Hst. unfold change_priority. step (by eapply assert_thread_run). step (by apply shift_ok). step (by apply thread_run).
  rewrite Hst. by step (by apply set_thread_run).
Qed.

Lemma thread_ok_reprio k k' s t u x prio :
  threads k !! t = Some x -> threads k' = <[t := reprio x prio]> (threads k) -> objects k' = objects k -> 0 <= prio < prio_max -> thread_ok k s u -> thread_ok k' s u.
Proof using Hmax.
  intros Hx Ht Ho Hp (z & o & Hz & Hm & Hob & Hty & Htm). destruct (decide (u = t)) as [->|Hne].
  - assert (z = x) as -> by congruence. exists (reprio x prio), o. rewrite Ht, lookup_insert_eq, Ho. split; [done|].
    split; [by apply reprio_masks|]. split; [done|]. split; [done|]. by destruct (reprio_fields x prio) as (_ & _ & -> & _).
  - exists z, o. by rewrite Ht, lookup_insert_ne, Ho.
Qed.

(** A thread that waits, or that sleeps. *)
Lemma change_suspended k s t x prio :
  winv k s -> threads k !! t = Some x -> is_suspended x = true -> 0 <= prio < prio_max -> winv {k with threads ::= <[t := reprio x prio]> } s.
Proof using Hmax.
  intros [[Hr Hq Hb Hrd] [Hr2 Hti Hso] Hac Hid Hwa Hre] Hx Hs Hp. set (k' := {k with threads ::= <[t := reprio x prio]> }).
  assert (forall u, thread_ok k s u -> thread_ok k' s u) as Hok by (intros u; by eapply thread_ok_reprio).
  assert (stat (reprio x prio) = stat x) as Est by apply reprio_fields.
  split; [split; [done| |by apply (bits_ok_frame prio_max k)|done]|split; [done|done|done]|intros u Hu; by destruct (Hac u Hu)|intros u Hu; by destruct (Hid u Hu)| |].
  - intros p u Hpp Hu. destruct (Hq p u Hpp Hu) as (z & Hz & Hm & Hcp & Hst). exists z.
    assert (u <> t) as Hne.
    { intros ->. assert (z = x) as -> by congruence. by rewrite (suspended_state RT_THREAD_READY x Hs) in Hst. }
    split; [|done]. rewrite <- Hz. by apply lookup_insert_ne.
  - intros h u Hh Hu. destruct (Hwa h u Hh Hu) as [(z & Hz & Hsu) Hoku]. split; [|by apply Hok]. destruct (decide (u = t)) as [->|Hne].
    + exists (reprio x prio). split; [apply lookup_insert_eq|]. assert (z = x) as -> by congruence. unfold is_suspended. by rewrite Est.
    + exists z. split; [|done]. rewrite <- Hz. by apply lookup_insert_ne.
  - intros p u Hpp Hu. apply Hok. by eapply Hre.
Qed.

(** The running thread. *)
Lemma change_running k s c x prio :
  runs k s c x -> 0 <= prio < prio_max ->
  change_priority prio_max c prio k = Ok (RT_EOK, {k with threads ::= <[c := reprio x prio]> }) /\
  runs {k with threads ::= <[c := reprio x prio]> } s c (reprio x prio).
Proof using Hmax.
  intros [Hw Hcur Hx Hok Hrun] Hp. split.
  - eapply change_other_run; [exact Hok|done|done|]. apply Z.eqb_eq in Hrun. unfold stat_of. by rewrite Hrun.
  - split; [by apply winv_set|done|apply lookup_insert_eq|by eapply thread_ok_reprio|].
    unfold state_is. destruct (reprio_fields x prio) as (_ & -> & _). exact Hrun.
Qed.

(** ** A thread that is ready *)

Lemma leave_ready k s p xs t ys :
  winv k s -> 0 <= p < prio_max -> wq s p = xs ++ t :: ys ->
  exists k', rt_schedule_remove_thread prio_max t k = Ok (tt, k') /\ winv k' (alone t {s with wq ::= (fun q => upd q p (xs ++ ys))}) /\ frame k k' /\
    threads k' = threads k /\ rt_current_thread k' = rt_current_thread k.
Proof using Hmax.
  intros Hw Hp Hq. pose proof Hw as [Hsch [_ Hti Hso] Hac Hid Hwa Hre].
  destruct (remove_run prio_max Hmax k (wq s) _ p xs t ys Hsch Hp Hq) as (l & g & tb & E & Hsch'). set (k' := put k l g tb (threads k)) in *.
  set (s' := {s with wq ::= (fun q => upd q p (xs ++ ys))}). assert (frame k k') as Hf by (by split).
  assert (sched_inv prio_max k' (wq (alone t s')) (world_rings (alone t s'))) as Hs' by (rewrite world_rings_alone; exact Hsch').
  assert (forall u, thread_ok k s u -> thread_ok k' (alone t s') u) as Hok by (intros u; by apply thread_ok_objects).
  exists k'. split; [done|]. split; [|done]. split; [done| |intros u Hu; by destruct (Hac u Hu)|intros u Hu; by destruct (Hid u Hu)| |].
  - apply timers_of_rings; [apply Hs'|done|done].
  - intros h u Hh Hu. destruct (Hwa h u Hh Hu) as [H1 H2]. split; [exact H1|by apply Hok].
  - intros p' u Hp' Hu. apply Hok. change (u ∈ upd (wq s) p (xs ++ ys) p') in Hu. unfold upd in Hu. case_decide as Hd; [subst p'|by eapply Hre].
    apply (Hre p u Hp'). rewrite Hq. set_solver.
Qed.

(** The ready thread [t] moves to the queue of its new priority. *)
Definition requeued (x : rt_thread) (t p prio : Z) (l : list Z) (s : world) : world :=
  inserted (reprio x prio) t {s with wq ::= (fun q => upd q p l)}.

Lemma requeued_fields x t p prio l s : wheads (requeued x t p prio l s) = wheads s /\ wwait (requeued x t p prio l s) = wwait s /\
  wactive (requeued x t p prio l s) = wactive s /\ widle (requeued x t p prio l s) = widle s /\ wdue (requeued x t p prio l s) = wdue s /\
  wother (requeued x t p prio l s) = wother s.
Proof using Type. done. Qed.

Lemma change_ready k s p xs t ys x prio :
  winv k s -> 0 <= p < prio_max -> wq s p = xs ++ t :: ys -> threads k !! t = Some x -> rt_current_thread k <> Some t -> 0 <= prio < prio_max ->
  exists k', change_priority prio_max t prio k = Ok (RT_EOK, k') /\ winv k' (requeued x t p prio (xs ++ ys) s) /\ frame k k' /\
    threads k' = <[t := with_stat RT_THREAD_READY (reprio x prio)]> (threads k) /\ rt_current_thread k' = rt_current_thread k.
Proof using Hmax.
  intros Hw Hp Hq Hx Hc Hpr. assert (t ∈ wq s p) as Hin by (rewrite Hq; set_solver). pose proof (wi_ready _ _ _ Hw p t Hp Hin) as Hok.
  destruct (si_queued _ _ _ _ (wi_sched _ _ _ Hw) p t Hp Hin) as (x' & Hx' & _ & _ & Hst). assert (x' = x) as -> by congruence.
  destruct (leave_ready k s p xs t ys Hw Hp Hq) as (k1 & E1 & Hw1 & Hf1 & Ht1 & Hc1). set (s1 := {s with wq ::= _}) in *.
  set (y := reprio x prio). set (k2 := {k1 with threads ::= <[t := y]> }).
  pose proof (winv_set prio_max Hmax k1 s1 t y Hw1) as Hw2. fold k2 in Hw2. assert (frame k k2) as Hf2 by (etransitivity; [exact Hf1|]; by split).
  assert (threads k2 = <[t := y]> (threads k)) as Ht2 by (change (<[t := y]> (threads k1) = <[t := y]> (threads k)); by rewrite Ht1).
  destruct (insert_alone prio_max Hmax k2 s1 t y Hw2) as (k' & E3 & Hw3 & Hf3 & Ht3 & Hc3).
  { destruct Hok as (z & o & Hz & _ & Ho & Hty & Htm). assert (z = x) as -> by congruence. exists y, o. rewrite Ht2, lookup_insert_eq. split; [done|].
    split; [by apply reprio_masks|]. rewrite (fr_objects _ _ Hf2) by done. split; [done|]. split; [done|].
    unfold y. by destruct (reprio_fields x prio) as (_ & _ & -> & _). }
  { rewrite Ht2. apply lookup_insert_eq. }
  { change (rt_current_thread k2) with (rt_current_thread k1). by rewrite Hc1. }
  exists k'. split; [|split; [exact Hw3|split; [by etransitivity|split; [by rewrite Ht3, Ht2, insert_insert_eq|etransitivity; [exact Hc3|exact Hc1]]]]].
  unfold change_priority. step (by eapply assert_thread_run). step (by apply shift_ok). step (by apply thread_run).
  change (stat_of x =? RT_THREAD_READY) with (state_is RT_THREAD_READY x). rewrite Hst.
  rewrite bind_run with (a := tt) (s1 := k'); [done|]. step (exact E1). step (by apply set_thread_run; rewrite Ht1). exact E3.
Qed.

Lemma requeued_ready x t p prio xs ys s : 0 <= p < prio_max -> 0 <= prio < prio_max -> wq s p = xs ++ t :: ys ->
  ready (wq (requeued x t p prio (xs ++ ys) s)) ≡ₚ ready (wq s).
Proof using Hmax.
  intros Hp Hpr Hq. unfold requeued, inserted. set (y := reprio x prio). assert (current_priority y = prio) as Ep by apply reprio_fields.
  set (q1 := upd (wq s) p (xs ++ ys)).
  match goal with |- ready ?Q ≡ₚ _ => change Q with (upd q1 (current_priority y) (if yields y then q1 (current_priority y) ++ [t] else t :: q1 (current_priority y))) end.
  rewrite Ep. transitivity (t :: ready q1).
  - rewrite ready_upd, (ready_at prio_max q1 prio) by done. destruct (yields y); solve_Permutation.
  - apply ready_leave; [done|]. rewrite Hq. solve_Permutation.
Qed.

Lemma requeued_at x t p prio l s : t ∈ wq (requeued x t p prio l s) prio.
Proof using Type.
  clear Hmax. unfold requeued, inserted. set (y := reprio x prio). assert (current_priority y = prio) as Ep by apply reprio_fields.
  match goal with |- _ ∈ wq ?w prio => change (wq w prio) with (upd (upd (wq s) p l) (current_priority y)
    (if yields y then upd (wq s) p l (current_priority y) ++ [t] else t :: upd (wq s) p l (current_priority y)) prio) end.
  rewrite Ep, upd_same. destruct (yields y); set_solver.
Qed.
End Priority.
