(* ===== verification/RtSem.v ===== *)
(** * RT-Thread: src/ipc.c, semaphores *)
From S2P Require Import Prelude Outcome RtList RtKernel RtSched RtObject RtTimer RtThread RtTimerStart RtIpc.
#[local] Open Scope string_scope.
#[local] Open Scope list_scope.
#[local] Open Scope Z_scope.

Definition RT_SEM_VALUE_MAX : Z := 0xffff.

(** The commands of the control functions of ipc.c, with the value [arg]. *)
Inductive ipc_cmd :=
| RT_IPC_CMD_RESET (arg : Z)
| RT_IPC_CMD_OTHER.

Section Sem.
Variables (prio_max : Z) (cfg : rt_config) (RT_NAME_MAX : nat) (rt_malloc : Z -> kernel -> option objid).
Variables (level : nat) (mask : Z) (soft : bool) (timer_thread : Z).

Definition rt_sem_init (sem : Z) (name : list Z) (value flag : Z) : K Z :=
  assert_that (value <? 0x10000) "value < 0x10000U" ;;
  assert_flag flag ;;
  rt_object_init prio_max cfg RT_NAME_MAX (OOther sem) RT_Object_Class_Semaphore name ;;
  ipc_object_init sem ;;
  set_semaphore sem (fun _ => {| sem_value := u16 value |}) ;;
  set_ipc_flag sem flag ;;
  mret RT_EOK.

Definition rt_sem_detach (sem : Z) : K Z :=
  assert_static sem RT_Object_Class_Semaphore true ;;
  ipc_list_resume_all prio_max level (SuspendHead sem) ;;
  rt_object_detach (OOther sem) ;;
  mret RT_EOK.

Definition rt_sem_create (name : list Z) (value flag : Z) : K (option Z) :=
  assert_that (value <? 0x10000) "value < 0x10000U" ;;
  assert_flag flag ;;
  o ← rt_object_allocate cfg RT_NAME_MAX rt_malloc RT_Object_Class_Semaphore name;
  match o with
  | None => mret None
  | Some (OOther sem) =>
      ipc_object_init sem ;;
      set_semaphore sem (fun _ => {| sem_value := u16 value |}) ;;
      set_ipc_flag sem flag ;;
      mret (Some sem)
  | Some _ => undef "a block that is not a semaphore"
  end.

Definition rt_sem_delete (sem : Z) : K Z :=
  assert_static sem RT_Object_Class_Semaphore false ;;
  ipc_list_resume_all prio_max level (SuspendHead sem) ;;
  rt_object_delete (OOther sem) ;;
  mret RT_EOK.

Definition rt_sem_take_ (sem timeout suspend_flag : Z) : K (option Z) :=
  assert_class sem RT_Object_Class_Semaphore ;;
  s ← semaphore sem;
  if 0 <? sem_value s then
    set_semaphore sem (fun s => {| sem_value := u16 (sem_value s - 1) |}) ;;
    mret (Some RT_EOK)
  else if timeout =? 0 then mret (Some (- RT_ETIMEOUT))
  else
    debug_scheduler_available true ;;
    t ← current;
    set_error t (- RT_EINTR) ;;
    flag ← ipc_flag sem;
    ret ← ipc_list_suspend prio_max level (SuspendHead sem) t flag suspend_flag;
    if negb (ret =? RT_EOK) then mret (Some ret)
    else
      when (0 <? timeout) (start_wait prio_max level mask soft timer_thread t timeout) ;;
      rt_schedule prio_max ;;
      mret None.

Definition rt_sem_take_return (t : Z) : K Z :=
  x ← thread t;
  if negb (th_error x =? RT_EOK) then mret (th_error x) else mret RT_EOK.

Definition rt_sem_take (sem time : Z) : K (option Z) := rt_sem_take_ sem time RT_UNINTERRUPTIBLE.
Definition rt_sem_take_interruptible (sem time : Z) : K (option Z) := rt_sem_take_ sem time RT_INTERRUPTIBLE.
Definition rt_sem_take_killable (sem time : Z) : K (option Z) := rt_sem_take_ sem time RT_KILLABLE.
Definition rt_sem_trytake (sem : Z) : K (option Z) := rt_sem_take sem RT_WAITING_NO.

Definition rt_sem_release (sem : Z) : K Z :=
  assert_class sem RT_Object_Class_Semaphore ;;
  e ← on_list (rt_list_isempty (SuspendHead sem));
  if negb e then
    ipc_list_resume prio_max level (SuspendHead sem) ;;
    rt_schedule prio_max ;;
    mret RT_EOK
  else
    s ← semaphore sem;
    if sem_value s <? RT_SEM_VALUE_MAX then
      set_semaphore sem (fun s => {| sem_value := u16 (sem_value s + 1) |}) ;;
      mret RT_EOK
    else mret (- RT_EFULL).

Definition rt_sem_control (sem : Z) (cmd : ipc_cmd) : K Z :=
  assert_class sem RT_Object_Class_Semaphore ;;
  match cmd with
  | RT_IPC_CMD_RESET value =>
      ipc_list_resume_all prio_max level (SuspendHead sem) ;;
      set_semaphore sem (fun _ => {| sem_value := u16 value |}) ;;
      rt_schedule prio_max ;;
      mret RT_EOK
  | RT_IPC_CMD_OTHER => mret (- RT_ERROR)
  end.
End Sem.
