(* ===== verification/RtMutex.v ===== *)
(** * RT-Thread: src/ipc.c, mutexes

    Mutexes with priority inheritance.  A change of a thread's priority goes on to the
    owner of the mutex that the thread waits for, and so on; [chain] bounds the length of
    this walk. *)
From S2P Require Import Prelude Outcome RtList RtKernel RtSched RtObject RtTimer RtThread RtTimerStart RtIpc.
#[local] Open Scope string_scope.
#[local] Open Scope list_scope.
#[local] Open Scope Z_scope.

Definition RT_MUTEX_HOLD_MAX : Z := 0xff.

(** [rt_list_entry(node, struct rt_mutex, taken_list)] *)
Definition mutex_entry (node : knode) : K Z :=
  match node with TakenNode m => mret m | _ => undef "an entry that is not a mutex" end.

(** [mutex->owner->current_priority] and so on: the owner that is dereferenced. *)
Definition mutex_owner (m : Z) : K Z :=
  x ← mutex m;
  match owner x with Some t => mret t | None => undef "mutex->owner is null" end.

Definition set_mx_priority (m prio : Z) : K unit := set_mutex m (fun x => {x with mx_priority := prio}).

Definition rt_set_errno (error : Z) : K unit :=
  tid ← rt_thread_self;
  match tid with
  | None => modify (fun k => {k with rt_errno := error})
  | Some t => set_error t error
  end.

Section Mutex.
Variables (prio_max : Z) (cfg : rt_config) (RT_NAME_MAX : nat) (rt_malloc : Z -> kernel -> option objid).
Variables (level : nat) (mask : Z) (soft : bool) (timer_thread : Z) (chain : nat).

Definition mutex_update_priority (m : Z) : K unit :=
  e ← on_list (rt_list_isempty (SuspendHead m));
  if negb e then
    t ← first_thread (SuspendHead m);
    x ← thread t;
    set_mx_priority m (current_priority x)
  else set_mx_priority m 0xff.

Definition thread_get_mutex_priority (t : Z) : K Z :=
  x ← thread t;
  rt_list_for_each (TakenHead t) (fun priority node =>
    m ← mutex_entry node;
    y ← mutex m;
    let mutex_prio := if mx_priority y <? ceiling_priority y then mx_priority y else ceiling_priority y in
    mret (if mutex_prio <? priority then mutex_prio else priority, false)) (init_priority x).

(** The mutex that a thread waits for: [thread->pending_object], when it is a mutex. *)
Definition pending_mutex (x : rt_thread) : K (option Z) :=
  match pending_object x with
  | None => mret None
  | Some o =>
      ty ← rt_object_get_type o;
      if ty =? RT_Object_Class_Mutex
      then match o with OOther m => mret (Some m) | _ => undef "an object that is not a mutex" end
      else mret None
  end.

Fixpoint thread_update_priority (fuel : nat) (t priority suspend_flag : Z) : K unit :=
  change_priority prio_max t priority ;;
  x ← thread t;
  if is_suspended x then
    p ← pending_mutex x;
    match p with
    | None => mret tt
    | Some m =>
        on_list (rt_list_remove (TList t)) ;;
        flag ← ipc_flag m;
        ret ← ipc_list_suspend prio_max level (SuspendHead m) t flag suspend_flag;
        if negb (ret =? RT_EOK) then mret tt
        else
          mutex_update_priority m ;;
          o ← mutex_owner m;
          mutex_priority ← thread_get_mutex_priority o;
          y ← thread o;
          if negb (mutex_priority =? current_priority y) then
            match fuel with
            | O => undef "the walk along the owners does not end"
            | S fuel' => thread_update_priority fuel' o mutex_priority suspend_flag
            end
          else mret tt
    end
  else mret tt.

(** The owner gets the priority that its mutexes give it, if it is not what it has. *)
Definition update_owner (m : Z) : K unit :=
  o ← mutex_owner m;
  priority ← thread_get_mutex_priority o;
  y ← thread o;
  when (negb (priority =? current_priority y)) (thread_update_priority chain o priority RT_UNINTERRUPTIBLE).

Definition mutex_init (m : Z) : K unit :=
  ipc_object_init m ;;
  set_mutex m (fun _ => {| owner := None; mx_priority := 0xff; hold := 0; ceiling_priority := 0xff |}) ;;
  on_list (rt_list_init (TakenNode m)) ;;
  set_ipc_flag m RT_IPC_FLAG_PRIO.

Definition rt_mutex_init (m : Z) (name : list Z) (flag : Z) : K Z :=
  rt_object_init prio_max cfg RT_NAME_MAX (OOther m) RT_Object_Class_Mutex name ;;
  mutex_init m ;;
  mret RT_EOK.

Definition rt_mutex_detach (m : Z) : K Z :=
  assert_static m RT_Object_Class_Mutex true ;;
  ipc_list_resume_all prio_max level (SuspendHead m) ;;
  on_list (rt_list_remove (TakenNode m)) ;;
  rt_object_detach (OOther m) ;;
  mret RT_EOK.

(** The thread [t] no longer waits for the mutex: the end of a wait that failed, and
    rt_mutex_drop_thread. *)
Definition leave_mutex (m t : Z) : K unit :=
  o ← mutex_owner m;
  x ← thread t;
  y ← thread o;
  let need_update := current_priority y =? current_priority x in
  mutex_update_priority m ;;
  when need_update (update_owner m).

Definition rt_mutex_drop_thread (m t : Z) : K unit :=
  on_list (rt_list_remove (TList t)) ;;
  leave_mutex m t.

Definition rt_mutex_setprioceiling (mtx : option Z) (priority : Z) : K Z :=
  match mtx with
  | Some m =>
      if priority <? prio_max then
        x ← mutex m;
        set_mutex m (fun x => {x with ceiling_priority := priority}) ;;
        when (bool_decide (is_Some (owner x))) (update_owner m) ;;
        mret (ceiling_priority x)
      else rt_set_errno (- RT_EINVAL) ;; mret 0xff
  | None => rt_set_errno (- RT_EINVAL) ;; mret 0xff
  end.

Definition rt_mutex_getprioceiling (mtx : option Z) : K Z :=
  match mtx with Some m => x ← mutex m; mret (ceiling_priority x) | None => mret 0xff end.

Definition rt_mutex_create (name : list Z) (flag : Z) : K (option Z) :=
  o ← rt_object_allocate cfg RT_NAME_MAX rt_malloc RT_Object_Class_Mutex name;
  match o with
  | None => mret None
  | Some (OOther m) => mutex_init m ;; mret (Some m)
  | Some _ => undef "a block that is not a mutex"
  end.

Definition rt_mutex_delete (m : Z) : K Z :=
  assert_static m RT_Object_Class_Mutex false ;;
  ipc_list_resume_all prio_max level (SuspendHead m) ;;
  on_list (rt_list_remove (TakenNode m)) ;;
  rt_object_delete (OOther m) ;;
  mret RT_EOK.

(** The mutex has no owner: [t] takes it. *)
Definition mutex_get (m t suspend_flag : Z) : K unit :=
  set_mutex m (fun x => {x with owner := Some t; mx_priority := 0xff; hold := 1}) ;;
  x ← mutex m;
  y ← thread t;
  when (negb (ceiling_priority x =? 0xff) && (ceiling_priority x <? current_priority y))
    (thread_update_priority chain t (ceiling_priority x) suspend_flag) ;;
  on_list (rt_list_insert_after (TakenHead t) (TakenNode m)).

(** Another thread has the mutex: [t] waits for it. *)
Definition mutex_wait (m t timeout suspend_flag : Z) : K (option Z) :=
  x ← thread t;
  let priority := current_priority x in
  flag ← ipc_flag m;
  ret ← ipc_list_suspend prio_max level (SuspendHead m) t flag suspend_flag;
  if negb (ret =? RT_EOK) then mret (Some ret)
  else
    set_thread t (fun x => {x with pending_object := Some (OOther m)}) ;;
    y ← mutex m;
    when (priority <? mx_priority y) (
      set_mx_priority m priority ;;
      o ← mutex_owner m;
      z ← thread o;
      when (priority <? current_priority z) (thread_update_priority chain o priority RT_UNINTERRUPTIBLE)) ;;
    when (0 <? timeout) (start_wait prio_max level mask soft timer_thread t timeout) ;;
    rt_schedule prio_max ;;
    mret None.

Definition rt_mutex_take_ (m timeout suspend_flag : Z) : K (option Z) :=
  debug_scheduler_available true ;;
  assert_class m RT_Object_Class_Mutex ;;
  t ← current;
  set_error t RT_EOK ;;
  x ← mutex m;
  match owner x with
  | Some o =>
      if o =? t then
        if hold x <? RT_MUTEX_HOLD_MAX then
          set_mutex m (fun x => {x with hold ::= (fun h => u8 (h + 1))}) ;;
          mret (Some RT_EOK)
        else mret (Some (- RT_EFULL))
      else if timeout =? 0 then
        set_error t (- RT_ETIMEOUT) ;;
        mret (Some (- RT_ETIMEOUT))
      else mutex_wait m t timeout suspend_flag
  | None =>
      mutex_get m t suspend_flag ;;
      mret (Some RT_EOK)
  end.

Definition rt_mutex_take_return (m t : Z) : K Z :=
  x ← thread t;
  if th_error x =? RT_EOK then mret RT_EOK
  else
    leave_mutex m t ;;
    x ← thread t;
    mret (th_error x).

Definition rt_mutex_take (m time : Z) : K (option Z) := rt_mutex_take_ m time RT_UNINTERRUPTIBLE.
Definition rt_mutex_take_interruptible (m time : Z) : K (option Z) := rt_mutex_take_ m time RT_INTERRUPTIBLE.
Definition rt_mutex_take_killable (m time : Z) : K (option Z) := rt_mutex_take_ m time RT_KILLABLE.
Definition rt_mutex_trytake (m : Z) : K (option Z) := rt_mutex_take m RT_WAITING_NO.

(** The first waiting thread becomes the owner. *)
Definition hand_over (m : Z) : K unit :=
  next_thread ← first_thread (SuspendHead m);
  on_list (rt_list_remove (TList next_thread)) ;;
  set_mutex m (fun x => {x with owner := Some next_thread; hold := 1}) ;;
  on_list (rt_list_insert_after (TakenHead next_thread) (TakenNode m)) ;;
  set_thread next_thread (fun x => {x with pending_object := None}) ;;
  rt_thread_resume prio_max level next_thread ;;
  mutex_update_priority m.

(** The owner [t] gives the mutex up: whether to reschedule. *)
Definition mutex_give (m t : Z) : K bool :=
  on_list (rt_list_remove (TakenNode m)) ;;
  x ← mutex m;
  y ← thread t;
  need ← (if negb (ceiling_priority x =? 0xff) || (current_priority y =? mx_priority x) then
            priority ← thread_get_mutex_priority t;
            change_priority prio_max t priority ;;
            mret true
          else mret false);
  e ← on_list (rt_list_isempty (SuspendHead m));
  if negb e then hand_over m ;; mret true
  else
    set_mutex m (fun x => {x with owner := None; mx_priority := 0xff}) ;;
    mret need.

Definition rt_mutex_release (m : Z) : K Z :=
  assert_class m RT_Object_Class_Mutex ;;
  debug_in_thread_context ;;
  t ← current;
  x ← mutex m;
  if bool_decide (owner x <> Some t) then
    set_error t (- RT_ERROR) ;;
    mret (- RT_ERROR)
  else
    set_mutex m (fun x => {x with hold ::= (fun h => u8 (h - 1))}) ;;
    x ← mutex m;
    need_schedule ← (if hold x =? 0 then mutex_give m t else mret false);
    when need_schedule (rt_schedule prio_max) ;;
    mret RT_EOK.

Definition rt_mutex_control (m : Z) : K Z :=
  assert_class m RT_Object_Class_Mutex ;;
  mret (- RT_ERROR).
End Mutex.
