(* ===== verification/RtMutexFacts.v ===== *)
(** * RT-Thread: what taking and releasing a mutex do

    For mutexes without a ceiling priority.  The mutexes a thread has are in its ring
    ([TakenHead]); a mutex that nobody has is alone ([TakenNode]). *)
From S2P Require Import Prelude Outcome RtList RtKernel RtSched RtObject RtTimer RtThread RtTimerStart RtTimerFacts.
From S2P Require Import RtSchedFacts RtSchedRun RtWorld RtIpc RtWorldOps RtWait RtWorldSched RtObjectFacts RtBlock RtMutex.
#[local] Open Scope string_scope.
#[local] Open Scope list_scope.
#[local] Open Scope Z_scope.

Definition with_mutex (m : Z) (x : rt_mutex) (k : kernel) : kernel := {k with mutexes ::= <[m := x]> }.

Lemma mutex_with m x k : mutex m (with_mutex m x k) = Ok (x, with_mutex m x k).
Proof. apply load_run. apply lookup_insert_eq. Qed.
Lemma set_mutex_with m f x k : set_mutex m f (with_mutex m x k) = Ok (tt, with_mutex m (f x) k).
Proof.
  unfold set_mutex. rewrite (store_run _ _ _ m f _ x) by apply lookup_insert_eq.
  change (Ok (tt, {k with mutexes := <[m := f x]> (<[m := x]> (mutexes k)) }) = Ok (tt, {k with mutexes := <[m := f x]> (mutexes k)})).
  by rewrite insert_insert_eq.
Qed.
Lemma with_mutex_id m x k : mutexes k !! m = Some x -> with_mutex m x k = k.
Proof. intros E. unfold with_mutex. destruct k. cbn in *. by rewrite insert_id. Qed.

(** A mutex without a ceiling: its owner, how often it was taken, and the priority of the
    most urgent thread that waits, 0xff if none. *)
Definition plain (o : option Z) (h prio : Z) : rt_mutex := {| ceiling_priority := 0xff; mx_priority := prio; hold := h; owner := o |}.

Record mutex_at (k : kernel) (m : Z) (o : option Z) (h prio : Z) : Prop := {
  mu_state : mutexes k !! m = Some (plain o h prio);
  mu_object : ipc_at k m RT_Object_Class_Mutex RT_IPC_FLAG_PRIO;
}.

Lemma mutex_at_frame k k' m o h prio : frame k k' -> mutex_at k m o h prio -> mutex_at k' m o h prio.
Proof. intros Hf [H1 H2]. split; [by rewrite (fr_mutexes _ _ Hf)|by eapply ipc_at_frame]. Qed.
Lemma mutex_at_with k m x o h prio : ipc_at k m RT_Object_Class_Mutex RT_IPC_FLAG_PRIO -> x = plain o h prio -> mutex_at (with_mutex m x k) m o h prio.
Proof. intros Ho ->. split; [apply lookup_insert_eq|exact Ho]. Qed.

(** The threads' mutexes. *)
Definition taken_ring (t : Z) (ms : list Z) : kring := (TakenHead t, TakenNode <$> ms).

Section MutexFacts.
Variables (prio_max : Z) (mask : Z) (soft : bool) (timer_thread : Z) (walk : nat).
Context (Hmax : 0 < prio_max <= 256).
Abbreviation winv := (winv prio_max).
Abbreviation thread_ok := (thread_ok prio_max).
Abbreviation runs := (runs prio_max).
Abbreviation ready := (ready prio_max).
Abbreviation reprio := (reprio prio_max).
Abbreviation take := (rt_mutex_take_ prio_max 1 mask soft timer_thread walk).

Lemma runs_mutex k s c x m y : runs k s c x -> runs (with_mutex m y k) s c x.
Proof using Type. clear Hmax. intros Hr. by eapply runs_frame_tables. Qed.

Definition with_error (err : Z) (c : Z) (x : rt_thread) (k : kernel) : kernel := {k with threads ::= <[c := {x with th_error := err}]> }.

Lemma runs_error k s c x err : runs k s c x -> runs (with_error err c x k) s c {x with th_error := err}.
Proof using Hmax. intros Hr. by apply (runs_set prio_max Hmax k s c x). Qed.

Lemma take_start k s c x m o h prio timeout sflag : runs k s c x -> mutex_at k m o h prio -> rt_scheduler_lock_nest k = 0 ->
  take m timeout sflag k =
    (match o with
     | Some o =>
         if o =? c then
           if h <? RT_MUTEX_HOLD_MAX then set_mutex m (fun x => {x with hold ::= (fun h => u8 (h + 1))}) ;; mret (Some RT_EOK)
           else mret (Some (- RT_EFULL))
         else if timeout =? 0 then set_error c (- RT_ETIMEOUT) ;; mret (Some (- RT_ETIMEOUT))
         else mutex_wait prio_max 1 mask soft timer_thread walk m c timeout sflag
     | None => mutex_get prio_max 1 walk m c sflag ;; mret (Some RT_EOK)
     end) (with_error RT_EOK c x k).
Proof using Type.
  clear Hmax. intros Hr [Hm Ho] Hlock. pose proof (ru_current _ _ _ _ _ Hr) as Hcur. pose proof (ru_thread _ _ _ _ _ Hr) as Hx.
  unfold rt_mutex_take_. step (by eapply scheduler_available_run; [exact Hlock|exact Hcur]). step (by eapply assert_class_run). step (by apply current_run).
  step (by apply set_thread_run). by step (by apply load_run; exact Hm).
Qed.

(** ** Taking *)

(** The owner takes it once more. *)
Lemma take_again k s c x m h prio timeout sflag : runs k s c x -> mutex_at k m (Some c) h prio -> rt_scheduler_lock_nest k = 0 -> 0 <= h <= RT_MUTEX_HOLD_MAX ->
  exists k', take m timeout sflag k = Ok (Some (if h <? RT_MUTEX_HOLD_MAX then RT_EOK else - RT_EFULL), k') /\ runs k' s c {x with th_error := RT_EOK} /\
    mutex_at k' m (Some c) (Z.min (h + 1) RT_MUTEX_HOLD_MAX) prio.
Proof using Hmax.
  intros Hr Hm Hlock Hh. rewrite (take_start k s c x m _ h prio timeout sflag Hr Hm Hlock). rewrite Z.eqb_refl. pose proof Hm as [Hs Ho].
  set (k1 := with_error RT_EOK c x k). pose proof (runs_error k s c x RT_EOK Hr) as Hr1. fold k1 in Hr1. assert (mutexes k1 !! m = Some (plain (Some c) h prio)) as Hs1 by exact Hs.
  unfold RT_MUTEX_HOLD_MAX in *. destruct (Z.ltb_spec h 0xff).
  - exists (with_mutex m (plain (Some c) (h + 1) prio) k1). split; [|split; [by apply runs_mutex|]].
    + rewrite <- (with_mutex_id m _ k1 Hs1) at 1. step (apply set_mutex_with).
      transitivity (Ok (Some RT_EOK, with_mutex m (plain (Some c) (u8 (h + 1)) prio) k1)); [reflexivity|]. by rewrite (wrap_small 8) by (unfold in_u; lia).
    + apply mutex_at_with; [exact Ho|]. unfold plain. f_equal. lia.
  - exists k1. split; [done|]. split; [done|]. replace (Z.min (h + 1) 255) with h by lia. by split.
Qed.

(** Another thread has it and the caller may not wait. *)
Lemma take_refused k s c x m o h prio sflag : runs k s c x -> mutex_at k m (Some o) h prio -> rt_scheduler_lock_nest k = 0 -> o <> c ->
  take m 0 sflag k = Ok (Some (- RT_ETIMEOUT), with_error (- RT_ETIMEOUT) c x k).
Proof using Type.
  clear Hmax. intros Hr Hm Hlock Hne. rewrite (take_start k s c x m _ h prio 0 sflag Hr Hm Hlock). rewrite (proj2 (Z.eqb_neq _ _) Hne), Z.eqb_refl.
  step (by apply set_thread_run; apply lookup_insert_eq). unfold with_error.
  transitivity (Ok (Some (- RT_ETIMEOUT), {k with threads := <[c := {x with th_error := - RT_ETIMEOUT}]> (<[c := {x with th_error := RT_EOK}]> (threads k))})); [reflexivity|].
  by rewrite insert_insert_eq.
Qed.

(** A list of the other kind changes. *)
Lemma winv_other k s l W : winv k s -> rings l (prio_rings prio_max (wq s) ++ world_rings {s with wother := W}) -> winv {k with links := l} {s with wother := W}.
Proof using Type. clear Hmax. intros Hw Hl. eapply winv_links; [exact Hw|exact Hl|done..|]. intros h t Hh Ht. exact (wi_waiting _ _ _ Hw h t Hh Ht). Qed.

Definition set_other (W : list kring) (s : world) : world := {s with wother := W}.

Lemma other_run k s (op : ST (gmap knode (knode * knode)) unit) W0 W X W' : winv k s -> wother s ≡ₚ W0 ++ X -> W' ≡ₚ W ++ X ->
  (forall R, rings (links k) (W0 ++ R) -> exists l, op (links k) = Ok (tt, l) /\ rings l (W ++ R)) ->
  exists l, on_list op k = Ok (tt, {k with links := l}) /\ winv {k with links := l} (set_other W' s).
Proof using Type.
  clear Hmax. intros Hw HW HW' Hop. pose proof (si_rings _ _ _ _ (wi_sched _ _ _ Hw)) as Hr.
  set (R := prio_rings prio_max (wq s) ++ wait_rings s ++ active_ring s :: idle_rings s).
  assert (prio_rings prio_max (wq s) ++ world_rings s ≡ₚ W0 ++ X ++ R) as HP by (unfold world_rings, R; rewrite HW; solve_Permutation).
  rewrite HP in Hr. destruct (Hop _ Hr) as (l & El & Hl). exists l. split; [by apply on_list_run|]. apply winv_other; [exact Hw|].
  match goal with |- rings _ ?R1 => assert (R1 ≡ₚ W ++ X ++ R) as -> end; [|exact Hl].
  rewrite app_assoc, <- HW'. unfold world_rings, R, wait_rings, active_ring, idle_rings. cbn. solve_Permutation.
Qed.

Lemma runs_other k s c x (op : ST (gmap knode (knode * knode)) unit) W0 W X W' : runs k s c x -> wother s ≡ₚ W0 ++ X -> W' ≡ₚ W ++ X ->
  (forall R, rings (links k) (W0 ++ R) -> exists l, op (links k) = Ok (tt, l) /\ rings l (W ++ R)) ->
  exists l, on_list op k = Ok (tt, {k with links := l}) /\ runs {k with links := l} (set_other W' s) c x.
Proof using Type.
  clear Hmax. intros [Hw Hcur Hx Hok Hrun] HW HW' Hop.
  destruct (other_run k (alone c s) op W0 W ((TList c, []) :: X) ((TList c, []) :: W') Hw) as (l & El & Hl); [| |exact Hop|].
  - change (wother (alone c s)) with ((TList c, []) :: wother s). rewrite HW. solve_Permutation.
  - rewrite HW'. solve_Permutation.
  - exists l. split; [done|]. split; [exact Hl|done|done| |done]. by apply (thread_ok_objects prio_max k _ s).
Qed.

(** The mutex joins those of the thread [t], as the first. *)
Lemma taken_insert t m ms l R : rings l ([(TakenNode m, []); taken_ring t ms] ++ R) ->
  exists l', rt_list_insert_after (TakenHead t) (TakenNode m) l = Ok (tt, l') /\ rings l' ([taken_ring t (m :: ms)] ++ R).
Proof using Type.
  clear. intros Hr. assert (rings l ((TakenHead t, [] ++ (TakenNode <$> ms)) :: (TakenNode m, []) :: R)) as Hr'.
  { match goal with |- rings _ ?R1 => match type of Hr with rings _ ?R2 => assert (R1 ≡ₚ R2) as -> end end; [|exact Hr]. unfold taken_ring. solve_Permutation. }
  exact (ring_insert_after _ _ _ [] _ _ Hr').
Qed.

(** It leaves them. *)
Lemma taken_remove t m ms1 ms2 l R : rings l ([taken_ring t (ms1 ++ m :: ms2)] ++ R) ->
  exists l', rt_list_remove (TakenNode m) l = Ok (tt, l') /\ rings l' ([(TakenNode m, []); taken_ring t (ms1 ++ ms2)] ++ R).
Proof using Type.
  clear. unfold taken_ring. rewrite !fmap_app, fmap_cons. intros Hr. destruct (ring_remove _ _ _ _ _ _ Hr) as (l' & E & Hl). exists l'. split; [done|].
  cbn [app]. by rewrite Permutation_swap.
Qed.

(** Nobody has it: the thread gets it. *)
Lemma take_free k s c x m prio h timeout sflag ms O :
  runs k s c x -> mutex_at k m None h prio -> rt_scheduler_lock_nest k = 0 -> wother s ≡ₚ (TakenNode m, []) :: taken_ring c ms :: O ->
  exists k', take m timeout sflag k = Ok (Some RT_EOK, k') /\ runs k' (set_other (taken_ring c (m :: ms) :: O) s) c {x with th_error := RT_EOK} /\
    mutex_at k' m (Some c) 1 0xff.
Proof using Hmax.
  intros Hr Hm Hlock HW. rewrite (take_start k s c x m _ h prio timeout sflag Hr Hm Hlock). pose proof Hm as [Hs Ho].
  set (k1 := with_error RT_EOK c x k). pose proof (runs_error k s c x RT_EOK Hr) as Hr1. fold k1 in Hr1. assert (mutexes k1 !! m = Some (plain None h prio)) as Hs1 by exact Hs.
  set (k2 := with_mutex m (plain (Some c) 1 0xff) k1). pose proof (runs_mutex k1 s c _ m (plain (Some c) 1 0xff) Hr1) as Hr2. fold k2 in Hr2.
  destruct (runs_other k2 s c _ (rt_list_insert_after (TakenHead c) (TakenNode m)) [(TakenNode m, []); taken_ring c ms] [taken_ring c (m :: ms)] O (taken_ring c (m :: ms) :: O) Hr2 HW) as (l & El & Hl); [reflexivity|intros R; apply taken_insert|].
  exists {k2 with links := l}. split; [|split].
  - rewrite bind_run with (a := tt) (s1 := {k2 with links := l}); [done|]. unfold mutex_get. rewrite <- (with_mutex_id m _ k1 Hs1) at 1.
    step (apply set_mutex_with). change (with_mutex m _ k1) with k2. step (apply mutex_with). fold k2. step (by apply thread_run; apply lookup_insert_eq).
    change (ceiling_priority (plain (Some c) 1 0xff)) with 0xff. cbn [negb andb Z.eqb Pos.eqb when]. step (reflexivity). exact El.
  - exact Hl.
  - split; [apply lookup_insert_eq|exact Ho].
Qed.

(** ** Priority inheritance *)

(** An owner that is ready, or that sleeps or waits for something that is not a mutex. *)
Inductive owner_state (k : kernel) (s : world) (o : Z) (z : rt_thread) : bool -> Prop :=
| owner_ready : threads k !! o = Some z -> 0 <= current_priority z < prio_max -> o ∈ wq s (current_priority z) -> owner_state k s o z true
| owner_sleeps : threads k !! o = Some z -> is_suspended z = true -> pending_object z = None -> owner_state k s o z false.

Lemma owner_thread k s o z b : owner_state k s o z b -> threads k !! o = Some z.
Proof using Type. by intros []. Qed.

Lemma boost_run k s c o z b prio :
  winv k s -> rt_current_thread k = Some c -> o <> c -> owner_state k s o z b -> thread_ok k s o -> 0 <= prio < prio_max ->
  exists k' q' z', thread_update_priority prio_max 1 walk o prio RT_UNINTERRUPTIBLE k = Ok (tt, k') /\ winv k' {s with wq := q'} /\ frame k k' /\
    threads k' = <[o := z']> (threads k) /\ current_priority z' = prio /\ rt_current_thread k' = Some c /\ ready q' ≡ₚ ready (wq s) /\ (b = true -> o ∈ q' prio).
Proof using Hmax.
  intros Hw Hcur Hne Ho Hok Hp. destruct Ho as [Hz Hpz Hin|Hz Hsu Hpend].
  - destruct (list_elem_of_split _ _ Hin) as (xs & ys & Hq).
    destruct (change_ready prio_max Hmax k s (current_priority z) xs o ys z prio Hw Hpz Hq Hz) as (k' & E & Hw' & Hf & Ht & Hc); [congruence|done|].
    set (z' := with_stat RT_THREAD_READY (reprio z prio)) in *. exists k', (wq (requeued prio_max z o (current_priority z) prio (xs ++ ys) s)), z'.
    assert (threads k' !! o = Some z') as Hz' by (rewrite Ht; apply lookup_insert_eq).
    assert (is_suspended z' = false) as Hns.
    { destruct (is_suspended z') eqn:Es; [|done]. pose proof (suspended_state RT_THREAD_READY z' Es) as Hst. unfold z' in Hst. rewrite with_stat_state in Hst by done. by discriminate Hst. }
    split; [|split; [exact Hw'|split; [done|split; [done|split; [exact (proj1 (reprio_fields prio_max z prio))|split; [congruence|split; [by apply requeued_ready|intros _; apply requeued_at]]]]]]].
    destruct walk; cbn [thread_update_priority]; step (exact E); step (by apply thread_run); by rewrite Hns.
  - pose proof (change_suspended prio_max Hmax k s o z prio Hw Hz Hsu Hp) as Hw'. set (z' := reprio z prio) in *. set (k' := {k with threads ::= <[o := z']> }) in *.
    exists k', (wq s), z'. assert (threads k' !! o = Some z') as Hz' by (apply lookup_insert_eq).
    destruct (reprio_fields prio_max z prio) as (Ep & Est & _ & _ & _ & Epend). fold z' in Ep, Est, Epend.
    assert (is_suspended z' = true) as Hsu' by (unfold is_suspended; by rewrite Est).
    assert ({s with wq := wq s} = s) as Es by (by destruct s).
    split; [|split; [by rewrite Es|split; [by split|split; [done|split; [done|split; [done|split; [done|done]]]]]]].
    assert (change_priority prio_max o prio k = Ok (RT_EOK, k')) as E by (eapply change_other_run; [exact Hok|done|done|by apply ready_state_suspended]).
    destruct walk; cbn [thread_update_priority]; step (exact E); step (by apply thread_run); rewrite Hsu'; unfold pending_mutex; rewrite Epend, Hpend; by step (reflexivity).
Qed.

Lemma with_mutex_frame k m x k' : frame k k' -> frame (with_mutex m x k) (with_mutex m x k').
Proof using Type. clear Hmax. intros [H1 H2 H3 H4 H5 H6 H7 H8 H9 H10]. split; try done. change (<[m := x]> (mutexes k') = <[m := x]> (mutexes k)). by rewrite H2. Qed.

Lemma winv_mutex k s m x : winv k s -> winv (with_mutex m x k) s.
Proof using Type. clear Hmax. intros Hw. eapply winv_keep; [exact Hw| |done..]. eapply (sched_inv_change prio_max k); [apply Hw|apply Hw|done..]. Qed.

(** The owner of the mutex [m] gets the priority of a thread that waits for it. *)
Lemma inherit_run k s c m o h prio z b pc :
  winv k s -> rt_current_thread k = Some c -> o <> c -> owner_state k s o z b -> thread_ok k s o -> mutexes k !! m = Some (plain (Some o) h prio) ->
  0 <= pc < prio_max -> current_priority z <= prio ->
  exists k' q' z', (y ← mutex m;
      when (pc <? mx_priority y) (
        set_mx_priority m pc ;;
        o ← mutex_owner m;
        z ← thread o;
        when (pc <? current_priority z) (thread_update_priority prio_max 1 walk o pc RT_UNINTERRUPTIBLE))) k = Ok (tt, k') /\
    winv k' {s with wq := q'} /\ frame (with_mutex m (plain (Some o) h (Z.min prio pc)) k) k' /\ threads k' = <[o := z']> (threads k) /\
    current_priority z' = Z.min (current_priority z) pc /\ rt_current_thread k' = Some c /\ ready q' ≡ₚ ready (wq s) /\ (b = true -> o ∈ q' (current_priority z')).
Proof using Hmax.
  intros Hw Hcur Hne Ho Hok Hm Hp Hle. pose proof (owner_thread _ _ _ _ _ Ho) as Hz.
  assert (<[o := z]> (threads k) = threads k) as Eid by (by apply insert_id). assert ({s with wq := wq s} = s) as Es by (by destruct s).
  destruct (Z.ltb_spec pc prio) as [Hlt|Hge].
  2:{ exists k, (wq s), z. rewrite Es, Eid, (Z.min_l prio pc) by lia. rewrite (with_mutex_id m _ k Hm). rewrite Z.min_l by lia.
      split; [|split; [done|split; [done|split; [done|split; [done|split; [done|split; [done|]]]]]]].
      - step (by apply load_run; exact Hm). change (mx_priority (plain (Some o) h prio)) with prio. by rewrite (proj2 (Z.ltb_ge _ _)) by lia.
      - intros ->. by inversion Ho. }
  rewrite (Z.min_r prio pc) by lia. set (k1 := with_mutex m (plain (Some o) h pc) k). pose proof (winv_mutex k s m (plain (Some o) h pc) Hw) as Hw1. fold k1 in Hw1.
  assert (forall k' , (o ← mutex_owner m; z ← thread o; when (pc <? current_priority z) (thread_update_priority prio_max 1 walk o pc RT_UNINTERRUPTIBLE)) k1 = Ok (tt, k') ->
    (y ← mutex m; when (pc <? mx_priority y) (set_mx_priority m pc ;; o ← mutex_owner m; z ← thread o;
        when (pc <? current_priority z) (thread_update_priority prio_max 1 walk o pc RT_UNINTERRUPTIBLE))) k = Ok (tt, k')) as Hrun.
  { intros k' E. rewrite <- (with_mutex_id m _ k Hm). step (apply mutex_with). change (mx_priority (plain (Some o) h prio)) with prio. rewrite (proj2 (Z.ltb_lt _ _)) by lia. cbn [when].
    step (exact (set_mutex_with m _ (plain (Some o) h prio) k)). exact E. }
  assert (forall A (f : Z -> K A), (o ← mutex_owner m; f o) k1 = f o k1) as Howner.
  { intros A f. rewrite bind_run with (a := o) (s1 := k1); [done|]. unfold mutex_owner. by step (apply mutex_with). }
  destruct (Z.ltb_spec pc (current_priority z)) as [Hb|Hnb].
  - destruct (boost_run k1 s c o z b pc Hw1 Hcur Hne) as (k' & q' & z' & E & Hw' & Hf & Ht & Ecp & Hc & HP & Hin); [by destruct Ho; constructor|by apply (thread_ok_objects prio_max k k1 s s o)|done|].
    exists k', q', z'. rewrite Z.min_r by lia. split; [apply Hrun; rewrite Howner; step (by apply thread_run; exact Hz); rewrite (proj2 (Z.ltb_lt _ _)) by lia; exact E|].
    split; [done|]. split; [done|]. split; [done|]. split; [done|]. split; [done|]. split; [done|]. by rewrite Ecp.
  - exists k1, (wq s), z. rewrite Es, Z.min_l by lia. split; [apply Hrun; rewrite Howner; step (by apply thread_run; exact Hz); by rewrite (proj2 (Z.ltb_ge _ _)) by lia|].
    split; [done|]. split; [done|]. split; [by rewrite Eid|]. split; [done|]. split; [done|]. split; [done|]. intros ->. by inversion Ho.
Qed.

Lemma ready_nonempty q q' p0 : ready q' ≡ₚ ready q -> 0 <= p0 < prio_max -> q p0 <> [] -> exists p, 0 <= p < prio_max /\ q' p <> [].
Proof using Type.
  intros HP Hp Hq. destruct (q p0) as [|t l] eqn:E; [done|]. assert (t ∈ ready q') as (p & Hp' & Hin)%elem_of_ready.
  { rewrite HP. apply elem_of_ready. exists p0. rewrite E. split; [done|by left]. }
  exists p. split; [done|]. intros H. rewrite H in Hin. by apply elem_of_nil in Hin.
Qed.

Lemma arm_wait_queues tm T timeout s q q' : {arm_wait tm T timeout {s with wq := q} with wq := q'} = {arm_wait tm T timeout s with wq := q'}.
Proof using Type. clear Hmax. unfold arm_wait. by destruct (0 <? timeout). Qed.

(** ** Waiting for the owner *)

(** The thread [c] waits for the mutex [m], whose owner has inherited its priority. *)
Record waits_for (k : kernel) (s : world) (c : Z) (x : rt_thread) (m o h prio : Z) (z : rt_thread) (can_run : bool) (T timeout sflag : Z)
    (k' : kernel) (s' : world) (c' : Z) (x' : rt_thread) : Prop := {
  wf_world : exists q', s' = {blocked k c x (SuspendHead m) RT_IPC_FLAG_PRIO T timeout s with wq := q'};
  wf_thread : threads k' !! c = Some {with_stat (suspend_stat sflag) {x with th_error := RT_EOK} with pending_object := Some (OOther m)};
  wf_mutex : mutex_at k' m (Some o) h (Z.min prio (current_priority x));
  wf_owner : exists z', threads k' !! o = Some z' /\ current_priority z' = Z.min (current_priority z) (current_priority x);
  wf_urgent : urgent (wq s') x';
  wf_ready : c' :: ready (wq s') ≡ₚ ready (wq s);
  wf_inversion : can_run = true -> current_priority x' <= current_priority x;
}.

Lemma owner_state_same k k' s s' o z b : threads k' !! o = threads k !! o -> wq s' = wq s -> owner_state k s o z b -> owner_state k' s' o z b.
Proof using Type. intros Et Eq [Hz Hp Hin|Hz Hs Hpend]; [apply owner_ready|apply owner_sleeps]; rewrite ?Et, ?Eq; done. Qed.

Lemma take_wait k s c x m o h prio z b timeout sflag T p0 :
  runs k s c x -> mutex_at k m (Some o) h prio -> o <> c -> owner_state k s o z b -> thread_ok k s o -> current_priority z <= prio ->
  SuspendHead m ∈ wheads s -> rt_scheduler_lock_nest k = 0 -> suspend_flag_ok sflag -> 0 <= p0 < prio_max -> wq s p0 <> [] -> rt_tick k = u32 T ->
  timeout <> 0 -> wait_time_ok T (stop_timer (thread_timer x) s) timeout ->
  exists k' s' c' x', take m timeout sflag k = Ok (None, k') /\ runs k' s' c' x' /\ waits_for k s c x m o h prio z b T timeout sflag k' s' c' x'.
Proof using Hmax.
  intros Hr Hm Hne Ho Hok Hle Hh Hlock Hsf Hp0 Hq0 HT Hto0 Hto. rewrite (take_start k s c x m _ h prio timeout sflag Hr Hm Hlock).
  rewrite (proj2 (Z.eqb_neq _ _) Hne), (proj2 (Z.eqb_neq _ _) Hto0). set (x1 := {x with th_error := RT_EOK}). set (k1 := with_error RT_EOK c x k).
  pose proof (runs_error k s c x RT_EOK Hr) as Hr1. fold k1 x1 in Hr1. pose proof (ru_thread _ _ _ _ _ Hr) as Hx.
  assert (frame k k1) as Hf1 by (by split). pose proof (mutex_at_frame _ _ _ _ _ _ Hf1 Hm) as [Hm1 Ho1].
  assert (blocked k1 c x1 (SuspendHead m) RT_IPC_FLAG_PRIO T timeout s = blocked k c x (SuspendHead m) RT_IPC_FLAG_PRIO T timeout s) as Eb by (by apply blocked_set).
  destruct (ipc_suspend_world prio_max Hmax k1 s c x1 (SuspendHead m) RT_IPC_FLAG_PRIO sflag Hr1 Hsf) as (k2 & E2 & Hw2 & Hf2 & Ht2 & Hc2); [by right|done|].
  set (s2 := set_wait _ _ _) in Hw2. set (x2 := with_stat (suspend_stat sflag) x1) in *. set (x3 := {x2 with pending_object := Some (OOther m)}).
  destruct (stop_timer_fields (thread_timer x) s) as (Fq & Fh & Fw & _ & _).
  assert (threads k2 !! c = Some x2) as Hx2 by (rewrite Ht2; apply lookup_insert_eq). set (k3 := {k2 with threads ::= <[c := x3]> }).
  assert (alike x2 x3) as Ha by (by unfold alike). pose proof (winv_alike prio_max k2 s2 c x2 x3 Hw2 Hx2 Ha eq_refl) as Hw3. fold k3 in Hw3.
  assert (frame k k3) as Hf3 by (etransitivity; [exact Hf1|etransitivity; [exact Hf2|by split]]).
  assert (threads k3 = <[c := x3]> (threads k)) as Ht3.
  { change (<[c := x3]> (threads k2) = <[c := x3]> (threads k)). rewrite Ht2, insert_insert_eq. change (threads k1) with (<[c := x1]> (threads k)). apply insert_insert_eq. }
  assert (threads k3 !! o = threads k !! o) as Hto3 by (rewrite Ht3; by apply lookup_insert_ne).
  assert (wtimers s2 ≡ₚ wtimers s) as Htm by (apply stop_timer_timers; eapply timers_inv_nodup; apply Hr).
  destruct (thread_ok_masks _ _ _ _ _ (ru_ok _ _ _ _ _ Hr) Hx) as [Hcp _].
  destruct (inherit_run k3 s2 c m o h prio z b (current_priority x) Hw3 Hc2 Hne) as (k4 & q4 & z' & E4 & Hw4 & Hf4 & Ht4 & Ez' & Hc4 & HP4 & _);
    [by eapply owner_state_same; [exact Hto3|exact Fq|exact Ho]|by eapply thread_ok_frame|by rewrite (fr_mutexes _ _ Hf3); apply Hm|done|done|].
  set (s4 := {s2 with wq := q4}) in *. change (ready (wq s2)) with (ready (wq (stop_timer (thread_timer x) s))) in HP4. rewrite Fq in HP4.
  destruct (ready_nonempty (wq s) q4 p0 HP4 Hp0 Hq0) as (p1 & Hp1 & Hq1).
  assert (threads k4 !! c = Some x3) as Hx4 by (rewrite Ht4, lookup_insert_ne by done; rewrite Ht3; apply lookup_insert_eq).
  assert (frame (with_mutex m (plain (Some o) h (Z.min prio (current_priority x))) k) k4) as Hfk by (etransitivity; [by apply with_mutex_frame|exact Hf4]).
  destruct (block_world prio_max Hmax mask soft timer_thread k4 s4 c x3 (SuspendHead m) timeout T p1 Hw4) as (k' & q' & c' & x' & E5 & Hr' & Hu & HP & Hf5 & Hx' & Hth).
  - change (SuspendHead m ∈ wheads (stop_timer (thread_timer x) s)). by rewrite Fh.
  - change (c ∈ wupd (wwait (stop_timer (thread_timer x) s)) (SuspendHead m) (enqueue RT_IPC_FLAG_PRIO (prio_of k1) c (wwait s (SuspendHead m))) (SuspendHead m)).
    rewrite wupd_same, enqueue_perm. by left.
  - done.
  - exact Hx4.
  - apply (stopped_idle (thread_timer x) s). eapply thread_ok_timer; [apply Hr|exact Hx].
  - rewrite (fr_lock _ _ Hfk). exact Hlock.
  - exact Hp1.
  - exact Hq1.
  - rewrite (fr_tick _ _ Hfk). exact HT.
  - exact Hto.
  - exists k', {blocked k c x (SuspendHead m) RT_IPC_FLAG_PRIO T timeout s with wq := q'}, c', x'.
    cbv zeta in Hr'. unfold s4 in Hr'. rewrite arm_wait_queues in Hr'. change (arm_wait (thread_timer x3) T timeout s2) with (blocked k1 c x1 (SuspendHead m) RT_IPC_FLAG_PRIO T timeout s) in Hr'.
    rewrite Eb in Hr'. destruct (Hth o z') as [st Hzo]; [rewrite Ht4; apply lookup_insert_eq|].
    split; [|split; [exact Hr'|]].
    + unfold mutex_wait. step (by apply thread_run; apply Hr1). step (by eapply ipc_flag_run). step (exact E2). change (negb (RT_EOK =? RT_EOK)) with false. cbv iota.
      step (by apply set_thread_run). fold x3 k3. apply bind_ok in E4 as (y & k3' & Ey & Ew). step (exact Ey). step (exact Ew).
      apply bind_ok in E5 as ([] & k5 & E5 & E6). step (exact E5). by step (exact E6).
    + assert (c' :: ready q' ≡ₚ ready (wq s)) as HP' by (etransitivity; [exact HP|exact HP4]). split; [by exists q'|exact Hx'| |by eexists|exact Hu|exact HP'|].
      * eapply mutex_at_frame; [etransitivity; [exact Hfk|exact Hf5]|]. by eapply mutex_at_with; [apply Hm|].
      * intros ->. inversion Ho as [Hz Hpz Hin|]; subst. transitivity (current_priority {z' with stat := st}); [|change (current_priority z' <= current_priority x); lia].
        eapply urgent_ready; [exact Hr'|exact Hu| |exact Hzo]. change (o ∈ c' :: ready q'). rewrite HP'. apply elem_of_ready. eauto.
Qed.
End MutexFacts.

(** ** Giving a mutex up

    For mutexes without a ceiling priority: the owner's priority goes back to what its
    other mutexes ask for, the first thread that waits becomes the owner. *)

Lemma bind_same {A B} (m m' : K A) (f : A -> K B) k k' : m k = m' k' -> (m ≫= f) k = (m' ≫= f) k'.
Proof. intros E. unfold mbind, st_bind. by rewrite E. Qed.

(** The priority a mutex asks for its owner, and the most urgent one that the mutexes
    [ms] and the thread's own priority [p] ask for. *)
Definition mutex_prio (y : rt_mutex) : Z := Z.min (mx_priority y) (ceiling_priority y).
Definition inherited (k : kernel) (ms : list Z) (p : Z) : Z :=
  foldl (fun p m => match mutexes k !! m with Some y => Z.min p (mutex_prio y) | None => p end) p ms.

Definition taken_ok (k : kernel) (ms : list Z) : Prop := forall m, m ∈ ms -> exists y, mutexes k !! m = Some y /\ 0 <= mutex_prio y.

Lemma inherited_range k ms p : taken_ok k ms -> 0 <= p -> 0 <= inherited k ms p <= p.
Proof.
  unfold inherited. revert p. induction ms as [|m ms IH]; intros p Hk Hp; cbn [foldl]; [lia|]. destruct (Hk m) as (y & -> & Hy); [by left|].
  destruct (IH (Z.min p (mutex_prio y))) as [H1 H2]; [intros m' Hm'; apply Hk; by right|lia|]. lia.
Qed.

(** It is the lowest number of all. *)
Lemma inherited_lowest k ms p m y : m ∈ ms -> mutexes k !! m = Some y -> inherited k ms p <= mutex_prio y.
Proof.
  unfold inherited. intros Hin Hy. assert (forall l q, foldl (fun p m => match mutexes k !! m with Some y => Z.min p (mutex_prio y) | None => p end) q l <= q) as Hle.
  { induction l as [|a l IH]; intros q; cbn [foldl]; [lia|]. etransitivity; [apply IH|]. destruct (mutexes k !! a); lia. }
  revert p. induction ms as [|a ms IH]; intros p; [by apply elem_of_nil in Hin|]. cbn [foldl]. apply elem_of_cons in Hin as [->|Hin].
  - rewrite Hy. etransitivity; [apply Hle|]. lia.
  - by apply IH.
Qed.

Lemma get_mutex_priority_run k t x ms R : threads k !! t = Some x -> rings (links k) (taken_ring t ms :: R) -> taken_ok k ms ->
  thread_get_mutex_priority t k = Ok (inherited k ms (init_priority x), k).
Proof.
  intros Hx Hr Hok. unfold thread_get_mutex_priority. step (by apply thread_run).
  set (f := fun (p : Z) m => (match mutexes k !! m with Some y => Z.min p (mutex_prio y) | None => p end, false)).
  rewrite (list_for_each_run TakenNode _ f k (TakenHead t) R ms (init_priority x)).
  - do 2 f_equal. unfold inherited. clear. generalize (init_priority x). induction ms as [|m ms IH]; intros p; cbn; [done|apply IH].
  - exact Hr.
  - intros p m Hm. destruct (Hok m Hm) as (y & Hy & _). step (reflexivity). step (by apply load_run). unfold f, mutex_prio. rewrite Hy. unfold mret, st_ret. do 3 f_equal.
        destruct (Z.ltb_spec (mx_priority y) (ceiling_priority y)).
    + rewrite (Z.min_l (mx_priority y)) by lia. destruct (Z.ltb_spec (mx_priority y) p); lia.
    + rewrite (Z.min_r (mx_priority y)) by lia. destruct (Z.ltb_spec (ceiling_priority y) p); lia.
Qed.

Section MutexGive.
Variables (prio_max : Z).
Context (Hmax : 0 < prio_max <= 256).
Abbreviation winv := (winv prio_max).
Abbreviation thread_ok := (thread_ok prio_max).
Abbreviation runs := (runs prio_max).
Abbreviation ready := (ready prio_max).
Abbreviation reprio := (reprio prio_max).
Abbreviation release := (rt_mutex_release prio_max 1).

Lemma release_start k s c x m o h prio : runs k s c x -> mutex_at k m o h prio ->
  release m k = (if bool_decide (o <> Some c) then set_error c (- RT_ERROR) ;; mret (- RT_ERROR)
    else
      set_mutex m (fun x => {x with hold ::= (fun h => u8 (h - 1))}) ;;
      x ← mutex m;
      need_schedule ← (if hold x =? 0 then mutex_give prio_max 1 m c else mret false);
      when need_schedule (rt_schedule prio_max) ;;
      mret RT_EOK) k.
Proof using Type.
  clear Hmax. intros Hr [Hm Ho]. pose proof (ru_current _ _ _ _ _ Hr) as Hcur. unfold rt_mutex_release. step (by eapply assert_class_run).
  rewrite bind_run with (a := tt) (s1 := k).
  2:{ unfold debug_in_thread_context. step (by unfold rt_thread_self; reflexivity). rewrite Hcur. by rewrite bool_decide_eq_true_2. }
  step (by apply current_run). by step (by apply load_run; exact Hm).
Qed.

(** Only the owner can release it. *)
Lemma release_other k s c x m o h prio : runs k s c x -> mutex_at k m o h prio -> o <> Some c ->
  release m k = Ok (- RT_ERROR, with_error (- RT_ERROR) c x k).
Proof using Type.
  clear Hmax. intros Hr Hm Ho. rewrite (release_start k s c x m o h prio Hr Hm). rewrite bool_decide_eq_true_2 by done.
  by step (by apply set_thread_run; apply Hr).
Qed.

Lemma release_hold k s c x m h prio : runs k s c x -> mutex_at k m (Some c) h prio -> 1 <= h <= RT_MUTEX_HOLD_MAX ->
  release m k = (need_schedule ← (if h - 1 =? 0 then mutex_give prio_max 1 m c else mret false);
      when need_schedule (rt_schedule prio_max) ;;
      mret RT_EOK) (with_mutex m (plain (Some c) (h - 1) prio) k).
Proof using Type.
  clear Hmax. intros Hr Hm Hh. rewrite (release_start k s c x m _ h prio Hr Hm). rewrite bool_decide_eq_false_2 by congruence.
  rewrite bind_run with (a := tt) (s1 := with_mutex m (plain (Some c) (h - 1) prio) k); [by step (apply mutex_with)|].
  rewrite <- (with_mutex_id m _ k (mu_state _ _ _ _ _ Hm)) at 1. rewrite set_mutex_with.
  transitivity (Ok (tt, with_mutex m (plain (Some c) (u8 (h - 1)) prio) k)); [reflexivity|].
  by rewrite (wrap_small 8) by (unfold in_u, RT_MUTEX_HOLD_MAX in *; lia).
Qed.

(** The owner has taken it more often than it has released it. *)
Lemma release_nested k s c x m h prio : runs k s c x -> mutex_at k m (Some c) h prio -> 1 < h <= RT_MUTEX_HOLD_MAX ->
  release m k = Ok (RT_EOK, with_mutex m (plain (Some c) (h - 1) prio) k) /\ runs (with_mutex m (plain (Some c) (h - 1) prio) k) s c x.
Proof using Type.
  clear Hmax. intros Hr Hm Hh. split; [|by apply runs_mutex]. rewrite (release_hold k s c x m h prio Hr Hm) by lia.
  rewrite (proj2 (Z.eqb_neq _ _)) by lia. done.
Qed.

(** The priority of the thread that gives it up. *)
Definition given_up (k : kernel) (x : rt_thread) (ms : list Z) (prio : Z) : Z :=
  if current_priority x =? prio then inherited k ms (init_priority x) else current_priority x.

Definition lowered (k : kernel) (x : rt_thread) (ms : list Z) (prio : Z) : rt_thread :=
  if current_priority x =? prio then reprio x (inherited k ms (init_priority x)) else x.

Lemma lowered_fields k x ms prio : current_priority (lowered k x ms prio) = given_up k x ms prio /\ thread_timer (lowered k x ms prio) = thread_timer x /\
  pending_object (lowered k x ms prio) = pending_object x /\ init_priority (lowered k x ms prio) = init_priority x.
Proof using Type.
  unfold lowered, given_up. destruct (current_priority x =? prio); [|done]. destruct (reprio_fields prio_max x (inherited k ms (init_priority x))) as (? & _ & ? & ? & _ & ?). done.
Qed.

Lemma other_ring k s r O : winv k s -> wother s ≡ₚ r :: O -> exists R, rings (links k) (r :: R).
Proof using Type.
  clear Hmax. intros Hw HW. exists (O ++ prio_rings prio_max (wq s) ++ wait_rings s ++ active_ring s :: idle_rings s).
  pose proof (si_rings _ _ _ _ (wi_sched _ _ _ Hw)) as Hr. unfold world_rings in Hr. rewrite HW in Hr.
  match goal with |- rings _ ?R1 => match type of Hr with rings _ ?R2 => assert (R1 ≡ₚ R2) as -> by solve_Permutation end end. exact Hr.
Qed.

(** The thread that gives the mutex up goes back to the priority its other mutexes ask for. *)
Lemma lower_run k s c x m o h prio ms O :
  runs k s c x -> mutexes k !! m = Some (plain o h prio) -> wother s ≡ₚ taken_ring c ms :: O -> taken_ok k ms -> 0 <= init_priority x < prio_max ->
  exists k', (x ← mutex m;
      y ← thread c;
      if negb (ceiling_priority x =? 0xff) || (current_priority y =? mx_priority x) then
        priority ← thread_get_mutex_priority c;
        change_priority prio_max c priority ;;
        mret true
      else mret false) k = Ok (current_priority x =? prio, k') /\
    runs k' s c (lowered k x ms prio) /\ frame k k' /\ threads k' = <[c := lowered k x ms prio]> (threads k) /\ (current_priority x <> prio -> k' = k).
Proof using Hmax.
  intros Hr Hm HW Hok Hip. pose proof (ru_thread _ _ _ _ _ Hr) as Hx.
  destruct (other_ring k (alone c s) (taken_ring c ms) ((TList c, []) :: O) (ru_world _ _ _ _ _ Hr)) as (R & HR).
  { change (wother (alone c s)) with ((TList c, []) :: wother s). rewrite HW. apply Permutation_swap. }
  destruct (inherited_range k ms (init_priority x) Hok) as [Hi1 Hi2]; [lia|]. unfold lowered.
  destruct (Z.eqb_spec (current_priority x) prio) as [E|E].
  - destruct (change_running prio_max Hmax k s c x (inherited k ms (init_priority x)) Hr) as [Ec Hr']; [lia|].
    eexists. split; [|split; [exact Hr'|split; [by split|split; [done|done]]]].
    step (by apply load_run; exact Hm). step (by apply thread_run). change (mx_priority (plain o h prio)) with prio. change (negb (ceiling_priority (plain o h prio) =? 255)) with false.
    rewrite (proj2 (Z.eqb_eq _ _)) by done. cbn [orb]. step (by eapply get_mutex_priority_run). by step (exact Ec).
  - exists k. split; [|split; [done|split; [done|split; [by rewrite insert_id|done]]]].
    step (by apply load_run; exact Hm). step (by apply thread_run). change (mx_priority (plain o h prio)) with prio. change (negb (ceiling_priority (plain o h prio) =? 255)) with false.
    by rewrite (proj2 (Z.eqb_neq _ _)) by done.
Qed.

(** The priority of the first of the threads that wait. *)
Definition next_prio (k : kernel) (ws : list Z) : Z := match ws with [] => 0xff | a :: _ => prio_of k a end.

Lemma update_priority_run k s c x m o h prio : runs k s c x -> SuspendHead m ∈ wheads s -> mutexes k !! m = Some (plain o h prio) ->
  mutex_update_priority m k = Ok (tt, with_mutex m (plain o h (next_prio k (wwait s (SuspendHead m)))) k).
Proof using Type.
  clear Hmax. intros Hr Hh Hm. unfold mutex_update_priority. step (exact (isempty_wait prio_max k s c x (SuspendHead m) Hr Hh)).
  pose proof (wait_ring_at prio_max k s c (SuspendHead m) (ru_world _ _ _ _ _ Hr) Hh) as Hri. unfold next_prio.
  destruct (wwait s (SuspendHead m)) as [|a ws] eqn:Ew; unfold set_mx_priority.
  - rewrite <- (with_mutex_id m _ k Hm) at 1. exact (set_mutex_with m _ (plain o h prio) k).
  - rewrite (bool_decide_eq_false_2 (a :: ws = [])) by done. cbn [negb]. rewrite bind_run with (a := a) (s1 := k).
    2:{ unfold first_thread. rewrite bind_run with (a := TList a) (s1 := k); [reflexivity|]. apply on_list_read. by rewrite (ring_next _ _ _ _ Hri). }
    destruct (wi_waiting _ _ _ (ru_world _ _ _ _ _ Hr) (SuspendHead m) a Hh) as [(y & Hy & _) _]; [change (a ∈ wwait s (SuspendHead m)); rewrite Ew; by left|].
    step (by apply thread_run). rewrite (prio_of_run k a y Hy). rewrite <- (with_mutex_id m _ k Hm) at 1. exact (set_mutex_with m _ (plain o h prio) k).
Qed.

(** ** The first thread that waits becomes the owner *)

Lemma first_waiting k s c x h t ws : runs k s c x -> h ∈ wheads s -> wwait s h = t :: ws -> first_thread h k = Ok (t, k).
Proof using Type.
  clear Hmax. intros Hr Hh Hws. pose proof (wait_ring_at prio_max k s c h (ru_world _ _ _ _ _ Hr) Hh) as Hri. rewrite Hws in Hri.
  unfold first_thread. rewrite bind_run with (a := TList t) (s1 := k); [reflexivity|]. apply on_list_read. by rewrite (ring_next _ _ _ _ Hri).
Qed.

Lemma next_prio_ext k k' ws : (forall a, a ∈ ws -> prio_of k' a = prio_of k a) -> next_prio k' ws = next_prio k ws.
Proof using Type. clear Hmax. destruct ws as [|a ws]; [done|]. intros H. cbn [next_prio]. apply H. by left. Qed.

(** The description once the thread [t] has the mutex. *)
Definition handed (y : rt_thread) (t m : Z) (mst ws : list Z) (O : list kring) (s : world) : world :=
  woke y t (set_other (taken_ring t (m :: mst) :: O) (set_wait (SuspendHead m) ws s)).

Lemma hand_over_run k s c x m t ws y o h prio mst O :
  runs k s c x -> SuspendHead m ∈ wheads s -> wwait s (SuspendHead m) = t :: ws -> mutexes k !! m = Some (plain o h prio) -> threads k !! t = Some y ->
  wother s ≡ₚ (TakenNode m, []) :: taken_ring t mst :: O ->
  exists k', hand_over prio_max 1 m k = Ok (tt, k') /\ runs k' (handed y t m mst ws O s) c x /\
    frame (with_mutex m (plain (Some t) 1 (next_prio k ws)) k) k' /\ threads k' = <[t := with_stat RT_THREAD_READY {y with pending_object := None}]> (threads k).
Proof using Hmax.
  intros Hr Hh Hws Hm Hy HW. assert (t <> c) as Hne by (eapply waiting_not_current; [exact Hr|exact Hh|rewrite Hws; by left]).
  pose proof (wwait_nodup prio_max k s c (SuspendHead m) (ru_world _ _ _ _ _ Hr) Hh) as Hnd. rewrite Hws in Hnd. apply NoDup_cons in Hnd as [Htws _].
  pose proof (first_waiting k s c x _ t ws Hr Hh Hws) as Efirst. destruct Hr as [Hw Hcur Hx Hok Hrun].
  destruct (wi_waiting _ _ _ Hw (SuspendHead m) t Hh) as [(y' & Hy' & Hsu) Hokt]; [change (t ∈ wwait s (SuspendHead m)); rewrite Hws; by left|].
  assert (y' = y) as -> by congruence.
  destruct (leave_list prio_max k (alone c s) (SuspendHead m) [] t ws Hw Hh Hws) as (l1 & El1 & Hw1). cbn [app] in Hw1. set (k1 := {k with links := l1}) in *.
  set (k2 := with_mutex m (plain (Some t) 1 prio) k1).
  assert (winv k2 (alone t (set_wait (SuspendHead m) ws (alone c s)))) as Hw2 by (by apply winv_mutex).
  set (s2 := alone t (set_wait (SuspendHead m) ws (alone c s))) in *.
  destruct (other_run prio_max k2 s2 (rt_list_insert_after (TakenHead t) (TakenNode m)) [(TakenNode m, []); taken_ring t mst] [taken_ring t (m :: mst)]
    ((TList t, []) :: (TList c, []) :: O) ((TList t, []) :: (TList c, []) :: taken_ring t (m :: mst) :: O) Hw2) as (l3 & El3 & Hw3).
  { change (wother s2) with ((TList t, []) :: (TList c, []) :: wother s). rewrite HW. solve_Permutation. }
  { solve_Permutation. }
  { intros R. apply taken_insert. }
  set (k3 := {k2 with links := l3}) in *. set (s' := set_other (taken_ring t (m :: mst) :: O) (set_wait (SuspendHead m) ws s)).
  change (winv k3 (alone t (alone c s'))) in Hw3. set (z := {y with pending_object := None}). set (k4 := {k3 with threads ::= <[t := z]> }).
  assert (alike y z) as Ha by (by unfold alike). assert (threads k3 !! t = Some y) as Hy3 by exact Hy.
  pose proof (winv_alike prio_max k3 _ t y z Hw3 Hy3 Ha eq_refl) as Hw4. fold k4 in Hw4. assert (threads k4 !! t = Some z) as Hz by (apply lookup_insert_eq).
  assert (frame (with_mutex m (plain (Some t) 1 prio) k) k4) as Hf4 by (by split).
  assert (forall a, thread_ok k s a -> thread_ok k3 s' a) as Hoks by (intros a; by apply (thread_ok_objects prio_max k k3 s s' a)).
  assert (thread_ok k4 s' t) as Hok4.
  { eapply (thread_ok_alike prio_max k3 k4 s' s' t y z); [by split|exact Hy3|exact Hz|exact Ha|done|]. exact (Hoks t Hokt). }
  destruct (resume_alone prio_max Hmax k4 (alone c s') t z Hw4 Hok4 Hz Hsu) as (k5 & E5 & Hw5 & Hf5 & Ht5 & Hc5); [change (rt_current_thread k <> Some t); congruence|].
  rewrite woke_alone in Hw5. change (woke z t s') with (handed y t m mst ws O s) in Hw5.
  assert (threads k5 = <[t := with_stat RT_THREAD_READY z]> (threads k)) as Ht5'.
  { rewrite Ht5. change (threads k4) with (<[t := z]> (threads k)). apply insert_insert_eq. }
  assert (frame (with_mutex m (plain (Some t) 1 prio) k) k5) as Hf by (by etransitivity).
  assert (runs k5 (handed y t m mst ws O s) c x) as Hr5.
  { split; [exact Hw5|rewrite Hc5; exact Hcur|by rewrite Ht5', lookup_insert_ne| |done].
    eapply (thread_ok_frame prio_max k3 k5 s'); [etransitivity; [|exact Hf5]; by split|by rewrite Ht5', lookup_insert_ne| |exact (Hoks c Hok)].
    change (wtimers (stop_timer (thread_timer y) s') ≡ₚ wtimers s'). apply stop_timer_timers. eapply (timers_inv_nodup k false). apply (wi_timers _ _ _ Hw). }
  exists (with_mutex m (plain (Some t) 1 (next_prio k ws)) k5). split; [|split; [by apply runs_mutex|split; [|exact Ht5']]].
  - unfold hand_over. step (exact Efirst). step (by apply on_list_run; exact El1). rewrite bind_run with (a := tt) (s1 := k2).
    2:{ fold k1. rewrite <- (with_mutex_id m (plain o h prio) k1) at 1 by exact Hm. exact (set_mutex_with m _ (plain o h prio) k1). }
    step (exact El3). step (by apply set_thread_run). fold z k4. step (exact E5).
    destruct (stop_timer_fields (thread_timer y) s') as (_ & Fh & Fw & _).
    rewrite (update_priority_run k5 (handed y t m mst ws O s) c x m (Some t) 1 prio Hr5).
    + change (wwait (handed y t m mst ws O s)) with (wwait (stop_timer (thread_timer y) s')). rewrite Fw. change (wwait s') with (wupd (wwait s) (SuspendHead m) ws). rewrite wupd_same.
      rewrite (next_prio_ext k k5); [done|]. intros a Hin. unfold prio_of. rewrite Ht5', lookup_insert_ne; [done|]. by intros ->.
    + change (SuspendHead m ∈ wheads (stop_timer (thread_timer y) s')). by rewrite Fh.
    + rewrite (fr_mutexes _ _ Hf). apply lookup_insert_eq.
  - pose proof (with_mutex_frame _ m (plain (Some t) 1 (next_prio k ws)) _ Hf) as Hf'. etransitivity; [|exact Hf'].
    split; try done. change (<[m := plain (Some t) 1 (next_prio k ws)]> (<[m := plain (Some t) 1 prio]> (mutexes k)) = <[m := plain (Some t) 1 (next_prio k ws)]> (mutexes k)). apply insert_insert_eq.
Qed.

(** ** The last release *)

Lemma inherited_ext k k' ms p : (forall m, m ∈ ms -> mutexes k' !! m = mutexes k !! m) -> inherited k' ms p = inherited k ms p.
Proof using Type.
  clear Hmax. unfold inherited. revert p. induction ms as [|m ms IH]; intros p He; cbn [foldl]; [done|]. rewrite (He m) by (by left).
  apply IH. intros a Ha. apply He. by right.
Qed.

Lemma give_start k s c x m prio ms1 ms2 O :
  runs k s c x -> mutex_at k m (Some c) 1 prio -> wother s ≡ₚ taken_ring c (ms1 ++ m :: ms2) :: O -> taken_ok k (ms1 ++ ms2) -> 0 <= init_priority x < prio_max ->
  exists k', let y := lowered k x (ms1 ++ ms2) prio in
    release m k = (need_schedule ← (
        e ← on_list (rt_list_isempty (SuspendHead m));
        if negb e then hand_over prio_max 1 m ;; mret true
        else set_mutex m (fun x => {x with owner := None; mx_priority := 0xff}) ;; mret (current_priority x =? prio));
      when need_schedule (rt_schedule prio_max) ;; mret RT_EOK) k' /\
    runs k' (set_other ((TakenNode m, []) :: taken_ring c (ms1 ++ ms2) :: O) s) c y /\ frame (with_mutex m (plain (Some c) 0 prio) k) k' /\
    threads k' = <[c := y]> (threads k).
Proof using Hmax.
  intros Hr Hm HW Hok Hip. set (k1 := with_mutex m (plain (Some c) 0 prio) k). pose proof (runs_mutex prio_max k s c x m (plain (Some c) 0 prio) Hr) as Hr1. fold k1 in Hr1.
  destruct (runs_other prio_max k1 s c x (rt_list_remove (TakenNode m)) [taken_ring c (ms1 ++ m :: ms2)] [(TakenNode m, []); taken_ring c (ms1 ++ ms2)] O
    ((TakenNode m, []) :: taken_ring c (ms1 ++ ms2) :: O) Hr1 HW) as (l & El & Hr2); [reflexivity|intros R; apply taken_remove|].
  set (k2 := {k1 with links := l}) in *. set (s2 := set_other _ s) in *.
  assert (m ∉ ms1 ++ ms2) as Hnin.
  { destruct (other_ring k (alone c s) (taken_ring c (ms1 ++ m :: ms2)) ((TList c, []) :: O) (ru_world _ _ _ _ _ Hr)) as (R & HR).
    { change (wother (alone c s)) with ((TList c, []) :: wother s). rewrite HW. apply Permutation_swap. }
    pose proof (rings_nodup _ _ _ _ HR) as [_ Hnd]%NoDup_cons. apply NoDup_fmap_1 in Hnd. rewrite <- Permutation_middle in Hnd. by apply NoDup_cons in Hnd as [? _]. }
  assert (forall a, a ∈ ms1 ++ ms2 -> mutexes k2 !! a = mutexes k !! a) as Hsame by (intros a Ha; apply lookup_insert_ne; by intros ->).
  assert (lowered k2 x (ms1 ++ ms2) prio = lowered k x (ms1 ++ ms2) prio) as El2 by (unfold lowered; by rewrite (inherited_ext k k2)).
  destruct (lower_run k2 s2 c x m (Some c) 0 prio (ms1 ++ ms2) ((TakenNode m, []) :: O) Hr2) as (k3 & E3 & Hr3 & Hf3 & Ht3 & _).
  { apply lookup_insert_eq. }
  { apply Permutation_swap. }
  { intros a Ha. destruct (Hok a Ha) as (y & Hy & Hp). exists y. by rewrite Hsame. }
  { done. }
  rewrite El2 in Hr3, Ht3. exists k3. cbv zeta. split; [|split; [exact Hr3|split; [|exact Ht3]]].
  - rewrite (release_hold k s c x m 1 prio Hr Hm) by (unfold RT_MUTEX_HOLD_MAX; lia). change (1 - 1 =? 0) with true. cbv iota. change (1 - 1) with 0. fold k1.
    apply bind_ok in E3 as (x0 & k20 & Ex & E3). apply bind_ok in E3 as (y0 & k21 & Ey & E3).
    apply bind_same. unfold mutex_give. step (exact El). step (exact Ex). step (exact Ey). by step (exact E3).
  - etransitivity; [|exact Hf3]. by split.
Qed.

(** The thread that has given the mutex up, and how the system goes on. *)
Definition gives_up (k : kernel) (c : Z) (x : rt_thread) (ms : list Z) (prio : Z) (k' : kernel) : Prop :=
  exists y, threads k' !! c = Some y /\ current_priority y = given_up k x ms prio.

Lemma gives_up_step k c x ms prio k1 k' : sched_step k1 k' -> threads k1 !! c = Some (lowered k x ms prio) -> gives_up k c x ms prio k'.
Proof using Type.
  clear Hmax. intros Hst Hc. destruct (ss_threads _ _ Hst c _ Hc) as [st Hc']. eexists. split; [exact Hc'|].
  exact (proj1 (lowered_fields k x ms prio)).
Qed.

(** Nobody waits: the mutex is free. *)
Lemma release_free k s c x m prio ms1 ms2 O :
  runs k s c x -> mutex_at k m (Some c) 1 prio -> wother s ≡ₚ taken_ring c (ms1 ++ m :: ms2) :: O -> taken_ok k (ms1 ++ ms2) -> 0 <= init_priority x < prio_max ->
  SuspendHead m ∈ wheads s -> rt_scheduler_lock_nest k = 0 -> wwait s (SuspendHead m) = [] ->
  exists k' q' c' x', let s' := {set_other ((TakenNode m, []) :: taken_ring c (ms1 ++ ms2) :: O) s with wq := q'} in
    release m k = Ok (RT_EOK, k') /\ runs k' s' c' x' /\ mutex_at k' m None 0 0xff /\ gives_up k c x (ms1 ++ ms2) prio k' /\
    c' :: ready q' ≡ₚ c :: ready (wq s) /\ (if current_priority x =? prio then urgent q' x' else c' = c /\ q' = wq s).
Proof using Hmax.
  intros Hr Hm HW Hok Hip Hh Hlock Hws. destruct (give_start k s c x m prio ms1 ms2 O Hr Hm HW Hok Hip) as (k1 & E & Hr1 & Hf1 & Ht1). cbv zeta in E, Hr1.
  set (s1 := set_other _ s) in *. set (y := lowered k x (ms1 ++ ms2) prio) in *. assert (mutexes k1 !! m = Some (plain (Some c) 0 prio)) as Hm1.
  { rewrite (fr_mutexes _ _ Hf1). apply lookup_insert_eq. }
  set (k2 := with_mutex m (plain None 0 0xff) k1). pose proof (runs_mutex prio_max k1 s1 c y m (plain None 0 0xff) Hr1) as Hr2. fold k2 in Hr2.
  assert (mutex_at k2 m None 0 0xff) as Hm2.
  { apply (mutex_at_with k1); [|done]. eapply ipc_at_frame; [exact Hf1|]. apply Hm. }
  assert (release m k = (when (current_priority x =? prio) (rt_schedule prio_max) ;; mret RT_EOK) k2) as E2.
  { rewrite E. rewrite bind_run with (a := current_priority x =? prio) (s1 := k2); [done|].
    step (exact (isempty_wait prio_max k1 s1 c y (SuspendHead m) Hr1 Hh)). change (wwait s1 (SuspendHead m)) with (wwait s (SuspendHead m)). rewrite Hws.
    rewrite (bool_decide_eq_true_2 (@nil Z = [])) by done. cbn [negb]. rewrite bind_run with (a := tt) (s1 := k2); [done|].
    rewrite <- (with_mutex_id m _ k1 Hm1) at 1. exact (set_mutex_with m _ (plain (Some c) 0 prio) k1). }
  rewrite E2. clear E E2. assert (threads k2 !! c = Some y) as Hc2 by (apply (ru_thread _ _ _ _ _ Hr2)). destruct (Z.eqb_spec (current_priority x) prio) as [Ep|Ep].
  - destruct (schedule_runs prio_max Hmax k2 s1 c y Hr2) as (k' & q' & c' & x' & E3 & Hr' & Hu & HP & Hst).
    { change (rt_scheduler_lock_nest k1 = 0). rewrite (fr_lock _ _ Hf1). exact Hlock. }
    exists k', q', c', x'. cbv zeta. split; [cbn [when]; by step (exact E3)|]. split; [exact Hr'|].
    split; [eapply mutex_at_frame; [apply Hst|exact Hm2]|]. split; [by eapply gives_up_step|]. split; [exact HP|exact Hu].
  - exists k2, (wq s), c, y. cbv zeta. split; [done|]. split; [exact Hr2|]. split; [exact Hm2|]. split; [by eapply gives_up_step|]. done.
Qed.

(** A thread waits: the first one gets the mutex. *)
Lemma release_hands k s c x m prio ms1 ms2 t ws y mst O :
  runs k s c x -> mutex_at k m (Some c) 1 prio -> wother s ≡ₚ taken_ring c (ms1 ++ m :: ms2) :: taken_ring t mst :: O -> taken_ok k (ms1 ++ ms2) ->
  0 <= init_priority x < prio_max -> SuspendHead m ∈ wheads s -> rt_scheduler_lock_nest k = 0 -> wwait s (SuspendHead m) = t :: ws -> threads k !! t = Some y ->
  exists k' q' c' x', let s' := {handed y t m mst ws (taken_ring c (ms1 ++ ms2) :: O) s with wq := q'} in
    release m k = Ok (RT_EOK, k') /\ runs k' s' c' x' /\ mutex_at k' m (Some t) 1 (next_prio k ws) /\ gives_up k c x (ms1 ++ ms2) prio k' /\
    (exists z, threads k' !! t = Some z /\ pending_object z = None /\ th_error z = th_error y) /\
    c' :: ready q' ≡ₚ c :: t :: ready (wq s) /\ urgent q' x'.
Proof using Hmax.
  intros Hr Hm HW Hok Hip Hh Hlock Hws Hy. destruct (give_start k s c x m prio ms1 ms2 _ Hr Hm HW Hok Hip) as (k1 & E & Hr1 & Hf1 & Ht1). cbv zeta in E, Hr1.
  set (s1 := set_other _ s) in *. set (y1 := lowered k x (ms1 ++ ms2) prio) in *. assert (mutexes k1 !! m = Some (plain (Some c) 0 prio)) as Hm1.
  { rewrite (fr_mutexes _ _ Hf1). apply lookup_insert_eq. }
  assert (t <> c) as Hne by (eapply waiting_not_current; [exact Hr|exact Hh|rewrite Hws; by left]).
  assert (threads k1 !! t = Some y) as Hy1 by (by rewrite Ht1, lookup_insert_ne).
  destruct (hand_over_run k1 s1 c y1 m t ws y (Some c) 0 prio mst (taken_ring c (ms1 ++ ms2) :: O) Hr1 Hh Hws Hm1 Hy1) as (k2 & E2 & Hr2 & Hf2 & Ht2).
  { change (wother s1) with ((TakenNode m, []) :: taken_ring c (ms1 ++ ms2) :: taken_ring t mst :: O). solve_Permutation. }
  change (handed y t m mst ws (taken_ring c (ms1 ++ ms2) :: O) s1) with (handed y t m mst ws (taken_ring c (ms1 ++ ms2) :: O) s) in Hr2. set (s2 := handed _ _ _ _ _ _ s) in *.
  assert (threads k2 !! c = Some y1) as Hc2 by apply (ru_thread _ _ _ _ _ Hr2).
  destruct (schedule_runs prio_max Hmax k2 s2 c y1 Hr2) as (k' & q' & c' & x' & E3 & Hr' & Hu & HP & Hst).
  { rewrite (fr_lock _ _ Hf2). change (rt_scheduler_lock_nest k1 = 0). rewrite (fr_lock _ _ Hf1). exact Hlock. }
  exists k', q', c', x'. cbv zeta. split; [|split; [exact Hr'|split; [|split; [by eapply gives_up_step|split; [|split; [|exact Hu]]]]]].
  - rewrite E. rewrite bind_run with (a := true) (s1 := k2); [cbn [when]; by step (exact E3)|].
    step (exact (isempty_wait prio_max k1 s1 c y1 (SuspendHead m) Hr1 Hh)). change (wwait s1 (SuspendHead m)) with (wwait s (SuspendHead m)). rewrite Hws.
    rewrite (bool_decide_eq_false_2 (t :: ws = [])) by done. cbn [negb]. by step (exact E2).
  - eapply mutex_at_frame; [apply Hst|]. split.
    + rewrite (fr_mutexes _ _ Hf2). etransitivity; [apply lookup_insert_eq|]. do 2 f_equal. apply next_prio_ext. intros a Ha. unfold prio_of. rewrite Ht1, lookup_insert_ne; [done|]. intros <-.
      eapply (waiting_not_current prio_max k s c x (SuspendHead m) c Hr Hh); [rewrite Hws; by right|done].
    + eapply ipc_at_frame; [exact Hf2|]. change (ipc_at k1 m RT_Object_Class_Mutex RT_IPC_FLAG_PRIO). eapply ipc_at_frame; [exact Hf1|]. apply Hm.
  - destruct (ss_threads _ _ Hst t (with_stat RT_THREAD_READY {y with pending_object := None})) as [st Ht']; [rewrite Ht2; apply lookup_insert_eq|].
    eexists. split; [exact Ht'|done].
  - etransitivity; [exact HP|]. f_equiv.
    refine (woke_ready prio_max y t (set_other (taken_ring t (m :: mst) :: taken_ring c (ms1 ++ ms2) :: O) (set_wait (SuspendHead m) ws s)) _).
    destruct (wi_waiting _ _ _ (ru_world _ _ _ _ _ Hr) (SuspendHead m) t Hh) as [_ Hokt]; [change (t ∈ wwait s (SuspendHead m)); rewrite Hws; by left|].
    destruct (thread_ok_masks _ _ _ _ _ Hokt Hy) as [H1 _]. exact H1.
Qed.
End MutexGive.
