(* ===== verification/RtThreadEnd.v ===== *)
(** * RT-Thread: src/thread.c, the end of threads

    Detachment, deletion and exit of a thread, which leaves the mutex it waits for, the
    queue of defunct threads of src/idle.c, and rt_thread_control. *)
From S2P Require Import Prelude Outcome RtList RtKernel RtSched RtObject RtTimer RtThread RtTimerStart RtIpc RtMutex.
#[local] Open Scope string_scope.
#[local] Open Scope list_scope.
#[local] Open Scope Z_scope.

Section ThreadEnd.
Variables (prio_max : Z) (cfg : rt_config) (RT_NAME_MAX : nat) (level chain : nat).

(** The end of rt_thread_detach and rt_thread_delete. *)
Definition close_thread (t : Z) : K Z :=
  x ← thread t;
  if stat_of x =? RT_THREAD_CLOSE then mret RT_EOK
  else
    when (negb (stat_of x =? RT_THREAD_INIT)) (rt_schedule_remove_thread prio_max t) ;;
    rt_timer_detach level (thread_timer x) ;;
    set_thread t (fun x => {x with stat := RT_THREAD_CLOSE}) ;;
    when (using_mutex cfg) (
      x ← thread t;
      p ← pending_mutex x;
      match p with
      | None => mret tt
      | Some m =>
          rt_mutex_drop_thread prio_max level chain m t ;;
          set_thread t (fun x => {x with pending_object := None})
      end) ;;
    rt_thread_defunct_enqueue t ;;
    mret RT_EOK.

Definition rt_thread_detach (t : Z) : K Z :=
  assert_thread t ;;
  sys ← rt_object_is_systemobject (OThread t);
  assert_that sys "rt_object_is_systemobject((rt_object_t)thread)" ;;
  close_thread t.

Definition rt_thread_delete (t : Z) : K Z :=
  assert_thread t ;;
  sys ← rt_object_is_systemobject (OThread t);
  assert_that (negb sys) "rt_object_is_systemobject((rt_object_t)thread) == RT_FALSE" ;;
  close_thread t.

(** The entry function of the current thread has returned. *)
Definition thread_exit : K unit :=
  t ← current;
  rt_schedule_remove_thread prio_max t ;;
  x ← thread t;
  rt_timer_detach level (thread_timer x) ;;
  set_thread t (fun x => {x with stat := RT_THREAD_CLOSE}) ;;
  rt_thread_defunct_enqueue t ;;
  rt_schedule prio_max.

(** The commands of rt_thread_control; the priority is the byte that [arg] points at. *)
Inductive thread_ctrl :=
| CHANGE_PRIORITY (prio : Z)
| STARTUP
| CLOSE
| OTHER.

Definition rt_thread_control (t : Z) (cmd : thread_ctrl) : K Z :=
  match cmd with
  | CHANGE_PRIORITY prio => change_priority prio_max t prio
  | STARTUP => assert_thread t ;; rt_thread_startup prio_max level t
  | CLOSE =>
      assert_thread t ;;
      sys ← rt_object_is_systemobject (OThread t);
      err ← (if sys : bool then rt_thread_detach t
             else if using_heap cfg then rt_thread_delete t else mret (- RT_EINVAL));
      rt_schedule prio_max ;;
      mret err
  | OTHER => assert_thread t ;; mret RT_EOK
  end.

Definition rt_thread_find (name : list Z) : K (option objid) :=
  rt_object_find prio_max cfg RT_NAME_MAX (Some name) RT_Object_Class_Thread.

(** One round of rt_defunct_execute of idle.c: whether there was a thread to clean up.  The
    cleanup function of the thread is [call]ed. *)
Definition defunct_execute_step (call : Z -> Z -> K unit) : K bool :=
  d ← rt_thread_defunct_dequeue;
  match d with
  | None => mret false
  | Some t =>
      x ← thread t;
      sys ← rt_object_is_systemobject (OThread t);
      when sys (rt_object_detach (OThread t)) ;;
      when (negb (cleanup x =? 0)) (call (cleanup x) t) ;;
      when (using_heap cfg && negb sys) (rt_object_delete (OThread t)) ;;
      mret true
  end.
End ThreadEnd.
