(* ===== verification/RtEvent.v ===== *)
(** * RT-Thread: src/ipc.c, events *)
From S2P Require Import Prelude Outcome RtList RtKernel RtSched RtObject RtTimer RtThread RtTimerStart RtIpc RtSem.
#[local] Open Scope string_scope.
#[local] Open Scope list_scope.
#[local] Open Scope Z_scope.

Definition RT_EVENT_FLAG_AND : Z := 0x01.
Definition RT_EVENT_FLAG_OR : Z := 0x02.
Definition RT_EVENT_FLAG_CLEAR : Z := 0x04.

(** [opt & bit] as a condition. *)
Definition has_bit (opt bit : Z) : bool := negb (Z.land opt bit =? 0).

Section Event.
Variables (prio_max : Z) (cfg : rt_config) (RT_NAME_MAX : nat) (rt_malloc : Z -> kernel -> option objid).
Variables (level : nat) (mask : Z) (soft : bool) (timer_thread : Z).

Definition rt_event_init (e : Z) (name : list Z) (flag : Z) : K Z :=
  assert_flag flag ;;
  rt_object_init prio_max cfg RT_NAME_MAX (OOther e) RT_Object_Class_Event name ;;
  set_ipc_flag e flag ;;
  ipc_object_init e ;;
  set_event e (fun _ => {| ev_set := 0 |}) ;;
  mret RT_EOK.

Definition rt_event_detach (e : Z) : K Z :=
  assert_static e RT_Object_Class_Event true ;;
  ipc_list_resume_all prio_max level (SuspendHead e) ;;
  rt_object_detach (OOther e) ;;
  mret RT_EOK.

Definition rt_event_create (name : list Z) (flag : Z) : K (option Z) :=
  assert_flag flag ;;
  o ← rt_object_allocate cfg RT_NAME_MAX rt_malloc RT_Object_Class_Event name;
  match o with
  | None => mret None
  | Some (OOther e) =>
      set_ipc_flag e flag ;;
      ipc_object_init e ;;
      set_event e (fun _ => {| ev_set := 0 |}) ;;
      mret (Some e)
  | Some _ => undef "a block that is not an event"
  end.

Definition rt_event_delete (e : Z) : K Z :=
  assert_static e RT_Object_Class_Event false ;;
  ipc_list_resume_all prio_max level (SuspendHead e) ;;
  rt_object_delete (OOther e) ;;
  mret RT_EOK.

(** What a waiting thread is told about the events [set]: the events received, or nothing
    when it goes on waiting; an error when it waits neither for all nor for any. *)
Definition event_match (x : rt_thread) (set : Z) : option (option Z) :=
  if has_bit (event_info x) RT_EVENT_FLAG_AND then
    Some (if Z.land (event_set x) set =? event_set x then Some (event_set x) else None)
  else if has_bit (event_info x) RT_EVENT_FLAG_OR then
    Some (if negb (Z.land (event_set x) set =? 0) then Some (Z.land (event_set x) set) else None)
  else None.

(** The walk along the waiting threads: whether one was resumed, [None] for the error. *)
Fixpoint event_send_loop (fuel : nat) (e : Z) (n : knode) (need_schedule : bool) : K (option bool) :=
  if bool_decide (n = SuspendHead e) then mret (Some need_schedule)
  else match fuel with
  | O => undef "a list that does not end"
  | S fuel' =>
      t ← thread_entry n;
      x ← thread t;
      v ← event e;
      match event_match x (ev_set v) with
      | None => mret None
      | Some r =>
          match r with Some s => set_thread t (fun x => {x with event_set := s}) | None => mret tt end ;;
          n ← on_list (ld_next n);
          match r with
          | Some s =>
              when (has_bit (event_info x) RT_EVENT_FLAG_CLEAR)
                (set_event e (fun v => {| ev_set := Z.land (ev_set v) (u32 (Z.lnot s)) |})) ;;
              rt_thread_resume prio_max level t ;;
              set_error t RT_EOK ;;
              event_send_loop fuel' e n true
          | None => event_send_loop fuel' e n need_schedule
          end
      end
  end.

Definition rt_event_send (e set : Z) : K Z :=
  assert_class e RT_Object_Class_Event ;;
  if set =? 0 then mret (- RT_ERROR)
  else
    set_event e (fun v => {| ev_set := Z.lor (ev_set v) set |}) ;;
    b ← on_list (rt_list_isempty (SuspendHead e));
    need_schedule ← (if negb b then
        n ← on_list (ld_next (SuspendHead e));
        k ← get;
        event_send_loop (size (links k)) e n false
      else mret (Some false));
    match need_schedule with
    | None => mret (- RT_EINVAL)
    | Some need =>
        when need (rt_schedule prio_max) ;;
        mret RT_EOK
    end.

(** rt_event_recv: the error and what is stored in [*recved], [None] when the thread
    waits. *)
Definition rt_event_recv_ (e set opt timeout suspend_flag : Z) : K (option (Z * option Z)) :=
  assert_class e RT_Object_Class_Event ;;
  debug_scheduler_available true ;;
  if set =? 0 then mret (Some (- RT_ERROR, None))
  else
    t ← current;
    set_error t (- RT_EINTR) ;;
    v ← event e;
    status ← (if has_bit opt RT_EVENT_FLAG_AND then mret (Z.land (ev_set v) set =? set)
              else if has_bit opt RT_EVENT_FLAG_OR then mret (negb (Z.land (ev_set v) set =? 0))
              else abort "0");
    if status : bool then
      set_error t RT_EOK ;;
      set_thread t (fun x => {x with event_set := Z.land (ev_set v) set; event_info := opt}) ;;
      when (has_bit opt RT_EVENT_FLAG_CLEAR)
        (set_event e (fun v => {| ev_set := Z.land (ev_set v) (u32 (Z.lnot set)) |})) ;;
      x ← thread t;
      mret (Some (th_error x, Some (Z.land (ev_set v) set)))
    else if timeout =? 0 then
      set_error t (- RT_ETIMEOUT) ;;
      mret (Some (- RT_ETIMEOUT, None))
    else
      set_thread t (fun x => {x with event_set := set; event_info := opt}) ;;
      flag ← ipc_flag e;
      ret ← ipc_list_suspend prio_max level (SuspendHead e) t flag suspend_flag;
      if negb (ret =? RT_EOK) then mret (Some (ret, None))
      else
        when (0 <? timeout) (start_wait prio_max level mask soft timer_thread t timeout) ;;
        rt_schedule prio_max ;;
        mret None.

Definition rt_event_recv_return (t : Z) : K (Z * option Z) :=
  x ← thread t;
  if negb (th_error x =? RT_EOK) then mret (th_error x, None)
  else mret (th_error x, Some (event_set x)).

Definition rt_event_recv (e set opt timeout : Z) : K (option (Z * option Z)) :=
  rt_event_recv_ e set opt timeout RT_UNINTERRUPTIBLE.
Definition rt_event_recv_interruptible (e set opt timeout : Z) : K (option (Z * option Z)) :=
  rt_event_recv_ e set opt timeout RT_INTERRUPTIBLE.
Definition rt_event_recv_killable (e set opt timeout : Z) : K (option (Z * option Z)) :=
  rt_event_recv_ e set opt timeout RT_KILLABLE.

Definition rt_event_control (e : Z) (cmd : ipc_cmd) : K Z :=
  assert_class e RT_Object_Class_Event ;;
  match cmd with
  | RT_IPC_CMD_RESET _ =>
      ipc_list_resume_all prio_max level (SuspendHead e) ;;
      set_event e (fun _ => {| ev_set := 0 |}) ;;
      rt_schedule prio_max ;;
      mret RT_EOK
  | RT_IPC_CMD_OTHER => mret (- RT_ERROR)
  end.
End Event.
