(* ===== verification/RtSemEventFacts.v ===== *)
(** * RT-Thread: what semaphores and events do *)
From S2P Require Import Prelude Outcome RtList RtKernel RtSched RtObject RtTimer RtThread RtTimerStart RtTimerFacts.
From S2P Require Import RtSchedFacts RtSchedRun RtWorld RtIpc RtWorldOps RtWait RtWorldSched RtBlock RtSem RtEvent.
#[local] Open Scope string_scope.
#[local] Open Scope list_scope.
#[local] Open Scope Z_scope.

Record sem_at (k : kernel) (i v flag : Z) : Prop := {
  sa_value : semaphores k !! i = Some {| sem_value := v |};
  sa_range : 0 <= v <= RT_SEM_VALUE_MAX;
  sa_object : ipc_at k i RT_Object_Class_Semaphore flag;
}.

Lemma sem_at_frame k k' i v flag : frame k k' -> sem_at k i v flag -> sem_at k' i v flag.
Proof. intros Hf [H1 H2 H3]. split; [by rewrite (fr_semaphores _ _ Hf)|done|by eapply ipc_at_frame]. Qed.

Section SemFacts.
Variables (prio_max mask : Z) (soft : bool) (timer_thread : Z).
Context (Hmax : 0 < prio_max <= 256).
Abbreviation runs := (runs prio_max).
Abbreviation ready := (ready prio_max).
Abbreviation take := (rt_sem_take_ prio_max 1 mask soft timer_thread).

(** The value of a semaphore. *)
Definition with_value (i v : Z) (k : kernel) : kernel := {k with semaphores ::= <[i := {| sem_value := v |}]> }.

Lemma sem_at_value k i v v' flag : sem_at k i v flag -> 0 <= v' <= RT_SEM_VALUE_MAX -> sem_at (with_value i v' k) i v' flag.
Proof using Type. intros [H1 H2 H3] Hv. split; [apply lookup_insert_eq|done|exact H3]. Qed.

Lemma sem_take_available k i v flag timeout sflag :
  sem_at k i v flag -> 0 < v -> take i timeout sflag k = Ok (Some RT_EOK, with_value i (v - 1) k).
Proof using Type.
  clear Hmax. intros [Hv Hr Ho] Hpos. unfold rt_sem_take_. step (by eapply assert_class_run). step (by apply load_run). cbn [sem_value].
  rewrite (proj2 (Z.ltb_lt _ _)) by done. step (by apply store_run). cbn [sem_value]. unfold RT_SEM_VALUE_MAX in Hr.
  rewrite (wrap_small 16) by (unfold in_u; lia). done.
Qed.

Lemma sem_take_empty k i flag sflag : sem_at k i 0 flag -> take i 0 sflag k = Ok (Some (- RT_ETIMEOUT), k).
Proof using Type. clear Hmax. intros [Hv Hr Ho]. unfold rt_sem_take_. step (by eapply assert_class_run). by step (by apply load_run). Qed.

(** An empty semaphore: the thread waits in the semaphore's list, and another thread runs. *)
Lemma sem_take_blocks k s c x i flag timeout sflag T p0 :
  runs k s c x -> sem_at k i 0 flag -> SuspendHead i ∈ wheads s -> rt_scheduler_lock_nest k = 0 -> suspend_flag_ok sflag ->
  0 <= p0 < prio_max -> wq s p0 <> [] -> rt_tick k = u32 T -> wait_time_ok T (stop_timer (thread_timer x) s) timeout ->
  exists k' s' c' x', take i timeout sflag k = Ok (None, k') /\ runs k' s' c' x' /\ waits_in prio_max k s c x (SuspendHead i) flag T timeout sflag k' s' c' x'.
Proof using Hmax.
  intros Hr Hs Hh Hlock Hsf Hp0 Hq0 HT Hto. pose proof Hs as [Hv _ Ho]. pose proof (ru_current _ _ _ _ _ Hr) as Hcur. pose proof (ru_thread _ _ _ _ _ Hr) as Hx.
  set (x1 := {x with th_error := - RT_EINTR}). set (k1 := {k with threads ::= <[c := x1]> }).
  assert (alike x x1) as Ha by (by unfold alike).
  pose proof (runs_set prio_max Hmax k s c x x1 Hr Ha eq_refl) as Hr1. fold k1 in Hr1. assert (frame k k1) as Hf1 by (by split).
  destruct (wait_blocks prio_max Hmax mask soft timer_thread k1 s c x1 (SuspendHead i) flag timeout sflag T p0)
    as (k2 & k3 & k' & q' & c' & x' & E2 & E3 & E4 & Hr' & Hu & HP & _ & Hf' & Hx'); try done; [by eapply ipc_at_flag|].
  unfold k1 in Hr'. rewrite blocked_set with (x := x) in Hr' by done. fold k1 in Hr'.
  exists k', {blocked k c x (SuspendHead i) flag T timeout s with wq := q'}, c', x'.
  split; [|split; [exact Hr'|split; [by exists q'|done|done|done|by etransitivity]]].
  unfold rt_sem_take_. step (by eapply assert_class_run). step (by apply load_run). cbn [sem_value]. change (0 <? 0) with false. cbv iota.
  rewrite (proj2 (Z.eqb_neq timeout 0)) by (destruct Hto; lia). step (by eapply scheduler_available_run; [exact Hlock|exact Hcur]). step (by apply current_run).
  step (by apply set_thread_run). fold x1 k1. step (by eapply ipc_flag_run, ipc_at_frame). step (exact E2). change (negb (RT_EOK =? RT_EOK)) with false. cbv iota.
  step (exact E3). by step (exact E4).
Qed.

(** A thread waits: it gets what is released, the value stays 0. *)
Lemma sem_release_wakes k s c x i v flag t ws :
  runs k s c x -> sem_at k i v flag -> SuspendHead i ∈ wheads s -> wwait s (SuspendHead i) = t :: ws -> rt_scheduler_lock_nest k = 0 ->
  exists k' s' c' x', rt_sem_release prio_max 1 i k = Ok (RT_EOK, k') /\ runs k' s' c' x' /\ woken prio_max k s c (SuspendHead i) t ws k' s' c' x'.
Proof using Hmax.
  intros Hr [_ _ Ho] Hh Hws Hlock. destruct (resume_runs prio_max Hmax k s c x _ t ws Hr Hh Hws Hlock) as (k' & s' & c' & x' & E & Hr' & Hwo).
  exists k', s', c', x'. split; [|done]. unfold rt_sem_release. step (by eapply assert_class_run).
  rewrite (bind_run _ _ _ _ _ (isempty_wait prio_max k s c x _ Hr Hh)), Hws. rewrite bool_decide_eq_false_2 by done. cbn [negb].
  apply bind_ok in E as ([] & k1 & E1 & E2). step (exact E1). by step (exact E2).
Qed.

(** No thread waits: the value counts what is released, up to its bound. *)
Lemma sem_release_counts k s c x i v flag :
  runs k s c x -> sem_at k i v flag -> SuspendHead i ∈ wheads s -> wwait s (SuspendHead i) = [] ->
  rt_sem_release prio_max 1 i k = if v <? RT_SEM_VALUE_MAX then Ok (RT_EOK, with_value i (v + 1) k) else Ok (- RT_EFULL, k).
Proof using Type.
  clear Hmax. intros Hr [Hv Hrange Ho] Hh Hws. unfold rt_sem_release. step (by eapply assert_class_run).
  rewrite (bind_run _ _ _ _ _ (isempty_wait prio_max k s c x _ Hr Hh)), Hws. rewrite bool_decide_eq_true_2 by done. cbn [negb].
  step (by apply load_run). cbn [sem_value]. destruct (Z.ltb_spec v RT_SEM_VALUE_MAX); [|done].
  step (by apply store_run). cbn [sem_value]. unfold RT_SEM_VALUE_MAX in *. by rewrite (wrap_small 16) by (unfold in_u; lia).
Qed.

(** ** The state after these operations *)

Lemma runs_value k s c x i v : runs k s c x -> runs (with_value i v k) s c x.
Proof using Type. clear Hmax. intros Hr. by eapply runs_frame_tables. Qed.
End SemFacts.

(** ** Sending an event

    [event_walk] is the walk of rt_event_send along the waiting threads: each thread takes
    what it waited for, and may clear it for those behind it. *)

(** What the thread receives, nothing when it goes on waiting. *)
Definition event_take (x : rt_thread) (set : Z) : option Z := match event_match x set with Some r => r | None => None end.

(** The events left once the thread took [r]. *)
Definition event_left (x : rt_thread) (set r : Z) : Z :=
  if has_bit (event_info x) RT_EVENT_FLAG_CLEAR then Z.land set (u32 (Z.lnot r)) else set.

(** The events in the end, the threads woken up with what they received, those left. *)
Fixpoint event_walk (th : gmap Z rt_thread) (set : Z) (ws : list Z) : Z * list (Z * Z) * list Z :=
  match ws with
  | [] => (set, [], [])
  | t :: l =>
      match th !! t with
      | Some x =>
          match event_take x set with
          | Some r => let '(set', took, kept) := event_walk th (event_left x set r) l in (set', (t, r) :: took, kept)
          | None => let '(set', took, kept) := event_walk th set l in (set', took, t :: kept)
          end
      | None => (set, [], ws)
      end
  end.

(** A thread that waits for all or for any of its events. *)
Definition event_wait_ok (th : gmap Z rt_thread) (t : Z) : Prop := exists x, th !! t = Some x /\ forall set, event_match x set <> None.

Lemma event_walk_perm th set ws : (forall t, t ∈ ws -> event_wait_ok th t) ->
  (event_walk th set ws).1.2.*1 ++ (event_walk th set ws).2 ≡ₚ ws.
Proof.
  revert set. induction ws as [|t l IH]; intros set Hok; [done|]. cbn [event_walk]. destruct (Hok t) as (x & Hx & _); [by left|].
  rewrite Hx. destruct (event_take x set) as [r|].
  - specialize (IH (event_left x set r)). destruct (event_walk th (event_left x set r) l) as [[set' took] kept]. cbn in *. rewrite IH; [done|]. set_solver.
  - specialize (IH set). destruct (event_walk th set l) as [[set' took] kept]. cbn in *. rewrite <- Permutation_middle, IH; [done|]. set_solver.
Qed.

(** Only what the walk reads matters. *)
Lemma event_walk_ext th th' set ws : (forall t, t ∈ ws -> th' !! t = th !! t) -> event_walk th' set ws = event_walk th set ws.
Proof.
  revert set. induction ws as [|t l IH]; intros set He; [done|]. cbn [event_walk]. rewrite He by set_solver.
  destruct (th !! t); [|done]. case_match; rewrite IH by set_solver; done.
Qed.

Definition with_event (e set : Z) (k : kernel) : kernel := {k with events ::= <[e := {| ev_set := set |}]> }.

Lemma event_with e set k : event e (with_event e set k) = Ok ({| ev_set := set |}, with_event e set k).
Proof. apply load_run. apply lookup_insert_eq. Qed.
Lemma set_event_with e f set k : set_event e (fun v => {| ev_set := f (ev_set v) |}) (with_event e set k) = Ok (tt, with_event e (f set) k).
Proof.
  unfold set_event. rewrite (store_run _ _ _ e _ _ {| ev_set := set |}) by apply lookup_insert_eq.
  change (Ok (tt, {k with events := <[e := {| ev_set := f set |}]> (<[e := {| ev_set := set |}]> (events k)) }) = Ok (tt, with_event e (f set) k)).
  by rewrite insert_insert_eq.
Qed.
Lemma with_event_id e set k : events k !! e = Some {| ev_set := set |} -> with_event e set k = k.
Proof. intros E. unfold with_event. destruct k. cbn in *. by rewrite insert_id. Qed.

Section EventFacts.
Variables (prio_max : Z) (mask : Z) (soft : bool) (timer_thread : Z).
Context (Hmax : 0 < prio_max <= 256).
Abbreviation runs := (runs prio_max).
Abbreviation ready := (ready prio_max).

Lemma runs_event k s c x e v : runs k s c x -> runs (with_event e v k) s c x.
Proof using Type. clear Hmax. intros Hr. by eapply runs_frame_tables. Qed.

(** One thread takes its events. *)
Lemma event_wake_run k s c x e xs t ys y set r :
  runs k s c x -> SuspendHead e ∈ wheads s -> wwait s (SuspendHead e) = xs ++ t :: ys -> threads k !! t = Some y -> events k !! e = Some {| ev_set := set |} ->
  exists k', let z := with_stat RT_THREAD_READY {y with event_set := r} in
    (set_thread t (fun x => {x with event_set := r}) ;;
     n ← on_list (ld_next (TList t));
     when (has_bit (event_info y) RT_EVENT_FLAG_CLEAR) (set_event e (fun v => {| ev_set := Z.land (ev_set v) (u32 (Z.lnot r)) |})) ;;
     rt_thread_resume prio_max 1 t ;;
     set_error t RT_EOK ;;
     mret n) k = Ok (default (SuspendHead e) (head (TList <$> ys)), k') /\
    runs k' (wake {y with event_set := r} t (SuspendHead e) (xs ++ ys) s) c x /\ events k' !! e = Some {| ev_set := event_left y set r |} /\
    threads k' = <[t := {z with th_error := RT_EOK}]> (threads k) /\ rt_scheduler_lock_nest k' = rt_scheduler_lock_nest k /\
    (forall o, (forall t, o <> OTimer t) -> objects k' !! o = objects k !! o).
Proof using Hmax.
  intros Hr Hh Hws Hy He. assert (t <> c) as Hne by (eapply waiting_not_current; [exact Hr|exact Hh|rewrite Hws; set_solver]).
  set (y1 := {y with event_set := r}). set (k1 := {k with threads ::= <[t := y1]> }). assert (alike y y1) as Ha by (by unfold alike).
  pose proof (runs_alike prio_max k s c x t y y1 Hr Hne Hy Ha eq_refl) as Hr1. fold k1 in Hr1.
  set (k2 := with_event e (event_left y set r) k1). pose proof (runs_event k1 s c x e (event_left y set r) Hr1) as Hr2. fold k2 in Hr2.
  assert (threads k2 !! t = Some y1) as Hy2 by (apply lookup_insert_eq).
  destruct (resume_thread_runs prio_max Hmax k2 s c x _ xs t ys y1 Hr2 Hh Hws Hy2) as (k3 & E3 & Hr3 & Hf3 & Ht3).
  set (z := with_stat RT_THREAD_READY y1) in *. set (z' := {z with th_error := RT_EOK}). assert (alike z z') as Haz by (by unfold alike).
  assert (threads k3 !! t = Some z) as Hz by (rewrite Ht3; apply lookup_insert_eq).
  exists {k3 with threads ::= <[t := z']> }. cbv zeta. split; [|split; [by apply (runs_alike prio_max k3 _ c x t z z')|split; [|split; [|split]]]].
  - step (by apply set_thread_run). fold y1 k1.
    rewrite bind_run with (a := default (SuspendHead e) (head (TList <$> ys))) (s1 := k1).
    2:{ apply on_list_read. pose proof (wait_ring_at prio_max k1 s c _ (ru_world _ _ _ _ _ Hr1) Hh) as Hri. rewrite Hws, fmap_app, fmap_cons in Hri.
        exact (ring_next_member _ _ _ _ _ _ Hri). }
    rewrite bind_run with (a := tt) (s1 := k2).
    2:{ unfold k2, event_left. rewrite <- (with_event_id e set k1 He) at 1. destruct (has_bit (event_info y) RT_EVENT_FLAG_CLEAR); cbn [when].
        - exact (set_event_with e (fun v => Z.land v (u32 (Z.lnot r))) set k1).
        - done. }
    step (exact E3). by step (by apply set_thread_run).
  - change (events {k3 with threads ::= <[t := z']> }) with (events k3). rewrite (fr_events _ _ Hf3). apply lookup_insert_eq.
  - change (<[t := z']> (threads k3) = <[t := z']> (threads k)). rewrite Ht3. change (threads k2) with (<[t := y1]> (threads k)).
    by rewrite !insert_insert_eq.
  - exact (fr_lock _ _ Hf3).
  - exact (fr_objects _ _ Hf3).
Qed.

(** What the walk leaves: the threads of [took] are ready and know what they received,
    those of [kept] still wait in their order; no other thread has changed. *)
Record walked (k : kernel) (s : world) (e : Z) (set : Z) (took : list (Z * Z)) (waiting : list Z) (k' : kernel) (s' : world) : Prop := {
  wk_events : events k' !! e = Some {| ev_set := set |};
  wk_heads : wheads s' = wheads s;
  wk_waiting : wwait s' (SuspendHead e) = waiting;
  wk_lists : forall h, h <> SuspendHead e -> wwait s' h = wwait s h;
  wk_ready : ready (wq s') ≡ₚ took.*1 ++ ready (wq s);
  wk_took : forall t r, (t, r) ∈ took -> exists z, threads k' !! t = Some z /\ th_error z = RT_EOK /\ event_set z = r;
  wk_others : forall t, t ∉ took.*1 -> threads k' !! t = threads k !! t;
  wk_lock : rt_scheduler_lock_nest k' = rt_scheduler_lock_nest k;
  wk_objects : forall o, (forall t, o <> OTimer t) -> objects k' !! o = objects k !! o;
}.

Lemma event_loop_end fuel e need k : event_send_loop prio_max 1 fuel e (SuspendHead e) need k = Ok (Some need, k).
Proof using Type. destruct fuel; cbn [event_send_loop]; by rewrite bool_decide_eq_true_2. Qed.

Lemma event_loop_run fuel k s c x e xs ys set need :
  runs k s c x -> SuspendHead e ∈ wheads s -> wwait s (SuspendHead e) = xs ++ ys -> events k !! e = Some {| ev_set := set |} ->
  (forall t, t ∈ ys -> event_wait_ok (threads k) t) -> (length ys <= fuel)%nat ->
  exists k' s', let '(set', took, kept) := event_walk (threads k) set ys in
    event_send_loop prio_max 1 fuel e (default (SuspendHead e) (head (TList <$> ys))) need k = Ok (Some (need || negb (bool_decide (took = []))), k') /\
    runs k' s' c x /\ walked k s e set' took (xs ++ kept) k' s'.
Proof using Hmax.
  revert fuel k s xs set need. induction ys as [|t ys IH]; intros fuel k s xs set need Hr Hh Hws He Hok Hfuel.
  { exists k, s. cbn [event_walk]. split; [|split; [done|split; try done; set_solver]].
    cbn [fmap list_fmap head default]. by rewrite event_loop_end, orb_false_r. }
  destruct fuel as [|fuel]; [cbn in Hfuel; lia|]. destruct (Hok t) as (y & Hy & Hm); [by left|].
  pose proof (wwait_nodup prio_max k s c _ (ru_world _ _ _ _ _ Hr) Hh) as Hnd. rewrite Hws in Hnd. apply NoDup_app in Hnd as (_ & _ & [Hnt _]%NoDup_cons).
  cbn [event_walk]. rewrite Hy.
  assert (forall res, event_match y set = Some res -> event_send_loop prio_max 1 (S fuel) e (default (SuspendHead e) (head (TList <$> t :: ys))) need k =
    (match res with Some s => set_thread t (fun x => {x with event_set := s}) | None => mret tt end ;;
     n ← on_list (ld_next (TList t));
     match res with
     | Some s => when (has_bit (event_info y) RT_EVENT_FLAG_CLEAR) (set_event e (fun v => {| ev_set := Z.land (ev_set v) (u32 (Z.lnot s)) |})) ;;
         rt_thread_resume prio_max 1 t ;; set_error t RT_EOK ;; event_send_loop prio_max 1 fuel e n true
     | None => event_send_loop prio_max 1 fuel e n need
     end) k) as Hstep.
  { intros res Hres. cbn [event_send_loop fmap list_fmap head default]. rewrite bool_decide_eq_false_2 by done. step (reflexivity). step (by apply thread_run).
    step (by apply load_run). cbn [ev_set]. by rewrite Hres. }
  destruct (event_match y set) as [res|] eqn:Em; [|by destruct (Hm set)]. unfold event_take. rewrite Em. rewrite (Hstep res eq_refl). destruct res as [r|].
  - destruct (event_wake_run k s c x e xs t ys y set r Hr Hh Hws Hy He) as (k1 & E & Hr1 & He1 & Hth1 & Hl1 & Ho1).
    set (s1 := wake _ _ _ _ _) in Hr1. destruct (stop_timer_fields (thread_timer y) (set_wait (SuspendHead e) (xs ++ ys) s)) as (_ & Fh & Fw & _ & _).
    assert (wwait s1 = wupd (wwait s) (SuspendHead e) (xs ++ ys)) as Ew1 by exact Fw.
    assert (forall a, a ∈ ys -> threads k1 !! a = threads k !! a) as Hkeep.
    { intros a Ha. rewrite Hth1. apply lookup_insert_ne. intros <-. done. }
    destruct (IH fuel k1 s1 xs (event_left y set r) true Hr1) as (k' & s' & H).
    { change (SuspendHead e ∈ wheads (stop_timer (thread_timer y) (set_wait (SuspendHead e) (xs ++ ys) s))). by rewrite Fh. }
    { by rewrite Ew1, wupd_same. }
    { exact He1. }
    { intros a Ha. unfold event_wait_ok. rewrite Hkeep by done. apply Hok. by right. }
    { cbn in Hfuel. lia. }
    rewrite (event_walk_ext (threads k) (threads k1)) in H by done.
    pose proof (event_walk_perm (threads k) (event_left y set r) ys) as HP.
    destruct (event_walk (threads k) (event_left y set r) ys) as [[set' took] kept]. cbn [fst snd] in HP.
    assert (t ∉ took.*1) as Htt.
    { intros Hin. apply Hnt. rewrite <- HP; [|intros a Ha; apply Hok; by right]. apply elem_of_app. by left. }
    destruct H as (E' & Hr' & [W1 W2 W3 W4 W5 W6 W7 W8 W9]). exists k', s'. split; [|split; [done|split]]; try done.
    + change (negb (bool_decide ((t, r) :: took = []))) with true. rewrite orb_true_r. cbn [orb] in E'.
      apply bind_ok in E as ([] & ka & Ea & E). step (exact Ea). apply bind_ok in E as (n & kb & Eb & E). step (exact Eb).
      apply bind_ok in E as ([] & kc & Ec & E). step (exact Ec). apply bind_ok in E as (u & kd & Ed & E). step (exact Ed).
      apply bind_ok in E as ([] & ke & Ee & E). step (exact Ee). injection E as -> ->. exact E'.
    + rewrite W2. exact Fh.
    + intros h Hne. rewrite W4, Ew1 by done. by apply wupd_other.
    + etransitivity; [exact W5|]. change (((t, r) :: took).*1) with (t :: took.*1). transitivity (took.*1 ++ t :: ready (wq s)); [|by rewrite <- Permutation_middle]. apply Permutation_app_head. unfold s1. apply (wake_ready prio_max {y with event_set := r}).
      destruct (wi_waiting _ _ _ (ru_world _ _ _ _ _ Hr) (SuspendHead e) t Hh) as [_ Hoky]; [change (t ∈ wwait s (SuspendHead e)); rewrite Hws; set_solver|].
      destruct (thread_ok_masks _ _ _ _ _ Hoky Hy) as [Hp _]. exact Hp.
    + intros a r' Hin. apply elem_of_cons in Hin as [[= -> ->]|Hin]; [|by apply W6]. rewrite W7 by done. rewrite Hth1, lookup_insert_eq. by eexists.
    + intros a Ha. cbn in Ha. apply not_elem_of_cons in Ha as [Hne Ha]. rewrite W7 by done. rewrite Hth1. by apply lookup_insert_ne.
    + congruence.
    + intros o Ho. rewrite W9 by done. by apply Ho1.
  - destruct (IH fuel k s (xs ++ [t]) set need Hr Hh) as (k' & s' & H); [by rewrite <- app_assoc|done|intros a Ha; apply Hok; by right|cbn in Hfuel; lia|].
    destruct (event_walk (threads k) set ys) as [[set' took] kept]. destruct H as (E' & Hr' & Hwk). rewrite <- app_assoc in Hwk.
    exists k', s'. split; [|split; [done|exact Hwk]]. step (reflexivity).
    rewrite bind_run with (a := default (SuspendHead e) (head (TList <$> ys))) (s1 := k); [exact E'|]. apply on_list_read.
    pose proof (wait_ring_at prio_max k s c _ (ru_world _ _ _ _ _ Hr) Hh) as Hri. rewrite Hws, fmap_app, fmap_cons in Hri. exact (ring_next_member _ _ _ _ _ _ Hri).
Qed.

(** The events [set] occurred: who is served, and who goes on waiting. *)
Record event_sent (k : kernel) (s : world) (c e : Z) (set : Z) (took : list (Z * Z)) (kept : list Z) (k' : kernel) (s' : world) (c' : Z) (x' : rt_thread) : Prop := {
  es_events : events k' !! e = Some {| ev_set := set |};
  es_waiting : wwait s' (SuspendHead e) = kept;
  es_lists : forall h, h <> SuspendHead e -> wwait s' h = wwait s h;
  es_ready : c' :: ready (wq s') ≡ₚ c :: took.*1 ++ ready (wq s);
  es_urgent : took <> [] -> urgent (wq s') x';
  es_took : forall t r, (t, r) ∈ took -> exists z, threads k' !! t = Some z /\ th_error z = RT_EOK /\ event_set z = r;
}.

Lemma event_send_run k s c x e set0 set flag :
  runs k s c x -> ipc_at k e RT_Object_Class_Event flag -> events k !! e = Some {| ev_set := set0 |} -> SuspendHead e ∈ wheads s ->
  rt_scheduler_lock_nest k = 0 -> set <> 0 -> (forall t, t ∈ wwait s (SuspendHead e) -> event_wait_ok (threads k) t) ->
  exists k' s' c' x', rt_event_send prio_max 1 e set k = Ok (RT_EOK, k') /\ runs k' s' c' x' /\
    let '(set', took, kept) := event_walk (threads k) (Z.lor set0 set) (wwait s (SuspendHead e)) in event_sent k s c e set' took kept k' s' c' x'.
Proof using Hmax.
  intros Hr Ho He Hh Hlock Hset Hok. set (k1 := with_event e (Z.lor set0 set) k). pose proof (runs_event k s c x e (Z.lor set0 set) Hr) as Hr1. fold k1 in Hr1.
  assert (events k1 !! e = Some {| ev_set := Z.lor set0 set |}) as He1 by (apply lookup_insert_eq).
  destruct (event_loop_run (size (links k1)) k1 s c x e [] (wwait s (SuspendHead e)) (Z.lor set0 set) false Hr1 Hh eq_refl He1 Hok) as (k2 & s2 & H).
  { pose proof (ring_size _ _ _ _ (wait_ring_at prio_max k1 s c _ (ru_world _ _ _ _ _ Hr1) Hh)) as Hsz. rewrite length_fmap in Hsz. lia. }
  change (threads k1) with (threads k) in H. destruct (event_walk _ _ _) as [[set' took] kept]. destruct H as (E2 & Hr2 & [W1 W2 W3 W4 W5 W6 W7 W8 W9]).
  assert (forall k' r, (b ← on_list (rt_list_isempty (SuspendHead e));
      need_schedule ← (if negb b then n ← on_list (ld_next (SuspendHead e)); k ← get; event_send_loop prio_max 1 (size (links k)) e n false else mret (Some false));
      match need_schedule with None => mret (- RT_EINVAL) | Some need => when need (rt_schedule prio_max) ;; mret RT_EOK end) k1 = Ok (r, k') ->
      rt_event_send prio_max 1 e set k = Ok (r, k')) as Hsend.
  { intros k' r E. unfold rt_event_send. step (by eapply assert_class_run). rewrite (proj2 (Z.eqb_neq _ _)) by done.
    rewrite <- (with_event_id e set0 k He). step (exact (set_event_with e (fun v => Z.lor v set) set0 k)). exact E. }
  assert ((b ← on_list (rt_list_isempty (SuspendHead e));
      need_schedule ← (if negb b then n ← on_list (ld_next (SuspendHead e)); k ← get; event_send_loop prio_max 1 (size (links k)) e n false else mret (Some false));
      match need_schedule with None => mret (- RT_EINVAL) | Some need => when need (rt_schedule prio_max) ;; mret RT_EOK end) k1 =
      (when (negb (bool_decide (took = []))) (rt_schedule prio_max) ;; mret RT_EOK) k2) as Erun.
  { rewrite (bind_run _ _ _ _ _ (isempty_wait prio_max k1 s c x _ Hr1 Hh)). pose proof (wait_ring_at prio_max k1 s c _ (ru_world _ _ _ _ _ Hr1) Hh) as Hri.
    destruct (wwait s (SuspendHead e)) as [|t ws] eqn:Ews.
    - cbn [fmap list_fmap head default] in E2. rewrite event_loop_end in E2. injection E2 as E2 <-. rewrite bool_decide_eq_true_2 by done. cbn [negb].
      step (reflexivity). by rewrite E2.
    - rewrite bool_decide_eq_false_2 by done. cbn [negb]. rewrite bind_run with (a := Some (negb (bool_decide (took = [])))) (s1 := k2); [done|].
      rewrite bind_run with (a := TList t) (s1 := k1); [|apply on_list_read; exact (ring_next _ _ _ _ Hri)]. step (reflexivity). exact E2. }
  destruct (bool_decide (took = [])) eqn:Et.
  - apply bool_decide_eq_true in Et. subst took. exists k2, s2, c, x. split; [by apply Hsend; rewrite Erun|]. split; [done|]. split; try done. by rewrite W5.
  - destruct (schedule_runs prio_max Hmax k2 s2 c x Hr2) as (k' & q' & c' & x' & E & Hr' & Hu & HP & Hst); [by rewrite W8|].
    exists k', {s2 with wq := q'}, c', x'. split; [apply Hsend; rewrite Erun; cbn [negb when]; by step (exact E)|]. split; [done|]. split; try done.
    + by rewrite (fr_events _ _ (ss_frame _ _ Hst)).
    + etransitivity; [exact HP|]. by rewrite W5.
    + intros t r Hin. destruct (W6 t r Hin) as (z & Hz & Hz1 & Hz2). destruct (ss_threads _ _ Hst t z Hz) as [st Hst']. eexists. split; [exact Hst'|]. done.
Qed.

Abbreviation recv := (rt_event_recv_ prio_max 1 mask soft timer_thread).

(** A thread that waits for the events [set]. *)
Definition wanting (set opt : Z) (x : rt_thread) : rt_thread := {{x with th_error := - RT_EINTR} with event_set := set; event_info := opt}.

Lemma wanting_match set opt x v : event_match (wanting set opt x) v <> None <-> has_bit opt RT_EVENT_FLAG_AND = true \/ has_bit opt RT_EVENT_FLAG_OR = true.
Proof using Type.
  clear prio_max Hmax. unfold event_match. change (event_info (wanting set opt x)) with opt. change (event_set (wanting set opt x)) with set. destruct (has_bit opt RT_EVENT_FLAG_AND), (has_bit opt RT_EVENT_FLAG_OR); (split; [intros H; try tauto; by destruct H|intros [?|?]; done]).
Qed.

(** The condition of the code and that of the walk. *)
Lemma recv_status set opt x v (r : option Z) : event_match (wanting set opt x) v = Some r ->
  (if has_bit opt RT_EVENT_FLAG_AND then mret (Z.land v set =? set)
   else if has_bit opt RT_EVENT_FLAG_OR then mret (negb (Z.land v set =? 0)) else abort "0") = (mret (bool_decide (is_Some r)) : K bool) /\
  (forall y, r = Some y -> y = Z.land v set).
Proof using Type.
  clear prio_max Hmax. unfold event_match. change (event_info (wanting set opt x)) with opt. change (event_set (wanting set opt x)) with set. rewrite (Z.land_comm set v). destruct (has_bit opt RT_EVENT_FLAG_AND).
  - intros [= <-]. destruct (Z.eqb_spec (Z.land v set) set) as [E|E]; (split; [reflexivity|congruence]).
  - destruct (has_bit opt RT_EVENT_FLAG_OR); [|done]. intros [= <-].
    destruct (negb (Z.land v set =? 0)); (split; [reflexivity|congruence]).
Qed.

Lemma recv_start k s c x e set0 set opt timeout sflag flag r :
  runs k s c x -> ipc_at k e RT_Object_Class_Event flag -> events k !! e = Some {| ev_set := set0 |} -> rt_scheduler_lock_nest k = 0 -> set <> 0 ->
  event_match (wanting set opt x) set0 = Some r ->
  let k1 := {k with threads ::= <[c := {x with th_error := - RT_EINTR}]> } in
  recv e set opt timeout sflag k =
    (if bool_decide (is_Some r) then
      set_error c RT_EOK ;;
      set_thread c (fun x => {x with event_set := Z.land set0 set; event_info := opt}) ;;
      when (has_bit opt RT_EVENT_FLAG_CLEAR) (set_event e (fun v => {| ev_set := Z.land (ev_set v) (u32 (Z.lnot set)) |})) ;;
      x ← thread c;
      mret (Some (th_error x, Some (Z.land set0 set)))
    else if timeout =? 0 then set_error c (- RT_ETIMEOUT) ;; mret (Some (- RT_ETIMEOUT, None))
    else
      set_thread c (fun x => {x with event_set := set; event_info := opt}) ;;
      flag ← ipc_flag e;
      ret ← ipc_list_suspend prio_max 1 (SuspendHead e) c flag sflag;
      if negb (ret =? RT_EOK) then mret (Some (ret, None))
      else
        when (0 <? timeout) (start_wait prio_max 1 mask soft timer_thread c timeout) ;;
        rt_schedule prio_max ;;
        mret None) k1.
Proof using Type.
  clear Hmax. intros Hr Ho He Hlock Hset Hm k1. pose proof (ru_current _ _ _ _ _ Hr) as Hcur. pose proof (ru_thread _ _ _ _ _ Hr) as Hx.
  destruct (recv_status set opt x set0 r Hm) as [Est _]. unfold rt_event_recv_. step (by eapply assert_class_run).
  step (by eapply scheduler_available_run; [exact Hlock|exact Hcur]). rewrite (proj2 (Z.eqb_neq _ _)) by done. step (by apply current_run).
  step (by apply set_thread_run). fold k1. step (by apply load_run). cbn [ev_set]. rewrite Est. by step (reflexivity).
Qed.

(** The events are there: the thread takes them. *)
Lemma event_recv_takes k s c x e set0 set opt timeout sflag flag r :
  runs k s c x -> ipc_at k e RT_Object_Class_Event flag -> events k !! e = Some {| ev_set := set0 |} -> rt_scheduler_lock_nest k = 0 -> set <> 0 ->
  event_match (wanting set opt x) set0 = Some (Some r) ->
  exists k' y, recv e set opt timeout sflag k = Ok (Some (RT_EOK, Some r), k') /\ runs k' s c y /\
    events k' !! e = Some {| ev_set := if has_bit opt RT_EVENT_FLAG_CLEAR then Z.land set0 (u32 (Z.lnot set)) else set0 |}.
Proof using Hmax.
  intros Hr Ho He Hlock Hset Hm. rewrite (recv_start k s c x e set0 set opt timeout sflag flag _ Hr Ho He Hlock Hset Hm). rewrite bool_decide_eq_true_2 by done.
  destruct (recv_status set opt x set0 _ Hm) as [_ Hv]. specialize (Hv r eq_refl). subst r. pose proof (ru_thread _ _ _ _ _ Hr) as Hx.
  set (x1 := {x with th_error := - RT_EINTR}). set (x2 := {x1 with th_error := RT_EOK}). set (x3 := {x2 with event_set := Z.land set0 set; event_info := opt}).
  set (set' := if has_bit opt RT_EVENT_FLAG_CLEAR then _ else set0). set (k3 := {k with threads ::= <[c := x3]> }).
  pose proof (runs_set prio_max Hmax k s c x x3 Hr ltac:(by unfold alike) eq_refl) as Hr3. fold k3 in Hr3.
  exists (with_event e set' k3), x3. split; [|split; [by apply runs_event|apply lookup_insert_eq]].
  assert (forall a b, {{k with threads ::= <[c := a]> } with threads ::= <[c := b]> } = {k with threads ::= <[c := b]> }) as Hins.
  { intros a b. change ({k with threads := <[c := b]> (<[c := a]> (threads k)) } = {k with threads := <[c := b]> (threads k) }). by rewrite insert_insert_eq. }
  step (apply set_thread_run, lookup_insert_eq). fold x1. fold x2. rewrite Hins. step (apply set_thread_run, lookup_insert_eq). rewrite Hins. match goal with |- _ ?st = _ => change st with k3 end.
  rewrite bind_run with (a := tt) (s1 := with_event e set' k3).
  2:{ unfold set'. rewrite <- (with_event_id e set0 k3 He) at 1. destruct (has_bit opt RT_EVENT_FLAG_CLEAR); cbn [when]; [|done].
      exact (set_event_with e (fun v => Z.land v (u32 (Z.lnot set))) set0 k3). }
  by step (apply thread_run, lookup_insert_eq).
Qed.

(** They are not: the thread waits for them. *)
Lemma event_recv_waits k s c x e set0 set opt timeout sflag flag T p0 :
  runs k s c x -> ipc_at k e RT_Object_Class_Event flag -> events k !! e = Some {| ev_set := set0 |} -> SuspendHead e ∈ wheads s ->
  rt_scheduler_lock_nest k = 0 -> set <> 0 -> event_match (wanting set opt x) set0 = Some None -> suspend_flag_ok sflag ->
  0 <= p0 < prio_max -> wq s p0 <> [] -> rt_tick k = u32 T -> wait_time_ok T (stop_timer (thread_timer x) s) timeout ->
  exists k' s' c' x', recv e set opt timeout sflag k = Ok (None, k') /\ runs k' s' c' x' /\
    (exists q', s' = {blocked k c x (SuspendHead e) flag T timeout s with wq := q'}) /\
    threads k' !! c = Some (with_stat (suspend_stat sflag) (wanting set opt x)) /\ event_wait_ok (threads k') c /\
    urgent (wq s') x' /\ c' :: ready (wq s') ≡ₚ ready (wq s) /\ frame k k'.
Proof using Hmax.
  intros Hr Ho He Hh Hlock Hset Hm Hsf Hp0 Hq0 HT Hto. rewrite (recv_start k s c x e set0 set opt timeout sflag flag _ Hr Ho He Hlock Hset Hm).
  rewrite bool_decide_eq_false_2 by (by intros [? ?]). rewrite (proj2 (Z.eqb_neq timeout 0)) by (destruct Hto; lia).
  set (x2 := wanting set opt x). set (k2 := {k with threads ::= <[c := x2]> }). pose proof (ru_thread _ _ _ _ _ Hr) as Hx.
  pose proof (runs_set prio_max Hmax k s c x x2 Hr ltac:(by unfold alike) eq_refl) as Hr2. fold k2 in Hr2. assert (frame k k2) as Hf2 by (by split).
  destruct (wait_blocks prio_max Hmax mask soft timer_thread k2 s c x2 (SuspendHead e) flag timeout sflag T p0)
    as (k3 & k4 & k' & q' & c' & x' & E2 & E3 & E4 & Hr' & Hu & HP & _ & Hf' & Hx'); try done; [by eapply ipc_at_flag|].
  unfold k2 in Hr'. rewrite blocked_set with (x := x) in Hr' by done. fold k2 in Hr'.
  exists k', {blocked k c x (SuspendHead e) flag T timeout s with wq := q'}, c', x'. split; [|split; [exact Hr'|split; [by exists q'|split; [done|split; [|split; [done|split; [done|by etransitivity]]]]]]].
  - assert (forall a b, {{k with threads ::= <[c := a]> } with threads ::= <[c := b]> } = {k with threads ::= <[c := b]> }) as Hins.
    { intros a b. change ({k with threads := <[c := b]> (<[c := a]> (threads k)) } = {k with threads := <[c := b]> (threads k) }). by rewrite insert_insert_eq. }
    step (apply set_thread_run, lookup_insert_eq). rewrite Hins. match goal with |- _ ?st = _ => change st with k2 end. step (by eapply ipc_flag_run, ipc_at_frame).
    step (exact E2). change (negb (RT_EOK =? RT_EOK)) with false. cbv iota. step (exact E3). by step (exact E4).
  - eexists. split; [exact Hx'|]. intros v. change (event_match (wanting set opt x) v <> None). apply wanting_match. apply (wanting_match set opt x set0). by rewrite Hm.
Qed.
End EventFacts.
