(* ===== verification/RtMailbox.v ===== *)
(** * RT-Thread: src/ipc.c, mailboxes

    A mailbox is a ring of words.  A thread that sends to a full mailbox or receives from
    an empty one waits in a loop: [mb_send_loop] and [mb_recv_loop] are one round of it and
    what follows it.  [pool_malloc] stands for RT_KERNEL_MALLOC: the words of a block of so
    many bytes; [word_size] is sizeof(rt_ubase_t). *)
From S2P Require Import Prelude Outcome RtList RtKernel RtSched RtObject RtTimer RtThread RtTimerStart RtIpc RtSem.
#[local] Open Scope string_scope.
#[local] Open Scope list_scope.
#[local] Open Scope Z_scope.

Definition RT_MB_ENTRY_MAX : Z := 0xffff.

(** How far a function that waits in a loop has come: it returns, or waits since the tick
    [tick_delta], which matters if the time to wait is limited. *)
Inductive waiting (A : Type) :=
| Returns (a : A)
| Blocked (tick_delta : Z).
Arguments Returns {A} a.
Arguments Blocked {A} tick_delta.

(** [mb->msg_pool[i]] *)
Definition mb_slot (b : rt_mailbox) (i : Z) : K Z :=
  match zlookup (msg_pool b) i with Some v => mret v | None => undef "mb->msg_pool" end.
Definition mb_set_slot (mb i value : Z) : K unit :=
  b ← mailbox mb;
  mb_slot b i ;;
  set_mailbox mb (fun b => {b with msg_pool ::= <[Z.to_nat i := value]> }).

Section Mailbox.
Variables (prio_max : Z) (cfg : rt_config) (RT_NAME_MAX : nat) (rt_malloc : Z -> kernel -> option objid).
Variables (pool_malloc : Z -> kernel -> option (list Z)) (word_size : Z).
Variables (level : nat) (mask : Z) (soft : bool) (timer_thread : Z).

Definition rt_mb_init (mb : Z) (name : list Z) (msgpool : list Z) (size flag : Z) : K Z :=
  assert_flag flag ;;
  rt_object_init prio_max cfg RT_NAME_MAX (OOther mb) RT_Object_Class_MailBox name ;;
  set_ipc_flag mb flag ;;
  ipc_object_init mb ;;
  set_mailbox mb (fun _ => {| msg_pool := msgpool; mb_size := u16 size; mb_entry := 0; in_offset := 0; out_offset := 0 |}) ;;
  on_list (rt_list_init (SenderHead mb)) ;;
  mret RT_EOK.

Definition rt_mb_detach (mb : Z) : K Z :=
  assert_static mb RT_Object_Class_MailBox true ;;
  ipc_list_resume_all prio_max level (SuspendHead mb) ;;
  ipc_list_resume_all prio_max level (SenderHead mb) ;;
  rt_object_detach (OOther mb) ;;
  mret RT_EOK.

Definition rt_mb_create (name : list Z) (size flag : Z) : K (option Z) :=
  assert_flag flag ;;
  o ← rt_object_allocate cfg RT_NAME_MAX rt_malloc RT_Object_Class_MailBox name;
  match o with
  | None => mret None
  | Some (OOther mb) =>
      set_ipc_flag mb flag ;;
      ipc_object_init mb ;;
      set_mailbox mb (fun b => {b with mb_size := u16 size}) ;;
      k ← get;
      match pool_malloc (u16 size * word_size) k with
      | None => rt_object_delete (OOther mb) ;; mret None
      | Some pool =>
          set_mailbox mb (fun b => {b with msg_pool := pool; mb_entry := 0; in_offset := 0; out_offset := 0}) ;;
          on_list (rt_list_init (SenderHead mb)) ;;
          mret (Some mb)
      end
  | Some _ => undef "a block that is not a mailbox"
  end.

(** The pool's memory goes back to the heap. *)
Definition rt_mb_delete (mb : Z) : K Z :=
  assert_static mb RT_Object_Class_MailBox false ;;
  ipc_list_resume_all prio_max level (SuspendHead mb) ;;
  ipc_list_resume_all prio_max level (SenderHead mb) ;;
  set_mailbox mb (fun b => {b with msg_pool := [] }) ;;
  rt_object_delete (OOther mb) ;;
  mret RT_EOK.

(** The thread [t] waits in [list] for at most [timeout] ticks. *)
Definition wait_round {A} (list : knode) (i t timeout suspend_flag : Z) (fail : Z -> A) : K (waiting A) :=
  flag ← ipc_flag i;
  ret ← ipc_list_suspend prio_max level list t flag suspend_flag;
  if negb (ret =? RT_EOK) then mret (Returns (fail ret))
  else
    tick_delta ← (if 0 <? timeout then
        now ← rt_tick_get;
        start_wait prio_max level mask soft timer_thread t timeout ;;
        mret now
      else mret 0);
    rt_schedule prio_max ;;
    mret (Blocked tick_delta).

(** The time left after a wait that began at [tick_delta]. *)
Definition time_left (timeout tick_delta : Z) : K Z :=
  if 0 <? timeout then
    now ← rt_tick_get;
    let timeout := s32 (timeout - u32 (now - tick_delta)) in
    mret (if timeout <? 0 then 0 else timeout)
  else mret timeout.

(** [++ offset; if (offset >= size) offset = 0] *)
Definition mb_next (offset size : Z) : Z := let o := u16 (offset + 1) in if size <=? o then 0 else o.

(** A message is put into a mailbox that is not full. *)
Definition mb_put (mb value : Z) : K Z :=
  b ← mailbox mb;
  mb_set_slot mb (in_offset b) value ;;
  set_mailbox mb (fun b => {b with in_offset ::= (fun o => mb_next o (mb_size b))}) ;;
  b ← mailbox mb;
  if mb_entry b <? RT_MB_ENTRY_MAX then
    set_mailbox mb (fun b => {b with mb_entry ::= (fun n => u16 (n + 1))}) ;;
    resume_receiver prio_max level (SuspendHead mb)
  else mret (- RT_EFULL).

Definition mb_send_loop (mb t value timeout suspend_flag : Z) : K (waiting Z) :=
  b ← mailbox mb;
  if mb_entry b =? mb_size b then
    set_error t (- RT_EINTR) ;;
    if timeout =? 0 then mret (Returns (- RT_EFULL))
    else wait_round (SenderHead mb) mb t timeout suspend_flag (fun ret => ret)
  else r ← mb_put mb value; mret (Returns r).

Definition rt_mb_send_wait_ (mb value timeout suspend_flag : Z) : K (waiting Z) :=
  assert_class mb RT_Object_Class_MailBox ;;
  debug_scheduler_available (negb (timeout =? 0)) ;;
  b ← mailbox mb;
  if (mb_entry b =? mb_size b) && (timeout =? 0) then mret (Returns (- RT_EFULL))
  else if mb_entry b =? mb_size b then
    t ← current;
    mb_send_loop mb t value timeout suspend_flag
  else r ← mb_put mb value; mret (Returns r).

Definition rt_mb_send_return (mb t value timeout tick_delta suspend_flag : Z) : K (waiting Z) :=
  x ← thread t;
  if negb (th_error x =? RT_EOK) then mret (Returns (th_error x))
  else
    timeout ← time_left timeout tick_delta;
    mb_send_loop mb t value timeout suspend_flag.

Definition rt_mb_send_wait (mb value timeout : Z) : K (waiting Z) := rt_mb_send_wait_ mb value timeout RT_UNINTERRUPTIBLE.
Definition rt_mb_send_wait_interruptible (mb value timeout : Z) : K (waiting Z) := rt_mb_send_wait_ mb value timeout RT_INTERRUPTIBLE.
Definition rt_mb_send_wait_killable (mb value timeout : Z) : K (waiting Z) := rt_mb_send_wait_ mb value timeout RT_KILLABLE.
Definition rt_mb_send (mb value : Z) : K (waiting Z) := rt_mb_send_wait mb value 0.
Definition rt_mb_send_interruptible (mb value : Z) : K (waiting Z) := rt_mb_send_wait_interruptible mb value 0.
Definition rt_mb_send_killable (mb value : Z) : K (waiting Z) := rt_mb_send_wait_killable mb value 0.

(** The offset before [offset]. *)
Definition mb_prev (offset size : Z) : Z := if 0 <? offset then u16 (offset - 1) else u16 (size - 1).

Definition rt_mb_urgent (mb value : Z) : K Z :=
  assert_class mb RT_Object_Class_MailBox ;;
  b ← mailbox mb;
  if mb_entry b =? mb_size b then mret (- RT_EFULL)
  else
    set_mailbox mb (fun b => {b with out_offset ::= (fun o => mb_prev o (mb_size b))}) ;;
    b ← mailbox mb;
    mb_set_slot mb (out_offset b) value ;;
    set_mailbox mb (fun b => {b with mb_entry ::= (fun n => u16 (n + 1))}) ;;
    resume_receiver prio_max level (SuspendHead mb).

(** A message is taken out of a mailbox that is not empty: the error and the message. *)
Definition mb_take (mb : Z) : K (Z * option Z) :=
  b ← mailbox mb;
  value ← mb_slot b (out_offset b);
  set_mailbox mb (fun b => {b with out_offset ::= (fun o => mb_next o (mb_size b))}) ;;
  b ← mailbox mb;
  when (0 <? mb_entry b) (set_mailbox mb (fun b => {b with mb_entry ::= (fun n => u16 (n - 1))})) ;;
  err ← resume_receiver prio_max level (SenderHead mb);
  mret (err, Some value).

Definition mb_recv_loop (mb t timeout suspend_flag : Z) : K (waiting (Z * option Z)) :=
  b ← mailbox mb;
  if mb_entry b =? 0 then
    set_error t (- RT_EINTR) ;;
    if timeout =? 0 then
      set_error t (- RT_ETIMEOUT) ;;
      mret (Returns (- RT_ETIMEOUT, None))
    else wait_round (SuspendHead mb) mb t timeout suspend_flag (fun ret => (ret, None))
  else r ← mb_take mb; mret (Returns r).

Definition rt_mb_recv_ (mb timeout suspend_flag : Z) : K (waiting (Z * option Z)) :=
  assert_class mb RT_Object_Class_MailBox ;;
  debug_scheduler_available (negb (timeout =? 0)) ;;
  b ← mailbox mb;
  if (mb_entry b =? 0) && (timeout =? 0) then mret (Returns (- RT_ETIMEOUT, None))
  else if mb_entry b =? 0 then
    t ← current;
    mb_recv_loop mb t timeout suspend_flag
  else r ← mb_take mb; mret (Returns r).

Definition rt_mb_recv_return (mb t timeout tick_delta suspend_flag : Z) : K (waiting (Z * option Z)) :=
  x ← thread t;
  if negb (th_error x =? RT_EOK) then mret (Returns (th_error x, None))
  else
    timeout ← time_left timeout tick_delta;
    mb_recv_loop mb t timeout suspend_flag.

Definition rt_mb_recv (mb timeout : Z) : K (waiting (Z * option Z)) := rt_mb_recv_ mb timeout RT_UNINTERRUPTIBLE.
Definition rt_mb_recv_interruptibale (mb timeout : Z) : K (waiting (Z * option Z)) := rt_mb_recv_ mb timeout RT_INTERRUPTIBLE.
Definition rt_mb_recv_killable (mb timeout : Z) : K (waiting (Z * option Z)) := rt_mb_recv_ mb timeout RT_KILLABLE.

Definition rt_mb_control (mb : Z) (cmd : ipc_cmd) : K Z :=
  assert_class mb RT_Object_Class_MailBox ;;
  match cmd with
  | RT_IPC_CMD_RESET _ =>
      ipc_list_resume_all prio_max level (SuspendHead mb) ;;
      ipc_list_resume_all prio_max level (SenderHead mb) ;;
      set_mailbox mb (fun b => {b with mb_entry := 0; in_offset := 0; out_offset := 0}) ;;
      rt_schedule prio_max ;;
      mret RT_EOK
  | RT_IPC_CMD_OTHER => mret (- RT_ERROR)
  end.
End Mailbox.
