(* ===== verification/RtMailFacts.v ===== *)
(** * RT-Thread: a mailbox is a bounded queue

    [holds b msgs]: the ring of the mailbox [b] contains the messages [msgs], the oldest
    first.  Sending appends, an urgent message goes to the front, receiving takes the
    oldest; a thread that cannot proceed joins the list of senders or of receivers. *)
From S2P Require Import Prelude Outcome RtList RtKernel RtSched RtObject RtTimer RtThread RtTimerStart RtTimerFacts.
From S2P Require Import RtSchedFacts RtSchedRun RtWorld RtIpc RtWorldOps RtWait RtWorldSched RtBlock RtSem RtMailbox.
#[local] Open Scope string_scope.
#[local] Open Scope list_scope.
#[local] Open Scope Z_scope.

(** ** The ring of words *)

Record holds (b : rt_mailbox) (msgs : list Z) : Prop := {
  ho_size : 0 < mb_size b <= 0xffff;
  ho_pool : mb_size b <= Z.of_nat (length (msg_pool b));
  ho_out : 0 <= out_offset b < mb_size b;
  ho_in : in_offset b = (out_offset b + Z.of_nat (length msgs)) mod mb_size b;
  ho_entry : mb_entry b = Z.of_nat (length msgs);
  ho_bound : Z.of_nat (length msgs) <= mb_size b;
  ho_msgs : forall j v, msgs !! j = Some v -> msg_pool b !! Z.to_nat ((out_offset b + Z.of_nat j) mod mb_size b) = Some v;
}.

Lemma mb_next_mod o size : 0 <= o < size -> size <= 0xffff -> mb_next o size = (o + 1) mod size.
Proof.
  intros Ho Hs. unfold mb_next. rewrite (wrap_small 16) by (unfold in_u; lia). destruct (Z.leb_spec size (o + 1)).
  - replace (o + 1) with size by lia. by rewrite Z.mod_same by lia.
  - by rewrite Z.mod_small by lia.
Qed.

Lemma mb_prev_mod o size : 0 <= o < size -> size <= 0xffff -> mb_prev o size = (o - 1) mod size.
Proof.
  intros Ho Hs. unfold mb_prev. destruct (Z.ltb_spec 0 o).
  - rewrite (wrap_small 16) by (unfold in_u; lia). by rewrite Z.mod_small by lia.
  - rewrite (wrap_small 16) by (unfold in_u; lia). replace o with 0 by lia. rewrite <- (Z.mod_add _ 1) by lia. rewrite Z.mod_small by lia. lia.
Qed.

(** Two positions of the ring less than a turn apart are different. *)
Lemma ring_apart o size a b : 0 < size -> 0 <= a < b -> b - a < size -> (o + a) mod size <> (o + b) mod size.
Proof.
  intros Hs Hab Hd E. assert ((b - a) mod size = 0) as H0.
  { replace (b - a) with ((o + b) - (o + a)) by lia. rewrite Zminus_mod, E, Z.sub_diag. apply Z.mod_0_l. lia. }
  rewrite Z.mod_small in H0 by lia. lia.
Qed.

Definition put_back (v : Z) (b : rt_mailbox) : rt_mailbox :=
  {| msg_pool := <[Z.to_nat (in_offset b) := v]> (msg_pool b); mb_size := mb_size b; mb_entry := u16 (mb_entry b + 1);
     in_offset := mb_next (in_offset b) (mb_size b); out_offset := out_offset b |}.
Definition put_front (v : Z) (b : rt_mailbox) : rt_mailbox :=
  {| msg_pool := <[Z.to_nat (mb_prev (out_offset b) (mb_size b)) := v]> (msg_pool b); mb_size := mb_size b; mb_entry := u16 (mb_entry b + 1);
     in_offset := in_offset b; out_offset := mb_prev (out_offset b) (mb_size b) |}.
Definition take_front (b : rt_mailbox) : rt_mailbox :=
  {| msg_pool := msg_pool b; mb_size := mb_size b; mb_entry := u16 (mb_entry b - 1);
     in_offset := in_offset b; out_offset := mb_next (out_offset b) (mb_size b) |}.

Lemma put_back_holds b msgs v : holds b msgs -> Z.of_nat (length msgs) < mb_size b -> holds (put_back v b) (msgs ++ [v]).
Proof.
  intros [H1 H2 H3 H4 H5 H6 H7] Hlt. assert (0 <= in_offset b < mb_size b) as Hin by (rewrite H4; apply Z.mod_pos_bound; lia).
  split; cbn [put_back msg_pool mb_size mb_entry in_offset out_offset]; rewrite ?length_insert, ?length_app; cbn [length]; try lia.
  - rewrite mb_next_mod, H4, Zplus_mod_idemp_l by lia. f_equal. lia.
  - rewrite (wrap_small 16) by (unfold in_u; lia). lia.
  - intros j w Hj. destruct (decide (j = length msgs)) as [->|Hne].
    + rewrite list_lookup_middle in Hj by done. injection Hj as <-. rewrite <- H4. apply list_lookup_insert_eq. lia.
    + assert (j < length msgs)%nat as Hjl by (apply lookup_lt_Some in Hj; rewrite length_app in Hj; cbn in Hj; lia).
      rewrite lookup_app_l in Hj by done. rewrite list_lookup_insert_ne; [by apply H7|]. rewrite H4. intros E.
      apply (ring_apart (out_offset b) (mb_size b) (Z.of_nat j) (Z.of_nat (length msgs))); [lia..|].
      pose proof (Z.mod_pos_bound (out_offset b + Z.of_nat j) (mb_size b)). pose proof (Z.mod_pos_bound (out_offset b + Z.of_nat (length msgs)) (mb_size b)). lia.
Qed.

Lemma put_front_holds b msgs v : holds b msgs -> Z.of_nat (length msgs) < mb_size b -> holds (put_front v b) (v :: msgs).
Proof.
  intros [H1 H2 H3 H4 H5 H6 H7] Hlt. pose proof (mb_prev_mod (out_offset b) (mb_size b)) as Hp.
  assert (0 <= mb_prev (out_offset b) (mb_size b) < mb_size b) as Hb by (rewrite Hp by lia; apply Z.mod_pos_bound; lia).
  split; cbn [put_front msg_pool mb_size mb_entry in_offset out_offset length]; rewrite ?length_insert; try lia.
  - rewrite Hp, H4, Zplus_mod_idemp_l by lia. f_equal. lia.
  - rewrite (wrap_small 16) by (unfold in_u; lia). lia.
  - intros [|j] w Hj; cbn in Hj.
    + injection Hj as ->. rewrite Z.add_0_r, Z.mod_small by done. apply list_lookup_insert_eq. lia.
    + assert (j < length msgs)%nat as Hjl by (by apply lookup_lt_Some in Hj). rewrite Hp, Zplus_mod_idemp_l by lia.
      replace (out_offset b - 1 + Z.of_nat (S j)) with (out_offset b + Z.of_nat j) by lia. rewrite list_lookup_insert_ne; [by apply H7|]. intros E.
      apply (ring_apart (out_offset b - 1) (mb_size b) 0 (Z.of_nat j + 1)); [lia..|]. rewrite Z.add_0_r.
      replace (out_offset b - 1 + (Z.of_nat j + 1)) with (out_offset b + Z.of_nat j) by lia.
      pose proof (Z.mod_pos_bound (out_offset b + Z.of_nat j) (mb_size b)). pose proof (Z.mod_pos_bound (out_offset b - 1) (mb_size b)). lia.
Qed.

Lemma take_front_holds b v msgs :
  holds b (v :: msgs) -> msg_pool b !! Z.to_nat (out_offset b) = Some v /\ holds (take_front b) msgs.
Proof.
  intros [H1 H2 H3 H4 H5 H6 H7]. cbn [length] in *. split.
  - specialize (H7 0%nat v eq_refl). by rewrite Z.add_0_r, Z.mod_small in H7 by done.
  - pose proof (mb_next_mod (out_offset b) (mb_size b)) as Hn.
    split; cbn [take_front msg_pool mb_size mb_entry in_offset out_offset length]; try lia.
    + rewrite Hn by lia. apply Z.mod_pos_bound. lia.
    + rewrite Hn, H4, Zplus_mod_idemp_l by lia. f_equal. lia.
    + rewrite (wrap_small 16) by (unfold in_u; lia). lia.
    + intros j w Hj. rewrite Hn, Zplus_mod_idemp_l by lia. rewrite <- (H7 (S j) w Hj). do 3 f_equal. lia.
Qed.

(** ** The operations *)

Definition with_mailbox (i : Z) (b : rt_mailbox) (k : kernel) : kernel := {k with mailboxes ::= <[i := b]> }.

Lemma mailbox_with i b k : mailbox i (with_mailbox i b k) = Ok (b, with_mailbox i b k).
Proof. apply load_run. apply lookup_insert_eq. Qed.
Lemma set_mailbox_with i f b k : set_mailbox i f (with_mailbox i b k) = Ok (tt, with_mailbox i (f b) k).
Proof.
  unfold set_mailbox. rewrite (store_run _ _ _ i f _ b) by apply lookup_insert_eq.
  change (Ok (tt, {k with mailboxes := <[i := f b]> (<[i := b]> (mailboxes k)) }) = Ok (tt, {k with mailboxes := <[i := f b]> (mailboxes k)})).
  by rewrite insert_insert_eq.
Qed.
Lemma with_mailbox_id i b k : mailboxes k !! i = Some b -> with_mailbox i b k = k.
Proof. intros E. unfold with_mailbox. destruct k. cbn in *. by rewrite insert_id. Qed.

Lemma mb_slot_run b j v k : 0 <= j -> msg_pool b !! Z.to_nat j = Some v -> mb_slot b j k = Ok (v, k).
Proof. intros Hj E. unfold mb_slot. by rewrite (proj2 (zlookup_some (msg_pool b) j v)). Qed.

Lemma mb_set_slot_with i j v b k : 0 <= j < Z.of_nat (length (msg_pool b)) ->
  mb_set_slot i j v (with_mailbox i b k) = Ok (tt, with_mailbox i {b with msg_pool ::= <[Z.to_nat j := v]> } k).
Proof.
  intros Hj. destruct (lookup_lt_is_Some_2 (msg_pool b) (Z.to_nat j)) as [w Hw]; [lia|]. unfold mb_set_slot.
  step (apply mailbox_with). step (by eapply mb_slot_run; [|exact Hw]; lia). apply set_mailbox_with.
Qed.

Record mailbox_at (k : kernel) (i : Z) (msgs : list Z) (size flag : Z) : Prop := {
  ma_ring : exists b, mailboxes k !! i = Some b /\ holds b msgs /\ mb_size b = size;
  ma_object : ipc_at k i RT_Object_Class_MailBox flag;
}.

Lemma mailbox_at_frame k k' i msgs size flag : frame k k' -> mailbox_at k i msgs size flag -> mailbox_at k' i msgs size flag.
Proof. intros Hf [H1 H2]. split; [by rewrite (fr_mailboxes _ _ Hf)|by eapply ipc_at_frame]. Qed.

Section MailFacts.
Variables (prio_max : Z) (mask : Z) (soft : bool) (timer_thread : Z).
Context (Hmax : 0 < prio_max <= 256).
Abbreviation runs := (runs prio_max).
Abbreviation ready := (ready prio_max).
Abbreviation received := (received prio_max).
Abbreviation waits_in := (waits_in prio_max).

Lemma runs_mailbox k s c x i b : runs k s c x -> runs (with_mailbox i b k) s c x.
Proof using Type. clear Hmax. intros Hr. by eapply runs_frame_tables. Qed.

Lemma mb_put_run k i b msgs v : holds b msgs -> Z.of_nat (length msgs) < mb_size b ->
  mb_put prio_max 1 i v (with_mailbox i b k) = resume_receiver prio_max 1 (SuspendHead i) (with_mailbox i (put_back v b) k).
Proof using Type.
  clear Hmax. intros [H1 H2 H3 H4 H5 H6 H7] Hlt. assert (0 <= in_offset b < mb_size b) as Hin by (rewrite H4; apply Z.mod_pos_bound; lia).
  unfold mb_put. step (apply mailbox_with). step (apply mb_set_slot_with; lia). step (apply set_mailbox_with). step (apply mailbox_with).
  match goal with |- context [?n <? RT_MB_ENTRY_MAX] => change (n <? RT_MB_ENTRY_MAX) with (mb_entry b <? 0xffff) end.
  rewrite (proj2 (Z.ltb_lt _ _)) by lia. by step (apply set_mailbox_with).
Qed.

Lemma mb_take_run k i b v msgs : holds b (v :: msgs) ->
  mb_take prio_max 1 i (with_mailbox i b k) = (err ← resume_receiver prio_max 1 (SenderHead i); mret (err, Some v)) (with_mailbox i (take_front b) k).
Proof using Type.
  clear Hmax. intros Hb. destruct (take_front_holds b v msgs Hb) as [Hv _]. destruct Hb as [H1 H2 H3 H4 H5 H6 H7].
  unfold mb_take. step (apply mailbox_with). step (by eapply mb_slot_run; [|exact Hv]; lia). step (apply set_mailbox_with). step (apply mailbox_with).
  match goal with |- context [0 <? ?n] => change (0 <? n) with (0 <? mb_entry b) end. rewrite H5. cbn [length]. rewrite (proj2 (Z.ltb_lt _ _)) by lia. cbn [when]. by step (apply set_mailbox_with).
Qed.

(** One round of a wait. *)
Lemma wait_round_runs {A} (fail : Z -> A) k s c x h i flag timeout sflag T p0 :
  runs k s c x -> h ∈ wheads s -> rt_scheduler_lock_nest k = 0 -> suspend_flag_ok sflag -> (exists class, ipc_at k i class flag) ->
  0 <= p0 < prio_max -> wq s p0 <> [] -> rt_tick k = u32 T -> wait_time_ok T (stop_timer (thread_timer x) s) timeout ->
  exists k' q' c' x', let s' := {blocked k c x h flag T timeout s with wq := q'} in
    wait_round prio_max 1 mask soft timer_thread h i c timeout sflag fail k = Ok (Blocked (if 0 <? timeout then rt_tick k else 0), k') /\
    runs k' s' c' x' /\ urgent q' x' /\ c' :: ready q' ≡ₚ ready (wq s) /\ frame k k' /\ threads k' !! c = Some (with_stat (suspend_stat sflag) x).
Proof using Hmax.
  intros Hr Hh Hlock Hsf (class & Ho) Hp0 Hq0 HT Hto.
  destruct (wait_blocks prio_max Hmax mask soft timer_thread k s c x h flag timeout sflag T p0)
    as (k1 & k2 & k' & q' & c' & x' & E1 & E2 & E3 & Hr' & Hu & HP & Hf1 & Hf' & Hx'); try done; [by eapply ipc_at_flag|].
  exists k', q', c', x'. cbv zeta. split; [|by (split; [exact Hr'|])].
  unfold wait_round. step (by eapply ipc_flag_run). step (exact E1). change (negb (RT_EOK =? RT_EOK)) with false. cbv iota.
  rewrite <- (fr_tick _ _ Hf1). destruct (0 <? timeout); cbn [when] in E2.
  - rewrite bind_run with (a := rt_tick k1) (s1 := k2); [by step (exact E3)|]. unfold rt_tick_get. step (reflexivity). by step (exact E2).
  - injection E2 as <-. rewrite bind_run with (a := 0) (s1 := k1); [|reflexivity]. by step (exact E3).
Qed.

(** ** The operations as those of a queue *)

Inductive mail_op := Send (v : Z) | Urgent (v : Z) | Recv.

(** The operation called by the thread [c]; an urgent message is never waited for. *)
Definition mail_run (i : Z) (op : mail_op) (timeout sflag : Z) : K (waiting (Z * option Z)) :=
  match op with
  | Send v =>
      r ← rt_mb_send_wait_ prio_max 1 mask soft timer_thread i v timeout sflag;
      mret (match r with Returns err => Returns (err, None) | Blocked d => Blocked d end)
  | Urgent v => err ← rt_mb_urgent prio_max 1 i v; mret (Returns (err, None))
  | Recv => rt_mb_recv_ prio_max 1 mask soft timer_thread i timeout sflag
  end.

(** The queue: the new messages and the answer, nothing if the operation cannot proceed. *)
Definition mail_spec (op : mail_op) (size : Z) (msgs : list Z) : option (list Z * option Z) :=
  match op, msgs with
  | Send v, _ => if Z.of_nat (length msgs) <? size then Some (msgs ++ [v], None) else None
  | Urgent v, _ => if Z.of_nat (length msgs) <? size then Some (v :: msgs, None) else None
  | Recv, v :: rest => Some (rest, Some v)
  | Recv, [] => None
  end.

(** Those who wait for the operation, those who wait for its contrary, and the error. *)
Definition mail_waits (op : mail_op) (i : Z) : knode := match op with Recv => SuspendHead i | _ => SenderHead i end.
Definition mail_wakes (op : mail_op) (i : Z) : knode := match op with Recv => SenderHead i | _ => SuspendHead i end.
Definition mail_error (op : mail_op) : Z := match op with Recv => - RT_ETIMEOUT | _ => - RT_EFULL end.

Lemma available_run k need c : rt_scheduler_lock_nest k = 0 -> rt_current_thread k = Some c -> debug_scheduler_available need k = Ok (tt, k).
Proof using Type. intros Hl Hc. destruct need; [by eapply scheduler_available_run|done]. Qed.

Lemma full_test b msgs : holds b msgs -> (mb_entry b =? mb_size b) = negb (Z.of_nat (length msgs) <? mb_size b).
Proof using Type.
  intros [H1 _ _ _ H5 H6 _]. rewrite H5. destruct (Z.eqb_spec (Z.of_nat (length msgs)) (mb_size b)), (Z.ltb_spec (Z.of_nat (length msgs)) (mb_size b)); done || lia.
Qed.
Lemma empty_test b msgs : holds b msgs -> (mb_entry b =? 0) = bool_decide (msgs = []).
Proof using Type. intros [_ _ _ _ -> _ _]. by destruct msgs. Qed.

(** An operation that can proceed does what the queue does, and wakes up one that waits
    for it. *)
Lemma mail_proceeds k s c x i b msgs flag op timeout sflag msgs' ans :
  runs k s c x -> mailboxes k !! i = Some b -> holds b msgs -> ipc_at k i RT_Object_Class_MailBox flag ->
  mail_wakes op i ∈ wheads s -> rt_scheduler_lock_nest k = 0 -> mail_spec op (mb_size b) msgs = Some (msgs', ans) ->
  exists b' k' s' c' x', mail_run i op timeout sflag k = Ok (Returns (RT_EOK, ans), k') /\ runs k' s' c' x' /\
    received (with_mailbox i b' k) s c x (mail_wakes op i) k' s' c' x' /\ mailbox_at k' i msgs' (mb_size b) flag.
Proof using Hmax.
  intros Hr Hb Hh Ho Hin Hlock Hspec. pose proof (ru_current _ _ _ _ _ Hr) as Hcur.
  assert (forall b', holds b' msgs' -> mb_size b' = mb_size b -> forall k', frame (with_mailbox i b' k) k' -> mailbox_at k' i msgs' (mb_size b) flag) as Hat.
  { intros b' Hb' Hs k' Hf. split; [rewrite (fr_mailboxes _ _ Hf); exists b'; split; [apply lookup_insert_eq|done]|]. eapply ipc_at_frame; [exact Hf|exact Ho]. }
  assert (forall b', exists k' s' c' x', resume_receiver prio_max 1 (mail_wakes op i) (with_mailbox i b' k) = Ok (RT_EOK, k') /\ runs k' s' c' x' /\
    received (with_mailbox i b' k) s c x (mail_wakes op i) k' s' c' x') as Hres.
  { intros b'. apply resume_receiver_runs; [done|by apply runs_mailbox|done|done]. }
  pose proof (full_test b msgs Hh) as Hfull. pose proof (empty_test b msgs Hh) as Hempty.
  destruct op as [v|v|]; cbn [mail_spec mail_wakes mail_run] in *.
  - destruct (Z.ltb_spec (Z.of_nat (length msgs)) (mb_size b)) as [Hlt|]; [|done]. injection Hspec as <- <-. cbn [negb] in Hfull.
    destruct (Hres (put_back v b)) as (k' & s' & c' & x' & E & Hr' & Hrec). exists (put_back v b), k', s', c', x'.
    split; [|split; [done|split; [done|]]].
    + rewrite <- (with_mailbox_id i b k Hb). rewrite bind_run with (a := Returns RT_EOK) (s1 := k'); [done|]. unfold rt_mb_send_wait_. step (by eapply assert_class_run).
      step (by eapply available_run; [exact Hlock|exact Hcur]). step (apply mailbox_with). rewrite Hfull. cbn [andb].
      rewrite bind_run with (a := RT_EOK) (s1 := k'); [done|]. by rewrite (mb_put_run _ _ _ msgs).
    + eapply Hat; [by apply put_back_holds|done|by eapply received_frame].
  - destruct (Z.ltb_spec (Z.of_nat (length msgs)) (mb_size b)) as [Hlt|]; [|done]. injection Hspec as <- <-. cbn [negb] in Hfull.
    destruct (Hres (put_front v b)) as (k' & s' & c' & x' & E & Hr' & Hrec). exists (put_front v b), k', s', c', x'.
    split; [|split; [done|split; [done|]]].
    + rewrite <- (with_mailbox_id i b k Hb). rewrite bind_run with (a := RT_EOK) (s1 := k'); [done|]. unfold rt_mb_urgent. step (by eapply assert_class_run).
      step (apply mailbox_with). rewrite Hfull. step (apply set_mailbox_with). step (apply mailbox_with).
      destruct Hh as [H1 H2 H3 _ _ _ _]. pose proof (mb_prev_mod (out_offset b) (mb_size b) H3 ltac:(lia)) as Hp.
      pose proof (Z.mod_pos_bound (out_offset b - 1) (mb_size b)). step (apply mb_set_slot_with; change (0 <= mb_prev (out_offset b) (mb_size b) < Z.of_nat (length (msg_pool b))); lia).
      by step (apply set_mailbox_with).
    + eapply Hat; [by apply put_front_holds|done|by eapply received_frame].
  - destruct msgs as [|v rest]; [done|]. injection Hspec as <- <-. rewrite bool_decide_eq_false_2 in Hempty by done.
    destruct (Hres (take_front b)) as (k' & s' & c' & x' & E & Hr' & Hrec). exists (take_front b), k', s', c', x'.
    split; [|split; [done|split; [done|]]].
    + rewrite <- (with_mailbox_id i b k Hb). unfold rt_mb_recv_. step (by eapply assert_class_run). step (by eapply available_run; [exact Hlock|exact Hcur]). step (apply mailbox_with).
      rewrite Hempty. cbn [andb]. rewrite bind_run with (a := (RT_EOK, Some v)) (s1 := k'); [done|]. rewrite (mb_take_run _ _ _ v rest) by done. by step (exact E).
    + eapply Hat; [by apply (take_front_holds b v rest)|done|by eapply received_frame].
Qed.

Definition is_urgent (op : mail_op) : bool := match op with Urgent _ => true | _ => false end.

Lemma mail_refused k s c x i b msgs flag op timeout sflag :
  runs k s c x -> mailboxes k !! i = Some b -> holds b msgs -> ipc_at k i RT_Object_Class_MailBox flag -> rt_scheduler_lock_nest k = 0 ->
  mail_spec op (mb_size b) msgs = None -> timeout = 0 \/ is_urgent op = true ->
  mail_run i op timeout sflag k = Ok (Returns (mail_error op, None), k).
Proof using Type.
  clear Hmax. intros Hr Hb Hh Ho Hlock Hspec Ht. pose proof (ru_current _ _ _ _ _ Hr) as Hcur.
  pose proof (full_test b msgs Hh) as Hfull. pose proof (empty_test b msgs Hh) as Hempty.
  destruct op as [v|v|]; cbn [mail_spec mail_run mail_error is_urgent] in *.
  - destruct (Z.of_nat (length msgs) <? mb_size b); [done|]. destruct Ht as [-> |Ht]; [|done]. rewrite bind_run with (a := Returns (- RT_EFULL)) (s1 := k); [done|].
    unfold rt_mb_send_wait_. step (by eapply assert_class_run). step (by eapply available_run). step (by apply load_run). by rewrite Hfull.
  - destruct (Z.of_nat (length msgs) <? mb_size b); [done|]. rewrite bind_run with (a := - RT_EFULL) (s1 := k); [done|].
    unfold rt_mb_urgent. step (by eapply assert_class_run). step (by apply load_run). by rewrite Hfull.
  - destruct msgs; [|done]. destruct Ht as [-> |Ht]; [|done].
    unfold rt_mb_recv_. step (by eapply assert_class_run). step (by eapply available_run). step (by apply load_run). by rewrite Hempty.
Qed.

Lemma round_waits {A} (fail : Z -> A) k s c x h i class flag timeout sflag T p0 :
  runs k s c x -> h ∈ wheads s -> rt_scheduler_lock_nest k = 0 -> suspend_flag_ok sflag -> ipc_at k i class flag ->
  0 <= p0 < prio_max -> wq s p0 <> [] -> rt_tick k = u32 T -> wait_time_ok T (stop_timer (thread_timer x) s) timeout ->
  exists k' s' c' x', (set_error c (- RT_EINTR) ;; wait_round prio_max 1 mask soft timer_thread h i c timeout sflag fail) k =
      Ok (Blocked (if 0 <? timeout then rt_tick k else 0), k') /\
    runs k' s' c' x' /\ waits_in k s c x h flag T timeout sflag k' s' c' x'.
Proof using Hmax.
  intros Hr Hh Hlock Hsf Ho Hp0 Hq0 HT Hto. pose proof (ru_thread _ _ _ _ _ Hr) as Hx.
  set (x1 := {x with th_error := - RT_EINTR}). set (k1 := {k with threads ::= <[c := x1]> }). assert (alike x x1) as Ha by (by unfold alike).
  pose proof (runs_set prio_max Hmax k s c x x1 Hr Ha eq_refl) as Hr1. fold k1 in Hr1. assert (frame k k1) as Hf1 by (by split).
  destruct (wait_round_runs fail k1 s c x1 h i flag timeout sflag T p0) as (k' & q' & c' & x' & E & Hr' & Hu & HP & Hf' & Hx');
    [done|done|done|done|exists class; by eapply ipc_at_frame|done..|].
  unfold k1 in Hr'. rewrite blocked_set with (x := x) in Hr' by done. fold k1 in Hr'.
  exists k', {blocked k c x h flag T timeout s with wq := q'}, c', x'. split; [|split; [done|split; [by exists q'|done|done|done|by etransitivity]]].
  step (by apply set_thread_run). exact E.
Qed.

(** An operation that cannot proceed and may wait does so. *)
Lemma mail_waits_run k s c x i b msgs flag op timeout sflag T p0 :
  runs k s c x -> mailboxes k !! i = Some b -> holds b msgs -> ipc_at k i RT_Object_Class_MailBox flag ->
  mail_waits op i ∈ wheads s -> rt_scheduler_lock_nest k = 0 -> suspend_flag_ok sflag -> mail_spec op (mb_size b) msgs = None -> is_urgent op = false ->
  0 <= p0 < prio_max -> wq s p0 <> [] -> rt_tick k = u32 T -> wait_time_ok T (stop_timer (thread_timer x) s) timeout ->
  exists k' s' c' x', mail_run i op timeout sflag k = Ok (Blocked (if 0 <? timeout then rt_tick k else 0), k') /\ runs k' s' c' x' /\
    waits_in k s c x (mail_waits op i) flag T timeout sflag k' s' c' x' /\ mailbox_at k' i msgs (mb_size b) flag.
Proof using Hmax.
  intros Hr Hb Hh Ho Hin Hlock Hsf Hspec Hu Hp0 Hq0 HT Hto. pose proof (ru_current _ _ _ _ _ Hr) as Hcur.
  pose proof (full_test b msgs Hh) as Hfull. pose proof (empty_test b msgs Hh) as Hempty.
  assert (timeout <> 0) as Hnz by (destruct Hto; lia). apply Z.eqb_neq in Hnz.
  assert (mailbox_at k i msgs (mb_size b) flag) as Hat by (split; [by exists b|done]).
  destruct op as [v|v|]; cbn [mail_spec mail_run mail_waits is_urgent] in *; [|done|].
  - destruct (Z.of_nat (length msgs) <? mb_size b); [done|]. cbn [negb] in Hfull.
    destruct (round_waits (fun ret => ret) k s c x (SenderHead i) i _ flag timeout sflag T p0 Hr Hin Hlock Hsf Ho Hp0 Hq0 HT Hto) as (k' & s' & c' & x' & E & Hr' & Hw).
    exists k', s', c', x'. split; [|split; [done|split; [done|by eapply mailbox_at_frame; [apply Hw|]]]].
    rewrite bind_run with (a := Blocked (if 0 <? timeout then rt_tick k else 0)) (s1 := k'); [done|]. unfold rt_mb_send_wait_. step (by eapply assert_class_run). step (by eapply available_run). step (by apply load_run).
    rewrite Hfull, Hnz. cbn [andb]. step (by apply current_run). unfold mb_send_loop. step (by apply load_run). rewrite Hfull, Hnz. exact E.
  - destruct msgs; [|done]. rewrite bool_decide_eq_true_2 in Hempty by done.
    destruct (round_waits (fun ret => (ret, None : option Z)) k s c x (SuspendHead i) i _ flag timeout sflag T p0 Hr Hin Hlock Hsf Ho Hp0 Hq0 HT Hto) as (k' & s' & c' & x' & E & Hr' & Hw).
    exists k', s', c', x'. split; [|split; [done|split; [done|by eapply mailbox_at_frame; [apply Hw|]]]].
    unfold rt_mb_recv_. step (by eapply assert_class_run). step (by eapply available_run). step (by apply load_run).
    rewrite Hempty, Hnz. cbn [andb]. step (by apply current_run). unfold mb_recv_loop. step (by apply load_run). rewrite Hempty, Hnz. exact E.
Qed.
End MailFacts.
