(* ===== verification/RtMqueue.v ===== *)
(** * RT-Thread: src/ipc.c, message queues

    The messages of a queue are the blocks of a pool; they are linked into the queue or
    into the list of free messages.  A pointer to a message is its number in the pool.
    rt_memcpy is modelled on the bytes of the message: what it leaves alone keeps its
    content.  [word_size] is sizeof(struct rt_mq_message) and RT_ALIGN_SIZE is [align];
    [pool_malloc] gives the bytes of a block. *)
From S2P Require Import Prelude Outcome RtList RtKernel RtSched RtObject RtTimer RtThread RtTimerStart RtIpc RtSem RtMailbox.
#[local] Open Scope string_scope.
#[local] Open Scope list_scope.
#[local] Open Scope Z_scope.

Definition RT_MQ_ENTRY_MAX : Z := 0xffff.

(** [rt_memcpy(dst, src, n)] between two blocks of bytes: the content of [dst]. *)
Definition rt_memcpy (dst src : list Z) (n : Z) : K (list Z) :=
  if (n <=? Z.of_nat (length dst)) && (n <=? Z.of_nat (length src))
  then mret (take (Z.to_nat n) src ++ drop (Z.to_nat n) dst) else undef "rt_memcpy".

(** The message at a pointer. *)
Definition message (q : rt_messagequeue) (p : option Z) : K rt_mq_message :=
  match p with
  | Some i => match zlookup (mq_pool q) i with Some m => mret m | None => undef "not a message" end
  | None => undef "a message at the null pointer"
  end.
Definition set_message (mq : Z) (p : option Z) (f : rt_mq_message -> rt_mq_message) : K unit :=
  q ← messagequeue mq;
  m ← message q p;
  set_messagequeue mq (fun q => {q with mq_pool ::= <[Z.to_nat (default 0 p) := f m]> }).
Definition set_next (mq : Z) (p v : option Z) : K unit := set_message mq p (fun m => {m with msg_next := v}).

(** [mq->entry ++] with its check: whether there was room. *)
Definition mq_count (mq : Z) : K bool :=
  q ← messagequeue mq;
  if mq_entry q <? RT_MQ_ENTRY_MAX then
    set_messagequeue mq (fun q => {q with mq_entry ::= (fun n => u16 (n + 1))}) ;;
    mret true
  else mret false.

Section Mqueue.
Variables (prio_max : Z) (cfg : rt_config) (RT_NAME_MAX : nat) (rt_malloc : Z -> kernel -> option objid).
Variables (pool_malloc : Z -> kernel -> option (list Z)) (word_size align : Z).
Variables (level : nat) (mask : Z) (soft : bool) (timer_thread : Z).

(** [RT_ALIGN(msg_size, RT_ALIGN_SIZE)], and the size of a block with its link. *)
Definition msg_align_size (size : Z) : Z := Z.land (wrap (8 * word_size) (size + align - 1)) (Z.lnot (align - 1)).
Definition block_size (size : Z) : Z := wrap (8 * word_size) (msg_align_size size + word_size).

(** The block number [i] of the pool: the bytes behind the link. *)
Definition pool_block (pool : list Z) (size : Z) (i : nat) : rt_mq_message :=
  {| msg_next := None; msg_data := take (Z.to_nat (msg_align_size size)) (drop (i * Z.to_nat (block_size size) + Z.to_nat word_size) pool) |}.

(** The loop that links the blocks into the free list, from block [i] on. *)
Fixpoint free_list_loop (n : nat) (mq i : Z) : K unit :=
  match n with
  | O => mret tt
  | S n' =>
      q ← messagequeue mq;
      set_next mq (Some i) (msg_queue_free q) ;;
      set_messagequeue mq (fun q => {q with msg_queue_free := Some i}) ;;
      free_list_loop n' mq (i + 1)
  end.

Definition mq_free_list (mq : Z) : K unit :=
  set_messagequeue mq (fun q => {q with msg_queue_head := None; msg_queue_tail := None; msg_queue_free := None}) ;;
  q ← messagequeue mq;
  free_list_loop (Z.to_nat (max_msgs q)) mq 0 ;;
  set_messagequeue mq (fun q => {q with mq_entry := 0}) ;;
  on_list (rt_list_init (SenderHead mq)).

(** The blocks of the pool's memory. *)
Definition set_pool (mq size : Z) (pool : list Z) : K unit :=
  set_messagequeue mq (fun q => {q with mq_pool := pool_block pool size <$> seq 0 (length pool / Z.to_nat (block_size size))}).

Definition rt_mq_init (mq : Z) (name : list Z) (msgpool : list Z) (size pool_size flag : Z) : K Z :=
  assert_flag flag ;;
  rt_object_init prio_max cfg RT_NAME_MAX (OOther mq) RT_Object_Class_MessageQueue name ;;
  set_ipc_flag mq flag ;;
  ipc_object_init mq ;;
  (if block_size size =? 0 then undef "division by zero" else mret tt) ;;
  let n := u16 (pool_size / block_size size) in
  set_messagequeue mq (fun q => {q with msg_size := u16 size; max_msgs := n}) ;;
  set_pool mq size msgpool ;;
  if n =? 0 then mret (- RT_EINVAL)
  else
    mq_free_list mq ;;
    mret RT_EOK.

Definition rt_mq_detach (mq : Z) : K Z :=
  assert_static mq RT_Object_Class_MessageQueue true ;;
  ipc_list_resume_all prio_max level (SuspendHead mq) ;;
  ipc_list_resume_all prio_max level (SenderHead mq) ;;
  rt_object_detach (OOther mq) ;;
  mret RT_EOK.

Definition rt_mq_create (name : list Z) (size msgs flag : Z) : K (option Z) :=
  assert_flag flag ;;
  o ← rt_object_allocate cfg RT_NAME_MAX rt_malloc RT_Object_Class_MessageQueue name;
  match o with
  | None => mret None
  | Some (OOther mq) =>
      set_ipc_flag mq flag ;;
      ipc_object_init mq ;;
      set_messagequeue mq (fun q => {q with msg_size := u16 size; max_msgs := u16 msgs}) ;;
      k ← get;
      match pool_malloc (wrap (8 * word_size) (block_size size * u16 msgs)) k with
      | None => rt_object_delete (OOther mq) ;; mret None
      | Some pool =>
          set_pool mq size pool ;;
          mq_free_list mq ;;
          mret (Some mq)
      end
  | Some _ => undef "a block that is not a message queue"
  end.

Definition rt_mq_delete (mq : Z) : K Z :=
  assert_static mq RT_Object_Class_MessageQueue false ;;
  ipc_list_resume_all prio_max level (SuspendHead mq) ;;
  ipc_list_resume_all prio_max level (SenderHead mq) ;;
  set_messagequeue mq (fun q => {q with mq_pool := [] }) ;;
  rt_object_delete (OOther mq) ;;
  mret RT_EOK.

(** The free message [msg] leaves the free list and gets its content. *)
Definition mq_fill (mq : Z) (msg : option Z) (buffer : list Z) (size : Z) (last : bool) : K unit :=
  q ← messagequeue mq;
  m ← message q msg;
  set_messagequeue mq (fun q => {q with msg_queue_free := msg_next m}) ;;
  when last (set_next mq msg None) ;;
  q ← messagequeue mq;
  m ← message q msg;
  data ← rt_memcpy (msg_data m) buffer size;
  set_message mq msg (fun m => {m with msg_data := data}).

(** A message is appended to a queue that has a free one. *)
Definition mq_put (mq : Z) (msg : option Z) (buffer : list Z) (size : Z) : K Z :=
  mq_fill mq msg buffer size true ;;
  q ← messagequeue mq;
  when (bool_decide (msg_queue_tail q <> None)) (set_next mq (msg_queue_tail q) msg) ;;
  set_messagequeue mq (fun q => {q with msg_queue_tail := msg}) ;;
  when (bool_decide (msg_queue_head q = None)) (set_messagequeue mq (fun q => {q with msg_queue_head := msg})) ;;
  ok ← mq_count mq;
  if ok : bool then resume_receiver prio_max level (SuspendHead mq) else mret (- RT_EFULL).

Definition mq_send_loop (mq t : Z) (buffer : list Z) (size timeout suspend_flag : Z) : K (waiting Z) :=
  q ← messagequeue mq;
  if bool_decide (msg_queue_free q = None) then
    set_error t (- RT_EINTR) ;;
    if timeout =? 0 then mret (Returns (- RT_EFULL))
    else wait_round prio_max level mask soft timer_thread (SenderHead mq) mq t timeout suspend_flag (fun ret => ret)
  else r ← mq_put mq (msg_queue_free q) buffer size; mret (Returns r).

Definition rt_mq_send_wait_ (mq : Z) (buffer : list Z) (size timeout suspend_flag : Z) : K (waiting Z) :=
  assert_class mq RT_Object_Class_MessageQueue ;;
  assert_that (negb (size =? 0)) "size != 0" ;;
  debug_scheduler_available (negb (timeout =? 0)) ;;
  q ← messagequeue mq;
  if msg_size q <? size then mret (Returns (- RT_ERROR))
  else if bool_decide (msg_queue_free q = None) && (timeout =? 0) then mret (Returns (- RT_EFULL))
  else if bool_decide (msg_queue_free q = None) then
    t ← current;
    mq_send_loop mq t buffer size timeout suspend_flag
  else r ← mq_put mq (msg_queue_free q) buffer size; mret (Returns r).

Definition rt_mq_send_return (mq t : Z) (buffer : list Z) (size timeout tick_delta suspend_flag : Z) : K (waiting Z) :=
  x ← thread t;
  if negb (th_error x =? RT_EOK) then mret (Returns (th_error x))
  else
    timeout ← time_left timeout tick_delta;
    mq_send_loop mq t buffer size timeout suspend_flag.

Definition rt_mq_send_wait (mq : Z) (buffer : list Z) (size timeout : Z) : K (waiting Z) := rt_mq_send_wait_ mq buffer size timeout RT_UNINTERRUPTIBLE.
Definition rt_mq_send_wait_interruptible (mq : Z) (buffer : list Z) (size timeout : Z) : K (waiting Z) := rt_mq_send_wait_ mq buffer size timeout RT_INTERRUPTIBLE.
Definition rt_mq_send_wait_killable (mq : Z) (buffer : list Z) (size timeout : Z) : K (waiting Z) := rt_mq_send_wait_ mq buffer size timeout RT_KILLABLE.
Definition rt_mq_send (mq : Z) (buffer : list Z) (size : Z) : K (waiting Z) := rt_mq_send_wait mq buffer size 0.
Definition rt_mq_send_interrupt (mq : Z) (buffer : list Z) (size : Z) : K (waiting Z) := rt_mq_send_wait_interruptible mq buffer size 0.
Definition rt_mq_send_killable (mq : Z) (buffer : list Z) (size : Z) : K (waiting Z) := rt_mq_send_wait_killable mq buffer size 0.

Definition rt_mq_urgent (mq : Z) (buffer : list Z) (size : Z) : K Z :=
  assert_class mq RT_Object_Class_MessageQueue ;;
  assert_that (negb (size =? 0)) "size != 0" ;;
  q ← messagequeue mq;
  if msg_size q <? size then mret (- RT_ERROR)
  else if bool_decide (msg_queue_free q = None) then mret (- RT_EFULL)
  else
    let msg := msg_queue_free q in
    mq_fill mq msg buffer size false ;;
    q ← messagequeue mq;
    set_next mq msg (msg_queue_head q) ;;
    set_messagequeue mq (fun q => {q with msg_queue_head := msg}) ;;
    when (bool_decide (msg_queue_tail q = None)) (set_messagequeue mq (fun q => {q with msg_queue_tail := msg})) ;;
    ok ← mq_count mq;
    if ok : bool then resume_receiver prio_max level (SuspendHead mq) else mret (- RT_EFULL).

(** The first message leaves the queue. *)
Definition mq_unlink (mq : Z) : K (option Z) :=
  q ← messagequeue mq;
  let msg := msg_queue_head q in
  m ← message q msg;
  set_messagequeue mq (fun q => {q with msg_queue_head := msg_next m}) ;;
  when (bool_decide (msg_queue_tail q = msg)) (set_messagequeue mq (fun q => {q with msg_queue_tail := None})) ;;
  mret msg.

(** The message joins the free list. *)
Definition mq_release (mq : Z) (msg : option Z) : K unit :=
  q ← messagequeue mq;
  set_next mq msg (msg_queue_free q) ;;
  set_messagequeue mq (fun q => {q with msg_queue_free := msg}).

(** A message is taken out of a queue that is not empty: the error and the content of the
    buffer. *)
Definition mq_take (mq : Z) (buffer : list Z) (size : Z) : K (Z * list Z) :=
  msg ← mq_unlink mq;
  q ← messagequeue mq;
  when (0 <? mq_entry q) (set_messagequeue mq (fun q => {q with mq_entry ::= (fun n => u16 (n - 1))})) ;;
  m ← message q msg;
  buffer ← rt_memcpy buffer (msg_data m) (if msg_size q <? size then msg_size q else size);
  mq_release mq msg ;;
  err ← resume_receiver prio_max level (SenderHead mq);
  mret (err, buffer).

Definition mq_recv_loop (mq t : Z) (buffer : list Z) (size timeout suspend_flag : Z) : K (waiting (Z * list Z)) :=
  q ← messagequeue mq;
  if mq_entry q =? 0 then
    set_error t (- RT_EINTR) ;;
    if timeout =? 0 then
      set_error t (- RT_ETIMEOUT) ;;
      mret (Returns (- RT_ETIMEOUT, buffer))
    else wait_round prio_max level mask soft timer_thread (SuspendHead mq) mq t timeout suspend_flag (fun ret => (ret, buffer))
  else r ← mq_take mq buffer size; mret (Returns r).

Definition rt_mq_recv_ (mq : Z) (buffer : list Z) (size timeout suspend_flag : Z) : K (waiting (Z * list Z)) :=
  assert_class mq RT_Object_Class_MessageQueue ;;
  assert_that (negb (size =? 0)) "size != 0" ;;
  debug_scheduler_available (negb (timeout =? 0)) ;;
  q ← messagequeue mq;
  if (mq_entry q =? 0) && (timeout =? 0) then mret (Returns (- RT_ETIMEOUT, buffer))
  else if mq_entry q =? 0 then
    t ← current;
    mq_recv_loop mq t buffer size timeout suspend_flag
  else r ← mq_take mq buffer size; mret (Returns r).

Definition rt_mq_recv_return (mq t : Z) (buffer : list Z) (size timeout tick_delta suspend_flag : Z) : K (waiting (Z * list Z)) :=
  x ← thread t;
  if negb (th_error x =? RT_EOK) then mret (Returns (th_error x, buffer))
  else
    timeout ← time_left timeout tick_delta;
    mq_recv_loop mq t buffer size timeout suspend_flag.

Definition rt_mq_recv (mq : Z) (buffer : list Z) (size timeout : Z) : K (waiting (Z * list Z)) := rt_mq_recv_ mq buffer size timeout RT_UNINTERRUPTIBLE.
Definition rt_mq_recv_interruptible (mq : Z) (buffer : list Z) (size timeout : Z) : K (waiting (Z * list Z)) := rt_mq_recv_ mq buffer size timeout RT_INTERRUPTIBLE.
Definition rt_mq_recv_killable (mq : Z) (buffer : list Z) (size timeout : Z) : K (waiting (Z * list Z)) := rt_mq_recv_ mq buffer size timeout RT_KILLABLE.

(** The loop of RT_IPC_CMD_RESET. *)
Fixpoint mq_flush_loop (fuel : nat) (mq : Z) : K unit :=
  q ← messagequeue mq;
  if bool_decide (msg_queue_head q = None) then mret tt
  else match fuel with
  | O => undef "a list that does not end"
  | S fuel' =>
      msg ← mq_unlink mq;
      mq_release mq msg ;;
      mq_flush_loop fuel' mq
  end.

Definition rt_mq_control (mq : Z) (cmd : ipc_cmd) : K Z :=
  assert_class mq RT_Object_Class_MessageQueue ;;
  match cmd with
  | RT_IPC_CMD_RESET _ =>
      ipc_list_resume_all prio_max level (SuspendHead mq) ;;
      ipc_list_resume_all prio_max level (SenderHead mq) ;;
      q ← messagequeue mq;
      mq_flush_loop (length (mq_pool q)) mq ;;
      set_messagequeue mq (fun q => {q with mq_entry := 0}) ;;
      rt_schedule prio_max ;;
      mret RT_EOK
  | RT_IPC_CMD_OTHER => mret (- RT_ERROR)
  end.
End Mqueue.
