(* ===== verification/RtMqFacts.v ===== *)
(** * RT-Thread: a message queue is a bounded queue of blocks of bytes

    [queued q msgs]: the messages [msgs] are in the queue, the oldest first; the blocks of
    the pool are those of the queue's list and those of the free list, each in one of them. *)
From S2P Require Import Prelude Outcome RtList RtKernel RtSched RtObject RtTimer RtThread RtTimerStart RtTimerFacts.
From S2P Require Import RtSchedFacts RtSchedRun RtWorld RtIpc RtWorldOps RtWait RtWorldSched RtBlock RtSem RtMailbox RtMailFacts RtMqueue.
#[local] Open Scope string_scope.
#[local] Open Scope list_scope.
#[local] Open Scope Z_scope.

(** ** Lists of messages *)

Abbreviation pool := (list rt_mq_message).

Definition at_ (p : pool) (i : Z) (m : rt_mq_message) : Prop := zlookup p i = Some m.
Definition change_msg (i : Z) (m : rt_mq_message) (p : pool) : pool := <[Z.to_nat i := m]> p.

(** The messages with the numbers [l] are linked in this order and contain [ds]. *)
Record msg_list (p : pool) (l : list Z) (ds : list (list Z)) : Prop := {
  li_length : length ds = length l;
  li_at : forall j i, l !! j = Some i -> exists m, at_ p i m /\ msg_next m = l !! S j /\ ds !! j = Some (msg_data m);
}.

Lemma at_change_same p i m m' : at_ p i m -> at_ (change_msg i m' p) i m'.
Proof.
  unfold at_. intros [Hi H]%zlookup_some. apply zlookup_some. split; [done|]. apply list_lookup_insert_eq. by apply lookup_lt_Some in H.
Qed.
Lemma at_change_other p i j m m' m0 : at_ p i m0 -> i <> j -> at_ p j m -> at_ (change_msg i m' p) j m.
Proof.
  unfold at_, change_msg. intros [Hi _]%zlookup_some Hne [Hj H]%zlookup_some. apply zlookup_some. split; [done|].
  rewrite list_lookup_insert_ne by lia. done.
Qed.
Lemma at_fun p i m m' : at_ p i m -> at_ p i m' -> m = m'.
Proof. unfold at_. congruence. Qed.

Lemma msg_list_nil p : msg_list p [] [].
Proof. by split. Qed.

Lemma msg_list_change p l ds i m0 m : at_ p i m0 -> i ∉ l -> msg_list p l ds -> msg_list (change_msg i m p) l ds.
Proof.
  intros Hi Hn [H1 H2]. split; [done|]. intros j a Ha. destruct (H2 j a Ha) as (m1 & Hm & Hnx & Hd).
  exists m1. split; [|done]. eapply at_change_other; [done| |done]. intros <-. by apply list_elem_of_lookup_2 in Ha.
Qed.

Lemma msg_list_cons_inv p i l d ds : msg_list p (i :: l) (d :: ds) -> msg_list p l ds /\ exists m, at_ p i m /\ msg_next m = head l /\ msg_data m = d.
Proof.
  intros [H1 H2]. split.
  - split; [by injection H1|]. intros j a Ha. exact (H2 (S j) a Ha).
  - destruct (H2 0%nat i eq_refl) as (m & Hm & Hn & Hd). exists m. split; [done|]. split; [by rewrite Hn; destruct l|]. by injection Hd.
Qed.

Lemma msg_list_cons p i l d ds : msg_list p l ds -> at_ p i {| msg_next := head l; msg_data := d |} -> msg_list p (i :: l) (d :: ds).
Proof.
  intros [H1 H2] Hi. split; [cbn; by rewrite H1|]. intros [|j] a Ha; [|exact (H2 j a Ha)].
  injection Ha as <-. eexists. split; [exact Hi|]. by destruct l.
Qed.

(** The message [n] follows the last one. *)
Definition link_last (l : list Z) (n : Z) (dt : list Z) (p : pool) : pool :=
  match last l with Some t => change_msg t {| msg_next := Some n; msg_data := dt |} p | None => p end.

Lemma msg_list_snoc p l ds n d dt :
  msg_list p l ds -> at_ p n {| msg_next := None; msg_data := d |} -> NoDup (l ++ [n]) -> (forall t, last l = Some t -> last ds = Some dt) ->
  msg_list (link_last l n dt p) (l ++ [n]) (ds ++ [d]).
Proof.
  intros [H1 H2] Hn Hnd Hdt. split; [by rewrite !length_app, H1|].
  assert (forall m a, at_ p a m -> last l <> Some a -> at_ (link_last l n dt p) a m) as Hkeep.
  { intros m a Ha Hne. unfold link_last. destruct (last l) as [t|] eqn:Et; [|done]. rewrite last_lookup in Et. destruct (H2 _ _ Et) as (mt & Hmt & _).
    eapply at_change_other; [done|congruence|done]. }
  intros j a Ha. destruct (decide (j < length l)%nat) as [Hj|Hj].
  - rewrite lookup_app_l in Ha by done. destruct (H2 j a Ha) as (m & Hm & Hnx & Hd). destruct (decide (S j = length l)) as [E|E].
    + assert (last l = Some a) as Hl by (rewrite last_lookup, <- E; exact Ha). specialize (Hdt a Hl).
      exists {| msg_next := Some n; msg_data := dt |}. split; [|split].
      * unfold link_last. rewrite Hl. by eapply at_change_same.
      * cbn. rewrite lookup_app_r by lia. by rewrite E, Nat.sub_diag.
      * rewrite last_lookup, H1, <- E in Hdt. cbn in Hdt |- *. rewrite lookup_app_l by lia. exact Hdt.
    + exists m. split; [|split].
      * apply Hkeep; [done|]. rewrite last_lookup. intros Hl. apply NoDup_app in Hnd as (Hnd & _ & _).
        pose proof (NoDup_lookup _ _ _ _ Hnd Ha Hl). lia.
      * rewrite Hnx. by rewrite lookup_app_l by lia.
      * by rewrite lookup_app_l by lia.
  - assert (j = length l) as -> by (apply lookup_lt_Some in Ha; rewrite length_app in Ha; cbn in Ha; lia).
    rewrite list_lookup_middle in Ha by done. injection Ha as <-. exists {| msg_next := None; msg_data := d |}. split; [|split].
    + apply Hkeep; [done|]. intros Hl. rewrite last_lookup in Hl. apply list_elem_of_lookup_2 in Hl. apply NoDup_app in Hnd as (_ & Hd & _). apply (Hd n); [done|by left].
    + cbn. by rewrite lookup_ge_None_2 by (rewrite length_app; cbn; lia).
    + by rewrite list_lookup_middle by done.
Qed.

(** ** The queue *)

Record layout (q : rt_messagequeue) (used free : list Z) (msgs fmsgs : list (list Z)) : Prop := {
  ly_used : msg_list (mq_pool q) used msgs;
  ly_free : msg_list (mq_pool q) free fmsgs;
  ly_nodup : NoDup (used ++ free);
  ly_head : msg_queue_head q = head used;
  ly_tail : msg_queue_tail q = last used;
  ly_first : msg_queue_free q = head free;
  ly_entry : mq_entry q = Z.of_nat (length used);
  ly_bound : Z.of_nat (length used + length free) <= 0xffff;
  ly_size : 0 <= msg_size q;
  ly_data : Forall (fun m => msg_size q <= Z.of_nat (length (msg_data m))) (mq_pool q);
}.

(** [msgs] are queued, and [n] blocks are free. *)
Definition queued (q : rt_messagequeue) (msgs : list (list Z)) (n : nat) : Prop :=
  exists used free fmsgs, layout q used free msgs fmsgs /\ length free = n.

Lemma at_data q i m : Forall (fun m => msg_size q <= Z.of_nat (length (msg_data m))) (mq_pool q) -> at_ (mq_pool q) i m ->
  msg_size q <= Z.of_nat (length (msg_data m)).
Proof. intros HF [_ Hm]%zlookup_some. by eapply (Forall_lookup_1 _ _ _ _ HF). Qed.

Lemma data_change p i m (P : rt_mq_message -> Prop) : Forall P p -> P m -> Forall P (change_msg i m p).
Proof. intros HF Hm. by apply Forall_insert. Qed.

(** ** Runs *)

Definition with_mq (i : Z) (q : rt_messagequeue) (k : kernel) : kernel := {k with messagequeues ::= <[i := q]> }.

Lemma mq_with i q k : messagequeue i (with_mq i q k) = Ok (q, with_mq i q k).
Proof. apply load_run. apply lookup_insert_eq. Qed.
Lemma set_mq_with i f q k : set_messagequeue i f (with_mq i q k) = Ok (tt, with_mq i (f q) k).
Proof.
  unfold set_messagequeue. rewrite (store_run _ _ _ i f _ q) by apply lookup_insert_eq.
  change (Ok (tt, {k with messagequeues := <[i := f q]> (<[i := q]> (messagequeues k)) }) = Ok (tt, {k with messagequeues := <[i := f q]> (messagequeues k)})).
  by rewrite insert_insert_eq.
Qed.
Lemma with_mq_id i q k : messagequeues k !! i = Some q -> with_mq i q k = k.
Proof. intros E. unfold with_mq. destruct k. cbn in *. by rewrite insert_id. Qed.

Lemma message_run q n m k : at_ (mq_pool q) n m -> message q (Some n) k = Ok (m, k).
Proof. unfold at_. intros E. cbn [message]. by rewrite E. Qed.

Lemma set_message_with i n m f q k : at_ (mq_pool q) n m ->
  set_message i (Some n) f (with_mq i q k) = Ok (tt, with_mq i {q with mq_pool ::= change_msg n (f m)} k).
Proof. intros Hm. unfold set_message. step (apply mq_with). step (by apply message_run). apply set_mq_with. Qed.

Lemma memcpy_run dst src n k : 0 <= n -> n <= Z.of_nat (length dst) -> n <= Z.of_nat (length src) ->
  rt_memcpy dst src n k = Ok (take (Z.to_nat n) src ++ drop (Z.to_nat n) dst, k).
Proof. intros Hn Hd Hs. unfold rt_memcpy. by rewrite !(proj2 (Z.leb_le _ _)) by done. Qed.

(** What a block contains once [size] bytes of the buffer were copied to it. *)
Definition filled (size : Z) (buffer old : list Z) : list Z := take (Z.to_nat size) buffer ++ drop (Z.to_nat size) old.

Lemma filled_length size buffer old : 0 <= size <= Z.of_nat (length buffer) -> size <= Z.of_nat (length old) -> length (filled size buffer old) = length old.
Proof. intros Hs Ho. unfold filled. rewrite length_app, length_take, length_drop. lia. Qed.

Definition fill (q : rt_messagequeue) (n : Z) (m : rt_mq_message) (last : bool) (data : list Z) : rt_messagequeue :=
  {q with msg_queue_free := msg_next m; mq_pool ::= change_msg n {| msg_next := if last then None else msg_next m; msg_data := data |} }.

Lemma mq_fill_run i n m buffer size last q k :
  at_ (mq_pool q) n m -> 0 <= size <= Z.of_nat (length buffer) -> size <= Z.of_nat (length (msg_data m)) ->
  mq_fill i (Some n) buffer size last (with_mq i q k) = Ok (tt, with_mq i (fill q n m last (filled size buffer (msg_data m))) k).
Proof.
  intros Hm Hs Hd. unfold mq_fill. step (apply mq_with). step (by apply message_run). step (apply set_mq_with).
  set (q1 := {q with msg_queue_free := msg_next m}). assert (at_ (mq_pool q1) n m) as Hm1 by done. destruct last; cbn [when].
  - step (by eapply set_message_with). set (m2 := {m with msg_next := None}). set (q2 := {q1 with mq_pool ::= change_msg n m2}).
    assert (at_ (mq_pool q2) n m2) as Hm2 by (by eapply at_change_same). step (apply mq_with). step (by apply message_run).
    step (apply memcpy_run; [lia|exact Hd|lia]). rewrite (set_message_with _ _ m2) by done. do 3 f_equal.
    unfold q2, fill. destruct q. unfold q1. cbn. unfold change_msg. by rewrite list_insert_insert_eq.
  - step (reflexivity). step (apply mq_with). step (by apply message_run).
    step (apply memcpy_run; [lia|exact Hd|lia]). by rewrite (set_message_with _ _ m).
Qed.

Definition put_last (q : rt_messagequeue) (used : list Z) (n : Z) (m : rt_mq_message) (data dt : list Z) : rt_messagequeue :=
  {| mq_pool := link_last used n dt (change_msg n {| msg_next := None; msg_data := data |} (mq_pool q)); msg_size := msg_size q; max_msgs := max_msgs q;
     mq_entry := u16 (mq_entry q + 1); msg_queue_head := match msg_queue_head q with None => Some n | h => h end; msg_queue_tail := Some n;
     msg_queue_free := msg_next m |}.

Lemma mq_count_run i q k : mq_entry q < 0xffff -> mq_count i (with_mq i q k) = Ok (true, with_mq i {q with mq_entry ::= (fun n => u16 (n + 1))} k).
Proof.
  intros He. unfold mq_count. step (apply mq_with). unfold RT_MQ_ENTRY_MAX. rewrite (proj2 (Z.ltb_lt _ _)) by done. by step (apply set_mq_with).
Qed.

Section MqFacts.
Variables (prio_max : Z) (mask : Z) (soft : bool) (timer_thread : Z).
Context (Hmax : 0 < prio_max <= 256).
Abbreviation runs := (runs prio_max).
Abbreviation ready := (ready prio_max).
Abbreviation received := (received prio_max).
Abbreviation waits_in := (waits_in prio_max).

Lemma mq_put_run i q used n free msgs d0 fmsgs buffer size k :
  layout q used (n :: free) msgs (d0 :: fmsgs) -> 0 <= size <= Z.of_nat (length buffer) -> size <= msg_size q ->
  exists q', mq_put prio_max 1 i (Some n) buffer size (with_mq i q k) = resume_receiver prio_max 1 (SuspendHead i) (with_mq i q' k) /\
    layout q' (used ++ [n]) free (msgs ++ [filled size buffer d0]) fmsgs /\ msg_size q' = msg_size q.
Proof using Type.
  clear Hmax. intros [Hu Hf Hnd Hh Ht Hfr He Hb Hsz Hda] Hs Hle. destruct (msg_list_cons_inv _ _ _ _ _ Hf) as [Hf' (m & Hm & Hnx & <-)].
  pose proof (at_data q n m Hda Hm) as Hlen. set (D := filled size buffer (msg_data m)).
  set (dt := default [] (last msgs)). set (q1 := fill q n m true D). set (q' := put_last q used n m D dt). exists q'.
  assert (NoDup (used ++ [n])) as Hnd1.
  { assert (used ++ (n :: free) = (used ++ [n]) ++ free) as E by (by rewrite <- app_assoc). rewrite E in Hnd. by apply NoDup_app in Hnd as (? & _ & _). }
  assert ((n ∉ used) /\ (n ∉ free)) as [Hnu Hnf].
  { apply NoDup_app in Hnd as (_ & Hd & [Hn _]%NoDup_cons). split; [|done]. intros Hin. apply (Hd n Hin). by left. }
  assert (msg_list (mq_pool q1) used msgs) as Hu1 by (by eapply msg_list_change).
  assert (at_ (mq_pool q1) n {| msg_next := None; msg_data := D |}) as Hn1 by (by eapply at_change_same).
  assert (forall t, last used = Some t -> last msgs = Some dt) as Hdt.
  { intros t E. unfold dt. destruct (last msgs) eqn:E2; [done|]. apply last_None in E2. subst. destruct Hu as [Hl _]. by destruct used. }
  split; [|split; [split|done]]; try done.
  - unfold mq_put. step (by eapply mq_fill_run; [exact Hm|done|lia]). fold D q1. step (apply mq_with).
    change (msg_queue_tail q1) with (msg_queue_tail q). rewrite Ht. cbn [length] in Hb. destruct (last used) as [t|] eqn:El.
    + pose proof (Hdt t eq_refl) as Hlast. rewrite last_lookup in El. rewrite last_lookup in Hlast. destruct (li_at _ _ _ Hu1 _ _ El) as (mt & Hmt & _ & Hdt').
      rewrite <- (li_length _ _ _ Hu1) in Hdt'. assert (msg_data mt = dt) as Hmd by congruence. rewrite (bool_decide_eq_true_2 (Some t <> None)) by congruence. cbn [when].
      step (by eapply set_message_with; exact Hmt). step (apply set_mq_with). rewrite bool_decide_eq_false_2.
      2:{ change (msg_queue_head q <> None). rewrite Hh. destruct used; done. }
      cbn [when]. step (reflexivity). step (apply mq_count_run; change (mq_entry q < 0xffff); lia). do 2 f_equal.
      unfold q', put_last, link_last, q1, fill. rewrite last_lookup, El, Hh. rewrite <- Hmd.
      destruct used; [done|]. destruct q; cbn in *. by rewrite Hh.
    + apply last_None in El as ->. rewrite (bool_decide_eq_false_2 ((None : option Z) <> None)) by (intros HN; by apply HN). cbn [when]. step (reflexivity). step (apply set_mq_with).
      rewrite bool_decide_eq_true_2 by (exact Hh). cbn [when]. step (apply set_mq_with). step (apply mq_count_run; change (mq_entry q < 0xffff); lia). do 2 f_equal.
      unfold q', put_last, link_last, q1, fill. rewrite Hh. by destruct q.
  - by apply msg_list_snoc.
  - change (mq_pool q') with (link_last used n dt (mq_pool q1)). assert (msg_list (mq_pool q1) free fmsgs) as Hf1 by (by eapply msg_list_change).
    unfold link_last. destruct (last used) as [t|] eqn:El; [|done]. rewrite last_lookup in El. destruct (li_at _ _ _ Hu1 _ _ El) as (mt & Hmt & _).
    eapply msg_list_change; [exact Hmt| |done]. intros Hin. apply list_elem_of_lookup_2 in El. apply NoDup_app in Hnd as (_ & Hd & _). apply (Hd t El). by right.
  - by rewrite <- app_assoc.
  - cbn. rewrite Hh. by destruct used.
  - cbn. by rewrite last_snoc.
  - rewrite length_app. cbn. rewrite He. cbn in Hb. rewrite (wrap_small 16) by (unfold in_u; lia). lia.
  - rewrite length_app. cbn in *. lia.
  - change (Forall (fun m => msg_size q <= Z.of_nat (length (msg_data m))) (link_last used n dt (mq_pool q1))).
    assert (Forall (fun m => msg_size q <= Z.of_nat (length (msg_data m))) (mq_pool q1)) as Hda1.
    { apply data_change; [done|]. cbn. unfold D. rewrite filled_length by lia. done. }
    unfold link_last. destruct (last used) as [t|] eqn:El; [|done]. apply data_change; [done|]. cbn.
    specialize (Hdt t eq_refl). rewrite last_lookup in El. rewrite last_lookup in Hdt. destruct Hu1 as [Hl1 Hu1]. destruct (Hu1 _ _ El) as (mt & Hmt & _ & Hd).
    rewrite Hl1 in Hdt. assert (msg_data mt = dt) as <- by congruence. by eapply (at_data q1).
Qed.

(** The result of rt_mq_urgent for the free block [n]. *)
Definition put_first (q : rt_messagequeue) (n : Z) (next : option Z) (data : list Z) : rt_messagequeue :=
  {| mq_pool := change_msg n {| msg_next := msg_queue_head q; msg_data := data |} (mq_pool q); msg_size := msg_size q; max_msgs := max_msgs q;
     mq_entry := u16 (mq_entry q + 1); msg_queue_head := Some n; msg_queue_tail := match msg_queue_tail q with None => Some n | t => t end;
     msg_queue_free := next |}.

Lemma put_first_layout q used n free msgs d0 fmsgs data next :
  layout q used (n :: free) msgs (d0 :: fmsgs) -> length data = length d0 -> next = head free ->
  layout (put_first q n next data) (n :: used) free (data :: msgs) fmsgs.
Proof using Type.
  clear Hmax. intros [Hu Hf Hnd Hh Ht Hfr He Hb Hsz Hda] Hdl ->. destruct (msg_list_cons_inv _ _ _ _ _ Hf) as [Hf' (m & Hm & Hnx & <-)].
  pose proof (at_data q n m Hda Hm) as Hlen. assert ((n ∉ used) /\ (n ∉ free)) as [Hnu Hnf].
  { apply NoDup_app in Hnd as (_ & Hd & [Hn _]%NoDup_cons). split; [|done]. intros Hin. apply (Hd n Hin). by left. }
  split; cbn [put_first mq_pool msg_queue_head msg_queue_tail msg_queue_free mq_entry msg_size length] in *; try done.
  - apply msg_list_cons; [by eapply msg_list_change|]. rewrite <- Hh. by eapply at_change_same.
  - by eapply msg_list_change.
  - by rewrite <- Permutation_middle in Hnd.
  - rewrite Ht. destruct used as [|a used]; [done|]. rewrite last_cons_cons. destruct (last (a :: used)) eqn:E; [done|]. by apply last_None in E.
  - rewrite He, (wrap_small 16) by (unfold in_u; lia). lia.
  - lia.
  - apply data_change; [done|]. cbn. by rewrite Hdl.
Qed.

Lemma mq_urgent_run i q used n free msgs d0 fmsgs flag buffer size k :
  layout q used (n :: free) msgs (d0 :: fmsgs) -> 0 < size <= Z.of_nat (length buffer) -> size <= msg_size q ->
  ipc_at k i RT_Object_Class_MessageQueue flag ->
  exists q', rt_mq_urgent prio_max 1 i buffer size (with_mq i q k) = resume_receiver prio_max 1 (SuspendHead i) (with_mq i q' k) /\
    layout q' (n :: used) free (filled size buffer d0 :: msgs) fmsgs /\ msg_size q' = msg_size q.
Proof using Type.
  clear Hmax. intros Hl Hs Hle Ho. pose proof Hl as [Hu Hf Hnd Hh Ht Hfr He Hb Hsz Hda]. destruct (msg_list_cons_inv _ _ _ _ _ Hf) as [Hf' (m & Hm & Hnx & Hd0)].
  subst d0. pose proof (at_data q n m Hda Hm) as Hlen. set (D := filled size buffer (msg_data m)).
  exists (put_first q n (msg_next m) D). split; [|split; [apply (put_first_layout q used n free msgs (msg_data m)); [done|by apply filled_length; lia|done]|done]].
  unfold rt_mq_urgent. step (by eapply assert_class_run). step (by rewrite (proj2 (Z.eqb_neq _ _)) by lia; reflexivity). step (apply mq_with).
  rewrite (proj2 (Z.ltb_ge _ _)) by done. rewrite Hfr. change (bool_decide (head (n :: free) = None)) with false. cbv iota. change (head (n :: free)) with (Some n).
  step (by eapply mq_fill_run; [exact Hm|lia|lia]). fold D. step (apply mq_with). set (q1 := fill q n m false D).
  assert (at_ (mq_pool q1) n {| msg_next := msg_next m; msg_data := D |}) as Hn1 by (by eapply at_change_same).
  step (by eapply set_message_with; exact Hn1). step (apply set_mq_with). cbn [length] in Hb.
  assert (forall q2, mq_entry q2 = mq_entry q -> mq_entry q2 < 0xffff) as Hroom by (intros q2 ->; lia).
  match goal with |- context [bool_decide (msg_queue_tail ?q1 = None)] => change (bool_decide (msg_queue_tail q1 = None)) with (bool_decide (msg_queue_tail q = None)) end.
  destruct (msg_queue_tail q) as [t|] eqn:Et.
  - rewrite (bool_decide_eq_false_2 (Some t = None)) by done. cbn [when]. step (reflexivity). step (by apply mq_count_run, Hroom). do 2 f_equal.
    unfold put_first, q1, fill. destruct q; cbn in *. unfold change_msg. by rewrite list_insert_insert_eq, Et.
  - change (bool_decide (None = None)) with true. cbn [when]. step (apply set_mq_with). step (by apply mq_count_run, Hroom). do 2 f_equal.
    unfold put_first, q1, fill. destruct q; cbn in *. unfold change_msg. by rewrite list_insert_insert_eq, Et.
Qed.

(** The result of a receive of the message [n]. *)
Definition take_first (q : rt_messagequeue) (n : Z) (next : option Z) (data : list Z) : rt_messagequeue :=
  {| mq_pool := change_msg n {| msg_next := msg_queue_free q; msg_data := data |} (mq_pool q); msg_size := msg_size q; max_msgs := max_msgs q;
     mq_entry := u16 (mq_entry q - 1); msg_queue_head := next; msg_queue_tail := if bool_decide (msg_queue_tail q = Some n) then None else msg_queue_tail q;
     msg_queue_free := Some n |}.

Lemma take_first_layout q n used free d msgs fmsgs :
  layout q (n :: used) free (d :: msgs) fmsgs -> layout (take_first q n (head used) d) used (n :: free) msgs (d :: fmsgs).
Proof using Type.
  clear Hmax. intros [Hu Hf Hnd Hh Ht Hfr He Hb Hsz Hda]. destruct (msg_list_cons_inv _ _ _ _ _ Hu) as [Hu' (m & Hm & Hnx & <-)].
  pose proof (at_data q n m Hda Hm) as Hlen. cbn [app] in Hnd. apply NoDup_cons in Hnd as [Hn Hnd]. rewrite elem_of_app in Hn.
  split; cbn [take_first mq_pool msg_queue_head msg_queue_tail msg_queue_free mq_entry msg_size length] in *; try done.
  - eapply msg_list_change; [done|naive_solver|done].
  - apply msg_list_cons; [eapply msg_list_change; [done|naive_solver|done]|]. rewrite <- Hfr. by eapply at_change_same.
  - rewrite <- Permutation_middle. apply NoDup_cons. by rewrite elem_of_app.
  - rewrite Ht. destruct used as [|a used]; [by rewrite bool_decide_eq_true_2|]. rewrite last_cons_cons. rewrite bool_decide_eq_false_2; [done|].
    intros E. rewrite last_lookup in E. apply Hn. left. by eapply list_elem_of_lookup_2.
  - rewrite He, (wrap_small 16) by (unfold in_u; lia). lia.
  - lia.
  - by apply data_change.
Qed.

(** The bytes that a receive copies. *)
Definition recv_len (q : rt_messagequeue) (size : Z) : Z := if msg_size q <? size then msg_size q else size.

Lemma mq_take_run i q n used free d msgs fmsgs buffer size k :
  layout q (n :: used) free (d :: msgs) fmsgs -> 0 <= size <= Z.of_nat (length buffer) ->
  mq_take prio_max 1 i buffer size (with_mq i q k) =
    (err ← resume_receiver prio_max 1 (SenderHead i); mret (err, filled (recv_len q size) d buffer)) (with_mq i (take_first q n (head used) d) k).
Proof using Type.
  clear Hmax. intros Hl Hs. pose proof Hl as [Hu Hf Hnd Hh Ht Hfr He Hb Hsz Hda]. destruct (msg_list_cons_inv _ _ _ _ _ Hu) as [Hu' (m & Hm & Hnx & Hd)].
  pose proof (at_data q n m Hda Hm) as Hlen. set (q1 := {q with msg_queue_head := msg_next m; msg_queue_tail := if bool_decide (msg_queue_tail q = Some n) then None else msg_queue_tail q}).
  assert (mq_unlink i (with_mq i q k) = Ok (Some n, with_mq i q1 k)) as Eun.
  { unfold mq_unlink. step (apply mq_with). rewrite Hh. cbn [head hd_error]. step (by eapply message_run). step (apply set_mq_with). unfold q1.
    destruct (bool_decide (msg_queue_tail q = Some n)); cbn [when]; [by step (apply set_mq_with)|]. step (reflexivity). by destruct q. }
  unfold mq_take. step (exact Eun). step (apply mq_with). change (mq_entry q1) with (mq_entry q). rewrite He. rewrite (proj2 (Z.ltb_lt 0 _)) by (cbn; lia). cbn [when].
  step (apply set_mq_with). step (by eapply message_run). change (msg_size q1 <? size) with (msg_size q <? size). change (msg_size q1) with (msg_size q).
  change (if msg_size q <? size then msg_size q else size) with (recv_len q size).
  assert (0 <= recv_len q size /\ recv_len q size <= size /\ recv_len q size <= msg_size q) as (L1 & L2 & L3).
  { unfold recv_len. destruct (Z.ltb_spec (msg_size q) size); lia. }
  step (apply memcpy_run; lia). unfold mq_release. erewrite bind_run.
  2:{ step (apply mq_with). step (by eapply set_message_with; exact Hm). apply set_mq_with. }
  by rewrite Hd, <- Hnx, <- Hd.
Qed.

(** ** The operations as those of a queue *)

Inductive mq_op := MqSend (buffer : list Z) (size : Z) | MqUrgent (buffer : list Z) (size : Z) | MqRecv (buffer : list Z) (size : Z).

Definition mq_run (i : Z) (op : mq_op) (timeout sflag : Z) : K (waiting (Z * option (list Z))) :=
  match op with
  | MqSend buffer size =>
      r ← rt_mq_send_wait_ prio_max 1 mask soft timer_thread i buffer size timeout sflag;
      mret (match r with Returns err => Returns (err, None) | Blocked d => Blocked d end)
  | MqUrgent buffer size => err ← rt_mq_urgent prio_max 1 i buffer size; mret (Returns (err, None))
  | MqRecv buffer size =>
      r ← rt_mq_recv_ prio_max 1 mask soft timer_thread i buffer size timeout sflag;
      mret (match r with Returns (err, b) => Returns (err, if err =? RT_EOK then Some b else None) | Blocked d => Blocked d end)
  end.

(** The arguments of an operation on a queue whose messages have [max] bytes. *)
Definition mq_args (max : Z) (op : mq_op) : Prop :=
  match op with
  | MqSend buffer size | MqUrgent buffer size => 0 < size <= Z.of_nat (length buffer) /\ size <= max
  | MqRecv buffer size => 0 < size <= Z.of_nat (length buffer)
  end.

(** The message [d] starts with [size] bytes of the buffer. *)
Definition carries (d : list Z) (size : Z) (buffer : list Z) : Prop := take (Z.to_nat size) d = take (Z.to_nat size) buffer.

(** What an operation does to the messages and to the number of free blocks, and what it
    answers: receiving copies the message up to the size of a message of the queue. *)
Inductive mq_does (max : Z) : mq_op -> list (list Z) -> nat -> list (list Z) -> nat -> option (list Z) -> Prop :=
| mq_appends buffer size d msgs n : carries d size buffer -> mq_does max (MqSend buffer size) msgs (S n) (msgs ++ [d]) n None
| mq_prepends buffer size d msgs n : carries d size buffer -> mq_does max (MqUrgent buffer size) msgs (S n) (d :: msgs) n None
| mq_removes buffer size d msgs n : mq_does max (MqRecv buffer size) (d :: msgs) n msgs (S n) (Some (filled (Z.min max size) d buffer)).

Definition mq_stuck (op : mq_op) (msgs : list (list Z)) (n : nat) : bool :=
  match op with MqRecv _ _ => bool_decide (msgs = []) | _ => (n =? 0)%nat end.
Definition mq_waits (op : mq_op) (i : Z) : knode := match op with MqRecv _ _ => SuspendHead i | _ => SenderHead i end.
Definition mq_wakes (op : mq_op) (i : Z) : knode := match op with MqRecv _ _ => SenderHead i | _ => SuspendHead i end.
Definition mq_error (op : mq_op) : Z := match op with MqRecv _ _ => - RT_ETIMEOUT | _ => - RT_EFULL end.
Definition mq_is_urgent (op : mq_op) : bool := match op with MqUrgent _ _ => true | _ => false end.

(** The queue [i] contains [msgs] and has [n] free blocks. *)
Record mq_at (k : kernel) (i : Z) (max : Z) (msgs : list (list Z)) (n : nat) (flag : Z) : Prop := {
  mqa_queue : exists q, messagequeues k !! i = Some q /\ queued q msgs n /\ msg_size q = max;
  mqa_object : ipc_at k i RT_Object_Class_MessageQueue flag;
}.

Lemma mq_at_frame k k' i max msgs n flag : frame k k' -> mq_at k i max msgs n flag -> mq_at k' i max msgs n flag.
Proof using Type. clear Hmax. intros Hf [H1 H2]. split; [by rewrite (fr_messagequeues _ _ Hf)|by eapply ipc_at_frame]. Qed.

Lemma runs_mq k s c x i q : runs k s c x -> runs (with_mq i q k) s c x.
Proof using Type. clear Hmax. intros Hr. by eapply runs_frame_tables. Qed.

Lemma filled_carries size buffer old : 0 <= size <= Z.of_nat (length buffer) -> carries (filled size buffer old) size buffer.
Proof using Type.
  intros Hs. unfold carries, filled. rewrite take_app_le by (rewrite length_take; lia). by rewrite take_take, Nat.min_id.
Qed.

Lemma recv_len_min q size : recv_len q size = Z.min (msg_size q) size.
Proof using Type. unfold recv_len. destruct (Z.ltb_spec (msg_size q) size); lia. Qed.

(** The tests of the code. *)
Lemma free_test q msgs n : queued q msgs n -> bool_decide (msg_queue_free q = None) = (n =? 0)%nat.
Proof using Type. intros (used & free & fmsgs & [_ _ _ _ _ Hf _ _ _ _] & <-). rewrite Hf. by destruct free. Qed.
Lemma entry_test q msgs n : queued q msgs n -> (mq_entry q =? 0) = bool_decide (msgs = []).
Proof using Type.
  intros (used & free & fmsgs & [[Hl _] _ _ _ _ _ He _ _ _] & _). rewrite He. destruct msgs, used; done.
Qed.

Lemma mq_proceeds k s c x i max msgs n flag op timeout sflag :
  runs k s c x -> mq_at k i max msgs n flag -> mq_args max op -> mq_wakes op i ∈ wheads s -> rt_scheduler_lock_nest k = 0 ->
  mq_stuck op msgs n = false ->
  exists msgs' n' ans q' k' s' c' x', mq_does max op msgs n msgs' n' ans /\ mq_run i op timeout sflag k = Ok (Returns (RT_EOK, ans), k') /\
    runs k' s' c' x' /\ received (with_mq i q' k) s c x (mq_wakes op i) k' s' c' x' /\ mq_at k' i max msgs' n' flag.
Proof using Hmax.
  intros Hr [(q & Hq & Hque & <-) Ho] Hargs Hin Hlock Hst. pose proof (ru_current _ _ _ _ _ Hr) as Hcur.
  pose proof (free_test q msgs n Hque) as Hfree. pose proof (entry_test q msgs n Hque) as Hentry.
  assert (forall q' msgs' n', queued q' msgs' n' -> msg_size q' = msg_size q -> forall k', frame (with_mq i q' k) k' -> mq_at k' i (msg_size q) msgs' n' flag) as Hat.
  { intros q' msgs' n' Hq' Hs k' Hf. split; [rewrite (fr_messagequeues _ _ Hf); exists q'; split; [apply lookup_insert_eq|done]|]. eapply ipc_at_frame; [exact Hf|exact Ho]. }
  assert (forall q', exists k' s' c' x', resume_receiver prio_max 1 (mq_wakes op i) (with_mq i q' k) = Ok (RT_EOK, k') /\ runs k' s' c' x' /\
    received (with_mq i q' k) s c x (mq_wakes op i) k' s' c' x') as Hres.
  { intros q'. apply resume_receiver_runs; [done|by apply runs_mq|done|done]. }
  destruct Hque as (used & free & fmsgs & Hl & Hn). destruct op as [buffer size|buffer size|buffer size]; cbn [mq_stuck mq_wakes mq_run mq_args] in *.
  - destruct free as [|a free]; [subst n; done|]. destruct fmsgs as [|d0 fmsgs]; [by destruct (ly_free _ _ _ _ _ Hl)|]. destruct Hargs as [Ha1 Ha2].
    destruct (mq_put_run i q used a free msgs d0 fmsgs buffer size k Hl) as (q' & E1 & Hl' & Hs'); [lia|lia|].
    destruct (Hres q') as (k' & s' & c' & x' & E & Hr' & Hrec). exists (msgs ++ [filled size buffer d0]), (length free), None, q', k', s', c', x'.
    split; [subst n; constructor; apply filled_carries; lia|]. split; [|split; [done|split; [done|eapply Hat; [by exists (used ++ [a]), free, fmsgs|done|by eapply received_frame]]]].
    rewrite <- (with_mq_id i q k Hq). rewrite bind_run with (a := Returns RT_EOK) (s1 := k'); [done|]. unfold rt_mq_send_wait_. step (by eapply assert_class_run).
    step (by rewrite (proj2 (Z.eqb_neq _ _)) by lia; reflexivity). step (by eapply available_run; [exact Hlock|exact Hcur]). step (apply mq_with).
    rewrite (proj2 (Z.ltb_ge _ _)) by done. rewrite Hfree, Hst. cbn [andb]. rewrite (ly_first _ _ _ _ _ Hl). change (head (a :: free)) with (Some a).
    rewrite bind_run with (a := RT_EOK) (s1 := k'); [done|]. by rewrite E1.
  - destruct free as [|a free]; [subst n; done|]. destruct fmsgs as [|d0 fmsgs]; [by destruct (ly_free _ _ _ _ _ Hl)|]. destruct Hargs as [Ha1 Ha2].
    destruct (mq_urgent_run i q used a free msgs d0 fmsgs flag buffer size k Hl Ha1 Ha2 Ho) as (q' & E1 & Hl' & Hs').
    destruct (Hres q') as (k' & s' & c' & x' & E & Hr' & Hrec). exists (filled size buffer d0 :: msgs), (length free), None, q', k', s', c', x'.
    split; [subst n; constructor; apply filled_carries; lia|]. split; [|split; [done|split; [done|eapply Hat; [by exists (a :: used), free, fmsgs|done|by eapply received_frame]]]].
    rewrite <- (with_mq_id i q k Hq). rewrite bind_run with (a := RT_EOK) (s1 := k'); [done|]. by rewrite E1.
  - destruct msgs as [|d msgs]; [done|]. destruct used as [|a used]; [by destruct (ly_used _ _ _ _ _ Hl)|].
    pose proof (take_first_layout q a used free d msgs fmsgs Hl) as Hl'. set (q' := take_first q a (head used) d) in *.
    destruct (Hres q') as (k' & s' & c' & x' & E & Hr' & Hrec). exists msgs, (S n), (Some (filled (Z.min (msg_size q) size) d buffer)), q', k', s', c', x'.
    split; [constructor|]. split; [|split; [done|split; [done|eapply Hat; [exists used, (a :: free), (d :: fmsgs); split; [done|by cbn; rewrite Hn]|done|by eapply received_frame]]]].
    rewrite <- (with_mq_id i q k Hq). rewrite bind_run with (a := Returns (RT_EOK, filled (recv_len q size) d buffer)) (s1 := k'); [by rewrite recv_len_min|].
    unfold rt_mq_recv_. step (by eapply assert_class_run).
    step (by rewrite (proj2 (Z.eqb_neq _ _)) by lia; reflexivity). step (by eapply available_run; [exact Hlock|exact Hcur]). step (apply mq_with).
    rewrite Hentry, bool_decide_eq_false_2 by done. cbn [andb]. rewrite bind_run with (a := (RT_EOK, filled (recv_len q size) d buffer)) (s1 := k'); [done|].
    rewrite (mq_take_run i q a used free d msgs fmsgs) by (done || lia). by step (exact E).
Qed.

Lemma mq_refused k s c x i max msgs n flag op timeout sflag :
  runs k s c x -> mq_at k i max msgs n flag -> mq_args max op -> rt_scheduler_lock_nest k = 0 ->
  mq_stuck op msgs n = true -> timeout = 0 \/ mq_is_urgent op = true ->
  mq_run i op timeout sflag k = Ok (Returns (mq_error op, None), k).
Proof using Type.
  clear Hmax. intros Hr [(q & Hq & Hque & <-) Ho] Hargs Hlock Hst Ht. pose proof (ru_current _ _ _ _ _ Hr) as Hcur.
  pose proof (free_test q msgs n Hque) as Hfree. pose proof (entry_test q msgs n Hque) as Hentry.
  destruct op as [buffer size|buffer size|buffer size]; cbn [mq_stuck mq_run mq_args mq_error mq_is_urgent] in *.
  - destruct Ht as [-> |Ht]; [|done]. rewrite bind_run with (a := Returns (- RT_EFULL)) (s1 := k); [done|]. unfold rt_mq_send_wait_.
    step (by eapply assert_class_run). step (by rewrite (proj2 (Z.eqb_neq _ _)) by lia; reflexivity). step (by eapply available_run). step (by apply load_run).
    rewrite (proj2 (Z.ltb_ge _ _)) by lia. by rewrite Hfree, Hst.
  - rewrite bind_run with (a := - RT_EFULL) (s1 := k); [done|]. unfold rt_mq_urgent.
    step (by eapply assert_class_run). step (by rewrite (proj2 (Z.eqb_neq _ _)) by lia; reflexivity). step (by apply load_run).
    rewrite (proj2 (Z.ltb_ge _ _)) by lia. by rewrite Hfree, Hst.
  - destruct Ht as [-> |Ht]; [|done]. rewrite bind_run with (a := Returns (- RT_ETIMEOUT, buffer)) (s1 := k); [done|]. unfold rt_mq_recv_.
    step (by eapply assert_class_run). step (by rewrite (proj2 (Z.eqb_neq _ _)) by lia; reflexivity). step (by eapply available_run). step (by apply load_run).
    by rewrite Hentry, Hst.
Qed.

(** A message that is too large is refused, whatever the state of the queue. *)
Lemma mq_too_large k c i max msgs n flag buffer size timeout sflag :
  mq_at k i max msgs n flag -> 0 <= max < size -> rt_scheduler_lock_nest k = 0 -> rt_current_thread k = Some c ->
  rt_mq_send_wait_ prio_max 1 mask soft timer_thread i buffer size timeout sflag k = Ok (Returns (- RT_ERROR), k) /\
  rt_mq_urgent prio_max 1 i buffer size k = Ok (- RT_ERROR, k).
Proof using Type.
  clear Hmax. intros [(q & Hq & Hque & <-) Ho] Hsz Hlock Hcur. split.
  - unfold rt_mq_send_wait_. step (by eapply assert_class_run). step (by rewrite (proj2 (Z.eqb_neq _ _)) by lia; reflexivity). step (by eapply available_run).
    step (by apply load_run). by rewrite (proj2 (Z.ltb_lt _ _)) by lia.
  - unfold rt_mq_urgent. step (by eapply assert_class_run). step (by rewrite (proj2 (Z.eqb_neq _ _)) by lia; reflexivity). step (by apply load_run).
    by rewrite (proj2 (Z.ltb_lt _ _)) by lia.
Qed.

Lemma mq_waits_run k s c x i max msgs n flag op timeout sflag T p0 :
  runs k s c x -> mq_at k i max msgs n flag -> mq_args max op -> mq_waits op i ∈ wheads s -> rt_scheduler_lock_nest k = 0 -> suspend_flag_ok sflag ->
  mq_stuck op msgs n = true -> mq_is_urgent op = false ->
  0 <= p0 < prio_max -> wq s p0 <> [] -> rt_tick k = u32 T -> wait_time_ok T (stop_timer (thread_timer x) s) timeout ->
  exists k' s' c' x', mq_run i op timeout sflag k = Ok (Blocked (if 0 <? timeout then rt_tick k else 0), k') /\ runs k' s' c' x' /\
    waits_in k s c x (mq_waits op i) flag T timeout sflag k' s' c' x' /\ mq_at k' i max msgs n flag.
Proof using Hmax.
  intros Hr Hat Hargs Hin Hlock Hsf Hst Hu Hp0 Hq0 HT Hto. pose proof Hat as [(q & Hq & Hque & Es) Ho]. subst max. pose proof (ru_current _ _ _ _ _ Hr) as Hcur.
  pose proof (free_test q msgs n Hque) as Hfree. pose proof (entry_test q msgs n Hque) as Hentry.
  assert (timeout <> 0) as Hnz by (destruct Hto; lia). apply Z.eqb_neq in Hnz.
  destruct op as [buffer size|buffer size|buffer size]; cbn [mq_stuck mq_run mq_args mq_waits mq_is_urgent] in *; [|done|].
  - destruct (round_waits prio_max mask soft timer_thread Hmax (fun ret => ret) k s c x (SenderHead i) i _ flag timeout sflag T p0 Hr Hin Hlock Hsf Ho Hp0 Hq0 HT Hto) as (k' & s' & c' & x' & E & Hr' & Hw).
    exists k', s', c', x'. split; [|split; [done|split; [done|by eapply mq_at_frame; [apply Hw|]]]].
    rewrite bind_run with (a := Blocked (if 0 <? timeout then rt_tick k else 0)) (s1 := k'); [done|]. unfold rt_mq_send_wait_.
    step (by eapply assert_class_run). step (by rewrite (proj2 (Z.eqb_neq _ _)) by lia; reflexivity). step (by eapply available_run). step (by apply load_run).
    rewrite (proj2 (Z.ltb_ge _ _)) by lia. rewrite Hfree, Hst, Hnz. cbn [andb]. step (by apply current_run). unfold mq_send_loop. step (by apply load_run).
    rewrite Hfree, Hst, Hnz. exact E.
  - destruct (round_waits prio_max mask soft timer_thread Hmax (fun ret => (ret, buffer)) k s c x (SuspendHead i) i _ flag timeout sflag T p0 Hr Hin Hlock Hsf Ho Hp0 Hq0 HT Hto) as (k' & s' & c' & x' & E & Hr' & Hw).
    exists k', s', c', x'. split; [|split; [done|split; [done|by eapply mq_at_frame; [apply Hw|]]]].
    rewrite bind_run with (a := Blocked (if 0 <? timeout then rt_tick k else 0)) (s1 := k'); [done|]. unfold rt_mq_recv_.
    step (by eapply assert_class_run). step (by rewrite (proj2 (Z.eqb_neq _ _)) by lia; reflexivity). step (by eapply available_run). step (by apply load_run).
    rewrite Hentry, Hst, Hnz. cbn [andb]. step (by apply current_run). unfold mq_recv_loop. step (by apply load_run).
    rewrite Hentry, Hst, Hnz. exact E.
Qed.

(** ** A new queue *)

(** The blocks [0 .. j-1] in the order of the free list. *)
Definition free_blocks (j : nat) : list Z := rev (seqZ 0 (Z.of_nat j)).

Lemma free_blocks_S j : free_blocks (S j) = Z.of_nat j :: free_blocks j.
Proof using Type. unfold free_blocks. rewrite seqZ_S, rev_app_distr. by rewrite Z.add_0_l. Qed.
Lemma elem_of_free_blocks j a : a ∈ free_blocks j <-> 0 <= a < Z.of_nat j.
Proof using Type. unfold free_blocks. rewrite list_elem_of_In, <- in_rev, <- list_elem_of_In, elem_of_seqZ. lia. Qed.

Lemma free_list_run i m j q ds k :
  msg_list (mq_pool q) (free_blocks j) ds -> msg_queue_free q = head (free_blocks j) ->
  (j + m <= length (mq_pool q))%nat -> Forall (fun b => msg_size q <= Z.of_nat (length (msg_data b))) (mq_pool q) ->
  exists p ds', free_list_loop m i (Z.of_nat j) (with_mq i q k) = Ok (tt, with_mq i {q with mq_pool := p; msg_queue_free := head (free_blocks (j + m))} k) /\
    msg_list p (free_blocks (j + m)) ds' /\ Forall (fun b => msg_size q <= Z.of_nat (length (msg_data b))) p.
Proof using Type.
  clear Hmax. revert j q ds. induction m as [|m IH]; intros j q ds Hl Hf Hlen Hda; cbn [free_list_loop].
  - exists (mq_pool q), ds. rewrite Nat.add_0_r, <- Hf. split; [by destruct q|done].
  - step (apply mq_with). destruct (zlookup_is_some (mq_pool q) (Z.of_nat j)) as [b Hb]; [lia|].
    step (by eapply set_message_with; exact Hb). step (apply set_mq_with).
    set (b' := {b with msg_next := msg_queue_free q}).
    set (q1 := {{q with mq_pool ::= change_msg (Z.of_nat j) b'} with msg_queue_free := Some (Z.of_nat j)}).
    assert (msg_list (mq_pool q1) (free_blocks (S j)) (msg_data b :: ds)) as Hl1.
    { rewrite free_blocks_S. apply msg_list_cons.
      - eapply msg_list_change; [exact Hb| |done]. rewrite elem_of_free_blocks. lia.
      - rewrite <- Hf. exact (at_change_same (mq_pool q) (Z.of_nat j) b b' Hb). }
    destruct (IH (S j) q1 _ Hl1) as (p & ds' & E & Hp & HF).
    + by rewrite free_blocks_S.
    + change (mq_pool q1) with (change_msg (Z.of_nat j) b' (mq_pool q)). unfold change_msg. rewrite length_insert. lia.
    + apply data_change; [done|]. exact (at_data q (Z.of_nat j) b Hda Hb).
    + exists p, ds'. replace (j + S m)%nat with (S j + m)%nat by lia. split; [|done].
      replace (Z.of_nat j + 1) with (Z.of_nat (S j)) by lia. exact E.
Qed.

(** The end of rt_mq_init and rt_mq_create: the queue is empty and all its blocks are free. *)
Lemma mq_free_list_run i q k :
  0 <= max_msgs q <= 0xffff -> max_msgs q <= Z.of_nat (length (mq_pool q)) -> 0 <= msg_size q ->
  Forall (fun b => msg_size q <= Z.of_nat (length (msg_data b))) (mq_pool q) ->
  exists q' k', mq_free_list i (with_mq i q k) = Ok (tt, k') /\ messagequeues k' !! i = Some q' /\ queued q' [] (Z.to_nat (max_msgs q)) /\ msg_size q' = msg_size q.
Proof using Type.
  clear Hmax. intros Hm Hp Hsz Hda. unfold mq_free_list. step (apply set_mq_with). step (apply mq_with).
  set (q1 := {q with msg_queue_head := None; msg_queue_tail := None; msg_queue_free := None}). change (max_msgs q1) with (max_msgs q).
  destruct (free_list_run i (Z.to_nat (max_msgs q)) 0 q1 [] k) as (p & ds & E & Hl & HF); [apply msg_list_nil|done|change (mq_pool q1) with (mq_pool q); lia|done|].
  step (exact E). step (apply set_mq_with). set (q2 := {q1 with mq_pool := p; msg_queue_free := _}). set (q' := {q2 with mq_entry := 0}).
  exists q', {with_mq i q' k with links ::= fun l => <[SenderHead i := (SenderHead i, SenderHead i)]> l}. split; [|split; [apply lookup_insert_eq|split; [|done]]].
  - reflexivity.
  - exists [], (free_blocks (Z.to_nat (max_msgs q))), ds.
    assert (length (free_blocks (Z.to_nat (max_msgs q))) = Z.to_nat (max_msgs q)) as Hlen by (unfold free_blocks; rewrite length_rev, length_seqZ; lia).
    split; [|done]. split; try done; [|rewrite Hlen; cbn; lia].
    cbn [app]. unfold free_blocks. apply NoDup_ListNoDup, List.NoDup_rev, NoDup_ListNoDup, NoDup_seqZ.
Qed.
End MqFacts.
