(* ===== verification/RtMempool.v ===== *)
(** * RT-Thread: src/mempool.c

    A pool of blocks of one size.  In front of each block is a word: the next free block,
    or the pool of a block in use.  Pointers are addresses; [word_size] is
    sizeof(rt_uint8_t * ) and [align] RT_ALIGN_SIZE; [heap_malloc] gives the address of a
    block of the heap.  rt_mp_alloc is split where it waits. *)
From S2P Require Import Prelude Outcome RtList RtKernel RtSched RtObject RtTimer RtThread RtTimerStart RtIpc RtMutex RtMailbox.
#[local] Open Scope string_scope.
#[local] Open Scope list_scope.
#[local] Open Scope Z_scope.

(** The word in front of a block. *)
Definition block_word_at (a : Z) : K block_word :=
  k ← get; match block_words k !! a with Some w => mret w | None => undef "not the word of a block" end.
Definition set_block_word (a : Z) (w : block_word) : K unit := modify (fun k => {k with block_words ::= <[a := w]> }).

Section Mempool.
Variables (prio_max : Z) (cfg : rt_config) (RT_NAME_MAX : nat) (rt_malloc : Z -> kernel -> option objid).
Variables (heap_malloc : Z -> kernel -> option Z) (word_size align : Z).
Variables (level : nat) (mask : Z) (soft : bool) (timer_thread : Z).

Definition uword (z : Z) : Z := wrap (8 * word_size) z.
Definition RT_ALIGN (size : Z) : Z := Z.land (uword (size + align - 1)) (Z.lnot (align - 1)).
Definition RT_ALIGN_DOWN (size : Z) : Z := Z.land size (Z.lnot (align - 1)).

(** The distance of two blocks. *)
Definition stride (block_size : Z) : Z := uword (block_size + word_size).

(** A write to the memory of [size] bytes at [start]. *)
Definition write_word (start size a : Z) (w : block_word) : K unit :=
  if (start <=? a) && (a + word_size <=? start + size) then set_block_word a w else undef "a write outside the pool".

(** The loop that links the free blocks, from number [offset] on. *)
Fixpoint link_loop (n : nat) (start size step offset : Z) : K unit :=
  match n with
  | O => mret tt
  | S n' =>
      write_word start size (uword (start + offset * step)) (NextBlock (Some (uword (start + (offset + 1) * step)))) ;;
      link_loop n' start size step (offset + 1)
  end.

Definition mp_link (mp start size : Z) : K unit :=
  p ← mempool mp;
  let step := stride (mp_block_size p) in
  link_loop (Z.to_nat (block_total_count p)) start size step 0 ;;
  write_word start size (uword (start + uword (block_total_count p - 1) * step)) (NextBlock None) ;;
  set_mempool mp (fun p => {p with mp_block_list := Some start}).

Definition rt_mp_init (mp : Z) (name : list Z) (start size block_size : Z) : K Z :=
  assert_that ((0 <? size) && (0 <? block_size)) "size > 0 && block_size > 0" ;;
  rt_object_init prio_max cfg RT_NAME_MAX (OOther mp) RT_Object_Class_MemPool name ;;
  let block_size := RT_ALIGN block_size in
  set_mempool mp (fun p => {p with mp_start_address := start; mp_size := RT_ALIGN_DOWN size; mp_block_size := block_size}) ;;
  (if stride block_size =? 0 then undef "division by zero" else mret tt) ;;
  let total := RT_ALIGN_DOWN size / stride block_size in
  set_mempool mp (fun p => {p with block_total_count := total; block_free_count := total}) ;;
  on_list (rt_list_init (SuspendHead mp)) ;;
  mp_link mp start size ;;
  mret RT_EOK.

Definition rt_mp_detach (mp : Z) : K Z :=
  assert_static mp RT_Object_Class_MemPool true ;;
  ipc_list_resume_all prio_max level (SuspendHead mp) ;;
  rt_object_detach (OOther mp) ;;
  mret RT_EOK.

Definition rt_mp_create (name : list Z) (block_count block_size : Z) : K (option Z) :=
  assert_that ((0 <? block_count) && (0 <? block_size)) "block_count > 0 && block_size > 0" ;;
  o ← rt_object_allocate cfg RT_NAME_MAX rt_malloc RT_Object_Class_MemPool name;
  match o with
  | None => mret None
  | Some (OOther mp) =>
      let block_size := RT_ALIGN block_size in
      let size := uword (stride block_size * block_count) in
      set_mempool mp (fun p => {p with mp_block_size := block_size; mp_size := size}) ;;
      k ← get;
      match heap_malloc size k with
      | None => rt_object_delete (OOther mp) ;; mret None
      | Some start =>
          set_mempool mp (fun p => {p with mp_start_address := start; block_total_count := block_count; block_free_count := block_count}) ;;
          on_list (rt_list_init (SuspendHead mp)) ;;
          mp_link mp start size ;;
          mret (Some mp)
      end
  | Some _ => undef "a block that is not a memory pool"
  end.

(** [rt_free(mp->start_address)]: the words in the memory of the pool are gone. *)
Definition free_words (start size : Z) : K unit :=
  modify (fun k => {k with block_words ::= filter (fun p => negb ((start <=? p.1) && (p.1 <? start + size)) = true)}).

Definition rt_mp_delete (mp : Z) : K Z :=
  assert_static mp RT_Object_Class_MemPool false ;;
  ipc_list_resume_all prio_max level (SuspendHead mp) ;;
  p ← mempool mp;
  free_words (mp_start_address p) (mp_size p) ;;
  rt_object_delete (OOther mp) ;;
  mret RT_EOK.

(** A block is available: its address behind the word. *)
Definition mp_take (mp : Z) : K (option Z) :=
  set_mempool mp (fun p => {p with block_free_count ::= (fun n => uword (n - 1))}) ;;
  p ← mempool mp;
  match mp_block_list p with
  | None => abort "block_ptr != RT_NULL"
  | Some block_ptr =>
      w ← block_word_at block_ptr;
      match w with
      | NextBlock next =>
          set_mempool mp (fun p => {p with mp_block_list := next}) ;;
          set_block_word block_ptr (PoolOf mp) ;;
          mret (Some (uword (block_ptr + word_size)))
      | PoolOf _ => undef "a block in use in the free list"
      end
  end.

Definition mp_alloc_loop (mp time : Z) : K (waiting (option Z)) :=
  p ← mempool mp;
  if block_free_count p =? 0 then
    if time =? 0 then
      rt_set_errno (- RT_ETIMEOUT) ;;
      mret (Returns None)
    else
      t ← current;
      set_error t RT_EOK ;;
      rt_thread_suspend prio_max level t ;;
      on_list (rt_list_insert_after (SuspendHead mp) (TList t)) ;;
      before_sleep ← (if 0 <? time then
          now ← rt_tick_get;
          start_wait prio_max level mask soft timer_thread t time ;;
          mret now
        else mret 0);
      rt_schedule prio_max ;;
      mret (Blocked before_sleep)
  else b ← mp_take mp; mret (Returns b).

Definition rt_mp_alloc (mp time : Z) : K (waiting (option Z)) := mp_alloc_loop mp time.

Definition rt_mp_alloc_return (mp t time before_sleep : Z) : K (waiting (option Z)) :=
  x ← thread t;
  if negb (th_error x =? RT_EOK) then mret (Returns None)
  else
    time ← time_left time before_sleep;
    mp_alloc_loop mp time.

Definition rt_mp_free (block : option Z) : K unit :=
  match block with
  | None => mret tt
  | Some block =>
      let block_ptr := uword (block - word_size) in
      w ← block_word_at block_ptr;
      match w with
      | NextBlock _ => undef "not a block in use"
      | PoolOf mp =>
          p ← mempool mp;
          set_mempool mp (fun p => {p with block_free_count ::= (fun n => uword (n + 1))}) ;;
          set_block_word block_ptr (NextBlock (mp_block_list p)) ;;
          set_mempool mp (fun p => {p with mp_block_list := Some block_ptr}) ;;
          e ← on_list (rt_list_isempty (SuspendHead mp));
          when (negb e) (
            ipc_list_resume prio_max level (SuspendHead mp) ;;
            rt_schedule prio_max)
      end
  end.
End Mempool.
