(* ===== verification/RtMempoolFacts.v ===== *)
(** * RT-Thread: what memory pools do

    The blocks of a pool are either in the list of free blocks or in use. *)
From S2P Require Import Prelude Outcome RtList RtKernel RtSched RtObject RtTimer RtThread RtTimerStart RtTimerFacts.
From S2P Require Import RtSchedFacts RtSchedRun RtWorld RtIpc RtWorldOps RtWait RtWorldSched RtBlock RtMutex RtMutexFacts RtMailbox RtMempool.
#[local] Open Scope string_scope.
#[local] Open Scope list_scope.
#[local] Open Scope Z_scope.

(** The list of free blocks from a pointer on. *)
Inductive block_chain (w : gmap Z block_word) : option Z -> list Z -> Prop :=
| chain_end : block_chain w None []
| chain_link a next fs : w !! a = Some (NextBlock next) -> block_chain w next fs -> block_chain w (Some a) (a :: fs).

Lemma block_chain_insert w p fs a v : a ∉ fs -> block_chain w p fs -> block_chain (<[a := v]> w) p fs.
Proof.
  intros Hn Hc. induction Hc as [|b next fs Hb Hc IH]; [constructor|]. apply not_elem_of_cons in Hn as [Hab Hn].
  econstructor; [by rewrite lookup_insert_ne|by apply IH].
Qed.

Section Pool.
Variables (word_size : Z).
Context (Hword : 0 < word_size).

(** A pool of [n] blocks of [bs] bytes in the memory at [start]: the addresses of the words
    in front of the blocks. *)
Record pool_shape := { ps_start : Z; ps_block : Z; ps_count : Z }.
Definition shape_ok (p : pool_shape) : Prop :=
  0 <= ps_start p /\ 0 < ps_block p /\ ps_start p + ps_count p * (ps_block p + word_size) < 2 ^ (8 * word_size).
Definition pool_word (p : pool_shape) (i : Z) : Z := ps_start p + i * (ps_block p + word_size).
Definition pool_words (p : pool_shape) : list Z := pool_word p <$> seqZ 0 (ps_count p).

Lemma elem_of_pool_words p a : a ∈ pool_words p <-> exists i, 0 <= i < ps_count p /\ a = pool_word p i.
Proof using Type.
  unfold pool_words. rewrite list_elem_of_fmap. split.
  - intros (i & -> & Hi%elem_of_seqZ). exists i. split; [lia|done].
  - intros (i & Hi & ->). exists i. split; [done|]. apply elem_of_seqZ. lia.
Qed.

(** The blocks are apart, each with its word in front of it, and inside the memory. *)
Lemma pool_words_apart p a b : 0 < word_size -> shape_ok p -> a ∈ pool_words p -> b ∈ pool_words p -> a <> b ->
  a + word_size + ps_block p <= b \/ b + word_size + ps_block p <= a.
Proof using Type.
  clear. intros Hword (_ & Hb & _) (i & Hi & ->)%elem_of_pool_words (j & Hj & ->)%elem_of_pool_words Hne. unfold pool_word in *.
  assert (i <> j) by congruence. destruct (decide (i < j)); [left|right].
  - assert ((i + 1) * (ps_block p + word_size) <= j * (ps_block p + word_size)) by (apply Z.mul_le_mono_nonneg_r; lia). lia.
  - assert ((j + 1) * (ps_block p + word_size) <= i * (ps_block p + word_size)) by (apply Z.mul_le_mono_nonneg_r; lia). lia.
Qed.
Lemma pool_words_inside p a : 0 < word_size -> shape_ok p -> a ∈ pool_words p ->
  ps_start p <= a /\ a + word_size + ps_block p <= pool_word p (ps_count p) /\ a + word_size < 2 ^ (8 * word_size).
Proof using Type.
  clear. intros Hword (H0 & Hb & Hend) (i & Hi & ->)%elem_of_pool_words. unfold pool_word.
  assert ((i + 1) * (ps_block p + word_size) <= ps_count p * (ps_block p + word_size)) by (apply Z.mul_le_mono_nonneg_r; lia).
  assert (0 <= i * (ps_block p + word_size)) by (apply Z.mul_nonneg_nonneg; lia). lia.
Qed.
Lemma pool_words_nodup p : 0 < word_size -> shape_ok p -> NoDup (pool_words p).
Proof using Type.
  clear. intros Hword (_ & Hb & _). unfold pool_words. apply (NoDup_fmap_2_strong _ _); [|apply NoDup_seqZ].
  intros i j _ _ E. unfold pool_word in E. apply (Z.mul_reg_r i j (ps_block p + word_size)); lia.
Qed.

(** The free blocks [fs], in the order of the list, and the blocks in use [us]. *)
Record pool_at (k : kernel) (mp : Z) (p : pool_shape) (fs us : list Z) : Prop := {
  pa_pool : exists x, mempools k !! mp = Some x /\ block_chain (block_words k) (mp_block_list x) fs /\ block_free_count x = Z.of_nat (length fs);
  pa_used : forall a, a ∈ us -> block_words k !! a = Some (PoolOf mp);
  pa_blocks : fs ++ us ≡ₚ pool_words p;
  pa_shape : shape_ok p;
}.

Lemma pool_at_frame k k' mp p fs us : frame k k' -> pool_at k mp p fs us -> pool_at k' mp p fs us.
Proof using Type. intros Hf [H1 H2 H3 H4]. split; rewrite ?(fr_mempools _ _ Hf), ?(fr_words _ _ Hf); done. Qed.

Lemma pool_count k mp p fs us : pool_at k mp p fs us -> Z.of_nat (length fs) < 2 ^ (8 * word_size).
Proof using Hword.
  intros [_ _ HP (H0 & Hb & Hend)]. assert (length (fs ++ us) = length (pool_words p)) as E by (by rewrite HP).
  rewrite length_app in E. unfold pool_words in E. rewrite length_fmap, length_seqZ in E. nia.
Qed.

Lemma pool_nodup k mp p fs us : pool_at k mp p fs us -> NoDup (fs ++ us).
Proof using Hword. intros [_ _ HP Hs]. rewrite HP. by apply pool_words_nodup. Qed.

(** The pool and the words in front of the blocks change. *)
Definition with_pool (mp : Z) (x : rt_mempool) (w : gmap Z block_word) (k : kernel) : kernel := {k with mempools ::= <[mp := x]>; block_words := w}.

Lemma runs_pool prio_max k s c x mp y w : runs prio_max k s c x -> runs prio_max (with_pool mp y w k) s c x.
Proof using Type. clear Hword. intros Hr. by eapply runs_frame_tables. Qed.

Lemma uword_small z : 0 <= z < 2 ^ (8 * word_size) -> uword word_size z = z.
Proof using Type. clear Hword. intros Hz. by apply wrap_small. Qed.

(** The first free block is taken. *)
Lemma take_block k mp p a fs us : pool_at k mp p (a :: fs) us ->
  exists y w, mp_take word_size mp k = Ok (Some (a + word_size), with_pool mp y w k) /\ pool_at (with_pool mp y w k) mp p fs (a :: us).
Proof using Hword.
  intros Hp. pose proof (pool_count _ _ _ _ _ Hp) as Hcount. pose proof (pool_nodup _ _ _ _ _ Hp) as Hnd. destruct Hp as [(x & Hx & Hc & Hn) Hu HP Hs].
  cbn [app] in Hnd. apply NoDup_cons in Hnd as [Ha Hnd]. apply not_elem_of_app in Ha as [Haf Hau].
  inversion Hc as [|a' next fs' Ew Hc' Ex Ef]; subst.
  destruct (pool_words_inside p a Hword Hs) as (H1 & H2 & H3); [rewrite <- HP; by left|]. destruct Hs as (H0 & Hb & Hend).
  cbn [length] in Hn, Hcount. set (y1 := {x with block_free_count := Z.of_nat (length fs)}). set (y := {y1 with mp_block_list := next}).
  exists y, (<[a := PoolOf mp]> (block_words k)). split.
  - unfold mp_take. rewrite bind_run with (a := tt) (s1 := {k with mempools ::= <[mp := y1]> }).
    2:{ unfold set_mempool. rewrite (store_run _ _ _ mp _ k x Hx).
        transitivity (Ok (tt, {k with mempools ::= <[mp := {x with block_free_count := uword word_size (block_free_count x - 1)}]> })); [reflexivity|].
        rewrite Hn. replace (Z.of_nat (S (length fs)) - 1) with (Z.of_nat (length fs)) by lia. by rewrite uword_small by lia. }
    step (by apply load_run; apply lookup_insert_eq). change (mp_block_list y1) with (mp_block_list x). rewrite <- Ex.
    rewrite bind_run with (a := NextBlock next) (s1 := {k with mempools ::= <[mp := y1]> }).
    2:{ unfold block_word_at. run_simpl. change (block_words {k with mempools ::= _}) with (block_words k). by rewrite Ew. }
    rewrite bind_run with (a := tt) (s1 := {k with mempools ::= <[mp := y]> }).
    2:{ unfold set_mempool. rewrite (store_run _ _ _ mp _ _ y1) by apply lookup_insert_eq.
        transitivity (Ok (tt, {k with mempools := <[mp := y]> (<[mp := y1]> (mempools k))})); [reflexivity|]. by rewrite insert_insert_eq. }
    rewrite bind_run with (a := tt) (s1 := with_pool mp y (<[a := PoolOf mp]> (block_words k)) k) by reflexivity.
    unfold mret, st_ret. rewrite uword_small by lia. reflexivity.
  - split.
    + exists y. split; [apply lookup_insert_eq|]. split; [|done]. by apply block_chain_insert.
    + intros b [->|Hin]%elem_of_cons; [apply lookup_insert_eq|]. etransitivity; [apply lookup_insert_ne; by intros ->|]. by apply Hu.
    + rewrite <- HP. cbn [app]. by rewrite Permutation_middle.
    + done.
Qed.

(** A block goes back in front of the list. *)
Lemma give_block prio_max level k mp p fs us1 a us2 : pool_at k mp p fs (us1 ++ a :: us2) ->
  exists y w, pool_at (with_pool mp y w k) mp p (a :: fs) (us1 ++ us2) /\
    rt_mp_free prio_max word_size level (Some (a + word_size)) k =
      (e ← on_list (rt_list_isempty (SuspendHead mp));
       when (negb e) (ipc_list_resume prio_max level (SuspendHead mp) ;; rt_schedule prio_max)) (with_pool mp y w k).
Proof using Hword.
  intros Hp. pose proof (pool_nodup _ _ _ _ _ Hp) as Hnd. destruct Hp as [(x & Hx & Hc & Hn) Hu HP Hs].
  rewrite <- Permutation_middle in Hnd. rewrite <- Permutation_middle in HP. rewrite <- (Permutation_middle fs) in Hnd. rewrite <- (Permutation_middle fs) in HP.
  apply NoDup_cons in Hnd as [Ha Hnd]. apply not_elem_of_app in Ha as [Haf Hau].
  destruct (pool_words_inside p a Hword Hs) as (H1 & H2 & H3); [rewrite <- HP; by left|].
  assert (Z.of_nat (length fs) + 1 < 2 ^ (8 * word_size)) as Hcount.
  { assert (length (a :: fs ++ us1 ++ us2) = length (pool_words p)) as E by (by rewrite HP). cbn [length] in E. rewrite length_app in E.
    unfold pool_words in E. rewrite length_fmap, length_seqZ in E. destruct Hs as (H0 & Hb & Hend). nia. }
  destruct Hs as (H0 & Hb & Hend). assert (block_words k !! a = Some (PoolOf mp)) as Ew by (apply Hu; set_solver).
  set (y1 := {x with block_free_count := Z.of_nat (length fs) + 1}). set (y := {y1 with mp_block_list := Some a}).
  set (w := <[a := NextBlock (mp_block_list x)]> (block_words k)). exists y, w. split.
  - split.
    + exists y. split; [apply lookup_insert_eq|]. split; [|cbn [length]; change (block_free_count y) with (Z.of_nat (length fs) + 1); lia].
      econstructor; [apply lookup_insert_eq|]. by apply block_chain_insert.
    + intros b Hin. etransitivity; [apply lookup_insert_ne; by intros ->|]. apply Hu. set_solver.
    + exact HP.
    + done.
  - unfold rt_mp_free. cbv zeta. replace (a + word_size - word_size) with a by lia. rewrite uword_small by lia.
    rewrite bind_run with (a := PoolOf mp) (s1 := k) by (unfold block_word_at; run_simpl; by rewrite Ew). step (by apply load_run).
    rewrite bind_run with (a := tt) (s1 := {k with mempools ::= <[mp := y1]> }).
    2:{ unfold set_mempool. rewrite (store_run _ _ _ mp _ k x Hx).
        transitivity (Ok (tt, {k with mempools ::= <[mp := {x with block_free_count := uword word_size (block_free_count x + 1)}]> })); [reflexivity|].
        by rewrite Hn, uword_small by lia. }
    rewrite bind_run with (a := tt) (s1 := with_pool mp y1 w k) by reflexivity.
    rewrite bind_run with (a := tt) (s1 := with_pool mp y w k); [done|].
    unfold set_mempool. rewrite (store_run _ _ _ mp _ _ y1) by apply lookup_insert_eq.
    transitivity (Ok (tt, {{k with mempools := <[mp := y]> (<[mp := y1]> (mempools k))} with block_words := w})); [reflexivity|]. by rewrite insert_insert_eq.
Qed.

(** ** A new pool *)

Lemma pool_word_succ p i : pool_word p (i + 1) = pool_word p i + ps_block p + word_size.
Proof using Type. unfold pool_word. lia. Qed.

Lemma write_word_run p size a v k : a ∈ pool_words p -> shape_ok p -> pool_word p (ps_count p) <= ps_start p + size ->
  write_word word_size (ps_start p) size (uword word_size a) v k = Ok (tt, {k with block_words ::= <[a := v]> }).
Proof using Hword.
  intros Hin Hs Hsize. destruct (pool_words_inside p a Hword Hs Hin) as (H1 & H2 & H3). destruct Hs as (H0 & Hb & _). rewrite uword_small by lia.
  unfold write_word. by rewrite !(proj2 (Z.leb_le _ _)) by lia.
Qed.

Lemma link_loop_run n p size off k :
  shape_ok p -> 0 <= off -> off + Z.of_nat n <= ps_count p -> pool_word p (ps_count p) <= ps_start p + size ->
  exists w, link_loop word_size n (ps_start p) size (ps_block p + word_size) off k = Ok (tt, {k with block_words := w}) /\
    (forall i, off <= i < off + Z.of_nat n -> w !! pool_word p i = Some (NextBlock (Some (pool_word p (i + 1))))) /\
    (forall a, (forall i, off <= i -> a <> pool_word p i) -> w !! a = block_words k !! a).
Proof using Hword.
  intros Hs. revert off k. induction n as [|n IH]; intros off k H0 Hoff Hsize; cbn [link_loop].
  - exists (block_words k). split; [by destruct k|]. split; [lia|done].
  - assert (pool_word p off ∈ pool_words p) as Hin by (apply elem_of_pool_words; exists off; split; [lia|done]).
    set (v := NextBlock (Some (pool_word p (off + 1)))). set (k1 := {k with block_words ::= <[pool_word p off := v]> }).
    destruct (IH (off + 1) k1) as (w & E & Hw & Hother); [lia|lia|done|]. pose proof (pool_word_succ p) as Hsucc. exists w. split; [|split].
    + rewrite bind_run with (a := tt) (s1 := k1); [exact E|]. change (ps_start p + off * (ps_block p + word_size)) with (pool_word p off).
      change (ps_start p + (off + 1) * (ps_block p + word_size)) with (pool_word p (off + 1)). rewrite (uword_small (pool_word p (off + 1))); [by apply write_word_run|].
      destruct (pool_words_inside p _ Hword Hs Hin) as (H1 & H2 & _). destruct Hs as (Hs0 & Hsb & Hend). clear -H1 H2 Hs0 Hsb Hend Hword. unfold pool_word in *. lia.
    + intros i Hi. destruct (decide (i = off)) as [->|Hne]; [|apply Hw; lia]. rewrite Hother; [apply lookup_insert_eq|].
      intros i Hi' Eq. unfold pool_word in Eq. destruct Hs as (_ & Hsb & _). assert (off = i) by (apply (Z.mul_reg_r off i (ps_block p + word_size)); lia). lia.
    + intros a Ha. rewrite Hother by (intros i Hi; apply Ha; lia). apply lookup_insert_ne. intros Eq. by apply (Ha off).
Qed.

(** The free list links the blocks in the order of their addresses. *)
Lemma linked_chain w p n i : 0 <= i -> i + Z.of_nat n = ps_count p - 1 ->
  (forall j, i <= j < ps_count p - 1 -> w !! pool_word p j = Some (NextBlock (Some (pool_word p (j + 1))))) ->
  w !! pool_word p (ps_count p - 1) = Some (NextBlock None) ->
  block_chain w (Some (pool_word p i)) (pool_word p <$> seqZ i (Z.of_nat n + 1)).
Proof using Type.
  clear Hword. revert i. induction n as [|n IH]; intros i Hi Hn Hw Hlast.
  - rewrite seqZ_cons, seqZ_nil by lia. cbn [fmap list_fmap]. econstructor; [|constructor].
    by replace i with (ps_count p - 1) by lia.
  - rewrite seqZ_cons by lia. cbn [fmap list_fmap]. econstructor; [apply Hw; lia|]. replace (Z.pred (Z.of_nat (S n) + 1)) with (Z.of_nat n + 1) by lia.
    change (Z.succ i) with (i + 1). apply IH; [lia|lia|intros j Hj; apply Hw; lia|done].
Qed.

Lemma mp_link_run k mp x p size :
  mempools k !! mp = Some x -> mp_block_size x = ps_block p -> block_total_count x = ps_count p -> block_free_count x = ps_count p ->
  shape_ok p -> 0 < ps_count p -> pool_word p (ps_count p) <= ps_start p + size ->
  exists y w, mp_link word_size mp (ps_start p) size k = Ok (tt, with_pool mp y w k) /\ pool_at (with_pool mp y w k) mp p (pool_words p) [].
Proof using Hword.
  intros Hx Hbs Htot Hfree Hs Hn Hsize. pose proof Hs as (Hs0 & Hsb & Hend). set (n := ps_count p - 1).
  assert (ps_block p + word_size <= ps_count p * (ps_block p + word_size)) by nia.
  assert (stride word_size (mp_block_size x) = ps_block p + word_size) as Est by (unfold stride; rewrite Hbs, uword_small by lia; done).
  destruct (link_loop_run (Z.to_nat (ps_count p)) p size 0 k Hs) as (w & E & Hw & _); [lia|lia|done|].
  set (a := pool_word p n). assert (a ∈ pool_words p) as Hin by (apply elem_of_pool_words; exists n; split; [lia|done]).
  set (w' := <[a := NextBlock None]> w). set (y := {x with mp_block_list := Some (ps_start p)}). exists y, w'. split.
  - unfold mp_link. step (by apply load_run). cbv zeta. rewrite Est, Htot. step (exact E).
    rewrite bind_run with (a := tt) (s1 := {k with block_words := w'}).
    2:{ assert (uword word_size (ps_count p - 1) = n) as -> by (apply uword_small; unfold n; nia). exact (write_word_run p size a (NextBlock None) {k with block_words := w} Hin Hs Hsize). }
    unfold set_mempool. by rewrite (store_run _ _ _ mp _ _ x) by exact Hx.
  - split.
    + exists y. split; [apply lookup_insert_eq|]. split.
      * change (mp_block_list y) with (Some (ps_start p)). replace (ps_start p) with (pool_word p 0) by (unfold pool_word; lia). unfold pool_words.
        replace (ps_count p) with (Z.of_nat (Z.to_nat n) + 1) by lia.
        apply linked_chain; [lia|unfold n; lia| |apply lookup_insert_eq]. intros j Hj. change (w' !! pool_word p j = Some (NextBlock (Some (pool_word p (j + 1))))).
        unfold w'. rewrite lookup_insert_ne; [apply Hw; lia|]. intros Eq. unfold a, pool_word in Eq.
        assert (n = j) by (apply (Z.mul_reg_r n j (ps_block p + word_size)); lia). unfold n in *. lia.
      * change (block_free_count y) with (block_free_count x). rewrite Hfree. unfold pool_words. rewrite length_fmap, length_seqZ. lia.
    + intros b Hb. by apply elem_of_nil in Hb.
    + by rewrite app_nil_r.
    + done.
Qed.

(** A memory too small for a block: the word in front of it is overwritten. *)
Lemma mp_link_small k mp x start size :
  mempools k !! mp = Some x -> block_total_count x = 0 -> 0 < stride word_size (mp_block_size x) <= start -> start < 2 ^ (8 * word_size) ->
  mp_link word_size mp start size k = Undef "a write outside the pool".
Proof using Type.
  clear Hword. intros Hx Hn Hst Hstart. unfold mp_link. step (by apply load_run). cbv zeta. rewrite Hn. set (S := stride word_size (mp_block_size x)) in *.
  cbn [Z.to_nat link_loop]. step (reflexivity). unfold write_word.
  assert (uword word_size (start + uword word_size (0 - 1) * S) = start - S) as ->.
  { unfold uword, wrap. rewrite <- Zplus_mod_idemp_r, Zmult_mod_idemp_l, Zplus_mod_idemp_r. replace (start + (0 - 1) * S) with (start - S) by lia. apply Z.mod_small. lia. }
  rewrite (proj2 (Z.leb_gt _ _)) by lia. reflexivity.
Qed.
End Pool.

Section MempoolFacts.
Variables (prio_max mask : Z) (soft : bool) (timer_thread word_size : Z).
Context (Hmax : 0 < prio_max <= 256) (Hword : 0 < word_size).
Abbreviation runs := (runs prio_max).
Abbreviation ready := (ready prio_max).
Abbreviation pool_at := (pool_at word_size).
Abbreviation alloc := (rt_mp_alloc prio_max word_size 1 mask soft timer_thread).

Lemma free_runs k s c x mp p fs us1 a us2 :
  runs k s c x -> pool_at k mp p fs (us1 ++ a :: us2) -> SuspendHead mp ∈ wheads s -> rt_scheduler_lock_nest k = 0 ->
  exists y w k' s' c' x', rt_mp_free prio_max word_size 1 (Some (a + word_size)) k = Ok (tt, k') /\ runs k' s' c' x' /\
    received prio_max (with_pool mp y w k) s c x (SuspendHead mp) k' s' c' x' /\ pool_at k' mp p (a :: fs) (us1 ++ us2).
Proof using Hmax Hword.
  intros Hr Hp Hh Hlock. destruct (give_block word_size Hword prio_max 1 k mp p fs us1 a us2 Hp) as (y & w & Hp' & E).
  pose proof (runs_pool prio_max k s c x mp y w Hr) as Hr1. set (k1 := with_pool mp y w k) in *.
  destruct (resume_receiver_runs prio_max Hmax k1 s c x (SuspendHead mp) Hr1 Hh Hlock) as (k' & s' & c' & x' & E' & Hr' & Hrec).
  exists y, w, k', s', c', x'. split; [|split; [done|split; [done|]]]; [|eapply pool_at_frame; [by eapply received_frame|done]].
  rewrite E. unfold resume_receiver in E'. pose proof (isempty_wait prio_max k1 s c x (SuspendHead mp) Hr1 Hh) as Ee.
  rewrite (bind_run _ _ _ _ _ Ee) in E'. step (exact Ee). destruct (bool_decide (wwait s (SuspendHead mp) = [])); cbn [negb when] in *.
  - by injection E' as ->.
  - apply bind_ok in E' as ([] & k2 & E1 & E2). apply bind_ok in E2 as ([] & k3 & E2 & E3). step (exact E1). rewrite E2. by injection E3 as ->.
Qed.

(** The end of a wait for a block: the thread is in front of the list. *)
Definition waiting_first (c : Z) (x : rt_thread) (h : knode) (T timeout : Z) (s : world) : world :=
  arm_wait (thread_timer x) T timeout (set_wait h (c :: wwait s h) (stop_timer (thread_timer x) s)).

Lemma alloc_taken k s c x mp p a fs us time : runs k s c x -> pool_at k mp p (a :: fs) us ->
  exists k', alloc mp time k = Ok (Returns (Some (a + word_size)), k') /\ runs k' s c x /\ pool_at k' mp p fs (a :: us).
Proof using Hword.
  clear Hmax. intros Hr Hp. destruct (take_block word_size Hword k mp p a fs us Hp) as (y & w & E & Hp'). exists (with_pool mp y w k).
  split; [|split; [by apply runs_pool|done]]. destruct Hp as [(z & Hz & _ & Hn) _ _ _]. unfold rt_mp_alloc, mp_alloc_loop. step (by apply load_run; exact Hz).
  rewrite Hn. rewrite (proj2 (Z.eqb_neq _ _)) by (cbn [length]; lia). by step (exact E).
Qed.

Lemma set_errno_run k c x err : rt_current_thread k = Some c -> threads k !! c = Some x -> rt_set_errno err k = Ok (tt, with_error err c x k).
Proof using Type. clear. intros Hc Hx. unfold rt_set_errno. step (by unfold rt_thread_self; reflexivity). rewrite Hc. by apply set_thread_run. Qed.

Lemma alloc_refused k s c x mp p us : runs k s c x -> pool_at k mp p [] us -> alloc mp 0 k = Ok (Returns None, with_error (- RT_ETIMEOUT) c x k).
Proof using Type.
  clear Hmax Hword. intros Hr [(z & Hz & _ & Hn) _ _ _]. unfold rt_mp_alloc, mp_alloc_loop. step (by apply load_run; exact Hz). rewrite Hn.
  change (Z.of_nat (length (@nil Z)) =? 0) with true. change (0 =? 0) with true. cbv iota. by step (by eapply set_errno_run; apply Hr).
Qed.

(** No block is free: the thread waits in front of the others, and another one runs. *)
Lemma alloc_waits k s c x mp p us time T p0 :
  runs k s c x -> pool_at k mp p [] us -> SuspendHead mp ∈ wheads s -> rt_scheduler_lock_nest k = 0 -> 0 <= p0 < prio_max -> wq s p0 <> [] ->
  rt_tick k = u32 T -> time <> 0 -> wait_time_ok T (stop_timer (thread_timer x) s) time ->
  exists k' q' c' x', let s' := {waiting_first c x (SuspendHead mp) T time s with wq := q'} in
    alloc mp time k = Ok (Blocked (if 0 <? time then rt_tick k else 0), k') /\ runs k' s' c' x' /\ pool_at k' mp p [] us /\
    urgent q' x' /\ c' :: ready q' ≡ₚ ready (wq s) /\
    threads k' !! c = Some (with_stat (suspend_stat RT_UNINTERRUPTIBLE) {x with th_error := RT_EOK}).
Proof using Hmax.
  clear Hword. intros Hr Hp Hh Hlock Hp0 Hq0 HT Ht0 Hto. pose proof Hp as [(z & Hz & _ & Hn) _ _ _].
  pose proof (runs_error prio_max Hmax k s c x RT_EOK Hr) as Hr1. set (x1 := {x with th_error := RT_EOK}) in *. set (k1 := with_error RT_EOK c x k) in *.
  assert (frame k k1) as Hf1 by (by split).
  destruct (suspend_world prio_max Hmax k1 s c x1 RT_UNINTERRUPTIBLE Hr1) as (k2 & E2 & Hw2 & Hf2 & Ht2 & Hc2); [by right; right|].
  rewrite stop_timer_alone in Hw2. change (thread_timer x1) with (thread_timer x) in Hw2. destruct (stop_timer_fields (thread_timer x) s) as (Fq & Fh & Fw & _ & _).
  set (s1 := stop_timer (thread_timer x) s) in *. set (x2 := with_stat (suspend_stat RT_UNINTERRUPTIBLE) x1) in *. pose proof (ru_thread _ _ _ _ _ Hr1) as Hx1.
  assert (threads k2 !! c = Some x2) as Hx2 by (rewrite Ht2; apply lookup_insert_eq).
  assert (RtWorld.thread_ok prio_max k2 s1 c) as Hok2.
  { eapply (thread_ok_alike prio_max k1 k2 s s1 c x1 x2); [exact Hf2|exact Hx1|exact Hx2|by unfold alike| |exact (ru_ok _ _ _ _ _ Hr1)].
    apply stop_timer_timers. eapply timers_inv_nodup. apply Hr. }
  assert (forall R, rings (links k2) ((SuspendHead mp, TList <$> wwait s1 (SuspendHead mp)) :: (TList c, []) :: R) ->
    exists l, rt_list_insert_after (SuspendHead mp) (TList c) (links k2) = Ok (tt, l) /\ rings l ((SuspendHead mp, TList <$> c :: wwait s1 (SuspendHead mp)) :: R)) as Hop.
  { intros R HR. exact (ring_insert_after _ _ _ [] _ _ HR). }
  assert (SuspendHead mp ∈ wheads s1) as Hh1 by (by rewrite Fh). destruct (Hop _ (wait_ring_at prio_max k2 s1 c (SuspendHead mp) Hw2 Hh1)) as (l & El & _).
  assert (winv prio_max {k2 with links := l} (set_wait (SuspendHead mp) (c :: wwait s1 (SuspendHead mp)) s1)) as Hw3.
  { apply (join_world prio_max k2 l s1 c); [exact Hw2|done|by exists x2; split; [|apply with_stat_suspended; right; right]|exact Hok2|done|].
    intros R HR. destruct (Hop R HR) as (l' & El' & Hl'). rewrite El in El'. by injection El' as <-. }
  set (k3 := {k2 with links := l}) in *. assert (frame k k3) as Hf3 by (etransitivity; [exact Hf1|etransitivity; [exact Hf2|by split]]).
  rewrite Fw in Hw3. destruct (block_world prio_max Hmax mask soft timer_thread k3 _ c x2 (SuspendHead mp) time T p0 Hw3)
    as (k' & q' & c' & x' & E4 & Hr' & Hu & HP & Hf4 & Hx' & _).
  - exact Hh1.
  - change (c ∈ wupd (wwait s1) (SuspendHead mp) (c :: wwait s (SuspendHead mp)) (SuspendHead mp)). rewrite wupd_same. by left.
  - exact Hc2.
  - exact Hx2.
  - apply (stopped_idle (thread_timer x) s). eapply thread_ok_timer; [apply Hr|exact (ru_thread _ _ _ _ _ Hr)].
  - rewrite (fr_lock _ _ Hf3). exact Hlock.
  - exact Hp0.
  - change (wq s1 p0 <> []). by rewrite Fq.
  - by rewrite (fr_tick _ _ Hf3).
  - exact Hto.
  - exists k', q', c', x'. cbv zeta. split; [|split; [exact Hr'|split; [|split; [exact Hu|split; [|exact Hx']]]]].
    + unfold rt_mp_alloc, mp_alloc_loop. step (by apply load_run; exact Hz). rewrite Hn. change (Z.of_nat (length (@nil Z)) =? 0) with true. cbv iota.
      rewrite (proj2 (Z.eqb_neq _ _) Ht0). step (by apply current_run; apply Hr). step (by apply set_thread_run; apply Hr). fold x1 k1. step (exact E2).
      step (by apply on_list_run; exact El). fold k3. apply bind_ok in E4 as ([] & k4 & E4 & E5). rewrite <- (fr_tick _ _ Hf3). destruct (0 <? time); cbn [when] in E4.
      * rewrite bind_run with (a := rt_tick k3) (s1 := k4); [by step (exact E5)|]. unfold rt_tick_get. step (reflexivity). by step (exact E4).
      * injection E4 as <-. rewrite bind_run with (a := 0) (s1 := k3); [|reflexivity]. by step (exact E5).
    + eapply pool_at_frame; [|exact Hp]. by etransitivity.
    + etransitivity; [exact HP|]. change (ready (wq s1) ≡ₚ ready (wq s)). by rewrite Fq.
Qed.
End MempoolFacts.
