(* ===== verification/RtIpcDemo.v ===== *)
(** * RT-Thread: a small system with one object of each kind

    Four threads and five objects, made by the functions of the kernel: thread 1 has
    priority 0 and runs, threads 2 and 3 have priority 1, thread 4 is the idle thread. *)
From S2P Require Import Prelude Outcome RtList RtKernel RtSched RtObject RtTimer RtThread RtTimerStart RtTimerFacts.
From S2P Require Import RtSchedFacts RtSchedRun RtWorld RtIpc RtWorldOps RtWait RtWorldSched RtSem RtMutex RtEvent RtMailbox RtMqueue RtMempool.
#[local] Open Scope string_scope.
#[local] Open Scope list_scope.
#[local] Open Scope Z_scope.

Definition ipc_config : rt_config :=
  {| using_semaphore := true; using_mutex := true; using_event := true; using_mailbox := true; using_messagequeue := true; using_memheap := false;
     using_mempool := true; using_device := true; using_module := false; using_heap := true; using_smart := false |}.

Definition no_kernel : kernel :=
  {| links := ∅; objects := ∅; threads := ∅; timers := ∅; semaphores := ∅; mutexes := ∅; events := ∅; mailboxes := ∅; messagequeues := ∅; mempools := ∅; block_words := ∅;
     rt_thread_ready_priority_group := 0; rt_thread_ready_table := []; rt_scheduler_lock_nest := 0; rt_current_thread := None; rt_current_priority := 0;
     context_switches := []; timeouts := []; rt_tick := 0xfffffffe; random_nr := 0; soft_timer_status := 1; rt_errno := 0 |}.

(** Blocks of the heap: fresh names. *)
Definition ipc_malloc (class : Z) (k : kernel) : option objid :=
  if class =? RT_Object_Class_Thread then Some (OThread (Z.of_nat (size (threads k)) + 1)) else Some (OOther (Z.of_nat (size (objects k)) + 100)).
Definition stack_malloc (size : Z) (k : kernel) : option Z := Some 4096.
Definition words_malloc (size : Z) (k : kernel) : option (list Z) := Some (replicate (Z.to_nat (size / 8)) 0).
Definition bytes_malloc (size : Z) (k : kernel) : option (list Z) := Some (replicate (Z.to_nat size) 0).

Definition ipc_thread (prio : Z) : K unit :=
  o ← rt_thread_create 4 ipc_config 8 ipc_malloc stack_malloc 1 [116; 48 + prio] 5 0 1024 prio 10;
  match o with Some t => rt_thread_startup 4 1 t ;; mret tt | None => abort "no memory" end.

Definition ipc_boot : K unit :=
  rt_system_scheduler_init 4 ;;
  rt_system_timer_init 1 ;;
  iter_list (fun i => on_list (rt_list_init (ObjHead i))) (seq 0 12) ;;
  on_list (rt_list_init DefunctHead) ;;
  iter_list ipc_thread [0; 1; 1; 3] ;;
  rt_sem_create ipc_config 8 ipc_malloc [115] 0 RT_IPC_FLAG_FIFO ;;
  rt_mutex_create ipc_config 8 ipc_malloc [109] 0 ;;
  rt_event_create ipc_config 8 ipc_malloc [101] RT_IPC_FLAG_FIFO ;;
  rt_mb_create ipc_config 8 ipc_malloc words_malloc 8 [98] 2 RT_IPC_FLAG_PRIO ;;
  rt_mq_create ipc_config 8 ipc_malloc bytes_malloc 8 4 [113] 3 2 RT_IPC_FLAG_PRIO ;;
  rt_system_scheduler_start 4.

Definition after (m : K unit) (k : kernel) : kernel := match m k with Ok (_, k') => k' | _ => k end.
Definition ipc_demo : kernel := after ipc_boot no_kernel.

Definition ipc_queue (p : Z) : list Z := if p =? 1 then [3; 2] else if p =? 3 then [4] else [].
Definition ipc_heads : list knode := [SuspendHead 108; SuspendHead 109; SuspendHead 110; SuspendHead 111; SenderHead 111; SuspendHead 112; SenderHead 112].
Definition ipc_world : world :=
  {| wq := ipc_queue; wheads := ipc_heads; wwait := fun _ => []; wactive := []; widle := [1; 2; 3; 4]; wdue := fun _ => 0; wother := [] |}.

(** The state of a thread. *)
Definition no_thread : rt_thread :=
  {| th_entry := 0; th_parameter := 0; RtKernel.stack_addr := 0; RtKernel.stack_size := 0; stat := 0; current_priority := 0; init_priority := 0;
     number := 0; number_mask := 0; high_mask := 0; th_init_tick := 0; remaining_tick := 0; th_error := 0; thread_timer := 0; cleanup := 0;
     pending_object := None; event_set := 0; event_info := 0 |}.
Definition thread_of (k : kernel) (t : Z) : rt_thread := match threads k !! t with Some x => x | None => no_thread end.

Lemma ipc_demo_runs : runs 4 ipc_demo ipc_world 1 (thread_of ipc_demo 1).
Proof. apply check_runs_at; [lia|vm_compute; reflexivity|vm_compute; reflexivity]. Qed.

(** Thread 1 has waited for the semaphore without limit: thread 3 runs. *)
Definition ipc_waiting : kernel := after (rt_sem_take 4 1 3 false 0 108 (-1) ;; mret tt) ipc_demo.
Definition ipc_waiting_world : world :=
  {| wq := fun p => if p =? 1 then [2] else if p =? 3 then [4] else []; wheads := ipc_heads;
     wwait := fun h => if decide (h = SuspendHead 108) then [1] else []; wactive := []; widle := [1; 2; 3; 4]; wdue := fun _ => 0; wother := [] |}.

Lemma ipc_waiting_runs : runs 4 ipc_waiting ipc_waiting_world 3 (thread_of ipc_waiting 3).
Proof. apply check_runs_at; [lia|vm_compute; reflexivity|vm_compute; reflexivity]. Qed.

(** Threads 1 and 3 wait for events, the first for two of them at once and to clear them:
    thread 2 runs. *)
Definition ipc_events : kernel :=
  after (rt_event_recv 4 1 3 false 0 110 3 5 (-1) ;; rt_event_recv 4 1 3 false 0 110 4 2 (-1) ;; mret tt) ipc_demo.
Definition ipc_events_world : world :=
  {| wq := fun p => if p =? 3 then [4] else []; wheads := ipc_heads;
     wwait := fun h => if decide (h = SuspendHead 110) then [1; 3] else []; wactive := []; widle := [1; 2; 3; 4]; wdue := fun _ => 0; wother := [] |}.

Lemma ipc_events_runs : runs 4 ipc_events ipc_events_world 2 (thread_of ipc_events 2).
Proof. apply check_runs_at; [lia|vm_compute; reflexivity|vm_compute; reflexivity]. Qed.

(** Thread 3 has the mutex, and thread 1, more urgent, runs. *)
Definition taken_none : list kring := (TakenNode 109, []) :: ((fun t => (TakenHead t, [])) <$> [1; 2; 3; 4]).
Definition ipc_free_world : world := {ipc_world with wother := taken_none}.

Definition ipc_held : kernel :=
  after (rt_sem_take 4 1 3 false 0 108 (-1) ;; rt_mutex_take 4 1 3 false 0 8 109 (-1) ;; rt_sem_release 4 1 108 ;; mret tt) ipc_demo.
Definition ipc_held_world : world :=
  {| wq := fun p => if p =? 1 then [3; 2] else if p =? 3 then [4] else []; wheads := ipc_heads; wwait := fun _ => []; wactive := []; widle := [1; 2; 3; 4];
     wdue := fun _ => 0; wother := [(TakenHead 3, [TakenNode 109]); (TakenHead 1, []); (TakenHead 2, []); (TakenHead 4, [])] |}.

Lemma ipc_free_runs : runs 4 ipc_demo ipc_free_world 1 (thread_of ipc_demo 1).
Proof. apply check_runs_at; [lia|vm_compute; reflexivity|vm_compute; reflexivity]. Qed.
Lemma ipc_held_runs : runs 4 ipc_held ipc_held_world 1 (thread_of ipc_held 1).
Proof. apply check_runs_at; [lia|vm_compute; reflexivity|vm_compute; reflexivity]. Qed.

(** Thread 1 waits for the mutex: thread 3 runs with the priority of thread 1. *)
Definition ipc_inherits : kernel := after (rt_mutex_take 4 1 3 false 0 8 109 (-1) ;; mret tt) ipc_held.
Definition ipc_inherits_world : world :=
  {| wq := fun p => if p =? 1 then [2] else if p =? 3 then [4] else []; wheads := ipc_heads;
     wwait := fun h => if decide (h = SuspendHead 109) then [1] else []; wactive := []; widle := [1; 2; 3; 4]; wdue := fun _ => 0;
     wother := [(TakenHead 3, [TakenNode 109]); (TakenHead 1, []); (TakenHead 2, []); (TakenHead 4, [])] |}.

Lemma ipc_inherits_runs : runs 4 ipc_inherits ipc_inherits_world 3 (thread_of ipc_inherits 3).
Proof. apply check_runs_at; [lia|vm_compute; reflexivity|vm_compute; reflexivity]. Qed.

(** The same with a pool of two blocks of 16 bytes at the address 4096. *)
Definition ipc_pool : kernel :=
  after (rt_mp_create ipc_config 8 ipc_malloc (fun _ _ => Some 4096) 8 8 [112; 108] 2 12 ;; mret tt) ipc_demo.
Definition ipc_pool_world : world := {ipc_world with wheads := SuspendHead 113 :: ipc_heads}.

Lemma ipc_pool_runs : runs 4 ipc_pool ipc_pool_world 1 (thread_of ipc_pool 1).
Proof. apply check_runs_at; [lia|vm_compute; reflexivity|vm_compute; reflexivity]. Qed.

(** Both blocks are in use and thread 1 waits for one. *)
Definition ipc_pool_empty : kernel :=
  after (rt_mp_alloc 4 8 1 3 false 0 113 0 ;; rt_mp_alloc 4 8 1 3 false 0 113 0 ;; rt_mp_alloc 4 8 1 3 false 0 113 (-1) ;; mret tt) ipc_pool.
Definition ipc_pool_empty_world : world :=
  {| wq := fun p => if p =? 1 then [2] else if p =? 3 then [4] else []; wheads := SuspendHead 113 :: ipc_heads;
     wwait := fun h => if decide (h = SuspendHead 113) then [1] else []; wactive := []; widle := [1; 2; 3; 4]; wdue := fun _ => 0; wother := [] |}.

Lemma ipc_pool_empty_runs : runs 4 ipc_pool_empty ipc_pool_empty_world 3 (thread_of ipc_pool_empty 3).
Proof. apply check_runs_at; [lia|vm_compute; reflexivity|vm_compute; reflexivity]. Qed.
