(* ===== verification/RtKservice.v ===== *)
(** * RT-Thread: src/kservice.c

    The memory and string functions and the formatted output; the entry points of the
    system heap are in [RtHeap].  Memory is a byte array indexed by address, as for klib;
    [ws] is sizeof(rt_ubase_t) and sizeof(long), [char_signed] says whether a plain [char]
    is signed.  The configuration is that of bsp/abstract-machine: RT_PRINTF_PRECISION,
    RT_PRINTF_SPECIAL and RT_KPRINTF_USING_LONGLONG.  A loop that runs to a terminator has
    fuel. *)
From S2P Require Import Prelude Outcome Bytes KString KStdlib KStdio.
#[local] Open Scope string_scope.
#[local] Open Scope list_scope.
#[local] Open Scope Z_scope.

(** An [int] of the program, which must not overflow. *)
Definition as_int (x : Z) : outcome Z := if bool_decide (in_s 32 x) then Ok x else Undef "signed overflow".

Section Memory.
Variables (ws : nat) (char_signed : bool).

(** A word of the memory. *)
Definition ld_word (m : harray) (a : Z) : Z := ha_read m a (Z.of_nat ws).
Definition st_word (m : harray) (a v : Z) : harray := ha_write m a (Z.of_nat ws) v.
Definition unaligned (a : Z) : bool := negb (Z.land a (Z.of_nat ws - 1) =? 0).

(** [while (count--) *m++ = d] *)
Fixpoint set_bytes (n : nat) (p d : Z) (m : harray) : harray :=
  match n with O => m | S n' => set_bytes n' (p + 1) d (ha_set m p d) end.

(** [k] times [*aligned_addr++ = buffer] *)
Fixpoint set_words (k : nat) (a buffer : Z) (m : harray) : harray :=
  match k with O => m | S k' => set_words k' (a + Z.of_nat ws) buffer (st_word m a buffer) end.

(** The loop that stores [k] words at a time: the memory, the address and what is left. *)
Fixpoint set_loop (fuel k : nat) (a count buffer : Z) (m : harray) : outcome (harray * Z * Z) :=
  match fuel with
  | O => Undef "the loop does not end"
  | S fuel' =>
      let n := Z.of_nat (k * ws) in
      if n <=? count then set_loop fuel' k (a + n) (count - n) buffer (set_words k a buffer m) else Ok (m, a, count)
  end.

Definition rt_memset (s c count : Z) (m : harray) : outcome harray :=
  let d := Z.land (u32 c) 255 in
  if negb ((Nat.eqb ws 2) || (Nat.eqb ws 4) || (Nat.eqb ws 8)) then Abort "LBLOCKSIZE == 2 || LBLOCKSIZE == 4 || LBLOCKSIZE == 8"
  else
    '(m, p, count) ← (
      if negb (count <? Z.of_nat ws) && negb (unaligned s) then
        let buffer := le_combine (replicate ws d) in
        '(m, a, count) ← set_loop (S (Z.to_nat count)) 4 s count buffer m;
        set_loop (S (Z.to_nat count)) 1 a count buffer m
      else Ok (m, s, count));
    Ok (set_bytes (Z.to_nat count) p d m).

(** [k] times [*aligned_dst++ = *aligned_src++] *)
Fixpoint copy_words (k : nat) (d s : Z) (m : harray) : harray :=
  match k with
  | O => m
  | S k' => copy_words k' (d + Z.of_nat ws) (s + Z.of_nat ws) (st_word m d (ld_word m s))
  end.

Fixpoint copy_loop (fuel k : nat) (d s len : Z) (m : harray) : outcome (harray * Z * Z * Z) :=
  match fuel with
  | O => Undef "the loop does not end"
  | S fuel' =>
      let n := Z.of_nat (k * ws) in
      if n <=? len then copy_loop fuel' k (d + n) (s + n) (len - n) (copy_words k d s m) else Ok (m, d, s, len)
  end.

(** The byte loops are those of klib: [KString.memcpy] copies upwards, [copy_down]
    downwards from the ends. *)
Definition rt_memcpy (dst src count : Z) (m : harray) : outcome harray :=
  '(m, d, s, len) ← (
    if negb (count <? 4 * Z.of_nat ws) && negb (unaligned src || unaligned dst) then
      '(m, d, s, len) ← copy_loop (S (Z.to_nat count)) 4 dst src count m;
      copy_loop (S (Z.to_nat len)) 1 d s len m
    else Ok (m, dst, src, count));
  Ok (KString.memcpy (Z.to_nat len) d s m).

Definition rt_memmove (dest src : Z) (n : nat) (m : harray) : harray :=
  if (src <? dest) && (dest <? src + Z.of_nat n)
  then copy_down n (dest + Z.of_nat n) (src + Z.of_nat n) m
  else KString.memcpy n dest src m.

Fixpoint rt_memcmp (count : nat) (m : harray) (su1 su2 : Z) : Z :=
  match count with
  | O => 0
  | S count' =>
      let res := ha_get m su1 - ha_get m su2 in
      if negb (res =? 0) then res else rt_memcmp count' m (su1 + 1) (su2 + 1)
  end.

(** ** Strings *)

(** The value of a plain [char]. *)
Definition char_value (b : Z) : Z := if char_signed then sext 8 b else b.

Fixpoint len_loop (fuel : nat) (m : harray) (s n : Z) : outcome Z :=
  match fuel with
  | O => Undef "a string that does not end"
  | S fuel' => if ha_get m (s + n) =? 0 then Ok n else len_loop fuel' m s (n + 1)
  end.
Definition rt_strlen (fuel : nat) (m : harray) (s : Z) : outcome Z := len_loop fuel m s 0.

Fixpoint nlen_loop (fuel : nat) (m : harray) (s n maxlen : Z) : outcome Z :=
  match fuel with
  | O => Undef "a string that does not end"
  | S fuel' => if negb (ha_get m (s + n) =? 0) && (n <? maxlen) then nlen_loop fuel' m s (n + 1) maxlen else Ok n
  end.
Definition rt_strnlen (fuel : nat) (m : harray) (s maxlen : Z) : outcome Z := nlen_loop fuel m s 0 maxlen.

Fixpoint strstr_loop (fuel : nat) (m : harray) (s1 s2 l1 l2 : Z) : outcome (option Z) :=
  match fuel with
  | O => Undef "the loop does not end"
  | S fuel' =>
      if l2 <=? l1 then
        if rt_memcmp (Z.to_nat l2) m s1 s2 =? 0 then Ok (Some s1) else strstr_loop fuel' m (s1 + 1) s2 (l1 - 1) l2
      else Ok None
  end.
Definition rt_strstr (fuel : nat) (m : harray) (s1 s2 : Z) : outcome (option Z) :=
  l2 ← rt_strlen fuel m s2;
  if s32 l2 =? 0 then Ok (Some s1)
  else
    l1 ← rt_strlen fuel m s1;
    strstr_loop (S (Z.to_nat (s32 l1))) m s1 s2 (s32 l1) (s32 l2).

(** A letter in lower case. *)
Definition lower (c : Z) : Z := if (65 <=? c) && (c <=? 90) then c + (97 - 65) else c.
Fixpoint rt_strcasecmp (fuel : nat) (m : harray) (a b : Z) : outcome Z :=
  match fuel with
  | O => Undef "a string that does not end"
  | S fuel' =>
      let ca := lower (Z.land (ha_get m a) 0xff) in
      let cb := lower (Z.land (ha_get m b) 0xff) in
      if (ca =? cb) && negb (ca =? 0) then rt_strcasecmp fuel' m (a + 1) (b + 1) else Ok (ca - cb)
  end.

(** The inner loop of rt_strncpy writes the remaining zeros. *)
Fixpoint rt_strncpy (n : nat) (dst src : Z) (m : harray) : harray :=
  match n with
  | O => m
  | S n' =>
      let m := ha_set m dst (ha_get m src) in
      if ha_get m dst =? 0 then set_bytes n' (dst + 1) 0 m else rt_strncpy n' (dst + 1) (src + 1) m
  end.

Fixpoint rt_strcpy (fuel : nat) (dst src : Z) (m : harray) : outcome harray :=
  match fuel with
  | O => Undef "a string that does not end"
  | S fuel' =>
      if negb (ha_get m src =? 0) then rt_strcpy fuel' (dst + 1) (src + 1) (ha_set m dst (ha_get m src))
      else Ok (ha_set m dst 0)
  end.

(** The difference is kept in a [signed char]. *)
Fixpoint rt_strncmp (count : nat) (m : harray) (cs ct res : Z) : Z :=
  match count with
  | O => res
  | S count' =>
      let res := sext 8 (char_value (ha_get m cs) - char_value (ha_get m ct)) in
      if negb (res =? 0) || (ha_get m cs =? 0) then res else rt_strncmp count' m (cs + 1) (ct + 1) res
  end.

Fixpoint rt_strcmp (fuel : nat) (m : harray) (cs ct : Z) : outcome Z :=
  match fuel with
  | O => Undef "a string that does not end"
  | S fuel' =>
      if negb (ha_get m cs =? 0) && (char_value (ha_get m cs) =? char_value (ha_get m ct)) then rt_strcmp fuel' m (cs + 1) (ct + 1)
      else Ok (char_value (ha_get m cs) - char_value (ha_get m ct))
  end.
End Memory.

Definition rt_errno_strs : list string :=
  ["OK"; "ERROR"; "ETIMOUT"; "ERSFULL"; "ERSEPTY"; "ENOMEM"; "ENOSYS"; "EBUSY"; "EIO"; "EINTRPT"; "EINVAL"; "EUNKNOW"].

(** RT_EINVAL is 10; the negation of the smallest long overflows. *)
Definition rt_strerror (wl error : Z) : outcome string :=
  error ← (if error <? 0 then if bool_decide (in_s wl (- error)) then Ok (- error) else Undef "signed overflow" else Ok error);
  match rt_errno_strs !! Z.to_nat (if 10 + 1 <? error then 10 + 1 else error) with
  | Some s => Ok s
  | None => Undef "rt_errno_strs"
  end.

(** ** Formatted output *)

(** Where the output goes: the memory, the next address and the end of the buffer.  A
    character beyond the end is counted and not stored. *)
Record out := { o_mem : harray; o_str : Z; o_end : Z }.

Definition put (o : out) (c : Z) : out :=
  let o := if o_str o <? o_end o then {o with o_mem := ha_set (o_mem o) (o_str o) c} else o in
  {o with o_str ::= (fun p => p + 1)}.
Fixpoint put_n (n : nat) (c : Z) (o : out) : out := match n with O => o | S n' => put_n n' c (put o c) end.

(** [while (size-- > 0) put c]: the output and the last value of [size]. *)
Definition pad_while (c size : Z) (o : out) : outcome (out * Z) :=
  size' ← as_int (Z.min size 0 - 1); Ok (put_n (Z.to_nat size) c o, size').

Definition ZEROPAD : Z := 1.
Definition SIGN : Z := 2.
Definition PLUS : Z := 4.
Definition SPACE : Z := 8.
Definition LEFT : Z := 16.
Definition SPECIAL : Z := 32.
Definition LARGE : Z := 64.
Definition has (flags bit : Z) : bool := negb (Z.land flags bit =? 0).

(** The characters used here. *)
Definition ch_space : Z := 32.
Definition ch_minus : Z := 45.
Definition ch_plus : Z := 43.
Definition ch_0 : Z := 48.
Definition ch_percent : Z := 37.

(** The remainder and the quotient. *)
Definition divide (n base : Z) : Z * Z := (s32 (n mod base), u64 (s64 (n / base))).

(** [tmp], least significant digit first; the array has 64 places. *)
Fixpoint number_digits (fuel : nat) (num base : Z) (large : bool) : outcome (list Z) :=
  if num =? 0 then Ok []
  else match fuel with
  | O => Undef "tmp"
  | S fuel' =>
      let '(r, q) := divide num base in
      ds ← number_digits fuel' q base large; Ok (digit_char large r :: ds)
  end.

(** The sign and the absolute value; the sign is 0 if none is printed.  A [long] has [wl]
    bits, also for the qualifier [L]. *)
Definition number_sign (wl num qualifier type : Z) : Z * Z :=
  if has type SIGN then
    let '(sign, num) :=
      if qualifier =? 104 then if sext 16 num <? 0 then (ch_minus, u16 (- num)) else (0, num)
      else if (qualifier =? 76) || (qualifier =? 108) then if sext wl num <? 0 then (ch_minus, wrap wl (- num)) else (0, num)
      else if s32 num <? 0 then (ch_minus, u32 (- num)) else (0, num) in
    (if sign =? ch_minus then sign else if has type PLUS then ch_plus else if has type SPACE then ch_space else 0, num)
  else (0, num).

(** The prefix of a number, and its length as the code counts it. *)
Definition special_prefix (type base : Z) : list Z :=
  if has type SPECIAL then
    if base =? 2 then [48; 98] else if base =? 8 then [48] else if base =? 16 then [48; if has type LARGE then 88 else 120] else []
  else [].
Definition special_size (type base : Z) : Z :=
  if has type SPECIAL then if (base =? 2) || (base =? 16) then 2 else if base =? 8 then 1 else 0 else 0.

Definition print_number (wl : Z) (o : out) (num base qualifier s precision type : Z) : outcome out :=
  let precision_bak := precision in
  let type := if has type LEFT then Z.land type (Z.lnot ZEROPAD) else type in
  let c := if has type ZEROPAD then ch_0 else ch_space in
  let '(sign, num) := number_sign wl num qualifier type in
  size ← as_int (s - special_size type base);
  tmp ← (if num =? 0 then Ok [48] else number_digits 64 num base (has type LARGE));
  let i := Z.of_nat (length tmp) in
  let precision := if precision <? i then i else precision in
  size ← as_int (size - precision);
  '(o, size) ← (
    if negb (has type (Z.lor ZEROPAD LEFT)) then
      pad_while ch_space (if negb (sign =? 0) && (0 <? size) then size - 1 else size) o
    else Ok (o, size));
  '(o, size) ← (if negb (sign =? 0) then size ← as_int (size - 1); Ok (put o sign, size) else Ok (o, size));
  let o := foldl put o (special_prefix type base) in
  '(o, size) ← (if negb (has type LEFT) then pad_while c size o else Ok (o, size));
  let o := put_n (Z.to_nat (precision - i)) ch_0 o in
  let o := if negb (precision_bak =? 0) then foldl put o (rev tmp) else o in
  '(o, size) ← pad_while ch_space size o;
  Ok o.

(** *** Parsing the format

    The format is a list of characters without the terminator. *)
Definition peek (fmt : list Z) : Z := hd 0 fmt.

Fixpoint skip_atoi (fmt : list Z) (i : Z) : outcome (Z * list Z) :=
  match fmt with
  | c :: fmt' =>
      if isdigit c then i ← as_int (i * 10); i ← as_int (i + c); i ← as_int (i - 48); skip_atoi fmt' i else Ok (i, fmt)
  | [] => Ok (i, fmt)
  end.

Fixpoint flag_loop (fmt : list Z) (flags : Z) : Z * list Z :=
  match fmt with
  | c :: fmt' =>
      if c =? 45 then flag_loop fmt' (Z.lor flags LEFT)
      else if c =? 43 then flag_loop fmt' (Z.lor flags PLUS)
      else if c =? 32 then flag_loop fmt' (Z.lor flags SPACE)
      else if c =? 35 then flag_loop fmt' (Z.lor flags SPECIAL)
      else if c =? 48 then flag_loop fmt' (Z.lor flags ZEROPAD)
      else (flags, fmt)
  | [] => (flags, fmt)
  end.

(** [va_arg(args, int)] *)
Definition arg_int (args : list va) : outcome (Z * list va) :=
  match args with VInt v :: args => Ok (s32 v, args) | _ => Undef "va_arg" end.

Definition get_width (fmt : list Z) (flags : Z) (args : list va) : outcome (Z * Z * list Z * list va) :=
  if isdigit (peek fmt) then '(w, fmt) ← skip_atoi fmt 0; Ok (w, flags, fmt, args)
  else if peek fmt =? 42 then
    '(w, args) ← arg_int args;
    if w <? 0 then w ← as_int (- w); Ok (w, Z.lor flags LEFT, tl fmt, args) else Ok (w, flags, tl fmt, args)
  else Ok (-1, flags, fmt, args).

Definition get_precision (fmt : list Z) (args : list va) : outcome (Z * list Z * list va) :=
  if peek fmt =? 46 then
    let fmt := tl fmt in
    '(p, fmt, args) ← (
      if isdigit (peek fmt) then '(p, fmt) ← skip_atoi fmt 0; Ok (p, fmt, args)
      else if peek fmt =? 42 then '(p, args) ← arg_int args; Ok (p, tl fmt, args)
      else Ok (-1, fmt, args));
    Ok (if p <? 0 then 0 else p, fmt, args)
  else Ok (-1, fmt, args).

Definition get_qualifier (fmt : list Z) : Z * list Z :=
  let c := peek fmt in
  if (c =? 104) || (c =? 108) || (c =? 76) then
    let fmt := tl fmt in
    if (c =? 108) && (peek fmt =? 108) then (76, tl fmt) else (c, fmt)
  else (0, fmt).

(** An integer argument: the qualifier says which type is read.  Without one the code reads
    an [unsigned long] and keeps 32 bits, which gives an [int] on the ABIs in use. *)
Definition arg_number (wl qualifier flags : Z) (args : list va) : outcome (Z * list va) :=
  match args with
  | VLLong v :: args => if qualifier =? 76 then Ok (u64 v, args) else Undef "va_arg"
  | VLong v :: args => if qualifier =? 108 then Ok (wrap wl v, args) else if qualifier =? 0 then Ok (u32 v, args) else Undef "va_arg"
  | VInt v :: args =>
      if qualifier =? 104 then Ok (if has flags SIGN then u64 (sext 16 (u16 v)) else u16 v, args)
      else if (qualifier =? 76) || (qualifier =? 108) then Undef "va_arg"
      else Ok (u32 v, args)
  | _ => Undef "va_arg"
  end.

(** [for (len = 0; (len != field_width) && (s[len] != '\0'); len++)] *)
Fixpoint field_len (s : list Z) (len field_width : Z) : Z :=
  match s with
  | [] => len
  | _ :: s' => if len =? field_width then len else field_len s' (len + 1) field_width
  end.

Definition print_string (o : out) (s : list Z) (field_width precision flags : Z) : outcome out :=
  let len := field_len s 0 field_width in
  let len := if (0 <? precision) && (precision <? len) then precision else len in
  (** [while (len < field_width--)]: the last value of the width *)
  let pad w o := (w' ← as_int (Z.min w len - 1); Ok (put_n (Z.to_nat (w - len)) ch_space o, w')) in
  '(o, field_width) ← (if negb (has flags LEFT) then pad field_width o else Ok (o, field_width));
  let o := foldl put o (take (Z.to_nat len) s) in
  '(o, field_width) ← pad field_width o;
  Ok o.

Definition print_char (o : out) (c field_width flags : Z) : outcome out :=
  (** [while (--field_width > 0)] *)
  let pad w o := (w' ← as_int (Z.min (w - 1) 0); Ok (put_n (Z.to_nat (w - 1)) ch_space o, w')) in
  '(o, field_width) ← (if negb (has flags LEFT) then pad field_width o else Ok (o, field_width));
  '(o, field_width) ← pad field_width (put o c);
  Ok o.

Definition null_text : list Z := [40; 78; 85; 76; 76; 41].

(** One conversion specification, after the flags and sizes: the rest of the format. *)
Definition convert_one (wl : Z) (o : out) (flags field_width precision qualifier : Z) (fmt : list Z) (args : list va)
  : outcome (out * list Z * list va) :=
  let c := peek fmt in
  let number base flags :=
    ('(num, args) ← arg_number wl qualifier flags args;
     o ← print_number wl o num base qualifier field_width precision flags;
     Ok (o, tl fmt, args)) in
  if c =? 99 then
    '(v, args) ← arg_int args; o ← print_char o (u8 v) field_width flags; Ok (o, tl fmt, args)
  else if c =? 115 then
    match args with
    | VStr s :: args => o ← print_string o (default null_text s) field_width precision flags; Ok (o, tl fmt, args)
    | _ => Undef "va_arg"
    end
  else if c =? 112 then
    match args with
    | VPtr p :: args =>
        let '(field_width, flags) :=
          if field_width =? -1 then (wl / 8 * 2 + 2, Z.lor (Z.lor flags SPECIAL) ZEROPAD) else (field_width, flags) in
        o ← print_number wl o (wrap wl p) 16 qualifier field_width precision flags;
        Ok (o, tl fmt, args)
    | _ => Undef "va_arg"
    end
  else if c =? ch_percent then Ok (put o ch_percent, tl fmt, args)
  else if c =? 98 then number 2 flags
  else if c =? 111 then number 8 flags
  else if c =? 88 then number 16 (Z.lor flags LARGE)
  else if c =? 120 then number 16 flags
  else if (c =? 100) || (c =? 105) then number 10 (Z.lor flags SIGN)
  else if c =? 117 then number 10 flags
  else
    let o := put o ch_percent in
    match fmt with [] => Ok (o, [], args) | c :: fmt => Ok (put o c, fmt, args) end.

Fixpoint format_loop (fuel : nat) (wl : Z) (o : out) (fmt : list Z) (args : list va) : outcome out :=
  match fuel with
  | O => Undef "the loop does not end"
  | S fuel' =>
      match fmt with
      | [] => Ok o
      | c :: fmt =>
          if negb (c =? ch_percent) then format_loop fuel' wl (put o c) fmt args
          else
            let '(flags, fmt) := flag_loop fmt 0 in
            '(field_width, flags, fmt, args) ← get_width fmt flags args;
            '(precision, fmt, args) ← get_precision fmt args;
            let '(qualifier, fmt) := get_qualifier fmt in
            '(o, fmt, args) ← convert_one wl o flags field_width precision qualifier fmt args;
            format_loop fuel' wl o fmt args
      end
  end.

(** The memory and the result; the pointers have [wl] bits. *)
Definition rt_vsnprintf (wl : Z) (m : harray) (buf size : Z) (fmt : list Z) (args : list va) : outcome (harray * Z) :=
  let end_ := wrap wl (buf + size) in
  let '(end_, size) := if end_ <? buf then (2 ^ wl - 1, 2 ^ wl - 1 - buf) else (end_, size) in
  o ← format_loop (S (length fmt)) wl {| o_mem := m; o_str := buf; o_end := end_ |} fmt args;
  let m := o_mem o in
  let m :=
    if 0 <? size then
      if o_str o <? end_ then ha_set m (o_str o) 0 else ha_set m (end_ - 1) 0
    else m in
  Ok (m, s32 (o_str o - buf)).

Definition rt_snprintf := rt_vsnprintf.
Definition rt_vsprintf (wl : Z) (m : harray) (buf : Z) (fmt : list Z) (args : list va) : outcome (harray * Z) :=
  rt_vsnprintf wl m buf (wrap wl (-1)) fmt args.
Definition rt_sprintf := rt_vsprintf.

(** *** The console *)

(** What is handed to the console: a string for rt_hw_console_output, or a number of bytes
    for the console's device. *)
Inductive console_call := hw_console_output (str : Z) | device_write (buffer size : Z).

Definition rt_kputs (fuel : nat) (console_device : bool) (m : harray) (str : Z) : outcome (option console_call) :=
  if str =? 0 then Ok None
  else if negb console_device then Ok (Some (hw_console_output str))
  else n ← rt_strlen fuel m str; Ok (Some (device_write str n)).

(** [RT_CONSOLEBUF_SIZE] is the size of [rt_log_buf]. *)
Definition rt_kprintf (wl RT_CONSOLEBUF_SIZE : Z) (console_device : bool) (rt_log_buf : Z) (m : harray) (fmt : list Z) (args : list va)
  : outcome (harray * console_call * Z) :=
  '(m, n) ← rt_vsnprintf wl m rt_log_buf (RT_CONSOLEBUF_SIZE - 1) fmt args;
  let length := wrap wl n in
  let length := if RT_CONSOLEBUF_SIZE - 1 <? length then RT_CONSOLEBUF_SIZE - 1 else length in
  let call := if negb console_device then hw_console_output rt_log_buf else device_write rt_log_buf length in
  Ok (m, call, s32 length).
