(* ===== verification/RtKserviceFacts.v ===== *)
(** * RT-Thread: what kservice.c does

    The functions that work on words do what the byte-wise functions do; the formatted
    output is a text that does not depend on the buffer, of which the beginning is
    stored. *)
From S2P Require Import Prelude Outcome Bytes KString KStdlib KStdio RtKservice.
#[local] Open Scope string_scope.
#[local] Open Scope list_scope.
#[local] Open Scope Z_scope.

Lemma ha_put_app m i xs ys : ha_put m i (xs ++ ys) = ha_put (ha_put m i xs) (i + Z.of_nat (length xs)) ys.
Proof.
  revert m i. induction xs as [|x xs IH]; intros m i; cbn [app ha_put length]; [by rewrite Z.add_0_r|].
  rewrite IH. f_equal. lia.
Qed.

Lemma ha_get_n_shift m m' d s n1 n2 xs :
  ha_equiv m' (ha_put m d xs) -> length xs = n1 -> d <= s \/ s + Z.of_nat (n1 + n2) <= d ->
  ha_get_n m' (s + Z.of_nat n1) n2 = ha_get_n m (s + Z.of_nat n1) n2.
Proof. intros -> Hl Hd. apply ha_get_n_put_other. lia. Qed.

Section MemoryFacts.
Variable ws : nat.
Context (Hws : ws = 2%nat \/ ws = 4%nat \/ ws = 8%nat).

Lemma word_sizes : negb ((Nat.eqb ws 2) || (Nat.eqb ws 4) || (Nat.eqb ws 8)) = false.
Proof using Hws. by destruct Hws as [-> | [-> | ->]]. Qed.

(** ** Setting a block *)

Lemma set_bytes_put n p d m : set_bytes n p d m = ha_put m p (replicate n d).
Proof using Type. clear. revert p m. induction n as [|n IH]; intros p m; [done|]. cbn. apply IH. Qed.

Lemma st_splat m a d : in_u 8 d -> st_word ws m a (le_combine (replicate ws d)) = ha_put m a (replicate ws d).
Proof using Type.
  clear. intros Hd. unfold st_word, ha_write. rewrite Nat2Z.id. f_equal. rewrite <- (length_replicate ws d) at 1.
  apply le_split_combine. by apply Forall_replicate.
Qed.

Lemma set_words_put k a d m : in_u 8 d -> set_words ws k a (le_combine (replicate ws d)) m = ha_put m a (replicate (k * ws) d).
Proof using Type.
  clear. intros Hd. revert a m. induction k as [|k IH]; intros a m; cbn [set_words]; [done|].
  rewrite IH, st_splat by done. change (S k * ws)%nat with (ws + k * ws)%nat. by rewrite replicate_add, ha_put_app, length_replicate.
Qed.

(** The loop leaves less than [k] words. *)
Lemma set_loop_run fuel k a count d m :
  in_u 8 d -> (0 < k)%nat -> 0 <= count < Z.of_nat fuel ->
  exists n, set_loop ws fuel k a count (le_combine (replicate ws d)) m =
    Ok (ha_put m a (replicate n d), a + Z.of_nat n, count - Z.of_nat n) /\ Z.of_nat n <= count.
Proof using Hws.
  intros Hd Hk. revert a count m. induction fuel as [|fuel IH]; intros a count m Hc; [lia|]. cbn [set_loop].
  assert (0 < k * ws)%nat as Hkw by (destruct Hws as [-> | [-> | ->]]; lia). destruct (Z.leb_spec (Z.of_nat (k * ws)) count) as [Hle|Hgt].
  - rewrite set_words_put by done.
    destruct (IH (a + Z.of_nat (k * ws)) (count - Z.of_nat (k * ws)) (ha_put m a (replicate (k * ws) d))) as (n & -> & Hn); [lia|].
    exists (k * ws + n)%nat. split; [|lia]. rewrite replicate_add, ha_put_app, length_replicate.
    replace (a + Z.of_nat (k * ws + n)) with (a + Z.of_nat (k * ws) + Z.of_nat n) by lia.
    by replace (count - Z.of_nat (k * ws + n)) with (count - Z.of_nat (k * ws) - Z.of_nat n) by lia.
  - exists O. split; [|lia]. cbn [replicate ha_put]. by rewrite Z.add_0_r, Z.sub_0_r.
Qed.

Lemma land_byte c : Z.land (u32 c) 255 = u8 c.
Proof using Type. clear. change 255 with (Z.ones 8). rewrite Z.land_ones by lia. unfold wrap. apply Z.mod_mod_divide. by exists (2 ^ 24). Qed.

(** rt_memset is the loop over bytes. *)
Lemma memset_run s c count m : 0 <= count -> rt_memset ws s c count m = Ok (ha_put m s (replicate (Z.to_nat count) (u8 c))).
Proof using Hws.
  intros Hc. unfold rt_memset. rewrite word_sizes, land_byte. set (d := u8 c). assert (in_u 8 d) as Hd by (apply wrap_range; lia).
  destruct (negb (count <? Z.of_nat ws) && negb (unaligned ws s)).
  - destruct (set_loop_run (S (Z.to_nat count)) 4 s count d m Hd) as (n1 & E1 & H1); [lia|lia|]. rewrite E1. cbn [mbind outcome_bind].
    destruct (set_loop_run (S (Z.to_nat (count - Z.of_nat n1))) 1 (s + Z.of_nat n1) (count - Z.of_nat n1) d (ha_put m s (replicate n1 d)) Hd) as (n2 & E2 & H2); [lia|lia|].
    rewrite E2. cbn [mbind outcome_bind]. rewrite set_bytes_put. f_equal.
    replace (Z.to_nat count) with (n1 + (n2 + Z.to_nat (count - Z.of_nat n1 - Z.of_nat n2)))%nat by lia.
    rewrite !replicate_add, !ha_put_app, !length_replicate. f_equal; lia.
  - cbn [mbind outcome_bind]. by rewrite set_bytes_put.
Qed.

(** ** Copying a block *)

(** The blocks do not overlap, or the copy goes to lower addresses. *)
Definition copies_up (d s : Z) (n : nat) : Prop := d <= s \/ s + Z.of_nat n <= d.

(** Two copies in a row are one. *)
Lemma copy_chain m m1 d s n1 n2 :
  copies_up d s (n1 + n2) -> ha_equiv m1 (ha_put m d (ha_get_n m s n1)) ->
  ha_equiv (ha_put m1 (d + Z.of_nat n1) (ha_get_n m1 (s + Z.of_nat n1) n2)) (ha_put m d (ha_get_n m s (n1 + n2))).
Proof using Type.
  clear. intros Hd E. rewrite (ha_get_n_shift m m1 d s n1 n2 _ E (length_ha_get_n _ _ _) Hd). rewrite ha_get_n_app, ha_put_app, length_ha_get_n.
  by rewrite E.
Qed.

Lemma copy_word m d s : ha_ok m -> st_word ws m d (ld_word ws m s) = ha_put m d (ha_get_n m s ws).
Proof using Type.
  clear. intros Hm. unfold st_word, ld_word, ha_write, ha_read. rewrite Nat2Z.id. f_equal. rewrite <- (length_ha_get_n m s ws) at 1.
  apply le_split_combine. by apply ha_get_n_bytes.
Qed.

Lemma copy_words_put k d s m : ha_ok m -> copies_up d s (k * ws) ->
  ha_equiv (copy_words ws k d s m) (ha_put m d (ha_get_n m s (k * ws))) /\ ha_ok (copy_words ws k d s m).
Proof using Type.
  clear. revert d s m. induction k as [|k IH]; intros d s m Hm Hd; cbn [copy_words]; [done|]. rewrite copy_word by done.
  set (m1 := ha_put m d (ha_get_n m s ws)). destruct (IH (d + Z.of_nat ws) (s + Z.of_nat ws) m1) as [E Hok]; [by apply ha_put_ok|unfold copies_up in *; lia|].
  split; [|done]. rewrite E. change (S k * ws)%nat with (ws + k * ws)%nat. by apply copy_chain.
Qed.

Lemma copy_loop_run fuel k d s len m :
  ha_ok m -> (0 < k)%nat -> 0 <= len < Z.of_nat fuel -> copies_up d s (Z.to_nat len) ->
  exists n m', copy_loop ws fuel k d s len m = Ok (m', d + Z.of_nat n, s + Z.of_nat n, len - Z.of_nat n) /\ Z.of_nat n <= len /\
    ha_equiv m' (ha_put m d (ha_get_n m s n)) /\ ha_ok m'.
Proof using Hws.
  intros Hm Hk. revert d s len m Hm. induction fuel as [|fuel IH]; intros d s len m Hm Hl Hd; [lia|]. cbn [copy_loop].
  assert (0 < k * ws)%nat as Hkw by (destruct Hws as [-> | [-> | ->]]; lia). destruct (Z.leb_spec (Z.of_nat (k * ws)) len) as [Hle|Hgt].
  - destruct (copy_words_put k d s m Hm) as [E1 Hok1]; [unfold copies_up in *; lia|]. set (m1 := copy_words ws k d s m) in *.
    destruct (IH (d + Z.of_nat (k * ws)) (s + Z.of_nat (k * ws)) (len - Z.of_nat (k * ws)) m1 Hok1) as (n & m' & -> & Hn & E2 & Hok2); [lia|unfold copies_up in *; lia|].
    exists (k * ws + n)%nat, m'. split; [|split; [lia|split; [|done]]].
    + replace (d + Z.of_nat (k * ws + n)) with (d + Z.of_nat (k * ws) + Z.of_nat n) by lia.
      replace (s + Z.of_nat (k * ws + n)) with (s + Z.of_nat (k * ws) + Z.of_nat n) by lia.
      by replace (len - Z.of_nat (k * ws + n)) with (len - Z.of_nat (k * ws) - Z.of_nat n) by lia.
    + rewrite E2. apply copy_chain; [unfold copies_up in *; lia|done].
  - exists O, m. split; [|split; [lia|done]]. cbn [Z.of_nat]. by rewrite !Z.add_0_r, Z.sub_0_r.
Qed.

Lemma memcpy_ok n d s m : ha_ok m -> ha_ok (KString.memcpy n d s m).
Proof using Type. clear. revert d s m. induction n as [|n IH]; intros d s m Hm; [done|]. by apply IH, ha_set_ok. Qed.

(** rt_memcpy is the loop over bytes. *)
Lemma rt_memcpy_run d s count m : ha_ok m -> 0 <= count -> copies_up d s (Z.to_nat count) ->
  exists m', rt_memcpy ws d s count m = Ok m' /\ ha_equiv m' (ha_put m d (ha_get_n m s (Z.to_nat count))) /\ ha_ok m'.
Proof using Hws.
  intros Hm Hc Hd. unfold rt_memcpy. destruct (negb (count <? 4 * Z.of_nat ws) && negb (unaligned ws s || unaligned ws d)).
  - destruct (copy_loop_run (S (Z.to_nat count)) 4 d s count m Hm) as (n1 & m1 & E1 & H1 & P1 & Hok1); [lia|lia|done|].
    rewrite E1. cbn [mbind outcome_bind].
    destruct (copy_loop_run (S (Z.to_nat (count - Z.of_nat n1))) 1 (d + Z.of_nat n1) (s + Z.of_nat n1) (count - Z.of_nat n1) m1 Hok1)
      as (n2 & m2 & E2 & H2 & P2 & Hok2); [lia|lia|unfold copies_up in *; lia|].
    rewrite E2. cbn [mbind outcome_bind]. eexists. split; [reflexivity|]. split; [|by apply memcpy_ok]. set (n3 := Z.to_nat (count - Z.of_nat n1 - Z.of_nat n2)).
    rewrite memcpy_put by (unfold copies_up in *; lia).
    assert (ha_equiv m2 (ha_put m d (ha_get_n m s (n1 + n2)))) as P by (rewrite P2; apply copy_chain; [unfold copies_up in *; lia|done]).
    replace (Z.to_nat count) with (n1 + n2 + n3)%nat by lia.
    replace (d + Z.of_nat n1 + Z.of_nat n2) with (d + Z.of_nat (n1 + n2)) by lia. replace (s + Z.of_nat n1 + Z.of_nat n2) with (s + Z.of_nat (n1 + n2)) by lia.
    apply copy_chain; [unfold copies_up in *; lia|done].
  - cbn [mbind outcome_bind]. eexists. split; [reflexivity|]. split; [|by apply memcpy_ok]. apply memcpy_put. unfold copies_up in *. lia.
Qed.
End MemoryFacts.

(** rt_memmove is right however the blocks overlap. *)
Lemma rt_memmove_run d s n m : ha_equiv (rt_memmove d s n m) (ha_put m d (ha_get_n m s n)).
Proof.
  unfold rt_memmove. destruct (Z.ltb_spec s d), (Z.ltb_spec d (s + Z.of_nat n)); cbn [andb]; (apply copy_down_put || apply memcpy_put); lia.
Qed.

(** ** Strings *)

Lemma rt_memcmp_run n m p q : rt_memcmp n m p q = str_diff (ha_get_n m p n) (ha_get_n m q n).
Proof.
  revert p q. induction n as [|n IH]; intros p q; [done|]. cbn [rt_memcmp ha_get_n str_diff]. rewrite IH.
  destruct (Z.eqb_spec (ha_get m p) (ha_get m q)) as [E|E].
  - by rewrite E, Z.sub_diag.
  - by rewrite (proj2 (Z.eqb_neq (ha_get m p - ha_get m q) 0)) by lia.
Qed.

Lemma rt_strlen_loop m s cs k fuel : cstr m (s + k) cs -> (length cs < fuel)%nat -> len_loop fuel m s k = Ok (k + Z.of_nat (length cs)).
Proof.
  revert k fuel. induction cs as [|c cs IH]; intros k fuel Hs Hf; (destruct fuel as [|fuel]; [cbn in Hf; lia|]); cbn [len_loop].
  - apply cstr_nil in Hs. rewrite Hs. cbn. f_equal. lia.
  - apply cstr_cons in Hs as (-> & Hc & Hs). rewrite (proj2 (Z.eqb_neq _ _) Hc). rewrite IH; [cbn [length]; f_equal; lia| |cbn in Hf; lia].
    by replace (s + (k + 1)) with (s + k + 1) by lia.
Qed.

Lemma rt_strlen_run m s cs fuel : cstr m s cs -> (length cs < fuel)%nat -> rt_strlen fuel m s = Ok (Z.of_nat (length cs)).
Proof. intros Hs Hf. unfold rt_strlen. rewrite (rt_strlen_loop m s cs 0); [done| |done]. by rewrite Z.add_0_r. Qed.

(** rt_strnlen also reads the character at the bound. *)
Lemma rt_strnlen_run m s cs k maxlen fuel :
  cstr m (s + k) cs -> 0 <= k <= maxlen -> (length cs < fuel)%nat -> nlen_loop fuel m s k maxlen = Ok (Z.min (k + Z.of_nat (length cs)) maxlen).
Proof.
  revert k fuel. induction cs as [|c cs IH]; intros k fuel Hs Hk Hf; (destruct fuel as [|fuel]; [cbn in Hf; lia|]); cbn [nlen_loop].
  - apply cstr_nil in Hs. rewrite Hs. cbn. f_equal. lia.
  - apply cstr_cons in Hs as (-> & Hc & Hs). rewrite (proj2 (Z.eqb_neq _ _) Hc). cbn [negb andb length] in *. destruct (Z.ltb_spec k maxlen) as [Hlt|Hge].
    + rewrite IH; [f_equal; lia|by replace (s + (k + 1)) with (s + k + 1) by lia|lia|lia].
    + f_equal. lia.
Qed.

(** The first occurrence of a text in another. *)
Definition occurs_at (hay needle : list Z) (i : nat) : Prop := take (length needle) (drop i hay) = needle.

Lemma cstr_take m p cs n : cstr m p cs -> (n <= length cs)%nat -> ha_get_n m p n = take n cs.
Proof.
  intros [E _] Hn. replace (length cs + 1)%nat with (n + (length cs + 1 - n))%nat in E by lia. rewrite ha_get_n_app in E.
  apply (f_equal (take n)) in E. rewrite take_app_length' in E by (by rewrite length_ha_get_n). by rewrite E, take_app_le.
Qed.

Lemma str_diff_same a b : length a = length b -> str_diff a b = 0 <-> a = b.
Proof.
  revert b. induction a as [|x a IH]; intros [|y b] Hl; try done. cbn [str_diff]. injection Hl as Hl. destruct (Z.eqb_spec x y) as [->|Hne].
  - rewrite IH by done. split; [by intros ->|by intros [= ->]].
  - split; [lia|by intros [= -> _]].
Qed.

Lemma occurs_at_bound hay needle i : occurs_at hay needle i -> needle <> [] -> (i + length needle <= length hay)%nat.
Proof.
  unfold occurs_at. intros E Hn. apply (f_equal length) in E. rewrite length_take, length_drop in E. destruct needle; [done|]. cbn [length] in *. lia.
Qed.

Lemma strstr_loop_run fuel m p s2 hay needle :
  cstr m p hay -> cstr m s2 needle -> needle <> [] -> (length hay < fuel)%nat ->
  exists r, strstr_loop fuel m p s2 (Z.of_nat (length hay)) (Z.of_nat (length needle)) = Ok r /\
    match r with
    | Some q => exists i, q = p + Z.of_nat i /\ occurs_at hay needle i /\ forall j, (j < i)%nat -> ~ occurs_at hay needle j
    | None => forall j, ~ occurs_at hay needle j
    end.
Proof.
  intros Hh Hs Hne. revert p hay Hh. induction fuel as [|fuel IH]; intros p hay Hh Hf; [lia|]. cbn [strstr_loop].
  destruct (Z.leb_spec (Z.of_nat (length needle)) (Z.of_nat (length hay))) as [Hle|Hgt].
  2:{ exists None. split; [done|]. intros j Hj. apply occurs_at_bound in Hj; [lia|done]. }
  rewrite Nat2Z.id, rt_memcmp_run. destruct (Z.eqb_spec (str_diff (ha_get_n m p (length needle)) (ha_get_n m s2 (length needle))) 0) as [E|E].
  - exists (Some p). split; [done|]. exists O. split; [lia|]. split; [|lia]. unfold occurs_at. rewrite drop_0.
    apply str_diff_same in E; [|by rewrite !length_ha_get_n]. rewrite (cstr_take m p hay) in E by (done || lia). rewrite E.
    rewrite (cstr_take m s2 needle) by done. by rewrite take_ge by lia.
  - assert (~ occurs_at hay needle 0) as Hno.
    { unfold occurs_at. rewrite drop_0. intros Eo. apply E, str_diff_same; [by rewrite !length_ha_get_n|].
      rewrite (cstr_take m p hay), (cstr_take m s2 needle) by (done || lia). rewrite Eo. by rewrite take_ge by lia. }
    destruct hay as [|c hay]; [destruct needle; [done|cbn in Hle; lia]|]. apply cstr_cons in Hh as (_ & _ & Hh). cbn [length] in *.
    destruct (IH (p + 1) hay Hh) as (r & Er & Hr); [lia|]. exists r. split; [by replace (Z.of_nat (S (length hay)) - 1) with (Z.of_nat (length hay)) by lia|].
    destruct r as [q|].
    + destruct Hr as (i & -> & Hi & Hmin). exists (S i). split; [lia|]. split; [done|]. intros [|j] Hj; [done|]. apply (Hmin j). lia.
    + intros [|j]; [done|]. apply (Hr j).
Qed.

Lemma rt_strstr_run fuel m s1 s2 hay needle :
  cstr m s1 hay -> cstr m s2 needle -> (length hay < fuel)%nat -> (length needle < fuel)%nat ->
  Z.of_nat (length hay) < 2 ^ 31 -> Z.of_nat (length needle) < 2 ^ 31 ->
  exists r, rt_strstr fuel m s1 s2 = Ok r /\
    match r with
    | Some q => exists i, q = s1 + Z.of_nat i /\ occurs_at hay needle i /\ forall j, (j < i)%nat -> ~ occurs_at hay needle j
    | None => forall j, ~ occurs_at hay needle j
    end.
Proof.
  intros Hh Hn Hf1 Hf2 H1 H2. unfold rt_strstr. rewrite (rt_strlen_run m s2 needle fuel Hn Hf2). cbn [mbind outcome_bind].
  rewrite (sext_small 32) by (unfold in_s; lia). destruct (Z.eqb_spec (Z.of_nat (length needle)) 0) as [E|E].
  - exists (Some s1). split; [done|]. exists O. split; [lia|]. split; [|lia]. destruct needle; [done|cbn in E; lia].
  - rewrite (rt_strlen_run m s1 hay fuel Hh Hf1). cbn [mbind outcome_bind]. rewrite (sext_small 32) by (unfold in_s; lia).
    apply strstr_loop_run; [done|done|by intros ->|lia].
Qed.

(** rt_strncmp tells whether the first characters are the same: the difference kept in a
    [signed char] is zero only for equal characters. *)
Lemma char_diff_same cs a b : in_u 8 a -> in_u 8 b -> sext 8 (char_value cs a - char_value cs b) = 0 <-> a = b.
Proof.
  intros Ha Hb. assert (forall x, char_value cs x = x \/ char_value cs x = sext 8 x) as Hc by (intros x; destruct cs; [by right|by left]).
  assert (forall x, wrap 8 (char_value cs x) = wrap 8 x) as Hw by (intros x; destruct (Hc x) as [-> | ->]; [done|by apply wrap_sext]).
  split; [|intros ->; by rewrite Z.sub_diag].
  intros E. apply (f_equal (wrap 8)) in E. rewrite wrap_sext, <- wrap_sub_l, <- wrap_sub_r, !Hw, wrap_sub_l, wrap_sub_r in E by lia.
  unfold in_u in *. unfold wrap in E. change (2 ^ 8) with 256 in *. rewrite Z.mod_0_l in E by lia. apply Z.mod_divide in E as [k Hk]; lia.
Qed.

(** The first [n] characters of a string, with the terminator if it is among them. *)
Definition first_chars (n : nat) (cs : list Z) : list Z := take n (cs ++ [0]).

Lemma rt_strncmp_run cs n m p q a b res :
  ha_ok m -> cstr m p a -> cstr m q b -> (0 < n)%nat ->
  rt_strncmp cs n m p q res = 0 <-> first_chars n a = first_chars n b.
Proof.
  intros Hm. revert p q a b res. induction n as [|n IH]; intros p q a b res Ha Hb Hn; [lia|]. cbn [rt_strncmp].
  pose proof (char_diff_same cs (ha_get m p) (ha_get m q) (ha_get_ok m p Hm) (ha_get_ok m q Hm)) as Hd. unfold first_chars.
  set (d := sext 8 (char_value cs (ha_get m p) - char_value cs (ha_get m q))) in *.
  assert (forall x l, cstr m x l -> hd 0 l = ha_get m x) as Hhd.
  { intros x [|y l] Hl; [apply cstr_nil in Hl|apply cstr_cons in Hl as [Hl _]]; by rewrite Hl. }
  pose proof (Hhd p a Ha) as Ea. pose proof (Hhd q b Hb) as Eb. clear Hhd.
  destruct (Z.eqb_spec d 0) as [E|E]; cbn [negb orb].
  2:{ split; [done|]. intros Et. exfalso. apply E, Hd. rewrite <- Ea, <- Eb. destruct a, b; cbn [app take hd] in *; congruence. }
  rewrite E. assert (ha_get m p = ha_get m q) as Eq by by apply Hd.
  destruct a as [|x a], b as [|y b].
  - apply cstr_nil in Ha. by rewrite Ha.
  - apply cstr_cons in Hb as (Hb & Hne & _). apply cstr_nil in Ha. congruence.
  - apply cstr_cons in Ha as (Ha & Hne & _). apply cstr_nil in Hb. congruence.
  - apply cstr_cons in Ha as (Ha & Hne & Ha'). apply cstr_cons in Hb as (Hb & _ & Hb').
    rewrite Ha, (proj2 (Z.eqb_neq x 0)) by done. cbn [app take]. assert (x = y) as -> by congruence.
    destruct n as [|n]; [done|]. rewrite IH by (done || lia). unfold first_chars. split; [by intros ->|by intros [= ->]].
Qed.

(** The copies of strings are those of klib. *)
Lemma rt_strncpy_klib n d s m : ha_ok m -> rt_strncpy n d s m = KString.strncpy n d s m.
Proof.
  revert d s m. induction n as [|n IH]; intros d s m Hm; [done|]. cbn [rt_strncpy KString.strncpy].
  rewrite ha_get_set, decide_True, wrap_small by (done || by apply ha_get_ok). destruct (Z.eqb_spec (ha_get m s) 0) as [E|E].
  - rewrite E, set_bytes_put, strncpy_pad_put. done.
  - apply IH. by apply ha_set_ok.
Qed.

Lemma rt_strncpy_run n d s m cs :
  ha_ok m -> cstr m s cs -> d <= s \/ s + Z.of_nat (length cs) < d ->
  ha_equiv (rt_strncpy n d s m) (ha_put m d (take n (cs ++ replicate (n - length cs) 0))).
Proof. intros Hm Hs Hd. rewrite rt_strncpy_klib by done. by apply strncpy_cstr. Qed.

(** ** Formatted output *)

Lemma put_app t1 t2 o : foldl put o (t1 ++ t2) = foldl put (foldl put o t1) t2.
Proof. apply foldl_app. Qed.

Lemma put_n_text n c o : put_n n c o = foldl put o (replicate n c).
Proof. revert o. induction n as [|n IH]; intros o; [done|]. apply IH. Qed.

(** A function that only adds a text to the output: neither the text nor the rest of the
    result depends on the buffer. *)
Definition writes {X Y} (f : out -> outcome Y) (mk : out -> X -> Y) : Prop :=
  exists r : outcome (list Z * X), forall o, f o = (tx ← r; Ok (mk (foldl put o tx.1) tx.2)).

Lemma writes_ret {X Y} (f : out -> Y) (mk : out -> X -> Y) t x : (forall o, f o = mk (foldl put o t) x) -> writes (fun o => Ok (f o)) mk.
Proof. intros H. exists (Ok (t, x)). intros o. by rewrite H. Qed.

Lemma writes_undef {X Y} (mk : out -> X -> Y) w : writes (fun _ => Undef w) mk.
Proof. by exists (Undef w). Qed.

Lemma writes_arg {X Y B} (a : outcome B) (f : B -> out -> outcome Y) (mk : out -> X -> Y) :
  (forall b, writes (f b) mk) -> writes (fun o => b ← a; f b o) mk.
Proof. intros H. destruct a as [b|w|w]; [apply (H b)|by exists (Abort w)|by exists (Undef w)]. Qed.

Lemma writes_bind {X Y X' Y'} (f : out -> outcome Y) (mk : out -> X -> Y) (g : Y -> outcome Y') (mk' : out -> X' -> Y') :
  writes f mk -> (forall x, writes (fun o => g (mk o x)) mk') -> writes (fun o => f o ≫= g) mk'.
Proof.
  intros [[[t x]|w|w] Hr] Hg.
  - destruct (Hg x) as [r Hx]. exists (tx ← r; Ok (t ++ tx.1, tx.2)). intros o. rewrite Hr. cbn [mbind outcome_bind fst snd].
    rewrite Hx. destruct r as [[t' x']|?|?]; [|done..]. cbn [mbind outcome_bind fst snd]. by rewrite put_app.
  - exists (Abort w). intros o. by rewrite Hr.
  - exists (Undef w). intros o. by rewrite Hr.
Qed.

Lemma writes_after {X Y} t (f : out -> out) (g : out -> outcome Y) (mk : out -> X -> Y) :
  (forall o, f o = foldl put o t) -> writes g mk -> writes (fun o => g (f o)) mk.
Proof.
  intros Hf [r Hr]. exists (tx ← r; Ok (t ++ tx.1, tx.2)). intros o. rewrite Hr, Hf.
  destruct r as [[t' x]|?|?]; [|done..]. cbn [mbind outcome_bind fst snd]. by rewrite put_app.
Qed.

(** The shapes of the results. *)
Definition just_out (o : out) (_ : unit) : out := o.
Definition with_rest (o : out) (x : list Z * list va) : out * list Z * list va := (o, x.1, x.2).

Lemma pad_while_writes c size : writes (pad_while c size) (@pair out Z).
Proof.
  unfold pad_while. apply writes_arg. intros size'. apply (writes_ret _ _ (replicate (Z.to_nat size) c) size'). intros o. by rewrite put_n_text.
Qed.

Lemma writes_cond {X Y} (b : bool) (f g : out -> outcome Y) (mk : out -> X -> Y) : writes f mk -> writes g mk -> writes (fun o => if b then f o else g o) mk.
Proof. by destruct b. Qed.

(** *** Numbers *)

Lemma number_digits_run fuel n base up :
  2 <= base <= 16 -> 0 < n < base ^ Z.of_nat fuel -> n < 2 ^ 64 -> number_digits fuel n base up = Ok (digits_buffer fuel n base up).
Proof.
  intros Hb. revert n. induction fuel as [|fuel IH]; intros n Hn H64; [change (base ^ Z.of_nat 0) with 1 in Hn; lia|]. cbn [number_digits digits_buffer].
  rewrite (proj2 (Z.eqb_neq n 0)) by lia. unfold divide. pose proof (Z.mod_pos_bound n base ltac:(lia)) as Hm. pose proof (Z.div_mod n base ltac:(lia)) as Hdm.
  rewrite (sext_small 32) by (lia || (unfold in_s; lia)). assert (0 <= n / base < 2 ^ 63) as Hq.
  { split; [apply Z.div_pos; lia|]. apply Z.div_lt_upper_bound; [lia|]. change (2 ^ 64) with (2 * 2 ^ 63) in H64. pose proof (pow2_pos 63 ltac:(lia)). nia. }
  rewrite (sext_small 64) by (lia || (unfold in_s; lia)). rewrite wrap_small by (unfold in_u; lia).
  destruct (Z.eqb_spec (n / base) 0) as [E|E].
  - rewrite E. by destruct fuel.
  - rewrite IH; [done| |lia]. rewrite Nat2Z.inj_succ, Z.pow_succ_r in Hn by lia. split; [lia|]. apply Z.div_lt_upper_bound; lia.
Qed.

(** The digits of any 64-bit number fit in [tmp]. *)
Lemma number_tmp n base up :
  2 <= base <= 16 -> in_u 64 n -> (if n =? 0 then Ok [48] else number_digits 64 n base up) = Ok (digits_buffer 64 n base up).
Proof.
  intros Hb Hn. unfold in_u in Hn. destruct (Z.eqb_spec n 0) as [->|Hne].
  - change 64%nat with (S 63). cbn [digits_buffer]. rewrite Z.div_0_l, Z.mod_0_l by lia. done.
  - apply number_digits_run; [done| |lia]. split; [lia|]. apply (Z.lt_le_trans _ (2 ^ Z.of_nat 64)); [cbn; lia|]. apply Z.pow_le_mono_l. lia.
Qed.

(** How a number is laid out in a field of [s] characters: the sign, the prefix, the
    precision as a least number of digits (no digit at all for precision 0, though the
    field is computed as if they were there), and the padding on one side. *)
Definition number_text (wl num base qualifier s precision type : Z) : list Z :=
  let '(sign, n) := number_sign wl num qualifier (if has type LEFT then Z.land type (Z.lnot ZEROPAD) else type) in
  let digits := digits_text n base (has type LARGE) in
  let signs := if sign =? 0 then [] else [sign] in
  let prefix := special_prefix type base in
  let width := Z.max precision (Z.of_nat (length digits)) in
  let body := replicate (Z.to_nat (precision - Z.of_nat (length digits))) ch_0 ++ (if precision =? 0 then [] else digits) in
  let room := Z.to_nat (s - special_size type base - width - Z.of_nat (length signs)) in
  if has type LEFT then signs ++ prefix ++ body ++ replicate room ch_space
  else if has type ZEROPAD then signs ++ prefix ++ replicate room ch_0 ++ body
  else replicate room ch_space ++ signs ++ prefix ++ body.

Lemma as_int_ok x : in_s 32 x -> as_int x = Ok x.
Proof. intros H. unfold as_int. by rewrite bool_decide_eq_true_2. Qed.

Lemma pad_while_run c size o : in_s 32 (Z.min size 0 - 1) -> pad_while c size o = Ok (foldl put o (replicate (Z.to_nat size) c), Z.min size 0 - 1).
Proof. intros H. unfold pad_while. rewrite as_int_ok by done. cbn [mbind outcome_bind]. by rewrite put_n_text. Qed.

Lemma has_clear type b : 0 <= type -> b = LEFT \/ b = SPECIAL \/ b = LARGE \/ b = SIGN \/ b = PLUS \/ b = SPACE -> has (Z.land type (Z.lnot ZEROPAD)) b = has type b.
Proof.
  intros Ht Hb. unfold has. do 2 f_equal. rewrite <- Z.land_assoc. f_equal.
  destruct Hb as [-> | [-> | [-> | [-> | [-> | ->]]]]]; reflexivity.
Qed.

Lemma has_either type a b : has type (Z.lor a b) = has type a || has type b.
Proof.
  unfold has. rewrite Z.land_lor_distr_r. destruct (Z.eqb_spec (Z.land type a) 0) as [E1|E1], (Z.eqb_spec (Z.land type b) 0) as [E2|E2]; cbn [negb orb].
  - by rewrite E1, E2.
  - rewrite (proj2 (Z.eqb_neq _ _)); [done|]. intros [? ?]%Z.lor_eq_0_iff. done.
  - rewrite (proj2 (Z.eqb_neq _ _)); [done|]. intros [? ?]%Z.lor_eq_0_iff. done.
  - rewrite (proj2 (Z.eqb_neq _ _)); [done|]. intros [? ?]%Z.lor_eq_0_iff. done.
Qed.

Lemma number_sign_range wl num q type : 0 <= wl <= 64 -> in_u 64 num -> in_u 64 (number_sign wl num q type).2.
Proof.
  intros Hwl Hn. unfold number_sign. assert (forall w x, 0 <= w <= 64 -> in_u 64 (wrap w x)) as H.
  { intros w x Hw. pose proof (wrap_range w x ltac:(lia)) as Hr. unfold in_u in *. pose proof (Z.pow_le_mono_r 2 w 64). lia. }
  destruct (has type SIGN); [|done].
  destruct (q =? 104); [destruct (sext 16 num <? 0)|destruct ((q =? 76) || (q =? 108)); [destruct (sext wl num <? 0)|destruct (s32 num <? 0)]];
    cbn [snd]; (done || (apply H; lia)).
Qed.

Lemma nothing_left x c o : x <= 0 -> foldl put o (replicate (Z.to_nat x) c) = o.
Proof. intros Hx. by replace (Z.to_nat x) with O by lia. Qed.

(** What a number prints, whatever the buffer. *)
Lemma print_number_run wl o num base q s precision type :
  0 <= wl <= 64 -> in_u 64 num -> 2 <= base <= 16 -> 0 <= type -> -1 <= s < 2 ^ 31 -> precision < 2 ^ 31 - 8 ->
  print_number wl o num base q s precision type = Ok (foldl put o (number_text wl num base q s precision type)).
Proof.
  intros Hwl Hnum Hb Ht Hs Hp. unfold print_number, number_text. set (type' := if has type LEFT then Z.land type (Z.lnot ZEROPAD) else type).
  assert (forall b, b = LEFT \/ b = SPECIAL \/ b = LARGE \/ b = SIGN \/ b = PLUS \/ b = SPACE -> has type' b = has type b) as Hhas.
  { intros b Hbit. unfold type'. destruct (has type LEFT); [by apply has_clear|done]. }
  assert (has type' ZEROPAD = if has type LEFT then false else has type ZEROPAD) as Hz.
  { unfold type'. destruct (has type LEFT); [|done]. unfold has. rewrite <- Z.land_assoc. change (Z.land (Z.lnot ZEROPAD) ZEROPAD) with 0. by rewrite Z.land_0_r. }
  assert (special_prefix type' base = special_prefix type base) as -> by (unfold special_prefix; by rewrite !Hhas by tauto).
  assert (special_size type' base = special_size type base) as -> by (unfold special_size; by rewrite !Hhas by tauto).
  pose proof (number_sign_range wl num q type' Hwl Hnum) as Hn. destruct (number_sign wl num q type') as [sign n]. cbn [snd] in Hn.
  rewrite has_either, !(Hhas LEFT), !(Hhas LARGE), Hz by tauto.
  assert (0 <= special_size type base <= 2) as Hsp by (unfold special_size; repeat case_match; lia). set (sp := special_size type base) in *.
  rewrite as_int_ok by (unfold in_s; lia). cbn [mbind outcome_bind]. rewrite number_tmp by done. cbn [mbind outcome_bind].
  pose proof (digits_text_length n base (has type LARGE)) as Hlen. unfold digits_text in *. rewrite length_rev in Hlen |- *.
  set (ds := digits_buffer 64 n base (has type LARGE)) in *. set (i := Z.of_nat (length ds)) in *.
  assert ((if precision <? i then i else precision) = Z.max precision i) as -> by (destruct (Z.ltb_spec precision i); lia). set (w := Z.max precision i).
  assert (0 <= i <= 64) as Hi by (unfold i; lia). assert (precision <= w /\ i <= w < 2 ^ 31 - 8 /\ (w = i \/ w = precision)) as Hw by (unfold w; lia). clearbody i w sp.
  rewrite as_int_ok by (unfold in_s; lia). cbn [mbind outcome_bind].
  assert (Z.to_nat (precision - i) = Z.to_nat (w - i)) as -> by lia.
  assert (forall o', (if negb (precision =? 0) then foldl put o' (rev ds) else o') = foldl put o' (if precision =? 0 then [] else rev ds)) as Hdig by (intros o'; by destruct (precision =? 0)).
  assert (exists k, length (if sign =? 0 then [] else [sign]) = k /\ Z.of_nat k = if sign =? 0 then 0 else 1) as (k & -> & Hk) by (destruct (sign =? 0); by eexists).
  assert (0 <= Z.of_nat k <= 1) as Hk1 by (destruct (sign =? 0); lia).
  assert (forall o' x, in_s 32 (x - 1) -> (if negb (sign =? 0) then size ← as_int (x - 1); Ok (put o' sign, size) else Ok (o', x)) =
    Ok (foldl put o' (if sign =? 0 then [] else [sign]), x - Z.of_nat k)) as Hsign.
  { intros o' x Hx. rewrite Hk. destruct (sign =? 0); cbn [negb]; [by rewrite Z.sub_0_r|]. by rewrite as_int_ok. }
  destruct (has type LEFT) eqn:EL; cbn [orb negb]; [|destruct (has type ZEROPAD) eqn:EZ; cbn [orb negb]].
  - cbn [mbind outcome_bind]. rewrite Hsign by (unfold in_s; lia). cbn [mbind outcome_bind]. rewrite Hdig, put_n_text.
    rewrite pad_while_run by (unfold in_s; lia). cbn [mbind outcome_bind]. by rewrite !put_app.
  - cbn [mbind outcome_bind]. rewrite Hsign by (unfold in_s; lia). cbn [mbind outcome_bind].
    rewrite pad_while_run by (unfold in_s; lia). cbn [mbind outcome_bind]. rewrite Hdig, put_n_text.
    rewrite pad_while_run by (unfold in_s; lia). cbn [mbind outcome_bind]. rewrite nothing_left by lia. by rewrite !put_app.
  - assert ((if negb (sign =? 0) && (0 <? s - sp - w) then s - sp - w - 1 else s - sp - w) = Z.max (s - sp - w - Z.of_nat k) (Z.min (s - sp - w) 0)) as ->
      by (destruct (sign =? 0); cbn [negb andb]; [lia|destruct (Z.ltb_spec 0 (s - sp - w)); lia]).
    rewrite pad_while_run by (unfold in_s; lia). cbn [mbind outcome_bind]. rewrite Hsign by (unfold in_s; lia). cbn [mbind outcome_bind].
    rewrite pad_while_run by (unfold in_s; lia). cbn [mbind outcome_bind]. rewrite Hdig, put_n_text.
    rewrite pad_while_run by (unfold in_s; lia). cbn [mbind outcome_bind]. rewrite (nothing_left (Z.min _ 0 - 1)), (nothing_left (_ - 1 - Z.of_nat k)) by lia. rewrite !put_app.
    by replace (Z.to_nat (Z.max (s - sp - w - Z.of_nat k) (Z.min (s - sp - w) 0))) with (Z.to_nat (s - sp - w - Z.of_nat k)) by lia.
Qed.

(** Without a precision of 0 the text fills the field, and is longer only if it must be. *)
Lemma special_prefix_length type base : Z.of_nat (length (special_prefix type base)) = special_size type base.
Proof. unfold special_prefix, special_size. destruct (has type SPECIAL); [|done]. destruct (base =? 2), (base =? 8) eqn:E, (base =? 16) eqn:E2; try done; lia. Qed.

Lemma number_text_length wl num base q s precision type :
  precision <> 0 -> s <= Z.of_nat (length (number_text wl num base q s precision type)).
Proof.
  intros Hp. unfold number_text. destruct (number_sign _ _ _ _) as [sign n]. rewrite (proj2 (Z.eqb_neq _ _) Hp).
  pose proof (special_prefix_length type base). destruct (has type LEFT); [|destruct (has type ZEROPAD)]; rewrite !length_app, !length_replicate; lia.
Qed.

(** The digits are there, followed by nothing but spaces. *)
Lemma number_sign_left wl num q type : 0 <= type -> number_sign wl num q (if has type LEFT then Z.land type (Z.lnot ZEROPAD) else type) = number_sign wl num q type.
Proof. intros Ht. unfold number_sign. destruct (has type LEFT); [|done]. by rewrite !has_clear by tauto. Qed.

Lemma number_text_digits wl num base q s precision type sign n :
  0 <= type -> precision <> 0 -> number_sign wl num q type = (sign, n) ->
  exists pre post, number_text wl num base q s precision type = pre ++ digits_text n base (has type LARGE) ++ post /\ Forall (eq ch_space) post.
Proof.
  intros Ht Hp Hs. unfold number_text. rewrite number_sign_left, Hs, (proj2 (Z.eqb_neq _ _) Hp) by done.
  set (signs := if sign =? 0 then [] else [sign]). set (pre := special_prefix type base). set (zeros := replicate (Z.to_nat (precision - _)) ch_0). set (k := Z.to_nat _).
  destruct (has type LEFT); [|destruct (has type ZEROPAD)].
  - exists (signs ++ pre ++ zeros), (replicate k ch_space). split; [by rewrite <- !app_assoc|]. by apply Forall_replicate.
  - exists (signs ++ pre ++ replicate k ch_0 ++ zeros), []. split; [by rewrite app_nil_r, <- !app_assoc|done].
  - exists (replicate k ch_space ++ signs ++ pre ++ zeros), []. split; [by rewrite app_nil_r, <- !app_assoc|done].
Qed.

(** *** The whole format *)

Lemma foldl_put_n n c o t : foldl put (put_n n c o) t = foldl put o (replicate n c ++ t).
Proof. by rewrite put_n_text, put_app. Qed.

Lemma print_number_writes wl num base q s precision type :
  writes (fun o => print_number wl o num base q s precision type) just_out.
Proof.
  unfold print_number. destruct (number_sign _ _ _ _) as [sign n].
  apply writes_arg. intros size. apply writes_arg. intros tmp. apply writes_arg. intros size1.
  apply (writes_bind _ (@pair out Z)); [apply writes_cond; [apply pad_while_writes|by apply (writes_ret _ _ [] size1)]|]. intros size2.
  apply (writes_bind _ (@pair out Z)).
  { apply writes_cond; [|by apply (writes_ret _ _ [] size2)]. apply writes_arg. intros size3. by apply (writes_ret _ _ [sign] size3). }
  intros size3.
  set (pre := special_prefix _ base). set (zeros := Z.to_nat _). set (left := has _ LEFT). set (c := if has _ ZEROPAD then ch_0 else ch_space).
  apply (writes_bind _ (@pair out Z)).
  { apply (writes_after pre (fun o => foldl put o pre) (fun o => if negb left then pad_while c size3 o else Ok (o, size3))); [done|].
    apply writes_cond; [apply pad_while_writes|by apply (writes_ret _ _ [] size3)]. }
  intros size4. apply (writes_bind _ (@pair out Z)); [|intros size5; by apply (writes_ret _ _ [] tt)].
  apply (writes_after (replicate zeros ch_0 ++ if negb (precision =? 0) then rev tmp else [])
    (fun o => if negb (precision =? 0) then foldl put (put_n zeros ch_0 o) (rev tmp) else put_n zeros ch_0 o) (pad_while ch_space size4)); [|apply pad_while_writes].
  intros o. rewrite put_app, !put_n_text. by destruct (negb _).
Qed.

Lemma put_writes c : writes (fun o => Ok (put o c)) just_out.
Proof. by apply (writes_ret _ _ [c] tt). Qed.

Lemma print_string_writes s w precision flags : writes (fun o => print_string o s w precision flags) just_out.
Proof.
  unfold print_string. set (len := if (0 <? precision) && _ then precision else _).
  assert (forall w, writes (fun o => w' ← as_int (Z.min w len - 1); Ok (put_n (Z.to_nat (w - len)) ch_space o, w')) (@pair out Z)) as Hpad.
  { intros v. apply writes_arg. intros w'. apply (writes_ret _ _ (replicate (Z.to_nat (v - len)) ch_space) w'). intros o. by rewrite put_n_text. }
  apply (writes_bind _ (@pair out Z)); [apply writes_cond; [apply Hpad|by apply (writes_ret _ _ [] w)]|]. intros w1.
  apply (writes_bind _ (@pair out Z)); [|intros w2; by apply (writes_ret _ _ [] tt)].
  apply (writes_after (take (Z.to_nat len) s) (fun o => foldl put o (take (Z.to_nat len) s)) (fun o => w' ← as_int (Z.min w1 len - 1); Ok (put_n (Z.to_nat (w1 - len)) ch_space o, w')));
    [done|apply Hpad].
Qed.

Lemma print_char_writes c w flags : writes (fun o => print_char o c w flags) just_out.
Proof.
  unfold print_char.
  assert (forall w, writes (fun o => w' ← as_int (Z.min (w - 1) 0); Ok (put_n (Z.to_nat (w - 1)) ch_space o, w')) (@pair out Z)) as Hpad.
  { intros v. apply writes_arg. intros w'. apply (writes_ret _ _ (replicate (Z.to_nat (v - 1)) ch_space) w'). intros o. by rewrite put_n_text. }
  apply (writes_bind _ (@pair out Z)); [apply writes_cond; [apply Hpad|by apply (writes_ret _ _ [] w)]|]. intros w1.
  apply (writes_bind _ (@pair out Z)); [|intros w2; by apply (writes_ret _ _ [] tt)].
  apply (writes_after [c] (fun o => put o c) (fun o => w' ← as_int (Z.min (w1 - 1) 0); Ok (put_n (Z.to_nat (w1 - 1)) ch_space o, w'))); [done|apply Hpad].
Qed.

(** A computation that prints, then gives the rest of the format and of the arguments. *)
Lemma writes_rest (f : out -> outcome out) fmt args :
  writes f just_out -> writes (fun o => o ← f o; Ok (o, fmt, args)) with_rest.
Proof. intros Hf. apply (writes_bind _ just_out); [done|]. intros []. by apply (writes_ret _ _ [] (fmt, args)). Qed.

Lemma convert_one_writes wl flags w precision q fmt args :
  writes (fun o => convert_one wl o flags w precision q fmt args) with_rest.
Proof.
  unfold convert_one.
  assert (forall base flags, writes (fun o => '(num, args) ← arg_number wl q flags args; o ← print_number wl o num base q w precision flags; Ok (o, tl fmt, args)) with_rest) as Hnum.
  { intros base fl. apply writes_arg. intros [num args']. apply writes_rest, print_number_writes. }
  repeat (apply writes_cond; [first [apply Hnum | by apply (writes_ret _ _ [ch_percent] (tl fmt, args)) | idtac]|]).
  - apply writes_arg. intros [v args']. apply writes_rest, print_char_writes.
  - destruct args as [|[] args']; try apply writes_undef. apply writes_rest, print_string_writes.
  - destruct args as [|[| | | |p|] args']; try apply writes_undef. destruct (w =? -1); apply writes_rest, print_number_writes.
  - destruct fmt as [|c fmt]; [by apply (writes_ret _ _ [ch_percent] ([], args))|by apply (writes_ret _ _ [ch_percent; c] (fmt, args))].
Qed.

Lemma format_loop_writes fuel wl fmt args : writes (fun o => format_loop fuel wl o fmt args) just_out.
Proof.
  revert fmt args. induction fuel as [|fuel IH]; intros fmt args; cbn [format_loop]; [apply writes_undef|].
  destruct fmt as [|c fmt]; [by apply (writes_ret _ _ [] tt)|]. destruct (negb (c =? ch_percent)).
  { apply (writes_after [c] (fun o => put o c) (fun o => format_loop fuel wl o fmt args)); [done|apply IH]. }
  destruct (flag_loop fmt 0) as [flags fmt1]. apply writes_arg. intros [[[w fl] fmt2] args2]. apply writes_arg. intros [[precision fmt3] args3].
  destruct (get_qualifier fmt3) as [q fmt4]. apply (writes_bind _ with_rest); [apply convert_one_writes|]. intros [fmt5 args5]. apply IH.
Qed.

Lemma put_full m p e c : e <= p -> put {| o_mem := m; o_str := p; o_end := e |} c = {| o_mem := m; o_str := p + 1; o_end := e |}.
Proof. intros Hp. unfold put. cbn [o_str o_end]. by destruct (Z.ltb_spec p e); [lia|]. Qed.

Lemma put_room m p e c : p < e -> put {| o_mem := m; o_str := p; o_end := e |} c = {| o_mem := ha_set m p c; o_str := p + 1; o_end := e |}.
Proof. intros Hp. unfold put. cbn [o_str o_end]. by destruct (Z.ltb_spec p e); [|lia]. Qed.

(** What is stored of a text. *)
Lemma put_text t o :
  o_str o <= o_end o ->
  foldl put o t = {| o_mem := ha_put (o_mem o) (o_str o) (take (Z.to_nat (o_end o - o_str o)) t); o_str := o_str o + Z.of_nat (length t); o_end := o_end o |}.
Proof.
  assert (forall t o, o_end o <= o_str o -> foldl put o t = {| o_mem := o_mem o; o_str := o_str o + Z.of_nat (length t); o_end := o_end o |}) as Hfull.
  { clear. induction t as [|c t IH]; intros [m p e] Hp; cbn [foldl length o_str o_end o_mem] in *; [by rewrite Z.add_0_r|].
    rewrite put_full by done. rewrite IH by (cbn [o_str o_end]; lia). cbn [o_mem o_str o_end]. f_equal. lia. }
  revert o. induction t as [|c t IH]; intros [m p e] Hp; cbn [foldl length o_str o_end o_mem] in *; [by rewrite take_nil, Z.add_0_r|].
  destruct (Z.ltb_spec p e).
  - rewrite put_room by done. rewrite IH by (cbn [o_str o_end]; lia). cbn [o_mem o_str o_end]. replace (Z.to_nat (e - p)) with (S (Z.to_nat (e - (p + 1)))) by lia. cbn [take ha_put]. f_equal. lia.
  - rewrite put_full by done. rewrite Hfull by (cbn [o_str o_end]; lia). replace (Z.to_nat (e - p)) with O by lia. cbn [o_mem o_str o_end take ha_put]. f_equal. lia.
Qed.

(** The room in a buffer: one that would run past the end of the address space is cut. *)
Definition buf_room (wl buf size : Z) : Z := if buf + size <? 2 ^ wl then size else 2 ^ wl - 1 - buf.

(** rt_vsnprintf computes a text, stores its beginning and the terminator, and returns the
    length of the whole text. *)
Lemma rt_vsnprintf_run wl fmt args r :
  0 <= wl -> (forall o, format_loop (S (length fmt)) wl o fmt args = (t ← r; Ok (foldl put o t))) -> forall m buf size,
  in_u wl buf -> in_u wl size ->
  rt_vsnprintf wl m buf size fmt args = (t ← r; Ok (stored m buf (buf_room wl buf size) t, s32 (Z.of_nat (length t)))).
Proof.
  intros Hwl Hr m buf size Hb Hs. unfold in_u in *. unfold rt_vsnprintf.
  assert ((if wrap wl (buf + size) <? buf then (2 ^ wl - 1, 2 ^ wl - 1 - buf) else (wrap wl (buf + size), size)) = (buf + buf_room wl buf size, buf_room wl buf size)) as ->.
  { unfold buf_room. destruct (Z.ltb_spec (buf + size) (2 ^ wl)).
    - rewrite wrap_small by (unfold in_u; lia). by destruct (Z.ltb_spec (buf + size) buf); [lia|].
    - replace (buf + size) with (buf + size - 2 ^ wl + 1 * 2 ^ wl) by lia. rewrite wrap_add_mult, wrap_small by (unfold in_u; lia).
      destruct (Z.ltb_spec (buf + size - 2 ^ wl) buf); [|lia]. f_equal. lia. }
  assert (0 <= buf_room wl buf size) as Hroom by (unfold buf_room; destruct (Z.ltb_spec (buf + size) (2 ^ wl)); lia).
  set (n := buf_room wl buf size) in *. clearbody n. rewrite Hr. destruct r as [t|?|?]; [|done..]. cbn [mbind outcome_bind].
  rewrite put_text by (cbn; lia). cbn [o_mem o_str o_end].
  replace (buf + Z.of_nat (length t) - buf) with (Z.of_nat (length t)) by lia. replace (buf + n - buf) with n by lia. do 2 f_equal.
  unfold stored. destruct (Z.ltb_spec 0 n); [|by replace n with 0 by lia]. rewrite ha_put_snoc, length_take.
  destruct (Z.ltb_spec (buf + Z.of_nat (length t)) (buf + n)).
  - rewrite !take_ge by lia. f_equal. lia.
  - replace (buf + Z.of_nat (Z.to_nat (n - 1) `min` length t)) with (buf + n - 1) by lia.
    destruct (lookup_lt_is_Some_2 t (Z.to_nat (n - 1))) as [x Hx]; [lia|]. replace (Z.to_nat n) with (S (Z.to_nat (n - 1))) by lia.
    rewrite (take_S_r _ _ x) by done. rewrite ha_put_snoc, length_take. replace (buf + Z.of_nat (Z.to_nat (n - 1) `min` length t)) with (buf + n - 1) by lia.
    unfold ha_set. cbn. by rewrite insert_insert_eq.
Qed.

Lemma format_text wl fmt args : exists r : outcome (list Z), forall o, format_loop (S (length fmt)) wl o fmt args = (t ← r; Ok (foldl put o t)).
Proof.
  destruct (format_loop_writes (S (length fmt)) wl fmt args) as [r Hr]. exists (tx ← r; Ok tx.1). intros o. rewrite Hr.
  by destruct r as [[t []]|?|?].
Qed.

(** A format without conversions is copied. *)
Lemma format_plain wl fmt args fuel o : ch_percent ∉ fmt -> (length fmt < fuel)%nat -> format_loop fuel wl o fmt args = Ok (foldl put o fmt).
Proof.
  revert fmt o. induction fuel as [|fuel IH]; intros fmt o Hf Hn; [lia|]. destruct fmt as [|c fmt]; [done|]. cbn [format_loop length foldl] in *.
  apply not_elem_of_cons in Hf as [Hc Hf]. rewrite (proj2 (Z.eqb_neq c ch_percent)) by done. apply IH; [done|lia].
Qed.

(** rt_kprintf gives the device one byte too many of a text that does not fit: the buffer
    holds [RT_CONSOLEBUF_SIZE - 2] characters and the terminator, and the terminator is
    written out with them. *)
Lemma rt_kprintf_cut wl csize log_buf m fmt args r t :
  32 <= wl -> (forall o, format_loop (S (length fmt)) wl o fmt args = (t ← r; Ok (foldl put o t))) -> r = Ok t ->
  in_u wl log_buf -> 2 <= csize -> log_buf + csize <= 2 ^ wl -> csize - 1 < Z.of_nat (length t) < 2 ^ 31 ->
  exists m', rt_kprintf wl csize true log_buf m fmt args = Ok (m', device_write log_buf (csize - 1), s32 (csize - 1)) /\
    m' = ha_put m log_buf (take (Z.to_nat (csize - 2)) t ++ [0]) /\ ha_get m' (log_buf + (csize - 2)) = 0.
Proof.
  intros Hwl Hr Et Hb Hc Htop Ht. unfold in_u in Hb. unfold rt_kprintf. rewrite (rt_vsnprintf_run wl fmt args r) by (done || lia || (unfold in_u; lia)).
  rewrite Et. cbn [mbind outcome_bind]. pose proof (Z.pow_le_mono_r 2 32 wl). rewrite (sext_small 32) by (lia || (unfold in_s; lia)).
  rewrite wrap_small by (unfold in_u; lia). rewrite (proj2 (Z.ltb_lt (csize - 1) _)) by lia. cbn [negb]. unfold buf_room, stored.
  rewrite (proj2 (Z.ltb_lt (log_buf + _) _)), (proj2 (Z.ltb_lt 0 _)) by lia. replace (csize - 1 - 1) with (csize - 2) by lia.
  eexists. split; [reflexivity|]. split; [done|]. rewrite ha_put_snoc, length_take, ha_get_set, decide_True; [done|]. lia.
Qed.
