(* ===== verification/SmallMem.v ===== *)
(** * RT-Thread: src/mem.c, the small memory allocator

    The heap is the byte array the caller hands to [rt_smem_init], indexed by
    address; every item header is read from and written to those bytes, and an
    access outside the range handed over is undefined.  The object in front of
    the heap ([struct rt_small_mem]) is the record [rt_small_mem]; its place in
    the kernel's object list is not modelled, its type byte is.  [w] is the width
    of [rt_size_t] and [rt_ubase_t], [al] is RT_ALIGN_SIZE, [trace] is
    RT_USING_MEMTRACE. *)
From S2P Require Import Prelude Outcome Bytes.
#[local] Open Scope string_scope.
#[local] Open Scope Z_scope.

Record rt_small_mem := {
  self : Z; obj_type : Z;
  address : Z; total : Z; m_used : Z; m_max : Z;
  heap_ptr : Z; heap_end : Z; lfree : Z; mem_size_aligned : Z;
  pool_begin : Z; pool_end : Z; bytes : harray;
}.

(** The range of memory that belongs to the pool: [pool_begin, pool_end). *)
Definition in_pool (m : rt_small_mem) (p n : Z) : bool := (pool_begin m <=? p) && (p + n <=? pool_end m).

Section SmallMem.
Variable w al : Z.
Variable trace : bool.
(** The name of the running thread. *)
Variable thread_self : option (list Z).
(** [sizeof(struct rt_small_mem)], which depends on the configuration of kernel objects. *)
Variable sizeof_small_mem : Z.

Abbreviation Mn := (ST rt_small_mem).

(** ** Layout of [struct rt_small_mem_item] *)

Definition word : Z := w / 8.
Definition POOL_PTR : Z := 0.
Definition NEXT : Z := if w =? 64 then 16 else 4.
Definition PREV : Z := if w =? 64 then 24 else 8.
Definition THREAD : Z := if w =? 64 then 32 else 12.
Definition thread_len : Z := if w =? 64 then 8 else 4.
Definition sizeof_item : Z := if trace then THREAD + thread_len else THREAD.

Definition RT_ALIGN (size align : Z) : Z := Z.land (wrap w (size + align - 1)) (wrap w (Z.lnot (align - 1))).
Definition RT_ALIGN_DOWN (size align : Z) : Z := Z.land size (wrap w (Z.lnot (align - 1))).

Definition MIN_SIZE : Z := if w =? 64 then 24 else 12.
Definition MIN_SIZE_ALIGNED : Z := RT_ALIGN MIN_SIZE al.
Definition SIZEOF_STRUCT_MEM : Z := RT_ALIGN sizeof_item al.
Definition MEM_MASK : Z := wrap w (wrap w (Z.lnot 0) - 1).

Definition MEM_USED (m : rt_small_mem) : Z := Z.lor (Z.land (self m) MEM_MASK) 1.
Definition MEM_FREED (m : rt_small_mem) : Z := Z.lor (Z.land (self m) MEM_MASK) 0.
Definition is_used (pool_ptr : Z) : bool := negb (Z.land pool_ptr (wrap w (Z.lnot MEM_MASK)) =? 0).
Definition pool_of (pool_ptr : Z) : Z := Z.land pool_ptr MEM_MASK.

(** ** Fields of an item *)

Definition ld (p field : Z) : Mn Z := fun m =>
  if in_pool m (p + field) word then Ok (ha_read (bytes m) (p + field) word, m) else Undef "read outside the pool".
Definition st (p field v : Z) : Mn unit := fun m =>
  if in_pool m (p + field) word then Ok (tt, {m with bytes ::= (fun b => ha_write b (p + field) word v)})
  else Undef "write outside the pool".
Definition MEM_ISUSED (p : Z) : Mn bool := v ← ld p POOL_PTR; mret (is_used v).
Definition MEM_POOL (p : Z) : Mn Z := v ← ld p POOL_PTR; mret (pool_of v).

(** The bytes of a name, padded with spaces. *)
Definition name_bytes (name : list Z) : list Z :=
  take (Z.to_nat thread_len) (name ++ replicate (Z.to_nat thread_len) 32).
Definition rt_smem_setname (p : Z) (name : list Z) : Mn unit :=
  when trace (fun m =>
    if in_pool m (p + THREAD) thread_len
    then Ok (tt, {m with bytes ::= (fun b => ha_put b (p + THREAD) (name_bytes name))})
    else Undef "write outside the pool").

Definition spaces : list Z := [32; 32; 32; 32].
Definition name_INIT : list Z := [73; 78; 73; 84].
Definition name_NONE : list Z := [78; 79; 78; 69].

Definition set_lfree (p : Z) : Mn unit := modify (fun m => {m with lfree := p}).

(** ** plug_holes *)

Definition plug_forward (mem : Z) : Mn unit :=
  m ← get;
  next ← ld mem NEXT;
  let nmem := heap_ptr m + next in
  hole ← (if mem =? nmem then mret false
          else u ← MEM_ISUSED nmem; mret (negb u && negb (nmem =? heap_end m)));
  when hole (
    when (lfree m =? nmem) (set_lfree mem) ;;
    st nmem POOL_PTR 0 ;;
    nnext ← ld nmem NEXT;
    st mem NEXT nnext ;;
    nnext ← ld nmem NEXT;
    st (heap_ptr m + nnext) PREV (wrap w (mem - heap_ptr m))).

Definition plug_backward (mem : Z) : Mn unit :=
  m ← get;
  prev ← ld mem PREV;
  let pmem := heap_ptr m + prev in
  hole ← (if pmem =? mem then mret false else u ← MEM_ISUSED pmem; mret (negb u));
  when hole (
    when (lfree m =? mem) (set_lfree pmem) ;;
    st mem POOL_PTR 0 ;;
    next ← ld mem NEXT;
    st pmem NEXT next ;;
    next ← ld mem NEXT;
    st (heap_ptr m + next) PREV (wrap w (pmem - heap_ptr m))).

Definition plug_holes (mem : Z) : Mn unit :=
  m ← get;
  assert_that (heap_ptr m <=? mem) "(rt_uint8_t *)mem >= m->heap_ptr" ;;
  assert_that (mem <? heap_end m) "(rt_uint8_t *)mem < (rt_uint8_t *)m->heap_end" ;;
  plug_forward mem ;;
  plug_backward mem.

(** ** rt_smem_init *)

Definition RT_Object_Class_Memory : Z := 0x0c.
Definition RT_Object_Class_Static : Z := 0x80.

(** [None] for RT_NULL; [bytes0] is what the memory held before. *)
Definition rt_smem_init (begin_addr size : Z) (bytes0 : harray) : outcome (option rt_small_mem) :=
  let small_mem := RT_ALIGN begin_addr al in
  let start_addr := wrap w (small_mem + sizeof_small_mem) in
  let begin_align := RT_ALIGN start_addr al in
  let end_align := RT_ALIGN_DOWN (wrap w (begin_addr + size)) al in
  if (wrap w (2 * SIZEOF_STRUCT_MEM) <? end_align) && (start_addr <=? wrap w (end_align - 2 * SIZEOF_STRUCT_MEM)) then
    let mem_size := wrap w (end_align - begin_align - 2 * SIZEOF_STRUCT_MEM) in
    let m := {| self := small_mem; obj_type := Z.lor RT_Object_Class_Memory RT_Object_Class_Static;
                address := begin_align; total := mem_size; m_used := 0; m_max := 0;
                heap_ptr := begin_align; heap_end := 0; lfree := 0; mem_size_aligned := mem_size;
                pool_begin := begin_addr; pool_end := begin_addr + size; bytes := bytes0 |} in
    r ← (let mem := heap_ptr m in
         st mem POOL_PTR (MEM_FREED m) ;;
         st mem NEXT (wrap w (mem_size + SIZEOF_STRUCT_MEM)) ;;
         st mem PREV 0 ;;
         rt_smem_setname mem name_INIT ;;
         next ← ld mem NEXT;
         let hend := heap_ptr m + next in
         modify (fun m => {m with heap_end := hend}) ;;
         st hend POOL_PTR (MEM_USED m) ;;
         st hend NEXT (wrap w (mem_size + SIZEOF_STRUCT_MEM)) ;;
         st hend PREV (wrap w (mem_size + SIZEOF_STRUCT_MEM)) ;;
         rt_smem_setname hend name_INIT ;;
         set_lfree (heap_ptr m)) m;
    Ok (Some r.2)
  else Ok None.

(** The assertions every operation makes on the object. *)
Definition check_object : Mn unit :=
  m ← get;
  assert_that (Z.land (obj_type m) (u8 (Z.lnot RT_Object_Class_Static)) =? RT_Object_Class_Memory)
    "rt_object_get_type(&m->parent) == RT_Object_Class_Memory" ;;
  assert_that (negb (Z.land (obj_type m) RT_Object_Class_Static =? 0)) "rt_object_is_systemobject(&m->parent)".

Definition add_used (n : Z) : Mn unit :=
  modify (fun m => {m with m_used ::= (fun u => wrap w (u + n))}) ;;
  modify (fun m => {m with m_max ::= (fun x => if x <? m_used m then m_used m else x)}).

(** ** rt_smem_alloc *)

(** [while (MEM_ISUSED(lfree) && lfree != heap_end) lfree = &heap_ptr[lfree->next];] *)
Fixpoint next_free (fuel : nat) : Mn unit :=
  match fuel with
  | O => undef "fuel"
  | S fuel' =>
      m ← get;
      u ← MEM_ISUSED (lfree m);
      if u && negb (lfree m =? heap_end m) then
        next ← ld (lfree m) NEXT; set_lfree (heap_ptr m + next) ;; next_free fuel'
      else mret tt
  end.

Definition fuel_of (m : rt_small_mem) : nat := S (S (Z.to_nat (mem_size_aligned m))).

(** [if (mem == lfree)]: find the next free block and update the lowest free pointer. *)
Definition advance_lfree (mem : Z) : Mn unit :=
  m ← get;
  when (mem =? lfree m) (
    next_free (fuel_of m) ;;
    m ← get;
    u ← (if lfree m =? heap_end m then mret false else MEM_ISUSED (lfree m));
    assert_that (negb u) "(lfree == heap_end) || (!MEM_ISUSED(lfree))").

(** Splitting [mem] at [size] bytes of data. *)
Definition split_item (mem ptr size : Z) : Mn unit :=
  m ← get;
  let ptr2 := wrap w (ptr + SIZEOF_STRUCT_MEM + size) in
  let mem2 := heap_ptr m + ptr2 in
  st mem2 POOL_PTR (MEM_FREED m) ;;
  next ← ld mem NEXT;
  st mem2 NEXT next ;;
  st mem2 PREV ptr ;;
  rt_smem_setname mem2 spaces ;;
  st mem NEXT ptr2 ;;
  next2 ← ld mem2 NEXT;
  when (negb (next2 =? wrap w (mem_size_aligned m + SIZEOF_STRUCT_MEM))) (st (heap_ptr m + next2) PREV ptr2).

(** The body of the search loop once [mem] is found to fit. *)
Definition take_item (mem ptr size : Z) : Mn Z :=
  m ← get;
  next ← ld mem NEXT;
  (if wrap w (size + SIZEOF_STRUCT_MEM + MIN_SIZE_ALIGNED) <=? wrap w (next - (ptr + SIZEOF_STRUCT_MEM)) then
     split_item mem ptr size ;; add_used (wrap w (size + SIZEOF_STRUCT_MEM))
   else add_used (wrap w (next - (mem - heap_ptr m)))) ;;
  st mem POOL_PTR (MEM_USED m) ;;
  rt_smem_setname mem (default name_NONE thread_self) ;;
  advance_lfree mem ;;
  assert_that (mem + SIZEOF_STRUCT_MEM + size <=? heap_end m) "mem + SIZEOF_STRUCT_MEM + size <= heap_end" ;;
  assert_that (wrap w (mem + SIZEOF_STRUCT_MEM) mod al =? 0) "(mem + SIZEOF_STRUCT_MEM) % RT_ALIGN_SIZE == 0" ;;
  assert_that (Z.land mem (al - 1) =? 0) "(mem & (RT_ALIGN_SIZE - 1)) == 0" ;;
  mret (mem + SIZEOF_STRUCT_MEM).

Fixpoint alloc_loop (fuel : nat) (ptr size : Z) : Mn Z :=
  match fuel with
  | O => undef "fuel"
  | S fuel' =>
      m ← get;
      if ptr <=? wrap w (mem_size_aligned m - size) then
        let mem := heap_ptr m + ptr in
        u ← MEM_ISUSED mem;
        fits ← (if u : bool then mret false
                else next ← ld mem NEXT; mret (size <=? wrap w (next - (ptr + SIZEOF_STRUCT_MEM))));
        if fits : bool then take_item mem ptr size
        else next ← ld mem NEXT; alloc_loop fuel' next size
      else mret 0
  end.

(** The requested size as the allocator rounds it. *)
Definition aligned_size (size : Z) : Z :=
  let size := RT_ALIGN size al in if size <? MIN_SIZE_ALIGNED then MIN_SIZE_ALIGNED else size.

Definition rt_smem_alloc (size : Z) : Mn Z :=
  if size =? 0 then mret 0 else
  check_object ;;
  m ← get;
  let size := aligned_size size in
  if mem_size_aligned m <? size then mret 0
  else alloc_loop (fuel_of m) (wrap w (lfree m - heap_ptr m)) size.

(** ** rt_smem_free *)

Definition rt_smem_free (rmem : Z) : Mn unit :=
  if rmem =? 0 then mret tt else
  assert_that (Z.land rmem (al - 1) =? 0) "(rmem & (RT_ALIGN_SIZE - 1)) == 0" ;;
  let mem := rmem - SIZEOF_STRUCT_MEM in
  pool ← MEM_POOL mem;
  assert_that (negb (pool =? 0)) "small_mem != RT_NULL" ;;
  u ← MEM_ISUSED mem;
  assert_that u "MEM_ISUSED(mem)" ;;
  m ← get;
  (if pool =? self m then mret tt else undef "an item of another pool") ;;
  check_object ;;
  assert_that ((heap_ptr m <=? rmem) && (rmem <? heap_end m)) "rmem >= heap_ptr && rmem < heap_end" ;;
  next ← ld mem NEXT;
  pool2 ← MEM_POOL (heap_ptr m + next);
  assert_that (pool2 =? pool) "MEM_POOL(&small_mem->heap_ptr[mem->next]) == small_mem" ;;
  st mem POOL_PTR (MEM_FREED m) ;;
  rt_smem_setname mem spaces ;;
  when (mem <? lfree m) (set_lfree mem) ;;
  next ← ld mem NEXT;
  modify (fun m => {m with m_used ::= (fun u => wrap w (u - wrap w (next - (mem - heap_ptr m))))}) ;;
  plug_holes mem.

(** ** rt_smem_realloc *)

(** [rt_memcpy(dst, src, n)] between blocks of the heap. *)
Definition copy_block (dst src n : Z) : Mn unit := fun m =>
  if in_pool m dst n && in_pool m src n
  then Ok (tt, {m with bytes ::= (fun b => ha_put b dst (ha_get_n b src (Z.to_nat n)))})
  else Undef "copy outside the pool".

(** Splitting a block that is long enough. *)
Definition shrink_item (mem ptr size newsize : Z) : Mn unit :=
  m ← get;
  modify (fun m => {m with m_used ::= (fun u => wrap w (u - wrap w (size - newsize)))}) ;;
  split_item mem ptr newsize ;;
  let mem2 := heap_ptr m + wrap w (ptr + SIZEOF_STRUCT_MEM + newsize) in
  when (mem2 <? lfree m) (set_lfree mem2) ;;
  plug_holes mem2.

(** Moving the data to a new block. *)
Definition move_item (rmem size newsize : Z) : Mn Z :=
  nmem ← rt_smem_alloc newsize;
  when (negb (nmem =? 0)) (copy_block nmem rmem (if size <? newsize then size else newsize) ;; rt_smem_free rmem) ;;
  mret nmem.

Definition rt_smem_realloc (rmem newsize : Z) : Mn Z :=
  check_object ;;
  m ← get;
  let newsize := RT_ALIGN newsize al in
  if mem_size_aligned m <? newsize then mret 0
  else if newsize =? 0 then rt_smem_free rmem ;; mret 0
  else if rmem =? 0 then rt_smem_alloc newsize
  else
    assert_that (Z.land rmem (al - 1) =? 0) "(rmem & (RT_ALIGN_SIZE - 1)) == 0" ;;
    assert_that (heap_ptr m <=? rmem) "rmem >= heap_ptr" ;;
    assert_that (rmem <? heap_end m) "rmem < heap_end" ;;
    let mem := rmem - SIZEOF_STRUCT_MEM in
    let ptr := wrap w (mem - heap_ptr m) in
    next ← ld mem NEXT;
    let size := wrap w (next - ptr - SIZEOF_STRUCT_MEM) in
    if size =? newsize then mret rmem
    else if wrap w (newsize + SIZEOF_STRUCT_MEM + MIN_SIZE) <? size then
      shrink_item mem ptr size newsize ;; mret rmem
    else move_item rmem size newsize.
End SmallMem.
