(* ===== verification/SmallMemFacts.v ===== *)
(** * The small memory allocator: representation

    The heap as a list of blocks (length with header, used or not), laid out one
    after the other; each block's header holds the pool pointer with the flag, the
    offset of the next block and that of the previous one ([seg]).  Headers are read
    through the bytes of the heap, so the lemmas on [getf] and [setf] say when a write
    to one field leaves another alone. *)
From S2P Require Import Prelude Outcome Bytes SmallMem.
#[local] Open Scope list_scope.
#[local] Open Scope Z_scope.

(** ** Lists of blocks *)

Abbreviation block := (Z * bool)%type.

Fixpoint sum_len (bs : list block) : Z := match bs with [] => 0 | (l, _) :: bs' => l + sum_len bs' end.
Fixpoint used_sum (bs : list block) : Z :=
  match bs with [] => 0 | (l, u) :: bs' => (if u then l else 0) + used_sum bs' end.
Fixpoint first_free (o : Z) (bs : list block) : Z :=
  match bs with [] => o | (l, u) :: bs' => if u : bool then first_free (o + l) bs' else o end.

(** No two neighbours are both free. *)
Fixpoint no_adj (bs : list block) : Prop :=
  match bs with
  | [] => True
  | a :: bs' => match bs' with [] => True | b :: _ => a.2 = true \/ b.2 = true end /\ no_adj bs'
  end.

(** The used blocks with their offsets. *)
Fixpoint live (o : Z) (bs : list block) : list (Z * Z) :=
  match bs with [] => [] | (l, u) :: bs' => (if u : bool then [(o, l)] else []) ++ live (o + l) bs' end.

Lemma sum_len_app a b : sum_len (a ++ b) = sum_len a + sum_len b.
Proof. induction a as [|[l u] a IH]; cbn; [done|]. rewrite IH. lia. Qed.
Lemma used_sum_app a b : used_sum (a ++ b) = used_sum a + used_sum b.
Proof. induction a as [|[l u] a IH]; cbn; [done|]. rewrite IH. lia. Qed.
Lemma live_app o a b : live o (a ++ b) = live o a ++ live (o + sum_len a) b.
Proof.
  revert o; induction a as [|[l u] a IH]; intros o; cbn [app live sum_len]; [by rewrite Z.add_0_r|].
  rewrite IH, <- app_assoc. do 3 f_equal. lia.
Qed.
Lemma first_free_app o a b :
  first_free o (a ++ b) = if forallb snd a then first_free (o + sum_len a) b else first_free o a.
Proof.
  revert o; induction a as [|[l []] a IH]; intros o; cbn [app first_free sum_len forallb snd andb]; [by rewrite Z.add_0_r| |done].
  rewrite IH. case_match; [|done]. f_equal. lia.
Qed.

Lemma no_adj_split a x b : no_adj (a ++ x :: b) <-> no_adj (a ++ [x]) /\ no_adj (x :: b).
Proof.
  induction a as [|y a IH]; cbn [app]; [cbn; tauto|].
  change (no_adj (y :: (a ++ x :: b))) with (match (a ++ x :: b) with [] => True | z :: _ => y.2 = true \/ z.2 = true end /\ no_adj (a ++ x :: b)).
  change (no_adj (y :: (a ++ [x]))) with (match (a ++ [x]) with [] => True | z :: _ => y.2 = true \/ z.2 = true end /\ no_adj (a ++ [x])).
  rewrite IH. destruct a; cbn [app]; tauto.
Qed.

Lemma no_adj_cons x b : no_adj (x :: b) -> no_adj b.
Proof. cbn. tauto. Qed.

(** Only the flag of a block matters. *)
Lemma no_adj_snoc_len a l l' u : no_adj (a ++ [(l, u)]) <-> no_adj (a ++ [(l', u)]).
Proof.
  induction a as [|y a IH]; [cbn; tauto|]. destruct a as [|z a]; [cbn; tauto|].
  cbn [app no_adj] in *. tauto.
Qed.
Lemma no_adj_cons_len b l l' u : no_adj ((l, u) :: b) <-> no_adj ((l', u) :: b).
Proof. cbn. tauto. Qed.
Lemma no_adj_snoc_used a l u : no_adj (a ++ [(l, u)]) -> no_adj (a ++ [(l, true)]).
Proof.
  induction a as [|y a IH]; [cbn; tauto|]. destruct a as [|z a]; [cbn; tauto|].
  cbn [app no_adj] in *. tauto.
Qed.
Lemma no_adj_cons_used b l u : no_adj ((l, u) :: b) -> no_adj ((l, true) :: b).
Proof. cbn. destruct b; tauto. Qed.
Lemma no_adj_snoc_free a x l : no_adj (a ++ [x; (l, false)]) -> x.2 = true.
Proof. rewrite (no_adj_split a x [(l, false)]). cbn. intros [_ [[?|?] _]]; [done|discriminate]. Qed.
Lemma no_adj_app_r a b : no_adj (a ++ b) -> no_adj b.
Proof. induction a; [done|]. intros H%no_adj_cons. auto. Qed.
Lemma no_adj_app_l a b : no_adj (a ++ b) -> no_adj a.
Proof.
  revert b; induction a as [|x a IH] using rev_ind; intros b; [done|].
  rewrite <- app_assoc. cbn [app]. rewrite no_adj_split. tauto.
Qed.

(** ** Layout *)

Section Layout.
Variables w al : Z.
Variable trace : bool.
Context (Hw : w = 32 \/ w = 64) (Hal : al = 4 \/ al = 8).
Abbreviation S := (SIZEOF_STRUCT_MEM w al trace).
Abbreviation W := (word w).

Lemma land_clear x k : 0 <= k -> Z.land x (Z.lnot (Z.ones k)) = x / 2 ^ k * 2 ^ k.
Proof using Type.
  intros Hk. rewrite <- Z.ldiff_land, Z.ldiff_ones_r, Z.shiftr_div_pow2, Z.shiftl_mul_pow2 by lia. done.
Qed.

Lemma land_clear_wrap x k :
  0 <= k <= w -> in_u w x -> Z.land x (wrap w (Z.lnot (Z.ones k))) = x / 2 ^ k * 2 ^ k.
Proof using Hw.
  intros Hk Hx. rewrite <- land_clear by lia. apply Z.bits_inj'. intros i Hi.
  rewrite !Z.land_spec, testbit_wrap by lia. destruct (Z.ltb_spec i w); [done|].
  rewrite (testbit_high w x i) by (done || lia). done.
Qed.

Lemma RT_ALIGN_spec x : 0 <= x -> x + al <= 2 ^ w -> RT_ALIGN w x al = (x + al - 1) / al * al.
Proof using Hw Hal.
  intros Hx Hl. unfold RT_ALIGN. rewrite (wrap_small w (x + al - 1)) by (unfold in_u; lia).
  assert (in_u w (x + al - 1)) as Hu by (unfold in_u; lia).
  destruct Hal as [-> | ->].
  - change (4 - 1) with (Z.ones 2). by rewrite land_clear_wrap by (done || lia).
  - change (8 - 1) with (Z.ones 3). by rewrite land_clear_wrap by (done || lia).
Qed.
Lemma RT_ALIGN_DOWN_spec x : in_u w x -> RT_ALIGN_DOWN w x al = x / al * al.
Proof using Hw Hal.
  intros Hx. unfold RT_ALIGN_DOWN. destruct Hal as [-> | ->].
  - change (4 - 1) with (Z.ones 2). by rewrite land_clear_wrap by (done || lia).
  - change (8 - 1) with (Z.ones 3). by rewrite land_clear_wrap by (done || lia).
Qed.
Lemma land_low x : Z.land x (al - 1) = x mod al.
Proof using Hal.
  destruct Hal as [-> | ->]; [change (4 - 1) with (Z.ones 2)|change (8 - 1) with (Z.ones 3)]; by rewrite Z.land_ones by lia.
Qed.

Record layout_facts : Prop := {
  ly_word : 4 <= W /\ W <= al * 2 /\ 8 * W = w;
  ly_next : W <= NEXT w;
  ly_prev : NEXT w + W <= PREV w;
  ly_thread : PREV w + W <= THREAD w /\ 0 < thread_len w;
  ly_trace : THREAD w + (if trace then thread_len w else 0) <= S;
  ly_size : 12 <= S <= 40 /\ S mod al = 0;
  ly_min : 0 < MIN_SIZE w <= MIN_SIZE_ALIGNED w al /\ MIN_SIZE_ALIGNED w al <= S /\ MIN_SIZE_ALIGNED w al mod al = 0;
}.
End Layout.

Lemma layout w al trace : w = 32 \/ w = 64 -> al = 4 \/ al = 8 -> layout_facts w al trace.
Proof.
  intros [-> | ->] [-> | ->]; destruct trace; split;
    repeat match goal with |- _ /\ _ => split end;
    first [apply Z.leb_le; reflexivity|apply Z.ltb_lt; reflexivity|reflexivity].
Qed.

(** ** Pool pointers *)

Lemma MEM_MASK_spec w : w = 32 \/ w = 64 -> MEM_MASK w = 2 ^ w - 2 /\ wrap w (Z.lnot (MEM_MASK w)) = 1.
Proof. intros [-> | ->]; split; reflexivity. Qed.

Lemma land_MEM_MASK w x : w = 32 \/ w = 64 -> in_u w x -> Z.land x (MEM_MASK w) = x - x mod 2.
Proof.
  intros Hw Hx. rewrite (proj1 (MEM_MASK_spec w Hw)).
  replace (2 ^ w - 2) with (Z.ones (w - 1) * 2 ^ 1) by (destruct Hw as [-> | ->]; reflexivity).
  rewrite land_mask_shifted by lia. unfold field. change (2 ^ 1) with 2. unfold in_u in Hx.
  assert (2 ^ w = 2 * 2 ^ (w - 1)) as Hp by (destruct Hw as [-> | ->]; reflexivity).
  rewrite Z.mod_small by (split; [apply Z.div_pos; lia|apply Z.div_lt_upper_bound; lia]).
  Z.to_euclidean_division_equations. lia.
Qed.

Section Tags.
Variable w : Z.
Context (Hw : w = 32 \/ w = 64).
Variable m : rt_small_mem.
Context (Hself : 0 < self m < 2 ^ w) (Heven : self m mod 2 = 0).

Definition tag (u : bool) : Z := if u then MEM_USED w m else MEM_FREED w m.

Lemma tag_spec u : tag u = self m + b2z u.
Proof using Hw Hself Heven.
  unfold tag, MEM_USED, MEM_FREED. rewrite land_MEM_MASK, Heven, Z.sub_0_r by (done || unfold in_u; lia).
  destruct u; cbn [b2z]; [|rewrite Z.lor_0_r; lia].
  replace (self m) with (self m / 2 * 2 ^ 1) by (change (2 ^ 1) with 2; Z.to_euclidean_division_equations; lia).
  apply lor_add_shifted; [lia|]. unfold in_u. lia.
Qed.

Lemma tag_range u : in_u w (tag u).
Proof using Hw Hself Heven.
  rewrite tag_spec. assert (2 ^ w mod 2 = 0) by (destruct Hw as [-> | ->]; reflexivity).
  unfold in_u. destruct u; cbn [b2z]; Z.to_euclidean_division_equations; lia.
Qed.

Lemma tag_is_used u : is_used w (tag u) = u.
Proof using Hw Hself Heven.
  unfold is_used. rewrite (proj2 (MEM_MASK_spec w Hw)), tag_spec. change 1 with (Z.ones 1) at 1.
  rewrite Z.land_ones by lia. change (2 ^ 1) with 2.
  destruct u; cbn [b2z]; [destruct (Z.eqb_spec ((self m + 1) mod 2) 0)|destruct (Z.eqb_spec ((self m + 0) mod 2) 0)];
    try done; exfalso; Z.to_euclidean_division_equations; lia.
Qed.

Lemma tag_pool u : pool_of w (tag u) = self m.
Proof using Hw Hself Heven.
  unfold pool_of. rewrite land_MEM_MASK by (done || apply tag_range). rewrite tag_spec.
  destruct u; cbn [b2z]; Z.to_euclidean_division_equations; lia.
Qed.
End Tags.

Lemma is_used_0 w : w = 32 \/ w = 64 -> is_used w 0 = false.
Proof. intros [-> | ->]; reflexivity. Qed.
Lemma pool_of_0 w : pool_of w 0 = 0.
Proof. reflexivity. Qed.

(** ** Headers in the bytes of the heap *)

(** The place of the heap: what the operations never change. *)
Record geom (w al : Z) (trace : bool) (m : rt_small_mem) : Prop := {
  g_type : obj_type m = 0x8c;
  g_heap : 0 < heap_ptr m /\ heap_ptr m mod al = 0;
  g_size : 0 <= mem_size_aligned m /\ mem_size_aligned m mod al = 0;
  g_end : heap_end m = heap_ptr m + (mem_size_aligned m + SIZEOF_STRUCT_MEM w al trace);
  g_top : heap_end m + SIZEOF_STRUCT_MEM w al trace < 2 ^ w;
  g_pool : pool_begin m <= heap_ptr m /\ heap_end m + SIZEOF_STRUCT_MEM w al trace <= pool_end m;
  g_self : 0 < self m < 2 ^ w /\ self m mod 2 = 0;
}.

Section Repr.
Variables w al : Z.
Variable trace : bool.
Context (Hw : w = 32 \/ w = 64) (Hal : al = 4 \/ al = 8).
Variable m0 : rt_small_mem.
Context (Hg : geom w al trace m0).

Abbreviation S := (SIZEOF_STRUCT_MEM w al trace).
Abbreviation W := (word w).
Abbreviation hp := (heap_ptr m0).
Abbreviation msz := (mem_size_aligned m0).
Abbreviation E := (mem_size_aligned m0 + SIZEOF_STRUCT_MEM w al trace).
Abbreviation tg := (tag w m0).

(** The states of this heap. *)
Definition mk (lf u x : Z) (b : harray) : rt_small_mem :=
  {m0 with lfree := lf; m_used := u; m_max := x; bytes := b}.

Definition getf (b : harray) (o k : Z) : Z := ha_read b (hp + o + k) W.
Definition setf (b : harray) (o k v : Z) : harray := ha_write b (hp + o + k) W v.
Definition setn (b : harray) (o : Z) (name : list Z) : harray :=
  if trace then ha_put b (hp + o + THREAD w) (name_bytes w name) else b.

Definition is_field (k : Z) : Prop := k = POOL_PTR \/ k = NEXT w \/ k = PREV w.

Lemma length_name_bytes name : Z.of_nat (length (name_bytes w name)) = thread_len w.
Proof using Hw.
  unfold name_bytes. rewrite length_take, length_app, length_replicate.
  assert (0 <= thread_len w) by (destruct Hw as [H | H]; unfold thread_len; case_match; lia). lia.
Qed.

Lemma field_fits k : is_field k -> 0 <= k /\ k + W <= THREAD w /\ k + W <= S.
Proof using Hw Hal Hg.
  destruct (layout w al trace Hw Hal) as [Hly1 Hly2 Hly3 [Hly4 Hly5] Hly6 Hly7 Hly8].
  intros [-> | [-> | ->]]; unfold POOL_PTR; destruct trace; lia.
Qed.

Lemma getf_setf_same b o k v : in_u w v -> getf (setf b o k v) o k = v.
Proof using Hw Hal Hg.
  intros Hv. unfold getf, setf. destruct (layout w al trace Hw Hal) as [[Hly1 [_ Hly2]] _ _ _ _ _ _].
  rewrite ha_read_write_same by lia. rewrite Hly2. by apply Z.mod_small.
Qed.

Lemma getf_setf_field b o k k' v : is_field k -> is_field k' -> k <> k' -> getf (setf b o k v) o k' = getf b o k'.
Proof using Hw Hal Hg.
  intros Hk Hk' Hne. unfold getf, setf. destruct (layout w al trace Hw Hal) as [[Hly1 _] Hly2 Hly3 _ _ _ _].
  apply ha_read_write_other; [lia|lia|]. unfold is_field, POOL_PTR in *. lia.
Qed.

Lemma getf_setf_sep b o o' k k' v :
  is_field k -> is_field k' -> o + S <= o' \/ o' + S <= o -> getf (setf b o k v) o' k' = getf b o' k'.
Proof using Hw Hal Hg.
  intros Hk%field_fits Hk'%field_fits Hs. unfold getf, setf.
  destruct (layout w al trace Hw Hal) as [[Hly1 _] _ _ _ _ _ _]. apply ha_read_write_other; lia.
Qed.

Lemma ha_read_put_other a i bs j n :
  j + n <= i \/ i + Z.of_nat (length bs) <= j -> 0 <= n -> ha_read (ha_put a i bs) j n = ha_read a j n.
Proof using Type.
  clear. intros H Hn. unfold ha_read. f_equal. apply ha_get_n_put_other. lia.
Qed.

Lemma getf_setn_same b o name k : is_field k -> getf (setn b o name) o k = getf b o k.
Proof using Hw Hal Hg.
  intros Hk%field_fits. unfold getf, setn. destruct trace; [|done].
  destruct (layout w al trace Hw Hal) as [[Hly1 _] _ _ _ _ _ _].
  apply ha_read_put_other; lia.
Qed.

Lemma getf_setn_sep b o o' name k :
  is_field k -> o + S <= o' \/ o' + S <= o -> getf (setn b o name) o' k = getf b o' k.
Proof using Hw Hal Hg.
  intros Hk%field_fits Hs. unfold getf, setn.
  destruct (layout w al trace Hw Hal) as [[Hly1 _] _ _ [Hly2 Hly3] Hly4 _ _].
  destruct trace; [|done]. apply ha_read_put_other; rewrite ?length_name_bytes; lia.
Qed.
(** ** Segments of blocks *)

Definition hdr (b : harray) (o : Z) (u : bool) (next prev : Z) : Prop :=
  getf b o POOL_PTR = tg u /\ getf b o (NEXT w) = next /\ getf b o (PREV w) = prev.

(** The blocks [bs] from offset [o], after a block at [p], up to [o'], the last at [p']. *)
Fixpoint seg (b : harray) (o p : Z) (bs : list block) (o' p' : Z) : Prop :=
  match bs with
  | [] => o = o' /\ p = p'
  | (l, u) :: bs' => S <= l /\ l mod al = 0 /\ hdr b o u (o + l) p /\ seg b (o + l) o bs' o' p'
  end.

(** The blocks from [o] to the end of the heap, whose marker is a used item. *)
Definition rest (b : harray) (o p : Z) (bs : list block) : Prop :=
  exists p', seg b o p bs E p' /\ getf b E POOL_PTR = tg true.

Definition heap (b : harray) (bs : list block) : Prop := rest b 0 0 bs.

Definition same_at (b b' : harray) (q : Z) : Prop := forall k, is_field k -> getf b' q k = getf b q k.

Lemma hdr_same b b' o u n p : same_at b b' o -> hdr b o u n p -> hdr b' o u n p.
Proof using Hw Hal Hg.
  intros H (H1 & H2 & H3). unfold hdr. rewrite !H by (unfold is_field; tauto). done.
Qed.

Lemma seg_end b o p bs o' p' : seg b o p bs o' p' -> o' = o + sum_len bs /\ 0 <= sum_len bs.
Proof using Hw Hal Hg.
  destruct (layout w al trace Hw Hal) as [_ _ _ _ _ [Hs _] _].
  revert o p; induction bs as [|[l u] bs IH]; intros o p; cbn [seg sum_len]; [lia|].
  intros (Hl & _ & _ & H%IH). lia.
Qed.

Lemma seg_app b o p xs ys o' p' :
  seg b o p (xs ++ ys) o' p' <-> exists o1 p1, seg b o p xs o1 p1 /\ seg b o1 p1 ys o' p'.
Proof using Hw Hal Hg.
  revert o p; induction xs as [|[l u] xs IH]; intros o p; cbn [app seg].
  - split; [intros H; by exists o, p|]. by intros (? & ? & [<- <-] & H).
  - rewrite IH. split.
    + intros (? & ? & ? & o1 & p1 & ? & ?). by exists o1, p1.
    + intros (o1 & p1 & (? & ? & ? & ?) & ?). eauto 10.
Qed.

Lemma seg_same b b' o p bs o' p' :
  (forall q, o <= q -> q + S <= o' -> same_at b b' q) -> seg b o p bs o' p' -> seg b' o p bs o' p'.
Proof using Hw Hal Hg.
  destruct (layout w al trace Hw Hal) as [_ _ _ _ _ [Hs _] _].
  revert o p; induction bs as [|[l u] bs IH]; intros o p Hq; cbn [seg]; [done|].
  intros (Hl & Ha & Hh & Hr). pose proof (seg_end _ _ _ _ _ _ Hr) as [He ?].
  split; [done|]. split; [done|]. split; [eapply hdr_same; [apply Hq; lia|done]|].
  apply IH; [|done]. intros q ? ?. apply Hq; lia.
Qed.

Lemma rest_end b o p bs : rest b o p bs -> E = o + sum_len bs /\ 0 <= sum_len bs.
Proof using Hw Hal Hg. intros (p' & H & _). by apply seg_end in H. Qed.

Lemma rest_same b b' o p bs :
  (forall q, o <= q <= E -> same_at b b' q) -> rest b o p bs -> rest b' o p bs.
Proof using Hw Hal Hg.
  destruct (layout w al trace Hw Hal) as [_ _ _ _ _ [Hs _] _].
  intros Hq (p' & H & Ht). pose proof (seg_end _ _ _ _ _ _ H) as [He ?]. exists p'. split.
  - eapply seg_same; [|done]. intros q ? ?. apply Hq. lia.
  - rewrite Hq; [done|lia|by left].
Qed.

(** The flag a block shows to its predecessor. *)
Definition head_used (bs : list block) : bool := match bs with [] => true | (_, u) :: _ => u end.

Lemma rest_head b o p bs : rest b o p bs -> getf b o POOL_PTR = tg (head_used bs).
Proof using Hw Hal Hg.
  intros (p' & H & Ht). destruct bs as [|[l u] bs]; cbn [seg head_used] in *; [by destruct H as [-> _]|].
  apply H.
Qed.

Lemma rest_set_prev b o p p' bs :
  in_u w p' -> 0 <= o -> rest b o p bs -> rest (setf b o (PREV w) p') o p' bs.
Proof using Hw Hal Hg.
  destruct (layout w al trace Hw Hal) as [[Hl1 _] Hl2 Hl3 _ _ [Hs _] _].
  assert (POOL_PTR <> PREV w) as Hn1 by (unfold POOL_PTR; lia).
  assert (NEXT w <> PREV w) as Hn2 by lia.
  intros Hp Ho Hr. pose proof (rest_end _ _ _ _ Hr) as [He Hsum]. destruct Hr as (p2 & H & Ht).
  destruct bs as [|[l u] bs]; cbn [seg] in *.
  - destruct H as [-> ->]. exists p'. split; [done|]. rewrite getf_setf_field by (done || (unfold is_field; tauto)). done.
  - destruct H as (Hl & Ha & (H1 & H2 & H3) & H). pose proof (seg_end _ _ _ _ _ _ H) as [? ?]. exists p2.
    split; [split; [done|]; split; [done|]; split|].
    + unfold hdr. rewrite getf_setf_same, !getf_setf_field by (done || (unfold is_field; tauto) || (intros ?; congruence)).
      done.
    + eapply seg_same; [|done]. intros q ? ? k Hk. apply getf_setf_sep; [unfold is_field; tauto|done|lia].
    + rewrite getf_setf_sep; [done|unfold is_field; tauto|by left|lia].
Qed.

(** Focus on a block. *)
Lemma heap_focus b xs l u ys :
  heap b (xs ++ (l, u) :: ys) <->
  exists p, seg b 0 0 xs (sum_len xs) p /\ S <= l /\ l mod al = 0 /\
    hdr b (sum_len xs) u (sum_len xs + l) p /\ rest b (sum_len xs + l) (sum_len xs) ys.
Proof using Hw Hal Hg.
  unfold heap, rest. split.
  - intros (p' & (o1 & p1 & H1 & H2)%seg_app & Ht). pose proof (seg_end _ _ _ _ _ _ H1) as [He _].
    cbn in He. subst o1. cbn [seg] in H2. destruct H2 as (? & ? & ? & ?). exists p1. eauto 10.
  - intros (p & H1 & ? & ? & ? & p' & H2 & Ht). exists p'. split; [|done]. apply seg_app.
    exists (sum_len xs), p. split; [done|]. cbn [seg]. done.
Qed.
(** ** What a write leaves alone *)

(** [b'] differs from [b] at most in the headers at the offsets [qs]. *)
Definition touched (qs : list Z) (b b' : harray) : Prop :=
  forall a, (forall q, q ∈ qs -> a < hp + q \/ hp + q + S <= a) -> ha_get b' a = ha_get b a.

Lemma touched_refl qs b : touched qs b b.
Proof using Type. by intros a _. Qed.
Lemma touched_trans qs b1 b2 b3 : touched qs b1 b2 -> touched qs b2 b3 -> touched qs b1 b3.
Proof using Type. intros H1 H2 a Ha. rewrite H2, H1; done. Qed.
Lemma touched_mono qs qs' b b' : qs ⊆ qs' -> touched qs b b' -> touched qs' b b'.
Proof using Type. intros Hs H a Ha. apply H. intros q Hq. apply Ha. by apply Hs. Qed.

Lemma touched_setf qs b o k v : is_field k -> o ∈ qs -> touched qs b (setf b o k v).
Proof using Hw Hal Hg.
  intros Hk Ho a Ha. pose proof (field_fits k Hk). unfold setf, ha_write. apply ha_get_put_other.
  rewrite length_le_split. specialize (Ha o Ho).
  destruct (layout w al trace Hw Hal) as [[Hl1 _] _ _ _ _ _ _]. lia.
Qed.
Lemma touched_setn qs b o name : o ∈ qs -> touched qs b (setn b o name).
Proof using Hw Hal Hg.
  intros Ho a Ha. unfold setn. destruct (layout w al trace Hw Hal) as [[Hl1 _] Hl2 Hl3 [Hl4 _] Hl5 _ _].
  destruct trace; [|done]. specialize (Ha o Ho). apply ha_get_put_other. rewrite length_name_bytes. lia.
Qed.

Lemma touched_block qs b b' o l :
  touched qs b b' -> (forall q, q ∈ qs -> q <= o \/ o + l <= q) ->
  ha_get_n b' (hp + o + S) (Z.to_nat (l - S)) = ha_get_n b (hp + o + S) (Z.to_nat (l - S)).
Proof using Hw Hal Hg.
  intros Ht Hq. apply ha_get_n_ext. intros a Ha. apply Ht. intros q Hin. specialize (Hq q Hin). lia.
Qed.

(** ** The three changes of a header list *)

Ltac fld := first [done | unfold is_field; tauto].
Ltac getf_simp :=
  repeat first
    [ rewrite getf_setf_same by done
    | rewrite getf_setn_same by fld
    | rewrite getf_setf_field by (fld || lia)
    | rewrite getf_setf_sep by (fld || lia)
    | rewrite getf_setn_sep by (fld || lia) ].
Ltac layout_facts :=
  destruct (layout w al trace Hw Hal) as [[Hlw _] Hly1 Hly2 _ _ [Hls _] _];
  assert (POOL_PTR = 0) as Hlp by reflexivity.

Lemma rest_last b p ys : rest b E p ys -> ys = [].
Proof using Hw Hal Hg.
  layout_facts. intros Hr. pose proof (rest_end _ _ _ _ Hr) as [He _]. destruct Hr as (p' & H & _).
  destruct ys as [|[l u] ys]; [done|]. cbn [seg sum_len] in *. destruct H as (Hl & _ & _ & H).
  apply seg_end in H. lia.
Qed.

Lemma rest_move b p p' : rest b E p [] -> rest b E p' [].
Proof using Hw Hal Hg. intros (x & _ & Ht). exists p'. done. Qed.

(** Offsets of the heap are values of a field. *)
Lemma offset_range o : 0 <= o <= E -> in_u w o.
Proof using Hw Hal Hg. destruct Hg as [_ [? _] _ He Ht _ _]. layout_facts. unfold in_u. lia. Qed.

Lemma tg_range u : in_u w (tg u).
Proof using Hw Hal Hg. destruct Hg as [_ _ _ _ _ _ [? ?]]. by apply tag_range. Qed.

Definition split_bytes (b : harray) (o o2 n : Z) : harray :=
  let b := setf (setf (setf b o2 POOL_PTR (tg false)) o2 (NEXT w) n) o2 (PREV w) o in
  let b := setf (setn b o2 spaces) o (NEXT w) o2 in
  if n =? E then b else setf b n (PREV w) o2.

Lemma split_heap b xs l u ys s :
  let o := sum_len xs in
  heap b (xs ++ (l, u) :: ys) -> 0 <= s -> s mod al = 0 -> s + S + S <= l ->
  heap (split_bytes b o (o + S + s) (o + l)) (xs ++ (S + s, u) :: (l - S - s, false) :: ys).
Proof using Hw Hal Hg.
  intros o Hh Hs Ha Hl. layout_facts. apply heap_focus in Hh as (p & H1 & H2 & H3 & (P1 & P2 & P3) & H4).
  fold o in H1, P1, P2, P3, H4. pose proof (rest_end _ _ _ _ H4) as [He Hys]. pose proof (seg_end _ _ _ _ _ _ H1) as [_ Hxs].
  assert (S mod al = 0) as HSa by (destruct (layout w al trace Hw Hal) as [_ _ _ _ _ [_ ?] _]; done).
  assert (al <> 0) as Hal0 by lia.
  assert ((S + s) mod al = 0) as Hm1 by (rewrite Z.add_mod, HSa, Ha by done; apply Z.mod_0_l; lia).
  assert ((l - S - s) mod al = 0) as Hm2.
  { replace (l - S - s) with (l - (S + s)) by lia. rewrite Zminus_mod, H3, Hm1. apply Z.mod_0_l. lia. }
  set (o2 := o + S + s). assert (in_u w o2 /\ in_u w o /\ in_u w (o + l)) as (U1 & U2 & U3).
  { unfold o2. split_and!; apply offset_range; lia. }
  pose proof (tg_range false). unfold split_bytes.
  set (b5 := setf (setn _ o2 spaces) o (NEXT w) o2).
  assert (forall q, q + S <= o \/ o2 + S <= q -> same_at b b5 q) as Hsame.
  { intros q Hq k Hk. unfold b5, o2 in *. getf_simp. done. }
  assert (hdr b5 o u o2 p /\ hdr b5 o2 false (o + l) o) as [K1 K2].
  { unfold hdr, b5. split; [split_and!|split_and!]; unfold o2 in *; getf_simp; done. }
  assert (rest b5 (o + l) o ys) as K3.
  { eapply rest_same; [|exact H4]. intros q Hq. apply Hsame. unfold o2. lia. }
  assert (seg b5 0 0 xs o p) as K0.
  { eapply seg_same; [|exact H1]. intros q ? ?. apply Hsame. lia. }
  clearbody b5. set (b6 := if o + l =? E then b5 else _).
  assert (same_at b5 b6 o /\ same_at b5 b6 o2 /\ (forall q, q + S <= o -> same_at b5 b6 q) /\ rest b6 (o + l) o2 ys) as (L1 & L2 & L3 & L4).
  { unfold b6. destruct (Z.eqb_spec (o + l) E) as [Hend|Hend].
    - split_and!; [by intros ? ?..|]. rewrite Hend in K3 |- *. pose proof (rest_last _ _ _ K3) as Enil.
      rewrite Enil in K3 |- *. eapply rest_move, K3.
    - split_and!; [intros k Hk|intros k Hk|intros q Hq k Hk|apply (rest_set_prev _ _ o); [done|lia|done]];
        unfold o2 in *; getf_simp; done. }
  apply heap_focus. fold o. exists p. split; [eapply seg_same; [|exact K0]; intros; apply L3; lia|].
  split; [lia|]. split; [done|]. replace (o + (S + s)) with o2 by (unfold o2; lia).
  split; [by eapply hdr_same|]. destruct L4 as (p' & L4 & L5). exists p'. split; [|done]. cbn [seg].
  replace (o2 + (l - S - s)) with (o + l) by (unfold o2; lia).
  split; [lia|]. split; [done|]. split; [by eapply hdr_same|done].
Qed.
Lemma split_touched b o o2 n : touched [o; o2; n] b (split_bytes b o o2 n).
Proof using Hw Hal Hg.
  unfold split_bytes. set (qs := [o; o2; n]).
  assert (o ∈ qs /\ o2 ∈ qs /\ n ∈ qs) as (H1 & H2 & H3) by (subst qs; clear; set_solver).
  case_match; repeat first
    [ apply touched_refl
    | eapply touched_trans; [|apply touched_setf; [fld|done]]
    | eapply touched_trans; [|apply touched_setn; done] ].
Qed.

(** Changing the flag of a block. *)
Definition mark_bytes (b : harray) (o : Z) (u : bool) (name : list Z) : harray :=
  setn (setf b o POOL_PTR (tg u)) o name.

Lemma mark_heap b xs l u u' ys name :
  heap b (xs ++ (l, u) :: ys) -> heap (mark_bytes b (sum_len xs) u' name) (xs ++ (l, u') :: ys).
Proof using Hw Hal Hg.
  intros Hh. layout_facts. apply heap_focus in Hh as (p & H1 & H2 & H3 & (P1 & P2 & P3) & H4).
  set (o := sum_len xs) in *. pose proof (tg_range u'). apply heap_focus. fold o. exists p.
  pose proof (rest_end _ _ _ _ H4) as [He Hys].
  assert (forall q, q + S <= o \/ o + S <= q -> same_at b (mark_bytes b o u' name) q) as Hsame.
  { intros q Hq k Hk. unfold mark_bytes. getf_simp. done. }
  split; [eapply seg_same; [|exact H1]; intros; apply Hsame; lia|]. split; [done|]. split; [done|].
  split; [unfold hdr, mark_bytes; split_and!; getf_simp; done|].
  eapply rest_same; [|exact H4]. intros q Hq. apply Hsame. lia.
Qed.

Lemma mark_touched b o u name : touched [o] b (mark_bytes b o u name).
Proof using Hw Hal Hg.
  unfold mark_bytes. eapply touched_trans; [apply (touched_setf _ _ o); [fld|clear; set_solver]|].
  apply touched_setn. clear. set_solver.
Qed.

(** Merging a block with the one after it. *)
Definition merge_bytes (b : harray) (o o2 n : Z) : harray :=
  setf (setf (setf b o2 POOL_PTR 0) o (NEXT w) n) n (PREV w) o.

Lemma merge_heap b xs l u l2 u2 ys :
  let o := sum_len xs in
  heap b (xs ++ (l, u) :: (l2, u2) :: ys) -> heap (merge_bytes b o (o + l) (o + l + l2)) (xs ++ (l + l2, u) :: ys).
Proof using Hw Hal Hg.
  intros o Hh. layout_facts. apply heap_focus in Hh as (p & H1 & H2 & H3 & (P1 & P2 & P3) & H4).
  fold o in H1, P1, P2, P3, H4. destruct H4 as (p' & H4 & Ht). cbn [seg] in H4. destruct H4 as (Hl2 & Hm2 & _ & H4).
  assert (rest b (o + l + l2) (o + l) ys) as Hr by (by exists p').
  pose proof (rest_end _ _ _ _ Hr) as [He Hys]. pose proof (seg_end _ _ _ _ _ _ H1) as [_ Hxs].
  assert (in_u w o /\ in_u w (o + l + l2)) as [U1 U2] by (split; apply offset_range; lia).
  assert (in_u w 0) as U3 by (apply offset_range; lia).
  unfold merge_bytes. set (b1 := setf (setf b (o + l) POOL_PTR 0) o (NEXT w) (o + l + l2)).
  assert (forall q, q + S <= o \/ o + l + S <= q -> same_at b b1 q) as Hsame.
  { intros q Hq k Hk. unfold b1. getf_simp. done. }
  assert (hdr b1 o u (o + (l + l2)) p) as K1.
  { unfold hdr, b1. split_and!; getf_simp; (done || lia). }
  assert (rest b1 (o + l + l2) (o + l) ys) as K3.
  { eapply rest_same; [|exact Hr]. intros q Hq. apply Hsame. lia. }
  assert (seg b1 0 0 xs o p) as K0.
  { eapply seg_same; [|exact H1]. intros q ? ?. apply Hsame. lia. }
  clearbody b1. apply heap_focus. fold o. exists p.
  assert (forall q, q + S <= o + l + l2 -> same_at b1 (setf b1 (o + l + l2) (PREV w) o) q) as Hs2.
  { intros q Hq k Hk. getf_simp. done. }
  split; [eapply seg_same; [|exact K0]; intros; apply Hs2; lia|]. split; [lia|].
  split; [rewrite Z.add_mod, H3, Hm2 by lia; apply Z.mod_0_l; lia|].
  split; [eapply hdr_same; [apply Hs2; lia|done]|].
  replace (o + (l + l2)) with (o + l + l2) by lia. apply (rest_set_prev _ _ (o + l)); [done|lia|done].
Qed.

Lemma merge_touched b o o2 n : touched [o; o2; n] b (merge_bytes b o o2 n).
Proof using Hw Hal Hg.
  unfold merge_bytes. set (qs := [o; o2; n]).
  assert (o ∈ qs /\ o2 ∈ qs /\ n ∈ qs) as (H1 & H2 & H3) by (subst qs; clear; set_solver).
  repeat first [apply touched_refl | eapply touched_trans; [|apply touched_setf; [fld|done]]].
Qed.

(** ** Running the accesses *)

Lemma pool_ok lf u x b o k : is_field k -> 0 <= o <= E -> in_pool (mk lf u x b) (hp + o + k) W = true.
Proof using Hw Hal Hg.
  intros Hk Ho. pose proof (field_fits k Hk). destruct Hg as [_ _ _ He _ [Hp1 Hp2] _].
  unfold in_pool. change (pool_begin (mk lf u x b)) with (pool_begin m0). change (pool_end (mk lf u x b)) with (pool_end m0).
  rewrite (proj2 (Z.leb_le _ _)), (proj2 (Z.leb_le (hp + o + k + W) _)) by lia. done.
Qed.

Lemma ld_run lf u x b o k :
  is_field k -> 0 <= o <= E -> ld w (hp + o) k (mk lf u x b) = Ok (getf b o k, mk lf u x b).
Proof using Hw Hal Hg. intros Hk Ho. unfold ld. by rewrite pool_ok. Qed.

Lemma st_run lf u x b o k v :
  is_field k -> 0 <= o <= E -> st w (hp + o) k v (mk lf u x b) = Ok (tt, mk lf u x (setf b o k v)).
Proof using Hw Hal Hg. intros Hk Ho. unfold st. by rewrite pool_ok. Qed.

Lemma setname_run lf u x b o name :
  0 <= o <= E -> rt_smem_setname w trace (hp + o) name (mk lf u x b) = Ok (tt, mk lf u x (setn b o name)).
Proof using Hw Hal Hg.
  intros Ho. unfold rt_smem_setname, setn, when. destruct (layout w al trace Hw Hal) as [[Hl1 _] Hl2 Hl3 [Hl4 _] Hl5 _ _].
  destruct trace; [|done]. destruct Hg as [_ _ _ He _ [Hp1 Hp2] _].
  unfold in_pool. change (pool_begin (mk lf u x b)) with (pool_begin m0). change (pool_end (mk lf u x b)) with (pool_end m0).
  rewrite (proj2 (Z.leb_le _ _)), (proj2 (Z.leb_le (hp + o + THREAD w + thread_len w) _)) by lia. done.
Qed.

Lemma isused_run lf u x b o :
  0 <= o <= E -> MEM_ISUSED w (hp + o) (mk lf u x b) = Ok (is_used w (getf b o POOL_PTR), mk lf u x b).
Proof using Hw Hal Hg. intros Ho. unfold MEM_ISUSED. rewrite (bind_run _ _ _ _ _ (ld_run lf u x b o POOL_PTR (or_introl eq_refl) Ho)). done. Qed.

Lemma pool_run lf u x b o :
  0 <= o <= E -> MEM_POOL w (hp + o) (mk lf u x b) = Ok (pool_of w (getf b o POOL_PTR), mk lf u x b).
Proof using Hw Hal Hg. intros Ho. unfold MEM_POOL. rewrite (bind_run _ _ _ _ _ (ld_run lf u x b o POOL_PTR (or_introl eq_refl) Ho)). done. Qed.

Lemma tg_used u : is_used w (tg u) = u.
Proof using Hw Hal Hg. destruct Hg as [_ _ _ _ _ _ [? ?]]. by apply tag_is_used. Qed.
Lemma tg_pool u : pool_of w (tg u) = self m0.
Proof using Hw Hal Hg. destruct Hg as [_ _ _ _ _ _ [? ?]]. by apply tag_pool. Qed.
End Repr.
