(* ===== verification/SmallMemOps.v ===== *)
(** * The small memory allocator: operations on the list of blocks

    Each operation of [SmallMem], run on a heap that holds a list of blocks, is the
    corresponding change of the list: taking the first block that fits, splitting it,
    flipping its flag, and merging a freed block with its free neighbours.  No access
    leaves the pool, and no bytes but those of the headers concerned change. *)
From S2P Require Import Prelude Outcome Bytes SmallMem SmallMemFacts.
#[local] Open Scope string_scope.
#[local] Open Scope list_scope.
#[local] Open Scope Z_scope.

Section Ops.
Variables w al : Z.
Variable trace : bool.
Variable thread_self : option (list Z).
Context (Hw : w = 32 \/ w = 64) (Hal : al = 4 \/ al = 8).
Variable m0 : rt_small_mem.
Context (Hg : geom w al trace m0).

Abbreviation S := (SIZEOF_STRUCT_MEM w al trace).
Abbreviation hp := (heap_ptr m0).
Abbreviation E := (mem_size_aligned m0 + SIZEOF_STRUCT_MEM w al trace).
Abbreviation tg := (tag w m0).
Abbreviation mk := (mk m0).
Abbreviation getf := (getf w m0).
Abbreviation heap := (heap w al trace m0).
Abbreviation rest := (rest w al trace m0).

Ltac fld := first [done | unfold is_field; tauto].
Ltac step lem := erewrite bind_run; [|apply lem; first [done | fld | lia]].
Ltac getf_simp :=
  repeat first
    [ rewrite (getf_setf_same w al trace Hw Hal m0 Hg) by done
    | rewrite (getf_setn_same w al trace Hw Hal m0 Hg) by fld
    | rewrite (getf_setf_field w al trace Hw Hal m0 Hg) by (fld || lia)
    | rewrite (getf_setf_sep w al trace Hw Hal m0 Hg) by (fld || lia)
    | rewrite (getf_setn_sep w al trace Hw Hal m0 Hg) by (fld || lia) ].
Ltac layout_facts :=
  destruct (layout w al trace Hw Hal) as [[Hlw _] Hly1 Hly2 _ _ [Hls Hlsa] [Hlm1 [Hlm2 Hlm3]]];
  assert (POOL_PTR = 0) as Hlp by reflexivity.

(** What a block of the heap says about offsets. *)
Lemma focus_range b xs l u ys :
  heap b (xs ++ (l, u) :: ys) ->
  0 <= sum_len xs /\ S <= l /\ l mod al = 0 /\ sum_len xs + l + sum_len ys = E /\ 0 <= sum_len ys /\ E + S < 2 ^ w.
Proof using Hw Hal Hg.
  intros (p & H1 & H2 & H3 & _ & H4)%(heap_focus w al trace Hw Hal m0 Hg).
  pose proof (rest_end w al trace Hw Hal m0 Hg _ _ _ _ H4) as [He Hys].
  pose proof (seg_end w al trace Hw Hal m0 Hg _ _ _ _ _ _ H1) as [_ Hxs].
  destruct Hg as [_ [? _] _ He' Ht _ _]. lia.
Qed.

Lemma focus_hdr b xs l u ys :
  heap b (xs ++ (l, u) :: ys) ->
  getf b (sum_len xs) POOL_PTR = tg u /\ getf b (sum_len xs) (NEXT w) = sum_len xs + l /\
  getf b (sum_len xs + l) POOL_PTR = tg (head_used ys).
Proof using Hw Hal Hg.
  intros (p & H1 & H2 & H3 & (P1 & P2 & _) & H4)%(heap_focus w al trace Hw Hal m0 Hg).
  split; [done|]. split; [done|]. by apply (rest_head w al trace Hw Hal m0 Hg) in H4.
Qed.

(** The header of the block before. *)
Lemma focus_prev b xs l u ys :
  heap b (xs ++ (l, u) :: ys) ->
  getf b (sum_len xs) (PREV w) =
  match last xs with None => 0 | Some (l', _) => sum_len xs - l' end.
Proof using Hw Hal Hg.
  intros (p & H1 & _ & _ & (_ & _ & P3) & _)%(heap_focus w al trace Hw Hal m0 Hg). rewrite P3.
  destruct xs as [|x xs _] using rev_ind; cbn [seg] in H1; [by destruct H1 as [_ <-]|].
  destruct x as [l' u']. rewrite last_snoc.
  apply (seg_app w al trace Hw Hal m0 Hg) in H1 as (o1 & p1 & H1 & H2). cbn [seg] in H2.
  destruct H2 as (_ & _ & _ & <- & <-). lia.
Qed.

Lemma split_item_run lf us x b xs l u ys s :
  heap b (xs ++ (l, u) :: ys) -> 0 <= s -> s mod al = 0 -> s + S + S <= l ->
  split_item w al trace (hp + sum_len xs) (sum_len xs) s (mk lf us x b) =
  Ok (tt, mk lf us x (split_bytes w al trace m0 b (sum_len xs) (sum_len xs + S + s) (sum_len xs + l))).
Proof using Hw Hal Hg.
  intros Hh Hs Ha Hl. layout_facts. pose proof (focus_range _ _ _ _ _ Hh) as (R1 & R2 & R3 & R4 & R5 & R6).
  destruct (focus_hdr _ _ _ _ _ Hh) as (F1 & F2 & F3).
  set (o := sum_len xs) in *. pose proof (tg_range w al trace Hw Hal m0 Hg false).
  assert (in_u w (o + S + s) /\ in_u w o /\ in_u w (o + l)) as (U1 & U2 & U3).
  { split_and!; apply (offset_range w al trace Hw Hal m0 Hg); lia. }
  unfold split_item. erewrite bind_run; [|reflexivity].
  change (heap_ptr (mk lf us x b)) with hp. change (mem_size_aligned (mk lf us x b)) with (mem_size_aligned m0).
  rewrite !(wrap_small w (o + S + s)) by done. cbv zeta. set (o2 := o + S + s) in *.
  change (MEM_FREED w (mk lf us x b)) with (tg false).
  step (st_run w al trace Hw Hal m0 Hg). step (ld_run w al trace Hw Hal m0 Hg).
  assert (forall v, getf (setf w m0 b o2 POOL_PTR v) o (NEXT w) = o + l) as -> by (intros; getf_simp; done).
  step (st_run w al trace Hw Hal m0 Hg). step (st_run w al trace Hw Hal m0 Hg).
  step (setname_run w al trace Hw Hal m0 Hg). step (st_run w al trace Hw Hal m0 Hg).
  step (ld_run w al trace Hw Hal m0 Hg).
  match goal with |- context [getf ?b o2 (NEXT w)] => replace (getf b o2 (NEXT w)) with (o + l) by (unfold o2; getf_simp; done) end.
  rewrite (wrap_small w E) by (unfold in_u; lia). unfold when, split_bytes.
  destruct (Z.eqb_spec (o + l) E); cbn [negb]; [done|]. by rewrite (st_run w al trace Hw Hal m0 Hg) by (fld || lia).
Qed.
(** ** The lowest free block *)

(** There are few enough blocks for the fuel of the loops. *)
Lemma rest_length b o p bs : rest b o p bs -> bs = [] \/ (Z.of_nat (length bs) - 1) * 12 + S <= sum_len bs.
Proof using Hw Hal Hg.
  layout_facts. intros (p' & H & _). clear -H Hls.
  revert o p H; induction bs as [|[l u] bs IH]; intros o p; cbn [seg sum_len length]; [by left|].
  intros (Hl & _ & _ & H%IH). right. destruct H as [->|H]; cbn [length sum_len]; lia.
Qed.

Lemma rest_cons b o p l u bs :
  rest b o p ((l, u) :: bs) ->
  S <= l /\ l mod al = 0 /\ getf b o POOL_PTR = tg u /\ getf b o (NEXT w) = o + l /\ rest b (o + l) o bs.
Proof using Type. intros (p' & (H1 & H2 & (P1 & P2 & _) & H3) & Ht). split_and!; try done. by exists p'. Qed.

Lemma next_free_run fuel us x b o p bs :
  0 <= o -> rest b o p bs -> (length bs < fuel)%nat ->
  next_free w fuel (mk (hp + o) us x b) = Ok (tt, mk (hp + first_free o bs) us x b).
Proof using Hw Hal Hg.
  layout_facts. revert o p bs; induction fuel as [|fuel IH]; intros o p bs Ho Hr Hf; [lia|].
  pose proof (rest_end w al trace Hw Hal m0 Hg _ _ _ _ Hr) as [He Hs].
  cbn [next_free]. erewrite bind_run; [|reflexivity]. change (lfree (mk (hp + o) us x b)) with (hp + o).
  change (heap_end (mk (hp + o) us x b)) with (heap_end m0). change (heap_ptr (mk (hp + o) us x b)) with hp.
  step (isused_run w al trace Hw Hal m0 Hg). rewrite (rest_head w al trace Hw Hal m0 Hg _ _ _ _ Hr), (tg_used w al trace Hw Hal m0 Hg).
  rewrite (g_end _ _ _ _ Hg). destruct bs as [|[l []] bs]; cbn [head_used first_free andb].
  - cbn [sum_len] in He. rewrite (proj2 (Z.eqb_eq _ _)) by lia. done.
  - apply rest_cons in Hr as (Hl & _ & _ & Hn & Hr). cbn [sum_len length] in *.
    pose proof (rest_end w al trace Hw Hal m0 Hg _ _ _ _ Hr) as [He2 Hs2].
    rewrite (proj2 (Z.eqb_neq _ _)) by lia. cbn [negb]. step (ld_run w al trace Hw Hal m0 Hg). rewrite Hn.
    erewrite bind_run; [|reflexivity]. apply (IH (o + l) o bs); [lia|done|lia].
  - done.
Qed.

(** ** First fit *)

Fixpoint first_fit (s : Z) (bs : list block) : option (list block * Z * list block) :=
  match bs with
  | [] => None
  | (l, u) :: bs' =>
      if negb u && (S + s <=? l) then Some ([], l, bs')
      else '(a, l', c) ← first_fit s bs'; Some ((l, u) :: a, l', c)
  end.

Lemma first_fit_some s bs a l c :
  first_fit s bs = Some (a, l, c) ->
  bs = a ++ (l, false) :: c /\ S + s <= l /\ Forall (fun x => x.2 = false -> x.1 < S + s) a.
Proof using Type.
  clear. revert a; induction bs as [|[l0 u] bs IH]; intros a; [done|]. cbn [first_fit].
  destruct u; cbn [negb andb].
  - destruct (first_fit s bs) as [[[a' l'] c']|]; [|done]. intros [= <- -> ->].
    destruct (IH a' eq_refl) as (-> & Hl & Ha). split; [done|]. split; [done|]. constructor; [done|done].
  - destruct (Z.leb_spec (S + s) l0).
    + intros [= <- -> ->]. split; [done|]. split; [done|constructor].
    + destruct (first_fit s bs) as [[[a' l'] c']|]; [|done]. intros [= <- -> ->].
      destruct (IH a' eq_refl) as (-> & Hl & Ha). split; [done|]. split; [done|]. constructor; [done|done].
Qed.

Lemma first_fit_none s bs : first_fit s bs = None -> Forall (fun x => x.2 = false -> x.1 < S + s) bs.
Proof using Type.
  clear. induction bs as [|[l0 u] bs IH]; [constructor|]. cbn [first_fit].
  destruct u; cbn [negb andb]; [|destruct (Z.leb_spec (S + s) l0); [done|]];
    (destruct (first_fit s bs) as [[[a' l'] c']|]; [done|]); intros _; constructor; auto; done.
Qed.

Lemma first_fit_used s xs zs :
  forallb snd xs = true ->
  first_fit s (xs ++ zs) = ('(a, l, c) ← first_fit s zs; Some (xs ++ a, l, c)).
Proof using Type.
  clear. induction xs as [|[l u] xs IH]; cbn [app forallb snd]; [by destruct (first_fit s zs) as [[[? ?] ?]|]|].
  rewrite andb_true_iff. intros [-> Hx]. cbn [first_fit negb andb]. rewrite (IH Hx).
  by destruct (first_fit s zs) as [[[? ?] ?]|].
Qed.

(** The block list from the lowest free block on. *)
Lemma first_free_split bs o :
  exists xs zs, bs = xs ++ zs /\ forallb snd xs = true /\ first_free o bs = o + sum_len xs /\
    (zs = [] \/ head_used zs = false).
Proof using Type.
  clear. revert o; induction bs as [|[l []] bs IH]; intros o; cbn [first_free].
  - exists [], []. cbn. split_and!; [done|done|lia|by left].
  - destruct (IH (o + l)) as (xs & zs & -> & Hx & -> & Hz). exists ((l, true) :: xs), zs. cbn [sum_len forallb snd andb].
    split_and!; [done|done|lia|done].
  - exists [], ((l, false) :: bs). cbn. split_and!; [done|done|lia|by right].
Qed.

Lemma alloc_loop_run fuel lf us x b p xs zs s :
  0 <= sum_len xs -> rest b (sum_len xs) p zs -> (length zs < fuel)%nat -> 0 < s <= mem_size_aligned m0 -> E + S < 2 ^ w ->
  alloc_loop w al trace thread_self fuel (sum_len xs) s (mk lf us x b) =
  match first_fit s zs with
  | None => Ok (0, mk lf us x b)
  | Some (a, l, c) => take_item w al trace thread_self (hp + sum_len (xs ++ a)) (sum_len (xs ++ a)) s (mk lf us x b)
  end.
Proof using Hw Hal Hg.
  layout_facts. revert p xs zs. induction fuel as [|fuel IH]; intros p xs zs Ho Hr Hf Hs Ht; [lia|].
  pose proof (rest_end w al trace Hw Hal m0 Hg _ _ _ _ Hr) as [He Hsum].
  cbn [alloc_loop]. erewrite bind_run; [|reflexivity]. change (heap_ptr (mk lf us x b)) with hp.
  change (mem_size_aligned (mk lf us x b)) with (mem_size_aligned m0).
  rewrite (wrap_small w (_ - s)) by (unfold in_u; lia).
  destruct (Z.leb_spec (sum_len xs) (mem_size_aligned m0 - s)) as [Hle|Hgt].
  2:{ destruct (first_fit s zs) as [[[a l] c]|] eqn:Ef; [|done]. exfalso.
      apply first_fit_some in Ef as (-> & Hl & _). rewrite sum_len_app in He. cbn [sum_len] in He.
      destruct Hr as (p' & (o1 & p1 & H1 & H2)%(seg_app w al trace Hw Hal m0 Hg) & _).
      cbn [seg] in H2. destruct H2 as (_ & _ & _ & H2).
      apply (seg_end w al trace Hw Hal m0 Hg) in H1, H2. lia. }
  destruct zs as [|[l u] zs]; [cbn [sum_len] in He; lia|].
  apply rest_cons in Hr as (Hl & _ & Hp & Hn & Hr). cbn [sum_len length] in *.
  pose proof (rest_end w al trace Hw Hal m0 Hg _ _ _ _ Hr) as [He2 Hs2].
  step (isused_run w al trace Hw Hal m0 Hg). rewrite Hp, (tg_used w al trace Hw Hal m0 Hg).
  assert (alloc_loop w al trace thread_self fuel (sum_len xs + l) s (mk lf us x b) =
    match first_fit s zs with
    | None => Ok (0, mk lf us x b)
    | Some (a, l', c) => take_item w al trace thread_self (hp + sum_len (xs ++ (l, u) :: a)) (sum_len (xs ++ (l, u) :: a)) s (mk lf us x b)
    end) as Hrec.
  { specialize (IH (sum_len xs) (xs ++ [(l, u)]) zs). rewrite sum_len_app in IH. cbn [sum_len] in IH.
    rewrite Z.add_0_r in IH. rewrite IH by (done || lia). destruct (first_fit s zs) as [[[a ?] ?]|]; [|done].
    by rewrite <- app_assoc. }
  destruct u; cbn [first_fit negb andb].
  - erewrite bind_run; [|reflexivity]. cbv iota. step (ld_run w al trace Hw Hal m0 Hg). rewrite Hn, Hrec.
    by destruct (first_fit s zs) as [[[? ?] ?]|].
  - cbv iota. erewrite bind_run; [|step (ld_run w al trace Hw Hal m0 Hg); reflexivity].
    rewrite Hn, wrap_small by (unfold in_u; lia).
    destruct (Z.leb_spec s (sum_len xs + l - (sum_len xs + S))), (Z.leb_spec (S + s) l); try lia.
    + cbv iota. rewrite app_nil_r. done.
    + cbv iota. step (ld_run w al trace Hw Hal m0 Hg). rewrite Hn, Hrec. by destruct (first_fit s zs) as [[[? ?] ?]|].
Qed.
(** ** Taking a block *)

(** The list after [s] bytes are taken from the free block between [xs] and [ys]: the
    tail of a long block stays free. *)
Definition take_len (l s : Z) : Z := if s + S + MIN_SIZE_ALIGNED w al <=? l - S then S + s else l.
Definition take_list (xs : list block) (l : Z) (ys : list block) (s : Z) : list block :=
  if s + S + MIN_SIZE_ALIGNED w al <=? l - S then xs ++ (S + s, true) :: (l - S - s, false) :: ys
  else xs ++ (l, true) :: ys.

Definition max_of (x u : Z) : Z := if x <? u then u else x.

Lemma add_used_run n lf us x b :
  in_u w (us + n) -> add_used w n (mk lf us x b) = Ok (tt, mk lf (us + n) (max_of x (us + n)) b).
Proof using Hw Hal Hg.
  intros Hu. unfold add_used. erewrite bind_run; [|reflexivity]. unfold modify.
  change (Ok (tt, mk lf (wrap w (us + n)) (max_of x (wrap w (us + n))) b) = Ok (tt, mk lf (us + n) (max_of x (us + n)) b)).
  by rewrite wrap_small.
Qed.

Lemma seg_aligned b o p bs o' p' : seg w al trace m0 b o p bs o' p' -> sum_len bs mod al = 0.
Proof using Hw Hal Hg.
  assert (al <> 0) as Ha0 by lia. revert o p; induction bs as [|[l u] bs IH]; intros o p; cbn [seg sum_len]; [intros _; by apply Z.mod_0_l|].
  intros (_ & Hm & _ & Hr%IH). rewrite Z.add_mod, Hm, Hr by done. by apply Z.mod_0_l.
Qed.

Lemma first_free_inside b p xs :
  seg w al trace m0 b 0 0 xs (sum_len xs) p -> forallb snd xs = false -> 0 <= first_free 0 xs < sum_len xs.
Proof using Hw Hal Hg.
  intros Hx Eu. layout_facts. destruct (first_free_split xs 0) as (zs1 & zs2 & Ex & Hz & -> & _).
  rewrite Ex in Eu |- *. rewrite forallb_app, Hz in Eu. cbn [andb] in Eu. rewrite Ex in Hx.
  apply (seg_app w al trace Hw Hal m0 Hg) in Hx as (o1 & p1 & G1 & G2).
  apply (seg_end w al trace Hw Hal m0 Hg) in G1. destruct zs2 as [|[l2 u2] zs2]; [done|].
  cbn [seg] in G2. destruct G2 as (G2 & _ & _ & G3). apply (seg_end w al trace Hw Hal m0 Hg) in G3.
  rewrite sum_len_app. cbn [sum_len]. lia.
Qed.

Lemma first_free_cases b o p bs :
  0 <= o -> rest b o p bs ->
  first_free o bs = E \/ (o <= first_free o bs < E /\ getf b (first_free o bs) POOL_PTR = tg false).
Proof using Hw Hal Hg.
  intros Ho (p2 & Hs & Ht). destruct (first_free_split bs o) as (zs1 & zs2 & -> & Hz & Ef & Hh).
  apply (seg_app w al trace Hw Hal m0 Hg) in Hs as (o1 & p1 & G1 & G2).
  pose proof (seg_end w al trace Hw Hal m0 Hg _ _ _ _ _ _ G1) as [G3 G4].
  pose proof (seg_end w al trace Hw Hal m0 Hg _ _ _ _ _ _ G2) as [G5 G6]. layout_facts.
  destruct Hh as [-> | Hh]; [left; cbn [sum_len] in *; lia|]. right.
  assert (rest b (first_free o (zs1 ++ zs2)) p1 zs2) as Hr by (exists p2; rewrite Ef, <- G3; done).
  rewrite (rest_head w al trace Hw Hal m0 Hg _ _ _ _ Hr), Hh. split; [|done].
  destruct zs2 as [|[l2 u2] zs2]; [done|]. cbn [seg] in G2. destruct G2 as (G2 & _ & _ & G7).
  apply (seg_end w al trace Hw Hal m0 Hg) in G7. lia.
Qed.

Lemma take_lfree us x b xs l ys :
  heap b (xs ++ (l, true) :: ys) ->
  advance_lfree w (hp + sum_len xs) (mk (hp + first_free 0 (xs ++ (l, false) :: ys)) us x b) =
  Ok (tt, mk (hp + first_free 0 (xs ++ (l, true) :: ys)) us x b).
Proof using Hw Hal Hg.
  intros Hh. layout_facts. pose proof (focus_range _ _ _ _ _ Hh) as (R1 & R2 & R3 & R4 & R5 & R6).
  apply (heap_focus w al trace Hw Hal m0 Hg) in Hh as (p & K1 & K2 & K3 & K4 & K5).
  rewrite !first_free_app. cbn [first_free]. unfold advance_lfree. erewrite bind_run; [|reflexivity].
  match goal with |- context [lfree (mk ?f us x b)] => change (lfree (mk f us x b)) with f end.
  destruct (forallb snd xs) eqn:Eu.
  - rewrite (proj2 (Z.eqb_eq _ _)) by lia. rewrite Z.add_0_l. unfold when.
    assert (rest b (sum_len xs) p ((l, true) :: ys)) as Hr.
    { destruct K5 as (p2 & K5 & K6). exists p2. split; [|done]. cbn [seg]. done. }
    change (fuel_of (mk (hp + sum_len xs) us x b)) with (fuel_of m0).
    erewrite bind_run; [|apply (next_free_run _ us x b _ p ((l, true) :: ys)); [lia|done|]].
    2:{ apply rest_length in Hr as [|Hr]; [done|]. cbn [length sum_len] in *. unfold fuel_of. lia. }
    pose proof (first_free_cases _ _ _ _ R1 Hr) as Hff. cbn [first_free] in *.
    set (f := first_free (sum_len xs + l) ys) in *.
    erewrite bind_run; [|reflexivity]. change (lfree (mk (hp + f) us x b)) with (hp + f).
    change (heap_end (mk (hp + f) us x b)) with (heap_end m0). rewrite (g_end _ _ _ _ Hg).
    destruct Hff as [->|[Hf Hp]]; [by rewrite Z.eqb_refl|]. rewrite (proj2 (Z.eqb_neq _ _)) by lia.
    erewrite bind_run; [|apply (isused_run w al trace Hw Hal m0 Hg); lia].
    by rewrite Hp, (tg_used w al trace Hw Hal m0 Hg).
  - pose proof (first_free_inside _ _ _ K1 Eu). by rewrite (proj2 (Z.eqb_neq _ _)) by lia.
Qed.

(** The last steps: the flag, the lowest free block, the assertions. *)
Lemma take_finish lf us x b xs l ys s name :
  heap b (xs ++ (l, false) :: ys) -> 0 <= s -> S + s <= l -> lf = hp + first_free 0 (xs ++ (l, false) :: ys) ->
  let b' := mark_bytes w trace m0 b (sum_len xs) true name in
  (st w (hp + sum_len xs) POOL_PTR (tg true) ;;
   rt_smem_setname w trace (hp + sum_len xs) name ;;
   advance_lfree w (hp + sum_len xs) ;;
   assert_that (hp + sum_len xs + S + s <=? heap_end m0) "mem + SIZEOF_STRUCT_MEM + size <= heap_end" ;;
   assert_that (wrap w (hp + sum_len xs + S) mod al =? 0) "(mem + SIZEOF_STRUCT_MEM) % RT_ALIGN_SIZE == 0" ;;
   assert_that (Z.land (hp + sum_len xs) (al - 1) =? 0) "(mem & (RT_ALIGN_SIZE - 1)) == 0" ;;
   mret (hp + sum_len xs + S)) (mk lf us x b) =
  Ok (hp + sum_len xs + S, mk (hp + first_free 0 (xs ++ (l, true) :: ys)) us x b') /\
  heap b' (xs ++ (l, true) :: ys).
Proof using Hw Hal Hg.
  intros Hh Hs Hl -> b'. layout_facts. pose proof (focus_range _ _ _ _ _ Hh) as (R1 & R2 & R3 & R4 & R5 & R6).
  assert (heap b' (xs ++ (l, true) :: ys)) as Hh' by (by eapply mark_heap). split; [|done].
  pose proof (proj1 (heap_focus w al trace Hw Hal m0 Hg _ _ _ _ _) Hh) as (p & Hx & _).
  pose proof (seg_aligned _ _ _ _ _ _ Hx) as Hoa.
  step (st_run w al trace Hw Hal m0 Hg). step (setname_run w al trace Hw Hal m0 Hg).
  change (SmallMemFacts.setn w trace m0 (setf w m0 b (sum_len xs) POOL_PTR (tg true)) (sum_len xs) name) with b'.
  rewrite (bind_run _ _ _ _ _ (take_lfree us x b' xs l ys Hh')). destruct Hg as [_ [Hg1 Hg2] _ He Htop _ _].
  rewrite (proj2 (Z.leb_le _ _)) by lia. erewrite bind_run; [|reflexivity].
  rewrite wrap_small by (unfold in_u; lia).
  assert (al <> 0) as Ha0 by lia.
  assert ((hp + sum_len xs) mod al = 0) as Hm1 by (rewrite Z.add_mod, Hg2, Hoa by done; by apply Z.mod_0_l).
  rewrite (Z.add_mod (hp + sum_len xs) S), Hm1, Hlsa by done. rewrite Z.mod_0_l by done. cbn [Z.eqb].
  erewrite bind_run; [|reflexivity]. rewrite (land_low al Hal), Hm1. cbn [Z.eqb].
  erewrite bind_run; [|reflexivity]. done.
Qed.
Definition name_self : list Z := default name_NONE thread_self.

Lemma take_item_run lf us x b xs l ys s :
  heap b (xs ++ (l, false) :: ys) -> MIN_SIZE_ALIGNED w al <= s -> s mod al = 0 -> S + s <= l ->
  lf = hp + first_free 0 (xs ++ (l, false) :: ys) -> 0 <= us -> us + l < 2 ^ w ->
  exists b', take_item w al trace thread_self (hp + sum_len xs) (sum_len xs) s (mk lf us x b) =
    Ok (hp + sum_len xs + S,
        mk (hp + first_free 0 (take_list xs l ys s)) (us + take_len l s) (max_of x (us + take_len l s)) b') /\
    heap b' (take_list xs l ys s) /\
    touched w al trace m0 [sum_len xs; sum_len xs + S + s; sum_len xs + l] b b'.
Proof using Hw Hal Hg.
  intros Hh Hs Ha Hl Hlf Hus1 Hus2. layout_facts. pose proof (focus_range _ _ _ _ _ Hh) as (R1 & R2 & R3 & R4 & R5 & R6).
  destruct (focus_hdr _ _ _ _ _ Hh) as (F1 & F2 & F3).
  unfold take_item. erewrite bind_run; [|reflexivity]. step (ld_run w al trace Hw Hal m0 Hg). rewrite F2.
  rewrite (wrap_small w (s + S + _)), (wrap_small w (_ - (_ + S))) by (unfold in_u; lia).
  replace (sum_len xs + l - (sum_len xs + S)) with (l - S) by lia.
  change (heap_ptr (mk lf us x b)) with hp. change (MEM_USED w (mk lf us x b)) with (tg true).
  change (heap_end (mk lf us x b)) with (heap_end m0).
  unfold take_list, take_len. destruct (Z.leb_spec (s + S + MIN_SIZE_ALIGNED w al) (l - S)) as [Hsp|Hns].
  - erewrite bind_run.
    2:{ erewrite bind_run; [|apply (split_item_run lf us x b xs l false ys s); done || lia].
        rewrite (wrap_small w (s + S)) by (unfold in_u; lia). apply add_used_run. unfold in_u. lia. }
    set (b1 := split_bytes _ _ _ _ _ _ _ _).
    assert (heap b1 (xs ++ (S + s, false) :: (l - S - s, false) :: ys)) as H1.
    { apply (split_heap w al trace Hw Hal m0 Hg); try done; lia. }
    destruct (take_finish lf (us + (s + S)) (max_of x (us + (s + S))) b1 xs (S + s) ((l - S - s, false) :: ys) s name_self H1)
      as [E1 E2]; [lia|lia|rewrite Hlf, !first_free_app; cbn [first_free]; done|].
    unfold advance_lfree in E1. eexists. split; [rewrite (Z.add_comm S s) at 2 3; exact E1|]. split; [exact E2|].
    eapply touched_trans; [apply (split_touched w al trace Hw Hal m0 Hg)|].
    eapply touched_mono; [|apply (mark_touched w al trace Hw Hal m0 Hg)]. clear. set_solver.
  - erewrite bind_run.
    2:{ replace (hp + sum_len xs - hp) with (sum_len xs) by lia. replace (sum_len xs + l - sum_len xs) with l by lia.
        rewrite (wrap_small w l) by (unfold in_u; lia). apply add_used_run. unfold in_u. lia. }
    destruct (take_finish lf (us + l) (max_of x (us + l)) b xs l ys s name_self Hh) as [E1 E2]; [lia|lia|done|].
    eexists. split; [exact E1|]. split; [exact E2|].
    eapply touched_mono; [|apply (mark_touched w al trace Hw Hal m0 Hg)]. clear. set_solver.
Qed.

(** The rounded size is between the request and the width of a word. *)
Lemma aligned_size_spec size :
  0 < size -> size + al <= 2 ^ w ->
  let s := aligned_size w al size in
  MIN_SIZE_ALIGNED w al <= s /\ size <= s /\ s mod al = 0 /\ s = Z.max (MIN_SIZE_ALIGNED w al) ((size + al - 1) / al * al).
Proof using Hw Hal Hg.
  intros H0 Hlt. layout_facts. unfold aligned_size. rewrite (RT_ALIGN_spec w al Hw Hal size) by lia.
  assert (size <= (size + al - 1) / al * al) as Hle by (destruct Hal as [-> | ->]; Z.to_euclidean_division_equations; lia).
  assert ((size + al - 1) / al * al mod al = 0) as Hm by (apply Z.mod_mul; lia).
  destruct (Z.ltb_spec ((size + al - 1) / al * al) (MIN_SIZE_ALIGNED w al)); split_and!; (done || lia).
Qed.

Lemma check_object_run lf us x b : check_object (mk lf us x b) = Ok (tt, mk lf us x b).
Proof using Hw Hal Hg.
  unfold check_object. erewrite bind_run; [|reflexivity]. change (obj_type (mk lf us x b)) with (obj_type m0).
  by rewrite (g_type _ _ _ _ Hg).
Qed.

(** [rt_smem_alloc] is first fit. *)
Lemma alloc_run us x b bs size :
  heap b bs -> no_adj bs -> 0 < size -> size + al <= 2 ^ w -> 0 <= us -> us <= used_sum bs ->
  let s := aligned_size w al size in
  match (if mem_size_aligned m0 <? s then None else first_fit s bs) with
  | None => rt_smem_alloc w al trace thread_self size (mk (hp + first_free 0 bs) us x b) =
      Ok (0, mk (hp + first_free 0 bs) us x b)
  | Some (xs, l, ys) => exists b',
      rt_smem_alloc w al trace thread_self size (mk (hp + first_free 0 bs) us x b) =
      Ok (hp + sum_len xs + S,
          mk (hp + first_free 0 (take_list xs l ys s)) (us + take_len l s) (max_of x (us + take_len l s)) b') /\
      heap b' (take_list xs l ys s) /\ touched w al trace m0 [sum_len xs; sum_len xs + S + s; sum_len xs + l] b b'
  end.
Proof using Hw Hal Hg.
  intros Hh Hna H0 Hlt Hus1 Hus2 s. layout_facts.
  destruct (aligned_size_spec size H0 Hlt) as (Hs1 & Hs2 & Hs3 & _). fold s in Hs1, Hs2, Hs3.
  pose proof (rest_end w al trace Hw Hal m0 Hg _ _ _ _ Hh) as [He Hsum].
  assert (forall y, rt_smem_alloc w al trace thread_self size (mk (hp + first_free 0 bs) us x b) =
    y <-> (if mem_size_aligned m0 <? s then mret 0
           else alloc_loop w al trace thread_self (fuel_of m0) (wrap w (hp + first_free 0 bs - hp)) s) (mk (hp + first_free 0 bs) us x b) = y) as Hunf.
  { intros y. unfold rt_smem_alloc. rewrite (proj2 (Z.eqb_neq size 0)) by lia.
    erewrite bind_run; [|apply check_object_run]. erewrite bind_run; [|reflexivity]. fold s. done. }
  destruct (Z.ltb_spec (mem_size_aligned m0) s) as [Hbig|Hfit]; [by apply Hunf|].
  destruct (first_free_split bs 0) as (xs & zs & -> & Hx & Ef & _). rewrite Ef in *. rewrite Z.add_0_l in *.
  replace (hp + sum_len xs - hp) with (sum_len xs) in Hunf by lia.
  pose proof Hh as (p' & (o1 & p1 & G1 & G2)%(seg_app w al trace Hw Hal m0 Hg) & Ht).
  pose proof (seg_end w al trace Hw Hal m0 Hg _ _ _ _ _ _ G1) as [G3 G4]. rewrite Z.add_0_l in G3. subst o1.
  assert (rest b (sum_len xs) p1 zs) as Hr by (by exists p').
  pose proof (rest_end w al trace Hw Hal m0 Hg _ _ _ _ Hr) as [G5 G6].
  destruct Hg as [_ [Hg1 _] [Hg3 _] Hg4 Hg5 _ _].
  rewrite (wrap_small w (sum_len xs)) in Hunf by (unfold in_u; lia).
  rewrite (first_fit_used s xs zs Hx).
  pose proof (alloc_loop_run (fuel_of m0) (hp + sum_len xs) us x b p1 xs zs s G4 Hr) as Hloop.
  assert (length zs < fuel_of m0)%nat as Hfuel.
  { apply rest_length in Hr as [->|Hr]; unfold fuel_of; cbn [length]; lia. }
  specialize (Hloop Hfuel ltac:(lia) ltac:(lia)).
  destruct (first_fit s zs) as [[[a l] c]|] eqn:Eff; cbn [mbind option_bind]; [|by apply Hunf].
  apply first_fit_some in Eff as (-> & Hl & _). rewrite app_assoc in Hh.
  destruct (take_item_run (hp + sum_len xs) us x b (xs ++ a) l c s Hh) as (b' & E1 & E2 & E3); [done|done|done|..].
  - rewrite app_assoc in Ef. rewrite Ef. lia.
  - done.
  - rewrite app_assoc, used_sum_app in Hus2. cbn [used_sum] in Hus2.
    assert (forall bs o p o' p', seg w al trace m0 b o p bs o' p' -> used_sum bs <= sum_len bs) as Hle.
    { clear -Hls. induction bs as [|[l0 u0] bs IH]; intros o p o' p'; cbn [seg used_sum sum_len]; [lia|].
      intros (Hl & _ & _ & H%IH). destruct u0; lia. }
    apply (heap_focus w al trace Hw Hal m0 Hg) in Hh as (p2 & K1 & K2 & _ & _ & (p3 & K5 & _)).
    pose proof (Hle _ _ _ _ _ K1). pose proof (Hle _ _ _ _ _ K5).
    pose proof (seg_end w al trace Hw Hal m0 Hg _ _ _ _ _ _ K5). lia.
  - exists b'. split; [|done]. apply Hunf. by rewrite Hloop.
Qed.
(** ** User data *)

(** The bytes of the listed blocks are the same. *)
Definition kept (L : list (Z * Z)) (b b' : harray) : Prop :=
  forall o l, (o, l) ∈ L ->
    ha_get_n b' (hp + o + S) (Z.to_nat (l - S)) = ha_get_n b (hp + o + S) (Z.to_nat (l - S)).

Lemma kept_trans L b1 b2 b3 : kept L b1 b2 -> kept L b2 b3 -> kept L b1 b3.
Proof using Type. intros H1 H2 o l Hin. by rewrite H2, H1. Qed.
Lemma kept_sub L L' b b' : L ⊆ L' -> kept L' b b' -> kept L b b'.
Proof using Type. intros Hs H o l Hin. by apply H, Hs. Qed.

Lemma live_range b o p bs o' p' a l :
  seg w al trace m0 b o p bs o' p' -> (a, l) ∈ live o bs -> o <= a /\ a + l <= o' /\ S <= l.
Proof using Hw Hal Hg.
  layout_facts. revert o p; induction bs as [|[l0 u] bs IH]; intros o p; cbn [seg live]; [by intros _ ?%not_elem_of_nil|].
  intros (Hl & _ & _ & Hs) Hin. pose proof (seg_end w al trace Hw Hal m0 Hg _ _ _ _ _ _ Hs).
  apply elem_of_app in Hin as [Hin|Hin].
  - destruct u; [|by apply not_elem_of_nil in Hin]. apply list_elem_of_singleton in Hin. injection Hin as -> ->. lia.
  - destruct (IH _ _ Hs Hin). lia.
Qed.

Lemma live_focus_range b xs l u ys a la :
  heap b (xs ++ (l, u) :: ys) -> (a, la) ∈ live 0 xs ++ live (sum_len xs + l) ys ->
  a + la <= sum_len xs \/ sum_len xs + l <= a.
Proof using Hw Hal Hg.
  intros (p & H1 & _ & _ & _ & (p' & H4 & _))%(heap_focus w al trace Hw Hal m0 Hg) [Hin|Hin]%elem_of_app.
  - left. by apply (live_range _ _ _ _ _ _ _ _ H1) in Hin as (_ & ? & _).
  - right. by apply (live_range _ _ _ _ _ _ _ _ H4) in Hin as (? & _).
Qed.

(** Headers within a block are outside the data of the others. *)
Lemma kept_focus qs b b0 b' xs l u ys :
  heap b0 (xs ++ (l, u) :: ys) -> touched w al trace m0 qs b b' ->
  (forall q, q ∈ qs -> sum_len xs <= q <= sum_len xs + l) ->
  kept (live 0 xs ++ live (sum_len xs + l) ys) b b'.
Proof using Hw Hal Hg.
  intros Hh Ht Hq a la Hin. destruct (live_focus_range _ _ _ _ _ _ _ Hh Hin) as [H|H];
    apply (touched_block w al trace Hw Hal m0 Hg qs); try done; intros q Hin2; specialize (Hq q Hin2); lia.
Qed.

Lemma live_free o xs l ys : live o (xs ++ (l, false) :: ys) = live o xs ++ live (o + sum_len xs + l) ys.
Proof using Type. by rewrite live_app. Qed.
Lemma live_used o xs l ys :
  live o (xs ++ (l, true) :: ys) = live o xs ++ (o + sum_len xs, l) :: live (o + sum_len xs + l) ys.
Proof using Type. by rewrite live_app. Qed.

(** ** plug_holes *)

Definition merge_next (l : Z) (ys : list block) : Z * list block :=
  match ys with (l2, false) :: ys' => (l + l2, ys') | _ => (l, ys) end.
Definition merge_prev (xs : list block) (l : Z) (ys : list block) : list block :=
  match last xs with
  | Some (l1, false) => removelast xs ++ (l1 + l, false) :: ys
  | _ => xs ++ (l, false) :: ys
  end.
Definition coalesce (xs : list block) (l : Z) (ys : list block) : list block :=
  let (l', ys') := merge_next l ys in merge_prev xs l' ys'.

Lemma plug_forward_run lf us x b xs l ys :
  heap b (xs ++ (l, false) :: ys) -> lf <> hp + (sum_len xs + l) ->
  exists b', plug_forward w (hp + sum_len xs) (mk lf us x b) = Ok (tt, mk lf us x b') /\
    heap b' (xs ++ ((merge_next l ys).1, false) :: (merge_next l ys).2) /\
    kept (live 0 (xs ++ (l, false) :: ys)) b b'.
Proof using Hw Hal Hg.
  intros Hh Hlf. layout_facts. pose proof (focus_range _ _ _ _ _ Hh) as (R1 & R2 & R3 & R4 & R5 & R6).
  destruct (focus_hdr _ _ _ _ _ Hh) as (F1 & F2 & F3).
  unfold plug_forward. erewrite bind_run; [|reflexivity]. step (ld_run w al trace Hw Hal m0 Hg). rewrite F2.
  change (heap_ptr (mk lf us x b)) with hp. change (lfree (mk lf us x b)) with lf.
  change (heap_end (mk lf us x b)) with (heap_end m0). rewrite (g_end _ _ _ _ Hg).
  rewrite (proj2 (Z.eqb_neq (hp + sum_len xs) _)) by lia.
  erewrite bind_run; [|step (isused_run w al trace Hw Hal m0 Hg); reflexivity]. rewrite F3, (tg_used w al trace Hw Hal m0 Hg).
  destruct ys as [|[l2 [|]] ys]; cbn [head_used negb andb merge_next fst snd]; [by exists b|by exists b|].
  pose proof Hh as Hh2. rewrite (cons_middle (l, false)), app_assoc in Hh2.
  pose proof (focus_range _ _ _ _ _ Hh2) as (_ & Q2 & _ & Q4 & Q5 & _).
  destruct (focus_hdr _ _ _ _ _ Hh2) as (_ & G2 & _). rewrite sum_len_app in *. cbn [sum_len] in *. rewrite Z.add_0_r in *.
  rewrite (proj2 (Z.eqb_neq (hp + (sum_len xs + l)) _)) by lia. cbn [negb]. unfold when.
  rewrite (proj2 (Z.eqb_neq lf _)) by done. erewrite bind_run; [|reflexivity].
  step (st_run w al trace Hw Hal m0 Hg). step (ld_run w al trace Hw Hal m0 Hg).
  assert (getf (setf w m0 b (sum_len xs + l) POOL_PTR 0) (sum_len xs + l) (NEXT w) = sum_len xs + l + l2) as -> by (getf_simp; done).
  step (st_run w al trace Hw Hal m0 Hg). step (ld_run w al trace Hw Hal m0 Hg).
  match goal with |- context [getf ?b (sum_len xs + l) (NEXT w)] =>
    replace (getf b (sum_len xs + l) (NEXT w)) with (sum_len xs + l + l2) by (getf_simp; done) end.
  rewrite (st_run w al trace Hw Hal m0 Hg) by (fld || lia).
  replace (hp + sum_len xs - hp) with (sum_len xs) by lia.
  rewrite (wrap_small w (sum_len xs)) by (unfold in_u; destruct Hg; lia).
  eexists. split; [reflexivity|]. pose proof (merge_heap w al trace Hw Hal m0 Hg _ _ _ _ _ _ _ Hh) as Hm.
  unfold merge_bytes in Hm. split; [exact Hm|]. rewrite live_free. cbn [live app]. rewrite Z.add_0_l.
  replace (live (sum_len xs + l + l2) ys) with (live (sum_len xs + (l + l2)) ys) by (f_equal; lia).
  eapply (kept_focus [sum_len xs; sum_len xs + l; sum_len xs + l + l2]); [exact Hm|apply (merge_touched w al trace Hw Hal m0 Hg)|].
  intros q Hq. rewrite !elem_of_cons, elem_of_nil in Hq. lia.
Qed.
(** Whether the list ends in a free block. *)
Definition last_free (xs : list block) : bool := match last xs with Some (_, false) => true | _ => false end.

Lemma plug_backward_run lf us x b xs l ys :
  heap b (xs ++ (l, false) :: ys) -> (forall l1, last xs = Some (l1, false) -> lf <> hp + sum_len xs) ->
  exists b', plug_backward w (hp + sum_len xs) (mk lf us x b) = Ok (tt, mk lf us x b') /\
    heap b' (merge_prev xs l ys) /\ kept (live 0 (xs ++ (l, false) :: ys)) b b' /\
    getf b' (sum_len xs) POOL_PTR = if last_free xs then 0 else tg false.
Proof using Hw Hal Hg.
  intros Hh Hlf. layout_facts. pose proof (focus_range _ _ _ _ _ Hh) as (R1 & R2 & R3 & R4 & R5 & R6).
  destruct (focus_hdr _ _ _ _ _ Hh) as (F1 & F2 & F3). pose proof (focus_prev _ _ _ _ _ Hh) as F4.
  unfold plug_backward. erewrite bind_run; [|reflexivity]. step (ld_run w al trace Hw Hal m0 Hg). rewrite F4.
  change (heap_ptr (mk lf us x b)) with hp. change (lfree (mk lf us x b)) with lf.
  destruct xs as [|[l1 u1] xs _] using rev_ind.
  { cbn [last sum_len merge_prev]. rewrite Z.add_0_r, Z.eqb_refl. exists b. split_and!; done. }
  rewrite last_snoc. rewrite sum_len_app in *. cbn [sum_len] in *. rewrite Z.add_0_r in *.
  rewrite <- app_assoc in Hh. cbn [app] in Hh.
  pose proof (focus_range _ _ _ _ _ Hh) as (Q1 & Q2 & Q3 & Q4 & Q5 & _). destruct (focus_hdr _ _ _ _ _ Hh) as (G1 & G2 & G3).
  replace (sum_len xs + l1 - l1) with (sum_len xs) by lia.
  rewrite (proj2 (Z.eqb_neq (hp + sum_len xs) _)) by lia.
  erewrite bind_run; [|step (isused_run w al trace Hw Hal m0 Hg); reflexivity]. rewrite G1, (tg_used w al trace Hw Hal m0 Hg).
  unfold merge_prev. rewrite last_snoc. destruct u1; cbn [negb].
  { exists b. unfold last_free. rewrite last_snoc, <- !app_assoc. split_and!; done. }
  unfold when. assert (lf <> hp + (sum_len xs + l1)) as Hlf' by (apply (Hlf l1), last_snoc).
  rewrite (proj2 (Z.eqb_neq lf _)) by done. erewrite bind_run; [|reflexivity].
  step (st_run w al trace Hw Hal m0 Hg). step (ld_run w al trace Hw Hal m0 Hg).
  assert (getf (setf w m0 b (sum_len xs + l1) POOL_PTR 0) (sum_len xs + l1) (NEXT w) = sum_len xs + l1 + l) as -> by (getf_simp; done).
  step (st_run w al trace Hw Hal m0 Hg). step (ld_run w al trace Hw Hal m0 Hg).
  match goal with |- context [getf ?b (sum_len xs + l1) (NEXT w)] =>
    replace (getf b (sum_len xs + l1) (NEXT w)) with (sum_len xs + l1 + l) by (getf_simp; done) end.
  rewrite (st_run w al trace Hw Hal m0 Hg) by (fld || lia).
  replace (hp + sum_len xs - hp) with (sum_len xs) by lia.
  rewrite (wrap_small w (sum_len xs)) by (unfold in_u; destruct Hg; lia).
  eexists. split; [reflexivity|]. pose proof (merge_heap w al trace Hw Hal m0 Hg _ _ _ _ _ _ _ Hh) as Hm.
  unfold merge_bytes in Hm. rewrite removelast_last. split; [exact Hm|]. split.
  2:{ unfold last_free. rewrite last_snoc. pose proof (offset_range w al trace Hw Hal m0 Hg 0 ltac:(lia)). getf_simp. done. }
  rewrite <- app_assoc. cbn [app]. rewrite live_free. cbn [live app]. rewrite Z.add_0_l.
  replace (live (sum_len xs + l1 + l) ys) with (live (sum_len xs + (l1 + l)) ys) by (f_equal; lia).
  eapply (kept_focus [sum_len xs; sum_len xs + l1; sum_len xs + l1 + l]); [exact Hm|apply (merge_touched w al trace Hw Hal m0 Hg)|].
  intros q Hq. rewrite !elem_of_cons, elem_of_nil in Hq. lia.
Qed.
Lemma last_cases (xs : list block) :
  (exists ys l, xs = ys ++ [(l, false)]) \/ (forall l, last xs <> Some (l, false)).
Proof using Type.
  clear. destruct xs as [|[l []] xs _] using rev_ind; [by right| |by left; eauto].
  right. intros l'. by rewrite last_snoc.
Qed.

Lemma merge_prev_free xs l1 l ys : merge_prev (xs ++ [(l1, false)]) l ys = xs ++ (l1 + l, false) :: ys.
Proof using Type. clear. unfold merge_prev. by rewrite last_snoc, removelast_last. Qed.
Lemma merge_prev_used xs l ys : (forall l1, last xs <> Some (l1, false)) -> merge_prev xs l ys = xs ++ (l, false) :: ys.
Proof using Type. clear. intros H. unfold merge_prev. destruct (last xs) as [[l1 []]|]; [done| |done]. by destruct (H l1). Qed.

(** Merging changes neither the used blocks nor the lowest free offset. *)
Lemma coalesce_spec xs l ys :
  0 <= l -> Forall (fun x => 0 < x.1) xs ->
  live 0 (coalesce xs l ys) = live 0 (xs ++ (l, false) :: ys) /\
  used_sum (coalesce xs l ys) = used_sum (xs ++ (l, false) :: ys) /\
  first_free 0 (coalesce xs l ys) = first_free 0 (xs ++ (l, false) :: ys) /\
  (no_adj (xs ++ (l, true) :: ys) -> no_adj (coalesce xs l ys)).
Proof using Type.
  clear. intros Hl Hpos. unfold coalesce.
  assert (exists l' ys', merge_next l ys = (l', ys') /\ live (sum_len xs + l') ys' = live (sum_len xs + l) ys /\
    used_sum ys' = used_sum ys /\ (no_adj ((l, true) :: ys) -> head_used ys' = true /\ no_adj ys')) as (l' & ys' & -> & H1 & H2 & H3).
  { destruct ys as [|[l2 []] ys]; cbn [merge_next]; eexists _, _; (split; [reflexivity|]).
    - done.
    - split; [done|]. split; [done|]. cbn. tauto.
    - cbn [live used_sum]. split; [cbn [app]; f_equal; lia|]. split; [lia|].
      intros [_ H]. destruct ys as [|[l3 []] ys]; cbn in *; [done|tauto|]. destruct H as [[?|?] _]; discriminate. }
  assert (forall zs k, no_adj (zs ++ (k, true) :: ys) -> (zs = [] \/ exists a b, zs = a ++ [(b, true)]) -> no_adj (zs ++ (l', false) :: ys')) as Hna.
  { intros zs k Hn Hz. apply no_adj_split in Hn as [Hn1 Hn2]. rewrite (no_adj_cons_len ys k l) in Hn2.
    destruct (H3 Hn2) as [H4 H5]. apply no_adj_split. split.
    - destruct Hz as [-> | (a & c & ->)]; [done|]. rewrite <- app_assoc in Hn1 |- *. cbn [app] in *.
      apply no_adj_split in Hn1 as [Hn1 _]. apply no_adj_split. split; [done|]. cbn. tauto.
    - destruct ys' as [|[? u] ?]; [done|]. cbn in H4. subst u. cbn. split; [by right|done]. }
  destruct (last_cases xs) as [(zs & l1 & ->)|Hx].
  - rewrite merge_prev_free, !live_free, !used_sum_app, sum_len_app in *. rewrite <- !app_assoc. cbn [app used_sum sum_len] in *.
    cbn [live app]. rewrite ?app_nil_r, ?Z.add_0_r, ?Z.add_0_l. rewrite ?Z.add_0_r in H1. split_and!.
    + f_equal. rewrite <- H1. f_equal. lia.
    + lia.
    + rewrite !first_free_app. cbn [first_free]. done.
    + intros Hn. rewrite no_adj_split in Hn. destruct Hn as [Hn Hn2].
      apply no_adj_cons in Hn2 as Hn3. destruct (H3 Hn3) as [H4 H5]. apply no_adj_split. split.
      * by apply (no_adj_snoc_len zs l1).
      * destruct ys' as [|[? u] ?]; [done|]. cbn in H4. subst u. cbn. split; [by right|done].
  - rewrite merge_prev_used by done. rewrite !live_free, !used_sum_app, !first_free_app, Z.add_0_l, H1. cbn [used_sum first_free].
    rewrite H2. split_and!; try done. intros Hn. apply (Hna xs l Hn).
    destruct xs as [|[b []] xs _] using rev_ind; [by left|right; eauto|]. exfalso. apply (Hx b), last_snoc.
Qed.

Lemma plug_holes_run us x b xs l ys :
  heap b (xs ++ (l, false) :: ys) ->
  let lf := hp + first_free 0 (xs ++ (l, false) :: ys) in
  exists b', plug_holes w (hp + sum_len xs) (mk lf us x b) = Ok (tt, mk lf us x b') /\
    heap b' (coalesce xs l ys) /\ kept (live 0 (xs ++ (l, false) :: ys)) b b' /\
    getf b' (sum_len xs) POOL_PTR = if last_free xs then 0 else tg false.
Proof using Hw Hal Hg.
  intros Hh lf. layout_facts. pose proof (focus_range _ _ _ _ _ Hh) as (R1 & R2 & R3 & R4 & R5 & R6).
  assert (lf <= hp + sum_len xs /\ (forall l1, last xs = Some (l1, false) -> lf <> hp + sum_len xs)) as [Hle Hne].
  { apply (heap_focus w al trace Hw Hal m0 Hg) in Hh as (p & K1 & _). unfold lf. rewrite first_free_app. cbn [first_free].
    destruct (forallb snd xs) eqn:Eu.
    - split; [lia|]. intros l1 Hl1. destruct xs as [|a xs _] using rev_ind; [done|]. rewrite last_snoc in Hl1. injection Hl1 as ->.
      rewrite forallb_app in Eu. cbn in Eu. by rewrite andb_false_r in Eu.
    - pose proof (first_free_inside _ _ _ K1 Eu). split; [lia|]. intros _ _. lia. }
  unfold plug_holes. erewrite bind_run; [|reflexivity]. change (heap_ptr (mk lf us x b)) with hp.
  change (heap_end (mk lf us x b)) with (heap_end m0). rewrite (g_end _ _ _ _ Hg).
  rewrite (proj2 (Z.leb_le hp _)) by lia. erewrite bind_run; [|reflexivity].
  rewrite (proj2 (Z.ltb_lt (hp + sum_len xs) _)) by lia. erewrite bind_run; [|reflexivity].
  destruct (plug_forward_run lf us x b xs l ys Hh) as (b1 & E1 & H1 & K1); [lia|].
  erewrite bind_run; [|exact E1]. destruct (plug_backward_run lf us x b1 xs _ _ H1 Hne) as (b2 & E2 & H2 & K2 & Z2).
  exists b2. split; [exact E2|]. unfold coalesce. destruct (merge_next l ys) as [l' ys'] eqn:Em. cbn [fst snd] in *.
  split; [done|]. split; [|done]. eapply kept_trans; [exact K1|]. eapply kept_sub; [|exact K2].
  rewrite !live_free. destruct ys as [|[l2 []] ys]; cbn [merge_next] in Em; injection Em as <- <-; [done|done|].
  cbn [live app]. by replace (0 + sum_len xs + l + l2) with (0 + sum_len xs + (l + l2)) by lia.
Qed.
(** ** rt_smem_free *)

Lemma first_free_ge o bs : Forall (fun x => 0 < x.1) bs -> o <= first_free o bs.
Proof using Type.
  clear. revert o; induction bs as [|[l []] bs IH]; intros o; cbn [first_free]; [lia| |lia].
  intros [H1 H2]%Forall_cons. cbn in H1. specialize (IH (o + l) H2). lia.
Qed.

Lemma seg_positive b o p bs o' p' : seg w al trace m0 b o p bs o' p' -> Forall (fun x => 0 < x.1) bs.
Proof using Hw Hal Hg.
  layout_facts. revert o p; induction bs as [|[l u] bs IH]; intros o p; cbn [seg]; [constructor|].
  intros (Hl & _ & _ & H%IH). constructor; [cbn; lia|done].
Qed.

Lemma heap_positive b bs : heap b bs -> Forall (fun x => 0 < x.1) bs.
Proof using Hw Hal Hg. intros (p & H & _). by eapply seg_positive. Qed.

(** The pointer of the block at offset [o]. *)
Lemma ptr_aligned b xs l u ys :
  heap b (xs ++ (l, u) :: ys) ->
  let r := hp + sum_len xs + S in r <> 0 /\ Z.land r (al - 1) = 0 /\ r - S = hp + sum_len xs /\ hp <= r < heap_end m0 \/ l = S.
Proof using Hw Hal Hg.
  intros Hh r. destruct (Z.eqb_spec l S) as [|Hne]; [by right|]. left.
  pose proof (focus_range _ _ _ _ _ Hh) as (R1 & R2 & R3 & R4 & R5 & R6). layout_facts.
  apply (heap_focus w al trace Hw Hal m0 Hg) in Hh as (p & K1 & _). pose proof (seg_aligned _ _ _ _ _ _ K1) as Ha.
  destruct Hg as [_ [Hg1 Hg2] _ He _ _ _]. unfold r. split_and!; try lia.
  rewrite (land_low al Hal). rewrite (Z.add_mod _ S), (Z.add_mod hp), Hg2, Ha, Hlsa by lia.
  rewrite !Z.mod_0_l by lia. done.
Qed.

Lemma freed_lfree b xs l ys :
  heap b (xs ++ (l, true) :: ys) ->
  let lf := hp + first_free 0 (xs ++ (l, true) :: ys) in
  (if hp + sum_len xs <? lf then hp + sum_len xs else lf) = hp + first_free 0 (xs ++ (l, false) :: ys).
Proof using Hw Hal Hg.
  intros Hh lf. pose proof (focus_range _ _ _ _ _ Hh) as (R1 & R2 & R3 & R4 & R5 & R6). layout_facts.
  pose proof (heap_positive _ _ Hh) as Hpos. apply (heap_focus w al trace Hw Hal m0 Hg) in Hh as (p & K1 & _).
  unfold lf. rewrite !first_free_app. cbn [first_free]. destruct (forallb snd xs) eqn:Eu.
  - apply Forall_app in Hpos as [_ Hpos]. apply Forall_cons in Hpos as [_ Hpos].
    pose proof (first_free_ge (0 + sum_len xs + l) ys Hpos). rewrite (proj2 (Z.ltb_lt _ _)) by lia. lia.
  - pose proof (first_free_inside _ _ _ K1 Eu). rewrite (proj2 (Z.ltb_ge _ _)) by lia. done.
Qed.

Lemma free_run us x b xs l ys :
  heap b (xs ++ (l, true) :: ys) -> S < l -> in_u w us -> l <= us ->
  exists b', rt_smem_free w al trace (hp + sum_len xs + S) (mk (hp + first_free 0 (xs ++ (l, true) :: ys)) us x b) =
    Ok (tt, mk (hp + first_free 0 (coalesce xs l ys)) (us - l) x b') /\
    heap b' (coalesce xs l ys) /\ kept (live 0 xs ++ live (sum_len xs + l) ys) b b' /\
    getf b' (sum_len xs) POOL_PTR = if last_free xs then 0 else tg false.
Proof using Hw Hal Hg.
  intros Hh Hl Hus Hle. layout_facts. pose proof (focus_range _ _ _ _ _ Hh) as (R1 & R2 & R3 & R4 & R5 & R6).
  destruct (focus_hdr _ _ _ _ _ Hh) as (F1 & F2 & F3).
  destruct (ptr_aligned _ _ _ _ _ Hh) as [(P1 & P2 & P3 & P4)|?]; [|lia].
  pose proof (freed_lfree _ _ _ _ Hh) as Hfl. cbv zeta in Hfl.
  pose proof (mark_heap w al trace Hw Hal m0 Hg b xs l true false ys spaces Hh) as H1.
  pose proof (mark_touched w al trace Hw Hal m0 Hg b (sum_len xs) false spaces) as T1.
  set (b1 := mark_bytes w trace m0 b (sum_len xs) false spaces) in *.
  assert (getf b1 (sum_len xs) (NEXT w) = sum_len xs + l) as F4 by (apply (focus_hdr _ _ _ _ _ H1)).
  unfold rt_smem_free. rewrite (proj2 (Z.eqb_neq _ 0)) by done. rewrite P2. erewrite bind_run; [|reflexivity]. cbv zeta. rewrite P3.
  step (pool_run w al trace Hw Hal m0 Hg). rewrite F1, (tg_pool w al trace Hw Hal m0 Hg).
  destruct (g_self _ _ _ _ Hg) as [Hsf _]. rewrite (proj2 (Z.eqb_neq (self m0) 0)) by lia. erewrite bind_run; [|reflexivity].
  step (isused_run w al trace Hw Hal m0 Hg). rewrite F1, (tg_used w al trace Hw Hal m0 Hg). erewrite bind_run; [|reflexivity].
  erewrite bind_run; [|reflexivity]. set (lf := hp + first_free 0 (xs ++ (l, true) :: ys)) in *.
  change (self (mk lf us x b)) with (self m0). rewrite Z.eqb_refl. erewrite bind_run; [|reflexivity].
  erewrite bind_run; [|apply check_object_run].
  change (heap_ptr (mk lf us x b)) with hp. change (heap_end (mk lf us x b)) with (heap_end m0).
  rewrite (proj2 (Z.leb_le hp _)), (proj2 (Z.ltb_lt _ (heap_end m0))) by lia. erewrite bind_run; [|reflexivity].
  step (ld_run w al trace Hw Hal m0 Hg). rewrite F2. step (pool_run w al trace Hw Hal m0 Hg).
  rewrite F3, (tg_pool w al trace Hw Hal m0 Hg), Z.eqb_refl. erewrite bind_run; [|reflexivity].
  change (MEM_FREED w (mk lf us x b)) with (tg false).
  step (st_run w al trace Hw Hal m0 Hg). step (setname_run w al trace Hw Hal m0 Hg).
  change (SmallMemFacts.setn w trace m0 (setf w m0 b (sum_len xs) POOL_PTR (tg false)) (sum_len xs) spaces) with b1.
  set (lf' := hp + first_free 0 (xs ++ (l, false) :: ys)) in *.
  erewrite (bind_run _ _ _ tt (mk lf' us x b1)).
  2:{ rewrite <- Hfl. change (lfree (mk lf us x b)) with lf. unfold when. by destruct (hp + sum_len xs <? lf). }
  step (ld_run w al trace Hw Hal m0 Hg). rewrite F4.
  erewrite (bind_run _ _ _ tt (mk lf' (us - l) x b1)).
  2:{ unfold modify.
      change (Ok (tt, mk lf' (wrap w (us - wrap w (sum_len xs + l - (hp + sum_len xs - hp)))) x b1) = Ok (tt, mk lf' (us - l) x b1)).
      replace (sum_len xs + l - (hp + sum_len xs - hp)) with l by lia.
      rewrite (wrap_small w l), wrap_small; [done|unfold in_u in *; lia..]. }
  destruct (plug_holes_run (us - l) x b1 xs l ys H1) as (b2 & E2 & H2 & K2 & Z2).
  pose proof (heap_positive _ _ Hh) as Hpos. apply Forall_app in Hpos as [Hpos _].
  destruct (coalesce_spec xs l ys) as (_ & _ & Cf & _); [lia|done|].
  exists b2. rewrite Cf. split; [exact E2|]. split; [done|]. split; [|done].
  eapply kept_trans; [|eapply kept_sub; [|exact K2]; rewrite live_free, Z.add_0_l; by intros ?].
  eapply (kept_focus [sum_len xs]); [exact Hh|exact T1|]. intros q ->%list_elem_of_singleton. lia.
Qed.
End Ops.

(** * The small memory allocator: initialisation, reallocation and the specification

    [smem_repr m bs] says the allocator's state [m] holds the block list [bs]: the
    headers are laid out, no two free blocks are neighbours, [lfree] is the lowest free
    block and the statistics are right.  Initialisation establishes it and the other
    operations preserve it. *)

Record smem_repr (w al : Z) (trace : bool) (m : rt_small_mem) (bs : list block) : Prop := {
  sr_geom : geom w al trace m;
  sr_heap : heap w al trace m (bytes m) bs;
  sr_free : no_adj bs;
  sr_sized : Forall (fun x => SIZEOF_STRUCT_MEM w al trace < x.2) (live 0 bs);
  sr_lfree : lfree m = heap_ptr m + first_free 0 bs;
  sr_used : m_used m = used_sum bs;
  sr_max : used_sum bs <= m_max m < 2 ^ w;
}.

Section Init.
Variables w al : Z.
Variable trace : bool.
Variable sizeof_small_mem : Z.
Context (Hw : w = 32 \/ w = 64) (Hal : al = 4 \/ al = 8).
Abbreviation S := (SIZEOF_STRUCT_MEM w al trace).

(** The least multiple of the alignment from [x] on. *)
Definition align_up (x : Z) : Z := (x + al - 1) / al * al.

Lemma align_up_spec x : x <= align_up x < x + al /\ align_up x mod al = 0.
Proof using Hal.
  unfold align_up. split; [destruct Hal as [-> | ->]; Z.to_euclidean_division_equations; lia|apply Z.mod_mul; lia].
Qed.

(** The state while [rt_smem_init] fills in the headers. *)
Definition fresh (begin_addr size hend lf : Z) (b : harray) : rt_small_mem :=
  let hp := align_up (align_up begin_addr + sizeof_small_mem) in
  let msz := (begin_addr + size) / al * al - hp - 2 * S in
  {| self := align_up begin_addr; obj_type := 0x8c; address := hp; total := msz; m_used := 0; m_max := 0;
     heap_ptr := hp; heap_end := hend; lfree := lf; mem_size_aligned := msz;
     pool_begin := begin_addr; pool_end := begin_addr + size; bytes := b |}.

Context (begin_addr size : Z) (Hbegin : 0 < begin_addr) (Hsize : 0 <= size) (Hsz : 0 <= sizeof_small_mem).
Context (Hend : begin_addr + size < 2 ^ w) (Hstart : align_up (align_up begin_addr + sizeof_small_mem) + al < 2 ^ w).

Abbreviation hp := (align_up (align_up begin_addr + sizeof_small_mem)).
Abbreviation msz := ((begin_addr + size) / al * al - hp - 2 * S).
Abbreviation fin := (fresh begin_addr size (hp + (msz + S)) hp).

(** There is room for the two headers after the object. *)
Definition room : Prop := align_up begin_addr + sizeof_small_mem + 2 * S <= (begin_addr + size) / al * al.
#[export] Instance room_dec : Decision room.
Proof using Type. unfold room. apply _. Defined.

Lemma fresh_geom b : room -> geom w al trace (fin b).
Proof using Hw Hal Hbegin Hsize Hsz Hend Hstart.
  unfold room. intros Hroom. destruct (layout w al trace Hw Hal) as [_ _ _ _ _ [Hls Hlsa] _].
  pose proof (align_up_spec begin_addr) as [A1 A2]. pose proof (align_up_spec (align_up begin_addr + sizeof_small_mem)) as [A3 A4].
  assert ((begin_addr + size) / al * al mod al = 0) as A5 by (apply Z.mod_mul; lia).
  assert ((begin_addr + size) / al * al <= begin_addr + size) as A6 by (destruct Hal as [-> | ->]; Z.to_euclidean_division_equations; lia).
  assert (hp <= (begin_addr + size) / al * al - 2 * S) as A7.
  { destruct Hal as [-> | ->]; Z.to_euclidean_division_equations; lia. }
  split; cbn [fresh obj_type heap_ptr mem_size_aligned heap_end pool_begin pool_end self]; try lia; try done.
  - split; [lia|]. destruct Hal as [-> | ->]; Z.to_euclidean_division_equations; lia.
  - split; [lia|]. destruct Hal as [-> | ->]; Z.to_euclidean_division_equations; lia.
Qed.
Abbreviation E := (msz + S).
Variable b0 : harray.
Abbreviation setf := (setf w (fin b0)).
Abbreviation setn := (setn w trace (fin b0)).
Abbreviation fr := (fresh begin_addr size).

Lemma fresh_room : room -> 0 <= msz /\ hp + E + S <= begin_addr + size.
Proof using All.
  intros Hr. pose proof (fresh_geom b0 Hr) as [_ _ [H1 _] _ _ [_ H2] _]. done.
Qed.

Lemma st_fresh hend lf b o k v :
  room -> is_field w k -> 0 <= o <= E -> st w (hp + o) k v (fr hend lf b) = Ok (tt, fr hend lf (setf b o k v)).
Proof using All.
  intros Hr Hk Ho. unfold st. change (in_pool (fr hend lf b) (hp + o + k) (word w))
    with (in_pool (mk (fin b0) 0 0 0 b) (heap_ptr (fin b0) + o + k) (word w)).
  by rewrite (pool_ok w al trace Hw Hal (fin b0) (fresh_geom b0 Hr)).
Qed.

Lemma ld_fresh hend lf b o k :
  room -> is_field w k -> 0 <= o <= E -> ld w (hp + o) k (fr hend lf b) = Ok (getf w (fin b0) b o k, fr hend lf b).
Proof using All.
  intros Hr Hk Ho. unfold ld. change (in_pool (fr hend lf b) (hp + o + k) (word w))
    with (in_pool (mk (fin b0) 0 0 0 b) (heap_ptr (fin b0) + o + k) (word w)).
  by rewrite (pool_ok w al trace Hw Hal (fin b0) (fresh_geom b0 Hr)).
Qed.

Lemma setname_fresh hend lf b o name :
  room -> 0 <= o <= E -> rt_smem_setname w trace (hp + o) name (fr hend lf b) = Ok (tt, fr hend lf (setn b o name)).
Proof using All.
  intros Hr Ho. pose proof (setname_run w al trace Hw Hal (fin b0) (fresh_geom b0 Hr) 0 0 0 b o name Ho) as H.
  unfold rt_smem_setname, SmallMemFacts.setn, when in *. destruct trace; [|done]. cbv beta in H |- *.
  match type of H with (if ?c then _ else _) = _ => destruct c eqn:Ei; [|discriminate H] end.
  match goal with |- (if ?c then _ else _) = _ => change c with true || (replace c with true by (symmetry; exact Ei)) end.
  done.
Qed.

Definition init_bytes : harray :=
  let tg := tag w (fin b0) in
  let b := setn (setf (setf (setf b0 0 POOL_PTR (tg false)) 0 (NEXT w) E) 0 (PREV w) 0) 0 name_INIT in
  setn (setf (setf (setf b E POOL_PTR (tg true)) E (NEXT w) E) E (PREV w) E) E name_INIT.

Lemma init_heap : room -> heap w al trace (fin b0) init_bytes [(E, false)].
Proof using All.
  intros Hr. pose proof (fresh_geom b0 Hr) as Hg. pose proof (fresh_room Hr) as [Hm Htop].
  pose proof (offset_range w al trace Hw Hal (fin b0) Hg) as Hrange.
  change (mem_size_aligned (fin b0)) with msz in Hrange.
  destruct (layout w al trace Hw Hal) as [[Hlw _] Hly1 Hly2 _ _ [Hls Hlsa] _].
  assert (POOL_PTR = 0) as Hlp by reflexivity.
  pose proof (tg_range w al trace Hw Hal (fin b0) Hg true). pose proof (tg_range w al trace Hw Hal (fin b0) Hg false).
  assert (in_u w E /\ in_u w 0) as [U1 U2] by (split; apply Hrange; lia).
  exists 0. cbn [seg]. rewrite Z.add_0_l. change (mem_size_aligned (fin b0)) with msz.
  split; [split; [lia|split; [|split; [|done]]]|].
  - destruct Hg as [_ _ [_ Hg3] _ _ _ _]. change (mem_size_aligned (fin b0)) with msz in Hg3.
    rewrite Z.add_mod, Hg3, Hlsa by lia. apply Z.mod_0_l. lia.
  - unfold hdr, init_bytes. split_and!;
      repeat first
        [ rewrite (getf_setf_same w al trace Hw Hal (fin b0) Hg) by done
        | rewrite (getf_setn_same w al trace Hw Hal (fin b0) Hg) by (first [done|unfold is_field; tauto])
        | rewrite (getf_setf_field w al trace Hw Hal (fin b0) Hg) by (first [unfold is_field; tauto | lia])
        | rewrite (getf_setf_sep w al trace Hw Hal (fin b0) Hg) by (first [unfold is_field; tauto | lia])
        | rewrite (getf_setn_sep w al trace Hw Hal (fin b0) Hg) by (first [unfold is_field; tauto | lia]) ]; done.
  - unfold init_bytes.
    repeat first
        [ rewrite (getf_setf_same w al trace Hw Hal (fin b0) Hg) by done
        | rewrite (getf_setn_same w al trace Hw Hal (fin b0) Hg) by (first [done|unfold is_field; tauto])
        | rewrite (getf_setf_field w al trace Hw Hal (fin b0) Hg) by (first [unfold is_field; tauto | lia]) ]; done.
Qed.

(** Initialisation succeeds exactly when there is room, and leaves one free block. *)
Lemma init_run :
  rt_smem_init w al trace sizeof_small_mem begin_addr size b0 =
  Ok (if decide (room) then Some (fin init_bytes) else None).
Proof using All.
  destruct (layout w al trace Hw Hal) as [_ _ _ _ _ [Hls Hlsa] _].
  pose proof (align_up_spec begin_addr) as [A1 A2]. pose proof (align_up_spec (align_up begin_addr + sizeof_small_mem)) as [A3 A4].
  assert (0 <= (begin_addr + size) / al * al <= begin_addr + size) as A6 by (destruct Hal as [-> | ->]; Z.to_euclidean_division_equations; lia).
  assert ((begin_addr + size) / al * al mod al = 0) as A5 by (apply Z.mod_mul; lia).
  assert (128 < 2 ^ w) as Hbig by (destruct Hw as [-> | ->]; reflexivity).
  unfold rt_smem_init. rewrite (RT_ALIGN_spec w al Hw Hal begin_addr) by lia.
  change ((begin_addr + al - 1) / al * al) with (align_up begin_addr).
  rewrite (wrap_small w (align_up begin_addr + _)) by (unfold in_u; lia).
  rewrite (RT_ALIGN_spec w al Hw Hal (_ + _)) by lia.
  change ((align_up begin_addr + sizeof_small_mem + al - 1) / al * al) with hp.
  rewrite (wrap_small w (begin_addr + size)) by (unfold in_u; lia). rewrite (RT_ALIGN_DOWN_spec w al Hw Hal) by (unfold in_u; lia).
  rewrite (wrap_small w (2 * S)) by (unfold in_u; lia).
  destruct (Z.ltb_spec (2 * S) ((begin_addr + size) / al * al)) as [Hlt|Hge]; cbn [andb].
  2:{ case_decide as Hr; [|done]. unfold room in Hr. lia. }
  rewrite (wrap_small w (_ - 2 * S)) by (unfold in_u; lia).
  case_decide as Hr; unfold room in Hr; [rewrite (proj2 (Z.leb_le _ _)) by lia|rewrite (proj2 (Z.leb_gt _ _)) by lia; done].
  pose proof (fresh_room Hr) as [Hm Htop]. rewrite (wrap_small w ((_ - _) - _)) by (unfold in_u; lia).
  cbv zeta. cbn [heap_ptr]. rewrite (wrap_small w E) by (unfold in_u; lia).
  set (m := Build_rt_small_mem _ _ _ _ _ _ _ _ _ _ _ _ _). change m with (fr 0 0 b0).
  assert (forall b, ld w hp (NEXT w) (fr 0 0 b) = Ok (getf w (fin b0) b 0 (NEXT w), fr 0 0 b)) as Hld.
  { intros b. pose proof (ld_fresh 0 0 b 0 (NEXT w) Hr) as H. rewrite Z.add_0_r in H. apply H; [unfold is_field; tauto|lia]. }
  assert (forall b k v, is_field w k -> st w hp k v (fr 0 0 b) = Ok (tt, fr 0 0 (setf b 0 k v))) as Hst.
  { intros b k v Hk. pose proof (st_fresh 0 0 b 0 k v Hr) as H. rewrite Z.add_0_r in H. apply H; [done|lia]. }
  assert (forall b nm, rt_smem_setname w trace hp nm (fr 0 0 b) = Ok (tt, fr 0 0 (setn b 0 nm))) as Hsn.
  { intros b nm. pose proof (setname_fresh 0 0 b 0 nm Hr) as H. rewrite Z.add_0_r in H. apply H. lia. }
  change (MEM_FREED w (fr 0 0 b0)) with (tag w (fin b0) false). change (MEM_USED w (fr 0 0 b0)) with (tag w (fin b0) true).
  assert (is_field w POOL_PTR /\ is_field w (NEXT w) /\ is_field w (PREV w)) as (K1 & K2 & K3) by (unfold is_field; tauto).
  erewrite bind_run; [|apply Hst, K1]. erewrite bind_run; [|apply Hst, K2]. erewrite bind_run; [|apply Hst, K3].
  erewrite bind_run; [|apply Hsn]. erewrite bind_run; [|apply Hld].
  set (b1 := setn _ 0 name_INIT).
  assert (getf w (fin b0) b1 0 (NEXT w) = E) as ->.
  { pose proof (fresh_geom b0 Hr) as Hg. unfold b1. destruct (layout w al trace Hw Hal) as [[Hlw _] Hly1 Hly2 _ _ _ _].
    rewrite (getf_setn_same w al trace Hw Hal (fin b0) Hg), (getf_setf_field w al trace Hw Hal (fin b0) Hg),
      (getf_setf_same w al trace Hw Hal (fin b0) Hg) by (done || lia || (unfold in_u; lia)). done. }
  erewrite (bind_run _ _ _ tt (fr (hp + E) 0 b1)); [|reflexivity].
  assert (0 <= E <= E) as HE by lia.
  erewrite bind_run; [|apply st_fresh; done]. erewrite bind_run; [|apply st_fresh; done].
  erewrite bind_run; [|apply st_fresh; done]. erewrite bind_run; [|apply setname_fresh; done]. reflexivity.
Qed.
End Init.
