(* ===== verification/SmallMemApi.v ===== *)
(** * The small memory allocator: what a caller may rely on

    The operations on a state that holds a block list ([smem_repr]): allocation is first
    fit, a freed block is merged with its free neighbours, reallocation keeps the data.
    The last part is the abstract specification: a caller sees pointers with the bytes
    behind them, and every sequence of calls on live pointers behaves as it says. *)
From S2P Require Import Prelude Outcome Bytes SmallMem SmallMemFacts SmallMemOps.
From S2P Require Import SmallMemOps.
#[local] Open Scope string_scope.
#[local] Open Scope list_scope.
#[local] Open Scope Z_scope.

Section Api.
Variables w al : Z.
Variable trace : bool.
Variable thread_self : option (list Z).
Context (Hw : w = 32 \/ w = 64) (Hal : al = 4 \/ al = 8).
Abbreviation S := (SIZEOF_STRUCT_MEM w al trace).
Abbreviation repr := (smem_repr w al trace).

Ltac layout_facts :=
  destruct (layout w al trace Hw Hal) as [[Hlw _] Hly1 Hly2 _ _ [Hls Hlsa] [Hlm1 [Hlm2 Hlm3]]];
  assert (POOL_PTR = 0) as Hlp by reflexivity.

(** The same heap in another state. *)
Definition same_place (m m' : rt_small_mem) : Prop := exists lf u x b, m' = mk m lf u x b.

Lemma mk_self m : m = mk m (lfree m) (m_used m) (m_max m) (bytes m).
Proof using Type. by destruct m. Qed.

Lemma repr_mk m lf u x b bs :
  geom w al trace m -> heap w al trace m b bs -> no_adj bs -> Forall (fun x => S < x.2) (live 0 bs) ->
  lf = heap_ptr m + first_free 0 bs -> u = used_sum bs -> u <= x < 2 ^ w -> repr (mk m lf u x b) bs.
Proof using Type.
  clear. intros [G1 G2 G3 G4 G5 G6 G7] Hh Hn Hs -> -> Hx. by split; [split|..].
Qed.

Lemma repr_state m bs :
  repr m bs -> m = mk m (heap_ptr m + first_free 0 bs) (used_sum bs) (m_max m) (bytes m).
Proof using Type. intros [? ? ? ? <- <- ?]. apply mk_self. Qed.

(** The pointer to the block at offset [o], and its bytes. *)
Definition user (m : rt_small_mem) (o : Z) : Z := heap_ptr m + o + S.
Definition data (m : rt_small_mem) (x : Z * Z) : list Z := ha_get_n (bytes m) (user m x.1) (Z.to_nat (x.2 - S)).

Lemma live_split o bs a l :
  (a, l) ∈ live o bs -> exists xs ys, bs = xs ++ (l, true) :: ys /\ a = o + sum_len xs.
Proof using Type.
  clear. revert o; induction bs as [|[l0 u] bs IH]; intros o; cbn [live]; [by intros ?%not_elem_of_nil|].
  intros [Hin|Hin]%elem_of_app.
  - destruct u; [|by apply not_elem_of_nil in Hin]. apply list_elem_of_singleton in Hin. injection Hin as -> ->.
    exists [], bs. split; [done|]. cbn. lia.
  - destruct (IH _ Hin) as (xs & ys & -> & ->). exists ((l0, u) :: xs), ys. split; [done|]. cbn. lia.
Qed.

Lemma used_le b m bs : geom w al trace m -> heap w al trace m b bs -> 0 <= used_sum bs <= sum_len bs.
Proof using Hw Hal.
  intros Hg Hh. pose proof (heap_positive w al trace Hw Hal m Hg _ _ Hh) as Hp. clear -Hp.
  induction bs as [|[l []] bs IH]; cbn [used_sum sum_len]; [lia|..]; apply Forall_cons in Hp as [H1 H2]; cbn in H1; specialize (IH H2); lia.
Qed.

Lemma live_take xs l ys s :
  live 0 (take_list w al trace xs l ys s) = live 0 xs ++ (sum_len xs, take_len w al trace l s) :: live (sum_len xs + l) ys.
Proof using Type.
  unfold take_list, take_len. destruct (Z.leb_spec (s + S + MIN_SIZE_ALIGNED w al) (l - S)); rewrite live_used, Z.add_0_l; [|done].
  cbn [live app]. do 3 f_equal. lia.
Qed.

Lemma used_take xs l ys s :
  used_sum (take_list w al trace xs l ys s) = used_sum (xs ++ (l, false) :: ys) + take_len w al trace l s.
Proof using Type.
  unfold take_list, take_len. destruct (Z.leb_spec (s + S + MIN_SIZE_ALIGNED w al) (l - S)); rewrite !used_sum_app; cbn [used_sum]; lia.
Qed.

Lemma no_adj_take xs l ys s : no_adj (xs ++ (l, false) :: ys) -> no_adj (take_list w al trace xs l ys s).
Proof using Type.
  intros [H1 H2]%no_adj_split. unfold take_list. case_match; apply no_adj_split.
  - split; [eapply (no_adj_snoc_len xs), no_adj_snoc_used, H1|]. cbn [no_adj]. split; [by left|].
    by apply (no_adj_cons_len ys l).
  - split; [eapply no_adj_snoc_used, H1|eapply no_adj_cons_used, H2].
Qed.

(** First fit: null when no free block is long enough, and otherwise the first one is taken. *)
Lemma alloc_spec m bs size :
  repr m bs -> 0 < size -> size + al <= 2 ^ w ->
  let s := aligned_size w al size in
  let small := Forall (fun x => x.2 = false -> x.1 < S + s) in
  (rt_smem_alloc w al trace thread_self size m = Ok (0, m) /\ small bs) \/
  exists xs l ys m', bs = xs ++ (l, false) :: ys /\ S + s <= l /\ small xs /\
    rt_smem_alloc w al trace thread_self size m = Ok (user m (sum_len xs), m') /\ same_place m m' /\
    repr m' (take_list w al trace xs l ys s) /\ kept w al trace m (live 0 bs) (bytes m) (bytes m').
Proof using Hw Hal.
  intros Hr H0 Hlt s small. layout_facts. pose proof (repr_state _ _ Hr) as Em. destruct Hr as [Hg Hh Hna Hsz Hlf Hus Hmax].
  destruct (aligned_size_spec w al trace Hw Hal m Hg size H0 Hlt) as (Hs1 & Hs2 & Hs3 & _). fold s in Hs1, Hs2, Hs3.
  pose proof (used_le _ _ _ Hg Hh) as Hul.
  pose proof (alloc_run w al trace thread_self Hw Hal m Hg (used_sum bs) (m_max m) (bytes m) bs size Hh Hna H0 Hlt
    ltac:(lia) ltac:(lia)) as Hrun. rewrite <- Em in Hrun. fold s in Hrun. cbv zeta in Hrun.
  destruct (Z.ltb_spec (mem_size_aligned m) s) as [Hbig|Hfit].
  { left. split; [exact Hrun|]. apply Forall_forall. intros [l u] (xs & ys & ->)%list_elem_of_split _. cbn [fst].
    pose proof (focus_range w al trace Hw Hal m Hg _ _ _ _ _ Hh). lia. }
  destruct (first_fit w al trace s bs) as [[[xs l] ys]|] eqn:Ef.
  2:{ left. split; [exact Hrun|]. eapply Forall_impl; [by eapply first_fit_none|done]. }
  right. apply first_fit_some in Ef as (-> & Hl & Ha). destruct Hrun as (b' & E1 & E2 & E3).
  pose proof (focus_range w al trace Hw Hal m Hg _ _ _ _ _ Hh) as (R1 & R2 & R3 & R4 & R5 & R6).
  assert (S < take_len w al trace l s <= l) as Htl.
  { unfold take_len. destruct (Z.leb_spec (s + S + MIN_SIZE_ALIGNED w al) (l - S)); lia. }
  exists xs, l, ys. eexists. split; [done|]. split; [done|]. split; [exact Ha|]. split; [exact E1|].
  split; [by eexists _, _, _, _|]. split.
  - apply repr_mk; try done.
    + by apply no_adj_take.
    + rewrite live_take. rewrite live_free, Z.add_0_l in Hsz. apply Forall_app in Hsz as [Hz1 Hz2].
      apply Forall_app. split; [done|]. apply Forall_cons. split; [cbn; lia|done].
    + by rewrite used_take.
    + pose proof (used_le _ _ _ Hg E2) as Hu2. rewrite used_take in Hu2.
      pose proof (rest_end w al trace Hw Hal m Hg _ _ _ _ E2) as [He2 _]. unfold max_of.
      case_match eqn:Em2; lia.
  - rewrite live_free, Z.add_0_l. eapply (kept_focus w al trace Hw Hal m Hg _ (bytes m)); [exact Hh|exact E3|].
    intros q Hq. rewrite !elem_of_cons, elem_of_nil in Hq. lia.
Qed.

Lemma sized_others xs l ys :
  Forall (fun x => S < x.2) (live 0 (xs ++ (l, true) :: ys)) -> Forall (fun x => S < x.2) (live 0 xs ++ live (sum_len xs + l) ys).
Proof using Type.
  rewrite live_used, Z.add_0_l. intros [H1 [_ H2]%Forall_cons]%Forall_app. by apply Forall_app.
Qed.

Lemma repr_user m xs l ys :
  repr m (xs ++ (l, true) :: ys) -> S < l /\ l <= used_sum (xs ++ (l, true) :: ys) < 2 ^ w.
Proof using Hw Hal.
  intros [Hg Hh _ Hsz _ _ Hmax]. rewrite live_used in Hsz. apply Forall_app in Hsz as [_ [Hl _]%Forall_cons]. cbn in Hl.
  pose proof (heap_positive w al trace Hw Hal m Hg _ _ Hh) as Hp. split; [done|].
  assert (forall bs : list block, Forall (fun x => 0 < x.1) bs -> 0 <= used_sum bs) as Hnn.
  { clear. induction bs as [|[l []] bs IH]; cbn [used_sum]; [lia|..]; intros [H1 H2]%Forall_cons; cbn in H1; specialize (IH H2); lia. }
  apply Forall_app in Hp as [Hp1 [_ Hp2]%Forall_cons]. pose proof (Hnn _ Hp1). pose proof (Hnn _ Hp2).
  rewrite used_sum_app in *. cbn [used_sum] in *. lia.
Qed.

(** Merging keeps the representation. *)
Lemma coalesce_repr m xs l ys x b :
  geom w al trace m -> heap w al trace m b (coalesce xs l ys) -> no_adj (xs ++ (l, true) :: ys) ->
  0 <= l -> Forall (fun x => 0 < x.1) xs -> Forall (fun x => S < x.2) (live 0 xs ++ live (sum_len xs + l) ys) ->
  used_sum (xs ++ (l, false) :: ys) <= x < 2 ^ w ->
  repr (mk m (heap_ptr m + first_free 0 (coalesce xs l ys)) (used_sum (xs ++ (l, false) :: ys)) x b) (coalesce xs l ys).
Proof using Type.
  intros Hg Hh Hn Hl Hp Hsz Hx. destruct (coalesce_spec xs l ys Hl Hp) as (C1 & C2 & C3 & C4).
  apply repr_mk; try done; [by apply C4|by rewrite C1, live_free].
Qed.

Lemma free_spec m xs l ys :
  repr m (xs ++ (l, true) :: ys) ->
  exists m', rt_smem_free w al trace (user m (sum_len xs)) m = Ok (tt, m') /\ same_place m m' /\
    repr m' (coalesce xs l ys) /\ kept w al trace m (live 0 xs ++ live (sum_len xs + l) ys) (bytes m) (bytes m') /\
    getf w m (bytes m') (sum_len xs) POOL_PTR = if last_free xs then 0 else tag w m false.
Proof using Hw Hal.
  intros Hr. pose proof (repr_state _ _ Hr) as Em. pose proof (repr_user _ _ _ _ Hr) as [Hl Hlu].
  layout_facts. destruct Hr as [Hg Hh Hna Hsz Hlf Hus Hmax].
  pose proof (heap_positive w al trace Hw Hal m Hg _ _ Hh) as Hp. apply Forall_app in Hp as [Hp _].
  assert (in_u w (used_sum (xs ++ (l, true) :: ys))) as Hin by (unfold in_u; lia).
  destruct (free_run w al trace Hw Hal m Hg _ (m_max m) (bytes m) xs l ys Hh Hl Hin ltac:(lia)) as (b' & E1 & E2 & E3 & E4).
  rewrite <- Em in E1.
  eexists. split; [exact E1|]. split; [by eexists _, _, _, _|]. split; [|done].
  replace (used_sum (xs ++ (l, true) :: ys) - l) with (used_sum (xs ++ (l, false) :: ys)) by (rewrite !used_sum_app; cbn [used_sum]; lia).
  apply coalesce_repr; try done; [lia| |rewrite used_sum_app in *; cbn [used_sum] in *; lia].
  by apply sized_others.
Qed.

(** Freeing a block whose header no longer says it is used. *)
Lemma free_dead m o :
  geom w al trace m -> 0 <= o <= mem_size_aligned m -> o mod al = 0 ->
  getf w m (bytes m) o POOL_PTR = 0 \/ getf w m (bytes m) o POOL_PTR = tag w m false ->
  exists why, rt_smem_free w al trace (user m o) m = Abort why.
Proof using Hw Hal.
  intros Hg Ho Hoa Hv. layout_facts. pose proof (mk_self m) as Em.
  assert (user m o - S = heap_ptr m + o) as Hsub by (unfold user; lia).
  assert (Z.land (user m o) (al - 1) = 0) as Hland.
  { destruct Hg as [_ [_ Hg2] _ _ _ _ _]. unfold user. rewrite (land_low al Hal).
    rewrite (Z.add_mod _ S), (Z.add_mod (heap_ptr m)), Hg2, Hoa, Hlsa by lia. rewrite !Z.mod_0_l by lia. done. }
  assert (forall r, MEM_POOL w (heap_ptr m + o) m = Ok (r, m) <-> pool_of w (getf w m (bytes m) o POOL_PTR) = r) as Hp.
  { intros r. rewrite Em at 2 4. rewrite (pool_run w al trace Hw Hal m Hg) by lia. split; [congruence|]. intros <-. congruence. }
  assert (MEM_ISUSED w (heap_ptr m + o) m = Ok (is_used w (getf w m (bytes m) o POOL_PTR), m)) as Hu.
  { rewrite Em at 2 4. rewrite (isused_run w al trace Hw Hal m Hg) by lia. congruence. }
  unfold rt_smem_free. rewrite (proj2 (Z.eqb_neq _ 0)) by (unfold user; destruct Hg; lia). rewrite Hland, Hsub.
  erewrite bind_run; [|reflexivity]. cbv zeta. erewrite bind_run; [|by apply Hp]. destruct Hv as [Hv|Hv]; rewrite Hv in *.
  - eexists. reflexivity.
  - rewrite (tg_pool w al trace Hw Hal m Hg). destruct (g_self _ _ _ _ Hg) as [Hsf _].
    rewrite (proj2 (Z.eqb_neq (self m) 0)) by lia. erewrite bind_run; [|reflexivity].
    erewrite bind_run; [|exact Hu]. rewrite (tg_used w al trace Hw Hal m Hg). eexists. reflexivity.
Qed.

(** A second [free] of the same pointer is caught. *)
Lemma double_free m xs l ys m' :
  repr m (xs ++ (l, true) :: ys) -> rt_smem_free w al trace (user m (sum_len xs)) m = Ok (tt, m') ->
  exists why, rt_smem_free w al trace (user m (sum_len xs)) m' = Abort why.
Proof using Hw Hal.
  intros Hr E1. destruct (free_spec _ _ _ _ Hr) as (m2 & E2 & (lf & u & x & b & Hm2) & Hr2 & _ & Hz).
  assert (m' = m2) as -> by congruence. layout_facts. pose proof (repr_user _ _ _ _ Hr) as [Hl _].
  destruct Hr as [Hg Hh _ _ _ _ _]. pose proof (focus_range w al trace Hw Hal m Hg _ _ _ _ _ Hh) as (R1 & R2 & R3 & R4 & R5 & R6).
  apply (heap_focus w al trace Hw Hal m Hg) in Hh as (p & K1 & _). pose proof (seg_aligned w al trace Hw Hal m Hg _ _ _ _ _ _ K1) as Ha.
  assert (user m (sum_len xs) = user m2 (sum_len xs)) as -> by (by rewrite Hm2).
  apply free_dead; [apply Hr2|rewrite Hm2; change (mem_size_aligned (mk m lf u x b)) with (mem_size_aligned m); lia|done|]. rewrite Hm2 in Hz |- *. cbn [bytes mk] in Hz.
  change (getf w (mk m lf u x b)) with (getf w m). change (tag w (mk m lf u x b)) with (tag w m).
  change (bytes (mk m lf u x b)) with b in *. case_match; auto.
Qed.

(** ** User data *)

(** The listed blocks hold the same bytes in both states. *)
Definition same_data (L : list (Z * Z)) (m m' : rt_small_mem) : Prop := forall x, x ∈ L -> data m' x = data m x.

Lemma kept_data L m m' : same_place m m' -> kept w al trace m L (bytes m) (bytes m') -> same_data L m m'.
Proof using Type. intros (lf & u & x & b & ->) Hk [o l] Hin. by apply (Hk o l). Qed.

Lemma same_data_trans L m1 m2 m3 : same_data L m1 m2 -> same_data L m2 m3 -> same_data L m1 m3.
Proof using Type. intros H1 H2 x Hx. by rewrite H2, H1. Qed.
Lemma same_data_sub L L' m m' : L ⊆ L' -> same_data L' m m' -> same_data L m m'.
Proof using Type. intros Hs H x Hx. by apply H, Hs. Qed.

Lemma same_place_trans m1 m2 m3 : same_place m1 m2 -> same_place m2 m3 -> same_place m1 m3.
Proof using Type. intros (? & ? & ? & ? & ->) (lf & u & mx & b & ->). by exists lf, u, mx, b. Qed.
Lemma same_place_user m m' o : same_place m m' -> user m' o = user m o.
Proof using Type. by intros (? & ? & ? & ? & ->). Qed.

(** Writing [vs] at byte [i] of a used block. *)
Definition poke (m : rt_small_mem) (o i : Z) (vs : list Z) : rt_small_mem :=
  mk m (lfree m) (m_used m) (m_max m) (ha_put (bytes m) (user m o + i) vs).

Lemma poke_place m o i vs : same_place m (poke m o i vs).
Proof using Type. by eexists _, _, _, _. Qed.

Lemma poke_repr m xs l ys i vs :
  repr m (xs ++ (l, true) :: ys) -> 0 <= i -> i + Z.of_nat (length vs) <= l - S ->
  repr (poke m (sum_len xs) i vs) (xs ++ (l, true) :: ys).
Proof using Hw Hal.
  intros Hr Hi Hv. layout_facts. destruct Hr as [Hg Hh Hna Hsz Hlf Hus Hmax].
  pose proof (focus_range w al trace Hw Hal m Hg _ _ _ _ _ Hh) as (R1 & R2 & R3 & R4 & R5 & R6).
  apply repr_mk; try done; [|lia].
  apply (heap_focus w al trace Hw Hal m Hg) in Hh as (p & K1 & K2 & K3 & K4 & K5).
  set (b' := ha_put _ _ _).
  assert (forall q, q <= sum_len xs \/ sum_len xs + l <= q -> same_at w m (bytes m) b' q) as Hsame.
  { intros q Hq k Hk. pose proof (field_fits w al trace Hw Hal m Hg k Hk). unfold b', getf, user. apply ha_read_put_other; lia. }
  pose proof (rest_end w al trace Hw Hal m Hg _ _ _ _ K5) as [He _].
  apply (heap_focus w al trace Hw Hal m Hg). exists p.
  split; [apply (seg_same w al trace Hw Hal m Hg (bytes m)); [intros; apply Hsame; lia|done]|]. split; [done|]. split; [done|].
  split; [apply (hdr_same w al trace Hw Hal m Hg (bytes m)); [apply Hsame; lia|done]|].
  apply (rest_same w al trace Hw Hal m Hg (bytes m)); [intros q Hq; apply Hsame; lia|done].
Qed.

Lemma poke_data m xs l ys i vs :
  repr m (xs ++ (l, true) :: ys) -> 0 <= i -> i + Z.of_nat (length vs) <= l - S ->
  same_data (live 0 xs ++ live (sum_len xs + l) ys) m (poke m (sum_len xs) i vs).
Proof using Hw Hal.
  intros [Hg Hh Hna Hsz Hlf Hus Hmax] Hi Hv [a la] Hin. layout_facts.
  pose proof (live_focus_range w al trace Hw Hal m Hg _ _ _ _ _ _ _ Hh Hin) as Hd. cbn [fst snd] in Hd.
  unfold data, poke. cbn [fst snd]. change (user (mk m ?a ?b ?c ?d)) with (user m).
  match goal with |- ha_get_n (bytes ?x) _ _ = _ => change (bytes x) with (ha_put (bytes m) (user m (sum_len xs) + i) vs) end.
  apply ha_get_n_put_other. unfold user.
  pose proof (proj1 (Forall_forall _ _) (sized_others _ _ _ Hsz) _ Hin) as Hla. cbn in Hla. lia.
Qed.

(** ** rt_smem_realloc *)

(** The request as [rt_smem_realloc] rounds it. *)
Definition round_up (n : Z) : Z := (n + al - 1) / al * al.

Lemma round_up_spec n : 0 <= n -> n <= round_up n < n + al /\ round_up n mod al = 0 /\ (round_up n = 0 <-> n = 0).
Proof using Hal.
  intros Hn. unfold round_up. split; [|split; [apply Z.mod_mul; lia|]]; destruct Hal as [-> | ->]; Z.to_euclidean_division_equations; lia.
Qed.

Lemma check_self m : geom w al trace m -> check_object m = Ok (tt, m).
Proof using Hw Hal.
  intros Hg. pose proof (check_object_run w al trace Hw Hal m Hg (lfree m) (m_used m) (m_max m) (bytes m)) as H.
  by rewrite <- mk_self in H.
Qed.
Lemma ld_self m o k :
  geom w al trace m -> is_field w k -> 0 <= o <= mem_size_aligned m + S ->
  ld w (heap_ptr m + o) k m = Ok (getf w m (bytes m) o k, m).
Proof using Hw Hal.
  intros Hg Hk Ho. pose proof (ld_run w al trace Hw Hal m Hg (lfree m) (m_used m) (m_max m) (bytes m) o k Hk Ho) as H.
  by rewrite <- mk_self in H.
Qed.

Lemma realloc_eq m xs l ys newsize :
  repr m (xs ++ (l, true) :: ys) -> 0 <= newsize -> newsize + al <= 2 ^ w ->
  let n := round_up newsize in let o := sum_len xs in
  rt_smem_realloc w al trace thread_self (user m o) newsize m =
  if mem_size_aligned m <? n then Ok (0, m)
  else if n =? 0 then (rt_smem_free w al trace (user m o) ;; mret 0) m
  else if l - S =? n then Ok (user m o, m)
  else if n + S + MIN_SIZE w <? l - S then (shrink_item w al trace (heap_ptr m + o) o (l - S) n ;; mret (user m o)) m
  else move_item w al trace thread_self (user m o) (l - S) n m.
Proof using Hw Hal.
  intros Hr Hn Hlt n o. layout_facts. pose proof (repr_user _ _ _ _ Hr) as [Hl _]. destruct Hr as [Hg Hh _ _ _ _ _].
  pose proof (focus_range w al trace Hw Hal m Hg _ _ _ _ _ Hh) as (R1 & R2 & R3 & R4 & R5 & R6).
  destruct (focus_hdr w al trace Hw Hal m Hg _ _ _ _ _ Hh) as (F1 & F2 & F3).
  destruct (ptr_aligned w al trace Hw Hal m Hg _ _ _ _ _ Hh) as [(P1 & P2 & P3 & P4)|?]; [|lia].
  pose proof (round_up_spec newsize Hn) as (N1 & N2 & N3). fold n in N1, N2, N3. fold o in F1, F2, F3, P1, P2, P3, P4, R1, R4.
  unfold rt_smem_realloc. erewrite bind_run; [|by apply check_self].
  erewrite bind_run; [|reflexivity]. cbv zeta. rewrite (RT_ALIGN_spec w al Hw Hal newsize) by lia.
  change ((newsize + al - 1) / al * al) with n.
  destruct (Z.ltb_spec (mem_size_aligned m) n); [done|]. destruct (Z.eqb_spec n 0); [done|].
  unfold user. rewrite (proj2 (Z.eqb_neq _ 0)) by done. rewrite P2. erewrite bind_run; [|reflexivity].
  rewrite (proj2 (Z.leb_le (heap_ptr m) _)) by lia. erewrite bind_run; [|reflexivity].
  rewrite (proj2 (Z.ltb_lt _ (heap_end m))) by lia. erewrite bind_run; [|reflexivity]. rewrite P3.
  erewrite bind_run; [|apply ld_self; [done|unfold is_field; tauto|lia]].
  rewrite F2. replace (heap_ptr m + o - heap_ptr m) with o by lia.
  rewrite (wrap_small w o) by (unfold in_u; lia). rewrite (wrap_small w (_ - S)) by (unfold in_u; lia).
  replace (o + l - o - S) with (l - S) by lia. rewrite (wrap_small w (n + S + _)).
  { destruct (l - S =? n); [done|]. by destruct (n + S + MIN_SIZE w <? l - S). }
  destruct Hg as [_ [? _] [? _] ? ? _ _]. unfold in_u. lia.
Qed.

Lemma shrink_spec m xs l ys n :
  repr m (xs ++ (l, true) :: ys) -> 0 < n -> n mod al = 0 -> n + S + MIN_SIZE w < l - S ->
  let o := sum_len xs in
  exists m', shrink_item w al trace (heap_ptr m + o) o (l - S) n m = Ok (tt, m') /\ same_place m m' /\
    repr m' (coalesce (xs ++ [(S + n, true)]) (l - S - n) ys) /\
    same_data (live 0 xs ++ live (o + l) ys) m m' /\ data m' (o, S + n) = take (Z.to_nat n) (data m (o, l)).
Proof using Hw Hal.
  intros Hr Hn Hna Hfit o. layout_facts. pose proof (repr_state _ _ Hr) as Em. pose proof (repr_user _ _ _ _ Hr) as [Hl Hlu].
  destruct Hr as [Hg Hh Hadj Hsz Hlf Hus Hmax].
  pose proof (focus_range w al trace Hw Hal m Hg _ _ _ _ _ Hh) as (R1 & R2 & R3 & R4 & R5 & R6).
  pose proof (heap_positive w al trace Hw Hal m Hg _ _ Hh) as [Hp _]%Forall_app.
  set (bs := xs ++ (l, true) :: ys) in *. set (xs' := xs ++ [(S + n, true)]). set (l' := l - S - n).
  assert (sum_len xs' = o + S + n) as Hx' by (unfold xs'; rewrite sum_len_app; cbn [sum_len]; fold o; lia).
  pose proof (split_heap w al trace Hw Hal m Hg (bytes m) xs l true ys n Hh ltac:(lia) Hna ltac:(lia)) as H1.
  pose proof (split_touched w al trace Hw Hal m Hg (bytes m) o (o + S + n) (o + l)) as T1. fold o in H1.
  set (b1 := split_bytes _ _ _ _ _ _ _ _) in *. set (u1 := used_sum bs - l').
  assert (heap w al trace m b1 (xs' ++ (l', false) :: ys)) as H2 by (unfold xs'; by rewrite <- app_assoc).
  destruct (plug_holes_run w al trace Hw Hal m Hg u1 (m_max m) b1 xs' l' ys H2) as (b2 & E2 & H3 & K2 & _).
  pose proof (freed_lfree w al trace Hw Hal m Hg _ xs' l' ys (mark_heap w al trace Hw Hal m Hg b1 xs' l' false true ys spaces H2)) as Hfl.
  cbv zeta in Hfl. rewrite Hx' in E2, Hfl.
  assert (first_free 0 (xs' ++ (l', true) :: ys) = first_free 0 bs) as Hff.
  { unfold xs', bs. rewrite <- app_assoc. cbn [app]. rewrite !first_free_app. cbn [first_free]. destruct (forallb snd xs); [|done].
    f_equal. unfold l'. lia. }
  rewrite Hff in Hfl. set (lf2 := heap_ptr m + first_free 0 (xs' ++ (l', false) :: ys)) in *.
  assert (used_sum (xs' ++ (l', false) :: ys) = u1) as Hu1.
  { unfold xs', u1, bs, l'. rewrite <- app_assoc, !used_sum_app. cbn [app used_sum]. lia. }
  exists (mk m lf2 u1 (m_max m) b2). split; [|split; [by eexists _, _, _, _|split]].
  - enough (shrink_item w al trace (heap_ptr m + o) o (l - S) n (mk m (heap_ptr m + first_free 0 bs) (used_sum bs) (m_max m) (bytes m)) =
      Ok (tt, mk m lf2 u1 (m_max m) b2)) as He by (by rewrite <- Em in He).
    unfold shrink_item. erewrite bind_run; [|reflexivity].
    erewrite (bind_run _ _ _ tt (mk m (heap_ptr m + first_free 0 bs) u1 (m_max m) (bytes m))).
    2:{ unfold modify. match goal with |- Ok (tt, ?a) = _ => change a with
          (mk m (heap_ptr m + first_free 0 bs) (wrap w (used_sum bs - wrap w (l - S - n))) (m_max m) (bytes m)) end.
        rewrite (wrap_small w (l - S - n)), wrap_small by (unfold in_u; lia). done. }
    erewrite bind_run; [|apply (split_item_run w al trace Hw Hal m Hg _ _ _ _ xs l true ys n Hh); [lia|done|lia]].
    fold o b1. rewrite wrap_small by (unfold in_u; lia). match goal with |- context [heap_ptr (mk m ?a ?b ?c ?d)] => change (heap_ptr (mk m a b c d)) with (heap_ptr m); change (lfree (mk m a b c d)) with a end.
    erewrite (bind_run _ _ _ tt (mk m lf2 u1 (m_max m) b1)); [exact E2|].
    rewrite <- Hfl. replace (heap_ptr m + (o + S + n)) with (heap_ptr m + o + S + n) by lia. unfold when. by destruct (heap_ptr m + o + S + n <? _).
  - destruct (coalesce_spec xs' l' ys) as (_ & _ & C3 & _); [lia|apply Forall_app; split; [done|by constructor; [cbn; lia|]]|].
    unfold lf2. rewrite <- C3, <- Hu1. apply coalesce_repr; try done.
    + unfold xs'. rewrite <- app_assoc. cbn [app]. apply no_adj_split in Hadj as [A1 A2]. apply no_adj_split.
      split; [by apply (no_adj_snoc_len xs l)|]. cbn [no_adj]. split; [by left|]. by apply (no_adj_cons_len ys l).
    + lia.
    + apply Forall_app. split; [done|]. by constructor; [cbn; lia|].
    + rewrite Hx'. unfold xs'. rewrite live_app. cbn [live app]. apply sized_others, Forall_app in Hsz as [Z1 Z2].
      apply Forall_app. split; [apply Forall_app; split; [done|by constructor; [cbn; lia|]]|].
      by replace (o + S + n + l') with (o + l) by (unfold l'; lia).
    + lia.
  - assert (kept w al trace m (live 0 xs ++ live (o + l) ys) (bytes m) b1) as K1.
    { apply (kept_focus w al trace Hw Hal m Hg _ _ _ _ _ _ _ _ Hh T1). intros q Hq. rewrite !elem_of_cons, elem_of_nil in Hq. fold o. lia. }
    assert (live 0 (xs' ++ (l', false) :: ys) = live 0 xs ++ (o, S + n) :: live (o + l) ys) as Hlv.
    { unfold xs'. rewrite <- app_assoc. cbn [app]. rewrite live_used. cbn [live app]. do 3 f_equal; unfold l', o; lia. }
    rewrite Hlv in K2. split.
    + apply kept_data; [by eexists _, _, _, _|]. eapply kept_trans; [exact K1|]. eapply kept_sub; [|exact K2]. clear. set_solver.
    + specialize (K2 o (S + n) ltac:(clear; set_solver)). unfold data. cbn [fst snd].
      change (bytes (mk m lf2 u1 (m_max m) b2)) with b2. change (user (mk m lf2 u1 (m_max m) b2) o) with (heap_ptr m + o + S). rewrite K2.
      rewrite (touched_block w al trace Hw Hal m Hg _ _ _ o (S + n) T1) by (intros q; rewrite !elem_of_cons, elem_of_nil; lia).
      replace (Z.to_nat (l - S)) with (Z.to_nat (S + n - S) + Z.to_nat l')%nat by lia. rewrite ha_get_n_app.
      replace (Z.to_nat n) with (length (ha_get_n (bytes m) (user m o) (Z.to_nat (S + n - S)))) by (rewrite length_ha_get_n; lia).
      by rewrite take_app_length.
Qed.

(** ** In terms of the used blocks *)

Lemma others_perm xs l ys :
  live 0 (xs ++ (l, true) :: ys) ≡ₚ (sum_len xs, l) :: live 0 xs ++ live (sum_len xs + l) ys.
Proof using Type. rewrite live_used, Z.add_0_l. by rewrite Permutation_middle. Qed.

Lemma alloc_live m bs size :
  repr m bs -> 0 < size -> size + al <= 2 ^ w ->
  let s := aligned_size w al size in
  (rt_smem_alloc w al trace thread_self size m = Ok (0, m) /\ Forall (fun x => x.2 = false -> x.1 < S + s) bs) \/
  exists o l m' bs', rt_smem_alloc w al trace thread_self size m = Ok (user m o, m') /\ same_place m m' /\
    repr m' bs' /\ live 0 bs' ≡ₚ (o, l) :: live 0 bs /\ same_data (live 0 bs) m m' /\ S + s <= l.
Proof using Hw Hal.
  intros Hr H0 Hlt s. destruct (alloc_spec m bs size Hr H0 Hlt) as [H|(xs & l & ys & m' & -> & Hl & _ & E & Hp & Hr' & Hk)]; [by left|].
  fold s in Hl, Hr'. right. eexists (sum_len xs), _, m', _. split; [exact E|]. split; [done|]. split; [exact Hr'|].
  rewrite live_take, live_free, Z.add_0_l, <- Permutation_middle. split; [done|]. split.
  - apply kept_data; [done|]. by rewrite live_free, Z.add_0_l in Hk.
  - unfold take_len. case_match; lia.
Qed.

Lemma free_live m bs o l :
  repr m bs -> (o, l) ∈ live 0 bs ->
  exists m' bs' L, live 0 bs ≡ₚ (o, l) :: L /\ rt_smem_free w al trace (user m o) m = Ok (tt, m') /\ same_place m m' /\
    repr m' bs' /\ live 0 bs' = L /\ same_data L m m'.
Proof using Hw Hal.
  intros Hr (xs & ys & -> & ->)%live_split. rewrite Z.add_0_l. destruct (free_spec _ _ _ _ Hr) as (m' & E & Hp & Hr' & Hk & _).
  exists m', (coalesce xs l ys), (live 0 xs ++ live (sum_len xs + l) ys).
  split; [apply others_perm|]. split; [done|]. split; [done|]. split; [done|]. split; [|by apply kept_data].
  pose proof (repr_user _ _ _ _ Hr) as [Hl _]. destruct Hr as [Hg Hh _ _ _ _ _].
  pose proof (heap_positive w al trace Hw Hal m Hg _ _ Hh) as [Hp1 _]%Forall_app. layout_facts.
  destruct (coalesce_spec xs l ys) as (-> & _); [lia|done|]. by rewrite live_free, Z.add_0_l.
Qed.

Lemma poke_live m bs o l i vs :
  repr m bs -> (o, l) ∈ live 0 bs -> 0 <= i -> i + Z.of_nat (length vs) <= l - S ->
  repr (poke m o i vs) bs /\ forall L, live 0 bs ≡ₚ (o, l) :: L -> same_data L m (poke m o i vs).
Proof using Hw Hal.
  intros Hr (xs & ys & -> & ->)%live_split Hi Hv. rewrite Z.add_0_l. split; [by apply poke_repr|]. intros L HL.
  rewrite others_perm in HL. apply Permutation_cons_inv in HL. eapply same_data_sub; [|by apply poke_data].
  intros x Hx. by rewrite HL.
Qed.

Lemma live_sized m bs o l : repr m bs -> (o, l) ∈ live 0 bs -> S < l.
Proof using Type. intros Hr Hin. apply (proj1 (Forall_forall _ _) (sr_sized _ _ _ _ _ Hr) _ Hin). Qed.

Lemma live_inside m bs o l :
  repr m bs -> (o, l) ∈ live 0 bs -> 0 <= o /\ o + l <= mem_size_aligned m + S.
Proof using Hw Hal.
  intros Hr (xs & ys & -> & ->)%live_split. destruct Hr as [Hg Hh _ _ _ _ _].
  pose proof (focus_range w al trace Hw Hal m Hg _ _ _ _ _ Hh). lia.
Qed.

Lemma live_disjoint m bs o l o' l' L :
  repr m bs -> live 0 bs ≡ₚ (o, l) :: L -> (o', l') ∈ L -> o + l <= o' \/ o' + l' <= o.
Proof using Hw Hal.
  intros Hr HL Hin. assert ((o, l) ∈ live 0 bs) as (xs & ys & -> & ->)%live_split by (rewrite HL; apply elem_of_cons; by left).
  rewrite Z.add_0_l in *. rewrite others_perm in HL. apply Permutation_cons_inv in HL. rewrite <- HL in Hin.
  destruct Hr as [Hg Hh _ _ _ _ _]. pose proof (live_focus_range w al trace Hw Hal m Hg _ _ _ _ _ _ _ Hh Hin). lia.
Qed.

(** The outcome of a reallocation: freed, refused, or a block (here or elsewhere) with the
    data of the old one as far as it fits. *)
Definition realloc_result (m : rt_small_mem) (o l newsize : Z) (L : list (Z * Z)) (r : Z) (m' : rt_small_mem) : Prop :=
  (newsize = 0 /\ r = 0 /\ exists bs', repr m' bs' /\ live 0 bs' ≡ₚ L /\ same_data L m m') \/
  (0 < newsize /\ r = 0 /\ m' = m) \/
  (exists o' l' bs', 0 < newsize /\ r = user m o' /\ repr m' bs' /\ live 0 bs' ≡ₚ (o', l') :: L /\ same_data L m m' /\ newsize <= l' - S /\
    let k := Z.to_nat (Z.min newsize (l - S)) in take k (data m' (o', l')) = take k (data m (o, l))).

Lemma copy_self m bs o l o' l' n :
  repr m bs -> (o, l) ∈ live 0 bs -> (o', l') ∈ live 0 bs -> 0 <= n -> n <= l - S -> n <= l' - S ->
  copy_block (user m o') (user m o) n m = Ok (tt, poke m o' 0 (ha_get_n (bytes m) (user m o) (Z.to_nat n))).
Proof using Hw Hal.
  intros Hr H1 H2 Hn Hl Hl'. pose proof (live_inside _ _ _ _ Hr H1). pose proof (live_inside _ _ _ _ Hr H2).
  layout_facts. destruct Hr as [[_ _ _ He _ [Hp1 Hp2] _] _ _ _ _ _ _].
  unfold copy_block, in_pool, user. rewrite !(proj2 (Z.leb_le _ _)) by lia. cbn [andb]. unfold poke, user.
  rewrite Z.add_0_r. by destruct m.
Qed.

Lemma same_data_one m m' x L : same_data (x :: L) m m' -> data m' x = data m x.
Proof using Type. intros H. apply H, elem_of_cons. by left. Qed.

Lemma move_spec m bs o l n L :
  repr m bs -> live 0 bs ≡ₚ (o, l) :: L -> bytes_ok (data m (o, l)) -> 0 < n -> n + al <= 2 ^ w ->
  exists r m', move_item w al trace thread_self (user m o) (l - S) n m = Ok (r, m') /\ same_place m m' /\
    realloc_result m o l n L r m'.
Proof using Hw Hal.
  intros Hr HL Hb Hn Hlt. layout_facts. assert ((o, l) ∈ live 0 bs) as Hin by (rewrite HL; apply elem_of_cons; by left).
  pose proof (live_sized _ _ _ _ Hr Hin) as Hl. destruct (aligned_size_spec w al trace Hw Hal m (sr_geom _ _ _ _ _ Hr) n Hn Hlt) as (_ & Hs2 & _).
  unfold move_item. destruct (alloc_live m bs n Hr Hn Hlt) as [[E1 _]|(o1 & l1 & m1 & bs1 & E1 & Hp1 & Hr1 & HL1 & Hd1 & Hl1)].
  { exists 0, m. erewrite bind_run; [|exact E1]. split; [done|]. split; [by rewrite (mk_self m) at 2; eexists _, _, _, _|]. right; by left. }
  assert (user m o1 = user m1 o1 /\ user m o = user m1 o) as [Hu1 Hu] by (by rewrite !(same_place_user m m1)).
  assert ((o, l) ∈ live 0 bs1 /\ (o1, l1) ∈ live 0 bs1) as [Hin1 Hin2].
  { rewrite HL1, !elem_of_cons. split; [by right|by left]. }
  set (k := Z.min n (l - S)). assert ((if l - S <? n then l - S else n) = k) as Hk by (case_match eqn:Ek; lia).
  pose proof (copy_self m1 bs1 o l o1 l1 k Hr1 Hin1 Hin2 ltac:(lia) ltac:(lia) ltac:(lia)) as E2.
  set (vs := ha_get_n (bytes m1) (user m1 o) (Z.to_nat k)) in *. set (m2 := poke m1 o1 0 vs) in *.
  assert (vs = take (Z.to_nat k) (data m (o, l))) as Hvs.
  { rewrite <- (Hd1 (o, l) Hin). unfold vs, data. cbn [fst snd].
    replace (Z.to_nat (l - S)) with (Z.to_nat k + Z.to_nat (l - S - k))%nat by lia. rewrite ha_get_n_app.
    rewrite take_app_le by (rewrite length_ha_get_n; lia). by rewrite take_ge by (rewrite length_ha_get_n; lia). }
  assert (length vs = Z.to_nat k) as Hlen by apply length_ha_get_n.
  destruct (poke_live m1 bs1 o1 l1 0 vs Hr1 Hin2) as [Hr2 Hd2]; [lia|lia|]. fold m2 in Hr2, Hd2. specialize (Hd2 _ HL1).
  destruct (free_live m2 bs1 o l Hr2 Hin1) as (m3 & bs3 & L3 & HL3 & E3 & Hp3 & Hr3 & HL4 & Hd3).
  assert (L3 ≡ₚ (o1, l1) :: L) as HLL.
  { rewrite HL1, HL, Permutation_swap in HL3. by apply Permutation_cons_inv in HL3. }
  assert (same_place m1 m2) as Hp2 by apply poke_place. pose proof (same_place_user m1 m2 o Hp2) as Hu2.
  exists (user m o1), m3. split; [|split; [by eapply same_place_trans, same_place_trans|]].
  - erewrite bind_run; [|exact E1]. rewrite Hu1. pose proof (live_inside _ _ _ _ Hr1 Hin2) as [Ho1 _].
    rewrite (proj2 (Z.eqb_neq _ 0)) by (unfold user; destruct (sr_geom _ _ _ _ _ Hr1); lia). cbn [negb when].
    erewrite bind_run; [reflexivity|]. rewrite Hk, Hu. erewrite bind_run; [|exact E2]. rewrite <- Hu2. exact E3.
  - right. right. exists o1, l1, bs3. split; [done|]. split; [done|]. split; [done|]. split; [by rewrite HL4|].
    split; [|split; [lia|]].
    + eapply same_data_trans; [eapply (same_data_sub _ (live 0 bs)); [|exact Hd1]; intros x Hx; rewrite HL; apply elem_of_cons; by right|].
      eapply same_data_trans; [eapply (same_data_sub _ (live 0 bs)); [|exact Hd2]; intros x Hx; rewrite HL; apply elem_of_cons; by right|].
      eapply same_data_sub; [|exact Hd3]. intros x Hx. rewrite HLL. apply elem_of_cons. by right.
    + cbv zeta. fold k. rewrite (Hd3 (o1, l1)) by (rewrite HLL; apply elem_of_cons; by left). rewrite <- Hvs.
      unfold data. cbn [fst snd]. rewrite (same_place_user m1 m2) by done.
      replace (Z.to_nat (l1 - S)) with (length vs + Z.to_nat (l1 - S - k))%nat by lia. rewrite ha_get_n_app.
      change (bytes m2) with (ha_put (bytes m1) (user m1 o1 + 0) vs). rewrite Z.add_0_r, ha_get_n_put_same.
      2:{ rewrite Hvs. by apply Forall_take. }
      rewrite take_app_le by lia. by rewrite take_ge by lia.
Qed.

Lemma realloc_live m bs o l newsize L :
  repr m bs -> live 0 bs ≡ₚ (o, l) :: L -> bytes_ok (data m (o, l)) -> 0 <= newsize -> newsize + al <= 2 ^ w ->
  exists r m', rt_smem_realloc w al trace thread_self (user m o) newsize m = Ok (r, m') /\ same_place m m' /\
    realloc_result m o l newsize L r m'.
Proof using Hw Hal.
  intros Hr HL Hb Hn Hlt. assert ((o, l) ∈ live 0 bs) as Hin by (rewrite HL; apply elem_of_cons; by left).
  pose proof (live_sized _ _ _ _ Hr Hin) as Hl.
  assert (same_place m m) as Hself by (rewrite (mk_self m) at 2; by eexists _, _, _, _).
  pose proof Hin as (xs & ys & -> & ->)%live_split. rewrite Z.add_0_l in *. rewrite (realloc_eq m xs l ys) by done. layout_facts.
  pose proof (round_up_spec newsize Hn) as (N1 & N2 & N3). set (n := round_up newsize) in *.
  assert (0 <= mem_size_aligned m /\ mem_size_aligned m + S + S < 2 ^ w) as Hmsz by (destruct (sr_geom _ _ _ _ _ Hr) as [_ [? _] [? _] ? ? _ _]; lia).
  destruct (Z.ltb_spec (mem_size_aligned m) n); [exists 0, m; split; [done|]; split; [done|]; right; left; split_and!; (done || lia)|].
  destruct (Z.eqb_spec n 0) as [Hz|Hnz].
  { destruct (free_live m _ _ _ Hr Hin) as (m' & bs' & L' & HL' & E & Hp & Hr' & HL2 & Hd). exists 0, m'.
    erewrite bind_run; [|exact E]. split; [done|]. split; [done|]. left. split; [by apply N3|]. split; [done|].
    rewrite HL in HL'. apply Permutation_cons_inv in HL'. exists bs'. split; [done|]. split; [by rewrite HL2, HL'|].
    eapply same_data_sub; [|exact Hd]. intros x. by rewrite HL'. }
  rewrite others_perm in HL. apply Permutation_cons_inv in HL as HL'.
  destruct (Z.eqb_spec (l - S) n) as [He|Hne].
  { eexists _, m. split; [done|]. split; [done|]. right. right. eexists _, l, _. split; [lia|]. split; [done|]. split; [exact Hr|].
    split; [by rewrite others_perm|]. split; [by intros x|]. split; [lia|done]. }
  destruct (Z.ltb_spec (n + S + MIN_SIZE w) (l - S)).
  - destruct (shrink_spec m xs l ys n Hr ltac:(lia) N2 ltac:(lia)) as (m' & E & Hp & Hr' & Hd & Hdata).
    eexists _, m'. erewrite bind_run; [|exact E]. split; [done|]. split; [done|]. right. right.
    eexists (sum_len xs), (S + n), _. split; [lia|]. split; [done|]. split; [exact Hr'|].
    destruct Hr as [Hg Hh _ _ _ _ _]. pose proof (heap_positive w al trace Hw Hal m Hg _ _ Hh) as [Hp1 _]%Forall_app.
    destruct (coalesce_spec (xs ++ [(S + n, true)]) (l - S - n) ys) as (-> & _); [lia|apply Forall_app; split; [done|by constructor; [cbn; lia|]]|].
    split; [|split; [|split; [lia|]]].
    + rewrite live_free, live_app, sum_len_app, <- HL'. cbn [live app sum_len]. rewrite <- app_assoc. cbn [app]. rewrite <- Permutation_middle.
      replace (0 + (sum_len xs + (S + n + 0)) + (l - S - n)) with (sum_len xs + l) by lia. done.
    + eapply same_data_sub; [|exact Hd]. intros x. by rewrite HL'.
    + cbv zeta. rewrite Hdata, take_take. f_equal. lia.
  - destruct (move_spec m _ (sum_len xs) l n L Hr) as (r & m' & E & Hp & Hres); [by rewrite others_perm, HL|done|lia|lia|].
    exists r, m'. split; [done|]. split; [done|]. destruct Hres as [(? & _)|[(_ & ? & ?)|(o' & l' & bs' & ? & ? & ? & ? & ? & ? & Hdat)]]; [lia|right; left; split_and!; (done || lia)|].
    right. right. exists o', l', bs'. split; [lia|]. do 4 (split; [done|]). split; [lia|].
    cbn zeta in Hdat |- *. apply (f_equal (take (Z.to_nat (Z.min newsize (l - S))))) in Hdat. rewrite !take_take in Hdat.
    by replace (Z.to_nat (Z.min newsize (l - S)) `min` Z.to_nat (Z.min n (l - S)))%nat with (Z.to_nat (Z.min newsize (l - S))) in Hdat by lia.
Qed.
End Api.
