(* ===== verification/SmallMemClient.v ===== *)
(** * The small memory allocator: the specification a caller programs against

    A caller sees pointers with the bytes behind them, a map from pointers to their
    contents ([view]).  [mspec] says what each call may do to that map; the calls on
    pointers of the map are a refinement of it, and so is every sequence of them, the
    next call chosen from the results so far. *)
From S2P Require Import Prelude Outcome Bytes SmallMem SmallMemFacts SmallMemOps.
From S2P Require Import SmallMemOps SmallMemApi.
#[local] Open Scope string_scope.
#[local] Open Scope list_scope.
#[local] Open Scope Z_scope.

(** ** Every cell stays a byte *)

Section Bytes.
Variables w al : Z.
Variable trace : bool.
Variable thread_self : option (list Z).

Abbreviation bytes_kept := (inv_rel (fun m => ha_ok (bytes m))).

Lemma kept_get : respects bytes_kept get.
Proof using Type. by intros m a m' [= <- <-]. Qed.
Lemma kept_ld p k : respects bytes_kept (ld w p k).
Proof using Type. intros m a m'. unfold ld. case_match; [|done]. by intros [= <- <-]. Qed.
Lemma kept_st p k v : respects bytes_kept (st w p k v).
Proof using Type. intros m a m'. unfold st. case_match; [|done]. intros [= <- <-] Hb. by apply ha_write_ok. Qed.
Lemma kept_name p name : respects bytes_kept (rt_smem_setname w trace p name).
Proof using Type.
  unfold rt_smem_setname, when. destruct trace; [|by intros m a m' [= <- <-]]. intros m a m'. case_match; [|done].
  intros [= <- <-] Hb. by apply ha_put_ok.
Qed.
Lemma kept_copy d s n : respects bytes_kept (copy_block d s n).
Proof using Type. intros m a m'. unfold copy_block. case_match; [|done]. intros [= <- <-] Hb. by apply ha_put_ok. Qed.
#[local] Hint Resolve kept_get kept_ld kept_st kept_name kept_copy : respects.

Ltac kept := repeat first [ respects_step | match goal with |- bytes_kept _ _ => by intros ? end ].

Lemma kept_used p : respects bytes_kept (MEM_ISUSED w p).
Proof using Type. unfold MEM_ISUSED. kept. Qed.
Lemma kept_pool p : respects bytes_kept (MEM_POOL w p).
Proof using Type. unfold MEM_POOL. kept. Qed.
Lemma kept_set p : respects bytes_kept (set_lfree p).
Proof using Type. unfold set_lfree. kept. Qed.
Lemma kept_add n : respects bytes_kept (add_used w n).
Proof using Type. unfold add_used. kept. Qed.
#[local] Hint Resolve kept_used kept_pool kept_set kept_add : respects.

Lemma kept_check : respects bytes_kept check_object.
Proof using Type. unfold check_object. kept. Qed.
Lemma kept_next fuel : respects bytes_kept (next_free w fuel).
Proof using Type. induction fuel; cbn [next_free]; kept. Qed.
#[local] Hint Resolve kept_check kept_next : respects.
Lemma kept_plug p : respects bytes_kept (plug_holes w p).
Proof using Type. unfold plug_holes, plug_forward, plug_backward. kept. Qed.
Lemma kept_split p o n : respects bytes_kept (split_item w al trace p o n).
Proof using Type. unfold split_item. kept. Qed.
#[local] Hint Resolve kept_plug kept_split : respects.
Lemma kept_take p o n : respects bytes_kept (take_item w al trace thread_self p o n).
Proof using Type. unfold take_item, advance_lfree. kept. Qed.
#[local] Hint Resolve kept_take : respects.
Lemma kept_loop fuel o n : respects bytes_kept (alloc_loop w al trace thread_self fuel o n).
Proof using Type. revert o; induction fuel; intros o; cbn [alloc_loop]; kept. Qed.
#[local] Hint Resolve kept_loop : respects.

Lemma alloc_bytes n : respects bytes_kept (rt_smem_alloc w al trace thread_self n).
Proof using Type. unfold rt_smem_alloc. kept. Qed.
Lemma free_bytes p : respects bytes_kept (rt_smem_free w al trace p).
Proof using Type. unfold rt_smem_free. kept. Qed.
#[local] Hint Resolve alloc_bytes free_bytes : respects.
Lemma realloc_bytes p n : respects bytes_kept (rt_smem_realloc w al trace thread_self p n).
Proof using Type. unfold rt_smem_realloc, shrink_item, move_item. kept. Qed.
End Bytes.

(** ** The map a caller sees *)

Section Client.
Variables w al : Z.
Variable trace : bool.
Variable thread_self : option (list Z).
Context (Hw : w = 32 \/ w = 64) (Hal : al = 4 \/ al = 8).
Abbreviation S := (SIZEOF_STRUCT_MEM w al trace).
Abbreviation repr := (smem_repr w al trace).
Abbreviation user := (user w al trace).
Abbreviation data := (data w al trace).

Definition view (m : rt_small_mem) (L : list (Z * Z)) : gmap Z (list Z) :=
  list_to_map ((fun x => (user m x.1, data m x)) <$> L).

Lemma live_offsets o bs : Forall (fun x => 0 < x.1) bs -> NoDup (live o bs).*1 /\ Forall (fun x => o <= x.1) (live o bs).
Proof using Type.
  clear. revert o; induction bs as [|[l u] bs IH]; intros o; cbn [live]; [intros _; split; constructor|].
  intros [H1 H2]%Forall_cons. cbn in H1. destruct (IH (o + l) H2) as [H3 H4].
  assert (Forall (fun x => o <= x.1) (live (o + l) bs)) as H5 by (eapply Forall_impl; [exact H4|]; cbn; lia).
  destruct u; cbn [app]; [|done]. split; [|constructor; [cbn; lia|done]]. cbn. constructor; [|done].
  intros ([a b] & Ha & Hin)%list_elem_of_fmap. apply (proj1 (Forall_forall _ _) H4) in Hin. cbn in *. lia.
Qed.

Lemma live_nodup m bs : repr m bs -> NoDup (live 0 bs).*1.
Proof using Hw Hal.
  intros [Hg Hh _ _ _ _ _]. apply live_offsets. exact (heap_positive w al trace Hw Hal m Hg _ _ Hh).
Qed.

Lemma view_keys m L : NoDup L.*1 -> NoDup ((fun x => (user m x.1, data m x)) <$> L).*1.
Proof using Type.
  intros H. rewrite <- list_fmap_compose. change ((fst ∘ (fun x : Z * Z => (user m x.1, data m x))) <$> L) with ((fun x : Z * Z => user m x.1) <$> L).
  replace ((fun x : Z * Z => user m x.1) <$> L) with (user m <$> L.*1) by (by rewrite <- list_fmap_compose).
  apply NoDup_fmap_2; [|done]. intros a b. unfold SmallMemApi.user. lia.
Qed.

Lemma view_lookup m L p c :
  NoDup L.*1 -> view m L !! p = Some c <-> exists x, x ∈ L /\ p = user m x.1 /\ c = data m x.
Proof using Type.
  intros H. unfold view. rewrite <- elem_of_list_to_map by (by apply view_keys). rewrite list_elem_of_fmap.
  split; [intros (x & [= -> ->] & Hin); eauto|]. intros (x & Hin & -> & ->). eauto.
Qed.

Lemma view_perm m L L' : NoDup L.*1 -> L ≡ₚ L' -> view m L = view m L'.
Proof using Type. intros H HL. apply list_to_map_proper; [by apply view_keys|]. by rewrite HL. Qed.

Lemma view_same m m' L : same_place m m' -> same_data w al trace L m m' -> view m' L = view m L.
Proof using Type.
  intros Hp Hd. unfold view. f_equal. apply list_fmap_ext. intros i x Hx%list_elem_of_lookup_2.
  by rewrite (same_place_user w al trace m m' _ Hp), (Hd x Hx).
Qed.

Lemma view_none m x L : NoDup (x :: L).*1 -> view m L !! user m x.1 = None.
Proof using Type.
  intros [Hx HL]%NoDup_cons. apply eq_None_not_Some. intros [c ([a b] & Hin & He & _)%view_lookup]; [|done].
  apply Hx, list_elem_of_fmap. exists (a, b). split; [|done]. unfold SmallMemApi.user in He. cbn in *. lia.
Qed.

Lemma view_delete m x L : NoDup (x :: L).*1 -> delete (user m x.1) (view m (x :: L)) = view m L.
Proof using Type. intros H. unfold view. cbn. apply delete_insert_id. by apply view_none. Qed.

(** ** Calls and their specification *)

Inductive mop := Alloc (n : Z) | Free (p : Z) | Realloc (p n : Z) | Write (p i v : Z).

(** A call, or the caller's own store through a pointer. *)
Definition mop_run (op : mop) : ST rt_small_mem Z :=
  match op with
  | Alloc n => rt_smem_alloc w al trace thread_self n
  | Free p => rt_smem_free w al trace p ;; mret 0
  | Realloc p n => rt_smem_realloc w al trace thread_self p n
  | Write p i v => modify (fun m => {m with bytes ::= (fun b => ha_put b (p + i) [v]) }) ;; mret 0
  end.

(** A new block of at least [n] bytes. *)
Definition new_block (A : gmap Z (list Z)) (r n : Z) (c : list Z) : Prop :=
  r <> 0 /\ A !! r = None /\ n <= Z.of_nat (length c).

Definition mspec (A : gmap Z (list Z)) (op : mop) (r : Z) (A' : gmap Z (list Z)) : Prop :=
  match op with
  | Alloc n => (r = 0 /\ A' = A) \/ (0 < n /\ exists c, new_block A r n c /\ A' = <[r := c]> A)
  | Free p => r = 0 /\ A' = delete p A
  | Realloc p n =>
      (n = 0 /\ r = 0 /\ A' = delete p A) \/ (0 < n /\ r = 0 /\ A' = A) \/
      (0 < n /\ exists c, new_block (delete p A) r n c /\ A' = <[r := c]> (delete p A) /\
        forall old, A !! p = Some old ->
          let k := Nat.min (Z.to_nat n) (length old) in take k c = take k old)
  | Write p i v => r = 0 /\ A' = alter (fun c => <[Z.to_nat i := v]> c) p A
  end.

(** What the caller must see to: pointers it holds, sizes that do not wrap. *)
Definition allowed (A : gmap Z (list Z)) (op : mop) : Prop :=
  match op with
  | Alloc n => 0 <= n /\ n + al <= 2 ^ w
  | Free p => p = 0 \/ is_Some (A !! p)
  | Realloc p n => (p = 0 \/ is_Some (A !! p)) /\ 0 <= n /\ n + al <= 2 ^ w
  | Write p i v => in_u 8 v /\ 0 <= i /\ exists c, A !! p = Some c /\ i < Z.of_nat (length c)
  end.

Definition smem_inv (m : rt_small_mem) (A : gmap Z (list Z)) : Prop :=
  exists bs, repr m bs /\ ha_ok (bytes m) /\ A = view m (live 0 bs).

Lemma view_zero m bs : repr m bs -> view m (live 0 bs) !! 0 = None.
Proof using Hw Hal.
  intros Hr. apply eq_None_not_Some. intros [c ([o l] & Hin & He & _)%view_lookup]; [|by eapply live_nodup].
  pose proof (live_inside w al trace Hw Hal _ _ _ _ Hr Hin). destruct (layout w al trace Hw Hal) as [_ _ _ _ _ [Hls _] _].
  destruct (sr_geom _ _ _ _ _ Hr). unfold SmallMemApi.user in He. cbn in He. lia.
Qed.

Lemma length_data m x : S < x.2 -> Z.of_nat (length (data m x)) = x.2 - S.
Proof using Type. intros H. unfold SmallMemApi.data. rewrite length_ha_get_n. lia. Qed.

(** Pointers of the map are non-null. *)
Lemma user_nonzero m bs o l : repr m bs -> (o, l) ∈ live 0 bs -> user m o <> 0.
Proof using Hw Hal.
  intros Hr Hin He. pose proof (view_zero m bs Hr) as Hz.
  assert (view m (live 0 bs) !! user m o = Some (data m (o, l))) as Hs by (apply view_lookup; [by eapply live_nodup|eauto]).
  by rewrite He, Hz in Hs.
Qed.

(** From a used block of the new list to the new map. *)
Lemma new_view m m' bs' L o l n :
  repr m' bs' -> same_place m m' -> same_data w al trace L m m' -> NoDup L.*1 -> live 0 bs' ≡ₚ (o, l) :: L -> n <= l - S ->
  new_block (view m L) (user m o) n (data m' (o, l)) /\ view m' (live 0 bs') = <[user m o := data m' (o, l)]> (view m L).
Proof using Hw Hal.
  intros Hr Hp Hd HL Hl Hn. pose proof (live_nodup _ _ Hr) as Hnd.
  assert ((o, l) ∈ live 0 bs') as Hin by (rewrite Hl; apply elem_of_cons; by left).
  rewrite <- (view_same m m' L Hp Hd). rewrite <- (same_place_user w al trace m m' o Hp). split; [split; [|split]|].
  - by eapply user_nonzero.
  - rewrite Hl in Hnd. exact (view_none _ _ _ Hnd).
  - rewrite length_data by (cbn; by eapply live_sized). cbn. done.
  - by rewrite (view_perm _ _ _ Hnd Hl).
Qed.

(** Each allowed call refines its specification. *)
Lemma alloc_step m bs n :
  repr m bs -> 0 <= n -> n + al <= 2 ^ w ->
  exists r m', rt_smem_alloc w al trace thread_self n m = Ok (r, m') /\
    (exists bs', repr m' bs' /\ mspec (view m (live 0 bs)) (Alloc n) r (view m' (live 0 bs'))).
Proof using Hw Hal.
  intros Hr Hn Hlt. destruct (Z.eq_dec n 0) as [->|Hne]; [exists 0, m; split; [done|]; exists bs; split; [done|by left]|].
  destruct (alloc_live w al trace thread_self Hw Hal m bs n Hr ltac:(lia) Hlt) as [[E _]|(o & l & m' & bs' & E & Hp & Hr' & HL & Hd & Hl)].
  { exists 0, m. split; [done|]. exists bs. split; [done|by left]. }
  exists (user m o), m'. split; [done|]. exists bs'. split; [done|]. right. split; [lia|].
  destruct (aligned_size_spec w al trace Hw Hal m (sr_geom _ _ _ _ _ Hr) n ltac:(lia) Hlt) as (_ & Hs & _).
  destruct (new_view m m' bs' (live 0 bs) o l n) as [H1 H2]; try done; [by eapply live_nodup|lia|]. eauto.
Qed.

Lemma held m bs p : repr m bs -> is_Some (view m (live 0 bs) !! p) -> exists o l L, live 0 bs ≡ₚ (o, l) :: L /\ p = user m o /\
  view m (live 0 bs) = view m ((o, l) :: L) /\ NoDup ((o, l) :: L).*1.
Proof using Hw Hal.
  intros Hr [c ([o l] & (L1 & L2 & HL)%list_elem_of_split & -> & _)%view_lookup]; [|by eapply live_nodup].
  exists o, l, (L1 ++ L2). assert (live 0 bs ≡ₚ (o, l) :: L1 ++ L2) as HP by (by rewrite HL, Permutation_middle).
  pose proof (live_nodup m bs Hr) as Hnd. split; [done|]. split; [done|]. split; [by apply view_perm|]. by rewrite <- HP.
Qed.

Lemma free_step m bs p :
  repr m bs -> p = 0 \/ is_Some (view m (live 0 bs) !! p) ->
  exists m', rt_smem_free w al trace p m = Ok (tt, m') /\
    (exists bs', repr m' bs' /\ view m' (live 0 bs') = delete p (view m (live 0 bs))).
Proof using Hw Hal.
  intros Hr [-> | (o & l & L & HL & -> & Hv & Hnd)%held]; [| |done].
  { exists m. split; [done|]. exists bs. split; [done|]. by rewrite delete_id by (by apply view_zero). }
  assert ((o, l) ∈ live 0 bs) as Hin by (rewrite HL; apply elem_of_cons; by left).
  destruct (free_live w al trace Hw Hal m bs o l Hr Hin) as (m' & bs' & L' & HL' & E & Hp & Hr' & HL2 & Hd).
  exists m'. split; [done|]. exists bs'. split; [done|]. rewrite HL in HL'. apply Permutation_cons_inv in HL'.
  rewrite Hv, (view_delete m (o, l)), HL2 by done. rewrite (view_same m m') by done. symmetry.
  apply view_perm; [|done]. by apply NoDup_cons in Hnd as [_ ?].
Qed.

Lemma realloc_null m bs n :
  repr m bs -> 0 <= n -> n + al <= 2 ^ w ->
  (n = 0 /\ rt_smem_realloc w al trace thread_self 0 n m = Ok (0, m)) \/
  0 < n /\ (rt_smem_realloc w al trace thread_self 0 n m = Ok (0, m) \/
    exists n', n <= n' /\ n' + al <= 2 ^ w /\
      rt_smem_realloc w al trace thread_self 0 n m = rt_smem_alloc w al trace thread_self n' m).
Proof using Hw Hal.
  intros Hr Hn Hlt. pose proof (sr_geom _ _ _ _ _ Hr) as Hg. pose proof (round_up_spec al Hal n Hn) as (N1 & N2 & N3).
  destruct (layout w al trace Hw Hal) as [_ _ _ _ _ [Hls _] _].
  unfold rt_smem_realloc. erewrite bind_run; [|by apply (check_self w al trace Hw Hal)]. erewrite bind_run; [|reflexivity]. cbv zeta.
  rewrite (RT_ALIGN_spec w al Hw Hal n) by lia. change ((n + al - 1) / al * al) with (round_up al n).
  destruct Hg as [_ [? _] [? _] ? ? _ _].
  destruct (Z.ltb_spec (mem_size_aligned m) (round_up al n)); [right; split; [lia|by left]|].
  destruct (Z.eqb_spec (round_up al n) 0); [left; split; [lia|done]|]. right. split; [lia|]. right.
  exists (round_up al n). split; [lia|]. split; [lia|done].
Qed.

Lemma realloc_step m bs p n :
  repr m bs -> ha_ok (bytes m) -> p = 0 \/ is_Some (view m (live 0 bs) !! p) -> 0 <= n -> n + al <= 2 ^ w ->
  exists r m', rt_smem_realloc w al trace thread_self p n m = Ok (r, m') /\
    (exists bs', repr m' bs' /\ mspec (view m (live 0 bs)) (Realloc p n) r (view m' (live 0 bs'))).
Proof using Hw Hal.
  intros Hr Hb [-> | (o & l & L & HL & -> & Hv & Hnd)%held] Hn Hlt; [| |done].
  - destruct (realloc_null m bs n Hr Hn Hlt) as [[-> E]|(Hn0 & [E|(n' & Hn' & Hlt' & E)])].
    + exists 0, m. split; [done|]. exists bs. split; [done|]. left. by rewrite delete_id by (by apply view_zero).
    + exists 0, m. split; [done|]. exists bs. split; [done|]. right. by left.
    + destruct (alloc_step m bs n' Hr ltac:(lia) Hlt') as (r & m' & E2 & bs' & Hr' & Hs). exists r, m'. rewrite E. split; [done|].
      exists bs'. split; [done|]. cbn [mspec] in *. rewrite delete_id by (by eapply view_zero).
      destruct Hs as [[-> ->]|(_ & c & (H1 & H2 & H3) & ->)]; right; [by left|right]. split; [done|]. exists c.
      split; [split_and!; (done || lia)|]. split; [done|]. intros old Hold. by rewrite view_zero in Hold.
  - destruct (realloc_live w al trace thread_self Hw Hal m bs o l n L Hr HL (ha_get_n_bytes _ _ _ Hb) Hn Hlt) as (r & m' & E & Hp & Hres).
    assert ((o, l) ∈ live 0 bs) as Hin by (rewrite HL; apply elem_of_cons; by left).
    exists r, m'. split; [done|]. cbn [mspec]. rewrite Hv, (view_delete m (o, l)) by done.
    assert (NoDup L.*1) as HndL by (by apply NoDup_cons in Hnd as [_ ?]).
    destruct Hres as [(-> & -> & bs' & Hr' & HL' & Hd)|[(Hn0 & -> & ->)|(o' & l' & bs' & Hn0 & -> & Hr' & HL' & Hd & Hl & Hdat)]].
    + exists bs'. split; [done|]. left. split; [done|]. split; [done|].
      rewrite <- (view_same m m' L) by done. apply view_perm; [by eapply live_nodup|done].
    + exists bs. split; [done|]. right. left. by rewrite Hv.
    + exists bs'. split; [done|]. right. right. split; [done|].
      destruct (new_view m m' bs' L o' l' n) as [H1 H2]; try done. exists (data m' (o', l')). split; [done|]. split; [done|].
      intros old Hold. unfold view in Hold. cbn in Hold. rewrite lookup_insert_eq in Hold. injection Hold as <-.
      pose proof (live_sized w al trace m bs o l Hr Hin) as Hsz. pose proof (length_data m (o, l) Hsz) as Hlen. cbn [snd] in Hlen.
      cbv zeta in Hdat |- *. by replace (Nat.min _ _) with (Z.to_nat (Z.min n (l - S))) by lia.
Qed.

Lemma mop_step m A op :
  smem_inv m A -> allowed A op -> exists r m' A', mop_run op m = Ok (r, m') /\ mspec A op r A' /\ smem_inv m' A'.
Proof using Hw Hal.
  intros (bs & Hr & Hb & ->) Ha. destruct op as [n|p|p n|p i v]; cbn [mop_run allowed] in *.
  - destruct Ha as [Hn Hlt]. destruct (alloc_step m bs n Hr Hn Hlt) as (r & m' & E & bs' & Hr' & Hs).
    exists r, m', (view m' (live 0 bs')). split; [done|]. split; [done|]. exists bs'. split; [done|]. split; [|done].
    by apply (alloc_bytes w al trace thread_self n m r m' E).
  - destruct (free_step m bs p Hr Ha) as (m' & E & bs' & Hr' & Hv). exists 0, m', (view m' (live 0 bs')).
    erewrite bind_run; [|exact E]. split; [done|]. split; [by split|]. exists bs'. split; [done|]. split; [|done].
    by apply (free_bytes w al trace p m tt m' E).
  - destruct Ha as (Hp & Hn & Hlt). destruct (realloc_step m bs p n Hr Hb Hp Hn Hlt) as (r & m' & E & bs' & Hr' & Hs).
    exists r, m', (view m' (live 0 bs')). split; [done|]. split; [done|]. exists bs'. split; [done|]. split; [|done].
    by apply (realloc_bytes w al trace thread_self p n m r m' E).
  - destruct Ha as (Hv & Hi & c & Hc & Hil).
    destruct (held m bs p Hr ltac:(eauto)) as (o & l & L & HL & -> & Hvw & Hnd).
    rewrite Hvw in Hc. unfold view in Hc. cbn in Hc. rewrite lookup_insert_eq in Hc. injection Hc as <-.
    assert ((o, l) ∈ live 0 bs) as Hin by (rewrite HL; apply elem_of_cons; by left).
    pose proof (live_sized w al trace m bs o l Hr Hin) as Hsz. rewrite length_data in Hil by done. cbn [snd] in Hil.
    destruct (poke_live w al trace Hw Hal m bs o l i [v] Hr Hin Hi) as [Hr' Hd]; [cbn; lia|]. specialize (Hd L HL).
    exists 0, (poke w al trace m o i [v]), (view (poke w al trace m o i [v]) (live 0 bs)).
    split; [by destruct m|]. split; [|exists bs; split; [done|]; split; [by apply ha_put_ok|done]]. split; [done|].
    assert (same_place m (poke w al trace m o i [v])) as Hp by apply poke_place.
    assert (bytes (poke w al trace m o i [v]) = ha_set (bytes m) (user m o + i) v) as Hbs by done.
    set (m2 := poke w al trace m o i [v]) in *. clearbody m2.
    rewrite (view_perm _ _ _ (live_nodup _ _ Hr) HL), (view_perm m _ _ (live_nodup _ _ Hr) HL). unfold view. cbn.
    rewrite alter_insert_eq. rewrite !(same_place_user w al trace m _ _ Hp). f_equal; [|exact (view_same m m2 L Hp Hd)].
    apply list_eq. intros k. unfold SmallMemApi.data. cbn [fst snd]. rewrite (same_place_user w al trace m _ _ Hp).
    rewrite Hbs.
    destruct (decide (k < Z.to_nat (l - S))%nat) as [Hk|Hk].
    2:{ rewrite !lookup_ge_None_2; rewrite ?length_insert, ?length_ha_get_n; auto; lia. }
    rewrite ha_get_n_lookup by done. destruct (decide (k = Z.to_nat i)) as [->|Hne].
    + rewrite list_lookup_insert_eq by (rewrite length_ha_get_n; lia). rewrite ha_get_set, decide_True by lia.
      f_equal. by apply wrap_small.
    + rewrite list_lookup_insert_ne by done. rewrite ha_get_n_lookup by done. rewrite ha_get_set, decide_False by lia. done.
Qed.

(** ** Sequences of calls *)

(** The caller's next call, from the results so far (latest first). *)
Definition caller := list Z -> mop.

Fixpoint calls_run (fs : list caller) (rs : list Z) : ST rt_small_mem (list Z) :=
  match fs with [] => mret rs | f :: fs' => r ← mop_run (f rs); calls_run fs' (r :: rs) end.

(** What the specification allows a run to return. *)
Fixpoint calls_spec (A : gmap Z (list Z)) (fs : list caller) (rs rs' : list Z) (A' : gmap Z (list Z)) : Prop :=
  match fs with
  | [] => rs' = rs /\ A' = A
  | f :: fs' => exists r A1, mspec A (f rs) r A1 /\ calls_spec A1 fs' (r :: rs) rs' A'
  end.

(** The caller keeps to its pointers whatever the allocator answers. *)
Fixpoint calls_allowed (A : gmap Z (list Z)) (fs : list caller) (rs : list Z) : Prop :=
  match fs with
  | [] => True
  | f :: fs' => allowed A (f rs) /\ forall r A1, mspec A (f rs) r A1 -> calls_allowed A1 fs' (r :: rs)
  end.

Lemma calls_refine fs m A rs :
  smem_inv m A -> calls_allowed A fs rs ->
  exists rs' m' A', calls_run fs rs m = Ok (rs', m') /\ calls_spec A fs rs rs' A' /\ smem_inv m' A'.
Proof using Hw Hal.
  revert m A rs; induction fs as [|f fs IH]; intros m A rs Hi; cbn [calls_run calls_spec calls_allowed].
  - intros _. by exists rs, m, A.
  - intros [Ha Hk]. destruct (mop_step m A _ Hi Ha) as (r & m1 & A1 & E & Hs & Hi1).
    destruct (IH m1 A1 (r :: rs) Hi1 (Hk _ _ Hs)) as (rs' & m' & A' & E2 & Hs2 & Hi2).
    exists rs', m', A'. erewrite bind_run; [|exact E]. split; [done|]. split; [by exists r, A1|done].
Qed.

(** What the map says about memory: the blocks are aligned, inside the pool and apart. *)
Lemma inv_blocks m A p c :
  smem_inv m A -> A !! p = Some c ->
  p mod al = 0 /\ pool_begin m <= p /\ p + Z.of_nat (length c) <= pool_end m /\
  ha_get_n (bytes m) p (length c) = c /\
  forall p' c', A !! p' = Some c' -> p' <> p -> p + Z.of_nat (length c) <= p' \/ p' + Z.of_nat (length c') <= p.
Proof using Hw Hal.
  intros (bs & Hr & Hb & ->) Hc. destruct (held m bs p Hr ltac:(eauto)) as (o & l & L & HL & -> & Hv & Hnd).
  rewrite Hv in Hc. unfold view in Hc. cbn in Hc. rewrite lookup_insert_eq in Hc. injection Hc as <-.
  assert ((o, l) ∈ live 0 bs) as Hin by (rewrite HL; apply elem_of_cons; by left).
  pose proof (live_sized w al trace m bs o l Hr Hin) as Hsz. pose proof (length_data m (o, l) Hsz) as Hlen. cbn [snd] in Hlen.
  pose proof (live_inside w al trace Hw Hal m bs o l Hr Hin) as [Ho1 Ho2].
  destruct (layout w al trace Hw Hal) as [_ _ _ _ _ [Hls Hlsa] _].
  pose proof Hin as (xs & ys & -> & Hox)%live_split. rewrite Z.add_0_l in Hox. subst o. pose proof (sr_geom _ _ _ _ _ Hr) as Hg.
  split; [|split; [|split; [|split]]].
  - pose proof (sr_heap _ _ _ _ _ Hr) as Hh. destruct (ptr_aligned w al trace Hw Hal m Hg _ _ _ _ _ Hh) as [(_ & P2 & _)|?]; [|lia].
    by rewrite (land_low al Hal) in P2.
  - destruct Hg as [_ _ _ _ _ [? _] _]. unfold SmallMemApi.user. lia.
  - rewrite Hlen. destruct Hg as [_ _ _ He _ [_ ?] _]. unfold SmallMemApi.user. lia.
  - unfold SmallMemApi.data at 1. cbn [fst snd]. by rewrite length_ha_get_n.
  - intros p' c' ([o' l'] & Hin' & -> & ->)%view_lookup Hne; [|by eapply live_nodup]. cbn [fst] in *.
    pose proof (live_sized w al trace m _ o' l' Hr Hin') as Hsz'. rewrite Hlen, length_data by done. cbn [snd].
    rewrite HL in Hin'. apply elem_of_cons in Hin' as [[= -> ->]|Hin']; [done|].
    pose proof (live_disjoint w al trace Hw Hal m _ _ _ o' l' L Hr HL Hin'). unfold SmallMemApi.user. lia.
Qed.

(** Initialisation starts with the empty map. *)
Lemma init_inv sz begin_addr size b0 :
  0 < begin_addr -> 0 <= size -> 0 <= sz -> begin_addr + size < 2 ^ w ->
  align_up al (align_up al begin_addr + sz) + al < 2 ^ w -> ha_ok b0 -> room w al trace sz begin_addr size ->
  exists m, rt_smem_init w al trace sz begin_addr size b0 = Ok (Some m) /\ smem_inv m ∅ /\
    pool_begin m = begin_addr /\ pool_end m = begin_addr + size /\ m_used m = 0.
Proof using Hw Hal.
  intros H1 H2 H3 H4 H5 Hb Hr. pose proof (init_run w al trace sz Hw Hal begin_addr size H1 H2 H3 H4 H5 b0) as E.
  rewrite decide_True in E by done. eexists. split; [exact E|]. split; [|done].
  pose proof (fresh_geom w al trace sz Hw Hal begin_addr size H1 H2 H3 H4 H5 b0 Hr) as Hg.
  pose proof (init_heap w al trace sz Hw Hal begin_addr size H1 H2 H3 H4 H5 b0 Hr) as Hh.
  eexists [(_, false)]. split; [|split; [|done]].
  - destruct Hg as [G1 G2 G3 G4 G5 G6 G7]. split; [by split|exact Hh|done|constructor|cbn; lia|done|]. cbn. destruct Hw as [-> | ->]; done.
  - cbn [bytes fresh]. unfold init_bytes, setn, setf. destruct trace; repeat first [apply ha_put_ok | apply ha_write_ok]; done.
Qed.
End Client.
