(* ===== verification/RtHeap.v ===== *)
(** * RT-Thread: the system heap of src/kservice.c

    The entry points of the heap, with the small memory algorithm behind them
    (RT_USING_SMALL_MEM_AS_HEAP): the state is the allocator's record, whose bytes are the
    memory.  An operation holds the heap lock for as long as it works on the allocator, so
    it is one step here; the hooks and the lock itself are not modelled.  The facts at the
    end say what a caller of [rt_malloc], [rt_calloc], [rt_malloc_align] and [rt_strdup]
    gets, in terms of the map from pointers to bytes of the allocator's specification. *)
From S2P Require Import Prelude Outcome Bytes KString RtKservice RtKserviceFacts.
From S2P Require Import SmallMem SmallMemFacts SmallMemOps SmallMemApi SmallMemClient.
#[local] Open Scope string_scope.
#[local] Open Scope list_scope.
#[local] Open Scope Z_scope.

Section Heap.
Variables w al : Z.
Variable trace : bool.
(** The name of the running thread. *)
Variable thread_self : option (list Z).
(** [sizeof(struct rt_small_mem)] *)
Variable sizeof_small_mem : Z.

Abbreviation Mn := (ST rt_small_mem).

(** The size of a pointer. *)
Definition ws : nat := Z.to_nat (word w).

(** The memory is what [bytes0] says; nothing if the heap is too small. *)
Definition rt_system_heap_init (begin_addr end_addr : Z) (bytes0 : harray) : outcome (option rt_small_mem) :=
  let begin_align := RT_ALIGN w begin_addr al in
  let end_align := RT_ALIGN_DOWN w end_addr al in
  if begin_align <? end_align
  then rt_smem_init w al trace sizeof_small_mem begin_addr (wrap w (end_align - begin_align)) bytes0
  else Abort "end_align > begin_align".

Definition rt_malloc (size : Z) : Mn Z := rt_smem_alloc w al trace thread_self size.
Definition rt_realloc (ptr newsize : Z) : Mn Z := rt_smem_realloc w al trace thread_self ptr newsize.
Definition rt_free (ptr : Z) : Mn unit := if ptr =? 0 then mret tt else rt_smem_free w al trace ptr.

(** The total memory, the used memory and the maximum. *)
Definition rt_memory_info : Mn (Z * Z * Z) := gets (fun m => (total m, m_used m, m_max m)).

(** A change of [n] bytes of the heap from [p] on. *)
Definition on_block (p n : Z) (f : harray -> outcome harray) : Mn unit := fun m =>
  if in_pool m p n then b ← f (bytes m); Ok (tt, {m with bytes := b}) else Undef "write outside the pool".

Definition rt_calloc (count size : Z) : Mn Z :=
  let n := wrap w (count * size) in
  p ← rt_malloc n;
  when (negb (p =? 0)) (on_block p n (rt_memset ws p 0 n)) ;;
  mret p.

Definition rt_strdup (fuel : nat) (s : Z) : Mn Z :=
  m ← get;
  n ← lift (rt_strlen fuel (bytes m) s);
  let len := wrap w (n + 1) in
  tmp ← rt_malloc len;
  if tmp =? 0 then mret 0 else on_block tmp len (rt_memcpy ws tmp s len) ;; mret tmp.

(** [(x + uintptr_size) & ~uintptr_size] *)
Definition pointer_align (x : Z) : Z :=
  let uintptr_size := word w - 1 in Z.land (wrap w (x + uintptr_size)) (wrap w (Z.lnot uintptr_size)).

Definition rt_malloc_align (size align : Z) : Mn Z :=
  let align := pointer_align align in
  let align_size := wrap w (pointer_align size + align) in
  ptr ← rt_malloc align_size;
  if ptr =? 0 then mret 0
  else
    let mask := wrap w (align - 1) in
    let align_ptr := if Z.land ptr mask =? 0 then wrap w (ptr + align)
                     else Z.land (wrap w (ptr + mask)) (wrap w (Z.lnot mask)) in
    st w (wrap w (align_ptr - word w)) 0 ptr ;;
    mret align_ptr.

Definition rt_free_align (ptr : Z) : Mn unit :=
  if ptr =? 0 then mret tt
  else real_ptr ← ld w (wrap w (ptr - word w)) 0; rt_free real_ptr.
End Heap.

(** ** What the callers get *)

Section HeapFacts.
Variables w al : Z.
Variable trace : bool.
Variable thread_self : option (list Z).
Context (Hw : w = 32 \/ w = 64) (Hal : al = 4 \/ al = 8).
Abbreviation inv := (smem_inv w al trace).
Abbreviation repr := (smem_repr w al trace).
Abbreviation S := (SIZEOF_STRUCT_MEM w al trace).

Lemma word_facts : word w = Z.of_nat (ws w) /\ (ws w = 2%nat \/ ws w = 4%nat \/ ws w = 8%nat) /\ 8 * word w = w /\ 4 <= word w <= 8.
Proof using Hw. clear -Hw. destruct Hw as [-> | ->]; (split; [done|]); (split; [tauto|]); done. Qed.

(** The specification speaks of the contents of memory only. *)
Lemma inv_equiv m A b : inv m A -> ha_equiv b (bytes m) -> ha_ok b -> inv {m with bytes := b} A.
Proof using Hw Hal.
  intros (bs & Hr & _ & ->) E Hb. exists bs. split; [|split; [done|]].
  - destruct Hr as [Hg Hh Hn Hs Hlf Hu Hm]. assert (heap w al trace m b bs) as Hh2.
    { revert Hh. apply (rest_same w al trace Hw Hal m Hg). intros q _ k _. unfold getf. by rewrite E. }
    change (repr (mk m (lfree m) (m_used m) (m_max m) b) bs). apply repr_mk; try done. lia.
  - symmetry. apply view_same; [by exists (lfree m), (m_used m), (m_max m), b|]. intros x _. exact (ha_get_n_proper _ _ E _ _ eq_refl _ _ eq_refl).
Qed.

(** Writing inside a block the caller holds changes that block only. *)
Lemma inv_write m A p c i vs :
  inv m A -> A !! p = Some c -> 0 <= i -> i + Z.of_nat (length vs) <= Z.of_nat (length c) -> bytes_ok vs ->
  exists c', length c' = length c /\ inv {m with bytes := ha_put (bytes m) (p + i) vs} (<[p := c']> A).
Proof using Hw Hal.
  revert m A c i. induction vs as [|v vs IH]; intros m A c i Hi Hc H0 Hl Hv.
  - exists c. split; [done|]. rewrite insert_id by done. by destruct m.
  - apply Forall_cons in Hv as [Hv Hvs]. cbn [length] in Hl.
    destruct (mop_step w al trace None Hw Hal m A (Write p i v) Hi) as (r & m1 & A1 & E & [_ ->] & Hi1).
    { split; [done|]. split; [done|]. exists c. split; [done|lia]. }
    injection E as _ <-. destruct (IH {m with bytes ::= (fun b => ha_put b (p + i) [v])} _ (<[Z.to_nat i := v]> c) (i + 1) Hi1) as (c' & Hlen & H);
      [by rewrite lookup_alter_eq, Hc|lia|rewrite length_insert; lia|done|].
    exists c'. split; [by rewrite Hlen, length_insert|]. cbn [ha_put].
    replace (p + i + 1) with (p + (i + 1)) by lia. revert H. cbn. clear. intros H.
    match type of H with inv _ ?B => replace (<[p := c']> A) with B; [exact H|] end.
    apply map_eq. intros q. destruct (decide (q = p)) as [->|Hne]; [by rewrite !lookup_insert_eq|]. rewrite !lookup_insert_ne by done. by apply lookup_alter_ne.
Qed.

(** Where a block is; the pool itself does not move. *)
Lemma inv_block m A p c : inv m A -> A !! p = Some c ->
  0 < p /\ p mod al = 0 /\ p + Z.of_nat (length c) < 2 ^ w /\ ha_get_n (bytes m) p (length c) = c /\
  forall i n, 0 <= i -> i + n <= Z.of_nat (length c) -> in_pool m (p + i) n = true.
Proof using Hw Hal.
  intros Hi Hc. destruct (inv_blocks w al trace Hw Hal m A p c Hi Hc) as (H1 & H2 & H3 & H4 & _).
  destruct Hi as (bs & Hr & _ & ->). destruct (held w al trace Hw Hal m bs p Hr ltac:(eauto)) as (o & l & L & HL & -> & Hv & _).
  rewrite Hv in Hc. unfold view in Hc. cbn in Hc. rewrite lookup_insert_eq in Hc. injection Hc as Hc.
  assert ((o, l) ∈ live 0 bs) as Hin by (rewrite HL; apply elem_of_cons; by left).
  pose proof (live_sized w al trace m bs o l Hr Hin) as Hsz. pose proof (length_data w al trace m (o, l) Hsz) as Hlen. cbn [snd] in Hlen. rewrite Hc in Hlen.
  pose proof (live_inside w al trace Hw Hal m bs o l Hr Hin) as Ho. destruct (layout w al trace Hw Hal) as [_ _ _ _ _ [Hls _] _].
  destruct (sr_geom _ _ _ _ _ Hr) as [_ ? _ ? ? ? _].
  assert (user w al trace m o = heap_ptr m + o + S) as Hu by done. split; [lia|]. split; [done|]. split; [lia|]. split; [done|].
  intros i n H0 Hn. unfold in_pool. apply andb_true_iff. split; apply Z.leb_le; lia.
Qed.

(** rt_malloc gives nothing, or a new block of at least the size asked for. *)
Lemma rt_malloc_run m A n :
  inv m A -> 0 <= n -> n + al <= 2 ^ w ->
  exists r m', rt_malloc w al trace thread_self n m = Ok (r, m') /\
    ((r = 0 /\ inv m' A) \/ (0 < n /\ exists c, new_block A r n c /\ inv m' (<[r := c]> A))).
Proof using Hw Hal.
  intros Hi Hn Hl. destruct (mop_step w al trace thread_self Hw Hal m A (Alloc n) Hi) as (r & m' & A' & E & Hs & Hi'); [done|].
  exists r, m'. split; [exact E|]. destruct Hs as [[-> ->]|(H0 & c & Hc & ->)]; [by left|]. right. split; [done|]. by exists c.
Qed.

(** Part of a block's contents. *)
Lemma block_part (b : harray) p c i n :
  ha_get_n b p (length c) = c -> (i + n <= length c)%nat -> ha_get_n b (p + Z.of_nat i) n = take n (drop i c).
Proof using Type.
  clear. intros Hc Hl. replace (length c) with (i + (n + (length c - i - n)))%nat in Hc at 1 by lia. rewrite !ha_get_n_app in Hc.
  apply (f_equal (fun l => take n (drop i l))) in Hc. rewrite drop_app_length' in Hc by (by rewrite length_ha_get_n).
  rewrite take_app_length' in Hc by (by rewrite length_ha_get_n). done.
Qed.

(** rt_calloc: a product that does not wrap gives a block of zeros. *)
Lemma rt_calloc_run m A count size :
  inv m A -> 0 <= count -> 0 <= size -> count * size + al <= 2 ^ w ->
  exists r m', rt_calloc w al trace thread_self count size m = Ok (r, m') /\
    ((r = 0 /\ inv m' A) \/
     (0 < count * size /\ exists c, new_block A r (count * size) c /\ inv m' (<[r := c]> A) /\
       take (Z.to_nat (count * size)) c = replicate (Z.to_nat (count * size)) 0)).
Proof using Hw Hal.
  intros Hi Hc Hs Hl. destruct word_facts as (_ & Hws & _). pose proof (Z.mul_nonneg_nonneg _ _ Hc Hs) as Hp.
  set (n := count * size) in *. destruct (rt_malloc_run m A n Hi Hp Hl) as (r & m1 & E & H).
  unfold rt_calloc. fold n. rewrite wrap_small by (unfold in_u; lia). rewrite (bind_run _ _ _ _ _ E).
  destruct H as [[-> H]|(Hn & c & Hb & Hi1)]; [by exists 0, m1; split; [|left]|]. pose proof Hb as (Hr & Hnone & Hlen). rewrite (proj2 (Z.eqb_neq r 0)) by done. cbn [negb].
  assert (<[r := c]> A !! r = Some c) as Hrc by apply lookup_insert_eq.
  destruct (inv_block _ _ _ _ Hi1 Hrc) as (_ & _ & _ & _ & Hin). specialize (Hin 0 n). rewrite Z.add_0_r in Hin.
  destruct (inv_write _ _ _ _ 0 (replicate (Z.to_nat n) 0) Hi1 Hrc) as (c' & Hl' & Hi2); [lia|rewrite length_replicate; lia|by apply Forall_replicate|].
  rewrite Z.add_0_r, insert_insert_eq in Hi2. exists r, {m1 with bytes := ha_put (bytes m1) r (replicate (Z.to_nat n) 0)}.
  split; [unfold when, on_block; run_simpl; rewrite Hin by lia; by rewrite (memset_run _ Hws) by done|].
  right. split; [done|]. exists c'. split; [split; [done|split; [done|by rewrite Hl']]|]. split; [done|].
  destruct (inv_block _ _ r c' Hi2 (lookup_insert_eq _ _ _)) as (_ & _ & _ & Hc' & _).
  pose proof (block_part _ _ _ 0 (Z.to_nat n) Hc') as Hpart. rewrite Z.add_0_r, drop_0 in Hpart. rewrite <- Hpart by lia. cbn [bytes].
  pose proof (ha_get_n_put_same (bytes m1) r (replicate (Z.to_nat n) 0)) as Hg. rewrite length_replicate in Hg. apply Hg. by apply Forall_replicate.
Qed.

(** *** Aligned blocks *)

Lemma word_pow : exists kw, word w = 2 ^ kw /\ 2 <= kw <= 3.
Proof using Hw. clear -Hw. destruct Hw as [-> | ->]; [exists 2|exists 3]; done. Qed.

Lemma pointer_align_eq x : 0 <= x -> x + word w <= 2 ^ w -> pointer_align w x = (x + word w - 1) / word w * word w.
Proof using Hw.
  clear -Hw. intros Hx Hl. unfold pointer_align. destruct word_pow as (k & Hk & Hk2). pose proof (pow2_pos k ltac:(lia)). rewrite Hk in *.
  replace (x + 2 ^ k - 1) with (x + (2 ^ k - 1)) by lia. rewrite (wrap_small w (x + _)) by (unfold in_u; lia).
  replace (2 ^ k - 1) with (Z.ones k) at 2 by (rewrite Z.ones_equiv; lia).
  by rewrite (land_clear_wrap w Hw) by (lia || (unfold in_u; lia)).
Qed.

Lemma pointer_align_spec x : 0 <= x -> x + word w <= 2 ^ w ->
  x <= pointer_align w x < x + word w /\ pointer_align w x mod word w = 0.
Proof using Hw.
  clear -Hw. intros Hx Hl. rewrite pointer_align_eq by done. destruct word_pow as (k & Hk & Hk2). pose proof (pow2_pos k ltac:(lia)). rewrite Hk in *.
  split; [|apply Z.mod_mul; lia]. pose proof (Z.div_mod (x + 2 ^ k - 1) (2 ^ k)). pose proof (Z.mod_pos_bound (x + 2 ^ k - 1) (2 ^ k)). lia.
Qed.

(** A power of two is rounded up to a power of two. *)
Lemma pointer_align_pow k : 0 <= k -> 2 ^ k + word w <= 2 ^ w -> exists j, pointer_align w (2 ^ k) = 2 ^ j /\ k <= j /\ 2 ^ j mod word w = 0.
Proof using Hw.
  clear -Hw. intros Hk Hl. pose proof (pow2_pos k Hk). rewrite pointer_align_eq by lia. destruct word_pow as (kw & Hkw & Hk2). pose proof (pow2_pos kw ltac:(lia)). rewrite Hkw.
  destruct (Z.le_ge_cases kw k) as [Hle|Hge].
  - assert (2 ^ k = 2 ^ (k - kw) * 2 ^ kw) as Hp by (rewrite <- Z.pow_add_r by lia; f_equal; lia). exists k. split; [|split; [lia|rewrite Hp; apply Z.mod_mul; lia]].
    rewrite Hp at 1. replace (2 ^ (k - kw) * 2 ^ kw + 2 ^ kw - 1) with (2 ^ kw - 1 + 2 ^ (k - kw) * 2 ^ kw) by lia.
    rewrite Z.div_add, Z.div_small by lia. lia.
  - exists kw. split; [|split; [lia|apply Z.mod_same; lia]]. assert (2 ^ k <= 2 ^ kw) by (apply Z.pow_le_mono_r; lia).
    assert ((2 ^ k + 2 ^ kw - 1) / 2 ^ kw = 1) as -> by (symmetry; apply (Z.div_unique _ _ _ (2 ^ k - 1)); lia). lia.
Qed.

(** The address handed out: the next multiple of the alignment above the block's start. *)
Lemma align_ptr_eq p j : 0 <= p -> 0 <= j < w -> p + 2 ^ j < 2 ^ w ->
  (if Z.land p (wrap w (2 ^ j - 1)) =? 0 then wrap w (p + 2 ^ j) else Z.land (wrap w (p + wrap w (2 ^ j - 1))) (wrap w (Z.lnot (wrap w (2 ^ j - 1))))) =
  (p / 2 ^ j + 1) * 2 ^ j.
Proof using Hw.
  clear -Hw. intros Hp Hj Hl. pose proof (pow2_pos j ltac:(lia)) as Hpos. rewrite (wrap_small w (2 ^ j - 1)) by (unfold in_u; lia).
  rewrite (wrap_small w (p + 2 ^ j)), (wrap_small w (p + (2 ^ j - 1))) by (unfold in_u; lia).
  assert (2 ^ j - 1 = Z.ones j) as Ho by (rewrite Z.ones_equiv; lia). rewrite Ho, land_clear_wrap by (done || lia || (unfold in_u; lia)). rewrite Z.land_ones by lia.
  pose proof (Z.div_mod p (2 ^ j) ltac:(lia)) as Hdm. pose proof (Z.mod_pos_bound p (2 ^ j) Hpos) as Hmb. rewrite <- Ho.
  destruct (Z.eqb_spec (p mod 2 ^ j) 0) as [E|E]; [lia|]. f_equal. symmetry. apply (Z.div_unique _ _ _ (p mod 2 ^ j - 1)); lia.
Qed.

(** The word in front of an aligned address, as part of the block it lies in. *)
Lemma rt_free_align_run m A p c r :
  inv m A -> A !! p = Some c -> p + word w <= r -> r <= p + Z.of_nat (length c) ->
  le_combine (take (ws w) (drop (Z.to_nat (r - p - word w)) c)) = p ->
  exists m', rt_free_align w al trace r m = Ok (tt, m') /\ inv m' (delete p A).
Proof using Hw Hal.
  intros Hi Hc H1 H2 Hp. destruct word_facts as (Hwz & Hws & Hw8 & Hwb). destruct (inv_block m A p c Hi Hc) as (P0 & _ & P2 & P3 & P4).
  destruct (mop_step w al trace None Hw Hal m A (Free p) Hi) as (r0 & m' & A' & E & [-> ->] & Hi'); [by right; eexists|]. exists m'. split; [|done].
  unfold rt_free_align. rewrite (proj2 (Z.eqb_neq r 0)) by lia. rewrite (wrap_small w (r - word w)) by (unfold in_u; lia).
  pose proof (P4 (r - p - word w) (word w)) as Hpool. replace (p + (r - p - word w)) with (r - word w) in Hpool by lia.
  assert (ld w (r - word w) 0 m = Ok (p, m)) as Eld.
  { unfold ld. rewrite Z.add_0_r, Hpool by lia. do 2 f_equal. unfold ha_read. fold (ws w).
    pose proof (block_part (bytes m) p c (Z.to_nat (r - p - word w)) (ws w) P3) as Hpart.
    replace (p + Z.of_nat (Z.to_nat (r - p - word w))) with (r - word w) in Hpart by lia. rewrite Hpart by lia. done. }
  rewrite (bind_run _ _ _ _ _ Eld). unfold rt_free. rewrite (proj2 (Z.eqb_neq p 0)) by lia.
  cbn [mop_run] in E. apply bind_ok in E as ([] & m1 & E & Eret). injection Eret as <-. exact E.
Qed.

Lemma rt_malloc_align_run m A size k :
  inv m A -> word w <= al -> 0 <= size -> 0 <= k -> size + 2 ^ k + 2 * word w + al <= 2 ^ w ->
  exists r m', rt_malloc_align w al trace thread_self size (2 ^ k) m = Ok (r, m') /\
    ((r = 0 /\ inv m' A) \/
     exists p c, A !! p = None /\ inv m' (<[p := c]> A) /\ p + word w <= r /\ r + size <= p + Z.of_nat (length c) /\ r mod 2 ^ k = 0 /\
       le_combine (take (ws w) (drop (Z.to_nat (r - p - word w)) c)) = p).
Proof using Hw Hal.
  intros Hi Hwal Hs Hk Hl. destruct word_facts as (Hwz & Hws & Hw8 & Hwb). pose proof (pow2_pos k Hk) as Hkp.
  destruct (pointer_align_pow k Hk) as (j & Ej & Hkj & Hjw); [lia|]. destruct (pointer_align_spec (2 ^ k)) as [J1 _]; [lia|lia|]. rewrite Ej in J1.
  destruct (pointer_align_spec size Hs) as [S1 _]; [lia|]. assert (j < w) as Hjlt by (apply (Z.pow_lt_mono_r_iff 2); lia).
  unfold rt_malloc_align. rewrite Ej. rewrite (wrap_small w (pointer_align w size + 2 ^ j)) by (unfold in_u; lia).
  destruct (rt_malloc_run m A (pointer_align w size + 2 ^ j) Hi) as (p & m1 & E & H); [lia|lia|]. rewrite (bind_run _ _ _ _ _ E).
  destruct H as [[-> H]|(_ & c & (Hp0 & Hnone & Hlen) & Hi1)]; [by exists 0, m1; split; [|left]|]. rewrite (proj2 (Z.eqb_neq p 0)) by done.
  destruct (inv_block m1 _ p c Hi1 (lookup_insert_eq _ _ _)) as (P0 & Pal & Ptop & _ & Pin).
  rewrite (align_ptr_eq p j) by lia. set (r := (p / 2 ^ j + 1) * 2 ^ j).
  pose proof (Z.div_mod p (2 ^ j) ltac:(lia)) as Hdm. pose proof (Z.mod_pos_bound p (2 ^ j) ltac:(lia)) as Hmb.
  assert (p < r <= p + 2 ^ j) as Hr by (unfold r; lia).
  assert (p mod word w = 0 /\ r mod word w = 0) as [Mp Mr].
  { apply Z.mod_divide in Hjw as [x Hx]; [|lia]. split; [|unfold r; rewrite Hx, Z.mul_assoc; apply Z.mod_mul; lia].
    apply Z.mod_divide in Pal as [y Hy]; [|lia]. rewrite Hy. clear -Hw Hal Hwal. destruct Hw as [-> | ->], Hal as [-> | ->];
      [change (word 32) with 4; apply Z.mod_mul; lia|change (word 32) with 4; replace (y * 8) with (y * 2 * 4) by lia; apply Z.mod_mul; lia|done|change (word 64) with 8; apply Z.mod_mul; lia]. }
  assert (p + word w <= r) as Hrp.
  { apply Z.mod_divide in Mp as [x Hx]; [|lia]. apply Z.mod_divide in Mr as [y Hy]; [|lia]. rewrite Hx, Hy in *. nia. }
  rewrite (wrap_small w (r - word w)) by (unfold in_u; lia).
  destruct (inv_write m1 _ p c (r - p - word w) (le_split (ws w) p) Hi1 (lookup_insert_eq _ _ _)) as (c' & Hl' & Hi2);
    [lia|rewrite length_le_split; lia|apply le_split_bytes|].
  replace (p + (r - p - word w)) with (r - word w) in Hi2 by lia. rewrite insert_insert_eq in Hi2.
  set (m2 := {m1 with bytes := ha_put (bytes m1) (r - word w) (le_split (ws w) p)}) in *.
  assert (st w (r - word w) 0 p m1 = Ok (tt, m2)) as Est.
  { unfold st. rewrite Z.add_0_r. specialize (Pin (r - p - word w) (word w)). replace (p + (r - p - word w)) with (r - word w) in Pin by lia. by rewrite Pin by lia. }
  rewrite (bind_run _ _ _ _ _ Est). exists r, m2. split; [done|]. right. exists p, c'. split; [done|]. split; [done|]. split; [done|]. rewrite Hl'. split; [lia|]. split.
  - unfold r. replace (2 ^ j) with (2 ^ (j - k) * 2 ^ k) at 2 by (rewrite <- Z.pow_add_r by lia; f_equal; lia). rewrite Z.mul_assoc. apply Z.mod_mul. lia.
  - destruct (inv_block m2 _ p c' Hi2 (lookup_insert_eq _ _ _)) as (_ & _ & _ & Hc' & _).
    rewrite <- (block_part _ _ _ _ _ Hc') by (rewrite Hl'; lia). replace (p + Z.of_nat (Z.to_nat (r - p - word w))) with (r - word w) by lia. change (bytes m2) with (ha_put (bytes m1) (r - word w) (le_split (ws w) p)).
    pose proof (ha_get_n_put_same (bytes m1) (r - word w) (le_split (ws w) p) (le_split_bytes _ _)) as Hg. rewrite length_le_split in Hg. rewrite Hg.
    rewrite le_combine_split, <- Hwz, Hw8. apply Z.mod_small. lia.
Qed.

(** *** Copies of strings *)

(** rt_strdup copies a string of the heap, with its terminator, into a new block. *)
Lemma rt_strdup_run fuel m A q c0 i cs :
  inv m A -> A !! q = Some c0 -> (i + length cs + 1 <= length c0)%nat -> take (length cs + 1) (drop i c0) = cs ++ [0] -> Forall (fun c => c <> 0) cs ->
  (length cs < fuel)%nat -> Z.of_nat (length cs) + 1 + al <= 2 ^ w ->
  exists r m', rt_strdup w al trace thread_self fuel (q + Z.of_nat i) m = Ok (r, m') /\
    ((r = 0 /\ inv m' A) \/ exists c, new_block A r (Z.of_nat (length cs) + 1) c /\ inv m' (<[r := c]> A) /\ take (length cs + 1) c = cs ++ [0]).
Proof using Hw Hal.
  intros Hi Hq Hil Hcs Hnz Hf Hl. destruct word_facts as (_ & Hws & _). set (s := q + Z.of_nat i). set (n := Z.of_nat (length cs) + 1).
  assert (forall m A, inv m A -> A !! q = Some c0 -> cstr (bytes m) s cs) as Hstr.
  { intros m2 A2 Hi2 Hq2. destruct (inv_block m2 A2 q c0 Hi2 Hq2) as (_ & _ & _ & Hc & _). split; [|done]. unfold s. rewrite (block_part _ _ _ _ _ Hc) by lia. done. }
  unfold rt_strdup. rewrite (bind_run get _ m m m eq_refl).
  assert (lift (rt_strlen fuel (bytes m) s) m = Ok (Z.of_nat (length cs), m)) as El by (unfold lift; by rewrite (rt_strlen_run _ _ cs fuel (Hstr _ _ Hi Hq) Hf)).
  rewrite (bind_run _ _ _ _ _ El). fold n. rewrite wrap_small by (unfold in_u; lia).
  destruct (rt_malloc_run m A n Hi) as (r & m1 & E & H); [lia|lia|]. rewrite (bind_run _ _ _ _ _ E).
  destruct H as [[-> H]|(_ & c & Hb & Hi1)]; [by exists 0, m1; split; [|left]|]. pose proof Hb as (Hr & Hnone & Hlen). rewrite (proj2 (Z.eqb_neq r 0)) by done.
  assert (q <> r) as Hqr by (intros ->; congruence). assert (<[r := c]> A !! q = Some c0) as Hq1 by (by rewrite lookup_insert_ne).
  pose proof (Hstr _ _ Hi1 Hq1) as Hs1. assert (<[r := c]> A !! r = Some c) as Hrc by apply lookup_insert_eq.
  destruct (inv_blocks w al trace Hw Hal m1 _ r c Hi1 Hrc) as (_ & _ & _ & _ & Hap). specialize (Hap q c0 Hq1 Hqr).
  assert (ha_ok (bytes m1)) as Hok by (by destruct Hi1 as (? & _ & ? & _)).
  destruct (rt_memcpy_run (ws w) Hws r s n (bytes m1) Hok) as (b & Eb & Hbe & Hbok); [lia|unfold copies_up, s; lia|].
  destruct (inv_block _ _ _ _ Hi1 Hrc) as (_ & _ & _ & _ & Hin). specialize (Hin 0 n). rewrite Z.add_0_r in Hin.
  replace (Z.to_nat n) with (length cs + 1)%nat in Hbe by lia. rewrite (proj1 Hs1) in Hbe.
  assert (bytes_ok (cs ++ [0])) as Hby by (rewrite <- (proj1 Hs1); by apply ha_get_n_bytes).
  destruct (inv_write _ _ _ _ 0 (cs ++ [0]) Hi1 Hrc) as (c' & Hl' & Hi2); [lia|rewrite length_app; cbn; lia|done|].
  rewrite Z.add_0_r, insert_insert_eq in Hi2. apply (inv_equiv _ _ b) in Hi2; [|done|done].
  exists r, {m1 with bytes := b}. split.
  { unfold on_block. run_simpl. rewrite Hin by lia. by rewrite Eb. }
  right. exists c'. split; [split; [done|split; [done|by rewrite Hl']]|]. split; [exact Hi2|].
  destruct (inv_block _ _ r c' Hi2 (lookup_insert_eq _ _ _)) as (_ & _ & _ & Hc' & _).
  pose proof (block_part _ _ _ 0 (length cs + 1) Hc') as Hpart. rewrite Z.add_0_r, drop_0 in Hpart. rewrite <- Hpart by lia. cbn [bytes].
  etransitivity; [exact (ha_get_n_proper _ _ Hbe _ _ eq_refl _ _ eq_refl)|].
  pose proof (ha_get_n_put_same (bytes m1) r (cs ++ [0]) Hby) as Hg. by rewrite length_app in Hg.
Qed.
End HeapFacts.
