(* ===== verification/RtCtime.v ===== *)
(** * RT-Thread: the calendar of components/libc/compilers/common/ctime.c

    The conversions between seconds since 1970 and broken-down time, the time zone and
    asctime_r.  [wt] is the width of [time_t]; division truncates and an overflow of a
    signed integer is undefined, as in C.  What reads the clock device and the POSIX timers
    are not modelled.  The second half relates the code to the Gregorian calendar. *)
From S2P Require Import Prelude Outcome Bytes RtKservice RtKserviceFacts.
#[local] Open Scope string_scope.
#[local] Open Scope list_scope.
#[local] Open Scope Z_scope.

Record tm := {
  tm_sec : Z; tm_min : Z; tm_hour : Z; tm_mday : Z; tm_mon : Z; tm_year : Z; tm_wday : Z; tm_yday : Z; tm_isdst : Z;
}.

Definition SPD : Z := 24 * 60 * 60.

(** Days before each month of a year that is no leap year. *)
Definition __spm : list Z := [0; 31; 59; 90; 120; 151; 181; 212; 243; 273; 304; 334; 365].
Definition spm (i : Z) : outcome Z :=
  match zlookup __spm i with Some d => Ok d | None => Undef "__spm" end.

Definition __isleap (year : Z) : bool :=
  (Z.rem year 4 =? 0) && (negb (Z.rem year 100 =? 0) || (Z.rem year 400 =? 0)).

Definition EFAULT : Z := 14.
Definition EINVAL : Z := 22.

(** ** The time zone *)

(** [_current_timezone] is a byte with a sign. *)
Definition tz_set (tz : Z) : Z := sext 8 tz.
Definition tz_get (_current_timezone : Z) : Z := _current_timezone.
Definition tz_is_dst : Z := 0.

(** ** gmtime_r *)

Fixpoint year_loop (fuel : nat) (i work : Z) : outcome (Z * Z) :=
  match fuel with
  | O => Undef "the loop does not end"
  | S fuel' =>
      let k := if __isleap i then 366 else 365 in
      if k <=? work then i ← as_int (i + 1); year_loop fuel' i (work - k) else Ok (i, work)
  end.

(** [for (i = 11; i && (__spm[i] > work); --i);] *)
Fixpoint month_loop (i : nat) (work : Z) : outcome Z :=
  match i with
  | O => Ok 0
  | S i' => d ← spm (Z.of_nat i); if work <? d then month_loop i' work else Ok (Z.of_nat i)
  end.

(** The time is read before the pointers are checked; [None] with the error number if the
    result has no place. *)
Definition gmtime_r (timep : option Z) (r : bool) : outcome (option tm * option Z) :=
  match timep with
  | None => Undef "*timep"
  | Some t =>
      let work := s32 (Z.rem t SPD) in
      if negb r then Ok (None, Some EFAULT)
      else
        let sec := Z.rem work 60 in
        let work := Z.quot work 60 in
        let min := Z.rem work 60 in
        let hour := Z.quot work 60 in
        let work := s32 (Z.quot t SPD) in
        wday ← as_int (4 + work);
        '(i, work) ← year_loop (S (Z.to_nat (Z.quot work 365))) 1970 work;
        let year := i - 1900 in
        let yday := work in
        let '(mday, work) := if __isleap i && (58 <? work) then (if work =? 59 then 2 else 1, work - 1) else (1, work) in
        i ← month_loop 11 work;
        d ← spm i;
        Ok (Some {| tm_sec := sec; tm_min := min; tm_hour := hour; tm_mday := mday + (work - d); tm_mon := i; tm_year := year;
                    tm_wday := Z.rem wday 7; tm_yday := yday; tm_isdst := tz_is_dst |}, None)
  end.
Definition gmtime (t : option Z) : outcome (option tm * option Z) := gmtime_r t true.

Section Time.
Variable wt : Z.

(** A value of type [time_t]. *)
Definition as_time (x : Z) : outcome Z := if bool_decide (in_s wt x) then Ok x else Undef "signed overflow".

Definition localtime_r (_current_timezone : Z) (t : option Z) (r : bool) : outcome (option tm * option Z) :=
  match t with
  | None => Undef "*t"
  | Some t => local_tz ← as_time (t + tz_get _current_timezone * 3600); gmtime_r (Some local_tz) r
  end.
Definition localtime (_current_timezone : Z) (t : option Z) : outcome (option tm * option Z) := localtime_r _current_timezone t true.

(** ** timegm *)

(** [while (t->tm_mday > __spm[1 + t->tm_mon])] *)
Fixpoint mday_loop (fuel : nat) (t : tm) : outcome tm :=
  match fuel with
  | O => Undef "the loop does not end"
  | S fuel' =>
      d ← spm (1 + tm_mon t);
      if d <? tm_mday t then
        t ← (if tm_mon t =? 1 then y ← as_int (tm_year t + 1900); Ok (if __isleap y then {t with tm_mday ::= (fun x => x - 1)} else t) else Ok t);
        d ← spm (tm_mon t);
        let t := {t with tm_mday ::= (fun x => x - d)} in
        let t := {t with tm_mon ::= (fun x => x + 1)} in
        t ← (if 11 <? tm_mon t then y ← as_int (tm_year t + 1); Ok {{t with tm_mon := 0} with tm_year := y} else Ok t);
        mday_loop fuel' t
      else Ok t
  end.

(** Carrying the seconds, minutes, hours and months into the next larger field. *)
Definition carry (t : tm) : outcome tm :=
  t ← (if 60 <? tm_sec t then m ← as_int (tm_min t + Z.quot (tm_sec t) 60); Ok {{t with tm_min := m} with tm_sec := Z.rem (tm_sec t) 60} else Ok t);
  t ← (if 60 <=? tm_min t then h ← as_int (tm_hour t + Z.quot (tm_min t) 60); Ok {{t with tm_hour := h} with tm_min := Z.rem (tm_min t) 60} else Ok t);
  t ← (if 24 <=? tm_hour t then d ← as_int (tm_mday t + Z.quot (tm_hour t) 24); Ok {{t with tm_mday := d} with tm_hour := Z.rem (tm_hour t) 24} else Ok t);
  (if 12 <=? tm_mon t then y ← as_int (tm_year t + Z.quot (tm_mon t) 12); Ok {{t with tm_year := y} with tm_mon := Z.rem (tm_mon t) 12} else Ok t).

(** Days in the years since 1970. *)
Definition year_days (years : Z) : Z :=
  let day := years * 365 + Z.quot (years + 1) 4 in
  if 131 <=? years then
    let years := Z.quot (years - 131) 100 in
    let day := day - (Z.shiftr years 2 * 3 + 1) in
    let years := Z.land years 3 in
    day - (if years =? 3 then years - 1 else years)
  else day.

(** The changed structure, the time and the error number. *)
Definition timegm (t : option tm) : outcome (option tm * Z * option Z) :=
  match t with
  | None => Ok (None, -1, Some EFAULT)
  | Some t =>
      years ← as_time (tm_year t - 70);
      t ← carry t;
      t ← mday_loop (S (S (2 * Z.to_nat (tm_mday t)))) t;
      if tm_year t <? 70 then Ok (Some t, -1, Some EINVAL)
      else
        _ ← as_time (years * 365 + Z.quot (years + 1) 4);
        day ← as_time (year_days years);
        d ← spm (tm_mon t);
        yday ← as_int (d + tm_mday t); yday ← as_int (yday - 1);
        y ← as_int (tm_year t + 1900);
        yday ← as_int (yday + (if __isleap y && (1 <? tm_mon t) then 1 else 0));
        let t := {t with tm_yday := yday} in
        day ← as_time (day + yday);
        wday ← as_time (day + 4);
        let t := {t with tm_wday := s32 (Z.rem wday 7)} in
        r ← as_time (day * 24); r ← as_time (r + tm_hour t);
        r ← as_time (r * 60); r ← as_time (r + tm_min t);
        r ← as_time (r * 60); r ← as_time (r + tm_sec t);
        Ok (Some t, r, None)
  end.

Definition mktime (_current_timezone : Z) (t : option tm) : outcome (option tm * Z * option Z) :=
  '(t, timestamp, e) ← timegm t;
  timestamp ← as_time (timestamp - 3600 * tz_get _current_timezone);
  Ok (t, timestamp, e).

(** ** asctime_r *)

Definition days : list Z := map Z.of_nat [83; 117; 110; 32; 77; 111; 110; 32; 84; 117; 101; 32; 87; 101; 100; 32; 84; 104; 117; 32; 70; 114; 105; 32; 83; 97; 116; 32]%nat.
Definition months : list Z := map Z.of_nat
  [74; 97; 110; 32; 70; 101; 98; 32; 77; 97; 114; 32; 65; 112; 114; 32; 77; 97; 121; 32; 74; 117; 110; 32;
   74; 117; 108; 32; 65; 117; 103; 32; 83; 101; 112; 32; 79; 99; 116; 32; 78; 111; 118; 32; 68; 101; 99; 32]%nat.

Definition num2str (i : Z) : list Z := [u8 (Z.quot i 10 + 48); u8 (Z.rem i 10 + 48)].

(** [x << 2] for an [int]. *)
Definition shl2 (x : Z) : outcome Z := if x <? 0 then Undef "x << 2" else as_int (x * 4).

(** The text of 26 bytes; a day or a month outside the tables gives the first ones and the
    year 2000. *)
Definition asctime_r (t : option tm) (buf : bool) : outcome (option (list Z) * option Z) :=
  match t, buf with
  | Some t, true =>
      w ← shl2 (tm_wday t);
      bad ← (if Z.of_nat (length days) <=? w then Ok true else m ← shl2 (tm_mon t); Ok (Z.of_nat (length months) <=? m));
      let word (l : list Z) i := take 4 (drop (Z.to_nat (i * 4)) l) in
      year ← (if bad then Ok 2000 else as_int (tm_year t + 1900));
      let mday := match num2str (tm_mday t) with c :: l => (if c =? 48 then 32 else c) :: l | [] => [] end in
      Ok (Some (word days (if bad : bool then 0 else tm_wday t) ++ word months (if bad then 0 else tm_mon t) ++ mday ++ [32] ++
                num2str (tm_hour t) ++ [58] ++ num2str (tm_min t) ++ [58] ++ num2str (tm_sec t) ++ [32] ++
                num2str (Z.quot year 100) ++ num2str (Z.rem year 100) ++ [10; 0]), None)
  | _, _ => Ok (None, Some EFAULT)
  end.
Definition asctime (t : option tm) : outcome (option (list Z) * option Z) := asctime_r t true.

Definition ctime_r (_current_timezone : Z) (t : option Z) (result : bool) : outcome (option (list Z) * option Z) :=
  '(r, _) ← localtime_r _current_timezone t true; asctime_r r result.
Definition ctime (_current_timezone : Z) (t : option Z) : outcome (option (list Z) * option Z) :=
  '(r, _) ← localtime _current_timezone t; asctime r.
End Time.

(** ** The calendar *)

(** Leap years among the years 1 to [n]. *)
Definition leaps (n : Z) : Z := n / 4 - n / 100 + n / 400.
(** Days from 1 January 1970 to 1 January of a year. *)
Definition days_before_year (y : Z) : Z := 365 * (y - 1970) + leaps (y - 1) - leaps 1969.
Definition is_leap (y : Z) : bool := (y mod 4 =? 0) && (negb (y mod 100 =? 0) || (y mod 400 =? 0)).
Definition days_before_month (leap : bool) (mon : Z) : Z := default 0 (zlookup __spm mon) + (if leap && (1 <? mon) then 1 else 0).
Definition days_of_date (y mon mday : Z) : Z := days_before_year y + days_before_month (is_leap y) mon + mday - 1.
Definition month_days (leap : bool) (mon : Z) : Z := days_before_month leap (mon + 1) - days_before_month leap mon.

(** A date and a time of day, of a year that is an [int] when counted from 0. *)
Definition tm_ok (t : tm) : Prop :=
  0 <= tm_sec t < 60 /\ 0 <= tm_min t < 60 /\ 0 <= tm_hour t < 24 /\ 0 <= tm_mon t < 12 /\ 70 <= tm_year t < 2 ^ 31 - 1900 /\
  1 <= tm_mday t <= month_days (is_leap (tm_year t + 1900)) (tm_mon t).

(** Seconds since 1 January 1970. *)
Definition seconds_of (t : tm) : Z :=
  ((days_of_date (tm_year t + 1900) (tm_mon t) (tm_mday t) * 24 + tm_hour t) * 60 + tm_min t) * 60 + tm_sec t.

Lemma div_step n d : 0 < d -> n / d - (n - 1) / d = if n mod d =? 0 then 1 else 0.
Proof.
  intros Hd. pose proof (Z.div_mod n d ltac:(lia)). pose proof (Z.mod_pos_bound n d Hd). destruct (Z.eqb_spec (n mod d) 0) as [E|E].
  - assert ((n - 1) / d = n / d - 1) as ->; [|lia]. symmetry. apply (Z.div_unique _ _ _ (d - 1)); lia.
  - assert ((n - 1) / d = n / d) as ->; [|lia]. symmetry. apply (Z.div_unique _ _ _ (n mod d - 1)); lia.
Qed.

Lemma isleap_spec y : 0 <= y -> __isleap y = is_leap y.
Proof. intros Hy. unfold __isleap, is_leap. by rewrite !Z.rem_mod_nonneg by lia. Qed.

Lemma leap_mods y : (y mod 400 = 0 -> y mod 100 = 0) /\ (y mod 100 = 0 -> y mod 4 = 0).
Proof. split; intros H; Z.to_euclidean_division_equations; lia. Qed.

Lemma days_before_next y : days_before_year (y + 1) = days_before_year y + if is_leap y then 366 else 365.
Proof.
  unfold days_before_year, leaps, is_leap. replace (y + 1 - 1) with y by lia.
  pose proof (div_step y 4 ltac:(lia)). pose proof (div_step y 100 ltac:(lia)). pose proof (div_step y 400 ltac:(lia)).
  pose proof (leap_mods y) as [L1 L2].
  destruct (Z.eqb_spec (y mod 4) 0), (Z.eqb_spec (y mod 100) 0), (Z.eqb_spec (y mod 400) 0); cbn [negb andb orb]; lia.
Qed.

Lemma days_before_lower y : 1970 <= y -> 365 * (y - 1970) <= days_before_year y.
Proof. intros Hy. unfold days_before_year, leaps. Z.to_euclidean_division_equations. lia. Qed.

Lemma year_loop_run fuel i work :
  1970 <= i -> 0 <= work -> work < 365 * Z.of_nat fuel -> i + Z.of_nat fuel < 2 ^ 31 ->
  exists y w, year_loop fuel i work = Ok (y, w) /\ i <= y /\ days_before_year y + w = days_before_year i + work /\
    0 <= w < (if is_leap y then 366 else 365).
Proof.
  revert i work. induction fuel as [|fuel IH]; intros i work Hi Hw Hf Hm; [lia|]. cbn [year_loop]. rewrite isleap_spec by lia.
  destruct (Z.leb_spec (if is_leap i then 366 else 365) work) as [Hle|Hgt].
  - rewrite as_int_ok by (unfold in_s; lia). cbn [mbind outcome_bind].
    destruct (IH (i + 1) (work - if is_leap i then 366 else 365)) as (y & w & -> & Hy & E & Hr); [lia|lia|destruct (is_leap i); lia|lia|].
    exists y, w. split; [done|]. split; [lia|]. split; [|done]. rewrite E, days_before_next. lia.
  - exists i, work. split; [done|]. split; [lia|]. split; [done|]. done.
Qed.

(** The month of a day of the year, as the loop finds it. *)
Definition cum (i : Z) : Z := default 0 (zlookup __spm i).

Lemma spm_run i : 0 <= i <= 12 -> spm i = Ok (cum i).
Proof.
  intros Hi. unfold spm, cum. destruct (zlookup __spm i) as [d|] eqn:E; [done|]. unfold zlookup in E. destruct (Z.ltb_spec i 0); [lia|].
  apply lookup_ge_None in E. cbn in E. lia.
Qed.

Lemma month_loop_run i work : (i <= 11)%nat -> 0 <= work < cum (Z.of_nat i + 1) ->
  exists mon, month_loop i work = Ok mon /\ 0 <= mon < 12 /\ cum mon <= work < cum (mon + 1).
Proof.
  induction i as [|i IH]; intros Hi Hw; cbn [month_loop].
  - exists 0. split; [done|]. split; [lia|]. change (cum (Z.of_nat 0 + 1)) with 31 in Hw. change (cum 0) with 0. change (cum (0 + 1)) with 31. lia.
  - rewrite spm_run by lia. cbn [mbind outcome_bind]. destruct (Z.ltb_spec work (cum (Z.of_nat (S i)))) as [Hlt|Hge].
    + apply IH; [lia|]. replace (Z.of_nat i + 1) with (Z.of_nat (S i)) by lia. lia.
    + exists (Z.of_nat (S i)). split; [done|]. split; [lia|]. lia.
Qed.

Ltac months mon H := assert (mon = 0 \/ mon = 1 \/ mon = 2 \/ mon = 3 \/ mon = 4 \/ mon = 5 \/ mon = 6 \/ mon = 7 \/ mon = 8 \/ mon = 9 \/ mon = 10 \/ mon = 11) as H by lia.

(** Evaluates the table at known months. *)
Ltac eval_months :=
  repeat match goal with
  | |- context [cum ?i] => let v := eval vm_compute in (cum i) in change (cum i) with v
  | H : context [cum ?i] |- _ => let v := eval vm_compute in (cum i) in change (cum i) with v in H
  | |- context [1 <? ?i] => let v := eval vm_compute in (1 <? i) in change (1 <? i) with v
  end.

(** gmtime_r gives a date and a time of day, those of the given second. *)
Lemma gmtime_run t : 0 <= t < 86400 * (2 ^ 31 - 4) ->
  exists r, gmtime_r (Some t) true = Ok (Some r, None) /\ tm_ok r /\ seconds_of r = t /\ 
    tm_wday r = (t / 86400 + 4) mod 7 /\ tm_yday r = days_before_month (is_leap (tm_year r + 1900)) (tm_mon r) + tm_mday r - 1 /\ tm_isdst r = 0.
Proof.
  intros Ht. unfold gmtime_r. change SPD with 86400. rewrite (Z.rem_mod_nonneg t 86400), (Z.quot_div_nonneg t 86400) by lia.
  pose proof (Z.mod_pos_bound t 86400 ltac:(lia)) as Hm. pose proof (Z.div_mod t 86400 ltac:(lia)) as Hdm.
  assert (0 <= t / 86400 < 2 ^ 31 - 4) as Hd by (split; [apply Z.div_pos; lia|apply Z.div_lt_upper_bound; lia]).
  set (day := t / 86400) in *. set (s := t mod 86400) in *. clearbody day s.
  rewrite (sext_small 32 s), (sext_small 32 day) by (unfold in_s; lia). cbn [negb]. rewrite as_int_ok by (unfold in_s; lia). cbn [mbind outcome_bind].
  pose proof (Z.quot_div_nonneg day 365 ltac:(lia) ltac:(lia)) as Hq. pose proof (Z.div_mod day 365 ltac:(lia)). pose proof (Z.mod_pos_bound day 365 ltac:(lia)).
  destruct (year_loop_run (S (Z.to_nat (Z.quot day 365))) 1970 day) as (y & w & Ey & Hy & Edays & Hwk); [lia|lia|lia|lia|]. rewrite Ey. cbn [mbind outcome_bind].
  rewrite isleap_spec by lia. change (days_before_year 1970) with 0 in Edays.
  assert (forall (leap : bool) w, 0 <= w < (if leap then 366 else 365) ->
    exists mon mday work, (if leap && (58 <? w) then (if w =? 59 then 2 else 1, w - 1) else (1, w)) = (mday, work) /\
      month_loop 11 work = Ok mon /\ 0 <= mon < 12 /\ spm mon = Ok (cum mon) /\
      1 <= mday + (work - cum mon) <= month_days leap mon /\ w = days_before_month leap mon + (mday + (work - cum mon)) - 1) as Hmon.
  { clear. intros leap w Hw. set (work := if leap && (58 <? w) then w - 1 else w).
    assert (0 <= work < 365) as Hwork by (unfold work; destruct leap; cbn [andb]; [destruct (Z.ltb_spec 58 w)|]; lia).
    destruct (month_loop_run 11 work) as (mon & E & Hm & Hc); [lia|done|]. exists mon, (if leap && (58 <? w) then if w =? 59 then 2 else 1 else 1), work.
    split; [by unfold work; destruct (leap && (58 <? w))|]. split; [done|]. split; [done|]. split; [apply spm_run; lia|].
    unfold month_days, days_before_month. fold (cum mon) (cum (mon + 1)). months mon H.
    repeat destruct H as [->|H]; try subst mon; eval_months; unfold work in *; destruct leap; cbn [andb] in *;
      try (destruct (Z.ltb_spec 58 w)); try (destruct (Z.eqb_spec w 59)); lia. }
  destruct (Hmon (is_leap y) w Hwk) as (mon & mday & work & Eif & Em & Hmr & Espm & Hmd & Hwd). rewrite Eif, Em. cbn [mbind outcome_bind]. rewrite Espm. cbn [mbind outcome_bind].
  eexists. split; [reflexivity|]. unfold tm_ok, seconds_of, days_of_date. cbn [tm_sec tm_min tm_hour tm_mday tm_mon tm_year tm_wday tm_yday tm_isdst].
  replace (y - 1900 + 1900) with y by lia. assert (0 <= s / 60) by (apply Z.div_pos; lia).
  rewrite (Z.rem_mod_nonneg s 60), (Z.quot_div_nonneg s 60), (Z.rem_mod_nonneg (s / 60) 60), (Z.quot_div_nonneg (s / 60) 60), (Z.rem_mod_nonneg (4 + day) 7) by lia.
  split; [|split; [|split; [f_equal; lia|split; [lia|done]]]].
  - pose proof (days_before_lower y ltac:(lia)). change (2 ^ 31) with 2147483648 in *. repeat split; try lia; Z.to_euclidean_division_equations; lia.
  - assert (days_before_year y + days_before_month (is_leap y) mon + (mday + (work - cum mon)) - 1 = day) as -> by lia. clear -Hdm Hm. Z.to_euclidean_division_equations. lia.
Qed.

(** The days of the years before, as timegm counts them. *)
Lemma year_days_spec y : 0 <= y -> year_days y = days_before_year (1970 + y).
Proof.
  intros Hy. unfold year_days, days_before_year, leaps. rewrite Z.quot_div_nonneg by lia. change (1969 / 4 - 1969 / 100 + 1969 / 400) with 477.
  assert ((1970 + y - 1) / 4 = 492 + (y + 1) / 4) as -> by (rewrite <- (Z.div_add_l 492 4 (y + 1)) by lia; f_equal; lia).
  destruct (Z.leb_spec 131 y) as [Hc|Hc].
  - rewrite Z.quot_div_nonneg by lia. set (c := (y - 131) / 100).
    assert (Z.land c 3 = c mod 4) as -> by exact (Z.land_ones c 2 ltac:(lia)). rewrite Z.shiftr_div_pow2 by lia. change (2 ^ 2) with 4.
    assert ((1970 + y - 1) / 100 = c + 21) as -> by (unfold c; rewrite <- (Z.div_add (y - 131) 21 100) by lia; f_equal; lia).
    assert ((1970 + y - 1) / 400 = (c + 1) / 4 + 5) as ->.
    { unfold c. change 400 with (100 * 4). rewrite <- Z.div_div by lia. replace (1970 + y - 1) with (y - 131 + 21 * 100) by lia. rewrite Z.div_add by lia.
      replace ((y - 131) / 100 + 21) with ((y - 131) / 100 + 1 + 5 * 4) by lia. by rewrite Z.div_add by lia. }
    clearbody c. destruct (Z.eqb_spec (c mod 4) 3); Z.to_euclidean_division_equations; lia.
  - Z.to_euclidean_division_equations. lia.
Qed.

Lemma as_time_ok wt x : in_s wt x -> as_time wt x = Ok x.
Proof. intros H. unfold as_time. by rewrite bool_decide_eq_true_2. Qed.

Lemma month_days_bound leap mon mday : 0 <= mon < 12 -> 1 <= mday <= month_days leap mon -> 
  mday <= cum (1 + mon) /\ 0 <= days_before_month leap mon + mday - 1 < 366 /\ 0 <= cum mon + mday - 1 < 366.
Proof.
  intros Hm. unfold month_days, days_before_month. fold (cum mon) (cum (mon + 1)). months mon H.
  repeat destruct H as [->|H]; try subst mon; eval_months; destruct leap; cbn [andb]; lia.
Qed.

Lemma carry_ok t : tm_ok t -> carry t = Ok t.
Proof.
  intros (H1 & H2 & H3 & H4 & _). unfold carry. rewrite (proj2 (Z.ltb_ge 60 _)) by lia. cbn [mbind outcome_bind]. rewrite (proj2 (Z.leb_gt 60 _)) by lia. cbn [mbind outcome_bind].
  rewrite (proj2 (Z.leb_gt 24 _)) by lia. cbn [mbind outcome_bind]. by rewrite (proj2 (Z.leb_gt 12 _)) by lia.
Qed.

(** timegm counts the seconds of a date. *)
Lemma timegm_run wt t : wt = 32 \/ wt = 64 -> tm_ok t -> seconds_of t < 2 ^ (wt - 1) ->
  exists t', timegm wt (Some t) = Ok (Some t', seconds_of t, None) /\
    t' = {{t with tm_yday := days_before_month (is_leap (tm_year t + 1900)) (tm_mon t) + tm_mday t - 1}
            with tm_wday := (seconds_of t / 86400 + 4) mod 7}.
Proof.
  intros Hwt Hok Hs. unfold timegm. pose proof Hok as (H1 & H2 & H3 & H4 & H5 & H6). assert (2 ^ (wt - 1) >= 2 ^ 31) as Hw by (destruct Hwt as [-> | ->]; done).
  rewrite as_time_ok by (unfold in_s; lia). cbn [mbind outcome_bind]. rewrite carry_ok by done. cbn [mbind outcome_bind].
  destruct (month_days_bound _ _ _ H4 H6) as (M1 & M2 & M3). cbn [mday_loop]. rewrite (spm_run (1 + tm_mon t)) by lia. cbn [mbind outcome_bind].
  rewrite (proj2 (Z.ltb_ge (cum (1 + tm_mon t)) (tm_mday t))) by lia. cbn [mbind outcome_bind]. rewrite (proj2 (Z.ltb_ge (tm_year t) 70)) by lia.
  rewrite (as_int_ok (tm_year t + 1900)) by (unfold in_s; lia). rewrite year_days_spec, (spm_run (tm_mon t)) by lia. replace (1970 + (tm_year t - 70)) with (tm_year t + 1900) by lia.
  unfold seconds_of, days_of_date in *. set (leap := is_leap (tm_year t + 1900)) in *. set (Y := days_before_year (tm_year t + 1900)) in *.
  assert (365 * (tm_year t - 70) <= Y) as HY.
  { unfold Y. pose proof (days_before_lower (tm_year t + 1900)). lia. }
  pose proof (Z.quot_div_nonneg (tm_year t - 70 + 1) 4 ltac:(lia) ltac:(lia)) as Hq. rewrite Hq.
  assert (0 <= (tm_year t - 70 + 1) / 4 <= tm_year t - 70) as Hq4 by (clear -H5; Z.to_euclidean_division_equations; lia).
  change (cum (tm_mon t)) with (cum (tm_mon t)). unfold days_before_month in *. fold (cum (tm_mon t)) in *.
  set (e := if leap && (1 <? tm_mon t) then 1 else 0) in *. set (yd := cum (tm_mon t) + e + tm_mday t - 1) in *.
  replace (Y + (cum (tm_mon t) + e) + tm_mday t - 1) with (Y + yd) in * by (unfold yd; lia).
  clearbody Y.
  rewrite as_time_ok by (unfold in_s; lia). cbn [mbind outcome_bind]. rewrite as_time_ok by (unfold in_s; lia). cbn [mbind outcome_bind].
  assert (0 <= cum (tm_mon t) + tm_mday t - 1 < 366 /\ 0 <= e <= 1) as [He1 He2].
  { split; [done|unfold e; by destruct (leap && (1 <? tm_mon t))]. }
  do 2 (rewrite as_int_ok by (unfold in_s; lia); cbn [mbind outcome_bind]). rewrite isleap_spec by lia. fold leap. fold e.
  replace (cum (tm_mon t) + tm_mday t - 1 + e) with yd by (unfold yd; lia). clearbody yd.
  rewrite as_int_ok by (unfold in_s; lia). cbn [mbind outcome_bind]. 
  assert (forall day, day = Y + yd -> forall wd, let t1 := {{t with tm_yday := yd} with tm_wday := wd} in tm_hour t1 = tm_hour t /\ tm_min t1 = tm_min t /\ tm_sec t1 = tm_sec t) as Hf by done.
  do 3 (rewrite as_time_ok by (unfold in_s; lia); cbn [mbind outcome_bind]).
  destruct (Hf _ eq_refl (s32 (Z.rem (Y + yd + 4) 7))) as (-> & -> & ->).
  do 5 (rewrite as_time_ok by (unfold in_s; lia); cbn [mbind outcome_bind]).
  eexists. split; [reflexivity|].
  assert ((((Y + yd) * 24 + tm_hour t) * 60 + tm_min t) * 60 + tm_sec t = (Y + yd) * 86400 + ((tm_hour t * 60 + tm_min t) * 60 + tm_sec t)) as -> by lia.
  rewrite Z.div_add_l, (Z.div_small _ 86400) by lia. rewrite Z.rem_mod_nonneg by lia. pose proof (Z.mod_pos_bound (Y + yd + 4) 7 ltac:(lia)).
  rewrite (sext_small 32) by (unfold in_s; lia). by rewrite Z.add_0_r.
Qed.
