(* ===== verification/RtAvl.v ===== *)
(** * RT-Thread: the AVL trees of components/utilities/libadt

    Nodes are records linked by pointers in both directions, each with the height of its
    subtree; the library rebalances and removes, the caller searches and links.  A pointer
    is an address, [None] is NULL; a pointer to a child pointer is a [place].  [w] is the
    width of [size_t].  A loop along the tree has fuel. *)
From S2P Require Import Prelude Outcome.
#[local] Open Scope string_scope.
#[local] Open Scope list_scope.
#[local] Open Scope Z_scope.

Record util_avl_struct := { avl_left : option Z; avl_right : option Z; parent : option Z; height : Z }.
Record util_avl_root := { avl_nodes : gmap Z util_avl_struct; root_node : option Z }.

(** [struct util_avl_struct **] *)
Inductive place := RootPlace | LeftPlace (p : Z) | RightPlace (p : Z).

Abbreviation An := (ST util_avl_root).

Definition get_node (x : Z) : An util_avl_struct := fun s =>
  match avl_nodes s !! x with Some n => Ok (n, s) | None => Undef "not a node" end.
Definition set_node (x : Z) (f : util_avl_struct -> util_avl_struct) : An unit := fun s =>
  match avl_nodes s !! x with Some n => Ok (tt, {s with avl_nodes := <[x := f n]> (avl_nodes s)}) | None => Undef "not a node" end.
Definition set_left (x : Z) (v : option Z) : An unit := set_node x (fun n => {n with avl_left := v}).
Definition set_right (x : Z) (v : option Z) : An unit := set_node x (fun n => {n with avl_right := v}).
Definition set_parent (x : Z) (v : option Z) : An unit := set_node x (fun n => {n with parent := v}).
Definition set_height (x v : Z) : An unit := set_node x (fun n => {n with height := v}).
Definition when_node (o : option Z) (f : Z -> An unit) : An unit := match o with Some x => f x | None => mret tt end.
(** A pointer that is followed without a check. *)
Definition the (o : option Z) : An Z := match o with Some x => mret x | None => undef "null pointer" end.

(** [*nodeplace = v] *)
Definition store_place (pl : place) (v : option Z) : An unit :=
  match pl with
  | RootPlace => modify (fun s => {s with root_node := v})
  | LeftPlace p => set_left p v
  | RightPlace p => set_right p v
  end.

Section Avl.
Variable w : Z.
Abbreviation uw x := (wrap w x).

Definition HEIGHT_OF (node : option Z) : An Z := match node with Some x => n ← get_node x; mret (height n) | None => mret 0 end.

(** The place that points to a node. *)
Definition NODE_PLACE (node p : Z) : An place :=
  n ← get_node p; mret (if bool_decide (avl_left n = Some node) then LeftPlace p else RightPlace p).
Definition place_of (node : Z) : An place :=
  n ← get_node node; match parent n with Some p => NODE_PLACE node p | None => mret RootPlace end.

Definition rotate_right (axis lchild : Z) (lrchild : option Z) (nodeplace : place) (lrheight : Z) : An unit :=
  set_left axis lrchild ;;
  set_right lchild (Some axis) ;;
  set_height axis (uw (lrheight + 1)) ;;
  a ← get_node axis; set_height lchild (uw (height a + 1)) ;;
  a ← get_node axis; set_parent lchild (parent a) ;;
  set_parent axis (Some lchild) ;;
  store_place nodeplace (Some lchild) ;;
  when_node lrchild (fun lr => set_parent lr (Some axis)).

Definition midmount_right (axis lchild lrchild : Z) (nodeplace : place) (lrheight : Z) : An unit :=
  n ← get_node lrchild; set_right lchild (avl_left n) ;;
  n ← get_node lrchild; set_left axis (avl_right n) ;;
  set_left lrchild (Some lchild) ;;
  set_right lrchild (Some axis) ;;
  l ← get_node lchild; set_height lrchild (height l) ;;
  set_height lchild lrheight ;;
  set_height axis lrheight ;;
  a ← get_node axis; set_parent lrchild (parent a) ;;
  set_parent lchild (Some lrchild) ;;
  set_parent axis (Some lrchild) ;;
  l ← get_node lchild; when_node (avl_right l) (fun x => set_parent x (Some lchild)) ;;
  a ← get_node axis; when_node (avl_left a) (fun x => set_parent x (Some axis)) ;;
  store_place nodeplace (Some lrchild).

Definition rotate_left (axis rchild : Z) (rlchild : option Z) (nodeplace : place) (rlheight : Z) : An unit :=
  set_right axis rlchild ;;
  set_left rchild (Some axis) ;;
  set_height axis (uw (rlheight + 1)) ;;
  a ← get_node axis; set_height rchild (uw (height a + 1)) ;;
  a ← get_node axis; set_parent rchild (parent a) ;;
  set_parent axis (Some rchild) ;;
  store_place nodeplace (Some rchild) ;;
  when_node rlchild (fun rl => set_parent rl (Some axis)).

Definition midmount_left (axis rchild rlchild : Z) (nodeplace : place) (rlheight : Z) : An unit :=
  n ← get_node rlchild; set_left rchild (avl_right n) ;;
  n ← get_node rlchild; set_right axis (avl_left n) ;;
  set_right rlchild (Some rchild) ;;
  set_left rlchild (Some axis) ;;
  r ← get_node rchild; set_height rlchild (height r) ;;
  set_height rchild rlheight ;;
  set_height axis rlheight ;;
  a ← get_node axis; set_parent rlchild (parent a) ;;
  set_parent rchild (Some rlchild) ;;
  set_parent axis (Some rlchild) ;;
  r ← get_node rchild; when_node (avl_left r) (fun x => set_parent x (Some rchild)) ;;
  a ← get_node axis; when_node (avl_right a) (fun x => set_parent x (Some axis)) ;;
  store_place nodeplace (Some rlchild).

(** One round of the loop at [axis]: the next axis, [None] if the loop ends. *)
Definition rebalance_round (axis : Z) : An (option Z) :=
  a ← get_node axis;
  let lchild := avl_left a in
  let rchild := avl_right a in
  nodeplace ← place_of axis;
  lh ← HEIGHT_OF lchild; rh ← HEIGHT_OF rchild;
  let lheight := s32 lh in
  let rheight := s32 rh in
  if rheight + 1 <? lheight then
    lchild ← the lchild; l ← get_node lchild;
    let lrchild := avl_right l in
    lrheight ← HEIGHT_OF lrchild; llheight ← HEIGHT_OF (avl_left l);
    if lrheight <=? llheight then
      rotate_right axis lchild lrchild nodeplace lrheight ;; l ← get_node lchild; mret (parent l)
    else
      lrchild ← the lrchild; midmount_right axis lchild lrchild nodeplace lrheight ;; n ← get_node lrchild; mret (parent n)
  else if lheight + 1 <? rheight then
    rchild ← the rchild; r ← get_node rchild;
    let rlchild := avl_left r in
    rlheight ← HEIGHT_OF rlchild; rrheight ← HEIGHT_OF (avl_right r);
    if rlheight <=? rrheight then
      rotate_left axis rchild rlchild nodeplace rlheight ;; r ← get_node rchild; mret (parent r)
    else
      rlchild ← the rlchild; midmount_left axis rchild rlchild nodeplace rlheight ;; n ← get_node rlchild; mret (parent n)
  else
    let height_ := (if lheight <? rheight then rheight else lheight) + 1 in
    if uw height_ =? height a then mret None
    else set_height axis (uw height_) ;; a ← get_node axis; mret (parent a).

Fixpoint rebalance_loop (fuel : nat) (axis : Z) : An unit :=
  match fuel with
  | O => undef "the loop does not end"
  | S fuel' => next ← rebalance_round axis; match next with Some axis => rebalance_loop fuel' axis | None => mret tt end
  end.

Definition util_avl_rebalance (fuel : nat) (node : option Z) : An unit :=
  match node with Some axis => rebalance_loop fuel axis | None => mret tt end.

(** [while (successor->avl_left != NULL)]: the last node and its parent. *)
Fixpoint leftmost (fuel : nat) (sparent successor : Z) : An (Z * Z) :=
  match fuel with
  | O => undef "the loop does not end"
  | S fuel' =>
      n ← get_node successor;
      match avl_left n with Some x => leftmost fuel' successor x | None => mret (sparent, successor) end
  end.

Definition util_avl_remove (fuel : nat) (node : Z) : An unit :=
  s ← get;
  if bool_decide (root_node s = None) then mret tt
  else
    nodeplace ← place_of node;
    n ← get_node node;
    node ← (match avl_right n with
      | None =>
          store_place nodeplace (avl_left n) ;;
          when_node (avl_left n) (fun l => set_parent l (parent n)) ;;
          mret (parent n)
      | Some rchild =>
          r ← get_node rchild;
          match avl_left r with
          | None =>
              store_place nodeplace (Some rchild) ;;
              set_left rchild (avl_left n) ;;
              when_node (avl_left n) (fun l => set_parent l (Some rchild)) ;;
              set_parent rchild (parent n) ;;
              util_avl_rebalance fuel (Some rchild) ;;
              r ← get_node rchild; mret (parent r)
          | Some successor =>
              '(sparent, successor) ← leftmost fuel rchild successor;
              store_place nodeplace (Some successor) ;;
              sn ← get_node successor; set_left sparent (avl_right sn) ;;
              n ← get_node node; set_left successor (avl_left n) ;;
              n ← get_node node; set_right successor (avl_right n) ;;
              sn ← get_node successor; when_node (avl_left sn) (fun x => set_parent x (Some successor)) ;;
              sn ← get_node successor; x ← the (avl_right sn); set_parent x (Some successor) ;;
              sp ← get_node sparent; when_node (avl_left sp) (fun x => set_parent x (Some sparent)) ;;
              n ← get_node node; set_parent successor (parent n) ;;
              util_avl_rebalance fuel (Some sparent) ;;
              mret (Some successor)
          end
      end);
    util_avl_rebalance fuel node.
End Avl.

Definition util_avl_link (new_node : Z) (parent_ : option Z) (nodeplace : place) : An unit :=
  modify (fun s => {s with avl_nodes ::= <[new_node := {| avl_left := None; avl_right := None; parent := parent_; height := 1 |}]> }) ;;
  store_place nodeplace (Some new_node).

(** Down along one side, and up until the node is a child on the other side. *)
Fixpoint go_down (left : bool) (fuel : nat) (x : Z) : An Z :=
  match fuel with
  | O => undef "the loop does not end"
  | S fuel' => n ← get_node x; match (if left then avl_left n else avl_right n) with Some y => go_down left fuel' y | None => mret x end
  end.
Fixpoint go_up (right : bool) (fuel : nat) (x : Z) : An (option Z) :=
  match fuel with
  | O => undef "the loop does not end"
  | S fuel' =>
      n ← get_node x;
      match parent n with
      | None => mret None
      | Some p => pn ← get_node p; if bool_decide ((if right then avl_right pn else avl_left pn) = Some x) then go_up right fuel' p else mret (Some p)
      end
  end.

Definition util_avl_next (fuel : nat) (node : option Z) : An (option Z) :=
  match node with
  | None => mret None
  | Some x => n ← get_node x; match avl_right n with Some r => y ← go_down true fuel r; mret (Some y) | None => go_up true fuel x end
  end.
Definition util_avl_prev (fuel : nat) (node : option Z) : An (option Z) :=
  match node with
  | None => mret None
  | Some x => n ← get_node x; match avl_left n with Some l => y ← go_down false fuel l; mret (Some y) | None => go_up false fuel x end
  end.
Definition util_avl_first (fuel : nat) : An (option Z) :=
  s ← get; match root_node s with Some x => y ← go_down true fuel x; mret (Some y) | None => mret None end.
Definition util_avl_last (fuel : nat) : An (option Z) :=
  s ← get; match root_node s with Some x => y ← go_down false fuel x; mret (Some y) | None => mret None end.
