(* ===== verification/RtAvlFacts.v ===== *)
(** * RT-Thread: the AVL trees stay balanced

    A tree with the stored heights is an inductive [tree], the way from a node to the root
    a list of [frame]s.  The first part does the rebalancing on trees: it restores the
    balance and keeps the order of the nodes.  The second part shows that the code does the
    same to the nodes in memory. *)
From S2P Require Import Prelude Outcome RtAvl.
#[local] Open Scope string_scope.
#[local] Open Scope list_scope.
#[local] Open Scope Z_scope.

Inductive tree := Leaf | Node (l : tree) (x h : Z) (r : tree).

Definition root_of (t : tree) : option Z := match t with Leaf => None | Node _ x _ _ => Some x end.
Definition ht (t : tree) : Z := match t with Leaf => 0 | Node _ _ h _ => h end.
Fixpoint inorder (t : tree) : list Z := match t with Leaf => [] | Node l x _ r => inorder l ++ x :: inorder r end.

(** The heights are right and the tree is balanced. *)
Fixpoint balanced (t : tree) : Prop :=
  match t with
  | Leaf => True
  | Node l _ h r => balanced l /\ balanced r /\ h = Z.max (ht l) (ht r) + 1 /\ ht l <= ht r + 1 /\ ht r <= ht l + 1
  end.

Inductive frame := InLeft (x h : Z) (r : tree) | InRight (l : tree) (x h : Z).
Definition plug (f : frame) (t : tree) : tree := match f with InLeft x h r => Node t x h r | InRight l x h => Node l x h t end.
Definition fill (c : list frame) (t : tree) : tree := foldl (fun t f => plug f t) t c.
Definition frame_node (f : frame) : Z := match f with InLeft x _ _ | InRight _ x _ => x end.
Definition sibling (f : frame) : tree := match f with InLeft _ _ r => r | InRight l _ _ => l end.
Definition frame_height (f : frame) : Z := match f with InLeft _ h _ | InRight _ _ h => h end.
(** The parent of the hole. *)
Definition up (c : list frame) : option Z := match c with [] => None | f :: _ => Some (frame_node f) end.

(** The context is balanced if the tree in the hole has height [h]. *)
Fixpoint ctx_balanced (c : list frame) (h : Z) : Prop :=
  match c with
  | [] => True
  | f :: c => balanced (sibling f) /\ frame_height f = Z.max h (ht (sibling f)) + 1 /\ h <= ht (sibling f) + 1 /\ ht (sibling f) <= h + 1 /\ ctx_balanced c (frame_height f)
  end.

(** One round: the tree at the axis afterwards, and whether the loop ends. *)
Definition fix_node (l : tree) (x h : Z) (r : tree) : tree * bool :=
  if ht r + 1 <? ht l then
    match l with
    | Node ll lx lh lr =>
        if ht lr <=? ht ll then (Node ll lx (ht lr + 1 + 1) (Node lr x (ht lr + 1) r), false)
        else match lr with
             | Node a y _ b => (Node (Node ll lx (ht lr) a) y lh (Node b x (ht lr) r), false)
             | Leaf => (Node l x h r, true)
             end
    | Leaf => (Node l x h r, true)
    end
  else if ht l + 1 <? ht r then
    match r with
    | Node rl rx rh rr =>
        if ht rl <=? ht rr then (Node (Node l x (ht rl + 1) rl) rx (ht rl + 1 + 1) rr, false)
        else match rl with
             | Node a y _ b => (Node (Node l x (ht rl) a) y rh (Node b rx (ht rl) rr), false)
             | Leaf => (Node l x h r, true)
             end
    | Leaf => (Node l x h r, true)
    end
  else let h' := (if ht l <? ht r then ht r else ht l) + 1 in (Node l x h' r, h' =? h).

(** The loop, from the axis [t] up: the whole tree afterwards, and whether it ended before
    the root. *)
Fixpoint climb (c : list frame) (t : tree) : tree * bool :=
  match t with
  | Leaf => (fill c t, true)
  | Node l x h r =>
      let '(t', stop) := fix_node l x h r in
      if stop then (fill c t', true) else match c with [] => (t', false) | f :: c' => climb c' (plug f t') end
  end.
(** The loop, from the parent of [t] up. *)
Definition climb_up (c : list frame) (t : tree) : tree * bool := match c with [] => (t, false) | f :: c => climb c (plug f t) end.

(** The children are balanced in every round of the loop. *)
Fixpoint climbable (c : list frame) (t : tree) : Prop :=
  match t with
  | Leaf => False
  | Node l x h r =>
      balanced l /\ balanced r /\ ht l <= ht r + 2 /\ ht r <= ht l + 2 /\
      forall t', fix_node l x h r = (t', false) -> match c with [] => True | f :: c' => climbable c' (plug f t') end
  end.

Definition climbable_up (c : list frame) (t : tree) : Prop := match c with [] => True | f :: c => climbable c (plug f t) end.

(** The height the context gives to the whole tree, if the hole has height [h]. *)
Definition outer (c : list frame) (h : Z) : Z := from_option frame_height h (last c).
Fixpoint before (c : list frame) : list Z := match c with [] => [] | InLeft _ _ _ :: c => before c | InRight l x _ :: c => before c ++ inorder l ++ [x] end.
Fixpoint after (c : list frame) : list Z := match c with [] => [] | InLeft x _ r :: c => x :: inorder r ++ after c | InRight _ _ _ :: c => after c end.

(** ** The balance *)

Lemma balanced_height t : balanced t -> 0 <= ht t <= Z.of_nat (length (inorder t)).
Proof.
  induction t as [|l IHl x h r IHr]; cbn [balanced ht inorder length]; [lia|]. intros (Hl & Hr & -> & _). specialize (IHl Hl). specialize (IHr Hr).
  rewrite length_app. cbn [length]. lia.
Qed.

Lemma balanced_nonneg t : balanced t -> 0 <= ht t.
Proof. intros Ht. apply balanced_height in Ht. lia. Qed.

(** Both children are balanced and differ by at most 2: the round balances the axis, and
    the height changes as rotations change it. *)
Lemma fix_node_balanced l x h r :
  balanced l -> balanced r -> ht l <= ht r + 2 -> ht r <= ht l + 2 ->
  let '(t', stop) := fix_node l x h r in
  balanced t' /\ inorder t' = inorder l ++ x :: inorder r /\ (stop = true -> ht t' = h) /\
  Z.max (ht l) (ht r) <= ht t' <= Z.max (ht l) (ht r) + 1 /\ (ht l <= ht r + 1 -> ht r <= ht l + 1 -> ht t' = Z.max (ht l) (ht r) + 1).
Proof.
  intros Hl Hr H1 H2. unfold fix_node. pose proof (balanced_nonneg l Hl). pose proof (balanced_nonneg r Hr).
  destruct (Z.ltb_spec (ht r + 1) (ht l)) as [Hc|Hc]; [|destruct (Z.ltb_spec (ht l + 1) (ht r)) as [Hc2|Hc2]].
  - destruct l as [|ll lx lh lr]; [cbn in Hc; lia|]. cbn [balanced ht] in *. destruct Hl as (Bll & Blr & -> & L1 & L2).
    pose proof (balanced_nonneg ll Bll). pose proof (balanced_nonneg lr Blr). destruct (Z.leb_spec (ht lr) (ht ll)).
    + cbn [balanced ht inorder]. rewrite <- !app_assoc. split_and!; try done; try lia.
    + destruct lr as [|a y yh b]; [cbn in *; lia|]. cbn [balanced ht inorder] in *. destruct Blr as (Ba & Bb & -> & A1 & A2). rewrite <- !app_assoc. cbn [app]. rewrite <- !app_assoc. cbn [app].
      split_and!; try done; try lia.
  - destruct r as [|rl rx rh rr]; [cbn in *; lia|]. cbn [balanced ht] in *. destruct Hr as (Brl & Brr & -> & R1 & R2).
    pose proof (balanced_nonneg rl Brl). pose proof (balanced_nonneg rr Brr). destruct (Z.leb_spec (ht rl) (ht rr)).
    + cbn [balanced ht inorder]. rewrite <- !app_assoc. split_and!; try done; try lia.
    + destruct rl as [|a y yh b]; [cbn in *; lia|]. cbn [balanced ht inorder] in *. destruct Brl as (Ba & Bb & -> & A1 & A2). rewrite <- !app_assoc. cbn [app]. rewrite <- ?app_assoc. cbn [app].
      split_and!; try done; try lia.
  - cbn [balanced ht inorder]. destruct (Z.ltb_spec (ht l) (ht r)); split_and!; try done; try lia.
Qed.

Lemma inorder_fill c t : inorder (fill c t) = before c ++ inorder t ++ after c.
Proof.
  revert t. induction c as [|f c IH]; intros t; cbn [fill foldl before after app]; [by rewrite app_nil_r|]. unfold fill in IH. rewrite IH.
  destruct f; cbn [plug inorder]; rewrite <- !app_assoc; cbn [app]; rewrite <- ?app_assoc; done.
Qed.

Lemma fix_node_inorder l x h r : inorder (fix_node l x h r).1 = inorder l ++ x :: inorder r.
Proof.
  unfold fix_node. case_match; [|case_match]; [destruct l as [|ll lx lh lr]; [done|]|destruct r as [|rl rx rh rr]; [done|]|done].
  - case_match; [|destruct lr]; cbn [fst inorder]; rewrite <- ?app_assoc; cbn [app]; rewrite <- ?app_assoc; done.
  - case_match; [|destruct rl]; cbn [fst inorder]; rewrite <- ?app_assoc; cbn [app]; rewrite <- ?app_assoc; done.
Qed.

Lemma climb_inorder c t : inorder (climb c t).1 = before c ++ inorder t ++ after c.
Proof.
  revert t. induction c as [|f c IH]; intros [|l x h r]; cbn [climb]; try apply inorder_fill.
  - pose proof (fix_node_inorder l x h r) as Hi. destruct (fix_node l x h r) as [t' []]; cbn [fst] in *; rewrite ?inorder_fill, Hi; cbn; by rewrite ?app_nil_r.
  - pose proof (fix_node_inorder l x h r) as Hi. destruct (fix_node l x h r) as [t' []]; cbn [fst] in *; [rewrite inorder_fill, Hi; done|]. rewrite IH.
    destruct f; cbn [plug inorder before after]; rewrite Hi, <- !app_assoc; cbn [app inorder]; rewrite <- ?app_assoc; done.
Qed.

Lemma climb_up_inorder c t : inorder (climb_up c t).1 = before c ++ inorder t ++ after c.
Proof.
  destruct c as [|f c]; cbn [climb_up]; [by rewrite app_nil_r|]. rewrite climb_inorder. destruct f; cbn [plug inorder before after]; rewrite <- ?app_assoc; cbn [app]; rewrite <- ?app_assoc; done.
Qed.

Lemma outer_cons f c h : outer (f :: c) h = outer c (frame_height f).
Proof. unfold outer. rewrite last_cons. by destruct (last c). Qed.

Lemma fill_balanced c t : ctx_balanced c (ht t) -> balanced t -> balanced (fill c t) /\ ht (fill c t) = outer c (ht t).
Proof.
  revert t. induction c as [|f c IH]; intros t Hc Ht; [done|]. cbn in Hc. destruct Hc as (Hs & Hh & H1 & H2 & Hc). rewrite outer_cons. cbn [fill foldl].
  assert (ht (plug f t) = frame_height f) as Hp by by destruct f. rewrite <- Hp in *. apply IH; [done|]. destruct f; cbn in *; split_and!; try done; lia.
Qed.

(** A child is one higher or lower than the other child expects: so is the tree above it. *)
Lemma fix_node_near l x h r hl t' stop :
  balanced l -> balanced r -> hl - 1 <= ht l <= hl + 1 -> hl <= ht r + 1 -> ht r <= hl + 1 -> h = Z.max hl (ht r) + 1 -> fix_node l x h r = (t', stop) ->
  h - 1 <= ht t' <= h + 1 /\ (stop = true -> ht t' = h).
Proof.
  intros Hl Hr Hh G1 G2 Hm E. assert (ht l <= ht r + 2) as K1 by lia. assert (ht r <= ht l + 2) as K2 by lia.
  pose proof (fix_node_balanced l x h r Hl Hr K1 K2) as Hb. rewrite E in Hb. destruct Hb as (_ & _ & Hst & Hx & Hbal). split; [|done].
  destruct (Z.leb_spec (ht l) (ht r + 1)), (Z.leb_spec (ht r) (ht l + 1)); lia.
Qed.
Lemma fix_node_near_r l x h r hr t' stop :
  balanced l -> balanced r -> hr - 1 <= ht r <= hr + 1 -> hr <= ht l + 1 -> ht l <= hr + 1 -> h = Z.max hr (ht l) + 1 -> fix_node l x h r = (t', stop) ->
  h - 1 <= ht t' <= h + 1 /\ (stop = true -> ht t' = h).
Proof.
  intros Hl Hr Hh G1 G2 Hm E. assert (ht l <= ht r + 2) as K1 by lia. assert (ht r <= ht l + 2) as K2 by lia.
  pose proof (fix_node_balanced l x h r Hl Hr K1 K2) as Hb. rewrite E in Hb. destruct Hb as (_ & _ & Hst & Hx & Hbal). split; [|done].
  destruct (Z.leb_spec (ht l) (ht r + 1)), (Z.leb_spec (ht r) (ht l + 1)); lia.
Qed.

(** The loop restores the balance of the whole tree if below the hole the heights changed
    by at most one. *)
Lemma climb_balanced c l x h r h0 :
  balanced l -> balanced r -> ht l <= ht r + 2 -> ht r <= ht l + 2 -> ctx_balanced c h0 ->
  (forall t' stop, fix_node l x h r = (t', stop) -> h0 - 1 <= ht t' <= h0 + 1 /\ (stop = true -> ht t' = h0)) ->
  climbable c (Node l x h r) /\
  let '(t', stop) := climb c (Node l x h r) in balanced t' /\ outer c h0 - 1 <= ht t' <= outer c h0 + 1 /\ (stop = true -> ht t' = outer c h0).
Proof.
  revert l x h r h0. induction c as [|f c IH]; intros l x h r h0 Hl Hr H1 H2 Hc Hf.
  - cbn [climb climbable]. pose proof (fix_node_balanced l x h r Hl Hr H1 H2) as Hb. destruct (fix_node l x h r) as [t' stop] eqn:E. destruct (Hf _ _ eq_refl) as (Hh & Hs).
    destruct Hb as (Hb & _). unfold outer. cbn. by destruct stop.
  - cbn [climb climbable]. pose proof (fix_node_balanced l x h r Hl Hr H1 H2) as Hb. destruct (fix_node l x h r) as [t' stop] eqn:E. destruct (Hf _ _ eq_refl) as (Hh & Hs).
    destruct Hb as (Hb & _). destruct stop.
    + rewrite <- (Hs eq_refl) in *. destruct (fill_balanced _ _ Hc Hb) as (Hx & ->). split_and!; try done; lia.
    + cbn [ctx_balanced] in Hc. destruct Hc as (Hsb & Hfh & G1 & G2 & Hc). rewrite outer_cons.
      assert (climbable c (plug f t') /\ let '(t2, stop2) := climb c (plug f t') in balanced t2 /\ outer c (frame_height f) - 1 <= ht t2 <= outer c (frame_height f) + 1 /\ (stop2 = true -> ht t2 = outer c (frame_height f))) as (K1 & K2).
      { destruct f as [y fh sr|sl y fh]; cbn [plug sibling frame_height] in *; apply IH; try done; try lia; intros t2 stop2 E2; [eapply (fix_node_near t' y fh sr h0)|eapply (fix_node_near_r sl y fh t' h0)]; done. }
      split; [|done]. split_and!; try done. by intros t2 [= <-].
Qed.

Lemma climb_up_balanced c t h0 :
  balanced t -> ctx_balanced c h0 -> h0 - 1 <= ht t <= h0 + 1 ->
  climbable_up c t /\
  let '(t', stop) := climb_up c t in balanced t' /\ outer c h0 - 1 <= ht t' <= outer c h0 + 1 /\ (stop = true -> ht t' = outer c h0).
Proof.
  intros Hb Hc Hh. destruct c as [|f c]; [done|]. cbn [climb_up climbable_up]. cbn [ctx_balanced] in Hc. destruct Hc as (Hs & Hfh & G1 & G2 & Hc). rewrite outer_cons.
  assert (climbable c (plug f t) /\ let '(t2, stop2) := climb c (plug f t) in balanced t2 /\ outer c (frame_height f) - 1 <= ht t2 <= outer c (frame_height f) + 1 /\ (stop2 = true -> ht t2 = outer c (frame_height f))) as (K1 & K2).
  { destruct f as [y fh sr|sl y fh]; cbn [plug sibling frame_height] in *; apply climb_balanced; try done; try lia; intros t2 stop2 E2; [eapply (fix_node_near t y fh sr h0)|eapply (fix_node_near_r sl y fh t h0)]; done. }
  done.
Qed.

(** In a balanced tree the loop stops at once. *)
Lemma climb_fixed c l x h r : balanced (Node l x h r) -> climb c (Node l x h r) = (fill c (Node l x h r), true).
Proof.
  intros (_ & _ & -> & H1 & H2). destruct c; cbn [climb]; unfold fix_node; (rewrite !(proj2 (Z.ltb_ge (_ + 1) _)) by lia);
  assert ((if ht l <? ht r then ht r else ht l) = Z.max (ht l) (ht r)) as -> by (destruct (Z.ltb_spec (ht l) (ht r)); lia); rewrite Z.eqb_refl; done.
Qed.

Lemma climbable_fixed c l x h r : balanced (Node l x h r) -> climbable c (Node l x h r).
Proof.
  intros H. pose proof (climb_fixed [] _ _ _ _ H) as Hf. cbn [climb] in Hf. destruct H as (Hl & Hr & _ & H1 & H2).
  destruct c; cbn [climbable]; split_and!; try done; try lia. intros t' E. rewrite E in Hf. done.
Qed.

Lemma fill_app c1 c2 t : fill (c1 ++ c2) t = fill c2 (fill c1 t).
Proof. apply foldl_app. Qed.

Lemma climb_app c1 c2 t : climb (c1 ++ c2) t = (let '(t', stop) := climb c1 t in if stop then (fill c2 t', true) else climb_up c2 t').
Proof.
  revert t. induction c1 as [|f c1 IH]; intros [|l x h r]; cbn [climb app]; try solve [by destruct c2|unfold fill; cbn; by rewrite foldl_app].
  - destruct c2 as [|f c2]; cbn [climb climb_up]; destruct (fix_node l x h r) as [t' []]; done.
  - destruct (fix_node l x h r) as [t' []]; [unfold fill; cbn; by rewrite foldl_app|]. apply IH.
Qed.

Lemma balanced_fill c t : balanced (fill c t) -> balanced t.
Proof. revert t. induction c as [|f c IH]; intros t; [done|]. cbn [fill foldl]. intros H. apply IH in H. destruct f; cbn in H; tauto. Qed.

(** Every node has a place. *)
Lemma tree_split T x : x ∈ inorder T -> exists c l h r, T = fill c (Node l x h r).
Proof.
  induction T as [|l IHl y h r IHr]; cbn [inorder]; [by intros ?%not_elem_of_nil|]. rewrite elem_of_app, elem_of_cons. intros [Hl|[->|Hr]].
  - destruct (IHl Hl) as (c & l' & h' & r' & ->). exists (c ++ [InLeft y h r]), l', h', r'. by rewrite fill_app.
  - by exists [], l, h, r.
  - destruct (IHr Hr) as (c & l' & h' & r' & ->). exists (c ++ [InRight l y h]), l', h', r'. by rewrite fill_app.
Qed.

Lemma fill_ctx_balanced c t : balanced (fill c t) -> ctx_balanced c (ht t).
Proof.
  revert t. induction c as [|f c IH]; intros t; [done|]. cbn [fill foldl ctx_balanced]. intros H. pose proof (balanced_fill _ _ H) as Hp. apply IH in H.
  destruct f; cbn in *; destruct Hp as (? & ? & -> & ? & ?); split_and!; try done; lia.
Qed.

(** ** The trees in memory *)

Fixpoint tree_at (m : gmap Z util_avl_struct) (t : tree) (par : option Z) : Prop :=
  match t with
  | Leaf => True
  | Node l x h r =>
      m !! x = Some {| avl_left := root_of l; avl_right := root_of r; parent := par; height := h |} /\ tree_at m l (Some x) /\ tree_at m r (Some x)
  end.

Definition frame_struct (f : frame) (child par : option Z) : util_avl_struct :=
  match f with
  | InLeft _ h r => {| avl_left := child; avl_right := root_of r; parent := par; height := h |}
  | InRight l _ h => {| avl_left := root_of l; avl_right := child; parent := par; height := h |}
  end.
(** [rt] is the pointer to the root, [child] the pointer in the hole. *)
Fixpoint ctx_at (m : gmap Z util_avl_struct) (rt : option Z) (c : list frame) (child : option Z) : Prop :=
  match c with
  | [] => rt = child
  | f :: c => m !! frame_node f = Some (frame_struct f child (up c)) /\ tree_at m (sibling f) (Some (frame_node f)) /\ ctx_at m rt c (Some (frame_node f))
  end.
Fixpoint ctx_nodes (c : list frame) : list Z := match c with [] => [] | f :: c => frame_node f :: inorder (sibling f) ++ ctx_nodes c end.
Definition place_at (c : list frame) : place := match c with [] => RootPlace | InLeft x _ _ :: _ => LeftPlace x | InRight _ x _ :: _ => RightPlace x end.

(** The tree [t] in the context [c] is in memory. *)
Definition rep (s : util_avl_root) (c : list frame) (t : tree) : Prop :=
  tree_at (avl_nodes s) t (up c) /\ ctx_at (avl_nodes s) (root_node s) c (root_of t) /\ NoDup (inorder t ++ ctx_nodes c).
(** Only the nodes in [l] may have changed. *)
Definition keeps (l : list Z) (s s' : util_avl_root) : Prop := forall y, y ∉ l -> avl_nodes s' !! y = avl_nodes s !! y.

Definition reparent (p : option Z) (t : tree) (m : gmap Z util_avl_struct) : gmap Z util_avl_struct :=
  match t with Leaf => m | Node _ x _ _ => alter (fun n => {n with parent := p}) x m end.
Definition placed (c : list frame) (v : option Z) (m : gmap Z util_avl_struct) : gmap Z util_avl_struct :=
  match c with
  | [] => m
  | InLeft x _ _ :: _ => alter (fun n => {n with avl_left := v}) x m
  | InRight _ x _ :: _ => alter (fun n => {n with avl_right := v}) x m
  end.
Definition placed_root (c : list frame) (v rt : option Z) : option Z := match c with [] => v | _ => rt end.

Lemma root_not t y : y ∉ inorder t -> root_of t <> Some y.
Proof. destruct t as [|l x h r]; cbn; [done|]. rewrite elem_of_app, elem_of_cons. intros H [= ->]. tauto. Qed.
Lemma up_not c y : y ∉ ctx_nodes c -> up c <> Some y.
Proof. destruct c as [|f c]; cbn; [done|]. rewrite elem_of_cons. intros H [= <-]. tauto. Qed.

Lemma reparent_ne p t m y : root_of t <> Some y -> reparent p t m !! y = m !! y.
Proof. destruct t; cbn; [done|]. intros H. rewrite lookup_alter_ne; [done|]. congruence. Qed.
Lemma placed_ne c v m y : up c <> Some y -> placed c v m !! y = m !! y.
Proof. destruct c as [|[] c]; cbn; [done|..]; intros H; (rewrite lookup_alter_ne; [done|]; congruence). Qed.

Lemma tree_at_ext m m' t p : (forall y, y ∈ inorder t -> m' !! y = m !! y) -> tree_at m t p -> tree_at m' t p.
Proof.
  revert p. induction t as [|l IHl x h r IHr]; intros p Hm; [done|]. cbn [tree_at inorder] in *. intros (Hx & Hl & Hr). rewrite Hm by set_solver.
  split_and!; [done|apply IHl|apply IHr]; try done; intros y Hy; apply Hm; set_solver.
Qed.
Lemma ctx_at_ext m m' rt c v : (forall y, y ∈ ctx_nodes c -> m' !! y = m !! y) -> ctx_at m rt c v -> ctx_at m' rt c v.
Proof.
  revert v. induction c as [|f c IH]; intros v Hm; [done|]. cbn [ctx_at ctx_nodes] in *. intros (Hx & Hs & Hc). rewrite Hm by set_solver.
  split_and!; [done|eapply tree_at_ext; [|done]|apply IH]; try done; intros y Hy; apply Hm; set_solver.
Qed.

Lemma tree_at_reparent m t p p' : NoDup (inorder t) -> tree_at m t p -> tree_at (reparent p' t m) t p'.
Proof.
  destruct t as [|l x h r]; [done|]. cbn [tree_at inorder reparent]. rewrite NoDup_app, NoDup_cons. intros (_ & Hd & Hx' & _) (Hx & Hl & Hr). rewrite lookup_alter_eq, Hx.
  split_and!; [done|eapply tree_at_ext; [|done]..]; intros y Hy; (rewrite lookup_alter_ne; [done|]); intros ->; set_solver.
Qed.

Lemma placed_ctx m rt c child v : NoDup (ctx_nodes c) -> ctx_at m rt c child -> ctx_at (placed c v m) (placed_root c v rt) c v.
Proof.
  destruct c as [|f c]; [done|]. cbn [ctx_at ctx_nodes]. rewrite NoDup_cons. intros (Hx & _) (Hf & Hs & Hc).
  assert (forall y, y ∈ inorder (sibling f) ++ ctx_nodes c -> placed (f :: c) v m !! y = m !! y) as Hm by (intros y Hy; apply placed_ne; cbn; intros [= <-]; set_solver).
  split_and!; [|eapply tree_at_ext; [|done]; intros; apply Hm; set_solver|].
  - destruct f; cbn [placed frame_node frame_struct] in *; rewrite lookup_alter_eq, Hf; done.
  - eapply ctx_at_ext; [|done]. intros; apply Hm; set_solver.
Qed.

Lemma get_node_run s x n : avl_nodes s !! x = Some n -> get_node x s = Ok (n, s).
Proof. intros H. unfold get_node. by rewrite H. Qed.
Lemma get_run m rt x n : m !! x = Some n -> get_node x {| avl_nodes := m; root_node := rt |} = Ok (n, {| avl_nodes := m; root_node := rt |}).
Proof. intros H. unfold get_node. cbn [avl_nodes]. by rewrite H. Qed.
Lemma set_run m rt x n f : m !! x = Some n -> set_node x f {| avl_nodes := m; root_node := rt |} = Ok (tt, {| avl_nodes := <[x := f n]> m; root_node := rt |}).
Proof. intros H. unfold set_node. cbn [avl_nodes]. by rewrite H. Qed.

Lemma set_left_run m rt x l r p h v : m !! x = Some {| avl_left := l; avl_right := r; parent := p; height := h |} ->
  set_left x v {| avl_nodes := m; root_node := rt |} = Ok (tt, {| avl_nodes := <[x := {| avl_left := v; avl_right := r; parent := p; height := h |}]> m; root_node := rt |}).
Proof. apply set_run. Qed.
Lemma set_right_run m rt x l r p h v : m !! x = Some {| avl_left := l; avl_right := r; parent := p; height := h |} ->
  set_right x v {| avl_nodes := m; root_node := rt |} = Ok (tt, {| avl_nodes := <[x := {| avl_left := l; avl_right := v; parent := p; height := h |}]> m; root_node := rt |}).
Proof. apply set_run. Qed.
Lemma set_parent_run m rt x l r p h v : m !! x = Some {| avl_left := l; avl_right := r; parent := p; height := h |} ->
  set_parent x v {| avl_nodes := m; root_node := rt |} = Ok (tt, {| avl_nodes := <[x := {| avl_left := l; avl_right := r; parent := v; height := h |}]> m; root_node := rt |}).
Proof. apply set_run. Qed.
Lemma set_height_run m rt x l r p h v : m !! x = Some {| avl_left := l; avl_right := r; parent := p; height := h |} ->
  set_height x v {| avl_nodes := m; root_node := rt |} = Ok (tt, {| avl_nodes := <[x := {| avl_left := l; avl_right := r; parent := p; height := v |}]> m; root_node := rt |}).
Proof. apply set_run. Qed.
Lemma reparent_run m rt t p p' : tree_at m t p -> when_node (root_of t) (fun x => set_parent x p') {| avl_nodes := m; root_node := rt |} = Ok (tt, {| avl_nodes := reparent p' t m; root_node := rt |}).
Proof.
  destruct t as [|l x h r]; [done|]. intros (Hx & _). cbn [when_node root_of reparent]. unfold set_parent. erewrite set_run by done. do 2 f_equal. f_equal. by erewrite alter_insert_eq || (apply map_eq; intros i; destruct (decide (i = x)) as [->|]; [rewrite lookup_insert_eq, lookup_alter_eq, Hx|rewrite lookup_insert_ne, lookup_alter_ne by done]; done).
Qed.

Lemma placed_run m rt c child v : ctx_at m rt c child -> store_place (place_at c) v {| avl_nodes := m; root_node := rt |} = Ok (tt, {| avl_nodes := placed c v m; root_node := placed_root c v rt |}).
Proof.
  destruct c as [|f c]; [done|]. intros (Hx & _). destruct f; cbn [place_at store_place placed placed_root frame_node] in *; unfold set_left, set_right; (erewrite set_run by done); do 2 f_equal; f_equal;
  (apply map_eq; intros i; match goal with |- <[?x := _]> _ !! _ = _ => destruct (decide (i = x)) as [->|] end; [rewrite lookup_insert_eq, lookup_alter_eq, Hx|rewrite lookup_insert_ne, lookup_alter_ne by done]; done).
Qed.

Lemma height_run m rt t p : tree_at m t p -> HEIGHT_OF (root_of t) {| avl_nodes := m; root_node := rt |} = Ok (ht t, {| avl_nodes := m; root_node := rt |}).
Proof. destruct t as [|l x h r]; [done|]. intros (Hx & _). cbn [HEIGHT_OF root_of ht]. by erewrite bind_run by (apply get_run; done). Qed.

Lemma place_of_run m rt c t x : root_of t = Some x -> rep {| avl_nodes := m; root_node := rt |} c t -> place_of x {| avl_nodes := m; root_node := rt |} = Ok (place_at c, {| avl_nodes := m; root_node := rt |}).
Proof.
  destruct t as [|l x' h r]; [done|]. intros [= ->] ((Hx & _) & Hc & Hnd). cbn [avl_nodes root_node] in *. unfold place_of. erewrite bind_run by (apply get_run; done). cbn [parent].
  destruct c as [|f c]; [done|]. cbn [up]. destruct Hc as (Hf & _). unfold NODE_PLACE. erewrite bind_run by (apply get_run; done).
  destruct f as [y fh fr|fl y fh]; cbn [frame_struct avl_left place_at frame_node root_of]; [by rewrite bool_decide_eq_true_2|].
  rewrite bool_decide_eq_false_2; [done|]. apply root_not. cbn [inorder ctx_nodes sibling frame_node] in Hnd. apply NoDup_app in Hnd as (_ & Hd & _). specialize (Hd x). set_solver.
Qed.

Lemma reparent_cong p t (m m' : gmap Z util_avl_struct) y : m !! y = m' !! y -> reparent p t m !! y = reparent p t m' !! y.
Proof. destruct t as [|l x h r]; [done|]. cbn [reparent]. destruct (decide (y = x)) as [->|]; [rewrite !lookup_alter_eq|rewrite !lookup_alter_ne by done]; congruence. Qed.
Lemma placed_cong c v (m m' : gmap Z util_avl_struct) y : m !! y = m' !! y -> placed c v m !! y = placed c v m' !! y.
Proof.
  destruct c as [|f c]; [done|]. intros H. destruct f; cbn [placed]; match goal with |- alter _ ?x _ !! _ = _ => destruct (decide (y = x)) as [->|] end;
  [rewrite !lookup_alter_eq|rewrite !lookup_alter_ne by done|rewrite !lookup_alter_eq|rewrite !lookup_alter_ne by done]; congruence.
Qed.

(** The list of a tree and its context splits into parts without common nodes. *)
Lemma NoDup_apart (a b : list Z) : NoDup (a ++ b) <-> NoDup a /\ a ## b /\ NoDup b.
Proof. rewrite NoDup_app. done. Qed.
Lemma apart_app_l (a b c : list Z) : (a ++ b) ## c <-> a ## c /\ b ## c.
Proof. set_solver. Qed.
Lemma apart_app_r (a b c : list Z) : c ## (a ++ b) <-> c ## a /\ c ## b.
Proof. set_solver. Qed.
Lemma apart_cons_l x (b c : list Z) : (x :: b) ## c <-> x ∉ c /\ b ## c.
Proof. set_solver. Qed.
Lemma apart_cons_r x (b c : list Z) : c ## (x :: b) <-> x ∉ c /\ c ## b.
Proof. set_solver. Qed.
Ltac split_nodup H :=
  repeat first [rewrite NoDup_apart in H|rewrite NoDup_cons in H|rewrite apart_app_l in H|rewrite apart_app_r in H|rewrite apart_cons_l in H|rewrite apart_cons_r in H|rewrite not_elem_of_app in H|rewrite not_elem_of_cons in H];
  destruct_and? H.
Ltac apart :=
  match goal with
  | _ => assumption
  | H : ?a <> ?b |- ?b <> ?a => exact (not_eq_sym H)
  | D : ?A ## ?B |- ?B ## ?A => exact (fun z K1 K2 => D z K2 K1)
  | H : ?y ∈ ?A, D : ?A ## ?B |- ?y ∉ ?B => exact (D y H)
  | H : ?y ∈ ?B, D : ?A ## ?B |- ?y ∉ ?A => exact (fun K => D y K H)
  | H : ?y ∈ ?A, D : ?x ∉ ?A |- ?x <> ?y => intros ->; exact (D H)
  | H : ?y ∈ ?A, D : ?x ∉ ?A |- ?y <> ?x => intros ->; exact (D H)
  end.
Ltac join_nodup :=
  repeat first [rewrite NoDup_apart|rewrite NoDup_cons|rewrite apart_app_l|rewrite apart_app_r|rewrite apart_cons_l|rewrite apart_cons_r|rewrite not_elem_of_app|rewrite not_elem_of_cons];
  split_and?; apart.
Ltac away := first [apart|apply root_not; apart|apply up_not; apart].
Ltac look := repeat first [rewrite lookup_insert_eq|rewrite lookup_insert_ne by away|rewrite reparent_ne by away|rewrite placed_ne by away].
Ltac avl_get := erewrite bind_run by (apply get_run; look; done); cbn [avl_left avl_right parent height].
Ltac avl_set := erewrite bind_run by (first [eapply set_left_run|eapply set_right_run|eapply set_parent_run|eapply set_height_run]; look; done).

Ltac agree := let y := fresh "y" in let Hy := fresh "Hy" in intros y Hy; look; done.
Ltac avl_place Hc := erewrite bind_run by (eapply placed_run; eapply ctx_at_ext; [|exact Hc]; agree).
Ltac avl_reparent H := erewrite bind_run by (eapply reparent_run; eapply tree_at_ext; [|exact H]; agree).
Ltac flat := repeat progress (rewrite <- ?app_assoc in *; cbn [app] in *); done.
Ltac kept H := eapply tree_at_ext; [|exact H]; agree.
Ltac moved H := eapply tree_at_ext; [|eapply tree_at_reparent; [|exact H]; assumption]; let y := fresh "y" in let Hy := fresh "Hy" in intros y Hy; look; apply reparent_cong; look; done.
Ltac replaced H := eapply ctx_at_ext; [|eapply placed_ctx; [|exact H]; assumption]; let y := fresh "y" in let Hy := fresh "Hy" in intros y Hy; look; apply placed_cong; look; done.
Lemma small_wrap w z : 32 <= w -> 0 <= z < 2 ^ 31 -> wrap w z = z.
Proof. intros Hw Hz. apply wrap_small. unfold in_u. split; [lia|]. pose proof (Z.pow_le_mono_r 2 31 w). lia. Qed.

Section Rotations.
Context (w : Z) (Hw : 32 <= w).

Lemma rotate_right_run m rt c ll lx lh lr x h r :
  0 <= ht lr < 2 ^ 31 - 2 -> rep {| avl_nodes := m; root_node := rt |} c (Node (Node ll lx lh lr) x h r) ->
  exists s', rotate_right w x lx (root_of lr) (place_at c) (ht lr) {| avl_nodes := m; root_node := rt |} = Ok (tt, s') /\
    rep s' c (Node ll lx (ht lr + 1 + 1) (Node lr x (ht lr + 1) r)) /\ keeps (inorder (Node (Node ll lx lh lr) x h r) ++ ctx_nodes c) {| avl_nodes := m; root_node := rt |} s'.
Proof using Hw.
  intros Hb (Ht & Hc & Hnd). cbn [avl_nodes root_node tree_at root_of inorder] in *. destruct Ht as (Hx & (Hlx & Hll & Hlr) & Hr). pose proof Hnd as Hnd2. split_nodup Hnd.
  assert (wrap w (ht lr + 1) = ht lr + 1) as Ew1 by (apply small_wrap; lia). assert (wrap w (ht lr + 1 + 1) = ht lr + 1 + 1) as Ew2 by (apply small_wrap; lia).
  unfold rotate_right. rewrite Ew1. avl_set. avl_set. avl_set. avl_get. rewrite Ew2. avl_set. avl_get. avl_set. avl_set. avl_place Hc.
  eexists. split; [apply (reparent_run _ _ _ (Some lx)); eapply tree_at_ext; [|exact Hlr]; agree|].
  split; [|intros y Hy; cbn [avl_nodes inorder] in *; split_nodup Hy; look; done].
  unfold rep. cbn [avl_nodes root_node tree_at inorder root_of]. look.
  split_and!; try done; [kept Hll|moved Hlr|kept Hr|replaced Hc|flat].
Qed.

Lemma rotate_left_run m rt c l x h rl rx rh rr :
  0 <= ht rl < 2 ^ 31 - 2 -> rep {| avl_nodes := m; root_node := rt |} c (Node l x h (Node rl rx rh rr)) ->
  exists s', rotate_left w x rx (root_of rl) (place_at c) (ht rl) {| avl_nodes := m; root_node := rt |} = Ok (tt, s') /\
    rep s' c (Node (Node l x (ht rl + 1) rl) rx (ht rl + 1 + 1) rr) /\ keeps (inorder (Node l x h (Node rl rx rh rr)) ++ ctx_nodes c) {| avl_nodes := m; root_node := rt |} s'.
Proof using Hw.
  intros Hb (Ht & Hc & Hnd). cbn [avl_nodes root_node tree_at root_of inorder] in *. destruct Ht as (Hx & Hl & Hrx & Hrl & Hrr). pose proof Hnd as Hnd2. split_nodup Hnd.
  assert (wrap w (ht rl + 1) = ht rl + 1) as Ew1 by (apply small_wrap; lia). assert (wrap w (ht rl + 1 + 1) = ht rl + 1 + 1) as Ew2 by (apply small_wrap; lia).
  unfold rotate_left. rewrite Ew1. avl_set. avl_set. avl_set. avl_get. rewrite Ew2. avl_set. avl_get. avl_set. avl_set. avl_place Hc.
  eexists. split; [apply (reparent_run _ _ _ (Some rx)); eapply tree_at_ext; [|exact Hrl]; agree|].
  split; [|intros y Hy; cbn [avl_nodes inorder] in *; split_nodup Hy; look; done].
  unfold rep. cbn [avl_nodes root_node tree_at inorder root_of]. look.
  split_and!; try done; [kept Hl|moved Hrl|kept Hrr|replaced Hc|flat].
Qed.

Lemma midmount_right_run m rt c ll lx lh a y yh b x h r :
  rep {| avl_nodes := m; root_node := rt |} c (Node (Node ll lx lh (Node a y yh b)) x h r) ->
  exists s', midmount_right x lx y (place_at c) yh {| avl_nodes := m; root_node := rt |} = Ok (tt, s') /\
    rep s' c (Node (Node ll lx yh a) y lh (Node b x yh r)) /\ keeps (inorder (Node (Node ll lx lh (Node a y yh b)) x h r) ++ ctx_nodes c) {| avl_nodes := m; root_node := rt |} s'.
Proof using.
  intros (Ht & Hc & Hnd). cbn [avl_nodes root_node tree_at root_of inorder] in *. destruct Ht as (Hx & (Hlx & Hll & Hy & Ha & Hb) & Hr). pose proof Hnd as Hnd2. split_nodup Hnd.
  unfold midmount_right. avl_get. avl_set. avl_get. avl_set. avl_set. avl_set. avl_get. avl_set. avl_set. avl_set. avl_get. avl_set. avl_set. avl_set.
  avl_get. avl_reparent Ha. avl_get. avl_reparent Hb.
  eexists. split; [eapply placed_run; eapply ctx_at_ext; [|exact Hc]; agree|].
  split; [|intros y0 Hy0; cbn [avl_nodes inorder] in *; split_nodup Hy0; look; done].
  unfold rep. cbn [avl_nodes root_node tree_at inorder root_of]. look.
  split_and!; try done; [kept Hll|moved Ha|moved Hb|kept Hr|replaced Hc|flat].
Qed.

Lemma midmount_left_run m rt c l x h a y yh b rx rh rr :
  rep {| avl_nodes := m; root_node := rt |} c (Node l x h (Node (Node a y yh b) rx rh rr)) ->
  exists s', midmount_left x rx y (place_at c) yh {| avl_nodes := m; root_node := rt |} = Ok (tt, s') /\
    rep s' c (Node (Node l x yh a) y rh (Node b rx yh rr)) /\ keeps (inorder (Node l x h (Node (Node a y yh b) rx rh rr)) ++ ctx_nodes c) {| avl_nodes := m; root_node := rt |} s'.
Proof using.
  intros (Ht & Hc & Hnd). cbn [avl_nodes root_node tree_at root_of inorder] in *. destruct Ht as (Hx & Hl & Hrx & (Hy & Ha & Hb) & Hrr). pose proof Hnd as Hnd2. split_nodup Hnd.
  unfold midmount_left. avl_get. avl_set. avl_get. avl_set. avl_set. avl_set. avl_get. avl_set. avl_set. avl_set. avl_get. avl_set. avl_set. avl_set.
  avl_get. avl_reparent Hb. avl_get. avl_reparent Ha.
  eexists. split; [eapply placed_run; eapply ctx_at_ext; [|exact Hc]; agree|].
  split; [|intros y0 Hy0; cbn [avl_nodes inorder] in *; split_nodup Hy0; look; done].
  unfold rep. cbn [avl_nodes root_node tree_at inorder root_of]. look.
  split_and!; try done; [kept Hl|moved Ha|moved Hb|kept Hrr|replaced Hc|flat].
Qed.

Lemma set_height_rep m rt c l x h h' r :
  rep {| avl_nodes := m; root_node := rt |} c (Node l x h r) ->
  exists s', set_height x h' {| avl_nodes := m; root_node := rt |} = Ok (tt, s') /\ rep s' c (Node l x h' r) /\
    keeps (inorder (Node l x h r) ++ ctx_nodes c) {| avl_nodes := m; root_node := rt |} s'.
Proof using.
  intros (Ht & Hc & Hnd). cbn [avl_nodes root_node tree_at root_of inorder] in *. destruct Ht as (Hx & Hl & Hr). pose proof Hnd as Hnd2. split_nodup Hnd.
  eexists. split; [by eapply set_height_run|]. split; [|intros y Hy; cbn [avl_nodes inorder] in *; split_nodup Hy; look; done].
  unfold rep. cbn [avl_nodes root_node tree_at inorder root_of]. look. split_and!; try done; [kept Hl|kept Hr|]. eapply ctx_at_ext; [|exact Hc]. agree.
Qed.

Lemma root_lookup s c t x : rep s c t -> root_of t = Some x -> exists n, avl_nodes s !! x = Some n /\ parent n = up c.
Proof. destruct t; [done|]. cbn. intros ((Hx & _) & _) [= ->]. eauto. Qed.

Lemma rebalance_round_run m rt c l x h r t' stop :
  rep {| avl_nodes := m; root_node := rt |} c (Node l x h r) -> balanced l -> balanced r -> ht l <= ht r + 2 -> ht r <= ht l + 2 ->
  ht l < 2 ^ 31 - 2 -> ht r < 2 ^ 31 - 2 -> fix_node l x h r = (t', stop) ->
  exists s', rebalance_round w x {| avl_nodes := m; root_node := rt |} = Ok (if stop then None else up c, s') /\ rep s' c t' /\
    keeps (inorder (Node l x h r) ++ ctx_nodes c) {| avl_nodes := m; root_node := rt |} s'.
Proof using Hw.
  intros Hrep Bl Br H1 H2 L1 L2 E. pose proof (balanced_nonneg l Bl) as Pl. pose proof (balanced_nonneg r Br) as Pr. pose proof Hrep as ((Hx & Hl & Hr) & Hc & Hnd). cbn [avl_nodes root_node] in *.
  unfold rebalance_round. avl_get. erewrite bind_run by (eapply (place_of_run _ _ c (Node l x h r)); done). erewrite bind_run by (eapply height_run; done). erewrite bind_run by (eapply height_run; done).
  rewrite !sext_small by (unfold in_s; lia). unfold fix_node in E.
  destruct (Z.ltb_spec (ht r + 1) (ht l)) as [Hc1|Hc1]; [|destruct (Z.ltb_spec (ht l + 1) (ht r)) as [Hc2|Hc2] ].
  - destruct l as [|ll lx lh lr]; [cbn in Hc1; lia|]. cbn [ht root_of] in *. destruct Bl as (Bll & Blr & Elh & Bl1 & Bl2). destruct Hl as (Hlx & Hll & Hlr).
    pose proof (balanced_nonneg ll Bll). pose proof (balanced_nonneg lr Blr). cbn [the].
    rewrite (bind_run _ _ _ lx _ eq_refl). avl_get. erewrite bind_run by (eapply height_run; done). erewrite bind_run by (eapply height_run; done).
    destruct (Z.leb_spec (ht lr) (ht ll)).
    + injection E as <- <-. destruct (rotate_right_run m rt c ll lx lh lr x h r) as (s' & Hrun & Hrep' & Hk); [lia|done|]. rewrite (bind_run _ _ _ _ _ Hrun).
      destruct (root_lookup _ _ _ lx Hrep' eq_refl) as (n & Hn & Hp). rewrite (bind_run _ _ _ _ _ (get_node_run _ _ _ Hn)), Hp. by exists s'.
    + destruct lr as [|a y yh b]; [cbn in *; lia|]. injection E as <- <-. cbn [root_of the]. rewrite (bind_run _ _ _ y _ eq_refl).
      destruct (midmount_right_run m rt c ll lx lh a y yh b x h r Hrep) as (s' & Hrun & Hrep' & Hk). cbn [ht]. rewrite (bind_run _ _ _ _ _ Hrun).
      destruct (root_lookup _ _ _ y Hrep' eq_refl) as (n & Hn & Hp). rewrite (bind_run _ _ _ _ _ (get_node_run _ _ _ Hn)), Hp. by exists s'.
  - destruct r as [|rl rx rh rr]; [cbn in Hc2; lia|]. cbn [ht root_of] in *. destruct Br as (Brl & Brr & Erh & Br1 & Br2). destruct Hr as (Hrx & Hrl & Hrr).
    pose proof (balanced_nonneg rl Brl). pose proof (balanced_nonneg rr Brr). cbn [the].
    rewrite (bind_run _ _ _ rx _ eq_refl). avl_get. erewrite bind_run by (eapply height_run; done). erewrite bind_run by (eapply height_run; done).
    destruct (Z.leb_spec (ht rl) (ht rr)).
    + injection E as <- <-. destruct (rotate_left_run m rt c l x h rl rx rh rr) as (s' & Hrun & Hrep' & Hk); [lia|done|]. rewrite (bind_run _ _ _ _ _ Hrun).
      destruct (root_lookup _ _ _ rx Hrep' eq_refl) as (n & Hn & Hp). rewrite (bind_run _ _ _ _ _ (get_node_run _ _ _ Hn)), Hp. by exists s'.
    + destruct rl as [|a y yh b]; [cbn in *; lia|]. injection E as <- <-. cbn [root_of the]. rewrite (bind_run _ _ _ y _ eq_refl).
      destruct (midmount_left_run m rt c l x h a y yh b rx rh rr Hrep) as (s' & Hrun & Hrep' & Hk). cbn [ht]. rewrite (bind_run _ _ _ _ _ Hrun).
      destruct (root_lookup _ _ _ y Hrep' eq_refl) as (n & Hn & Hp). rewrite (bind_run _ _ _ _ _ (get_node_run _ _ _ Hn)), Hp. by exists s'.
  - set (h' := (if ht l <? ht r then ht r else ht l) + 1) in *. assert (wrap w h' = h') as -> by (apply small_wrap; [done|]; unfold h'; destruct (ht l <? ht r); lia).
    injection E as <- <-. destruct (Z.eqb_spec h' h) as [Eh|Hne]; [rewrite Eh; by eexists|].
    destruct (set_height_rep m rt c l x h h' r Hrep) as (s' & Hrun & Hrep' & Hk). rewrite (bind_run _ _ _ _ _ Hrun).
    destruct (root_lookup _ _ _ x Hrep' eq_refl) as (n & Hn & Hp). rewrite (bind_run _ _ _ _ _ (get_node_run _ _ _ Hn)), Hp. by exists s'.
Qed.

Lemma fill_perm c t : inorder (fill c t) ≡ₚ inorder t ++ ctx_nodes c.
Proof.
  revert t. induction c as [|f c IH]; intros t; [by rewrite app_nil_r|]. cbn [fill foldl ctx_nodes]. unfold fill in IH. rewrite IH.
  destruct f; cbn [plug inorder frame_node sibling]; [rewrite <- app_assoc; done|]. rewrite <- app_assoc. cbn [app].
  rewrite <- !Permutation_middle. constructor. apply Permutation_app_swap_app.
Qed.

Lemma rep_plug s f c t : rep s (f :: c) t <-> rep s c (plug f t).
Proof.
  unfold rep. cbn [ctx_at ctx_nodes up].
  assert (NoDup (inorder t ++ frame_node f :: inorder (sibling f) ++ ctx_nodes c) <-> NoDup (inorder (plug f t) ++ ctx_nodes c)) as ->.
  { apply NoDup_Permutation_proper. pose proof (fill_perm (f :: c) t) as H1. pose proof (fill_perm c (plug f t)) as H2. cbn [fill foldl ctx_nodes] in H1, H2. unfold fill in H2. by rewrite <- H1, <- H2. }
  destruct f; cbn [plug tree_at frame_struct frame_node sibling root_of]; tauto.
Qed.
Lemma rep_fill s c t : rep s c t <-> rep s [] (fill c t).
Proof. revert t. induction c as [|f c IH]; intros t; [done|]. rewrite rep_plug, IH. done. Qed.

Lemma keeps_trans l s1 s2 s3 : keeps l s1 s2 -> keeps l s2 s3 -> keeps l s1 s3.
Proof. intros H1 H2 y Hy. by rewrite H2, H1. Qed.
Lemma keeps_mono l l' s s' : (forall y, y ∈ l -> y ∈ l') -> keeps l s s' -> keeps l' s s'.
Proof. intros Hl H y Hy. apply H. naive_solver. Qed.

Lemma length_context c : (length c <= length (ctx_nodes c))%nat.
Proof. induction c as [|f c IH]; cbn [ctx_nodes length]; [lia|]. rewrite length_app. lia. Qed.

(** The loop does to the nodes in memory what [climb] does to the tree. *)
Lemma rebalance_loop_run c t fuel s x :
  (length c < fuel)%nat -> root_of t = Some x -> rep s c t -> climbable c t -> Z.of_nat (length (inorder t ++ ctx_nodes c)) < 2 ^ 31 - 2 ->
  exists s', rebalance_loop w fuel x s = Ok (tt, s') /\ rep s' [] (climb c t).1 /\ keeps (inorder t ++ ctx_nodes c) s s'.
Proof using Hw.
  revert t fuel s x. induction c as [|f c IH]; intros [|l y h r] [|fuel] [m rt] x Hf Hroot Hrep Hcl Hn; cbn [length] in Hf; try lia; try done; cbn [climbable climb] in *;
  destruct Hcl as (Bl & Br & H1 & H2 & Hcl); injection Hroot as ->; pose proof (balanced_height l Bl); pose proof (balanced_height r Br); pose proof Hn as Hn2;
  cbn [inorder ctx_nodes] in Hn2; rewrite !length_app in Hn2; cbn [length] in Hn2; destruct (fix_node l x h r) as [t' stop] eqn:E; cbn [rebalance_loop];
  (destruct (rebalance_round_run m rt _ l x h r t' stop Hrep Bl Br H1 H2 ltac:(lia) ltac:(lia) E) as (s1 & Hrun & Hrep1 & Hk); rewrite (bind_run _ _ _ _ _ Hrun)).
  - exists s1. destruct stop; done.
  - destruct stop; [exists s1; split_and!; [done|by apply (rep_fill _ (f :: c))|done]|]. cbn [up].
    pose proof (fill_perm (f :: c) t') as P1. pose proof (fill_perm (f :: c) (Node l x h r)) as P2. pose proof (fill_perm c (plug f t')) as P3. cbn [fill foldl] in P1, P2, P3. unfold fill in P3.
    assert (inorder t' = inorder (Node l x h r)) as Hi by (rewrite <- (f_equal fst E : _ = t'); apply fix_node_inorder). rewrite Hi in P1. rewrite P1 in P3.
    destruct (IH (plug f t') fuel s1 (frame_node f)) as (s' & Hl & Hr & Hk2); [lia|by destruct f|by apply (rep_plug _ f)|by apply Hcl|by rewrite <- P3|].
    exists s'. split_and!; [done|done|]. eapply keeps_trans; [exact Hk|]. eapply keeps_mono; [|exact Hk2]. intros z. by rewrite <- P3.
Qed.

Lemma rebalance_up_run c t fuel s :
  (length c <= fuel)%nat -> rep s c t -> climbable_up c t -> Z.of_nat (length (inorder t ++ ctx_nodes c)) < 2 ^ 31 - 2 ->
  exists s', util_avl_rebalance w fuel (up c) s = Ok (tt, s') /\ rep s' [] (climb_up c t).1 /\ keeps (inorder t ++ ctx_nodes c) s s'.
Proof using Hw.
  destruct c as [|f c]; intros Hf Hrep Hcl Hn; [by exists s|]. cbn [up util_avl_rebalance climb_up climbable_up length] in *.
  pose proof (fill_perm (f :: c) t) as P1. pose proof (fill_perm c (plug f t)) as P2. cbn [fill foldl] in P1, P2. unfold fill in P2. rewrite P1 in P2.
  destruct (rebalance_loop_run c (plug f t) fuel s (frame_node f)) as (s' & Hl & Hr & Hk); [lia|by destruct f|by apply (rep_plug _ f)|done|by rewrite <- P2|].
  exists s'. split_and!; [done..|]. eapply keeps_mono; [|exact Hk]. intros z. by rewrite <- P2.
Qed.

(** A balanced tree in memory. *)
Definition avl (s : util_avl_root) (T : tree) : Prop := rep s [] T /\ balanced T.

Lemma climb_fixed_up c t : balanced (fill c t) -> climbable_up c t /\ (climb_up c t).1 = fill c t.
Proof.
  destruct c as [|f c]; [done|]. cbn [fill foldl climbable_up climb_up]. intros H. pose proof (balanced_fill c _ H) as Hp.
  destruct f as [x h r|l x h]; cbn [plug] in *; rewrite (climb_fixed c _ _ _ _ Hp); (split; [|done]); by apply climbable_fixed.
Qed.

Lemma link_run s c x :
  rep s c Leaf -> x ∉ ctx_nodes c ->
  exists s', util_avl_link x (up c) (place_at c) s = Ok (tt, s') /\ rep s' c (Node Leaf x 1 Leaf) /\ keeps (x :: ctx_nodes c) s s'.
Proof using.
  destruct s as [m rt]. intros (_ & Hc & Hnd) Hx. cbn [avl_nodes root_node inorder app] in *. unfold util_avl_link, modify. erewrite bind_run by done. cbn [avl_nodes root_node].
  eexists. split; [eapply placed_run; eapply ctx_at_ext; [|exact Hc]; agree|]. split; [|intros y Hy; cbn [avl_nodes inorder] in *; split_nodup Hy; look; done].
  unfold rep. cbn [avl_nodes root_node tree_at inorder root_of app]. look. split_and!; try done; [replaced Hc|by apply NoDup_cons].
Qed.

Theorem avl_insert fuel s c T x :
  avl s T -> T = fill c Leaf -> x ∉ inorder T -> Z.of_nat (length (inorder T)) < 2 ^ 31 - 3 -> (length (inorder T) <= fuel)%nat ->
  exists s' T', (util_avl_link x (up c) (place_at c) ;; util_avl_rebalance w fuel (up c)) s = Ok (tt, s') /\ avl s' T' /\
    inorder T' = before c ++ x :: after c /\ keeps (x :: inorder T) s s'.
Proof using Hw.
  intros (Hrep & Hbal) -> Hx Hn Hf. pose proof (fill_perm c Leaf) as P. cbn [inorder app] in P. pose proof (Permutation_length P) as HL. pose proof (length_context c).
  apply (rep_fill _ c) in Hrep. rewrite P in Hx. destruct (link_run s c x Hrep Hx) as (s1 & H1 & Hr1 & Hk1). rewrite (bind_run _ _ _ _ _ H1).
  destruct (climb_up_balanced c (Node Leaf x 1 Leaf) 0) as (Hcl & Hb); [done|by apply (fill_ctx_balanced c Leaf)|done|].
  destruct (rebalance_up_run c (Node Leaf x 1 Leaf) fuel s1) as (s' & Hrun & Hr & Hk); [lia|done|done|cbn [inorder app length]; lia|].
  exists s', (climb_up c (Node Leaf x 1 Leaf)).1. split_and!; [done|split; [done|]|by rewrite climb_up_inorder|].
  - destruct (climb_up c (Node Leaf x 1 Leaf)). apply Hb.
  - eapply keeps_trans; (eapply keeps_mono; [|done]); intros z; rewrite P; done.
Qed.

(** ** Removal *)

Lemma unlink_leaf {A} s c l x h (K : An A) :
  rep s c (Node l x h Leaf) ->
  exists s1, (store_place (place_at c) (root_of l) ;; when_node (root_of l) (fun y => set_parent y (up c)) ;; K) s = K s1 /\
    rep s1 c l /\ keeps (inorder (Node l x h Leaf) ++ ctx_nodes c) s s1.
Proof using.
  destruct s as [m rt]. intros (Ht & Hc & Hnd). cbn [avl_nodes root_node tree_at root_of inorder] in *. destruct Ht as (Hx & Hl & _). pose proof Hnd as Hnd2. split_nodup Hnd.
  avl_place Hc. avl_reparent Hl. eexists. split; [done|]. split; [|intros y Hy; cbn [avl_nodes inorder] in *; split_nodup Hy; look; done].
  unfold rep. cbn [avl_nodes root_node]. split_and!; [moved Hl|replaced Hc|]. join_nodup.
Qed.

Lemma unlink_near {A} s c l x h rx rh rr (K : An A) :
  rep s c (Node l x h (Node Leaf rx rh rr)) ->
  exists s1, (store_place (place_at c) (Some rx) ;; set_left rx (root_of l) ;; when_node (root_of l) (fun y => set_parent y (Some rx)) ;; set_parent rx (up c) ;; K) s = K s1 /\
    rep s1 c (Node l rx rh rr) /\ keeps (inorder (Node l x h (Node Leaf rx rh rr)) ++ ctx_nodes c) s s1.
Proof using.
  destruct s as [m rt]. intros (Ht & Hc & Hnd). cbn [avl_nodes root_node tree_at root_of inorder] in *. destruct Ht as (Hx & Hl & Hrx & _ & Hrr). pose proof Hnd as Hnd2. split_nodup Hnd.
  avl_place Hc. avl_set. avl_reparent Hl. avl_set. eexists. split; [done|]. split; [|intros y Hy; cbn [avl_nodes inorder] in *; split_nodup Hy; look; done].
  unfold rep. cbn [avl_nodes root_node tree_at root_of inorder]. look. split_and!; try done; [moved Hl|kept Hrr|replaced Hc|].
  join_nodup.
Qed.

(** The node [y] without a left child moves to the place of [x]; its right subtree to its place. *)
Definition unlink_far {A} (c : list frame) (x y sp : Z) (K : An A) : An A :=
  store_place (place_at c) (Some y) ;;
  sn ← get_node y; set_left sp (avl_right sn) ;;
  n ← get_node x; set_left y (avl_left n) ;;
  n ← get_node x; set_right y (avl_right n) ;;
  sn ← get_node y; when_node (avl_left sn) (fun z => set_parent z (Some y)) ;;
  sn ← get_node y; z ← the (avl_right sn); set_parent z (Some y) ;;
  sp_ ← get_node sp; when_node (avl_left sp_) (fun z => set_parent z (Some sp)) ;;
  n ← get_node x; set_parent y (parent n) ;; K.

Lemma unlink_far_child {A} s c l x h y sh sr p ph pr (K : An A) :
  rep s c (Node l x h (Node (Node Leaf y sh sr) p ph pr)) ->
  exists s1, unlink_far c x y p K s = K s1 /\ rep s1 c (Node l y sh (Node sr p ph pr)) /\
    keeps (inorder (Node l x h (Node (Node Leaf y sh sr) p ph pr)) ++ ctx_nodes c) s s1.
Proof using.
  destruct s as [m rt]. intros (Ht & Hc & Hnd). cbn [avl_nodes root_node tree_at root_of inorder app] in *. destruct Ht as (Hx & Hl & Hp & (Hy & _ & Hsr) & Hpr). pose proof Hnd as Hnd2. split_nodup Hnd.
  unfold unlink_far. avl_place Hc. avl_get. avl_set. avl_get. avl_set. avl_get. avl_set. avl_get. avl_reparent Hl. avl_get. cbn [the]. rewrite (bind_run _ _ _ p _ eq_refl). avl_set. avl_get. avl_reparent Hsr.
  avl_get. avl_set. eexists. split; [done|]. split; [|intros z Hz; cbn [avl_nodes inorder app] in *; split_nodup Hz; look; done].
  unfold rep. cbn [avl_nodes root_node tree_at root_of inorder]. look. split_and!; try done; [moved Hl|moved Hsr|kept Hpr|replaced Hc|].
  join_nodup.
Qed.

(** The way from the top of the right subtree to the parent of the leftmost node. *)
Fixpoint seg_at (m : gmap Z util_avl_struct) (c : list frame) (v par : option Z) : Prop :=
  match c with
  | [] => True
  | f :: c' => m !! frame_node f = Some (frame_struct f v (from_option (Some ∘ frame_node) par (head c'))) /\ tree_at m (sibling f) (Some (frame_node f)) /\ seg_at m c' (Some (frame_node f)) par
  end.
Definition seg_top (c : list frame) (v : option Z) : option Z := from_option (Some ∘ frame_node) v (last c).

Lemma ctx_at_app m rt c1 c2 v : ctx_at m rt (c1 ++ c2) v <-> seg_at m c1 v (up c2) /\ ctx_at m rt c2 (seg_top c1 v).
Proof.
  revert v. induction c1 as [|f c1 IH]; intros v; cbn [app ctx_at seg_at]; [unfold seg_top; cbn; tauto|]. rewrite IH.
  assert (up (c1 ++ c2) = from_option (Some ∘ frame_node) (up c2) (head c1)) as -> by by destruct c1.
  assert (seg_top (f :: c1) v = seg_top c1 (Some (frame_node f))) as -> by (unfold seg_top; rewrite last_cons; by destruct (last c1)). tauto.
Qed.
Lemma ctx_nodes_app c1 c2 : ctx_nodes (c1 ++ c2) = ctx_nodes c1 ++ ctx_nodes c2.
Proof. induction c1 as [|f c1 IH]; cbn [app ctx_nodes]; [done|]. by rewrite IH, <- app_assoc. Qed.
Lemma seg_at_ext m m' c v par : (forall y, y ∈ ctx_nodes c -> m' !! y = m !! y) -> seg_at m c v par -> seg_at m' c v par.
Proof using.
  clear Hw w.
  revert v. induction c as [|f c IH]; intros v Hm; [done|]. cbn [seg_at ctx_nodes] in *. intros (Hx & Hs & Hc). rewrite Hm by set_solver.
  split_and!; [done|eapply tree_at_ext; [|done]|apply IH]; try done; intros y Hy; apply Hm; set_solver.
Qed.

Lemma unlink_far_below {A} s c1 c l x h y sh sr q qh qr p ph pr (K : An A) :
  rep s (InLeft q qh qr :: c1 ++ InLeft p ph pr :: InRight l x h :: c) (Node Leaf y sh sr) ->
  exists s1, unlink_far c x y q K s = K s1 /\ rep s1 (InLeft q qh qr :: c1 ++ InLeft p ph pr :: InRight l y sh :: c) sr /\
    keeps (inorder (Node Leaf y sh sr) ++ ctx_nodes (InLeft q qh qr :: c1 ++ InLeft p ph pr :: InRight l x h :: c)) s s1.
Proof using.
  destruct s as [m rt]. intros (Ht & Hc & Hnd). cbn [avl_nodes root_node tree_at root_of inorder app up ctx_nodes frame_node sibling] in *. destruct Ht as (Hy & _ & Hsr).
  cbn [ctx_at frame_node sibling] in Hc. destruct Hc as (Hq & Hqr & Hc). apply ctx_at_app in Hc as (Hseg & Hp & Hpr & Hx & Hl & Hc). cbn [frame_node sibling frame_struct up] in *.
  rewrite ctx_nodes_app in *. cbn [ctx_nodes frame_node sibling] in *. pose proof Hnd as Hnd2. split_nodup Hnd.
  unfold unlink_far. avl_place Hc. avl_get. avl_set. avl_get. avl_set. avl_get. avl_set. avl_get. avl_reparent Hl. avl_get. cbn [the]. rewrite (bind_run _ _ _ p _ eq_refl). avl_set. avl_get. avl_reparent Hsr.
  avl_get. avl_set. eexists. split; [done|]. split; [|intros z Hz; cbn [avl_nodes inorder app] in *; split_nodup Hz; look; done].
  unfold rep. cbn [avl_nodes root_node up ctx_at frame_node sibling frame_struct ctx_nodes]. rewrite ctx_nodes_app. cbn [ctx_nodes frame_node sibling]. rewrite ctx_at_app. cbn [ctx_at up frame_node sibling frame_struct]. look.
  assert (up (c1 ++ InLeft p ph pr :: InRight l y sh :: c) = up (c1 ++ InLeft p ph pr :: InRight l x h :: c)) as -> by by destruct c1.
  split_and!; try done; [moved Hsr|kept Hqr|eapply seg_at_ext; [|exact Hseg]; agree|kept Hpr|moved Hl|replaced Hc|join_nodup].
Qed.

Definition is_left (f : frame) : Prop := match f with InLeft _ _ _ => True | InRight _ _ _ => False end.

Lemma leftmost_run s a y0 h b par sp fuel :
  tree_at (avl_nodes s) (Node a y0 h b) par -> (length (inorder (Node a y0 h b)) <= fuel)%nat ->
  exists c1 y sh sr, Node a y0 h b = fill c1 (Node Leaf y sh sr) /\ Forall is_left c1 /\ leftmost fuel sp y0 s = Ok ((default sp (up c1), y), s).
Proof using.
  clear Hw w. revert y0 h b par sp fuel. induction a as [|a IH y1 h1 b1 _]; intros y0 h b par sp [|fuel] (Hx & Ha & Hb) Hf; cbn [inorder] in Hf; rewrite ?length_app in Hf; cbn [length] in Hf; try lia; cbn [leftmost root_of] in *;
  rewrite (bind_run _ _ _ _ _ (get_node_run _ _ _ Hx)); cbn [avl_left].
  - by exists [], y0, h, b.
  - destruct (IH y1 h1 b1 (Some y0) y0 fuel Ha) as (c1 & y & sh & sr & E & Hl & Hrun); [cbn [inorder]; rewrite length_app; cbn [length]; lia|].
    exists (c1 ++ [InLeft y0 h b]), y, sh, sr. split_and!; [rewrite fill_app, <- E; done|apply Forall_app; by repeat constructor|rewrite Hrun]. by destruct c1.
Qed.

Lemma unlink_far_run {A} s c l x h c1 y sh sr p ph pr (K : An A) :
  Forall is_left c1 -> rep s c (Node l x h (fill (c1 ++ [InLeft p ph pr]) (Node Leaf y sh sr))) ->
  exists s1, unlink_far c x y (default p (up c1)) K s = K s1 /\ rep s1 ((c1 ++ [InLeft p ph pr]) ++ InRight l y sh :: c) sr /\
    keeps (inorder (fill c (Node l x h (fill (c1 ++ [InLeft p ph pr]) (Node Leaf y sh sr))))) s s1.
Proof using.
  clear Hw w. intros Hl Hrep. destruct c1 as [|[q qh qr|] c1]; [| |by inversion_clear Hl].
  - destruct (unlink_far_child s c l x h y sh sr p ph pr K Hrep) as (s1 & E & Hr & Hk). exists s1. split_and!; [done| |].
    + apply rep_plug, rep_plug. done.
    + eapply keeps_mono; [|exact Hk]. intros z. rewrite fill_perm. done.
  - assert (rep s (InLeft q qh qr :: c1 ++ InLeft p ph pr :: InRight l x h :: c) (Node Leaf y sh sr)) as Hrep2.
    { apply rep_fill. apply rep_fill in Hrep. change (InLeft q qh qr :: c1 ++ InLeft p ph pr :: InRight l x h :: c) with ((InLeft q qh qr :: c1) ++ [InLeft p ph pr] ++ [InRight l x h] ++ c). by rewrite app_assoc, fill_app, fill_app. }
    destruct (unlink_far_below s c1 c l x h y sh sr q qh qr p ph pr K Hrep2) as (s1 & E & Hr & Hk). exists s1. split_and!; [done| |].
    + by rewrite <- app_assoc.
    + eapply keeps_mono; [|exact Hk]. intros z. rewrite <- fill_perm.
      change (InLeft q qh qr :: c1 ++ InLeft p ph pr :: InRight l x h :: c) with ((InLeft q qh qr :: c1) ++ [InLeft p ph pr] ++ [InRight l x h] ++ c). by rewrite app_assoc, fill_app, fill_app.
Qed.

Lemma climbable_app c1 c2 t : climbable c1 t -> (forall t', climb c1 t = (t', false) -> climbable_up c2 t') -> climbable (c1 ++ c2) t.
Proof using.
  revert t. induction c1 as [|f c1 IH]; intros [|l x h r]; cbn [climbable climb app]; try done.
  - intros (Hl & Hr & H1 & H2 & _) Hc. destruct c2 as [|f c2]; cbn [climbable climbable_up] in *; split_and!; try done. intros t' E. rewrite E in Hc. by apply Hc.
  - intros (Hl & Hr & H1 & H2 & Hf) Hc. split_and!; try done. intros t' E. rewrite E in Hc. apply IH; [by apply Hf|done].
Qed.
Lemma climb_up_app c1 c2 t : climb_up (c1 ++ c2) t = (let '(t', stop) := climb_up c1 t in if stop then (fill c2 t', true) else climb_up c2 t').
Proof using. destruct c1 as [|f c1]; [done|]. apply climb_app. Qed.
Lemma climbable_up_app c1 c2 t : climbable_up c1 t -> (forall t', climb_up c1 t = (t', false) -> climbable_up c2 t') -> climbable_up (c1 ++ c2) t.
Proof using. destruct c1 as [|f c1]; cbn [app climbable_up climb_up]; [intros _ H; by apply H|]. apply climbable_app. Qed.

Lemma outer_grows c t : balanced (fill c t) -> c <> [] -> ht t + 1 <= ht (fill c t).
Proof using.
  revert t. induction c as [|f c IH]; intros t Hb Hne; [done|]. cbn [fill foldl] in *. pose proof (balanced_fill _ _ Hb) as Hp.
  assert (ht t + 1 <= ht (plug f t)) by (destruct f; cbn in *; destruct Hp as (? & ? & -> & _); lia).
  destruct c as [|g c]; [done|]. assert (ht (plug f t) + 1 <= ht (foldl (fun t f => plug f t) (plug f t) (g :: c))) by (by apply IH). lia.
Qed.

(** The successor takes the place of the removed node with its own height: the loop from
    its old parent either stops below it or passes it. *)
Lemma remove_far_balanced c l x h C y sh sr :
  balanced (Node l x h (fill C (Node Leaf y sh sr))) -> ctx_balanced c h -> C <> [] ->
  climbable_up (C ++ InRight l y sh :: c) sr /\
  ((exists r', climb_up (C ++ InRight l y sh :: c) sr = (fill c (Node l y sh r'), true) /\ climbable c (Node l y sh r') /\ balanced (climb c (Node l y sh r')).1) \/
   balanced (climb_up (C ++ InRight l y sh :: c) sr).1).
Proof using.
  clear Hw w. intros (Bl & Br & Eh & H1 & H2) Hc HC. pose proof (outer_grows C _ Br HC) as Hg. pose proof (fill_ctx_balanced C _ Br) as HcC. pose proof (balanced_fill C _ Br) as Hy.
  pose proof (fill_balanced C _ HcC Hy) as (_ & Ho). set (r := fill C (Node Leaf y sh sr)) in *. cbn [ht] in *. destruct Hy as (_ & Bsr & Esh & Hy1 & Hy2). cbn [ht] in *. pose proof (balanced_nonneg sr Bsr).
  destruct (climb_up_balanced C sr sh Bsr HcC ltac:(lia)) as (Hcl & Hres). destruct (climb_up C sr) as [r' stop] eqn:E. destruct Hres as (Br' & Hh' & Hs').
  rewrite <- Ho in *. clearbody r.
  assert (ht l <= ht r' + 2) as K1 by lia. assert (ht r' <= ht l + 2) as K2 by lia. pose proof (fix_node_balanced l y sh r' Bl Br' K1 K2) as Hfix.
  assert (stop = true \/ climbable_up (InRight l y sh :: c) r' /\ balanced (climb_up (InRight l y sh :: c) r').1) as Hpass.
  { destruct stop; [by left|right]. cbn [climbable_up climb_up plug]. edestruct (climb_balanced c l y sh r' h Bl Br' K1 K2 Hc) as (G1 & G2).
    - intros t2 stop2 E2. rewrite E2 in Hfix. destruct Hfix as (_ & _ & Hst & Hb & Hbal).
      destruct (Z.leb_spec (ht l) (ht r' + 1)), (Z.leb_spec (ht r') (ht l + 1)); split; try (intros ->; specialize (Hst eq_refl)); lia.
    - split; [done|]. destruct (climb c (Node l y sh r')). apply G2. }
  split.
  - apply climbable_up_app; [done|]. intros t' E'. rewrite E in E'. injection E' as -> ->. destruct Hpass as [|[]]; done.
  - rewrite climb_up_app, E. destruct stop; [left|right]; [|destruct Hpass as [|[]]; done]. exists r'. specialize (Hs' eq_refl). split; [done|].
    destruct (climb_balanced c l y sh r' h Bl Br' K1 K2 Hc) as (G1 & G2).
    + intros t2 stop2 E2. rewrite E2 in Hfix. destruct Hfix as (_ & _ & Hst & Hb & Hbal). rewrite Hbal by lia. split; [lia|]. intros _. lia.
    + split; [done|]. destruct (climb c (Node l y sh r')). apply G2.
Qed.

(** After the first loop of a removal the second one changes nothing. *)
Lemma rebalance_again fuel s T y :
  avl s T -> y ∈ inorder T -> Z.of_nat (length (inorder T)) < 2 ^ 31 - 2 -> (length (inorder T) <= fuel)%nat ->
  (exists s', util_avl_rebalance w fuel (Some y) s = Ok (tt, s') /\ rep s' [] T /\ keeps (inorder T) s s') /\
  (exists n s', avl_nodes s !! y = Some n /\ util_avl_rebalance w fuel (parent n) s = Ok (tt, s') /\ rep s' [] T /\ keeps (inorder T) s s').
Proof using Hw.
  intros (Hrep & Hb) Hy Hn Hf. destruct (tree_split T y Hy) as (c & l & h & r & ->). pose proof (fill_perm c (Node l y h r)) as P. pose proof (Permutation_length P) as HL. rewrite length_app in HL. cbn [inorder] in HL. rewrite length_app in HL. cbn [length] in HL.
  pose proof (length_context c). apply (rep_fill _ c) in Hrep. pose proof (balanced_fill _ _ Hb) as Hbn. split.
  - destruct (rebalance_loop_run c (Node l y h r) fuel s y) as (s' & Hrun & Hr & Hk); [lia|done|done|by apply climbable_fixed|by rewrite <- P|].
    exists s'. rewrite climb_fixed in Hr by done. split_and!; [done..|]. eapply keeps_mono; [|exact Hk]. intros z. by rewrite <- P.
  - destruct (root_lookup _ _ _ y Hrep eq_refl) as (n & Hln & Hp). destruct (climb_fixed_up c _ Hb) as (Hcl & Hfix).
    destruct (rebalance_up_run c (Node l y h r) fuel s) as (s' & Hrun & Hr & Hk); [lia|done|done|by rewrite <- P|].
    exists n, s'. rewrite Hp. rewrite Hfix in Hr. split_and!; [done..|]. eapply keeps_mono; [|exact Hk]. intros z. by rewrite <- P.
Qed.

(** What a removal leaves behind. *)
Definition removed (x : Z) (T : tree) (s s' : util_avl_root) : Prop :=
  exists T' a b, avl s' T' /\ inorder T = a ++ x :: b /\ inorder T' = a ++ b /\ keeps (inorder T) s s'.

Lemma fix_node_stop l x h r t' : fix_node l x h r = (t', true) -> t' = Node l x h r.
Proof using.
  unfold fix_node. intros H. repeat case_match; try discriminate; injection H as <-; try done; f_equal; by apply Z.eqb_eq.
Qed.

Section Remove.
Context (fuel : nat) (s : util_avl_root) (c : list frame) (l : tree) (x h : Z).

Lemma remove_start r :
  rep s c (Node l x h r) -> root_node s <> None /\ place_of x s = Ok (place_at c, s) /\
  get_node x s = Ok ({| avl_left := root_of l; avl_right := root_of r; parent := up c; height := h |}, s).
Proof using.
  clear Hw w. intros Hrep. split; [|split].
  - apply rep_fill in Hrep. destruct Hrep as (_ & Hc & _). cbn in Hc. rewrite Hc. assert (x ∈ inorder (fill c (Node l x h r))) as Hx by (rewrite fill_perm; cbn; set_solver).
    destruct (fill c (Node l x h r)); cbn in *; [by apply not_elem_of_nil in Hx|done].
  - destruct s as [m rt]. by apply (place_of_run m rt c (Node l x h r)).
  - apply get_node_run. destruct Hrep as ((Hx & _) & _). done.
Qed.

Lemma remove_leaf :
  avl s (fill c (Node l x h Leaf)) -> Z.of_nat (length (inorder (fill c (Node l x h Leaf)))) < 2 ^ 31 - 2 -> (length (inorder (fill c (Node l x h Leaf))) <= fuel)%nat ->
  exists s', util_avl_remove w fuel x s = Ok (tt, s') /\ removed x (fill c (Node l x h Leaf)) s s'.
Proof using Hw.
  intros (Hrep & Hb) Hn Hf. apply (rep_fill _ c) in Hrep. destruct (remove_start Leaf Hrep) as (Hroot & Hpl & Hget). unfold util_avl_remove.
  rewrite (bind_run get _ _ s s eq_refl), bool_decide_eq_false_2 by done. rewrite (bind_run _ _ _ _ _ Hpl), (bind_run _ _ _ _ _ Hget). cbn [avl_left avl_right parent root_of].
  destruct (unlink_leaf s c l x h (mret (up c)) Hrep) as (s1 & E & Hr1 & Hk1). erewrite bind_run by (rewrite E; done).
  pose proof (fill_ctx_balanced _ _ Hb) as Hc. destruct (balanced_fill _ _ Hb) as (Bl & _ & -> & H1 & _). cbn [ht] in *. pose proof (balanced_nonneg l Bl).
  destruct (climb_up_balanced c l _ Bl Hc ltac:(lia)) as (Hcl & Hres). pose proof (fill_perm c (Node l x (Z.max (ht l) 0 + 1) Leaf)) as P. pose proof (Permutation_length P) as HL. pose proof (length_context c).
  cbn [inorder] in HL. rewrite !length_app in HL. cbn [length] in HL.
  destruct (rebalance_up_run c l fuel s1) as (s' & Hrun & Hr & Hk); [lia|done|done|rewrite length_app; lia|]. exists s'. split; [done|].
  exists (climb_up c l).1, (before c ++ inorder l), (after c). split_and!.
  - split; [done|]. destruct (climb_up c l). apply Hres.
  - rewrite inorder_fill. cbn [inorder]. by rewrite <- !app_assoc.
  - by rewrite climb_up_inorder, app_assoc.
  - eapply keeps_trans; (eapply keeps_mono; [|done]); intros z; rewrite P; [done|]. cbn [inorder]. rewrite !elem_of_app. tauto.
Qed.

(** The right child has taken the place of [x] with its own height: the first loop stops
    at it and the second one goes on, or the first one restores the balance. *)
Lemma near_rebalance s1 rx rh rr h0 :
  rep s1 c (Node l rx rh rr) -> balanced l -> balanced rr -> ht l <= ht rr + 2 -> ht rr <= ht l + 2 -> rh = ht rr + 1 -> ctx_balanced c h0 -> h0 = Z.max (ht l) rh + 1 ->
  ht rr <= ht l -> Z.of_nat (length (inorder (fill c (Node l rx rh rr)))) < 2 ^ 31 - 2 -> (length (inorder (fill c (Node l rx rh rr))) <= fuel)%nat ->
  exists s2 n s', util_avl_rebalance w fuel (Some rx) s1 = Ok (tt, s2) /\ avl_nodes s2 !! rx = Some n /\ util_avl_rebalance w fuel (parent n) s2 = Ok (tt, s') /\
    (exists T', avl s' T' /\ inorder T' = before c ++ (inorder l ++ rx :: inorder rr) ++ after c) /\ keeps (inorder (fill c (Node l rx rh rr))) s1 s'.
Proof using Hw.
  intros Hr1 Bl Brr H1 H2 Erh Hc Eh H3 Hn Hf. pose proof (fill_perm c (Node l rx rh rr)) as P. pose proof (Permutation_length P) as HL. pose proof (length_context c) as Hlc. rewrite length_app in HL. cbn [inorder] in HL. rewrite length_app in HL. cbn [length] in HL.
  pose proof (fix_node_balanced l rx rh rr Bl Brr H1 H2) as Hfix. destruct (fix_node l rx rh rr) as [t' stop] eqn:E. destruct Hfix as (Bt & Hi & Hst & Hm & Hbal).
  assert (h0 - 1 <= ht t' <= h0 + 1) as Hh by lia. destruct (climb_up_balanced c t' h0 Bt Hc Hh) as (Hcl & Hres).
  destruct (rebalance_loop_run c (Node l rx rh rr) fuel s1 rx) as (s2 & Hrun & Hr2 & Hk2); [lia|done|done| |by rewrite <- P|].
  { destruct c; cbn [climbable]; split_and!; try done; intros t2 E2; rewrite E in E2; by injection E2 as <- ->. }
  assert (keeps (inorder (fill c (Node l rx rh rr))) s1 s2) as Hk by (eapply keeps_mono; [|exact Hk2]; intros z; by rewrite <- P).
  destruct stop.
  - pose proof (fix_node_stop _ _ _ _ _ E) as ->.
    assert ((climb c (Node l rx rh rr)).1 = fill c (Node l rx rh rr)) as Ec by (destruct c; cbn [climb]; rewrite E; done). rewrite Ec in Hr2. apply (rep_fill _ c) in Hr2.
    destruct (root_lookup _ _ _ rx Hr2 eq_refl) as (n & Hln & Hp). destruct (rebalance_up_run c (Node l rx rh rr) fuel s2) as (s' & Hrun2 & Hr' & Hk'); [lia|done|done|by rewrite <- P|].
    exists s2, n, s'. rewrite Hp. split_and!; try done.
    + exists (climb_up c (Node l rx rh rr)).1. split; [split; [done|]|by rewrite climb_up_inorder]. destruct (climb_up c (Node l rx rh rr)). apply Hres.
    + eapply keeps_trans; [exact Hk|]. eapply keeps_mono; [|exact Hk']. intros z. by rewrite <- P.
  - assert (climb c (Node l rx rh rr) = climb_up c t') as Ec by (destruct c; cbn [climb]; rewrite E; done). rewrite Ec in Hr2.
    pose proof (climb_up_inorder c t') as Hi2. rewrite Hi in Hi2. pose proof (inorder_fill c (Node l rx rh rr)) as Hi3. cbn [inorder] in Hi3. rewrite <- Hi3 in Hi2.
    assert (avl s2 (climb_up c t').1) as Ha by (split; [done|]; destruct (climb_up c t'); apply Hres).
    destruct (rebalance_again fuel s2 _ rx Ha) as (_ & n & s' & G1 & G2 & G3 & G4); [rewrite Hi2, P; cbn [inorder]; set_solver|by rewrite Hi2|by rewrite Hi2|].
    exists s2, n, s'. split_and!; try done.
    + exists (climb_up c t').1. split; [split; [done|apply Ha]|]. by rewrite Hi2, Hi3.
    + eapply keeps_trans; [exact Hk|]. by rewrite Hi2 in G4.
Qed.

Lemma remove_near rx rh rr :
  avl s (fill c (Node l x h (Node Leaf rx rh rr))) -> Z.of_nat (length (inorder (fill c (Node l x h (Node Leaf rx rh rr))))) < 2 ^ 31 - 2 -> (length (inorder (fill c (Node l x h (Node Leaf rx rh rr)))) <= fuel)%nat ->
  exists s', util_avl_remove w fuel x s = Ok (tt, s') /\ removed x (fill c (Node l x h (Node Leaf rx rh rr))) s s'.
Proof using Hw.
  intros (Hrep & Hb) Hn Hf. pose proof (fill_perm c (Node l x h (Node Leaf rx rh rr))) as P. pose proof (Permutation_length P) as HL. pose proof (length_context c) as Hlc.
  pose proof (fill_perm c (Node l rx rh rr)) as P1. pose proof (Permutation_length P1) as HL1. rewrite length_app in HL, HL1. cbn [inorder app] in HL, HL1. rewrite length_app in HL, HL1. cbn [length] in HL, HL1.
  apply (rep_fill _ c) in Hrep. destruct (remove_start _ Hrep) as (Hroot & Hpl & Hget). unfold util_avl_remove.
  rewrite (bind_run get _ _ s s eq_refl), bool_decide_eq_false_2 by done. rewrite (bind_run _ _ _ _ _ Hpl), (bind_run _ _ _ _ _ Hget). cbn [avl_left avl_right parent root_of].
  pose proof Hrep as ((_ & _ & Hrx & _) & _). 
  destruct (unlink_near s c l x h rx rh rr (util_avl_rebalance w fuel (Some rx) ;; r ← get_node rx; mret (parent r)) Hrep) as (s1 & E & Hr1 & Hk1).
  pose proof (fill_ctx_balanced _ _ Hb) as Hc. destruct (balanced_fill _ _ Hb) as (Bl & Br & Eh & H1 & H2). cbn [ht] in *. destruct Br as (_ & Brr & Erh & H3 & H4). cbn [ht] in *. pose proof (balanced_nonneg l Bl). pose proof (balanced_nonneg rr Brr).
  destruct (near_rebalance s1 rx rh rr h Hr1 Bl Brr) as (s2 & n & s' & G1 & G2 & G3 & (T' & G4 & G5) & G6); [lia|lia|lia|done|done|lia|rewrite HL1; lia|lia|].
  exists s'. rewrite (bind_run _ _ _ (parent n) s2); [|].
  - split; [exact G3|]. exists T', (before c ++ inorder l), (rx :: inorder rr ++ after c). split_and!; [done| | |].
    + rewrite inorder_fill. cbn [inorder app]. by rewrite <- !app_assoc.
    + rewrite G5. by rewrite <- !app_assoc.
    + eapply keeps_trans; (eapply keeps_mono; [|done]); intros z; rewrite ?P, ?P1; [done|]. cbn [inorder app]. rewrite !elem_of_app, !elem_of_cons. tauto.
  - rewrite (bind_run _ _ _ _ _ (get_node_run _ _ _ Hrx)). cbn [avl_left root_of]. by rewrite E, (bind_run _ _ _ _ _ G1), (bind_run _ _ _ _ _ (get_node_run _ _ _ G2)).
Qed.

Lemma before_app c1 c2 : before (c1 ++ c2) = before c2 ++ before c1.
Proof using. induction c1 as [|[y hy r|l' y hy] c1 IH]; cbn [app before]; [by rewrite app_nil_r|done|]. by rewrite IH, <- !app_assoc. Qed.
Lemma after_app c1 c2 : after (c1 ++ c2) = after c1 ++ after c2.
Proof using. induction c1 as [|[y hy r|l' y hy] c1 IH]; cbn [app after]; rewrite ?IH, <- ?app_assoc; done. Qed.
Lemma before_left c1 : Forall is_left c1 -> before c1 = [].
Proof using. induction 1 as [|[] c1 Hf _ IH]; done. Qed.

(** The two loops after the successor [y] has taken the place of [x]. *)
Lemma far_rebalance s1 C y sh sr :
  rep s1 (C ++ InRight l y sh :: c) sr -> C <> [] -> Forall is_left C ->
  balanced (Node l x h (fill C (Node Leaf y sh sr))) -> ctx_balanced c h ->
  Z.of_nat (length (inorder (fill (C ++ InRight l y sh :: c) sr))) < 2 ^ 31 - 2 -> (length (inorder (fill (C ++ InRight l y sh :: c) sr)) <= fuel)%nat ->
  exists s2 s', util_avl_rebalance w fuel (up (C ++ InRight l y sh :: c)) s1 = Ok (tt, s2) /\ util_avl_rebalance w fuel (Some y) s2 = Ok (tt, s') /\
    (exists T', avl s' T' /\ inorder T' = inorder (fill (C ++ InRight l y sh :: c) sr)) /\ keeps (inorder (fill (C ++ InRight l y sh :: c) sr)) s1 s'.
Proof using Hw.
  intros Hr1 HC Hleft Hb Hc Hn Hf. set (D := C ++ InRight l y sh :: c) in *. pose proof (fill_perm D sr) as P. pose proof (Permutation_length P) as HL. pose proof (length_context D) as Hlc. rewrite length_app in HL.
  destruct (remove_far_balanced c l x h C y sh sr Hb Hc HC) as (Hcl & Hcases). fold D in Hcl, Hcases.
  destruct (rebalance_up_run D sr fuel s1) as (s2 & Hrun & Hr2 & Hk2); [lia|done|done|by rewrite <- P|].
  assert (keeps (inorder (fill D sr)) s1 s2) as Hk by (eapply keeps_mono; [|exact Hk2]; intros z; by rewrite <- P).
  pose proof (climb_up_inorder D sr) as Hi. rewrite <- inorder_fill in Hi. destruct Hcases as [(r' & E & Hcl2 & Hb2)|Hb2].
  - rewrite E in Hr2, Hi. cbn [fst] in Hr2, Hi. pose proof (fill_perm c (Node l y sh r')) as P2. rewrite Hi in P2. pose proof (Permutation_length P2) as HL2. pose proof (length_context c). rewrite length_app in HL2. cbn [inorder] in HL2. rewrite length_app in HL2. cbn [length] in HL2.
    apply (rep_fill _ c) in Hr2. destruct (rebalance_loop_run c (Node l y sh r') fuel s2 y) as (s' & Hrun2 & Hr' & Hk'); [lia|done|done|done|by rewrite <- P2|].
    exists s2, s'. split_and!; [done|done| |].
    + exists (climb c (Node l y sh r')).1. split; [done|]. rewrite climb_inorder, <- inorder_fill. done.
    + eapply keeps_trans; [exact Hk|]. eapply keeps_mono; [|exact Hk']. intros z. by rewrite <- P2.
  - destruct (rebalance_again fuel s2 _ y (conj Hr2 Hb2)) as ((s' & G1 & G2 & G3) & _).
    + rewrite Hi, P. unfold D. rewrite ctx_nodes_app. cbn [ctx_nodes frame_node]. rewrite !elem_of_app, elem_of_cons. tauto.
    + by rewrite Hi.
    + by rewrite Hi.
    + exists s2, s'. split_and!; [done|done| |].
      * exists (climb_up D sr).1. done.
      * rewrite Hi in G3. by eapply keeps_trans.
Qed.

Lemma remove_far a y0 h0 b p ph pr :
  let r := Node (Node a y0 h0 b) p ph pr in
  avl s (fill c (Node l x h r)) -> Z.of_nat (length (inorder (fill c (Node l x h r)))) < 2 ^ 31 - 2 -> (length (inorder (fill c (Node l x h r))) <= fuel)%nat ->
  exists s', util_avl_remove w fuel x s = Ok (tt, s') /\ removed x (fill c (Node l x h r)) s s'.
Proof using Hw.
  intros r (Hrep & Hb) Hn Hf. apply (rep_fill _ c) in Hrep. destruct (remove_start _ Hrep) as (Hroot & Hpl & Hget). pose proof Hrep as ((_ & _ & Hp & Hleft & _) & _).
  pose proof (fill_perm c (Node l x h r)) as P. pose proof (Permutation_length P) as HL. rewrite length_app in HL.
  destruct (leftmost_run s a y0 h0 b (Some p) p fuel Hleft) as (c1 & y & sh & sr & E & Hl & Hrun).
  { unfold r in *. cbn [inorder] in *. repeat progress (rewrite ?length_app in *; cbn [length] in * ). lia. }
  assert (r = fill (c1 ++ [InLeft p ph pr]) (Node Leaf y sh sr)) as Er by (rewrite fill_app, <- E; done).
  unfold util_avl_remove. rewrite (bind_run get _ _ s s eq_refl), bool_decide_eq_false_2 by done. rewrite (bind_run _ _ _ _ _ Hpl), (bind_run _ _ _ _ _ Hget). cbn [avl_left avl_right parent root_of r].
  pose proof (fill_ctx_balanced _ _ Hb) as Hc. pose proof (balanced_fill _ _ Hb) as Hbn. clearbody r. subst r.
  destruct (unlink_far_run s c l x h c1 y sh sr p ph pr (util_avl_rebalance w fuel (up ((c1 ++ [InLeft p ph pr]) ++ InRight l y sh :: c)) ;; mret (Some y)) Hl Hrep) as (s1 & E1 & Hr1 & Hk1).
  set (C := c1 ++ [InLeft p ph pr]) in *. assert (Forall is_left C) as HlC by (apply Forall_app; by repeat constructor).
  assert (inorder (fill c (Node l x h (fill C (Node Leaf y sh sr)))) = (before c ++ inorder l) ++ x :: (y :: inorder sr ++ after C ++ after c)) as Hi1.
  { rewrite inorder_fill. cbn [inorder]. rewrite inorder_fill, (before_left C) by done. cbn [inorder app]. rewrite <- !app_assoc. cbn [app]. by rewrite <- !app_assoc. }
  assert (inorder (fill (C ++ InRight l y sh :: c) sr) = (before c ++ inorder l) ++ (y :: inorder sr ++ after C ++ after c)) as Hi2.
  { rewrite inorder_fill, before_app, after_app, (before_left C) by done. cbn [before after]. by rewrite app_nil_r, <- !app_assoc. }
  assert (length (inorder (fill c (Node l x h (fill C (Node Leaf y sh sr))))) = S (length (inorder (fill (C ++ InRight l y sh :: c) sr)))) as HLL by (rewrite Hi1, Hi2, !length_app; cbn [length]; lia).
  destruct (far_rebalance s1 C y sh sr) as (s2 & s' & G1 & G2 & (T' & G3 & G4) & G5); [done|by destruct c1|done|done|done|lia|lia|].
  exists s'. rewrite (bind_run _ _ _ (Some y) s2).
  - split; [exact G2|]. exists T', (before c ++ inorder l), (y :: inorder sr ++ after C ++ after c). split_and!; [done|done|by rewrite G4|].
    eapply keeps_trans; [exact Hk1|]. eapply keeps_mono; [|exact G5]. intros z. rewrite Hi1, Hi2, !elem_of_app, !elem_of_cons. tauto.
  - rewrite (bind_run _ _ _ _ _ (get_node_run _ _ _ Hp)). cbn [avl_left root_of]. rewrite (bind_run _ _ _ _ _ Hrun).
    assert (up (C ++ InRight l y sh :: c) = Some (default p (up c1))) as Eup by by destruct c1. rewrite Eup in *.
    transitivity ((util_avl_rebalance w fuel (Some (default p (up c1))) ;; mret (Some y)) s1); [exact E1|]. by rewrite (bind_run _ _ _ _ _ G1).
Qed.
End Remove.

Theorem avl_remove fuel s T x :
  avl s T -> x ∈ inorder T -> Z.of_nat (length (inorder T)) < 2 ^ 31 - 2 -> (length (inorder T) <= fuel)%nat ->
  exists s', util_avl_remove w fuel x s = Ok (tt, s') /\ removed x T s s'.
Proof using Hw.
  intros Ha Hx Hn Hf. destruct (tree_split T x Hx) as (c & l & h & r & ->). destruct r as [|[|a y0 h0 b] p ph pr]; [by apply remove_leaf|by apply remove_near|by apply remove_far].
Qed.
End Rotations.

(** ** Walking *)

Definition edge (left : bool) (l : list Z) : option Z := if left then head l else last l.

Lemma edge_inorder left l x h r : edge left (inorder (Node l x h r)) = Some (default x (edge left (inorder (if left then l else r)))).
Proof.
  destruct left; cbn [edge inorder]; [by destruct (inorder l)|]. rewrite last_app_cons, last_cons. by destruct (last (inorder r)).
Qed.

Lemma go_down_run left s t par x fuel :
  tree_at (avl_nodes s) t par -> root_of t = Some x -> (length (inorder t) <= fuel)%nat ->
  exists y, go_down left fuel x s = Ok (y, s) /\ edge left (inorder t) = Some y.
Proof.
  revert par x fuel. induction t as [|l IHl y h r IHr]; intros par x [|fuel] Ht Hroot Hf; try done; injection Hroot as ->; cbn [inorder] in Hf; rewrite length_app in Hf; cbn [length] in Hf; [lia|].
  destruct Ht as (Hx & Hl & Hr). cbn [go_down]. rewrite (bind_run _ _ _ _ _ (get_node_run _ _ _ Hx)). cbn [avl_left avl_right]. rewrite edge_inorder.
  destruct left; cbn beta iota.
  - destruct (root_of l) as [z|] eqn:E; [|destruct l; [by exists x|done] ]. destruct (IHl _ z fuel Hl eq_refl) as (y & Hrun & Hy); [lia|]. exists y. by rewrite Hy.
  - destruct (root_of r) as [z|] eqn:E; [|destruct r; [by exists x|done] ]. destruct (IHr _ z fuel Hr eq_refl) as (y & Hrun & Hy); [lia|]. exists y. by rewrite Hy.
Qed.

Lemma go_up_run right s c t x fuel :
  rep s c t -> root_of t = Some x -> (length c < fuel)%nat ->
  go_up right fuel x s = Ok (edge right (if right then after c else before c), s).
Proof.
  revert t x fuel. induction c as [|f c IH]; intros t x [|fuel] Hrep Hroot Hf; cbn [length] in Hf; try lia; cbn [go_up];
  (destruct (root_lookup _ _ _ _ Hrep Hroot) as (n & Hn & Hp); rewrite (bind_run _ _ _ _ _ (get_node_run _ _ _ Hn)), Hp; cbn [up]).
  - by destruct right.
  - pose proof Hrep as (_ & (Hfr & _) & Hnd). rewrite (bind_run _ _ _ _ _ (get_node_run _ _ _ Hfr)). apply rep_plug in Hrep.
    assert (root_of (sibling f) <> Some x) as Hsib.
    { apply root_not. cbn [ctx_nodes] in Hnd. apply NoDup_app in Hnd as (_ & Hd & _). intros Hx. apply (Hd x); [destruct t as [|tl z hz tr]; [done|]; injection Hroot as ->; cbn [inorder]; set_solver|set_solver]. }
    destruct f as [z hz zr|zl z hz]; cbn [frame_struct avl_left avl_right frame_node sibling before after plug] in *; destruct right; rewrite ?Hroot;
    first [rewrite bool_decide_eq_true_2 by done; rewrite (IH _ z fuel Hrep) by (done||lia); done|rewrite bool_decide_eq_false_2 by done].
    + done.
    + cbn [edge]. rewrite app_assoc, last_snoc. done.
Qed.

(** [util_avl_next] and [util_avl_prev] give the neighbours in the order of the tree,
    [util_avl_first] and [util_avl_last] its ends. *)
Theorem avl_walk fuel s T a x b :
  rep s [] T -> inorder T = a ++ x :: b -> (length (inorder T) <= fuel)%nat ->
  util_avl_next fuel (Some x) s = Ok (head b, s) /\ util_avl_prev fuel (Some x) s = Ok (last a, s) /\
  util_avl_first fuel s = Ok (head (a ++ [x]), s) /\ util_avl_last fuel s = Ok (last (x :: b), s).
Proof.
  intros Hrep Hi Hf. pose proof Hrep as (Ht & Hroot & Hnd). cbn [ctx_nodes] in Hnd. rewrite app_nil_r in Hnd.
  destruct (tree_split T x) as (c & l & h & r & ->); [rewrite Hi; set_solver|].
  pose proof (fill_perm c (Node l x h r)) as P. pose proof (Permutation_length P) as HL. pose proof (length_context c). rewrite length_app in HL. cbn [inorder] in HL. rewrite length_app in HL. cbn [length] in HL.
  assert (a = before c ++ inorder l /\ b = inorder r ++ after c) as (-> & ->).
  { apply (nodup_split a b _ _ x); [by rewrite <- Hi|]. rewrite <- Hi, inorder_fill. cbn [inorder]. by rewrite <- !app_assoc. }
  assert (rep s c (Node l x h r)) as Hrc by by apply rep_fill. pose proof Hrc as ((Hx & Hl & Hr) & _).
  unfold util_avl_next, util_avl_prev. rewrite !(bind_run _ _ _ _ _ (get_node_run _ _ _ Hx)). cbn [avl_left avl_right].
  cbn [tree_at root_of] in *. split_and!.
  - destruct (root_of r) as [z|] eqn:E.
    + destruct (go_down_run true s r _ z fuel Hr E) as (y & Hrun & Hy); [lia|]. rewrite (bind_run _ _ _ _ _ Hrun). cbn [edge] in Hy. destruct (inorder r); [done|]. by injection Hy as ->.
    + destruct r; [|done]. by rewrite (go_up_run true s c _ x fuel Hrc) by (done || lia).
  - destruct (root_of l) as [z|] eqn:E.
    + destruct (go_down_run false s l _ z fuel Hl E) as (y & Hrun & Hy); [lia|]. rewrite (bind_run _ _ _ _ _ Hrun). cbn [edge] in Hy. by rewrite last_app, Hy.
    + destruct l; [|done]. rewrite (go_up_run false s c _ x fuel Hrc) by (done || lia). by rewrite app_nil_r.
  - cbn [ctx_at] in Hroot. unfold util_avl_first. rewrite (bind_run get _ _ s s eq_refl), Hroot. destruct (root_of (fill c (Node l x h r))) as [z|] eqn:E.
    + destruct (go_down_run true s _ _ z fuel Ht E Hf) as (y & Hrun & Hy). rewrite (bind_run _ _ _ _ _ Hrun). rewrite Hi in Hy. cbn [edge] in Hy. rewrite <- Hy. by destruct (before c ++ inorder l).
    + destruct (fill c (Node l x h r)); [|done]. by destruct (before c ++ inorder l).
  - cbn [ctx_at] in Hroot. unfold util_avl_last. rewrite (bind_run get _ _ s s eq_refl), Hroot. destruct (root_of (fill c (Node l x h r))) as [z|] eqn:E.
    + destruct (go_down_run false s _ _ z fuel Ht E Hf) as (y & Hrun & Hy). rewrite (bind_run _ _ _ _ _ Hrun). rewrite Hi in Hy. cbn [edge] in Hy. by rewrite <- Hy, last_app_cons.
    + destruct (fill c (Node l x h r)); [|done]. by destruct (before c ++ inorder l).
Qed.
