(* ===== verification/RtAspace.v ===== *)
(** * RT-Thread: the address space (components/mm)

    The areas of an address space are kept in an AVL tree ordered by their start
    (avl_adpt.c); a new area gets a free range of addresses (mm_aspace.c).  An area is
    known by the address of its tree node.  Pointers and sizes have [w] bits; a loop along
    the tree has fuel. *)
From stdpp Require Import sorting.
From S2P Require Import Prelude Outcome RtAvl RtAvlFacts.
#[local] Open Scope string_scope.
#[local] Open Scope list_scope.
#[local] Open Scope Z_scope.

Record rt_varea := { va_start : Z; va_size : Z }.
Record rt_aspace := { aspace_tree : util_avl_root; vareas : gmap Z rt_varea }.
Record rt_mm_va_hint := { limit_start : Z; limit_range_size : Z; prefer : Z; map_size : Z; flags : Z }.

Abbreviation As := (ST rt_aspace).

Definition RT_EOK : Z := 0.
Definition RT_ENOSPC : Z := 13.
Definition MMF_MAP_FIXED : Z := Z.shiftl 1 9.
Definition MMF_PREFETCH : Z := Z.shiftl 1 10.
Definition MMF_TEXT : Z := Z.shiftl 1 12.
Definition MMF_STATIC_ALLOC : Z := Z.shiftl 1 13.
Definition MMF_REQUEST_ALIGN : Z := Z.shiftl 1 28.
Definition _MMF_ALIGN_MASK : Z := 0x7f.
Definition MMF_GET_ALIGN (src : Z) : Z := Z.land src _MMF_ALIGN_MASK.

Definition on_tree {A} (m : An A) : As A := fun s =>
  match m (aspace_tree s) with
  | Ok (a, t) => Ok (a, {s with aspace_tree := t})
  | Abort e => Abort e
  | Undef e => Undef e
  end.
(** [VAREA_ENTRY(node)], followed. *)
Definition get_varea (x : Z) : As rt_varea := fun s => match vareas s !! x with Some v => Ok (v, s) | None => Undef "not an area" end.
Definition set_start (x v : Z) : As unit := fun s =>
  match vareas s !! x with Some a => Ok (tt, {s with vareas := <[x := {| va_start := v; va_size := va_size a |}]> (vareas s)}) | None => Undef "not an area" end.

(** [*next] *)
Definition load_place (pl : place) : An (option Z) :=
  match pl with
  | RootPlace => s ← get; mret (root_node s)
  | LeftPlace p => n ← get_node p; mret (avl_left n)
  | RightPlace p => n ← get_node p; mret (avl_right n)
  end.

Section Aspace.
Variable w : Z.
Abbreviation uw x := (wrap w x).

(** ** The tree of areas *)

Definition _aspace_bst_init : As Z := on_tree (modify (fun t => {t with root_node := None})) ;; mret RT_EOK.

Definition compare_overlap (as_ ae bs be : Z) : Z := if be <? as_ then 1 else if ae <? bs then -1 else 0.
Definition compare_exceed (as_ ae bs be : Z) : Z := if bs <? as_ then 1 else if as_ <? bs then -1 else 0.

Fixpoint search_loop (fuel : nat) (compare : Z -> Z -> Z -> Z -> Z) (rs re : Z) (node : option Z) : As (option Z) :=
  match node, fuel with
  | None, _ => mret None
  | Some _, O => undef "the loop does not end"
  | Some x, S fuel' =>
      varea ← get_varea x;
      let cmp := compare rs re (va_start varea) (uw (va_start varea + va_size varea - 1)) in
      if cmp <? 0 then n ← on_tree (get_node x); search_loop fuel' compare rs re (avl_left n)
      else if 0 <? cmp then n ← on_tree (get_node x); search_loop fuel' compare rs re (avl_right n)
      else mret (Some x)
  end.
Definition search (fuel : nat) (rs re : Z) (compare : Z -> Z -> Z -> Z -> Z) : As (option Z) :=
  s ← get; search_loop fuel compare rs re (root_node (aspace_tree s)).

Definition _aspace_bst_search (fuel : nat) (key : Z) : As (option Z) := search fuel key key compare_overlap.
Definition _aspace_bst_search_overlap (fuel : nat) (rs re : Z) : As (option Z) := search fuel rs re compare_overlap.

Definition PTRDIFF_MAX : Z := 2 ^ (w - 1) - 1.
Fixpoint exceed_loop (fuel : nat) (start : Z) (closest : option Z) (min_off : Z) (node : option Z) : As (option Z) :=
  match node, fuel with
  | None, _ => mret closest
  | Some _, O => undef "the loop does not end"
  | Some x, S fuel' =>
      varea ← get_varea x;
      let va_s := va_start varea in
      let cmp := compare_exceed start start va_s va_s in
      if cmp <? 0 then
        let off := sext w (va_s - start) in
        let better := off <? min_off in
        n ← on_tree (get_node x);
        exceed_loop fuel' start (if better then Some x else closest) (if better then off else min_off) (avl_left n)
      else if 0 <? cmp then n ← on_tree (get_node x); exceed_loop fuel' start closest min_off (avl_right n)
      else mret (Some x)
  end.
Definition _aspace_bst_search_exceed (fuel : nat) (start : Z) : As (option Z) :=
  s ← get; exceed_loop fuel start None PTRDIFF_MAX (root_node (aspace_tree s)).

(** The loop of [_aspace_bst_insert]: the parent and the place of the new node, [None] if
    there is an area with this start. *)
Fixpoint find_place (fuel : nat) (key : Z) (current : option Z) (next : place) : As (option (option Z * place)) :=
  match fuel with
  | O => undef "the loop does not end"
  | S fuel' =>
      node ← on_tree (load_place next);
      match node with
      | None => mret (Some (current, next))
      | Some x =>
          data ← get_varea x;
          if key <? va_start data then find_place fuel' key (Some x) (LeftPlace x)
          else if va_start data <? key then find_place fuel' key (Some x) (RightPlace x)
          else mret None
      end
  end.
Definition _aspace_bst_insert (fuel : nat) (varea : Z) : As unit :=
  v ← get_varea varea;
  found ← find_place fuel (va_start v) None RootPlace;
  match found with
  | None => mret tt
  | Some (current, next) => on_tree (util_avl_link varea current next) ;; on_tree (util_avl_rebalance w fuel current)
  end.
Definition _aspace_bst_remove (fuel : nat) (varea : Z) : As unit := on_tree (util_avl_remove w fuel varea).
Definition ASPACE_VAREA_NEXT (fuel : nat) (varea : Z) : As (option Z) := on_tree (util_avl_next fuel (Some varea)).

(** ** Checks of a request *)

Definition _not_in_range (start length limit_s limit_size : Z) : bool :=
  if negb (start =? 0) then (uw (- start) <? length) || (start <? limit_s) || (limit_size <? uw (length + uw (start - limit_s)))
  else limit_size <? length.
Definition _not_align (start length mask : Z) : bool := negb (start =? 0) && (negb (Z.land start mask =? 0) || negb (Z.land length mask =? 0)).
Definition _not_support (flags : Z) : bool :=
  let support_ops := Z.lor (Z.lor (Z.lor (Z.lor MMF_PREFETCH MMF_MAP_FIXED) MMF_TEXT) MMF_STATIC_ALLOC) MMF_REQUEST_ALIGN in
  negb (Z.land flags (uw (Z.lnot (Z.lor support_ops _MMF_ALIGN_MASK))) =? 0).

(** ** The search for a free range: the start, 0 if there is none *)

Definition _lower (a b : Z) : Z := if a <? b then a else b.
Definition _align (va align_mask : Z) : Z := Z.land (uw (va + uw (Z.lnot align_mask))) align_mask.

(** [walk] is the fuel of the steps to the next area. *)
Fixpoint ascending_loop (walk fuel : nat) (varea : option Z) (req_size align_mask limit_end : Z) : As Z :=
  match varea, fuel with
  | None, _ => mret 0
  | Some _, O => undef "the loop does not end"
  | Some x, S fuel' =>
      v ← get_varea x;
      if va_start v <? limit_end then
        let candidate := _align (uw (va_start v + va_size v)) align_mask in
        if (limit_end <? candidate) || (uw (limit_end - candidate + 1) <? req_size) then mret 0
        else
          nx_va ← ASPACE_VAREA_NEXT walk x;
          match nx_va with
          | Some y =>
              nv ← get_varea y;
              let gap_size := uw (_lower limit_end (uw (va_start nv - 1)) - candidate + 1) in
              if req_size <=? gap_size then mret candidate else ascending_loop walk fuel' nx_va req_size align_mask limit_end
          | None => mret candidate
          end
      else mret 0
  end.
Definition _ascending_search (fuel : nat) : option Z -> Z -> Z -> Z -> As Z := ascending_loop fuel fuel.

Definition _find_head_and_asc_search (fuel : nat) (req_size align_mask limit_s limit_end : Z) : As Z :=
  varea ← _aspace_bst_search_exceed fuel limit_s;
  match varea with
  | Some x =>
      v ← get_varea x;
      let candidate := _align limit_s align_mask in
      let gap_size := uw (va_start v - candidate) in
      if req_size <=? gap_size then
        former ← _aspace_bst_search fuel limit_s;
        match former with
        | Some f =>
            fv ← get_varea f;
            let candidate := _align (uw (va_start fv + va_size fv)) align_mask in
            let gap_size := uw (va_start v - candidate) in
            if req_size <=? gap_size then mret candidate else _ascending_search fuel varea req_size align_mask limit_end
        | None => mret candidate
        end
      else _ascending_search fuel varea req_size align_mask limit_end
  | None =>
      let candidate := _align limit_s align_mask in
      let gap_size := uw (limit_end - candidate + 1) in
      if req_size <=? gap_size then mret candidate else mret 0
  end.

Definition _find_free (fuel : nat) (prefer req_size limit_s limit_size flags : Z) : As Z :=
  let limit_end := uw (limit_s + limit_size - 1) in
  align_mask ← (if negb (Z.land flags MMF_REQUEST_ALIGN =? 0) then
    (* 1 << n in int *)
    if MMF_GET_ALIGN flags <? 31 then mret (uw (Z.lnot (Z.shiftl 1 (MMF_GET_ALIGN flags) - 1))) else undef "shift out of range"
    else mret (uw (Z.lnot 0)));
  if negb (prefer =? 0) then
    let prefer := _align prefer align_mask in
    varea ← _aspace_bst_search_overlap fuel prefer (uw (prefer + req_size - 1));
    match varea with
    | None => mret prefer
    | Some x =>
        if negb (Z.land flags MMF_MAP_FIXED =? 0) then mret 0
        else
          va ← _ascending_search fuel varea req_size align_mask limit_end;
          if va =? 0 then
            v ← get_varea x;
            _find_head_and_asc_search fuel req_size align_mask limit_s (uw (va_start v - 1))
          else mret va
    end
  else _find_head_and_asc_search fuel req_size align_mask limit_s limit_end.

Definition _varea_install (fuel : nat) (varea : Z) (hint : rt_mm_va_hint) : As Z :=
  alloc_va ← _find_free fuel (prefer hint) (map_size hint) (limit_start hint) (limit_range_size hint) (flags hint);
  if negb (alloc_va =? 0) then set_start varea alloc_va ;; _aspace_bst_insert fuel varea ;; mret RT_EOK
  else mret (- RT_ENOSPC).
End Aspace.

(** ** The areas in order *)

Definition start_of (s : rt_aspace) (x : Z) : Z := from_option va_start 0 (vareas s !! x).
Definition end_of (s : rt_aspace) (x : Z) : Z := from_option (fun v => va_start v + va_size v) 0 (vareas s !! x).

(** The tree [T] holds areas that do not overlap, in the order of their addresses. *)
Record aspace_ok (w : Z) (s : rt_aspace) (T : tree) : Prop := {
  ok_avl : avl (aspace_tree s) T;
  ok_areas : forall x, x ∈ inorder T -> is_Some (vareas s !! x) /\ 0 <= start_of s x < end_of s x /\ end_of s x <= 2 ^ w;
  ok_order : StronglySorted (fun x y => end_of s x <= start_of s y) (inorder T) }.

Lemma on_tree_run {A} (m : An A) s a t : m (aspace_tree s) = Ok (a, t) -> on_tree m s = Ok (a, {s with aspace_tree := t}).
Proof. intros H. unfold on_tree. by rewrite H. Qed.
Lemma on_tree_read {A} (m : An A) s a : m (aspace_tree s) = Ok (a, aspace_tree s) -> on_tree m s = Ok (a, s).
Proof. intros H. rewrite (on_tree_run _ _ _ _ H). by destruct s. Qed.
Lemma get_varea_run s x : is_Some (vareas s !! x) -> exists v, get_varea x s = Ok (v, s) /\ va_start v = start_of s x /\ va_start v + va_size v = end_of s x.
Proof. intros [v Hv]. exists v. unfold get_varea, start_of, end_of. by rewrite Hv. Qed.

Lemma sorted_weaken (R R' : relation Z) (l : list Z) : (forall x y, x ∈ l -> y ∈ l -> R x y -> R' x y) -> StronglySorted R l -> StronglySorted R' l.
Proof.
  induction l as [|x l IH]; intros HR Hs; [constructor|]. apply StronglySorted_cons in Hs as (Hx & Hs). apply StronglySorted_cons. rewrite Forall_forall in Hx |- *.
  split; [intros y Hy; apply HR; [set_solver|set_solver|by apply Hx]|apply IH; [intros; apply HR; set_solver|done] ].
Qed.

Lemma filter_all_out (P : Z -> Prop) `{!forall x, Decision (P x)} (l : list Z) : (forall x, x ∈ l -> ~ P x) -> filter P l = [].
Proof. induction l as [|x l IH]; intros Hn; [done|]. rewrite filter_cons_False by (apply Hn; set_solver). apply IH. set_solver. Qed.

Section AspaceFacts.
Context (w : Z) (Hw : 32 <= w).

(** The searches go down one branch: [cmp] falls along the tree. *)
Lemma search_loop_run s compare rs re t par fuel :
  tree_at (avl_nodes (aspace_tree s)) t par -> (forall x, x ∈ inorder t -> is_Some (vareas s !! x)) -> (length (inorder t) <= fuel)%nat ->
  let cmp x := compare rs re (start_of s x) (wrap w (end_of s x - 1)) in
  StronglySorted (fun x y => cmp y <= cmp x) (inorder t) ->
  exists r, search_loop w fuel compare rs re (root_of t) s = Ok (r, s) /\
    match r with Some x => x ∈ inorder t /\ cmp x = 0 | None => forall x, x ∈ inorder t -> cmp x <> 0 end.
Proof using.
  clear Hw. intros Ht Ha Hf cmp. revert par fuel Ht Ha Hf. induction t as [|l IHl x h r IHr]; intros par fuel Ht Ha Hf Hs; [exists None; split; [by destruct fuel|by intros x ?%not_elem_of_nil]|].
  cbn [inorder] in *. rewrite length_app in Hf. cbn [length] in Hf. destruct fuel as [|fuel]; [lia|]. destruct Ht as (Hx & Hl & Hr). cbn [root_of search_loop].
  destruct (get_varea_run s x) as (v & Hv & Ev1 & Ev2); [apply Ha; set_solver|]. rewrite (bind_run _ _ _ _ _ Hv), Ev2, Ev1. fold (cmp x).
  apply StronglySorted_app in Hs as (Hlx & Hsl & Hsr). apply StronglySorted_cons in Hsr as (Hxr & Hsr). rewrite Forall_forall in Hxr.
  destruct (Z.ltb_spec (cmp x) 0); [|destruct (Z.ltb_spec 0 (cmp x))].
  - rewrite (bind_run _ _ _ _ _ (on_tree_read _ _ _ (get_node_run _ _ _ Hx))). cbn [avl_left]. destruct (IHl (Some x) fuel) as (y & Hrun & Hy); [done|set_solver|lia|done|]. exists y. split; [done|].
    destruct y as [y|]; [set_solver|]. intros z. rewrite elem_of_app, elem_of_cons. intros [Hz|[->|Hz] ]; [by apply Hy|lia|]. specialize (Hxr z Hz). lia.
  - rewrite (bind_run _ _ _ _ _ (on_tree_read _ _ _ (get_node_run _ _ _ Hx))). cbn [avl_right]. destruct (IHr (Some x) fuel) as (y & Hrun & Hy); [done|set_solver|lia|done|]. exists y. split; [done|].
    destruct y as [y|]; [set_solver|]. intros z. rewrite elem_of_app, elem_of_cons. intros [Hz|[->|Hz] ]; [|lia|by apply Hy]. specialize (Hlx z x Hz). cbn in Hlx. specialize (Hlx ltac:(set_solver)). lia.
  - exists (Some x). split; [done|]. split; [set_solver|lia].
Qed.

(** Two facts about neighbours in the order. *)
Lemma ok_in s T x : aspace_ok w s T -> x ∈ inorder T -> 0 <= start_of s x < end_of s x /\ end_of s x <= 2 ^ w.
Proof using. intros Hok Hx. by apply (ok_areas _ _ _ Hok). Qed.

Lemma overlap_mono s T rs re : aspace_ok w s T -> rs <= re ->
  StronglySorted (fun x y => compare_overlap rs re (start_of s y) (wrap w (end_of s y - 1)) <= compare_overlap rs re (start_of s x) (wrap w (end_of s x - 1))) (inorder T).
Proof using Hw.
  intros Hok Hr. eapply sorted_weaken; [|exact (ok_order _ _ _ Hok)]. intros x y Hx Hy Hxy. pose proof (ok_in s T x Hok Hx). pose proof (ok_in s T y Hok Hy). cbn beta in *.
  rewrite !wrap_small by (unfold in_u; lia). unfold compare_overlap. repeat case_match; lia.
Qed.

Lemma search_overlap_run s T rs re fuel : aspace_ok w s T -> 0 <= rs <= re -> (length (inorder T) <= fuel)%nat ->
  exists r, _aspace_bst_search_overlap w fuel rs re s = Ok (r, s) /\
    match r with Some x => x ∈ inorder T /\ start_of s x <= re /\ rs < end_of s x | None => forall x, x ∈ inorder T -> re < start_of s x \/ end_of s x <= rs end.
Proof using Hw.
  intros Hok Hr Hf. pose proof (ok_avl _ _ _ Hok) as ((Ht & Hc & _) & _). cbn [ctx_at up] in Ht, Hc. unfold _aspace_bst_search_overlap, search. rewrite (bind_run get _ _ s s eq_refl), Hc.
  destruct (search_loop_run s compare_overlap rs re T None fuel Ht) as (r & Hrun & Hres); [by intros x Hx; apply (ok_areas _ _ _ Hok)|done|apply overlap_mono; [done|lia]|].
  exists r. split; [done|]. assert (forall x, x ∈ inorder T -> 0 <= start_of s x < end_of s x /\ wrap w (end_of s x - 1) = end_of s x - 1) as Hwr.
  { intros x Hx. pose proof (ok_in s T x Hok Hx). split; [lia|]. apply wrap_small. unfold in_u. lia. }
  destruct r as [x|]; [destruct Hres as (Hx & Hz)|intros x Hx; specialize (Hres x Hx) as Hz]; destruct (Hwr x Hx) as (Hse & Ew); rewrite Ew in Hz; unfold compare_overlap in Hz;
  destruct (Z.ltb_spec (end_of s x - 1) rs), (Z.ltb_spec re (start_of s x)); (lia || (split; [done|lia])).
Qed.

(** ** The lowest area from an address on *)

Lemma exceed_loop_run s start t par fuel closest min_off :
  tree_at (avl_nodes (aspace_tree s)) t par -> (length (inorder t) <= fuel)%nat -> 0 <= start ->
  (forall x, x ∈ inorder t -> is_Some (vareas s !! x) /\ 0 <= start_of s x /\ start_of s x - start < min_off) -> min_off <= 2 ^ (w - 1) ->
  StronglySorted (fun x y => start_of s x < start_of s y) (inorder t) ->
  exceed_loop w fuel start closest min_off (root_of t) s =
    Ok (match head (filter (fun x => start <= start_of s x) (inorder t)) with Some y => Some y | None => closest end, s).
Proof using Hw.
  intros Ht Hf H0 Ha Hm Hs. revert par fuel closest min_off Ht Hf Ha Hm Hs. induction t as [|l IHl x h r IHr]; intros par fuel closest min_off Ht Hf Ha Hm Hs; [by destruct fuel|].
  cbn [inorder] in *. rewrite length_app in Hf. cbn [length] in Hf. destruct fuel as [|fuel]; [lia|]. destruct Ht as (Hx & Hl & Hr). cbn [root_of exceed_loop].
  destruct (Ha x) as (Hvx & Hx0 & Hxm); [set_solver|]. destruct (get_varea_run s x Hvx) as (v & Hv & Ev1 & _). rewrite (bind_run _ _ _ _ _ Hv), Ev1. unfold compare_exceed.
  apply StronglySorted_app in Hs as (Hlx & Hsl & Hsr). apply StronglySorted_cons in Hsr as (Hxr & Hsr). rewrite Forall_forall in Hxr. rewrite filter_app, filter_cons.
  assert (start <= start_of s x \/ filter (fun x => start <= start_of s x) (inorder l) = []) as Hfl.
  { destruct (Z.le_gt_cases start (start_of s x)); [by left|right]. apply filter_all_out. intros y Hin Hy. specialize (Hlx y x Hin ltac:(set_solver)). lia. }
  destruct (Z.ltb_spec (start_of s x) start); [|destruct (Z.ltb_spec start (start_of s x))]; cbn [Z.ltb Z.compare].
  - rewrite (bind_run _ _ _ _ _ (on_tree_read _ _ _ (get_node_run _ _ _ Hx))). cbn [avl_right]. rewrite decide_False by lia. destruct Hfl as [?|Efl]; [lia|rewrite Efl]. cbn [app].
    apply (IHr (Some x)); try done; [lia|set_solver].
  - assert (in_s w (start_of s x - start)) as Hin by (unfold in_s; lia). rewrite sext_small by (done || lia). rewrite (proj2 (Z.ltb_lt _ _)) by lia. rewrite (bind_run _ _ _ _ _ (on_tree_read _ _ _ (get_node_run _ _ _ Hx))). cbn [avl_left].
    rewrite (IHl (Some x)); [|done|lia| |lia|done].
    + rewrite decide_True by lia. by destruct (filter _ (inorder l)).
    + intros y Hy. destruct (Ha y) as (? & ? & ?); [set_solver|]. specialize (Hlx y x Hy ltac:(set_solver)). split_and!; [done|done|lia].
  - rewrite decide_True by lia. assert (filter (fun x => start <= start_of s x) (inorder l) = []) as ->; [|done].
    apply filter_all_out. intros y Hin Hy. specialize (Hlx y x Hin ltac:(set_solver)). lia.
Qed.

Lemma order_starts s T : aspace_ok w s T -> StronglySorted (fun x y => start_of s x < start_of s y) (inorder T).
Proof using.
  clear Hw. intros Hok. eapply sorted_weaken; [|exact (ok_order _ _ _ Hok)]. intros x y Hx Hy Hxy. pose proof (ok_in s T x Hok Hx). cbn beta in *. lia.
Qed.

Lemma search_exceed_run s T start fuel : aspace_ok w s T -> 0 <= start -> (forall x, x ∈ inorder T -> start_of s x - start < 2 ^ (w - 1) - 1) -> (length (inorder T) <= fuel)%nat ->
  _aspace_bst_search_exceed w fuel start s = Ok (head (filter (fun x => start <= start_of s x) (inorder T)), s).
Proof using Hw.
  intros Hok H0 Hoff Hf. pose proof (ok_avl _ _ _ Hok) as ((Ht & Hc & _) & _). cbn [ctx_at up] in Ht, Hc. unfold _aspace_bst_search_exceed. rewrite (bind_run get _ _ s s eq_refl), Hc.
  rewrite (exceed_loop_run s start T None fuel None (PTRDIFF_MAX w)); [by destruct (head _)|done|done|done| | |by apply order_starts].
  - intros x Hx. pose proof (ok_in s T x Hok Hx). split_and!; [by apply (ok_areas _ _ _ Hok)|lia|by apply Hoff].
  - unfold PTRDIFF_MAX. lia.
Qed.

(** ** Insertion and removal *)

Lemma load_place_run st c t : rep st c t -> load_place (place_at c) st = Ok (root_of t, st).
Proof using.
  intros (_ & Hc & _). destruct c as [|f c]; [cbn in *; unfold load_place; by rewrite (bind_run get _ _ st st eq_refl), Hc|]. destruct Hc as (Hf & _).
  destruct f; cbn [place_at load_place frame_node frame_struct] in *; rewrite (bind_run _ _ _ _ _ (get_node_run _ _ _ Hf)); done.
Qed.

Lemma find_place_run s T key c t fuel :
  rep (aspace_tree s) c t -> T = fill c t -> (forall x, x ∈ inorder t -> is_Some (vareas s !! x)) -> (length (inorder t) < fuel)%nat ->
  StronglySorted (fun x y => start_of s x < start_of s y) (inorder t) ->
  (forall x, x ∈ before c -> start_of s x < key) -> (forall x, x ∈ after c -> key < start_of s x) ->
  exists r, find_place fuel key (up c) (place_at c) s = Ok (r, s) /\
    match r with
    | None => exists x, x ∈ inorder t /\ start_of s x = key
    | Some (cur, next) => exists c', cur = up c' /\ next = place_at c' /\ T = fill c' Leaf /\ (forall x, x ∈ before c' -> start_of s x < key) /\ (forall x, x ∈ after c' -> key < start_of s x)
    end.
Proof using.
  clear Hw. revert c fuel. induction t as [|l IHl x h r IHr]; intros c [|fuel] Hrep ET Ha Hf Hs Hb Haft; cbn [inorder length] in Hf; try lia; cbn [find_place];
  rewrite (bind_run _ _ _ _ _ (on_tree_read _ _ _ (load_place_run _ _ _ Hrep))); cbn [root_of].
  - eexists. split; [done|]. by exists c.
  - cbn [inorder] in *. rewrite length_app in Hf. cbn [length] in Hf. destruct (get_varea_run s x) as (v & Hv & Ev1 & _); [apply Ha; set_solver|]. rewrite (bind_run _ _ _ _ _ Hv), Ev1.
    apply StronglySorted_app in Hs as (Hlx & Hsl & Hsr). apply StronglySorted_cons in Hsr as (Hxr & Hsr). rewrite Forall_forall in Hxr.
    destruct (Z.ltb_spec key (start_of s x)); [|destruct (Z.ltb_spec (start_of s x) key)].
    + destruct (IHl (InLeft x h r :: c) fuel) as (q & Hrun & Hq); [by apply rep_plug|done|set_solver|lia|done|done| |].
      { cbn [after]. intros z. rewrite elem_of_cons, elem_of_app. intros [->|[Hz|Hz] ]; [done|specialize (Hxr z Hz); lia|by apply Haft]. }
      exists q. split; [done|]. destruct q; [done|]. destruct Hq as (z & Hz & E). exists z. split; [set_solver|done].
    + destruct (IHr (InRight l x h :: c) fuel) as (q & Hrun & Hq); [by apply rep_plug|done|set_solver|lia|done| |done|].
      { cbn [before]. intros z. rewrite !elem_of_app, list_elem_of_singleton. intros [Hz|[Hz| ->] ]; [by apply Hb|specialize (Hlx z x Hz ltac:(set_solver)); lia|done]. }
      exists q. split; [done|]. destruct q; [done|]. destruct Hq as (z & Hz & E). exists z. split; [set_solver|done].
    + exists None. split; [done|]. exists x. split; [set_solver|lia].
Qed.

(** A new area that overlaps none goes into the tree at its place; one with the start of
    another is left out. *)
Lemma bst_insert_run s T x fuel :
  aspace_ok w s T -> x ∉ inorder T -> is_Some (vareas s !! x) -> 0 <= start_of s x < end_of s x -> end_of s x <= 2 ^ w ->
  (forall y, y ∈ inorder T -> end_of s x <= start_of s y \/ end_of s y <= start_of s x) ->
  Z.of_nat (length (inorder T)) < 2 ^ 31 - 3 -> (length (inorder T) < fuel)%nat ->
  exists s' T' a b, _aspace_bst_insert w fuel x s = Ok (tt, s') /\ aspace_ok w s' T' /\ inorder T = a ++ b /\ inorder T' = a ++ x :: b /\ vareas s' = vareas s.
Proof using Hw.
  intros Hok Hx Hvx Hse He Hno Hn Hf. pose proof (ok_avl _ _ _ Hok) as (Hrep & Hbal). destruct (get_varea_run s x Hvx) as (v & Hv & Ev1 & _). unfold _aspace_bst_insert. rewrite (bind_run _ _ _ _ _ Hv), Ev1.
  destruct (find_place_run s T (start_of s x) [] T fuel Hrep eq_refl) as (r & Hrun & Hr); [by intros y Hy; apply (ok_areas _ _ _ Hok)|done|by apply order_starts|by intros y ?%not_elem_of_nil..|].
  rewrite (bind_run _ _ _ _ _ Hrun). destruct r as [[cur next]|]; [|destruct Hr as (y & Hy & Ey); pose proof (ok_in s T y Hok Hy); specialize (Hno y Hy); lia].
  destruct Hr as (c & -> & -> & ET & Hb & Ha). destruct (avl_insert w Hw fuel (aspace_tree s) c T x (conj Hrep Hbal) ET Hx) as (t' & T' & Hins & Havl & Hin & Hk); [done|lia|].
  unfold mbind, st_bind in Hins. destruct (util_avl_link x (up c) (place_at c) (aspace_tree s)) as [[[] t1]| |] eqn:E1; try done.
  rewrite (bind_run _ _ _ _ _ (on_tree_run _ _ _ _ E1)). assert (inorder T = before c ++ after c) as Ei by (rewrite ET, inorder_fill; done).
  exists {s with aspace_tree := t'}, T', (before c), (after c). split; [|split; [|by rewrite Ei] ].
  - erewrite on_tree_run by exact Hins. done.
  - constructor; cbn; [done| |].
    + intros y. rewrite Hin, elem_of_app, elem_of_cons. intros Hy. destruct (decide (y = x)) as [->|]; [done|]. apply (ok_areas _ _ _ Hok). rewrite Ei. set_solver.
    + pose proof (ok_order _ _ _ Hok) as Hs. rewrite Ei in Hs. apply StronglySorted_app in Hs as (Hba & Hsb & Hsa). rewrite Hin. apply StronglySorted_app. split_and!; [|done|apply StronglySorted_cons; split; [|done] ].
      * intros y z Hy. rewrite elem_of_cons. intros [->|Hz]; [|by apply Hba]. specialize (Hb y Hy). destruct (Hno y) as [|]; [rewrite Ei; set_solver| |done]. pose proof (ok_in s T y Hok ltac:(rewrite Ei; set_solver)). lia.
      * apply Forall_forall. intros y Hy. specialize (Ha y Hy). destruct (Hno y) as [|]; [rewrite Ei; set_solver|done|]. pose proof (ok_in s T y Hok ltac:(rewrite Ei; set_solver)). lia.
Qed.

Lemma bst_insert_taken s T x y fuel :
  aspace_ok w s T -> is_Some (vareas s !! x) -> y ∈ inorder T -> start_of s y = start_of s x -> (length (inorder T) < fuel)%nat -> _aspace_bst_insert w fuel x s = Ok (tt, s).
Proof using.
  clear Hw. intros Hok Hvx Hy E Hf. pose proof (ok_avl _ _ _ Hok) as (Hrep & Hbal). destruct (get_varea_run s x Hvx) as (v & Hv & Ev1 & _). unfold _aspace_bst_insert. rewrite (bind_run _ _ _ _ _ Hv), Ev1.
  destruct (find_place_run s T (start_of s x) [] T fuel Hrep eq_refl) as (r & Hrun & Hr); [by intros z Hz; apply (ok_areas _ _ _ Hok)|done|by apply order_starts|by intros z ?%not_elem_of_nil..|].
  rewrite (bind_run _ _ _ _ _ Hrun). destruct r as [[cur next]|]; [|done]. destruct Hr as (c & _ & _ & ET & Hb & Ha). rewrite ET, inorder_fill in Hy. cbn [inorder app] in Hy. apply elem_of_app in Hy as [Hy|Hy]; [specialize (Hb y Hy)|specialize (Ha y Hy)]; lia.
Qed.

Lemma bst_remove_run s T x fuel :
  aspace_ok w s T -> x ∈ inorder T -> Z.of_nat (length (inorder T)) < 2 ^ 31 - 2 -> (length (inorder T) <= fuel)%nat ->
  exists s' T' a b, _aspace_bst_remove w fuel x s = Ok (tt, s') /\ aspace_ok w s' T' /\ inorder T = a ++ x :: b /\ inorder T' = a ++ b /\ vareas s' = vareas s.
Proof using Hw.
  intros Hok Hx Hn Hf. destruct (avl_remove w Hw fuel (aspace_tree s) T x (ok_avl _ _ _ Hok) Hx Hn Hf) as (t' & Hrun & T' & a & b & Havl & E1 & E2 & _).
  exists {s with aspace_tree := t'}, T', a, b. split; [by apply on_tree_run|]. split; [|done]. constructor; cbn; [done| |].
  - intros y Hy. apply (ok_areas _ _ _ Hok). rewrite E1. rewrite E2 in Hy. set_solver.
  - pose proof (ok_order _ _ _ Hok) as Hs. rewrite E1 in Hs. apply StronglySorted_app in Hs as (Hab & Ha & Hb). apply StronglySorted_cons in Hb as (_ & Hb). rewrite E2. apply StronglySorted_app. split_and!; [|done|done]. set_solver.
Qed.

(** ** The search for a free range *)

Definition align_mask (k : Z) : Z := wrap w (Z.lnot (Z.shiftl 1 k - 1)).

Lemma align_spec k v : 0 <= k < 31 -> 0 <= v -> v + 2 ^ k <= 2 ^ w ->
  exists u, _align w v (align_mask k) = 2 ^ k * u /\ v <= 2 ^ k * u < v + 2 ^ k.
Proof using Hw.
  intros Hk Hv Hb. pose proof (pow2_pos k ltac:(lia)) as Hp. unfold _align, align_mask. rewrite Z.shiftl_mul_pow2, Z.mul_1_l by lia.
  assert (2 ^ k - 1 = Z.ones k) as Eo by (rewrite Z.ones_equiv; lia). rewrite Eo.
  assert (wrap w (Z.lnot (wrap w (Z.lnot (Z.ones k)))) = Z.ones k) as -> by bitwise.
  assert (forall x, in_u w x -> Z.land x (wrap w (Z.lnot (Z.ones k))) = Z.shiftl (Z.shiftr x k) k) as Hl.
  { intros x Hx. rewrite <- Z.ldiff_ones_r by lia. apply Z.bits_inj'. intros i Hi. rewrite Z.land_spec, testbit_wrap, Z.ldiff_spec, Z.lnot_spec by lia. destruct (Z.ltb_spec i w); [done|]. by rewrite (testbit_high w x i Hx) by lia. }
  rewrite Hl by (apply wrap_range; lia). rewrite <- Eo, wrap_small by (unfold in_u; lia). rewrite Z.shiftl_mul_pow2, Z.shiftr_div_pow2 by lia.
  exists ((v + (2 ^ k - 1)) / 2 ^ k). split; [lia|]. pose proof (Z.div_mod (v + (2 ^ k - 1)) (2 ^ k)). pose proof (Z.mod_pos_bound (v + (2 ^ k - 1)) (2 ^ k)). lia.
Qed.

(** An aligned address stays. *)
Lemma align_id k u : 0 <= k < 31 -> 0 <= 2 ^ k * u < 2 ^ w -> _align w (2 ^ k * u) (align_mask k) = 2 ^ k * u.
Proof using Hw.
  intros Hk Hu. pose proof (pow2_pos k ltac:(lia)) as Hp. assert (2 ^ w = 2 ^ k * 2 ^ (w - k)) as Ew by (rewrite <- Z.pow_add_r by lia; f_equal; lia).
  assert (u + 1 <= 2 ^ (w - k)) by nia. destruct (align_spec k (2 ^ k * u)) as (u' & -> & Hr); [done|lia|nia|]. assert (u' = u) by nia. by subst.
Qed.

Lemma next_run s T a x b fuel : aspace_ok w s T -> inorder T = a ++ x :: b -> (length (inorder T) <= fuel)%nat -> ASPACE_VAREA_NEXT fuel x s = Ok (head b, s).
Proof using. intros Hok Hi Hf. apply on_tree_read. by apply (avl_walk fuel (aspace_tree s) T a x b (proj1 (ok_avl _ _ _ Hok)) Hi Hf). Qed.

(** [_ascending_search] on the list of areas from the given one on. *)
Fixpoint ascend (s : rt_aspace) (req mask lim : Z) (l : list Z) : Z :=
  match l with
  | [] => 0
  | x :: b =>
      if start_of s x <? lim then
        let candidate := _align w (wrap w (end_of s x)) mask in
        if (lim <? candidate) || (wrap w (lim - candidate + 1) <? req) then 0
        else match b with
             | y :: _ => if req <=? wrap w (_lower lim (wrap w (start_of s y - 1)) - candidate + 1) then candidate else ascend s req mask lim b
             | [] => candidate
             end
      else 0
  end.

Lemma ascending_run s T req mask lim walk l a fuel : aspace_ok w s T -> inorder T = a ++ l -> (length (inorder T) <= walk)%nat -> (length l <= fuel)%nat ->
  ascending_loop w walk fuel (head l) req mask lim s = Ok (ascend s req mask lim l, s).
Proof using.
  clear Hw. intros Hok. revert a fuel. induction l as [|x b IH]; intros a fuel Hi Hwk Hf; [by destruct fuel|]. destruct fuel as [|fuel]; cbn [length] in Hf; [lia|]. cbn [head ascending_loop ascend].
  destruct (get_varea_run s x) as (v & Hv & Ev1 & Ev2); [apply (ok_areas _ _ _ Hok); rewrite Hi; set_solver|]. rewrite (bind_run _ _ _ _ _ Hv), Ev2, Ev1.
  destruct (start_of s x <? lim); [|done]. cbn zeta. destruct (_ || _); [done|]. rewrite (bind_run _ _ _ _ _ (next_run s T a x b walk Hok Hi Hwk)). destruct b as [|y b]; [done|]. cbn [head].
  destruct (get_varea_run s y) as (v2 & Hv2 & Ev3 & _); [apply (ok_areas _ _ _ Hok); rewrite Hi; set_solver|]. rewrite (bind_run _ _ _ _ _ Hv2), Ev3.
  destruct (req <=? _); [done|]. change (Some y) with (head (y :: b)). apply (IH (a ++ [x])); [by rewrite Hi, <- app_assoc|done|lia].
Qed.

(** The range overlaps no area of the list. *)
Definition free (s : rt_aspace) (l : list Z) (va req : Z) : Prop := forall x, x ∈ l -> va + req <= start_of s x \/ end_of s x <= va.

(** Areas and limits of the address space are multiples of the alignment. *)
Record space_ok (s : rt_aspace) (T : tree) (k limit_s limit_size : Z) : Prop := {
  sp_align : 0 <= k < 31;
  sp_limits : 0 < limit_s /\ 0 < limit_size < 2 ^ (w - 1) - 1 /\ limit_s + limit_size < 2 ^ w;
  sp_first : (2 ^ k | limit_s);
  sp_areas : forall x, x ∈ inorder T -> limit_s <= start_of s x /\ end_of s x <= limit_s + limit_size /\ (2 ^ k | end_of s x) }.

Section Search.
Context (s : rt_aspace) (T : tree) (k limit_s limit_size req : Z) (Hok : aspace_ok w s T) (Hsp : space_ok s T k limit_s limit_size) (Hreq : 0 < req).

Lemma area_facts x : x ∈ inorder T -> limit_s <= start_of s x < end_of s x /\ end_of s x <= limit_s + limit_size /\ _align w (wrap w (end_of s x)) (align_mask k) = end_of s x.
Proof using Hw Hok Hsp.
  intros Hx. pose proof (ok_in s T x Hok Hx). destruct (sp_areas _ _ _ _ _ Hsp x Hx) as (H1 & H2 & [u Hu]). destruct (sp_limits _ _ _ _ _ Hsp) as (H3 & H4 & H5). split_and!; [lia..|].
  rewrite wrap_small by (unfold in_u; lia). rewrite Hu. rewrite Z.mul_comm. apply align_id; [apply (sp_align _ _ _ _ _ Hsp)|lia].
Qed.

(** What is found lies between two areas of the list and below the limit; otherwise there
    is no room from the first area on. *)
Lemma ascend_spec l a lim : inorder T = a ++ l -> limit_s <= lim + 1 <= limit_s + limit_size ->
  let va := ascend s req (align_mask k) lim l in
  (va <> 0 -> (2 ^ k | va) /\ free s (inorder T) va req /\ limit_s <= va /\ va + req <= lim + 1) /\
  (va = 0 -> forall x b v, l = x :: b -> start_of s x <= v -> v + req <= lim + 1 -> ~ free s l v req).
Proof using Hw Hok Hsp Hreq.
  intros Hi Hlim. destruct (sp_limits _ _ _ _ _ Hsp) as (L1 & L2 & L3). revert a Hi. induction l as [|x b IH]; intros a Hi; cbn zeta; [done|]. cbn [ascend].
  destruct (area_facts x) as (Hs & He & Ea); [rewrite Hi; set_solver|]. rewrite Ea. pose proof (ok_order _ _ _ Hok) as Ho. rewrite Hi in Ho. apply StronglySorted_app in Ho as (Hax & _ & Hxb). apply StronglySorted_cons in Hxb as (Hxb & _). rewrite Forall_forall in Hxb.
  assert (forall y, y ∈ a -> end_of s y <= end_of s x) as Hbefore by (intros y Hy; specialize (Hax y x Hy ltac:(set_solver)); cbn in Hax; lia).
  destruct (Z.ltb_spec (start_of s x) lim) as [Hlt|Hge].
  2:{ split; [done|]. intros _ x' b' v [= <- <-] Hv Hvr Hfree. specialize (Hfree x ltac:(set_solver)). lia. }
  destruct (Z.ltb_spec lim (end_of s x)) as [Hc|Hc]; cbn [orb].
  { split; [done|]. intros _ x' b' v [= <- <-] Hv Hvr Hfree. specialize (Hfree x ltac:(set_solver)). lia. }
  rewrite (wrap_small w (lim - end_of s x + 1)) by (unfold in_u; lia). destruct (Z.ltb_spec (lim - end_of s x + 1) req) as [Hc2|Hc2].
  { split; [done|]. intros _ x' b' v [= <- <-] Hv Hvr Hfree. specialize (Hfree x ltac:(set_solver)). lia. }
  assert ((2 ^ k | end_of s x)) as Hdiv by (apply (sp_areas _ _ _ _ _ Hsp); rewrite Hi; set_solver).
  destruct b as [|y b].
  - split; [|lia]. intros _. split_and!; [done| |lia|lia]. intros z. rewrite Hi, elem_of_app, list_elem_of_singleton. intros [Hz| ->]; [right; by apply Hbefore|right; lia].
  - destruct (area_facts y) as (Hs2 & He2 & _); [rewrite Hi; set_solver|]. pose proof (Hxb y ltac:(set_solver)) as Hxy. cbn in Hxy. rewrite (wrap_small w (start_of s y - 1)) by (unfold in_u; lia).
    assert (_lower lim (start_of s y - 1) = Z.min lim (start_of s y - 1)) as -> by (unfold _lower; destruct (Z.ltb_spec lim (start_of s y - 1)); lia).
    rewrite wrap_small by (unfold in_u; lia). destruct (Z.leb_spec req (Z.min lim (start_of s y - 1) - end_of s x + 1)) as [Hg|Hg].
    + split; [|lia]. intros _. split_and!; [done| |lia|lia]. intros z. rewrite Hi, elem_of_app, !elem_of_cons. intros [Hz|[->|Hz] ]; [right; by apply Hbefore|right; lia|left].
      assert (start_of s y <= start_of s z) as Hyz.
      { destruct Hz as [->|Hz]; [lia|]. pose proof (order_starts s T Hok) as Hso. rewrite Hi in Hso. apply StronglySorted_app in Hso as (_ & _ & Hso). apply StronglySorted_cons in Hso as (_ & Hso). apply StronglySorted_cons in Hso as (Hso & _). rewrite Forall_forall in Hso. specialize (Hso z Hz). lia. }
      lia.
    + destruct (IH (a ++ [x])) as (IH1 & IH2); [by rewrite Hi, <- app_assoc|]. cbn zeta in IH1, IH2. split; [exact IH1|].
      intros E x' b' v [= <- <-] Hv Hvr Hfree. pose proof (Hfree x ltac:(set_solver)) as Hfx. pose proof (Hfree y ltac:(set_solver)) as Hfy. destruct Hfy as [Hfy|Hfy]; [lia|].
      apply (IH2 E y b v eq_refl); [lia|done|]. intros z Hz. apply Hfree. set_solver.
Qed.

(** The search from the lower limit. *)
Lemma head_search_run lim fuel :
  limit_s <= lim + 1 <= limit_s + limit_size -> (forall x b, inorder T = x :: b -> start_of s x <= lim + 1) -> (length (inorder T) <= fuel)%nat ->
  exists va, _find_head_and_asc_search w fuel req (align_mask k) limit_s lim s = Ok (va, s) /\
    (va <> 0 -> (2 ^ k | va) /\ free s (inorder T) va req /\ limit_s <= va /\ va + req <= lim + 1) /\
    (va = 0 -> forall v, limit_s <= v -> v + req <= lim + 1 -> ~ free s (inorder T) v req).
Proof using Hw Hok Hsp Hreq.
  intros Hlim Hfst Hf. destruct (sp_limits _ _ _ _ _ Hsp) as (L1 & L2 & L3). destruct (sp_first _ _ _ _ _ Hsp) as [u Hu].
  assert (_align w limit_s (align_mask k) = limit_s) as Ea by (rewrite Hu, Z.mul_comm; apply align_id; [apply (sp_align _ _ _ _ _ Hsp)|lia]).
  assert (filter (fun x => limit_s <= start_of s x) (inorder T) = inorder T) as Efl.
  { assert (forall x, x ∈ inorder T -> limit_s <= start_of s x) as H by (intros x Hx; destruct (area_facts x Hx); lia). revert H. generalize (inorder T). intros l. induction l as [|x l IH]; intros H; [done|]. rewrite filter_cons_True by (apply H; set_solver). f_equal. apply IH. set_solver. }
  unfold _find_head_and_asc_search. rewrite (bind_run _ _ _ _ _ (search_exceed_run s T limit_s fuel Hok ltac:(lia) ltac:(intros x Hx; destruct (area_facts x Hx); lia) Hf)), Efl.
  destruct (inorder T) as [|x b] eqn:Hi; cbn [head].
  - rewrite Ea, wrap_small by (unfold in_u; lia). destruct (Z.leb_spec req (lim - limit_s + 1)).
    + exists limit_s. split; [done|]. split; [|lia]. intros _. split_and!; [by exists u|by intros x ?%not_elem_of_nil|lia|lia].
    + exists 0. split; [done|]. split; [done|]. intros _ v Hv Hvr. lia.
  - pose proof (area_facts x) as Hx. rewrite Hi in Hx. destruct Hx as (Hs & He & _); [set_solver|]. destruct (get_varea_run s x) as (v & Hv & Ev1 & _); [apply (ok_areas _ _ _ Hok); rewrite Hi; set_solver|].
    rewrite (bind_run _ _ _ _ _ Hv), Ev1, Ea. cbn zeta. rewrite (wrap_small w (start_of s x - limit_s)) by (unfold in_u; lia).
    pose proof (ascend_spec (x :: b) [] lim Hi Hlim) as Hasc. rewrite Hi in Hasc. cbn zeta in Hasc. destruct Hasc as (A1 & A2).
    destruct (Z.leb_spec req (start_of s x - limit_s)) as [Hg|Hg].
    + destruct (search_overlap_run s T limit_s limit_s fuel Hok ltac:(lia)) as (r & Hrun & Hr); [by rewrite Hi|]. change (_aspace_bst_search w fuel limit_s) with (_aspace_bst_search_overlap w fuel limit_s limit_s). rewrite (bind_run _ _ _ _ _ Hrun).
      pose proof (order_starts s T Hok) as Hso. rewrite Hi in Hso. apply StronglySorted_cons in Hso as (Hso & _). rewrite Forall_forall in Hso.
      destruct r as [y|]; [destruct Hr as (Hy & Hy1 & _); rewrite Hi in Hy; apply elem_of_cons in Hy as [->|Hy]; [lia|specialize (Hso y Hy); lia]|].
      exists limit_s. split; [done|]. split; [|lia]. intros _. specialize (Hfst x b eq_refl). split_and!; [by exists u| |lia|lia].
      intros z. rewrite elem_of_cons. intros [->|Hz]; [lia|specialize (Hso z Hz); lia].
    + exists (ascend s req (align_mask k) lim (x :: b)). split; [|split; [exact A1|]].
      * unfold _ascending_search. change (Some x) with (head (x :: b)). apply (ascending_run s T _ _ _ _ _ []); [done|done|by rewrite Hi|done].
      * intros E v' Hv' Hvr Hfree. apply (A2 E x b v' eq_refl); [|done|done]. specialize (Hfree x ltac:(set_solver)). lia.
Qed.

(** The alignment asked for is [2 ^ k]. *)
Definition asks_align (flags : Z) : Prop := k = if Z.land flags MMF_REQUEST_ALIGN =? 0 then 0 else MMF_GET_ALIGN flags.

(** A preferred range is taken if it is free, wherever it is; otherwise the range found is
    aligned, free and within the limits, and if none is found there is none (or the
    preferred one is mandatory and not free). *)
Definition found (prefer flags va : Z) : Prop :=
  if va =? 0 then
    (prefer <> 0 /\ Z.land flags MMF_MAP_FIXED <> 0 /\ ~ free s (inorder T) (_align w prefer (align_mask k)) req) \/
    (forall v, limit_s <= v -> v + req <= limit_s + limit_size -> ~ free s (inorder T) v req)
  else (2 ^ k | va) /\ free s (inorder T) va req /\
    (prefer <> 0 /\ va = _align w prefer (align_mask k) \/ limit_s <= va /\ va + req <= limit_s + limit_size).

Lemma find_free_run prefer flags fuel :
  asks_align flags -> 0 <= prefer -> prefer + 2 ^ k + req <= 2 ^ w -> (length (inorder T) <= fuel)%nat ->
  exists va, _find_free w fuel prefer req limit_s limit_size flags s = Ok (va, s) /\ 0 <= va /\ (va <> 0 -> va + req <= 2 ^ w) /\ found prefer flags va.
Proof using Hw Hok Hsp Hreq.
  intros Hk Hp0 Hp Hf. destruct (sp_limits _ _ _ _ _ Hsp) as (L1 & L2 & L3). pose proof (sp_align _ _ _ _ _ Hsp) as Hk31. pose proof (pow2_pos k ltac:(lia)) as Hk0. unfold _find_free. rewrite (wrap_small w (limit_s + limit_size - 1)) by (unfold in_u; lia).
  match goal with |- exists va, (mbind ?K ?m) s = _ /\ _ => assert (m s = Ok (align_mask k, s)) as Em end.
  { unfold asks_align in Hk. destruct (Z.land flags MMF_REQUEST_ALIGN =? 0); cbn [negb]; [by rewrite Hk|]. rewrite (proj2 (Z.ltb_lt _ _)) by lia. by rewrite Hk. }
  rewrite (bind_run _ _ _ _ _ Em).
  assert (forall x b, inorder T = x :: b -> start_of s x <= limit_s + limit_size - 1 + 1) as Hfst by (intros x b Hi; destruct (area_facts x); [rewrite Hi; set_solver|lia]).
  destruct (Z.eqb_spec prefer 0) as [->|Hpn]; cbn [negb].
  - destruct (head_search_run (limit_s + limit_size - 1) fuel) as (va & Hrun & H1 & H2); [lia|done|done|]. exists va. unfold found. destruct (Z.eqb_spec va 0) as [->|Hn].
    + split_and!; [done|done|done|right]. intros v Hv Hvr. apply H2; [done|done|lia].
    + destruct (H1 Hn) as (G1 & G2 & G3 & G4). split_and!; [done|lia|lia|done|done|right; lia].
  - destruct (align_spec k prefer Hk31 Hp0 ltac:(lia)) as (u & Eu & Hu). set (p := _align w prefer (align_mask k)) in *. assert (0 < p) as Hp1 by lia.
    rewrite (wrap_small w (p + req - 1)) by (unfold in_u; lia). destruct (search_overlap_run s T p (p + req - 1) fuel Hok ltac:(lia) Hf) as (r & Hrun & Hr). rewrite (bind_run _ _ _ _ _ Hrun). destruct r as [x|].
    + destruct Hr as (Hx & Hx1 & Hx2). destruct (Z.eqb_spec (Z.land flags MMF_MAP_FIXED) 0) as [Ef|Ef]; cbn [negb].
      2:{ exists 0. split_and!; [done|done|done|]. unfold found. cbn [Z.eqb]. left. split_and!; [done|done|]. intros Hfree. specialize (Hfree x Hx). lia. }
      apply list_elem_of_split in Hx as (a & b & Hi). pose proof (area_facts x) as Hax. destruct Hax as (Hs & He & _); [rewrite Hi; set_solver|].
      destruct (ascend_spec (x :: b) a (limit_s + limit_size - 1) Hi ltac:(lia)) as (A1 & A2).
      unfold _ascending_search at 1. change (Some x) with (head (x :: b)). rewrite (bind_run _ _ _ _ _ (ascending_run s T req (align_mask k) (limit_s + limit_size - 1) fuel (x :: b) a fuel Hok Hi Hf ltac:(rewrite Hi, length_app in Hf; lia))).
      destruct (Z.eqb_spec (ascend s req (align_mask k) (limit_s + limit_size - 1) (x :: b)) 0) as [E0|E0].
      * destruct (get_varea_run s x) as (v & Hv & Ev1 & _); [apply (ok_areas _ _ _ Hok); rewrite Hi; set_solver|]. rewrite (bind_run _ _ _ _ _ Hv), Ev1, wrap_small by (unfold in_u; lia).
        destruct (head_search_run (start_of s x - 1) fuel) as (va & Hrun2 & H1 & H2); [lia| |done|].
        { intros y c Hy. pose proof (order_starts s T Hok) as Hso. rewrite Hy in Hso. apply StronglySorted_cons in Hso as (Hso & _). rewrite Forall_forall in Hso.
          assert (x ∈ y :: c) as Hxy by (rewrite <- Hy, Hi; set_solver). apply elem_of_cons in Hxy as [->|Hxy]; [lia|specialize (Hso x Hxy); lia]. }
        exists va. unfold found. destruct (Z.eqb_spec va 0) as [->|Hn].
        -- split_and!; [done|done|done|right]. intros v' Hv' Hvr Hfree. destruct (Hfree x) as [G|G]; [rewrite Hi; set_solver| |].
           ++ apply (H2 eq_refl v'); [done|lia|done].
           ++ apply (A2 E0 x b v' eq_refl); [lia|lia|]. intros z Hz. apply Hfree. rewrite Hi. set_solver.
        -- destruct (H1 Hn) as (G1 & G2 & G3 & G4). split_and!; [done|lia|lia|done|done|right; lia].
      * destruct (A1 E0) as (G1 & G2 & G3 & G4). eexists. split; [done|]. unfold found. rewrite (proj2 (Z.eqb_neq _ _)) by done. split_and!; [lia|lia|done|done|right; lia].
    + exists p. unfold found. rewrite (proj2 (Z.eqb_neq _ _)) by lia. split_and!; [done|lia|lia|exists u; lia| |by left]. intros x Hx. specialize (Hr x Hx). lia.
Qed.
End Search.

Lemma set_start_run s x v a : vareas s !! x = Some a -> set_start x v s = Ok (tt, {s with vareas := <[x := {| va_start := v; va_size := va_size a |}]> (vareas s)}).
Proof using. intros H. unfold set_start. by rewrite H. Qed.

(** A new area gets a free range and goes into the tree, or nothing changes. *)
Theorem varea_install_run s T k x a hint fuel :
  aspace_ok w s T -> space_ok s T k (limit_start hint) (limit_range_size hint) -> asks_align k (flags hint) -> vareas s !! x = Some a -> x ∉ inorder T ->
  0 < va_size a -> map_size hint = va_size a -> 0 <= prefer hint -> prefer hint + 2 ^ k + va_size a <= 2 ^ w ->
  Z.of_nat (length (inorder T)) < 2 ^ 31 - 3 -> (length (inorder T) < fuel)%nat ->
  exists va, found s T k (limit_start hint) (limit_range_size hint) (va_size a) (prefer hint) (flags hint) va /\
    if va =? 0 then _varea_install w fuel x hint s = Ok (- RT_ENOSPC, s)
    else exists s' T' l1 l2, _varea_install w fuel x hint s = Ok (RT_EOK, s') /\ aspace_ok w s' T' /\ inorder T = l1 ++ l2 /\ inorder T' = l1 ++ x :: l2 /\
      vareas s' = <[x := {| va_start := va; va_size := va_size a |}]> (vareas s).
Proof using Hw.
  intros Hok Hsp Hk Hx Hnx Hsz Em Hp0 Hp Hn Hf. destruct (find_free_run s T k (limit_start hint) (limit_range_size hint) (va_size a) Hok Hsp Hsz (prefer hint) (flags hint) fuel Hk Hp0 Hp ltac:(lia)) as (va & Hrun & Hva & Hvr & Hfound).
  exists va. split; [done|]. unfold _varea_install. rewrite Em, (bind_run _ _ _ _ _ Hrun). unfold found in Hfound. destruct (Z.eqb_spec va 0) as [->|Hne]; cbn [negb]; [done|].
  destruct Hfound as (_ & Hfree & _). rewrite (bind_run _ _ _ _ _ (set_start_run s x va a Hx)). set (s1 := {s with vareas := _}).
  assert (vareas s1 !! x = Some {| va_start := va; va_size := va_size a |}) as Hx1 by (apply lookup_insert_eq).
  assert (forall y, y ∈ inorder T -> vareas s1 !! y = vareas s !! y) as Hsame by (intros y Hy; apply lookup_insert_ne; set_solver).
  assert (forall y, y ∈ inorder T -> start_of s1 y = start_of s y /\ end_of s1 y = end_of s y) as Hse by (intros y Hy; unfold start_of, end_of; by rewrite Hsame).
  assert (start_of s1 x = va /\ end_of s1 x = va + va_size a) as (Es & Ee) by (unfold start_of, end_of; by rewrite Hx1).
  assert (aspace_ok w s1 T) as Hok1.
  { constructor; [exact (ok_avl _ _ _ Hok)| |].
    - intros y Hy. rewrite (Hsame y Hy). destruct (Hse y Hy) as (-> & ->). by apply (ok_areas _ _ _ Hok).
    - eapply sorted_weaken; [|exact (ok_order _ _ _ Hok)]. intros y z Hy Hz. destruct (Hse y Hy) as (_ & ->), (Hse z Hz) as (-> & _). done. }
  destruct (bst_insert_run s1 T x fuel Hok1 Hnx ltac:(by eexists) ltac:(lia) ltac:(lia)) as (s' & T' & l1 & l2 & Hins & Hok' & E1 & E2 & Ev); [|done|done|].
  - intros y Hy. destruct (Hse y Hy) as (-> & ->). specialize (Hfree y Hy). lia.
  - exists s', T', l1, l2. rewrite (bind_run _ _ _ _ _ Hins). split_and!; done.
Qed.
End AspaceFacts.

(** ** Where the search goes wrong *)

(** Two areas: [0x200] below [0x100] in the tree or the other way round. *)
Definition two_areas (root other : Z) (left : bool) (start1 size1 start2 size2 : Z) : rt_aspace :=
  {| aspace_tree := {| avl_nodes := list_to_map [(root, {| avl_left := if left then Some other else None; avl_right := if left then None else Some other; parent := None; height := 2 |});
                                                 (other, {| avl_left := None; avl_right := None; parent := Some root; height := 1 |})];
                       root_node := Some root |};
     vareas := list_to_map [(root, {| va_start := start1; va_size := size1 |}); (other, {| va_start := start2; va_size := size2 |}); (0x300, {| va_start := 0; va_size := 0x1000 |})] |}.

(** Areas that are not multiples of the alignment asked for: the distance from the aligned
    candidate to the next area is negative, as a size it is huge, and an occupied range is
    given out.  The new area is then not put into the tree, and the call reports success. *)
Definition crowded : rt_aspace := two_areas 0x100 0x200 false 0x1000 0x1000 0x4000 0x1000.
Definition align_16k : rt_mm_va_hint := {| limit_start := 0x1000; limit_range_size := 0xf000; prefer := 0; map_size := 0x1000; flags := Z.lor MMF_REQUEST_ALIGN 14 |}.

Lemma find_free_occupied :
  aspace_ok 64 crowded (Node Leaf 0x100 2 (Node Leaf 0x200 1 Leaf)) /\
  exists s, _varea_install 64 10 0x300 align_16k crowded = Ok (RT_EOK, s) /\ start_of s 0x300 = start_of s 0x200 /\ aspace_tree s = aspace_tree crowded.
Proof.
  split; [|eexists; split; [vm_compute; reflexivity|done] ]. constructor.
  - split; [|by cbn]. repeat split. apply (bool_decide_unpack _). by vm_compute.
  - intros x Hx. cbn in Hx. rewrite !elem_of_cons, elem_of_nil in Hx. destruct Hx as [->|[->|[] ] ]; (split; [by eexists|by vm_compute]).
  - cbn. repeat constructor. by vm_compute.
Qed.

(** Limits that begin inside an area, with no area behind: the search takes their start
    without looking at the area they begin in, and the new area joins the tree. *)
Definition long_last : rt_aspace := two_areas 0x100 0x200 false 0x1000 0x1000 0x4000 0x4000.
Definition sub_range : rt_mm_va_hint := {| limit_start := 0x5000; limit_range_size := 0x8000; prefer := 0; map_size := 0x1000; flags := 0 |}.

Lemma find_free_inside :
  aspace_ok 64 long_last (Node Leaf 0x100 2 (Node Leaf 0x200 1 Leaf)) /\
  exists s, _varea_install 64 10 0x300 sub_range long_last = Ok (RT_EOK, s) /\ start_of s 0x200 < start_of s 0x300 < end_of s 0x200 /\ is_Some (avl_nodes (aspace_tree s) !! 0x300).
Proof.
  split; [|eexists; split; [vm_compute; reflexivity|split; [by vm_compute|vm_compute; by eexists] ] ]. constructor.
  - split; [|by cbn]. repeat split. apply (bool_decide_unpack _). by vm_compute.
  - intros x Hx. cbn in Hx. rewrite !elem_of_cons, elem_of_nil in Hx. destruct Hx as [->|[->|[] ] ]; (split; [by eexists|by vm_compute]).
  - cbn. repeat constructor. by vm_compute.
Qed.

(** An area more than half of the address space away counts as lower than any other. *)
Lemma search_exceed_far :
  let s := two_areas 0x100 0x200 true 0x90000000 0x1000 0x2000 0x1000 in
  aspace_ok 32 s (Node (Node Leaf 0x200 1 Leaf) 0x100 2 Leaf) /\ _aspace_bst_search_exceed 32 10 0x1000 s = Ok (Some 0x100, s) /\ 0x1000 <= start_of s 0x200 < start_of s 0x100.
Proof.
  split; [|by vm_compute]. constructor.
  - split; [|by cbn]. repeat split. apply (bool_decide_unpack _). by vm_compute.
  - intros x Hx. cbn in Hx. rewrite !elem_of_cons, elem_of_nil in Hx. destruct Hx as [->|[->|[] ] ]; (split; [by eexists|by vm_compute]).
  - cbn. repeat constructor. by vm_compute.
Qed.
