(* ===== verification/RtPage.v ===== *)
(** * RT-Thread: the page allocator (components/mm/mm_page.c)

    A buddy allocator.  A page is known by its index in the master page record, which is
    its physical page number; [w] is the width of an address (ARCH_ADDRESS_WIDTH_BITS),
    [shift] is ARCH_PAGE_SHIFT, [max_order] RT_PAGE_MAX_ORDER, [pv] PV_OFFSET and [v2p] the
    translation of the address of a page's record.  The handlers are those installed by
    rt_page_cleanup, so [early_offset] is 0; the two lists of free blocks are told apart by
    a flag.  The facts follow: the buddy of a block, the lists, sets of blocks ([tiles]), the
    invariant ([core], [pg_ok]), then freeing, allocation and references. *)
From S2P Require Import Prelude Outcome.
#[local] Open Scope string_scope.
#[local] Open Scope list_scope.
#[local] Open Scope Z_scope.

Record rt_page := { pg_next : option Z; pg_pre : option Z; size_bits : Z; ref_cnt : Z }.
(** [mpr] has the records that are mapped; [page_list] both arrays, by flag and index. *)
Record page_state := { mpr : gmap Z rt_page; page_list : gmap (bool * Z) (option Z); page_nr : Z; _high_page_configured : bool }.

Abbreviation Pg := (ST page_state).

Definition page_list_low : bool := false.
Definition page_list_high : bool := true.
Definition PAGE_ANY_AVAILABLE : Z := 1.
Definition UINT32_MAX : Z := 2 ^ 32 - 1.

Definition get_page (p : Z) : Pg rt_page := fun s =>
  match mpr s !! p with Some x => Ok (x, s) | None => Undef "page record not mapped" end.
Definition set_page (p : Z) (f : rt_page -> rt_page) : Pg unit := fun s =>
  match mpr s !! p with Some x => Ok (tt, {s with mpr := <[p := f x]> (mpr s)}) | None => Undef "page record not mapped" end.
Definition load_list (pl : bool) (i : Z) : Pg (option Z) := fun s =>
  match page_list s !! (pl, i) with Some x => Ok (x, s) | None => Undef "index out of bounds" end.
Definition store_list (pl : bool) (i : Z) (v : option Z) : Pg unit := fun s =>
  match page_list s !! (pl, i) with Some _ => Ok (tt, {s with page_list := <[(pl, i) := v]> (page_list s)}) | None => Undef "index out of bounds" end.

Section Page.
Variables (w shift max_order pv rt_mpr_bytes sizeof_page : Z) (v2p : Z -> Z).
Abbreviation uw x := (wrap w x).

Definition page_to_addr (page : Z) : Z := uw (uw (Z.shiftl page shift) - pv).
Definition addr_to_page (addr : Z) : Z := Z.shiftr (uw (addr + pv)) shift.

(** [__builtin_clzl] and [__builtin_ctzl], undefined for 0. *)
Definition rt_hw_clz (n : Z) : Pg Z := if n =? 0 then undef "clz of 0" else mret (w - 1 - Z.log2 n).
Fixpoint ctz_pos (n : positive) : Z := match n with xO n' => 1 + ctz_pos n' | _ => 0 end.
Definition rt_hw_ctz (n : Z) : Pg Z := match n with Zpos n' => mret (ctz_pos n') | _ => undef "ctz of 0" end.

Definition rt_page_bits (size : Z) : Pg Z :=
  c ← rt_hw_clz size;
  let bit := w - c - 1 in
  let bit := if negb (Z.lxor size (Z.shiftl 1 bit) =? 0) then bit + 1 else bit in
  let bit := bit - shift in
  mret (if bit <? 0 then 0 else bit).

Definition _buddy_get (p size_bits : Z) : Z := addr_to_page (Z.lxor (page_to_addr p) (Z.shiftl 1 (size_bits + shift))).

Definition _page_remove (pl : bool) (p size_bits_ : Z) : Pg unit :=
  x ← get_page p;
  (match pg_pre x with
   | Some q => set_page q (fun y => {y with pg_next := pg_next x})
   | None => store_list pl size_bits_ (pg_next x)
   end) ;;
  x ← get_page p;
  (match pg_next x with Some q => set_page q (fun y => {y with pg_pre := pg_pre x}) | None => mret tt end) ;;
  set_page p (fun y => {y with size_bits := w}).

Definition _page_insert (pl : bool) (p size_bits_ : Z) : Pg unit :=
  h ← load_list pl size_bits_;
  set_page p (fun y => {y with pg_next := h}) ;;
  (match h with Some q => set_page q (fun y => {y with pg_pre := Some p}) | None => mret tt end) ;;
  set_page p (fun y => {y with pg_pre := None}) ;;
  store_list pl size_bits_ (Some p) ;;
  set_page p (fun y => {y with size_bits := size_bits_}).

(** The index is an [int]; the mask is applied in [unsigned long]. *)
Definition page_head (p size_bits_ : Z) : Z := s32 (Z.land (uw (s32 p)) (uw (Z.lnot (Z.shiftl 1 size_bits_ - 1)))).
Definition _pages_ref_inc (p size_bits_ : Z) : Pg unit := set_page (page_head p size_bits_) (fun y => {y with ref_cnt := u32 (ref_cnt y + 1)}).
Definition _pages_ref_get (p size_bits_ : Z) : Pg Z := y ← get_page (page_head p size_bits_); mret (s32 (ref_cnt y)).

(** The loop of [_pages_free]: the block [p] grows as long as its buddy is free. *)
Fixpoint free_loop (fuel : nat) (pl : bool) (p level : Z) : Pg (Z * Z) :=
  if level <? max_order - 1 then
    match fuel with
    | O => undef "the loop does not end"
    | S fuel' =>
        let buddy := _buddy_get p level in
        b ← get_page buddy;
        if size_bits b =? level then
          _page_remove pl buddy level ;;
          free_loop fuel' pl (if p <? buddy then p else buddy) (level + 1)
        else mret (p, level)
    end
  else mret (p, level).

Definition _pages_free (pl : bool) (p size_bits_ : Z) : Pg Z :=
  assert_that (0 <=? p) "p >= page_start" ;;
  assert_that (p * sizeof_page <? rt_mpr_bytes) "p < rt_mpr_start + rt_mpr_size" ;;
  assert_that (negb (v2p p =? 0)) "rt_kmem_v2p(p)" ;;
  x ← get_page p;
  assert_that (0 <? ref_cnt x) "p->ref_cnt > 0" ;;
  assert_that (size_bits x =? w) "p->size_bits == ARCH_ADDRESS_WIDTH_BITS" ;;
  assert_that (size_bits_ <? max_order) "size_bits < RT_PAGE_MAX_ORDER" ;;
  set_page p (fun y => {y with ref_cnt := u32 (ref_cnt y - 1)}) ;;
  x ← get_page p;
  if negb (ref_cnt x =? 0) then mret 0
  else
    '(p, level) ← free_loop (Z.to_nat max_order) pl p size_bits_;
    _page_insert pl p level ;;
    mret 1.

(** The search for a level with a free block, and the loop that splits the block. *)
Fixpoint find_level (fuel : nat) (pl : bool) (level : Z) : Pg Z :=
  if level <? max_order then
    match fuel with
    | O => undef "the loop does not end"
    | S fuel' => h ← load_list pl level; match h with Some _ => mret level | None => find_level fuel' pl (level + 1) end
    end
  else mret level.
Fixpoint split_loop (fuel : nat) (pl : bool) (p level size_bits_ : Z) : Pg Z :=
  if size_bits_ <? level then
    match fuel with
    | O => undef "the loop does not end"
    | S fuel' => _page_insert pl p (level - 1) ;; split_loop fuel' pl (_buddy_get p (level - 1)) (level - 1) size_bits_
    end
  else mret p.

Definition take_block (pl : bool) (level : Z) : Pg Z :=
  h ← load_list pl level;
  match h with Some p => _page_remove pl p level ;; mret p | None => undef "null pointer" end.

Definition _pages_alloc (pl : bool) (size_bits_ : Z) : Pg (option Z) :=
  h ← load_list pl size_bits_;
  p ← (match h with
       | Some p => _page_remove pl p size_bits_ ;; mret (Some p)
       | None =>
           level ← find_level (Z.to_nat max_order) pl (size_bits_ + 1);
           if level =? max_order then mret None
           else p ← take_block pl level; p ← split_loop (Z.to_nat max_order) pl p level size_bits_; mret (Some p)
       end);
  match p with
  | None => mret None
  | Some p => set_page p (fun y => {{y with size_bits := w} with ref_cnt := 1}) ;; mret (Some p)
  end.

Definition _get_page_list (vaddr : Z) : bool := if UINT32_MAX <? uw (vaddr + pv) then page_list_high else page_list_low.

Definition rt_page_ref_get (addr size_bits_ : Z) : Pg Z := _pages_ref_get (addr_to_page addr) size_bits_.
Definition rt_page_ref_inc (addr size_bits_ : Z) : Pg unit := _pages_ref_inc (addr_to_page addr) size_bits_.

Definition _flag_to_page_list (flags : Z) : Pg bool :=
  s ← get; mret (if _high_page_configured s && negb (Z.land flags PAGE_ANY_AVAILABLE =? 0) then page_list_high else page_list_low).

(** The address, 0 if there is no block. *)
Definition _do_pages_alloc (size_bits_ flags : Z) : Pg Z :=
  pl ← _flag_to_page_list flags;
  p ← _pages_alloc pl size_bits_;
  p ← (match p with
       | Some p => mret (Some p)
       | None => if Bool.eqb pl page_list_low then mret None else _pages_alloc page_list_low size_bits_
       end);
  mret (match p with Some p => page_to_addr p | None => 0 end).
Definition rt_pages_alloc (size_bits_ : Z) : Pg Z := _do_pages_alloc size_bits_ 0.
Definition rt_pages_alloc_ext (size_bits_ flags : Z) : Pg Z := _do_pages_alloc size_bits_ flags.

Definition rt_pages_free (addr size_bits_ : Z) : Pg Z := _pages_free (_get_page_list addr) (addr_to_page addr) size_bits_.

(** The number of free pages of one list. *)
Fixpoint count_list (fuel : nat) (p : option Z) (n total : Z) : Pg Z :=
  match p, fuel with
  | None, _ => mret total
  | Some _, O => undef "the loop does not end"
  | Some p, S fuel' => x ← get_page p; count_list fuel' (pg_next x) n (uw (total + n))
  end.
Fixpoint count_levels (fuel : nat) (pl : bool) (levels : nat) (total : Z) : Pg Z :=
  match levels with
  | O => mret total
  | S k => let i := max_order - Z.of_nat levels in h ← load_list pl i; total ← count_list fuel h (Z.shiftl 1 i) total; count_levels fuel pl k total
  end.
Definition rt_page_get_info (fuel : nat) : Pg (Z * Z) :=
  total ← count_levels fuel page_list_low (Z.to_nat max_order) 0;
  total ← count_levels fuel page_list_high (Z.to_nat max_order) total;
  s ← get; mret (page_nr s, total).

(** ** Installing a region *)

Definition FLOOR (val align : Z) : Z := Z.land (uw (val + align - 1)) (uw (Z.lnot (align - 1))).
Definition shadow_mask : Z := uw (Z.shiftl 1 (max_order + shift - 1) - 1).

Fixpoint mark_illegal (n : nat) (iter : Z) : Pg unit :=
  match n with O => mret tt | S n' => set_page iter (fun y => {y with size_bits := w}) ;; mark_illegal n' (iter + 1) end.

Fixpoint install_loop (fuel : nat) (start end_ : Z) : Pg unit :=
  if start =? end_ then mret tt
  else
    match fuel with
    | O => undef "the loop does not end"
    | S fuel' =>
        let max_order_ := max_order + shift - 1 in
        c ← rt_hw_clz (uw (end_ - start));
        align_bits ← rt_hw_ctz start;
        let size_bits_ := w - 1 - c in
        let size_bits_ := if align_bits <? size_bits_ then align_bits else size_bits_ in
        let size_bits_ := if max_order_ <? size_bits_ then max_order_ else size_bits_ in
        let p := addr_to_page start in
        set_page p (fun y => {{y with size_bits := w} with ref_cnt := 0}) ;;
        _page_insert (_get_page_list start) p (size_bits_ - shift) ;;
        install_loop fuel' (uw (start + Z.shiftl 1 size_bits_)) end_
    end.

Definition _install_page (fuel : nat) (start end_ : Z) : Pg unit :=
  let shadow_start := Z.land start (uw (Z.lnot shadow_mask)) in
  let shadow_end := FLOOR end_ (uw (shadow_mask + 1)) in
  (if UINT32_MAX <? uw (shadow_end + pv) then modify (fun s => {s with _high_page_configured := true}) else mret tt) ;;
  mark_illegal (Z.to_nat (addr_to_page start - addr_to_page shadow_start)) (addr_to_page shadow_start) ;;
  mark_illegal (Z.to_nat (addr_to_page shadow_end - addr_to_page end_)) (addr_to_page end_) ;;
  install_loop fuel start end_.
End Page.

(** ** Buddies *)

(** The other half of the block of the next level. *)
Definition bud (p l : Z) : Z := if Z.even (p / 2 ^ l) then p + 2 ^ l else p - 2 ^ l.
Definition inside (x p l : Z) : Prop := p <= x < p + 2 ^ l.

Lemma bud_mul u l : 0 <= l -> bud (2 ^ l * u) l = 2 ^ l * (if Z.even u then u + 1 else u - 1).
Proof. intros Hl. unfold bud. pose proof (pow2_pos l Hl). rewrite (Z.mul_comm (2 ^ l) u), Z.div_mul by lia. destruct (Z.even u); lia. Qed.

(** The two halves. *)
Lemma bud_halves p l : 0 <= l -> (2 ^ l | p) ->
  exists m, (2 ^ (l + 1) | m) /\ ((p = m /\ bud p l = m + 2 ^ l) \/ (p = m + 2 ^ l /\ bud p l = m)).
Proof.
  intros Hl [u ->]. rewrite (Z.mul_comm u), bud_mul by done. rewrite Z.pow_add_r, Z.pow_1_r by lia. destruct (Z.even u) eqn:E.
  - exists (2 ^ l * u). apply Z.even_spec in E as [k ->]. split; [exists k; ring|left; split; ring].
  - exists (2 ^ l * (u - 1)). assert (Z.odd u = true) as Ho by (rewrite <- Z.negb_even, E; done). apply Z.odd_spec in Ho as [k ->]. split; [exists k; ring|right; split; ring].
Qed.

Lemma bud_bud p l : 0 <= l -> (2 ^ l | p) -> bud (bud p l) l = p.
Proof.
  intros Hl [u ->]. rewrite (Z.mul_comm u), bud_mul by done. rewrite bud_mul by done. f_equal. destruct (Z.even u) eqn:E.
  - rewrite Z.even_add, E. cbn. lia.
  - rewrite Z.even_sub, E. cbn. lia.
Qed.

Lemma bud_chunk p l k : 0 <= l < k -> (2 ^ l | p) -> bud p l / 2 ^ k = p / 2 ^ k.
Proof.
  intros Hl Hp. destruct (bud_halves p l) as (m & [v ->] & H); [lia|done|]. pose proof (pow2_pos l ltac:(lia)). pose proof (pow2_pos (k - l - 1) ltac:(lia)).
  assert (2 ^ k = 2 ^ (l + 1) * 2 ^ (k - l - 1)) as -> by (rewrite <- Z.pow_add_r by lia; f_equal; lia).
  assert (2 ^ (l + 1) = 2 * 2 ^ l) as E by (rewrite Z.pow_add_r by lia; lia). rewrite E in *.
  assert (forall r, 0 <= r < 2 * 2 ^ l -> (v * (2 * 2 ^ l) + r) / (2 * 2 ^ l * 2 ^ (k - l - 1)) = v / 2 ^ (k - l - 1)) as Hd.
  { intros r Hr. rewrite <- Z.div_div by lia. rewrite Z.add_comm, Z.div_add by lia. by rewrite (Z.div_small r) by lia. }
  destruct H as [[-> ->]|[-> ->]]; rewrite (Hd (2 ^ l)) by lia; rewrite <- (Z.add_0_r (v * _)), Hd by lia; done.
Qed.

Lemma pow2_divide k l : 0 <= k <= l -> (2 ^ k | 2 ^ l).
Proof. intros H. exists (2 ^ (l - k)). rewrite <- Z.pow_add_r by lia. f_equal. lia. Qed.
Lemma bud_divide p l : 0 <= l -> (2 ^ l | p) -> (2 ^ l | bud p l).
Proof. intros Hl [u ->]. rewrite (Z.mul_comm u), bud_mul by done. apply Z.divide_factor_l. Qed.
Lemma aligned_sub e m b t q : 0 < e -> (e | m) -> (e | b) -> (e | t) -> m <= q < m + e -> b <= q < t -> b <= m /\ m + e <= t.
Proof. intros He [u ->] [v ->] [x ->] Hm Hb. assert (v <= u) by nia. assert (u + 1 <= x) by nia. nia. Qed.

Lemma lxor_bit a j : 0 <= a -> 0 <= j -> Z.lxor a (2 ^ j) = if Z.even (a / 2 ^ j) then a + 2 ^ j else a - 2 ^ j.
Proof.
  intros Ha Hj. assert (Z.testbit a j = negb (Z.even (a / 2 ^ j))) as Ht by (rewrite Z.testbit_odd, Z.shiftr_div_pow2, Z.negb_even by lia; done).
  destruct (Z.even (a / 2 ^ j)); cbn in Ht.
  - symmetry. apply Z.add_nocarry_lxor. apply Z.bits_inj'. intros i Hi. rewrite Z.land_spec, Z.pow2_bits_eqb, Z.bits_0 by lia. destruct (Z.eqb_spec j i) as [<-|]; [by rewrite Ht|apply andb_false_r].
  - assert (Z.lxor (Z.lxor a (2 ^ j)) (2 ^ j) = a) as Hx by (rewrite Z.lxor_assoc, Z.lxor_nilpotent; apply Z.lxor_0_r).
    assert (Z.lxor a (2 ^ j) + 2 ^ j = a); [|lia]. rewrite <- Hx at 2. apply Z.add_nocarry_lxor. apply Z.bits_inj'. intros i Hi.
    rewrite Z.land_spec, Z.lxor_spec, !Z.pow2_bits_eqb, Z.bits_0 by lia. destruct (Z.eqb_spec j i) as [<-|]; [by rewrite Ht|apply andb_false_r].
Qed.

Definition mk (m : gmap Z rt_page) (pl : gmap (bool * Z) (option Z)) (s : page_state) : page_state :=
  {| mpr := m; page_list := pl; page_nr := page_nr s; _high_page_configured := _high_page_configured s |}.
Lemma mk_same s : s = mk (mpr s) (page_list s) s.
Proof. by destruct s. Qed.

Lemma get_page_run m pl s p x : m !! p = Some x -> get_page p (mk m pl s) = Ok (x, mk m pl s).
Proof. intros H. unfold get_page. cbn [mpr mk]. by rewrite H. Qed.
Lemma get_page_read s p x : mpr s !! p = Some x -> get_page p s = Ok (x, s).
Proof. intros H. unfold get_page. by rewrite H. Qed.
Lemma set_page_run m pl s p f : is_Some (m !! p) -> set_page p f (mk m pl s) = Ok (tt, mk (alter f p m) pl s).
Proof.
  intros [x Hx]. unfold set_page. cbn [mpr mk]. rewrite Hx. assert (<[p := f x]> m = alter f p m) as ->; [|done].
  apply map_eq. intros i. destruct (decide (i = p)) as [->|]; [rewrite lookup_insert_eq, lookup_alter_eq, Hx|rewrite lookup_insert_ne, lookup_alter_ne by done]; done.
Qed.
Lemma load_list_run m pl s z l h : pl !! (z, l) = Some h -> load_list z l (mk m pl s) = Ok (h, mk m pl s).
Proof. intros H. unfold load_list. cbn [page_list mk]. by rewrite H. Qed.
Lemma store_list_run m pl s z l v : is_Some (pl !! (z, l)) -> store_list z l v (mk m pl s) = Ok (tt, mk m (<[(z, l) := v]> pl) s).
Proof. intros [h H]. unfold store_list. cbn [page_list mk]. by rewrite H. Qed.

Definition info (x : rt_page) : Z * Z := (size_bits x, ref_cnt x).
(** Nothing but links, and the record of [p], has changed. *)
Definition links_only (p : Z) (s s' : page_state) : Prop :=
  (forall q, q <> p -> info <$> mpr s' !! q = info <$> mpr s !! q) /\ page_nr s' = page_nr s /\ _high_page_configured s' = _high_page_configured s.

Lemma alter_is_some (m : gmap Z rt_page) f p q : is_Some (m !! q) -> is_Some (alter f p m !! q).
Proof. intros [x Hx]. destruct (decide (q = p)) as [->|]; [rewrite lookup_alter_eq, Hx|rewrite lookup_alter_ne, Hx by done]; by eexists. Qed.

Definition relink (next_ : option Z) (o : option Z) (m : gmap Z rt_page) : gmap Z rt_page := match o with Some q => alter (fun y => {y with pg_next := next_}) q m | None => m end.
Definition reback (pre_ : option Z) (o : option Z) (m : gmap Z rt_page) : gmap Z rt_page := match o with Some q => alter (fun y => {y with pg_pre := pre_}) q m | None => m end.
Lemma relink_ne v o m q : o <> Some q -> relink v o m !! q = m !! q.
Proof. destruct o; cbn; [|done]. intros H. rewrite lookup_alter_ne; congruence. Qed.
Lemma reback_ne v o m q : o <> Some q -> reback v o m !! q = m !! q.
Proof. destruct o; cbn; [|done]. intros H. rewrite lookup_alter_ne; congruence. Qed.
Lemma relink_lookup v o m q : relink v o m !! q = (if bool_decide (o = Some q) then (fun y => {y with pg_next := v}) <$> m !! q else m !! q).
Proof. case_bool_decide as H; [subst; apply lookup_alter_eq|by apply relink_ne]. Qed.
Lemma reback_lookup v o m q : reback v o m !! q = (if bool_decide (o = Some q) then (fun y => {y with pg_pre := v}) <$> m !! q else m !! q).
Proof. case_bool_decide as H; [subst; apply lookup_alter_eq|by apply reback_ne]. Qed.
Lemma relink_info v o m q : info <$> relink v o m !! q = info <$> m !! q.
Proof. rewrite relink_lookup. case_bool_decide; [|done]. by destruct (m !! q). Qed.
Lemma reback_info v o m q : info <$> reback v o m !! q = info <$> m !! q.
Proof. rewrite reback_lookup. case_bool_decide; [|done]. by destruct (m !! q). Qed.

Lemma last_in (a : list Z) q : last a = Some q -> q ∈ a.
Proof. intros H. apply last_Some in H as [l ->]. set_solver. Qed.
Lemma head_in (a : list Z) q : head a = Some q -> q ∈ a.
Proof. destruct a; [done|]. intros [= ->]. set_solver. Qed.

Section Facts.
Context (w shift max_order pv : Z) (Hshift : 1 <= shift) (Horder : 1 <= max_order) (Hbits : max_order - 1 + shift <= 32) (Hw : 33 <= w) (Hpv : (2 ^ (max_order - 1 + shift) | pv)).

(** The pages whose physical addresses are machine words. *)
Definition page_ok (p l : Z) : Prop := 0 <= p /\ (2 ^ l | p) /\ p + 2 ^ l <= 2 ^ (w - shift).

Lemma addr_page p : 0 <= p < 2 ^ (w - shift) -> addr_to_page w shift pv (page_to_addr w shift pv p) = p.
Proof.
  intros Hp. unfold addr_to_page, page_to_addr. rewrite wrap_sub_l. rewrite wrap_add_l. replace (Z.shiftl p shift - pv + pv) with (Z.shiftl p shift) by lia.
  rewrite Z.shiftl_mul_pow2, Z.shiftr_div_pow2 by lia. pose proof (pow2_pos shift ltac:(lia)).
  assert (2 ^ w = 2 ^ (w - shift) * 2 ^ shift) as E by (rewrite <- Z.pow_add_r by lia; f_equal; lia). rewrite wrap_small by (unfold in_u; nia). apply Z.div_mul. lia.
Qed.

Lemma buddy_get p l : 0 <= l < max_order - 1 -> page_ok p l -> _buddy_get w shift pv p l = bud p l.
Proof.
  intros Hl (Hp & Hd & Hr). pose proof (pow2_pos shift ltac:(lia)). pose proof (pow2_pos l ltac:(lia)). pose proof (pow2_pos (w - shift) ltac:(lia)).
  assert (2 ^ w = 2 ^ (w - shift) * 2 ^ shift) as Ew by (rewrite <- Z.pow_add_r by lia; f_equal; lia).
  assert (0 <= bud p l < 2 ^ (w - shift)) as Hb.
  { destruct (bud_halves p l) as (m & [v Hv] & H'); [lia|done|]. assert (2 ^ (w - shift) = 2 ^ (l + 1) * 2 ^ (w - shift - (l + 1))) as E2 by (rewrite <- Z.pow_add_r by lia; f_equal; lia).
    assert (2 ^ (l + 1) = 2 * 2 ^ l) as E3 by (rewrite Z.pow_add_r by lia; lia). pose proof (pow2_pos (w - shift - (l + 1)) ltac:(lia)).
    set (Q := 2 ^ (w - shift - (l + 1))) in *. clearbody Q. rewrite E2, E3 in *. assert (v < Q) as Hvq by (destruct (Z.lt_ge_cases v Q); [done|]; assert (Q * (2 * 2 ^ l) <= v * (2 * 2 ^ l)) by (apply Z.mul_le_mono_nonneg_r; lia); lia).
    assert ((v + 1) * (2 * 2 ^ l) <= Q * (2 * 2 ^ l)) by (apply Z.mul_le_mono_nonneg_r; lia). assert (0 <= v \/ v <= -1) as [Hv0|Hv0] by lia; [assert (0 <= v * (2 * 2 ^ l)) by nia; lia|].
    assert (v * (2 * 2 ^ l) <= -1 * (2 * 2 ^ l)) by (apply Z.mul_le_mono_nonneg_r; lia). lia. }
  unfold _buddy_get. rewrite Z.shiftl_mul_pow2, Z.mul_1_l by lia. set (a := page_to_addr w shift pv p).
  assert (a = wrap w (p * 2 ^ shift - pv)) as Ea0 by (unfold a, page_to_addr; rewrite wrap_sub_l, Z.shiftl_mul_pow2 by lia; done).
  assert (exists k, a = p * 2 ^ shift + k * 2 ^ (max_order - 1 + shift) /\ 0 <= a < 2 ^ w) as (k & Ea & Ha).
  { destruct Hpv as [c Ec]. unfold a, page_to_addr. rewrite wrap_sub_l, Z.shiftl_mul_pow2, Ec by lia. pose proof (wrap_range w (p * 2 ^ shift - c * 2 ^ (max_order - 1 + shift)) ltac:(lia)) as Hwr. unfold in_u in Hwr.
    assert (2 ^ w = 2 ^ (w - (max_order - 1 + shift)) * 2 ^ (max_order - 1 + shift)) as E2 by (rewrite <- Z.pow_add_r by lia; f_equal; lia).
    unfold wrap in *. pose proof (Z.div_mod (p * 2 ^ shift - c * 2 ^ (max_order - 1 + shift)) (2 ^ w) ltac:(lia)) as Hdm.
    exists (- c - 2 ^ (w - (max_order - 1 + shift)) * ((p * 2 ^ shift - c * 2 ^ (max_order - 1 + shift)) / 2 ^ w)). split; [|done]. nia. }
  rewrite lxor_bit by lia.
  assert (Z.even (a / 2 ^ (l + shift)) = Z.even (p / 2 ^ l)) as ->.
  { destruct Hd as [u ->]. rewrite Z.div_mul by lia. rewrite Ea. pose proof (pow2_pos (l + shift) ltac:(lia)).
    assert (2 ^ (max_order - 1 + shift) = 2 * 2 ^ (max_order - 2 - l) * 2 ^ (l + shift)) as -> by (rewrite <- (Z.pow_1_r 2) at 2; rewrite <- !Z.pow_add_r by lia; f_equal; lia).
    replace (u * 2 ^ l * 2 ^ shift + k * (2 * 2 ^ (max_order - 2 - l) * 2 ^ (l + shift))) with ((u + 2 * (k * 2 ^ (max_order - 2 - l))) * 2 ^ (l + shift)) by (rewrite (Z.pow_add_r 2 l shift) by lia; ring).
    rewrite Z.div_mul by lia. apply Z.even_add_mul_2. }
  assert ((if Z.even (p / 2 ^ l) then a + 2 ^ (l + shift) else a - 2 ^ (l + shift)) = a + (bud p l - p) * 2 ^ shift) as ->.
  { unfold bud. rewrite Z.pow_add_r by lia. destruct (Z.even _); lia. }
  unfold addr_to_page. assert (wrap w (a + (bud p l - p) * 2 ^ shift + pv) = bud p l * 2 ^ shift) as ->.
  { rewrite Ea0. replace (wrap w (p * 2 ^ shift - pv) + (bud p l - p) * 2 ^ shift + pv) with (wrap w (p * 2 ^ shift - pv) + ((bud p l - p) * 2 ^ shift + pv)) by lia. rewrite wrap_add_l.
    replace (p * 2 ^ shift - pv + ((bud p l - p) * 2 ^ shift + pv)) with (bud p l * 2 ^ shift) by ring. apply wrap_small. unfold in_u. nia. }
  rewrite Z.shiftr_div_pow2 by lia. apply Z.div_mul. lia.
Qed.

(** ** The lists of free blocks *)

(** [F z l]: the free blocks of level [l] in the order of the list. *)
Record lists_ok (s : page_state) (F : bool -> Z -> list Z) : Prop := {
  lo_head : forall z l, 0 <= l < max_order -> page_list s !! (z, l) = Some (head (F z l));
  lo_node : forall z l a p b, 0 <= l < max_order -> F z l = a ++ p :: b ->
    exists x, mpr s !! p = Some x /\ pg_next x = head b /\ pg_pre x = last a /\ size_bits x = l;
  lo_nodup : forall z l, 0 <= l < max_order -> NoDup (F z l);
  lo_uniq : forall z l z' l' p, 0 <= l < max_order -> 0 <= l' < max_order -> p ∈ F z l -> p ∈ F z' l' -> z = z' /\ l = l' }.

Definition set_list (F : bool -> Z -> list Z) (z : bool) (l : Z) (v : list Z) : bool -> Z -> list Z :=
  fun z' l' => if bool_decide (z' = z /\ l' = l) then v else F z' l'.
Lemma set_list_same F z l v : set_list F z l v z l = v.
Proof. unfold set_list. by rewrite bool_decide_eq_true_2. Qed.
Lemma set_list_other F z l v z' l' : (z', l') <> (z, l) -> set_list F z l v z' l' = F z' l'.
Proof. unfold set_list. intros H. rewrite bool_decide_eq_false_2; [done|]. intros [-> ->]. done. Qed.

(** Changing one list: the other lists are not touched. *)
Lemma set_list_ok s s' F z l v :
  lists_ok s F -> 0 <= l < max_order ->
  (forall z' l' q, 0 <= l' < max_order -> (z', l') <> (z, l) -> q ∈ F z' l' -> mpr s' !! q = mpr s !! q) ->
  (forall z' l', (z', l') <> (z, l) -> page_list s' !! (z', l') = page_list s !! (z', l')) ->
  page_list s' !! (z, l) = Some (head v) ->
  (forall a q b, v = a ++ q :: b -> exists x, mpr s' !! q = Some x /\ pg_next x = head b /\ pg_pre x = last a /\ size_bits x = l) ->
  NoDup v -> (forall q z' l', q ∈ v -> 0 <= l' < max_order -> (z', l') <> (z, l) -> q ∉ F z' l') ->
  lists_ok s' (set_list F z l v).
Proof.
  intros Hlo Hl Hm Hpl Hh Hv Hnd Hu. constructor.
  - intros z' l' Hl'. destruct (decide ((z', l') = (z, l))) as [[= -> ->]|Hne]; [by rewrite set_list_same|]. rewrite set_list_other, Hpl by done. by apply (lo_head _ _ Hlo).
  - intros z' l' a q b Hl'. destruct (decide ((z', l') = (z, l))) as [[= -> ->]|Hne]; [rewrite set_list_same; apply Hv|]. rewrite set_list_other by done. intros E.
    destruct (lo_node _ _ Hlo z' l' a q b Hl' E) as (x & Hx & H). exists x. rewrite (Hm z' l' q); [done|done|done|]. rewrite E. apply elem_of_app. right. apply elem_of_cons. by left.
  - intros z' l' Hl'. destruct (decide ((z', l') = (z, l))) as [[= -> ->]|Hne]; [by rewrite set_list_same|]. rewrite set_list_other by done. by apply (lo_nodup _ _ Hlo).
  - intros z1 l1 z2 l2 q H1 H2. destruct (decide ((z1, l1) = (z, l))) as [[= -> ->]|Hn1], (decide ((z2, l2) = (z, l))) as [[= -> ->]|Hn2]; rewrite ?set_list_same, ?(set_list_other _ _ _ _ z1), ?(set_list_other _ _ _ _ z2) by done; try done.
    + intros Hq Hq2. by destruct (Hu q z2 l2 Hq H2 Hn2).
    + intros Hq Hq2. by destruct (Hu q z1 l1 Hq2 H1 Hn1).
    + by apply (lo_uniq _ _ Hlo).
Qed.

(** The writes of [_page_remove]. *)
Definition unlinked (a b : list Z) (m : gmap Z rt_page) : gmap Z rt_page := reback (last a) (head b) (relink (head b) (last a) m).
Lemma unlinked_info a b m q : info <$> unlinked a b m !! q = info <$> m !! q.
Proof. unfold unlinked. by rewrite reback_info, relink_info. Qed.
Lemma unlinked_ne a b m q : q ∉ a -> q ∉ b -> unlinked a b m !! q = m !! q.
Proof. intros Ha Hb. unfold unlinked. rewrite reback_ne, relink_ne; [done|intros E; by apply last_in in E|intros E; by apply head_in in E]. Qed.

Lemma page_remove_step s F z l a p b x : lists_ok s F -> 0 <= l < max_order -> F z l = a ++ p :: b -> mpr s !! p = Some x -> pg_next x = head b -> pg_pre x = last a -> p ∉ a -> p ∉ b ->
  _page_remove w z p l s = Ok (tt, mk (alter (fun y => {y with size_bits := w}) p (unlinked a b (mpr s))) (match last a with Some _ => page_list s | None => <[(z, l) := head b]> (page_list s) end) s).
Proof.
  intros Hlo Hl HF Hx Hn Hp Hpa Hpb. assert (last a <> Some p) as Hla by (intros H; by apply last_in in H).
  assert (forall q, q ∈ a \/ q ∈ b -> is_Some (mpr s !! q)) as Hsome.
  { intros q Hq. assert (q ∈ F z l) as Hin by (rewrite HF; set_solver). apply list_elem_of_split in Hin as (c & d & E). destruct (lo_node _ _ Hlo z l c q d Hl E) as (y & Hy & _). by eexists. }
  rewrite (mk_same s) at 1. unfold _page_remove. erewrite bind_run by (apply get_page_run; exact Hx). rewrite Hp, Hn. unfold unlinked. destruct (last a) as [q|] eqn:Ela; cbn [relink].
  - erewrite bind_run by (apply set_page_run, Hsome; left; by apply last_in). erewrite bind_run by (apply get_page_run; rewrite lookup_alter_ne by congruence; exact Hx). rewrite Hn, Hp.
    destruct (head b) as [r|] eqn:Ehb; cbn [reback].
    + erewrite bind_run by (apply set_page_run, alter_is_some, Hsome; right; by apply head_in). apply set_page_run. do 2 apply alter_is_some. by eexists.
    + erewrite bind_run by done. apply set_page_run, alter_is_some. by eexists.
  - erewrite bind_run by (apply store_list_run; rewrite (lo_head _ _ Hlo) by done; by eexists). erewrite bind_run by (apply get_page_run; exact Hx). rewrite Hn, Hp.
    destruct (head b) as [r|] eqn:Ehb; cbn [reback].
    + erewrite bind_run by (apply set_page_run, Hsome; right; by apply head_in). apply set_page_run, alter_is_some. by eexists.
    + erewrite bind_run by done. apply set_page_run. by eexists.
Qed.

(** They link the other blocks of the list. *)
Definition linked (m : gmap Z rt_page) (l : Z) (ps : list Z) : Prop :=
  forall a p b, ps = a ++ p :: b -> exists x, m !! p = Some x /\ pg_next x = head b /\ pg_pre x = last a /\ size_bits x = l.
Lemma linked_remove m l a p b : NoDup (a ++ p :: b) -> linked m l (a ++ p :: b) -> linked (unlinked a b m) l (a ++ b).
Proof.
  intros Hnd Hl c q d E. apply NoDup_app in Hnd as (Hna & Hab & [Hpb Hnb]%NoDup_cons).
  assert (forall y, m !! q = Some y -> unlinked a b m !! q = Some {| pg_next := if bool_decide (last a = Some q) then head b else pg_next y; pg_pre := if bool_decide (head b = Some q) then last a else pg_pre y; size_bits := size_bits y; ref_cnt := ref_cnt y |}) as Hm.
  { intros y Hy. unfold unlinked. rewrite reback_lookup, relink_lookup, Hy. repeat case_bool_decide; by destruct y. }
  assert (NoDup (a ++ b)) as Hnab by (apply NoDup_app; set_solver). assert (q ∈ a ++ b) as Hq by (rewrite E; set_solver). apply elem_of_app in Hq as [Hq|Hq].
  - apply list_elem_of_split in Hq as (a1 & a2 & Ea). rewrite Ea in Hnab, E. rewrite <- app_assoc in Hnab, E. cbn [app] in Hnab, E.
    destruct (nodup_split _ _ _ _ _ Hnab E) as (<- & <-). destruct (Hl a1 q (a2 ++ p :: b)) as (y & Hy & Hyn & Hyp & Hys); [rewrite Ea, <- app_assoc; done|].
    rewrite (Hm y Hy). eexists. split; [done|]. cbn. split_and!; [| |done].
    + rewrite Ea, last_app_cons, last_cons. destruct (last a2) as [r|] eqn:Er.
      * rewrite bool_decide_eq_false_2, Hyn; [by destruct a2|]. intros [= ->]. apply last_in in Er. apply NoDup_app in Hnab as (_ & _ & [Hqn _]%NoDup_cons). set_solver.
      * rewrite bool_decide_eq_true_2 by done. apply last_None in Er. by subst.
    + rewrite bool_decide_eq_false_2; [done|]. intros Hqb. apply head_in in Hqb. apply NoDup_app in Hnab as (_ & _ & [Hqn _]%NoDup_cons). set_solver.
  - apply list_elem_of_split in Hq as (b1 & b2 & Eb). rewrite Eb in Hnab, E. rewrite app_assoc in Hnab, E.
    destruct (nodup_split _ _ _ _ _ Hnab E) as (<- & <-). destruct (Hl (a ++ p :: b1) q b2) as (y & Hy & Hyn & Hyp & Hys); [rewrite Eb, <- app_assoc; done|].
    rewrite (Hm y Hy). eexists. split; [done|]. cbn. split_and!; [| |done].
    + rewrite bool_decide_eq_false_2; [done|]. intros Hqa. apply last_in in Hqa. apply NoDup_app in Hnab as (_ & Hd & _). apply (Hd q); set_solver.
    + rewrite Eb. destruct b1 as [|r b1].
      * rewrite bool_decide_eq_true_2 by done. by rewrite app_nil_r.
      * rewrite bool_decide_eq_false_2, Hyp; [by rewrite !last_app, !last_cons; destruct (last b1)|]. intros [= ->]. apply NoDup_app in Hnab as (_ & Hd & _). apply (Hd q); set_solver.
Qed.

Lemma page_remove_run s F z l a p b : lists_ok s F -> 0 <= l < max_order -> F z l = a ++ p :: b ->
  exists s', _page_remove w z p l s = Ok (tt, s') /\ lists_ok s' (set_list F z l (a ++ b)) /\ links_only p s s' /\
    exists x x', mpr s !! p = Some x /\ mpr s' !! p = Some x' /\ size_bits x' = w /\ ref_cnt x' = ref_cnt x.
Proof.
  intros Hlo Hl HF. destruct (lo_node _ _ Hlo z l a p b Hl HF) as (x & Hx & Hn & Hp & Hs). pose proof (lo_nodup _ _ Hlo z l Hl) as Hnd. rewrite HF in Hnd.
  pose proof Hnd as Hnd2. apply NoDup_app in Hnd2 as (Hna & Hab & [Hpb Hnb]%NoDup_cons). assert (p ∉ a) as Hpa by (intros H; apply (Hab p H); set_solver).
  assert (linked (mpr s) l (a ++ p :: b)) as Hlinked by (intros c q d E; apply (lo_node _ _ Hlo z l c q d Hl); by rewrite HF).
  eexists. split; [by eapply page_remove_step|]. split; [|split].
  - assert (forall z' l' q, q ∈ a ++ p :: b -> 0 <= l' < max_order -> (z', l') <> (z, l) -> q ∉ F z' l') as Hother.
    { intros z' l' q Hq Hl' Hne Hq'. rewrite <- HF in Hq. destruct (lo_uniq _ _ Hlo _ _ _ _ _ Hl Hl' Hq Hq') as (<- & <-). done. }
    apply (set_list_ok s); try done; cbn [mpr page_list mk].
    + intros z' l' q Hl' Hne Hq. assert (q ∉ a ++ p :: b) as Hno by (intros Hin; by apply (Hother z' l' q Hin)). rewrite not_elem_of_app, not_elem_of_cons in Hno. destruct Hno as (Ha & Hqp & Hb).
      by rewrite lookup_alter_ne, unlinked_ne.
    + intros z' l' Hne. destruct (last a); [done|]. apply lookup_insert_ne. congruence.
    + destruct (last a) eqn:Ela; [|rewrite lookup_insert_eq; apply last_None in Ela; by subst]. rewrite (lo_head _ _ Hlo) by done. rewrite HF. by destruct a.
    + intros c q d E. rewrite lookup_alter_ne by (intros <-; assert (p ∈ a ++ b) as [?|?]%elem_of_app by (rewrite E; set_solver); done). by apply (linked_remove (mpr s) l a p b).
    + apply NoDup_app. set_solver.
    + intros q z' l' Hq Hl' Hne. apply Hother; [set_solver|done|done].
  - unfold links_only. cbn. split; [|done]. intros q Hq. by rewrite lookup_alter_ne, unlinked_info.
  - exists x. eexists. split; [done|]. split; [cbn; rewrite lookup_alter_eq, unlinked_ne, Hx by done; done|done].
Qed.

Lemma page_insert_run s F z l p x : lists_ok s F -> 0 <= l < max_order -> mpr s !! p = Some x -> (forall z' l', 0 <= l' < max_order -> p ∉ F z' l') ->
  exists s', _page_insert z p l s = Ok (tt, s') /\ lists_ok s' (set_list F z l (p :: F z l)) /\ links_only p s s' /\
    exists x', mpr s' !! p = Some x' /\ size_bits x' = l /\ ref_cnt x' = ref_cnt x.
Proof.
  intros Hlo Hl Hx Hp. set (h := head (F z l)).
  assert (forall q, q ∈ F z l -> is_Some (mpr s !! q)) as Hsome by (intros q Hin; apply list_elem_of_split in Hin as (c & d & E); destruct (lo_node _ _ Hlo z l c q d Hl E) as (y & Hy & _); by eexists).
  assert (h <> Some p) as Hhp by (intros E; apply head_in in E; by apply (Hp z l)).
  set (m := alter (fun y => {y with size_bits := l}) p (alter (fun y => {y with pg_pre := None}) p (reback (Some p) h (alter (fun y => {y with pg_next := h}) p (mpr s))))).
  set (pl := <[(z, l) := Some p]> (page_list s)). exists (mk m pl s).
  assert (m !! p = Some {| pg_next := h; pg_pre := None; size_bits := l; ref_cnt := ref_cnt x |}) as Hmp by (unfold m; rewrite !lookup_alter_eq, reback_ne, lookup_alter_eq, Hx by done; done).
  assert (forall q, q <> p -> m !! q = reback (Some p) h (mpr s) !! q) as Hmq by (intros q Hq; unfold m; rewrite !lookup_alter_ne, !reback_lookup, lookup_alter_ne by done; done).
  split; [|split; [|split] ].
  - rewrite (mk_same s) at 1. unfold _page_insert. erewrite bind_run by (apply load_list_run, (lo_head _ _ Hlo); done). fold h. erewrite bind_run by (apply set_page_run; by eexists).
    unfold m. destruct h as [q|] eqn:Eh; cbn [reback]; [erewrite bind_run by (apply set_page_run, alter_is_some, Hsome; by apply head_in)|erewrite bind_run by done].
    + erewrite bind_run by (apply set_page_run; do 2 apply alter_is_some; by eexists). erewrite bind_run by (apply store_list_run; rewrite (lo_head _ _ Hlo) by done; by eexists). apply set_page_run. do 3 apply alter_is_some. by eexists.
    + erewrite bind_run by (apply set_page_run; apply alter_is_some; by eexists). erewrite bind_run by (apply store_list_run; rewrite (lo_head _ _ Hlo) by done; by eexists). apply set_page_run. do 2 apply alter_is_some. by eexists.
  - apply (set_list_ok s); try done.
    + intros z' l' q Hl' Hne Hq. cbn [mpr mk]. rewrite Hmq by (intros ->; by apply (Hp z' l')). apply reback_ne. intros E. apply head_in in E. by destruct (lo_uniq _ _ Hlo _ _ _ _ _ Hl Hl' E Hq) as (<- & <-).
    + intros z' l' Hne. apply lookup_insert_ne. congruence.
    + apply lookup_insert_eq.
    + intros c q d E. cbn [mpr mk]. destruct c as [|c0 c]; cbn [app] in E; [injection E as <- <-; by eexists|injection E as <- E].
      assert (q <> p) as Hqp by (intros ->; apply (Hp z l Hl); rewrite E; set_solver). destruct (lo_node _ _ Hlo z l c q d Hl E) as (y & Hy & Hyn & Hyp & Hys). rewrite (Hmq q Hqp), reback_lookup, Hy.
      case_bool_decide as Hh; eexists; (split; [done|]); cbn; split_and!; try done.
      * unfold h in Hh. rewrite E in Hh. destruct c; [done|]. injection Hh as ->. pose proof (lo_nodup _ _ Hlo z l Hl) as Hnd. rewrite E in Hnd. apply NoDup_app in Hnd as (_ & Hd & _). destruct (Hd q); set_solver.
      * rewrite Hyp, last_cons. destruct c as [|c1 c]; [unfold h in Hh; rewrite E in Hh; done|]. by destruct (last (c1 :: c)) eqn:El; [|apply last_None in El].
    + apply NoDup_cons. split; [by apply Hp|by apply (lo_nodup _ _ Hlo)].
    + intros q z' l' Hq Hl' Hne. apply elem_of_cons in Hq as [->|Hq]; [by apply Hp|]. intros Hq'. by destruct (lo_uniq _ _ Hlo _ _ _ _ _ Hl Hl' Hq Hq') as (<- & <-).
  - split; [|done]. intros q Hq. cbn [mpr mk]. by rewrite Hmq, reback_info.
  - eexists. split; [exact Hmp|done].
Qed.

(** ** Blocks *)

Definition zone_of (p : Z) : bool := UINT32_MAX <? p * 2 ^ shift.

Lemma zone_bud p l : 0 <= l < max_order - 1 -> (2 ^ l | p) -> zone_of (bud p l) = zone_of p.
Proof.
  intros Hl Hp. pose proof (bud_chunk p l (max_order - 1) ltac:(lia) Hp) as Hc. pose proof (pow2_pos shift ltac:(lia)). pose proof (pow2_pos (32 - shift) ltac:(lia)). pose proof (pow2_pos (max_order - 1) ltac:(lia)).
  assert (forall q, zone_of q = (1 <=? q / 2 ^ (max_order - 1) / 2 ^ (32 - shift - (max_order - 1)))) as Hz; [|by rewrite !Hz, Hc].
  intros q. unfold zone_of, UINT32_MAX. rewrite Z.div_div by lia. rewrite <- Z.pow_add_r by lia. replace (max_order - 1 + (32 - shift - (max_order - 1))) with (32 - shift) by lia.
  assert (2 ^ 32 = 2 ^ (32 - shift) * 2 ^ shift) as E by (rewrite <- Z.pow_add_r by lia; f_equal; lia). rewrite E.
  destruct (Z.leb_spec 1 (q / 2 ^ (32 - shift))) as [H'|H'].
  - apply Z.ltb_lt. assert (2 ^ (32 - shift) * 1 <= q) as Hq by (apply Z.le_trans with (2 ^ (32 - shift) * (q / 2 ^ (32 - shift))); [nia|apply Z.mul_div_le; lia]). nia.
  - apply Z.ltb_ge. assert (q < 2 ^ (32 - shift)) by (apply Z.nle_gt; intros Hge; pose proof (Z.div_le_lower_bound q (2 ^ (32 - shift)) 1 ltac:(lia) ltac:(lia)); lia). nia.
Qed.

(** A set of blocks: aligned, apart, one level each. *)
Record tiles (B : Z -> Z -> Prop) : Prop := {
  t_ok : forall p l, B p l -> 0 <= l < max_order /\ page_ok p l;
  t_apart : forall p l q k, B p l -> B q k -> p <> q -> p + 2 ^ l <= q \/ q + 2 ^ k <= p;
  t_uniq : forall p l k, B p l -> B p k -> l = k }.
Definition covers (B : Z -> Z -> Prop) (x : Z) : Prop := exists p l, B p l /\ inside x p l.

Lemma tiles_ext B B' : (forall p l, B' p l <-> B p l) -> tiles B -> tiles B'.
Proof.
  intros E Ht. constructor.
  - intros p l Hp. apply E in Hp. by apply (t_ok _ Ht).
  - intros p l q k Hp Hq. apply E in Hp, Hq. by apply (t_apart _ Ht).
  - intros p l k Hp Hq. apply E in Hp, Hq. by apply (t_uniq _ Ht p).
Qed.

Definition merged (B : Z -> Z -> Prop) (m l : Z) : Z -> Z -> Prop := fun q k => (q = m /\ k = l + 1) \/ (B q k /\ q <> m /\ q <> m + 2 ^ l).
Definition halved (B : Z -> Z -> Prop) (m l : Z) : Z -> Z -> Prop := fun q k => ((q = m \/ q = m + 2 ^ l) /\ k = l) \/ (B q k /\ q <> m).

Lemma pow2_next l : 0 <= l -> 2 ^ (l + 1) = 2 ^ l + 2 ^ l.
Proof. intros Hl. rewrite Z.pow_add_r by lia. lia. Qed.

Lemma tiles_merged B m l : tiles B -> B m l -> B (m + 2 ^ l) l -> (2 ^ (l + 1) | m) -> l + 1 < max_order -> tiles (merged B m l).
Proof.
  intros Ht H1 H2 Hd Hl. destruct (t_ok _ Ht _ _ H1) as (Hl0 & Hm1 & _ & Hm3). destruct (t_ok _ Ht _ _ H2) as (_ & _ & _ & Hm4). pose proof (pow2_next l ltac:(lia)) as E. pose proof (pow2_pos l ltac:(lia)).
  constructor.
  - intros q k [(-> & ->)|(Hq & _)]; [|by apply (t_ok _ Ht)]. split; [lia|]. split_and!; [done|done|lia].
  - intros q k q' k' [(-> & ->)|(Hq & Hq1 & Hq2)] [(-> & ->)|(Hq' & Hq1' & Hq2')] Hne; try done.
    + pose proof (t_apart _ Ht _ _ _ _ H1 Hq' Hne). pose proof (t_apart _ Ht _ _ _ _ H2 Hq' (not_eq_sym Hq2')). lia.
    + pose proof (t_apart _ Ht _ _ _ _ Hq H1 Hne). pose proof (t_apart _ Ht _ _ _ _ Hq H2 Hq2). lia.
    + by apply (t_apart _ Ht).
  - intros q k k' [(-> & ->)|(Hq & Hq1 & _)] [(Hm & ->)|(Hq' & Hq1' & _)]; try done; congruence || by apply (t_uniq _ Ht q).
Qed.
Lemma tiles_halved B m l : tiles B -> B m (l + 1) -> 0 <= l -> tiles (halved B m l).
Proof.
  intros Ht H1 Hl0. destruct (t_ok _ Ht _ _ H1) as (Hl & Hm1 & [u Hu] & Hm3). pose proof (pow2_next l ltac:(lia)) as E. pose proof (pow2_pos l ltac:(lia)).
  assert (forall k, ~ B (m + 2 ^ l) k) as Hno.
  { intros k Hk. destruct (t_ok _ Ht _ _ Hk) as (? & _). pose proof (pow2_pos k ltac:(lia)). pose proof (t_apart _ Ht _ _ _ _ H1 Hk ltac:(lia)). lia. }
  constructor.
  - intros q k [([->| ->] & ->)|(Hq & _)]; [..|by apply (t_ok _ Ht)]; (split; [lia|]); split_and!; try lia; [exists (2 * u)|exists (2 * u + 1)]; lia.
  - assert (forall q k, B q k -> q <> m -> q + 2 ^ k <= m \/ m + 2 ^ l + 2 ^ l <= q) as Hap by (intros q k Hq Hn; pose proof (t_apart _ Ht _ _ _ _ Hq H1 Hn); lia).
    intros q k q' k' [([->| ->] & ->)|(Hq & Hq1)] [([->| ->] & ->)|(Hq' & Hq1')] Hne; try done; try lia; try (specialize (Hap _ _ Hq Hq1); lia); try (specialize (Hap _ _ Hq' Hq1'); lia). by apply (t_apart _ Ht).
  - intros q k k' [([->| ->] & ->)|(Hq & Hq1)] [(Hm & ->)|(Hq' & Hq1')]; try done; try (by apply (t_uniq _ Ht q)).
    + by destruct (Hno k').
    + destruct Hm as [-> | ->]; [done|by destruct (Hno k)].
Qed.
Lemma covers_merged B m l x : tiles B -> B m l -> B (m + 2 ^ l) l -> covers (merged B m l) x <-> covers B x.
Proof.
  intros Ht H1 H2. destruct (t_ok _ Ht _ _ H1) as (Hl & _). pose proof (pow2_next l ltac:(lia)) as E. unfold covers, merged, inside. split.
  - intros (p & k & [(-> & ->)|(Hp & _)] & Hx); [|by exists p, k]. destruct (Z.lt_ge_cases x (m + 2 ^ l)); [exists m, l|exists (m + 2 ^ l), l]; (split; [done|lia]).
  - intros (p & k & Hp & Hx). destruct (decide (p = m)) as [->|]; [|destruct (decide (p = m + 2 ^ l)) as [->|]; [|exists p, k; tauto] ].
    + rewrite (t_uniq _ Ht _ _ _ Hp H1) in Hx. exists m, (l + 1). split; [by left|lia].
    + rewrite (t_uniq _ Ht _ _ _ Hp H2) in Hx. exists m, (l + 1). split; [by left|lia].
Qed.
Lemma covers_halved B m l x : tiles B -> B m (l + 1) -> 0 <= l -> covers (halved B m l) x <-> covers B x.
Proof.
  intros Ht H1 Hl0. pose proof (pow2_next l Hl0) as E. unfold covers, halved, inside. split.
  - intros (p & k & [([->| ->] & ->)|(Hp & _)] & Hx); [exists m, (l + 1)|exists m, (l + 1)|by exists p, k]; (split; [done|lia]).
  - intros (p & k & Hp & Hx). destruct (decide (p = m)) as [->|]; [|exists p, k; tauto]. rewrite (t_uniq _ Ht _ _ _ Hp H1) in Hx.
    destruct (Z.lt_ge_cases x (m + 2 ^ l)); [exists m, l|exists (m + 2 ^ l), l]; (split; [left; tauto|lia]).
Qed.
Lemma covers_ext B B' x : (forall p l, B' p l <-> B p l) -> covers B' x <-> covers B x.
Proof. intros E. split; intros (p & l & Hp & Hx); exists p, l; (split; [by apply E|done]). Qed.

(** ** The invariant *)

(** A block is free and in a list, or in [A]. *)
Definition blk (F : bool -> Z -> list Z) (A : gmap Z Z) (p l : Z) : Prop := (0 <= l < max_order /\ exists z, p ∈ F z l) \/ A !! p = Some l.

(** The records of the blocks of [A] say so, except those in [H]; a page of no block, in
    the neighbourhood of one, has a record that says it is not free. *)
Record core (s : page_state) (F : bool -> Z -> list Z) (A : gmap Z Z) (H : list Z) : Prop := {
  c_lists : lists_ok s F;
  c_alloc : forall p l, A !! p = Some l -> (forall z l', 0 <= l' < max_order -> p ∉ F z l') /\ (p ∉ H -> exists x, mpr s !! p = Some x /\ size_bits x = w);
  c_zone : forall z l p, 0 <= l < max_order -> p ∈ F z l -> zone_of p = z;
  c_tiles : tiles (blk F A);
  c_pages : forall p l q, blk F A p l -> q / 2 ^ (max_order - 1) = p / 2 ^ (max_order - 1) -> exists x, mpr s !! q = Some x /\ (size_bits x = w \/ covers (blk F A) q) }.

Lemma links_page p s s' q x : links_only p s s' -> q <> p -> mpr s !! q = Some x -> exists x', mpr s' !! q = Some x' /\ size_bits x' = size_bits x /\ ref_cnt x' = ref_cnt x.
Proof. intros (Hi & _) Hq Hx. specialize (Hi q Hq). rewrite Hx in Hi. destruct (mpr s' !! q) as [x'|]; [|done]. injection Hi as E1 E2. by exists x'. Qed.

(** Changing one page whose record is there keeps what [c_pages] says. *)
Lemma pages_kept B B' s s' p :
  links_only p s s' -> is_Some (mpr s' !! p) -> covers B' p -> (forall q, covers B' q <-> covers B q) ->
  (forall b l q, B b l -> q / 2 ^ (max_order - 1) = b / 2 ^ (max_order - 1) -> exists x, mpr s !! q = Some x /\ (size_bits x = w \/ covers B q)) ->
  (forall b l, B' b l -> exists b' l', B b' l' /\ b / 2 ^ (max_order - 1) = b' / 2 ^ (max_order - 1)) ->
  forall b l q, B' b l -> q / 2 ^ (max_order - 1) = b / 2 ^ (max_order - 1) -> exists x, mpr s' !! q = Some x /\ (size_bits x = w \/ covers B' q).
Proof.
  intros Hlk [xp Hxp] Hcp Hcov Hpages HB b l q Hb Hq. destruct (decide (q = p)) as [->|Hne]; [exists xp; tauto|]. destruct (HB b l Hb) as (b' & l' & Hb' & E). destruct (Hpages b' l' q Hb') as (x & Hx & Hc); [congruence|].
  destruct (links_page _ _ _ _ _ Hlk Hne Hx) as (x' & Hx' & Es & _). exists x'. split; [done|]. by rewrite Hcov, Es.
Qed.

(** Reference counts, and what is not about pages, stay. *)
Definition same_refs (s s' : page_state) : Prop :=
  (forall q, ref_cnt <$> mpr s' !! q = ref_cnt <$> mpr s !! q) /\ page_nr s' = page_nr s /\ _high_page_configured s' = _high_page_configured s.

Lemma same_refs_trans s1 s2 s3 : same_refs s1 s2 -> same_refs s2 s3 -> same_refs s1 s3.
Proof. intros (H1 & H2 & H3) (G1 & G2 & G3). split_and!; [intros q; by rewrite G1|congruence|congruence]. Qed.
Lemma links_refs p s s' x x' : links_only p s s' -> mpr s !! p = Some x -> mpr s' !! p = Some x' -> ref_cnt x' = ref_cnt x -> same_refs s s'.
Proof.
  intros (H1 & H2) Hx Hx' Hr. split; [|done]. intros q. destruct (decide (q = p)) as [->|Hq]; [by rewrite Hx, Hx'; cbn; rewrite Hr|]. specialize (H1 q Hq).
  destruct (mpr s' !! q), (mpr s !! q); try done. cbn in *. by injection H1 as _ ->.
Qed.

Lemma take_core s F A H z l a p b : core s F A H -> 0 <= l < max_order -> F z l = a ++ p :: b ->
  exists s', _page_remove w z p l s = Ok (tt, s') /\ core s' (set_list F z l (a ++ b)) (<[p := l]> A) H /\ links_only p s s' /\
    (forall z' l' q, 0 <= l' < max_order -> q ∈ set_list F z l (a ++ b) z' l' <-> q ∈ F z' l' /\ q <> p) /\ A !! p = None /\
    exists x x', mpr s !! p = Some x /\ mpr s' !! p = Some x' /\ size_bits x' = w /\ ref_cnt x' = ref_cnt x.
Proof.
  intros Hc Hl HF. destruct (page_remove_run s F z l a p b (c_lists _ _ _ _ Hc) Hl HF) as (s' & Hrun & Hlo & Hlk & x & x' & Hx & Hx' & Hs & Hr).
  assert (p ∈ F z l) as Hpin by (rewrite HF; set_solver). assert (A !! p = None) as HAp.
  { destruct (A !! p) as [k|] eqn:E; [|done]. by destruct (proj1 (c_alloc _ _ _ _ Hc p k E) z l Hl). }
  pose proof (lo_nodup _ _ (c_lists _ _ _ _ Hc) z l Hl) as Hnd. rewrite HF in Hnd.
  assert (forall z' l' q, 0 <= l' < max_order -> q ∈ set_list F z l (a ++ b) z' l' <-> q ∈ F z' l' /\ q <> p) as HFin.
  { intros z' l' q Hl'. destruct (decide ((z', l') = (z, l))) as [[= -> ->]|Hne].
    - rewrite set_list_same, HF. apply NoDup_app in Hnd as (_ & Hd & [Hpb _]%NoDup_cons). specialize (Hd p). set_solver.
    - rewrite set_list_other by done. split; [|tauto]. intros Hq. split; [done|]. intros ->. by destruct (lo_uniq _ _ (c_lists _ _ _ _ Hc) _ _ _ _ _ Hl Hl' Hpin Hq) as (<- & <-). }
  assert (forall q k, blk (set_list F z l (a ++ b)) (<[p := l]> A) q k <-> blk F A q k) as Hblk.
  { intros q k. unfold blk. destruct (decide (q = p)) as [->|Hq].
    - rewrite lookup_insert_eq, HAp. split; [intros [(Hk & z' & Hz)|[= <-] ]; [by apply HFin in Hz as (_ & Hz)|left; split; [done|by exists z] ]|].
      intros [(Hk & z' & Hz)|]; [|done]. right. by destruct (lo_uniq _ _ (c_lists _ _ _ _ Hc) _ _ _ _ _ Hl Hk Hpin Hz) as (_ & ->).
    - rewrite lookup_insert_ne by done. split; (intros [(Hk & z' & Hz)|]; [left; split; [done|]; exists z'|by right]); apply HFin in Hz || apply HFin; tauto. }
  exists s'. split; [done|]. split; [|split_and!; [done|done|done|by exists x, x'] ]. constructor; [done| | |by eapply tiles_ext; [|exact (c_tiles _ _ _ _ Hc)]|].
  - intros q k Hq. split.
    + intros z' l' Hl' Hin. apply HFin in Hin as (Hin & Hne); [|done]. rewrite lookup_insert_ne in Hq by done. by destruct (proj1 (c_alloc _ _ _ _ Hc q k Hq) z' l' Hl').
    + intros HqH. destruct (decide (q = p)) as [->|Hne]; [by exists x'|]. rewrite lookup_insert_ne in Hq by done. destruct (proj2 (c_alloc _ _ _ _ Hc q k Hq) HqH) as (y & Hy & Hys).
      destruct (links_page _ _ _ _ _ Hlk Hne Hy) as (y' & Hy' & E & _). exists y'. split; [done|congruence].
  - intros z' l' q Hl' Hq. apply HFin in Hq as (Hq & _); [|done]. by apply (c_zone _ _ _ _ Hc z' l').
  - eapply pages_kept; [exact Hlk|by eexists| |intros q; by apply covers_ext|exact (c_pages _ _ _ _ Hc)|].
    + exists p, l. split; [right; apply lookup_insert_eq|]. unfold inside. pose proof (pow2_pos l ltac:(lia)). lia.
    + intros q k Hq. apply Hblk in Hq. by exists q, k.
Qed.

Lemma give_core s F A H H' l p : core s F A H -> A !! p = Some l -> 0 <= l < max_order -> is_Some (mpr s !! p) -> (forall q, q ∈ H -> q = p \/ q ∈ H') ->
  let z := zone_of p in
  exists s', _page_insert z p l s = Ok (tt, s') /\ core s' (set_list F z l (p :: F z l)) (delete p A) H' /\ same_refs s s' /\
    (forall z' l' q, 0 <= l' < max_order -> q ∈ set_list F z l (p :: F z l) z' l' <-> q ∈ F z' l' \/ (q = p /\ z' = z /\ l' = l)).
Proof.
  intros Hc HAp Hl [x Hx] HH z. destruct (c_alloc _ _ _ _ Hc p l HAp) as (Hno & _). destruct (page_insert_run s F z l p x (c_lists _ _ _ _ Hc) Hl Hx Hno) as (s' & Hrun & Hlo & Hlk & x' & Hx' & Hs & Hr).
  assert (forall z' l' q, 0 <= l' < max_order -> q ∈ set_list F z l (p :: F z l) z' l' <-> q ∈ F z' l' \/ (q = p /\ z' = z /\ l' = l)) as HFin.
  { intros z' l' q Hl'. destruct (decide ((z', l') = (z, l))) as [[= -> ->]|Hne]; [rewrite set_list_same; set_solver|]. rewrite set_list_other by done. split; [by left|]. intros [|(_ & -> & ->)]; done. }
  assert (forall q k, blk (set_list F z l (p :: F z l)) (delete p A) q k <-> blk F A q k) as Hblk.
  { intros q k. unfold blk. destruct (decide (q = p)) as [->|Hq].
    - rewrite lookup_delete_eq, HAp. split.
      + intros [(Hk & z' & Hz)|]; [|done]. apply HFin in Hz as [Hz|(_ & _ & ->)]; [by destruct (Hno z' k Hk)|by right|done].
      + intros [(Hk & z' & Hz)|[= <-] ]; [by destruct (Hno z' k Hk)|]. left. split; [done|]. exists z. apply HFin; [done|]. by right.
    - rewrite lookup_delete_ne by done. split; (intros [(Hk & z' & Hz)|]; [left; split; [done|]; exists z'|by right]); apply HFin in Hz || apply HFin; naive_solver. }
  exists s'. split; [done|]. split; [|split; [by eapply links_refs|done] ]. constructor; [done| | |by eapply tiles_ext; [|exact (c_tiles _ _ _ _ Hc)]|].
  - intros q k Hq. assert (q <> p) as Hne by (intros ->; by rewrite lookup_delete_eq in Hq). rewrite lookup_delete_ne in Hq by done. destruct (c_alloc _ _ _ _ Hc q k Hq) as (Hqno & Hqs). split.
    + intros z' l' Hl' Hin. apply HFin in Hin as [Hin|(-> & _)]; [by apply (Hqno z' l')|done|done].
    + intros HqH. destruct Hqs as (y & Hy & Hys); [intros Hin; by destruct (HH q Hin)|]. destruct (links_page _ _ _ _ _ Hlk Hne Hy) as (y' & Hy' & E & _). exists y'. split; [done|congruence].
  - intros z' l' q Hl' Hq. apply HFin in Hq as [Hq|(-> & -> & ->)]; [by apply (c_zone _ _ _ _ Hc z' l')|done|done].
  - eapply pages_kept; [exact Hlk|by eexists| |intros q; by apply covers_ext|exact (c_pages _ _ _ _ Hc)|].
    + exists p, l. split; [apply Hblk; by right|]. unfold inside. pose proof (pow2_pos l ltac:(lia)). lia.
    + intros q k Hq. apply Hblk in Hq. by exists q, k.
Qed.

(** Two buddies in [A] become one block, and one becomes two; memory does not change. *)
Lemma in_A_level F A s H p l k : core s F A H -> A !! p = Some l -> blk F A p k -> k = l.
Proof. intros Hc Hp Hk. apply (t_uniq _ (c_tiles _ _ _ _ Hc) p); [done|by right]. Qed.

Lemma retile_core s F A A' H H' :
  core s F A H -> (forall p l, A' !! p = Some l -> (forall z l', 0 <= l' < max_order -> p ∉ F z l') /\ (p ∉ H' -> exists x, mpr s !! p = Some x /\ size_bits x = w)) ->
  tiles (blk F A') -> (forall q, covers (blk F A') q <-> covers (blk F A) q) ->
  (forall b l, blk F A' b l -> exists b' l', blk F A b' l' /\ b / 2 ^ (max_order - 1) = b' / 2 ^ (max_order - 1)) -> core s F A' H'.
Proof.
  intros Hc Ha Ht Hcov HB. constructor; [exact (c_lists _ _ _ _ Hc)|done|exact (c_zone _ _ _ _ Hc)|done|].
  intros b l q Hb Hq. destruct (HB b l Hb) as (b' & l' & Hb' & E). destruct (c_pages _ _ _ _ Hc b' l' q Hb') as (x & Hx & Hx2); [congruence|]. exists x. by rewrite Hcov.
Qed.

Lemma merge_core s F A m l :
  core s F A [] -> A !! m = Some l -> A !! (m + 2 ^ l) = Some l -> (2 ^ (l + 1) | m) -> 0 <= l -> l + 1 < max_order ->
  core s F (<[m := l + 1]> (delete (m + 2 ^ l) A)) [].
Proof.
  intros Hc H1 H2 Hd Hl0 Hl. pose proof (pow2_pos l ltac:(lia)). assert (blk F A m l) as B1 by by right. assert (blk F A (m + 2 ^ l) l) as B2 by by right.
  assert (forall q k, blk F (<[m := l + 1]> (delete (m + 2 ^ l) A)) q k <-> merged (blk F A) m l q k) as E.
  { intros q k. unfold blk at 1, merged. destruct (decide (q = m)) as [->|Hm].
    - rewrite lookup_insert_eq. split; [intros [(Hk & z & Hz)|[= <-] ]; [by destruct (proj1 (c_alloc _ _ _ _ Hc m l H1) z k Hk)|by left]|intros [(_ & ->)|(_ & ? & _)]; [by right|done] ].
    - rewrite lookup_insert_ne by done. destruct (decide (q = m + 2 ^ l)) as [->|Hm2].
      + rewrite lookup_delete_eq. split; [intros [(Hk & z & Hz)|]; [by destruct (proj1 (c_alloc _ _ _ _ Hc _ l H2) z k Hk)|done]|intros [(? & _)|(_ & _ & ?)]; done].
      + rewrite lookup_delete_ne by done. unfold blk. tauto. }
  eapply retile_core; [exact Hc| | | |].
  - intros q k Hq. destruct (decide (q = m)) as [->|Hm]; [by apply (c_alloc _ _ _ _ Hc m l)|]. rewrite lookup_insert_ne in Hq by done. apply lookup_delete_Some in Hq as (_ & Hq). by apply (c_alloc _ _ _ _ Hc q k).
  - eapply tiles_ext; [exact E|]. by apply tiles_merged; [exact (c_tiles _ _ _ _ Hc)|..].
  - intros q. rewrite (covers_ext _ _ _ E). by apply covers_merged; [exact (c_tiles _ _ _ _ Hc)|..].
  - intros b k Hb. apply E in Hb as [(-> & ->)|(Hb & _)]; [by exists m, l|by exists b, k].
Qed.

Lemma split_core s F A H m l :
  core s F A H -> A !! m = Some (l + 1) -> 0 <= l -> l + 1 < max_order -> core s F (<[m + 2 ^ l := l]> (<[m := l]> A)) ((m + 2 ^ l) :: m :: H).
Proof.
  intros Hc H1 Hl0 Hl. pose proof (pow2_pos l ltac:(lia)). assert (blk F A m (l + 1)) as B1 by by right. pose proof (c_tiles _ _ _ _ Hc) as Ht. pose proof (pow2_next l Hl0).
  assert (forall k, ~ blk F A (m + 2 ^ l) k) as Hno.
  { intros k Hk. destruct (t_ok _ Ht _ _ Hk) as (? & _). pose proof (pow2_pos k ltac:(lia)). pose proof (t_apart _ Ht _ _ _ _ B1 Hk ltac:(lia)). lia. }
  assert (forall q k, blk F (<[m + 2 ^ l := l]> (<[m := l]> A)) q k <-> halved (blk F A) m l q k) as E.
  { intros q k. unfold blk at 1, halved. destruct (decide (q = m)) as [->|Hm].
    - rewrite lookup_insert_ne, lookup_insert_eq by lia. split; [intros [(Hk & z & Hz)|[= <-] ]; [by destruct (proj1 (c_alloc _ _ _ _ Hc m _ H1) z k Hk)|left; tauto]|intros [(_ & ->)|(_ & ?)]; [by right|done] ].
    - destruct (decide (q = m + 2 ^ l)) as [->|Hm2].
      + rewrite lookup_insert_eq. split; [intros [(Hk & z & Hz)|[= <-] ]; [destruct (Hno k); left; split; [done|by exists z]|left; tauto]|intros [(_ & ->)|(Hk & _)]; [by right|by destruct (Hno k)] ].
      + rewrite !lookup_insert_ne by done. unfold blk. tauto. }
  eapply retile_core; [exact Hc| | | |].
  - intros q k Hq. destruct (decide (q = m + 2 ^ l)) as [->|Hm2].
    { split; [|set_solver]. intros z l' Hl' Hin. apply (Hno l'). left. split; [done|by exists z]. }
    rewrite lookup_insert_ne in Hq by done. destruct (decide (q = m)) as [->|Hm]; [split; [by apply (c_alloc _ _ _ _ Hc m _ H1)|set_solver]|]. rewrite lookup_insert_ne in Hq by done.
    destruct (c_alloc _ _ _ _ Hc q k Hq) as (G1 & G2). split; [done|]. intros Hin. apply G2. set_solver.
  - eapply tiles_ext; [exact E|]. by apply tiles_halved.
  - intros q. rewrite (covers_ext _ _ _ E). by apply covers_halved.
  - intros b k Hb. apply E in Hb as [([->| ->] & ->)|(Hb & _)]; [by exists m, (l + 1)| |by exists b, k]. exists m, (l + 1). split; [done|].
    destruct (t_ok _ Ht _ _ B1) as (_ & _ & [u Hu] & _). assert ((2 ^ l | m)) as Hd by (exists (2 * u); lia).
    assert (bud m l = m + 2 ^ l) as Eb by (unfold bud; rewrite Hu, pow2_next by done; replace (u * (2 ^ l + 2 ^ l)) with (2 * u * 2 ^ l) by lia; rewrite Z.div_mul, Z.even_mul by lia; done).
    rewrite <- Eb. apply bud_chunk; [lia|done].
Qed.

(** The record of the buddy of a block of [A] tells whether the buddy is a free block of
    the same level. *)
Lemma buddy_record s F A p l : core s F A [] -> A !! p = Some l -> 0 <= l < max_order - 1 ->
  exists x, mpr s !! bud p l = Some x /\ (size_bits x = l <-> bud p l ∈ F (zone_of p) l).
Proof.
  intros Hc HAp Hl. pose proof (c_tiles _ _ _ _ Hc) as Ht. assert (blk F A p l) as Bp by by right. destruct (t_ok _ Ht _ _ Bp) as (_ & Hp0 & Hd & Hp1).
  destruct (c_pages _ _ _ _ Hc p l (bud p l) Bp (bud_chunk p l (max_order - 1) ltac:(lia) Hd)) as (x & Hx & Hcov). exists x. split; [done|].
  assert (forall z k, 0 <= k < max_order -> bud p l ∈ F z k -> size_bits x = k) as Hfree.
  { intros z k Hk Hin. apply list_elem_of_split in Hin as (c & d & E). destruct (lo_node _ _ (c_lists _ _ _ _ Hc) z k c _ d Hk E) as (y & Hy & _ & _ & Hs). congruence. }
  split; [|by apply Hfree; lia]. intros Hs. destruct Hcov as [|(b & k & Bb & Hin)]; [lia|]. destruct (t_ok _ Ht _ _ Bb) as (Hk & Hb0 & Hbd & Hb1).
  assert (b = bud p l) as ->.
  { destruct (bud_halves p l ltac:(lia) Hd) as (m & Hm & Hpm). pose proof (pow2_pos l ltac:(lia)). pose proof (pow2_pos k ltac:(lia)). pose proof (pow2_next l ltac:(lia)) as En. unfold inside in Hin.
    destruct (Z.le_gt_cases k l) as [Hkl|Hkl].
    - assert ((2 ^ k | bud p l)) as Hbk by (apply Z.divide_trans with (2 ^ l); [apply pow2_divide; lia|apply bud_divide; [lia|done] ]).
      destruct (aligned_sub (2 ^ k) (bud p l) b (b + 2 ^ k) (bud p l)) as (? & ?); try done; [by apply Z.divide_add_r|lia..].
    - assert ((2 ^ (l + 1) | 2 ^ k)) as Hlk by (apply pow2_divide; lia).
      destruct (aligned_sub (2 ^ (l + 1)) m b (b + 2 ^ k) (bud p l)) as (? & ?); [lia|done|by apply Z.divide_trans with (2 ^ k)|apply Z.divide_add_r; [by apply Z.divide_trans with (2 ^ k)|done]|lia|lia|].
      exfalso. destruct (decide (b = p)) as [->|Hne]; [pose proof (t_uniq _ Ht _ _ _ Bb Bp); lia|]. pose proof (t_apart _ Ht _ _ _ _ Bb Bp Hne). lia. }
  destruct Bb as [(_ & z & Hz)|HA].
  - pose proof (Hfree z k Hk Hz) as Ek. assert (k = l) as -> by congruence. pose proof (c_zone _ _ _ _ Hc z l _ ltac:(lia) Hz) as Ez. rewrite zone_bud in Ez by (done || lia). by rewrite Ez.
  - destruct (proj2 (c_alloc _ _ _ _ Hc _ _ HA)) as (y & Hy & Hys); [set_solver|]. assert (x = y) by congruence. subst. lia.
Qed.

(** ** Freeing *)

Definition free_page (F : bool -> Z -> list Z) (x : Z) : Prop := exists z l p, 0 <= l < max_order /\ p ∈ F z l /\ inside x p l.
(** No block and its buddy are both free: they would be one block. *)
Definition coalesced (F : bool -> Z -> list Z) : Prop := forall z l p, 0 <= l < max_order - 1 -> p ∈ F z l -> bud p l ∉ F z l.
Lemma free_take F F' z l p : 0 <= l < max_order -> p ∈ F z l -> (forall z' l', 0 <= l' < max_order -> p ∈ F z' l' -> l' = l) ->
  (forall z' l' q, 0 <= l' < max_order -> q ∈ F' z' l' <-> q ∈ F z' l' /\ q <> p) -> forall x, free_page F x <-> free_page F' x \/ inside x p l.
Proof.
  intros Hl Hp Hu HF x. split.
  - intros (z' & l' & q & Hl' & Hq & Hx). destruct (decide (q = p)) as [->|Hne]; [right; by rewrite (Hu z' l' Hl' Hq) in Hx|left]. exists z', l', q. rewrite HF; tauto.
  - intros [(z' & l' & q & Hl' & Hq & Hx)|Hx]; [|by exists z, l, p]. exists z', l', q. rewrite HF in Hq; tauto.
Qed.
Lemma free_give F F' z l p : 0 <= l < max_order ->
  (forall z' l' q, 0 <= l' < max_order -> q ∈ F' z' l' <-> q ∈ F z' l' \/ (q = p /\ z' = z /\ l' = l)) -> forall x, free_page F' x <-> free_page F x \/ inside x p l.
Proof.
  intros Hl HF x. split.
  - intros (z' & l' & q & Hl' & Hq & Hx). apply HF in Hq as [Hq|(-> & -> & ->)]; [left; by exists z', l', q|by right|done].
  - intros [(z' & l' & q & Hl' & Hq & Hx)|Hx]; [exists z', l', q|exists z, l, p]; rewrite HF; tauto.
Qed.
Lemma coalesced_take F F' p : coalesced F -> (forall z' l' q, 0 <= l' < max_order -> q ∈ F' z' l' <-> q ∈ F z' l' /\ q <> p) -> coalesced F'.
Proof. intros Hc HF z l q Hl Hq Hb. apply HF in Hq as (Hq & _), Hb as (Hb & _); [|lia..]. by apply (Hc z l q). Qed.
Lemma coalesced_give F F' A s H z l p : core s F A H -> A !! p = Some l -> coalesced F -> (l < max_order - 1 -> bud p l ∉ F z l) ->
  (forall z' l' q, 0 <= l' < max_order -> q ∈ F' z' l' <-> q ∈ F z' l' \/ (q = p /\ z' = z /\ l' = l)) -> coalesced F'.
Proof.
  intros Hc Hp Hco Hb HF z' k q Hk Hq Hbq. destruct (t_ok _ (c_tiles _ _ _ _ Hc) p l ltac:(by right)) as (Hl & _ & Hd & _). pose proof (pow2_pos k ltac:(lia)).
  apply HF in Hq as [Hq|(-> & -> & ->)]; [| |lia]; (apply HF in Hbq as [Hbq|(E & Ez & Ek)]; [| |lia]).
  - by apply (Hco z' k q).
  - subst. apply Hb; [lia|]. destruct (t_ok _ (c_tiles _ _ _ _ Hc) q l) as (_ & _ & Hdq & _); [left; split; [done|by exists z]|]. by rewrite bud_bud by (done || lia).
  - by apply Hb; [lia|].
  - unfold bud in E. destruct (Z.even _); lia.
Qed.

Lemma free_loop_run fuel s F A p l :
  core s F A [] -> A !! p = Some l -> coalesced F -> (Z.to_nat (max_order - 1 - l) <= fuel)%nat ->
  exists s' F' p' l', free_loop w shift max_order pv fuel (zone_of p) p l s = Ok ((p', l'), s') /\ core s' F' (<[p' := l']> (delete p A)) [] /\ delete p A !! p' = None /\ zone_of p' = zone_of p /\
    coalesced F' /\ (l' < max_order - 1 -> bud p' l' ∉ F' (zone_of p) l') /\ (forall x, free_page F x \/ inside x p l <-> free_page F' x \/ inside x p' l') /\ same_refs s s'.
Proof.
  revert s F A p l. induction fuel as [|fuel IH]; intros s F A p l Hc HAp Hco Hf; destruct (t_ok _ (c_tiles _ _ _ _ Hc) p l ltac:(by right)) as (Hl & Hpok); cbn [free_loop].
  - rewrite (proj2 (Z.ltb_ge _ _)) by lia. exists s, F, p, l. rewrite insert_delete_id by done. split_and!; try done; [by rewrite lookup_delete_eq|lia].
  - destruct (Z.ltb_spec l (max_order - 1)) as [Hlt|Hge].
    2:{ exists s, F, p, l. rewrite insert_delete_id by done. split_and!; try done; [by rewrite lookup_delete_eq|lia]. }
    cbn zeta. rewrite buddy_get by (done || lia). destruct Hpok as (Hp0 & Hd & Hp1). destruct (buddy_record s F A p l Hc HAp ltac:(lia)) as (x & Hx & Hfree). rewrite (bind_run _ _ _ _ _ (get_page_read _ _ _ Hx)).
    destruct (Z.eqb_spec (size_bits x) l) as [E|Hne].
    2:{ exists s, F, p, l. rewrite insert_delete_id by done. split_and!; try done; [by rewrite lookup_delete_eq|]. intros _ Hin. by apply Hfree in Hin. }
    apply Hfree in E as Hin. pose proof Hin as Hin0. apply list_elem_of_split in Hin as (a & b & EF). destruct (take_core s F A [] (zone_of p) l a _ b Hc Hl EF) as (s1 & Hrun & Hc1 & Hlk & HF1 & HAq & y & y' & Hy & Hy' & _ & Hr).
    rewrite (bind_run _ _ _ _ _ Hrun). set (F1 := set_list F (zone_of p) l (a ++ b)) in *. set (q := bud p l) in *.
    assert (q <> p) as Hqp by (intros Eq; rewrite Eq in HAq; congruence).
    set (m := if p <? q then p else q). 
    assert (core s1 F1 (<[m := l + 1]> (delete p A)) [] /\ (2 ^ (l + 1) | m) /\ (m = p \/ m = q) /\ (forall x, inside x m (l + 1) <-> inside x p l \/ inside x q l)) as (Hc2 & Hdm & Hm & Hins).
    { destruct (bud_halves p l ltac:(lia) Hd) as (m0 & Hm0 & Hpq). fold q in Hpq. pose proof (pow2_pos l ltac:(lia)). pose proof (pow2_next l ltac:(lia)) as En. unfold inside.
      destruct Hpq as [(Ep & Eq)|(Ep & Eq)].
      - assert (m = p) as -> by (unfold m; by rewrite (proj2 (Z.ltb_lt _ _)) by lia). split_and!; [|by rewrite Ep|by left|lia]. pose proof (merge_core s1 F1 (<[q := l]> A) p l Hc1) as Hmc.
        assert (q = p + 2 ^ l) as Eq2 by lia. rewrite <- Eq2, lookup_insert_eq, lookup_insert_ne, delete_insert_id in Hmc by done. rewrite insert_delete_eq. apply Hmc; [done|done|by rewrite Ep|lia|lia].
      - assert (m = q) as -> by (unfold m; by rewrite (proj2 (Z.ltb_ge _ _)) by lia). split_and!; [|by rewrite Eq|by right|lia]. pose proof (merge_core s1 F1 (<[q := l]> A) q l Hc1) as Hmc.
        assert (p = q + 2 ^ l) as Ep2 by lia. rewrite <- Ep2, lookup_insert_eq, lookup_insert_ne in Hmc by done. rewrite delete_insert_ne, insert_insert_eq in Hmc by done. apply Hmc; [done|done|by rewrite Eq|lia|lia]. }
    assert (delete p A !! m = None) as Hmn by (destruct Hm as [->|Em]; [by rewrite lookup_delete_eq|rewrite Em, lookup_delete_ne by done; done]).
    assert (coalesced F1) as Hco1 by (by eapply coalesced_take; [exact Hco|exact HF1]).
    destruct (IH s1 F1 (<[m := l + 1]> (delete p A)) m (l + 1) Hc2 (lookup_insert_eq _ _ _) Hco1) as (s' & F' & p' & l' & Hloop & Hc' & Hp' & Hz' & Hco' & Hb' & Hfr & Hrefs); [lia|].
    assert (zone_of m = zone_of p) as Ezm by (destruct Hm as [->|Em]; [done|rewrite Em; apply zone_bud; [lia|done] ]). rewrite Ezm in *. rewrite delete_insert_id in Hc', Hp' by done.
    exists s', F', p', l'. split_and!; try done.
    + intros x0. rewrite <- Hfr, Hins. rewrite (free_take F F1 (zone_of p) l q Hl Hin0) by (done || (intros z2 l2 Hl2 Hin2; by destruct (lo_uniq _ _ (c_lists _ _ _ _ Hc) _ _ _ _ _ Hl Hl2 Hin0 Hin2))). tauto.
    + eapply same_refs_trans; [|exact Hrefs]. by eapply links_refs.
Qed.

(** The record of a block that is not free. *)
Lemma touch_core s F A H H' p l f : core s F A H -> A !! p = Some l -> (forall x, mpr s !! p = Some x -> p ∉ H' -> size_bits (f x) = w) -> (forall q, q ∈ H -> q = p \/ q ∈ H') ->
  exists x, mpr s !! p = Some x /\ set_page p f s = Ok (tt, mk (alter f p (mpr s)) (page_list s) s) /\ core (mk (alter f p (mpr s)) (page_list s) s) F A H'.
Proof.
  intros Hc HAp Hf HH. destruct (c_alloc _ _ _ _ Hc p l HAp) as (Hno & _). assert (blk F A p l) as Bp by by right.
  destruct (c_pages _ _ _ _ Hc p l p Bp eq_refl) as (x & Hx & _). exists x. split; [done|]. split; [rewrite (mk_same s) at 1; apply set_page_run; by eexists|].
  assert (forall q, q <> p -> alter f p (mpr s) !! q = mpr s !! q) as Hne by (intros q Hq; by rewrite lookup_alter_ne). pose proof (c_lists _ _ _ _ Hc) as Hlo.
  constructor; [constructor| |exact (c_zone _ _ _ _ Hc)|exact (c_tiles _ _ _ _ Hc)|]; cbn [mpr page_list mk].
  - exact (lo_head _ _ Hlo).
  - intros z k a q b Hk E. rewrite Hne; [by apply (lo_node _ _ Hlo z k)|]. intros ->. apply (Hno z k Hk). rewrite E. set_solver.
  - exact (lo_nodup _ _ Hlo).
  - exact (lo_uniq _ _ Hlo).
  - intros q k Hq. destruct (c_alloc _ _ _ _ Hc q k Hq) as (G1 & G2). split; [done|]. intros HqH. destruct (decide (q = p)) as [->|Hqp].
    + exists (f x). rewrite lookup_alter_eq, Hx. split; [done|by apply Hf].
    + rewrite Hne by done. apply G2. intros Hin. by destruct (HH q Hin).
  - intros b k q Hb Hq. destruct (c_pages _ _ _ _ Hc b k q Hb Hq) as (y & Hy & Hy2). destruct (decide (q = p)) as [->|Hqp]; [|rewrite Hne by done; by exists y].
    exists (f x). rewrite lookup_alter_eq, Hx. split; [done|right]. exists p, l. split; [done|]. destruct (t_ok _ (c_tiles _ _ _ _ Hc) p l Bp) as (? & _). pose proof (pow2_pos l ltac:(lia)). unfold inside. lia.
Qed.

(** [A] are the allocated blocks, with the references to each. *)
Record pg_ok (s : page_state) (F : bool -> Z -> list Z) (A : gmap Z Z) : Prop := {
  pg_core : core s F A [];
  pg_refs : forall p l, A !! p = Some l -> exists n, ref_cnt <$> mpr s !! p = Some n /\ 0 < n < 2 ^ 32;
  pg_coal : coalesced F }.

(** Allocated blocks have no free page. *)
Lemma free_apart s F A H p l x : core s F A H -> A !! p = Some l -> free_page F x -> ~ inside x p l.
Proof.
  intros Hc HAp (z & k & q & Hk & Hq & Hx) Hin. assert (p <> q) as Hne by (intros ->; by destruct (proj1 (c_alloc _ _ _ _ Hc q l HAp) z k Hk)).
  pose proof (t_apart _ (c_tiles _ _ _ _ Hc) p l q k ltac:(by right) ltac:(left; split; [done|by exists z]) Hne). unfold inside in *. lia.
Qed.

Lemma pages_free_run mpr_bytes sizeof_page v2p s F A p l n :
  pg_ok s F A -> A !! p = Some l -> ref_cnt <$> mpr s !! p = Some n -> p * sizeof_page < mpr_bytes -> v2p p <> 0 ->
  exists s', _pages_free w shift max_order pv mpr_bytes sizeof_page v2p (zone_of p) p l s = Ok (if n =? 1 then 1 else 0, s') /\
    (forall q, q <> p -> ref_cnt <$> mpr s' !! q = ref_cnt <$> mpr s !! q) /\ ref_cnt <$> mpr s' !! p = Some (n - 1) /\
    if n =? 1 then exists F', pg_ok s' F' (delete p A) /\ forall x, free_page F' x <-> free_page F x \/ inside x p l else pg_ok s' F A.
Proof.
  intros Hok HAp Hn Hb Hv. pose proof (pg_core _ _ _ Hok) as Hc. destruct (t_ok _ (c_tiles _ _ _ _ Hc) p l ltac:(by right)) as (Hl & Hp0 & _).
  destruct (pg_refs _ _ _ Hok p l HAp) as (n' & Hn' & Hnr). assert (n' = n) as -> by congruence. destruct (proj2 (c_alloc _ _ _ _ Hc p l HAp)) as (x & Hx & Hs); [set_solver|].
  rewrite Hx in Hn. injection Hn as Hn. unfold _pages_free.
  do 3 (rewrite (bind_run _ _ _ tt s) by (apply assert_ok; split; [first [apply Z.leb_le; lia|apply Z.ltb_lt; lia|by apply negb_true_iff, Z.eqb_neq]|reflexivity])).
  rewrite (bind_run _ _ _ _ _ (get_page_read _ _ _ Hx)), Hn, Hs.
  do 3 (rewrite (bind_run _ _ _ tt s) by (apply assert_ok; split; [first [apply Z.ltb_lt; lia|apply Z.eqb_refl]|reflexivity])).
  set (f := fun y => {y with ref_cnt := u32 (ref_cnt y - 1)}).
  destruct (touch_core s F A [] [] p l f Hc HAp) as (x' & Hx' & Hset & Hc1); [intros y Hy _; assert (y = x) as -> by congruence; done|set_solver|]. rewrite (bind_run _ _ _ _ _ Hset).
  set (s1 := mk _ _ s) in *. assert (mpr s1 !! p = Some (f x)) as Hx1 by (cbn; rewrite lookup_alter_eq, Hx; done). rewrite (bind_run _ _ _ _ _ (get_page_read _ _ _ Hx1)).
  assert (ref_cnt (f x) = n - 1) as En by (cbn; rewrite Hn; apply wrap_small; unfold in_u; lia). rewrite En.
  assert (forall q, q <> p -> mpr s1 !! q = mpr s !! q) as Hother by (intros q Hq; cbn; by rewrite lookup_alter_ne).
  destruct (Z.eqb_spec n 1) as [->|Hn1].
  - cbn [Z.sub Z.eqb negb Z.add Z.opp Z.pos_sub]. rewrite (proj2 (Z.eqb_eq (1 - 1) 0)) by lia. cbn [negb].
    destruct (free_loop_run (Z.to_nat max_order) s1 F A p l Hc1 HAp (pg_coal _ _ _ Hok)) as (s2 & F2 & p2 & l2 & Hrun & Hc2 & Hp2 & Hz & Hco & Hbud & Hfr & Hrefs & _); [lia|]. rewrite (bind_run _ _ _ _ _ Hrun).
    assert (blk F2 (<[p2 := l2]> (delete p A)) p2 l2) as Bp2 by (right; apply lookup_insert_eq). destruct (t_ok _ (c_tiles _ _ _ _ Hc2) p2 l2 Bp2) as (Hl2 & _).
    destruct (c_pages _ _ _ _ Hc2 p2 l2 p2 Bp2 eq_refl) as (y & Hy & _).
    destruct (give_core s2 F2 (<[p2 := l2]> (delete p A)) [] [] l2 p2 Hc2 (lookup_insert_eq _ _ _) Hl2) as (s3 & Hins & Hc3 & (Hlk & _) & HF3); [by eexists|set_solver|]. rewrite <- Hz, (bind_run _ _ _ _ _ Hins).
    rewrite delete_insert_id in Hc3 by done. set (F3 := set_list _ _ _ _) in *.
    assert (forall q, ref_cnt <$> mpr s3 !! q = ref_cnt <$> mpr s1 !! q) as Hr3 by (intros q; by rewrite Hlk, Hrefs).
    exists s3. split; [done|]. split_and!; [intros q Hq; by rewrite Hr3, Hother|by rewrite Hr3, Hx1; cbn [fmap option_fmap option_map]; rewrite En|].
    exists F3. split; [constructor; [done| |]|].
    + intros q k Hq. apply lookup_delete_Some in Hq as (Hqp & Hq). rewrite Hr3, Hother by done. by apply (pg_refs _ _ _ Hok q k).
    + apply (coalesced_give F2 F3 (<[p2 := l2]> (delete p A)) s2 [] (zone_of p2) l2 p2); [exact Hc2|apply lookup_insert_eq|exact Hco|rewrite Hz; exact Hbud|exact HF3].
    + intros x0. rewrite (free_give F2 F3 (zone_of p2) l2 p2 Hl2 HF3). by rewrite Hfr.
  - rewrite (proj2 (Z.eqb_neq (n - 1) 0)) by lia. cbn [negb]. exists s1. split; [done|]. split_and!; [intros q Hq; by rewrite Hother|by rewrite Hx1; cbn [fmap option_fmap option_map]; rewrite En|].
    constructor; [done| |exact (pg_coal _ _ _ Hok)]. intros q k Hq. destruct (decide (q = p)) as [->|Hqp]; [|rewrite Hother by done; by apply (pg_refs _ _ _ Hok q k)].
    exists (n - 1). rewrite Hx1. cbn [fmap option_fmap option_map]. rewrite En. split; [done|lia].
Qed.

(** ** Allocation *)

Lemma find_level_run fuel s F z level : lists_ok s F -> 0 <= level <= max_order -> (Z.to_nat (max_order - level) <= fuel)%nat ->
  exists k, find_level max_order fuel z level s = Ok (k, s) /\ level <= k <= max_order /\ (forall j, level <= j < k -> F z j = []) /\ (k < max_order -> F z k <> []).
Proof.
  intros Hlo. revert level. induction fuel as [|fuel IH]; intros level Hl Hf; cbn [find_level].
  - rewrite (proj2 (Z.ltb_ge _ _)) by lia. exists level. split_and!; [done|lia|lia|intros j Hj; lia|lia].
  - destruct (Z.ltb_spec level max_order); [|exists level; split_and!; [done|lia|lia|intros j Hj; lia|lia] ].
    assert (load_list z level s = Ok (head (F z level), s)) as Hload by (unfold load_list; by rewrite (lo_head _ _ Hlo) by lia). rewrite (bind_run _ _ _ _ _ Hload).
    destruct (F z level) as [|q b] eqn:E; cbn [head].
    + destruct (IH (level + 1)) as (k & Hrun & Hk & Hj & Hne); [lia|lia|]. exists k. split_and!; [done|lia|lia| |done]. intros j Hj'. destruct (decide (j = level)) as [->|]; [done|apply Hj; lia].
    + exists level. split_and!; [done|lia|lia|intros j Hj; lia|]. by rewrite E.
Qed.

Lemma split_loop_run fuel s F A p level bits :
  core s F A [p] -> A !! p = Some level -> coalesced F -> 0 <= bits <= level -> (Z.to_nat (level - bits) <= fuel)%nat ->
  exists s' F' p', split_loop w shift pv fuel (zone_of p) p level bits s = Ok (p', s') /\ core s' F' (<[p' := bits]> (delete p A)) [p'] /\ delete p A !! p' = None /\ zone_of p' = zone_of p /\
    coalesced F' /\ (forall x, free_page F x \/ inside x p level <-> free_page F' x \/ inside x p' bits) /\ same_refs s s'.
Proof.
  revert s F A p level. induction fuel as [|fuel IH]; intros s F A p level Hc HAp Hco Hb Hf; cbn [split_loop].
  - rewrite (proj2 (Z.ltb_ge _ _)) by lia. assert (level = bits) as -> by lia. exists s, F, p. rewrite insert_delete_id by done. split_and!; try done. by rewrite lookup_delete_eq.
  - destruct (Z.ltb_spec bits level) as [Hlt|Hge].
    2:{ assert (level = bits) as -> by lia. exists s, F, p. rewrite insert_delete_id by done. split_and!; try done. by rewrite lookup_delete_eq. }
    pose proof (c_tiles _ _ _ _ Hc) as Ht. assert (blk F A p level) as Bp by by right. destruct (t_ok _ Ht _ _ Bp) as (Hl & Hp0 & [u Hu] & Hp1). set (k := level - 1) in *. assert (level = k + 1) as Ek by (unfold k; lia). clearbody k. subst level.
    pose proof (pow2_pos k ltac:(lia)). pose proof (pow2_next k ltac:(lia)) as En. set (q := p + 2 ^ k).
    assert (A !! q = None) as HAq.
    { destruct (A !! q) as [j|] eqn:E; [|done]. assert (blk F A q j) as Bq by by right. destruct (t_ok _ Ht _ _ Bq) as (? & _). pose proof (pow2_pos j ltac:(lia)). pose proof (t_apart _ Ht _ _ _ _ Bp Bq ltac:(unfold q; lia)). unfold q in *. lia. }
    pose proof (split_core s F A [p] p k Hc HAp ltac:(lia) ltac:(lia)) as Hc0. fold q in Hc0. pose proof Hc0 as Hc1.
    set (A1 := <[q := k]> (<[p := k]> A)) in *. assert (A1 !! p = Some k) as HA1p by (unfold A1; rewrite lookup_insert_ne, lookup_insert_eq by (unfold q; lia); done).
    assert (A1 !! q = Some k) as HA1q by apply lookup_insert_eq.
    assert (is_Some (mpr s !! p)) as Hsp by (destruct (c_pages _ _ _ _ Hc p (k + 1) p Bp eq_refl) as (y & Hy & _); by eexists).
    destruct (give_core s F A1 _ [q] k p Hc1 HA1p ltac:(lia) Hsp) as (s1 & Hins & Hc2 & Hr1 & HF1); [set_solver|]. rewrite (bind_run _ _ _ _ _ Hins). set (F1 := set_list _ _ _ _) in *.
    assert ((2 ^ k | p)) as Hdk by (exists (2 * u); lia).
    assert (bud p k = q) as Ebq by (unfold bud, q; rewrite Hu, En; replace (u * (2 ^ k + 2 ^ k)) with (2 * u * 2 ^ k) by lia; rewrite Z.div_mul, Z.even_mul by lia; done).
    rewrite buddy_get, Ebq by (lia || (split_and!; [lia|done|lia])).
    assert (delete p A1 = <[q := k]> (delete p A)) as EA by (unfold A1; rewrite delete_insert_ne, delete_insert_eq by (unfold q; lia); done). rewrite EA in Hc2.
    assert (zone_of q = zone_of p) as Ezq by (rewrite <- Ebq; apply zone_bud; [lia|done]).
    assert (coalesced F1) as Hco1.
    { apply (coalesced_give F F1 A1 s _ (zone_of p) k p Hc1 HA1p Hco); [|exact HF1]. intros _. rewrite Ebq. apply (proj1 (c_alloc _ _ _ _ Hc1 q k HA1q)). lia. }
    destruct (IH s1 F1 (<[q := k]> (delete p A)) q k Hc2 (lookup_insert_eq _ _ _) Hco1 ltac:(lia) ltac:(lia)) as (s' & F' & p' & Hrun & Hc' & Hp' & Hz' & Hco' & Hfr & Hrefs).
    rewrite delete_insert_id in Hc', Hp' by (rewrite lookup_delete_ne by (unfold q; lia); done). exists s', F', p'. rewrite Ezq in Hrun, Hz'. replace (k + 1 - 1) with k by lia. split_and!; try done.
    + intros x. rewrite <- Hfr, (free_give F F1 (zone_of p) k p ltac:(lia) HF1). assert (inside x p (k + 1) <-> inside x p k \/ inside x q k) by (unfold inside, q; rewrite En; lia). tauto.
    + by eapply same_refs_trans.
Qed.

(** A block of the size asked for, or none when there is none that large. *)
Lemma pages_alloc_run s F A z bits : pg_ok s F A -> 0 <= bits < max_order ->
  (exists s' F' p, _pages_alloc w shift max_order pv z bits s = Ok (Some p, s') /\ pg_ok s' F' (<[p := bits]> A) /\ A !! p = None /\ zone_of p = z /\
    (forall x, free_page F x <-> free_page F' x \/ inside x p bits) /\ ref_cnt <$> mpr s' !! p = Some 1 /\ (forall q, q <> p -> ref_cnt <$> mpr s' !! q = ref_cnt <$> mpr s !! q) /\
    _high_page_configured s' = _high_page_configured s) \/
  (_pages_alloc w shift max_order pv z bits s = Ok (None, s) /\ forall k, bits <= k < max_order -> F z k = []).
Proof.
  intros Hok Hb. pose proof (pg_core _ _ _ Hok) as Hc. pose proof (c_lists _ _ _ _ Hc) as Hlo. unfold _pages_alloc.
  assert (forall k, 0 <= k < max_order -> load_list z k s = Ok (head (F z k), s)) as Hload by (intros k Hk; unfold load_list; by rewrite (lo_head _ _ Hlo) by lia). rewrite (bind_run _ _ _ _ _ (Hload bits Hb)).
  destruct (find_level_run (Z.to_nat max_order) s F z bits Hlo ltac:(lia) ltac:(lia)) as (k & _ & Hk & Hempty & Hne).
  destruct (find_level_run (Z.to_nat max_order) s F z (bits + 1) Hlo ltac:(lia) ltac:(lia)) as (k1 & Hrun1 & Hk1 & Hempty1 & Hne1).
  assert (forall level p b, 0 <= level < max_order -> F z level = p :: b -> bits <= level ->
    exists s' F' p', (p ← take_block w z level; p ← split_loop w shift pv (Z.to_nat max_order) z p level bits; mret (Some p)) s = Ok (Some p', s') /\ core s' F' (<[p' := bits]> A) [p'] /\ A !! p' = None /\ zone_of p' = z /\
      coalesced F' /\ (forall x, free_page F x <-> free_page F' x \/ inside x p' bits) /\ same_refs s s') as Htake.
  { intros level p b Hlev EF Hbl. destruct (take_core s F A [] z level [] p b Hc Hlev EF) as (s1 & Hrem & Hc1 & Hlk & HF1 & HAp & x & x' & Hx & Hx' & _ & Hr). set (F1 := set_list _ _ _ _) in *.
    assert (zone_of p = z) as Hz by (apply (c_zone _ _ _ _ Hc z level); [done|rewrite EF; set_solver]).
    destruct (split_loop_run (Z.to_nat max_order) s1 F1 (<[p := level]> A) p level bits) as (s2 & F2 & p2 & Hsp & Hc2 & Hp2 & Hz2 & Hco2 & Hfr2 & Hr2); [|apply lookup_insert_eq| |lia|lia|].
    - eapply retile_core; [exact Hc1| |exact (c_tiles _ _ _ _ Hc1)|done|intros q j Hq; by exists q, j]. intros q j Hq. destruct (c_alloc _ _ _ _ Hc1 q j Hq) as (G1 & G2). split; [done|]. intros _. apply G2. set_solver.
    - by eapply coalesced_take; [exact (pg_coal _ _ _ Hok)|exact HF1].
    - rewrite delete_insert_id in Hc2, Hp2 by done. rewrite Hz in *. exists s2, F2, p2. unfold take_block. erewrite bind_run.
      2:{ rewrite (bind_run _ _ _ _ _ (Hload level Hlev)), EF. cbn [head]. rewrite (bind_run _ _ _ _ _ Hrem). reflexivity. }
      rewrite (bind_run _ _ _ _ _ Hsp). split_and!; try done.
      + intros y. rewrite <- Hfr2. apply (free_take F F1 z level p Hlev); [rewrite EF; set_solver| |exact HF1]. intros z' l' Hl' Hin. by destruct (lo_uniq _ _ Hlo _ _ _ _ _ Hlev Hl' (ltac:(rewrite EF; set_solver) : p ∈ F z level) Hin).
      + eapply same_refs_trans; [|exact Hr2]. by eapply links_refs. }
  assert (forall s1 F1 p, core s1 F1 (<[p := bits]> A) [p] -> A !! p = None -> coalesced F1 -> same_refs s s1 ->
    exists s', (set_page p (fun y => {{y with size_bits := w} with ref_cnt := 1}) ;; mret (Some p)) s1 = Ok (Some p, s') /\ pg_ok s' F1 (<[p := bits]> A) /\ ref_cnt <$> mpr s' !! p = Some 1 /\
      (forall q, q <> p -> ref_cnt <$> mpr s' !! q = ref_cnt <$> mpr s !! q) /\ _high_page_configured s' = _high_page_configured s) as Hfin.
  { intros s1 F1 p Hc1 HAp Hco1 (Hr1 & _ & Hr3). destruct (touch_core s1 F1 (<[p := bits]> A) [p] [] p bits (fun y => {{y with size_bits := w} with ref_cnt := 1}) Hc1 (lookup_insert_eq _ _ _)) as (x & Hx & Hset & Hc2); [done|set_solver|].
    eexists. rewrite (bind_run _ _ _ _ _ Hset). split; [done|]. assert (ref_cnt <$> alter (fun y => {{y with size_bits := w} with ref_cnt := 1}) p (mpr s1) !! p = Some 1) as H1 by (rewrite lookup_alter_eq, Hx; done).
    assert (forall q, q <> p -> ref_cnt <$> alter (fun y => {{y with size_bits := w} with ref_cnt := 1}) p (mpr s1) !! q = ref_cnt <$> mpr s !! q) as H2 by (intros q Hq; by rewrite lookup_alter_ne, Hr1).
    split_and!; [|done|done|done]. constructor; [done| |done]. intros q j Hq. cbn [mpr mk]. destruct (decide (q = p)) as [->|Hqp]; [by exists 1|]. rewrite lookup_insert_ne in Hq by done. rewrite H2 by done. by apply (pg_refs _ _ _ Hok q j). }
  destruct (F z bits) as [|p b] eqn:EF; cbn [head].
  - destruct (Z.eqb_spec k1 max_order) as [->|Hk1n].
    + right. split; [erewrite bind_run by (rewrite (bind_run _ _ _ _ _ Hrun1), Z.eqb_refl; reflexivity); done|]. intros j Hj. destruct (decide (j = bits)) as [->|]; [done|]. apply Hempty1. lia.
    + left. destruct (F z k1) as [|p b] eqn:EF1; [by destruct (Hne1 ltac:(lia))|]. destruct (Htake k1 p b ltac:(lia) EF1 ltac:(lia)) as (s1 & F1 & p1 & Hr & Hc1 & HA1 & Hz1 & Hco1 & Hfr1 & Hrefs1).
      destruct (Hfin s1 F1 p1 Hc1 HA1 Hco1 Hrefs1) as (s2 & Hset & Hok2 & G1 & G2 & G3). exists s2, F1, p1. split_and!; try done.
      erewrite bind_run by (rewrite (bind_run _ _ _ _ _ Hrun1), (proj2 (Z.eqb_neq _ _) Hk1n); exact Hr). exact Hset.
  - left. destruct (take_core s F A [] z bits [] p b Hc Hb EF) as (s1 & Hrem & Hc1 & Hlk & HF1 & HAp & x & x' & Hx & Hx' & _ & Hr). set (F1 := set_list _ _ _ _) in *. assert (p ∈ F z bits) as Hin by (rewrite EF; set_solver).
    assert (core s1 F1 (<[p := bits]> A) [p]) as Hc1p.
    { eapply retile_core; [exact Hc1| |exact (c_tiles _ _ _ _ Hc1)|done|intros q j Hq; by exists q, j]. intros q j Hq. destruct (c_alloc _ _ _ _ Hc1 q j Hq) as (G1 & G2). split; [done|]. intros _. apply G2. set_solver. }
    destruct (Hfin s1 F1 p Hc1p HAp) as (s2 & Hset & Hok2 & G1 & G2 & G3); [by eapply coalesced_take; [exact (pg_coal _ _ _ Hok)|exact HF1]|by eapply links_refs|].
    exists s2, F1, p. split_and!; try done.
    + erewrite bind_run by (rewrite (bind_run _ _ _ _ _ Hrem); reflexivity). exact Hset.
    + by apply (c_zone _ _ _ _ Hc z bits).
    + intros y. apply (free_take F F1 z bits p Hb Hin); [|exact HF1]. intros z' l' Hl' Hin2. by destruct (lo_uniq _ _ Hlo _ _ _ _ _ Hb Hl' Hin Hin2).
Qed.

(** ** Addresses *)

Lemma list_of_page p : 0 <= p < 2 ^ (w - shift) -> _get_page_list w pv (page_to_addr w shift pv p) = zone_of p.
Proof.
  intros Hp. unfold _get_page_list, page_to_addr, zone_of, page_list_high, page_list_low. rewrite wrap_sub_l, wrap_add_l, Z.shiftl_mul_pow2 by lia. replace (p * 2 ^ shift - pv + pv) with (p * 2 ^ shift) by lia.
  pose proof (pow2_pos shift ltac:(lia)). assert (2 ^ w = 2 ^ (w - shift) * 2 ^ shift) as E by (rewrite <- Z.pow_add_r by lia; f_equal; lia). rewrite wrap_small by (unfold in_u; nia). by destruct (_ <? _).
Qed.

Lemma block_range s F A p l : pg_ok s F A -> A !! p = Some l -> 0 <= l < max_order /\ (2 ^ l | p) /\ 0 <= p < 2 ^ (w - shift).
Proof.
  intros Hok Hp. destruct (t_ok _ (c_tiles _ _ _ _ (pg_core _ _ _ Hok)) p l ltac:(by right)) as (Hl & H1 & H2 & H3). pose proof (pow2_pos l ltac:(lia)). split_and!; try done; lia.
Qed.

(** What an allocation does: the block was free, is aligned and belongs to the caller with one reference. *)
Definition allocated (s : page_state) (F : bool -> Z -> list Z) (A : gmap Z Z) (bits p : Z) (s' : page_state) : Prop :=
  exists F', pg_ok s' F' (<[p := bits]> A) /\ A !! p = None /\ (2 ^ bits | p) /\ (forall x, free_page F x <-> free_page F' x \/ inside x p bits) /\ (forall x, inside x p bits -> ~ free_page F' x) /\
    ref_cnt <$> mpr s' !! p = Some 1 /\ (forall q, q <> p -> ref_cnt <$> mpr s' !! q = ref_cnt <$> mpr s !! q).

Lemma allocated_intro s F A bits p s' F' : pg_ok s' F' (<[p := bits]> A) -> A !! p = None -> (forall x, free_page F x <-> free_page F' x \/ inside x p bits) ->
  ref_cnt <$> mpr s' !! p = Some 1 -> (forall q, q <> p -> ref_cnt <$> mpr s' !! q = ref_cnt <$> mpr s !! q) -> allocated s F A bits p s'.
Proof.
  intros Hok HA Hfr H1 H2. exists F'. destruct (block_range s' F' _ p bits Hok (lookup_insert_eq _ _ _)) as (_ & Hd & _). split_and!; try done.
  intros x Hx Hf. by apply (free_apart s' F' (<[p := bits]> A) [] p bits x (pg_core _ _ _ Hok) (lookup_insert_eq _ _ _) Hf).
Qed.

Lemma alloc_ext_run s F A bits flags : pg_ok s F A -> 0 <= bits < max_order ->
  (exists s' p, rt_pages_alloc_ext w shift max_order pv bits flags s = Ok (page_to_addr w shift pv p, s') /\ allocated s F A bits p s') \/
  (rt_pages_alloc_ext w shift max_order pv bits flags s = Ok (0, s) /\ forall k, bits <= k < max_order -> F page_list_low k = [] /\
    (_high_page_configured s = true -> Z.land flags PAGE_ANY_AVAILABLE <> 0 -> F page_list_high k = [])).
Proof.
  intros Hok Hb. unfold rt_pages_alloc_ext, _do_pages_alloc. set (z := if _high_page_configured s && negb (Z.land flags PAGE_ANY_AVAILABLE =? 0) then page_list_high else page_list_low).
  assert (_flag_to_page_list flags s = Ok (z, s)) as Hz by done. rewrite (bind_run _ _ _ _ _ Hz).
  destruct (pages_alloc_run s F A z bits Hok Hb) as [(s' & F' & p & Hrun & Hok' & HA & _ & Hfr & H1 & H2 & _)|(Hrun & Hnone)]; rewrite (bind_run _ _ _ _ _ Hrun).
  - left. exists s', p. split; [done|by eapply allocated_intro].
  - destruct (Bool.eqb z page_list_low) eqn:Ez.
    + apply Bool.eqb_prop in Ez. right. split; [done|]. intros k Hk. split; [rewrite <- Ez; by apply Hnone|]. intros Hh Hfl. exfalso. unfold z in Ez. rewrite Hh in Ez. by rewrite (proj2 (Z.eqb_neq _ _) Hfl) in Ez.
    + destruct (pages_alloc_run s F A page_list_low bits Hok Hb) as [(s' & F' & p & Hrun2 & Hok' & HA & _ & Hfr & H1 & H2 & _)|(Hrun2 & Hnone2)]; rewrite (bind_run _ _ _ _ _ Hrun2).
      * left. exists s', p. split; [done|by eapply allocated_intro].
      * right. split; [done|]. intros k Hk. split; [by apply Hnone2|]. intros _ _. destruct z; [by apply Hnone|done].
Qed.

Lemma page_free_run mpr_bytes sizeof_page v2p s F A p l n :
  pg_ok s F A -> A !! p = Some l -> ref_cnt <$> mpr s !! p = Some n -> p * sizeof_page < mpr_bytes -> v2p p <> 0 ->
  exists s', rt_pages_free w shift max_order pv mpr_bytes sizeof_page v2p (page_to_addr w shift pv p) l s = Ok (if n =? 1 then 1 else 0, s') /\
    (forall q, q <> p -> ref_cnt <$> mpr s' !! q = ref_cnt <$> mpr s !! q) /\ ref_cnt <$> mpr s' !! p = Some (n - 1) /\
    if n =? 1 then exists F', pg_ok s' F' (delete p A) /\ forall x, free_page F' x <-> free_page F x \/ inside x p l else pg_ok s' F A.
Proof.
  intros Hok HA Hn Hb Hv. destruct (block_range s F A p l Hok HA) as (_ & _ & Hp). unfold rt_pages_free. rewrite list_of_page, addr_page by done. by apply pages_free_run.
Qed.

(** ** References *)

Lemma page_head_run p l x : 0 <= l < w -> (2 ^ l | p) -> inside x p l -> 0 <= p -> x < 2 ^ 31 -> page_head w x l = p.
Proof.
  intros Hl [u ->] Hx Hp Hx2. unfold inside in Hx. pose proof (pow2_pos l ltac:(lia)). assert (2 ^ 33 <= 2 ^ w) by (apply Z.pow_le_mono_r; lia).
  assert (in_u w x) as Hxu by (unfold in_u; lia). assert (in_s 32 x) as Hxs by (unfold in_s; lia).
  unfold page_head. rewrite (sext_small 32 x), (wrap_small w x) by (lia || done). rewrite Z.shiftl_mul_pow2, Z.mul_1_l by lia.
  assert (Z.land x (wrap w (Z.lnot (2 ^ l - 1))) = u * 2 ^ l) as ->.
  { replace (u * 2 ^ l) with (Z.ldiff x (Z.ones l)).
    - apply Z.bits_inj'. intros i Hi. rewrite Z.land_spec, testbit_wrap, Z.ldiff_spec, Z.lnot_spec, Z.ones_equiv, <- Z.sub_1_r by lia. destruct (Z.ltb_spec i w); [done|]. by rewrite (testbit_high w x i Hxu) by lia.
    - rewrite Z.ldiff_ones_r, Z.shiftr_div_pow2, Z.shiftl_mul_pow2 by lia. f_equal. symmetry. apply (Z.div_unique_pos x (2 ^ l) u (x - u * 2 ^ l)); lia. }
  apply sext_small; [lia|]. unfold in_s in *. lia.
Qed.

(** A page of an allocated block stands for the block. *)
Lemma ref_inc_run s F A p l x n : pg_ok s F A -> A !! p = Some l -> ref_cnt <$> mpr s !! p = Some n -> inside x p l -> p + 2 ^ l <= 2 ^ 31 ->
  rt_page_ref_get w shift pv (page_to_addr w shift pv x) l s = Ok (s32 n, s) /\
  (n + 1 < 2 ^ 32 -> exists s', rt_page_ref_inc w shift pv (page_to_addr w shift pv x) l s = Ok (tt, s') /\ pg_ok s' F A /\
    ref_cnt <$> mpr s' !! p = Some (n + 1) /\ (forall q, q <> p -> mpr s' !! q = mpr s !! q)).
Proof.
  intros Hok HA Hn Hx Hp31. pose proof (pg_core _ _ _ Hok) as Hc. destruct (t_ok _ (c_tiles _ _ _ _ Hc) p l ltac:(by right)) as (Hl & Hp0 & Hd & Hp1).
  assert (page_head w x l = p) as Eh by (apply page_head_run; unfold inside in Hx; try done; lia).
  unfold rt_page_ref_get, rt_page_ref_inc, _pages_ref_get, _pages_ref_inc. rewrite addr_page, Eh by (unfold inside in Hx; lia).
  destruct (proj2 (c_alloc _ _ _ _ Hc p l HA)) as (y & Hy & Hs); [set_solver|]. rewrite Hy in Hn. injection Hn as Hn. split; [rewrite (bind_run _ _ _ _ _ (get_page_read _ _ _ Hy)), Hn; done|]. intros Hmax.
  destruct (pg_refs _ _ _ Hok p l HA) as (n' & Hn' & Hnr). rewrite Hy in Hn'. injection Hn' as <-.
  destruct (touch_core s F A [] [] p l (fun y => {y with ref_cnt := u32 (ref_cnt y + 1)}) Hc HA) as (y' & Hy' & Hset & Hc'); [intros z Hz _; assert (z = y) as -> by congruence; done|set_solver|].
  assert (y' = y) as -> by congruence. eexists. split; [exact Hset|]. cbn [mpr mk].
  assert (ref_cnt <$> alter (fun y => {y with ref_cnt := u32 (ref_cnt y + 1)}) p (mpr s) !! p = Some (n + 1)) as Hp' by (rewrite lookup_alter_eq, Hy; cbn; rewrite Hn; f_equal; apply wrap_small; unfold in_u; lia).
  assert (forall q, q <> p -> alter (fun y => {y with ref_cnt := u32 (ref_cnt y + 1)}) p (mpr s) !! q = mpr s !! q) as Hq by (intros q Hq; by rewrite lookup_alter_ne).
  split_and!; [|exact Hp'|exact Hq]. constructor; [exact Hc'| |exact (pg_coal _ _ _ Hok)]. intros q j Hqj. cbn [mpr mk]. destruct (decide (q = p)) as [->|Hne]; [exists (n + 1); split; [exact Hp'|lia]|]. rewrite Hq by done. by apply (pg_refs _ _ _ Hok q j).
Qed.

(** The array of lists has RT_PAGE_MAX_ORDER entries; the level asked for is not checked. *)
Lemma pages_alloc_bounds s z bits : page_list s !! (z, bits) = None -> _pages_alloc w shift max_order pv z bits s = Undef "index out of bounds".
Proof. intros H. unfold _pages_alloc, mbind, st_bind, load_list. by rewrite H. Qed.

(** The number of pages for a size, as a power of two. *)
Lemma page_bits_run s size : 0 < size < 2 ^ w -> exists b, rt_page_bits w shift size s = Ok (b, s) /\ 0 <= b /\ size <= 2 ^ (shift + b) /\ (b = 0 \/ 2 ^ (shift + b - 1) < size).
Proof.
  intros Hs. unfold rt_page_bits, rt_hw_clz. rewrite (proj2 (Z.eqb_neq size 0)) by lia. rewrite (bind_run _ _ _ (w - 1 - Z.log2 size) s eq_refl). cbn zeta. replace (w - (w - 1 - Z.log2 size) - 1) with (Z.log2 size) by lia.
  pose proof (Z.log2_spec size ltac:(lia)) as Hl. pose proof (Z.log2_nonneg size) as Hl0. rewrite Z.shiftl_mul_pow2, Z.mul_1_l by lia. set (k := Z.log2 size) in *.
  assert (exists j, (if negb (Z.lxor size (2 ^ k) =? 0) then k + 1 else k) = j /\ 0 <= j /\ size <= 2 ^ j /\ (j = 0 \/ 2 ^ (j - 1) < size)) as (j & -> & Hj0 & Hj1 & Hj2).
  { destruct (Z.eqb_spec (Z.lxor size (2 ^ k)) 0) as [E|E]; cbn [negb].
    - apply Z.lxor_eq in E. exists k. split_and!; [done|done|lia|]. destruct (decide (k = 0)); [by left|right]. assert (2 ^ (k - 1) < 2 ^ k) by (apply Z.pow_lt_mono_r; lia). lia.
    - exists (k + 1). split_and!; [done|lia|unfold Z.succ in Hl; lia|right]. replace (k + 1 - 1) with k by lia. destruct (decide (size = 2 ^ k)) as [Es|]; [|lia]. rewrite <- Es, Z.lxor_nilpotent in E. done. }
  eexists. split; [done|]. destruct (Z.ltb_spec (j - shift) 0).
  - split_and!; [done| |by left]. rewrite Z.add_0_r. etransitivity; [exact Hj1|]. apply Z.pow_le_mono_r; lia.
  - replace (shift + (j - shift)) with j by lia. split_and!; [done|done|]. destruct Hj2 as [->|]; [|by right]. left. lia.
Qed.
End Facts.

(** ** A small region: pages 4 to 7, with blocks of up to 4 pages *)

Definition blank_page (bits : Z) : rt_page := {| pg_next := None; pg_pre := None; size_bits := bits; ref_cnt := 0 |}.
Definition demo_lists (h : option Z) : gmap (bool * Z) (option Z) :=
  list_to_map [((false, 0), None); ((false, 1), None); ((false, 2), h); ((true, 0), None); ((true, 1), None); ((true, 2), None)].
Definition demo_pages : page_state :=
  {| mpr := list_to_map [(4, blank_page 2); (5, blank_page 64); (6, blank_page 64); (7, blank_page 64)]; page_list := demo_lists (Some 4); page_nr := 4; _high_page_configured := false |}.
Definition demo_free (z : bool) (l : Z) : list Z := if bool_decide (z = false /\ l = 2) then [4] else [].

Lemma demo_pages_ok : pg_ok 64 12 3 demo_pages demo_free ∅.
Proof.
  assert (forall z l p, p ∈ demo_free z l -> z = false /\ l = 2 /\ p = 4) as HF.
  { intros z l p. unfold demo_free. case_bool_decide; [|by intros ?%not_elem_of_nil]. intros ->%list_elem_of_singleton. tauto. }
  assert (forall p l, blk 3 demo_free ∅ p l -> p = 4 /\ l = 2) as HB by (intros p l [(_ & z & Hz)|Hp]; [apply HF in Hz; tauto|by rewrite lookup_empty in Hp]).
  constructor; [constructor; [constructor| | | |]|by intros p l Hp; rewrite lookup_empty in Hp|].
  - intros z l Hl. assert (l = 0 \/ l = 1 \/ l = 2) as [->|[->| ->] ] by lia; destruct z; reflexivity.
  - intros z l a p b Hl E. destruct (HF z l p) as (-> & -> & ->); [rewrite E; set_solver|]. destruct a as [|? [|]]; cbn in E; [injection E as <-|discriminate|discriminate]. by eexists.
  - intros z l _. unfold demo_free. case_bool_decide; [apply NoDup_singleton|constructor].
  - intros z l z' l' p _ _ H1 H2. apply HF in H1, H2. destruct H1 as (-> & -> & _), H2 as (-> & -> & _). done.
  - intros p l Hp. by rewrite lookup_empty in Hp.
  - intros z l p _ Hp. apply HF in Hp. destruct Hp as (-> & _ & ->). done.
  - constructor.
    + intros p l Hp. apply HB in Hp as (-> & ->). split; [lia|]. split_and!; [lia|by exists 1|done].
    + intros p l q k Hp Hq Hn. apply HB in Hp, Hq. lia.
    + intros p l k Hp Hq. apply HB in Hp, Hq. lia.
  - intros p l q Hp Hq. apply HB in Hp as (-> & ->). assert (4 <= q < 8) as Hr by (change (4 / 2 ^ (3 - 1)) with 1 in Hq; change (2 ^ (3 - 1)) with 4 in Hq; pose proof (Z.div_mod q 4); pose proof (Z.mod_pos_bound q 4); lia).
    assert (covers (blk 3 demo_free ∅) q) as Hcov by (exists 4, 2; split; [left; split; [lia|exists false; by left]|unfold inside; cbn; lia]).
    assert (q = 4 \/ q = 5 \/ q = 6 \/ q = 7) as [->|[->|[->| ->] ] ] by lia; eexists; (split; [reflexivity|by right]).
  - intros z l p Hl Hp. apply HF in Hp. lia.
Qed.

(** The region as it is installed. *)
Lemma demo_installed : _install_page 64 12 3 0 10 0x4000 0x8000
    {| mpr := list_to_map [(4, blank_page 0); (5, blank_page 64); (6, blank_page 64); (7, blank_page 64)]; page_list := demo_lists None; page_nr := 4; _high_page_configured := false |} = Ok (tt, demo_pages).
Proof. vm_compute. reflexivity. Qed.
