(* ===== verification/Riscv32Props.v ===== *)
(** * Properties of the riscv32 interpreter

    What decoding and executing riscv32 instructions amounts to, as theorems
    about [decode_exec] on the encoding of an instruction.  [at_insn] gathers
    what they share: the instruction is well formed, its registers exist and the
    processor state satisfies the invariant.  The [_witness] lemmas apply each
    theorem to a concrete state. *)
From S2P Require Import Prelude Outcome Bytes Config CommitEvent CommitRing Machine PhysMem Devices IoMap.
From S2P Require Import Vaddr Pattern Isa Riscv32 Riscv32Decode Riscv32Safety Riscv32Sem.

(** The decoder [d] holds instruction [n] with its operands, in a good state. *)
Record at_insn `{Config} (n : iname) (rd rs1 rs2 imm : Z) (d : RDecode) (s : nemu riscv32_CPU_state) : Prop := {
  ai_check : CONFIG_RT_CHECK = true \/ CONFIG_RVE = false;
  ai_name : n <> i_inv;
  ai_regs : regs_in rd rs1 rs2;
  ai_imm : imm_ok n imm;
  ai_rd : rd < NR_GPR; ai_rs1 : rs1 < NR_GPR; ai_rs2 : rs2 < NR_GPR;
  ai_inst : inst (Decode.isa d) = encode n rd rs1 rs2 imm;
  ai_cpu : cpu_ok (cpu s);
}.

(** Concrete states for the witnesses. *)
Definition w_state : nemu riscv32_CPU_state :=
  with_cpu {cpu_init (H := riscv32_native) with mtvec := 0x80000100;
            gpr := [0; 0x80001000; 7; 5] ++ replicate 28 0} (nemu_init (cpu_init (H := riscv32_native))).
Definition w_at (n : iname) (rd rs1 rs2 imm : Z) : RDecode :=
  Decode.Mk 0x80000000 0x80000004 0 false 0 {| inst := encode n rd rs1 rs2 imm |}.

Lemma w_cpu_ok (C : Config) : NR_GPR (H := C) = 32 -> cpu_ok (H := C) (cpu w_state).
Proof.
  intros HN. split; [|reflexivity]. split; [|by split; vm_compute..].
  split; [by symmetry|]. apply (bool_decide_unpack (Forall (in_u 32) (gpr (cpu w_state)))). by vm_compute.
Qed.

Lemma w_at_insn n rd rs1 rs2 imm :
  n <> i_inv -> regs_in rd rs1 rs2 -> imm_ok n imm -> at_insn (H := riscv32_native) n rd rs1 rs2 imm (w_at n rd rs1 rs2 imm) w_state.
Proof.
  intros Hn (Hd & H1 & H2) Hi. unfold in_u in *. split; try done; [by left|..];
    unfold NR_GPR; cbn; try (change (2 ^ 5) with 32 in *; lia). by apply w_cpu_ok.
Qed.

Ltac w_insn := apply w_at_insn; [discriminate|vm_compute; repeat split; congruence|vm_compute; repeat split; congruence].

Section Props.
Context `{Config}.

(** C1: decoding inverts the RISC-V encoding.  Executing the 32-bit encoding of any
    instruction of the table, with any operands in range, runs the body of that
    instruction on exactly the operands encoded, then clears x0. *)
Theorem rv32_decode_encoded n rd rs1 rs2 imm d s :
  at_insn n rd rs1 rs2 imm d s ->
  decode_exec d s =
  (d' ← exec_body n {d with Decode.dnpc := Decode.snpc d}
          (operands_of n (cpu s) rd rs1 rs2 imm (encode n rd rs1 rs2 imm));
   R_set 0 0 ;; mret d') s.
Proof. intros [_ Hn Hr Hi _ H1 H2 He [Hc _]]. apply decode_exec_encode; try done. apply Hc. Qed.

(** The decode table is exhaustive and unambiguous: on every 32-bit word exactly
    one row fires, and it is the row whose RISC-V form (opcode, funct3, funct7 or the
    whole word) the word has, or the catch-all for a word of no form. *)
Theorem rv32_decode_unique x :
  in_u 32 x ->
  exists n, instpat decode_table x = Ok (Some (n, type_of n)) /\
    forall m, is_form m x = true <-> m = n /\ n <> i_inv.
Proof. apply decode_class. Qed.

(** C14: the integer instructions.  Each of the 29 register and immediate instructions
    writes to its destination the value the RISC-V manual gives over mathematical
    integers ([alu_spec]), leaves x0 zero, steps to the next instruction and changes
    nothing else. *)
Theorem rv32_alu n rd rs1 rs2 imm d s v :
  at_insn n rd rs1 rs2 imm d s ->
  alu_spec n (gpr_at (cpu s) rs1) (gpr_at (cpu s) rs2) imm (Decode.pc d) = Some v ->
  decode_exec d s = Ok ({d with Decode.dnpc := Decode.snpc d}, with_cpu (wb_cpu rd (cpu s) v) s).
Proof. intros []. eapply exec_alu; eauto. Qed.

(** C15: interpreter safety.  With a valid memory map, 32 registers or checked register
    indices, and every device window inside the 32 MB allocated for the devices: from a state
    that satisfies the invariant (every register a 32-bit word, x0 zero) one instruction,
    whatever word is fetched, indexes the register file, the three memory arrays and the
    space of the devices (through a window) only inside their bounds, never divides by zero
    and never computes a quotient that overflows; unless the emulator stops with a failed
    assertion, the invariant and the windows are kept and the decoder ends with 32-bit
    program counters. *)
Theorem rv32_safe d s :
  config_ok = true -> CONFIG_RT_CHECK = true \/ CONFIG_RVE = false -> decode_ok d -> cpu_ok (cpu s) -> io_fits s ->
  wp (isa_exec_once d) (Riscv32Safety.exec_post d) s.
Proof. intros. by apply isa_exec_once_safe. Qed.

(** C18: control transfer.  A conditional branch goes to pc + imm exactly when its
    condition holds of the operands read as signed or unsigned words; jal and jalr
    link the return address and jump to their target. *)
Theorem rv32_control n rd rs1 rs2 imm d s :
  at_insn n rd rs1 rs2 imm d s ->
  let a := gpr_at (cpu s) rs1 in
  let b := gpr_at (cpu s) rs2 in
  (forall t, taken n a b = Some t ->
     decode_exec d s =
     Ok ({d with Decode.dnpc := if t then u32 (Decode.pc d + imm) else Decode.snpc d}, s)) /\
  (n = i_jal -> decode_exec d s =
     Ok ({d with Decode.dnpc := u32 (Decode.pc d + imm)}, with_cpu (wb_cpu rd (cpu s) (Decode.snpc d)) s)) /\
  (n = i_jalr -> decode_exec d s =
     Ok ({d with Decode.dnpc := Z.land (u32 (a + imm)) (2 ^ 32 - 2)}, with_cpu (wb_cpu rd (cpu s) (Decode.snpc d)) s)).
Proof.
  intros []. cbv zeta. split; [|split].
  - intros t Ht. eapply exec_branch; eauto.
  - intros ->. eapply exec_jump; eauto.
  - intros ->. eapply exec_jump; eauto.
Qed.

(** C19: store then load.  A store to a writable region succeeds, touches only memory,
    and any later load of the same width from the same address gets the stored bytes,
    sign- or zero-extended as the load asks. *)
Theorem rv32_store_load n rd rs1 rs2 imm d s len r :
  config_ok = true ->
  at_insn n rd rs1 rs2 imm d s -> store_len n = Some len ->
  let addr := u32 (gpr_at (cpu s) rs1 + imm) in
  find_mem_region addr len = Some r -> writable r = true ->
  exists s1, decode_exec d s = Ok ({d with Decode.dnpc := Decode.snpc d}, s1) /\ cpu s1 = cpu s /\
    forall m rd' rs1' rs2' imm' d' sg,
      at_insn m rd' rs1' rs2' imm' d' s1 -> load_kind m = Some (len, sg) ->
      u32 (gpr_at (cpu s) rs1' + imm') = addr ->
      decode_exec d' s1 =
      Ok ({d' with Decode.dnpc := Decode.snpc d'},
          with_cpu (wb_cpu rd' (cpu s1) (load_value len sg (gpr_at (cpu s) rs2 mod 2 ^ (8 * len)))) s1).
Proof.
  intros Hcfg [] Hs addr Hf Hwr.
  assert (access_len len = true) as Hlen by (destruct n; try discriminate Hs; by injection Hs as <-).
  assert (paddr_is_backed addr len = true) as Hb by (unfold paddr_is_backed; by rewrite Hf).
  assert (in_array (host_len (host r)) (addr - base r) len = true) as Hia by (apply (region_in_array Hcfg); [by apply wrap_range|done]).
  pose proof (paddr_write_backed addr len (gpr_at (cpu s) rs2) s r Hf Hlen Hwr Hia) as Hw.
  set (s1 := with_mem _ s) in *. assert (Ecpu : cpu s1 = cpu s) by done. clearbody s1.
  exists s1. split; [eapply exec_store; eauto using vaddr_access_ok_backed|]. split; [done|].
  intros m rd' rs1' rs2' imm' d' sg [] Hl Ha.
  pose proof (load_store_same addr len _ _ _ Hlen Hb Hw) as Hr.
  eapply exec_load; eauto; rewrite Ecpu, Ha; [by apply vaddr_access_ok_backed|exact Hr].
Qed.

(** C20: precise access faults.  A load or store whose guard refuses the address changes
    nothing but mepc and mcause, records the cause (5 for loads, 7 for stores) and
    continues at the trap vector. *)
Theorem rv32_fault n rd rs1 rs2 imm d s cause :
  at_insn n rd rs1 rs2 imm d s ->
  match load_kind n, store_len n with
  | Some (len, _), _ => vaddr_access_ok (u32 (gpr_at (cpu s) rs1 + imm)) len = false /\ cause = 5
  | _, Some len => vaddr_access_ok (u32 (gpr_at (cpu s) rs1 + imm)) len = false /\ cause = 7
  | _, _ => False
  end ->
  decode_exec d s =
  Ok (trap_decode cause (mtvec (cpu s)) d, with_cpu (trap_cpu cause (Decode.pc d) (cpu s)) s).
Proof. intros []. eapply exec_fault; eauto. Qed.

(** CSR instructions read the old value into rd and write what their mnemonic says
    (new value, set bits, clear bits; no write when rs1 is x0 for the set and clear
    forms), for every CSR that exists. *)
Theorem rv32_csr n rd rs1 rs2 imm d s old nw c :
  at_insn n rd rs1 rs2 imm d s ->
  csr_get (cpu s) (wrap 12 imm) = Some old ->
  csr_new n rs1 (gpr_at (cpu s) rs1) old = Some nw ->
  match nw with Some v => csr_put (cpu s) (wrap 12 imm) v = Some c | None => c = cpu s end ->
  decode_exec d s =
  Ok ({d with Decode.dnpc := Decode.snpc d}, with_cpu (upd_gpr 0 0 (upd_gpr rd old c)) s).
Proof. intros []. eapply exec_csr; eauto. Qed.

(** C34: a load that reaches past the top of the address space is not an access fault:
    the guard's end address wraps, so the access is let through and the emulator
    stops with its out-of-bound panic. *)
Theorem rv32_load_top n rd rs1 rs2 imm d s len sg :
  at_insn n rd rs1 rs2 imm d s -> config_ok = true -> CONFIG_DEVICE = false ->
  load_kind n = Some (len, sg) -> 2 ^ 32 < u32 (gpr_at (cpu s) rs1 + imm) + len ->
  vaddr_access_ok (u32 (gpr_at (cpu s) rs1 + imm)) len = true /\
  decode_exec d s = Abort "address is out of bound of physical memory".
Proof.
  intros [] Hcfg Hdev Hk Ht. split; [|eapply exec_load_top; eauto].
  apply vaddr_access_ok_wraps; [apply wrap_range; lia| |lia].
  destruct n; try discriminate Hk; injection Hk as <- _; lia.
Qed.
End Props.

(** ** Witnesses *)

#[local] Existing Instance riscv32_native.

Lemma rv32_decode_encoded_witness :
  let d := w_at i_addi 3 1 0 5 in
  decode_exec (H := riscv32_native) d w_state =
  (d' ← exec_body (H := riscv32_native) i_addi {d with Decode.dnpc := Decode.snpc d}
          (operands_of i_addi (cpu w_state) 3 1 0 5 (encode i_addi 3 1 0 5));
   R_set 0 0 ;; mret d') w_state.
Proof. apply (rv32_decode_encoded (H := riscv32_native) i_addi 3 1 0 5). w_insn. Defined.

Lemma rv32_decode_unique_witness :
  exists n, instpat decode_table 0x00500113 = Ok (Some (n, type_of n)) /\
    forall m, is_form m 0x00500113 = true <-> m = n /\ n <> i_inv.
Proof. apply rv32_decode_unique. split; [discriminate|reflexivity]. Defined.

Lemma rv32_alu_witness :
  let d := w_at i_mulhsu 4 2 3 0 in
  decode_exec (H := riscv32_native) d w_state =
  Ok ({d with Decode.dnpc := Decode.snpc d}, with_cpu (wb_cpu (H := riscv32_native) 4 (cpu w_state) 0) w_state).
Proof. apply (rv32_alu (H := riscv32_native) i_mulhsu 4 2 3 0); [w_insn|reflexivity]. Defined.

(** The state with the devices of the default configuration initialised; [sw] and [div]. *)
Definition w_devices : nemu riscv32_CPU_state :=
  match init_device (H := riscv32_device) (fun _ => 0) None w_state with Ok (_, s) => s | _ => w_state end.

Lemma rv32_safe_witness :
  length (maps (io w_devices)) = 9%nat /\
  wp (isa_exec_once (H := riscv32_device) (w_at i_sw 0 1 2 4)) (Riscv32Safety.exec_post (H := riscv32_device) (w_at i_sw 0 1 2 4)) w_devices.
Proof.
  split; [by vm_compute|].
  apply (rv32_safe (H := riscv32_device)); [reflexivity|by left|split; vm_compute; split; congruence| |].
  - assert (cpu w_devices = cpu w_state) as -> by (by vm_compute). by apply w_cpu_ok.
  - apply (bool_decide_unpack (Forall map_fits (maps (io w_devices)))). by vm_compute.
Defined.

Lemma rv32_control_witness :
  let d := w_at i_blt 0 2 3 16 in
  decode_exec d w_state = Ok ({d with Decode.dnpc := Decode.snpc d}, w_state).
Proof.
  intros d. assert (at_insn i_blt 0 2 3 16 d w_state) as Hat by w_insn.
  apply (proj1 (rv32_control i_blt 0 2 3 16 d w_state Hat) false). reflexivity.
Defined.

(** [sh] of 7 at 0x80001002, then [lhu] of it. *)
Lemma rv32_store_load_witness :
  exists s1, decode_exec (w_at i_sh 0 1 2 2) w_state = Ok ({w_at i_sh 0 1 2 2 with Decode.dnpc := 0x80000004}, s1) /\
    decode_exec (w_at i_lhu 4 1 0 2) s1 =
    Ok ({w_at i_lhu 4 1 0 2 with Decode.dnpc := 0x80000004}, with_cpu (wb_cpu 4 (cpu s1) 7) s1).
Proof.
  destruct (rv32_store_load i_sh 0 1 2 2 (w_at i_sh 0 1 2 2) w_state 2 region0) as (s1 & E & Ec & Hload);
    [reflexivity|w_insn|reflexivity|reflexivity|reflexivity|].
  exists s1. split; [exact E|]. apply (Hload i_lhu 4 1 0 2 (w_at i_lhu 4 1 0 2) false); [|reflexivity|reflexivity].
  assert (at_insn i_lhu 4 1 0 2 (w_at i_lhu 4 1 0 2) w_state) as [] by w_insn.
  split; try assumption. rewrite Ec. by apply w_cpu_ok.
Defined.

Lemma rv32_fault_witness :
  let d := w_at i_lw 4 2 0 0 in
  decode_exec d w_state = Ok (trap_decode 5 (mtvec (cpu w_state)) d, with_cpu (trap_cpu 5 (Decode.pc d) (cpu w_state)) w_state).
Proof. intros d. apply (rv32_fault i_lw 4 2 0 0 d w_state 5); [w_insn|split; reflexivity]. Defined.

Lemma rv32_csr_witness :
  let d := w_at i_csrrw 4 1 0 0x305 in
  decode_exec d w_state =
  Ok ({d with Decode.dnpc := Decode.snpc d},
      with_cpu (upd_gpr 0 0 (upd_gpr 4 0x80000100 {cpu w_state with mtvec := 0x80001000})) w_state).
Proof. intros d. apply (rv32_csr i_csrrw 4 1 0 0x305 d w_state 0x80000100 (Some 0x80001000)); [w_insn|reflexivity..]. Defined.

(** [lw x4, -8(x0) + ...]: x0 - 1 is 0xffffffff. *)
Lemma rv32_load_top_witness :
  vaddr_access_ok 0xffffffff 4 = true /\
  decode_exec (w_at i_lw 4 0 0 (-1)) w_state = Abort "address is out of bound of physical memory".
Proof.
  apply (rv32_load_top i_lw 4 0 0 (-1) (w_at i_lw 4 0 0 (-1)) w_state 4 false); [w_insn|reflexivity|reflexivity|reflexivity|reflexivity].
Defined.
