(* ===== verification/NemuProps.v ===== *)
(** * Properties of the emulator around the interpreter

    The execution loop and its event trace, the commit-event ring and its
    comparison, physical memory and its guard, the MMIO table, the replay
    protocol, the key queue, the breakpoints, and the built-in programs of the
    three guests run from reset. *)
From S2P Require Import Prelude Outcome Bytes Config CommitEvent CommitRing Machine PhysMem Devices IoMap.
From S2P Require Import DeviceFacts Vaddr Pattern Isa CStr Difftest CpuExec Sdb CpuTrace Riscv32 Riscv32Sem.
From S2P Require Import Mips32 Loongarch32r.
#[local] Open Scope string_scope.
#[local] Open Scope Z_scope.

(** ** The execution loop *)

(** A host without events, a silent reference, an uninitialised decoder. *)
Definition quiet_host (n : Z) : Z * list SDL_Event := (0, []).
Definition decode0 : RDecode := Decode.Mk 0 0 0 false 0 {| inst := 0 |}.

(** Reset with the built-in image, then run without a limit on the count. *)
Definition boot `{Config} (I : Isa) ref_regs host garbage : M (CPU_state I) unit :=
  Isa.init_isa ;; cpu_exec ref_regs host garbage (-1).

Definition reset_state `{Config} (I : Isa) : nemu (CPU_state I) := nemu_init cpu_zero.

(** The outcome a run is judged by. *)
Definition verdict {CPU} (r : outcome (unit * nemu CPU)) : option (run_state * Z * Z) :=
  match r with
  | Ok (_, m) => Some (state (nemu_state m), halt_ret (nemu_state m), g_nr_guest_inst m)
  | _ => None
  end.

Section Loop.
Context `{Hcfg : Config} `{I : !Isa} `{!IsaLaws I}.
Context (ref_regs : list (ref_cmd (CPU_state I)) -> CPU_state I) (host : Z -> Z * list SDL_Event).

(** C16: the trace of a run.  Running a machine that is not finished for [n]
    instructions retires a list of at most [n] events that is a path of the program
    counter from where it was to where it is, numbered by the instruction counter
    and recorded in order in the ring; the machine then no longer runs, it reports the
    limit only when it has reached it, and stops early only at a breakpoint. *)
Theorem cpu_exec_trace d n m m' :
  ~ finished m -> cpu_exec ref_regs host d n m = Ok (tt, m') ->
  exists evs, CpuTrace.exec_post (u64 n) m m' evs.
Proof. apply cpu_exec_runs. Qed.

(** C21: the instruction limit is never exceeded, however the run is cut into calls:
    when the counter is within a limit that is set, it is after the call too. *)
Theorem cpu_exec_limit d n m m' :
  cpu_exec ref_regs host d n m = Ok (tt, m') ->
  in_u 64 (g_nr_guest_inst m) -> 0 < nemu_inst_limit m < 2 ^ 64 -> g_nr_guest_inst m <= nemu_inst_limit m ->
  nemu_inst_limit m' = nemu_inst_limit m /\ g_nr_guest_inst m <= g_nr_guest_inst m' <= nemu_inst_limit m'.
Proof.
  intros Hr Hu Hl Hg. destruct (decide (finished m)) as [Hf|Hf].
  { apply cpu_exec_finished in Hr; [|done]. subst m'.
    change (nemu_inst_limit m = nemu_inst_limit m /\ g_nr_guest_inst m <= g_nr_guest_inst m <= nemu_inst_limit m). lia. }
  destruct (cpu_exec_runs ref_regs host _ _ _ _ Hf Hr) as (evs & [_ Hc _ _ -> _ Hb Hw] & _).
  specialize (Hb Hu ltac:(lia) ltac:(lia) Hg). specialize (Hw Hu). unfold in_u in *.
  rewrite !wrap_small in Hc by (unfold in_u; lia). lia.
Qed.

(** A finished machine stays as it is: running it again only prints that the
    program has ended. *)
Theorem cpu_exec_ended d n m m' :
  finished m -> cpu_exec ref_regs host d n m = Ok (tt, m') ->
  m' = {m with out ::= (fun o => (o ++ [("Program execution has ended. To restart the program, exit NEMU and run again.", [])])%list)}.
Proof. apply cpu_exec_finished. Qed.

(** The events the reference hands out.  Stepping the reference once returns the
    newest event of its history, the event of the instruction it has just retired when
    it retired one, and asking for the last [k] returns the newest [k], at most 64,
    oldest first. *)
Theorem ref_step_event d m ev m' h k :
  ~ finished m -> ring_repr (ring m) h -> 0 <= k ->
  difftest_step_event (cpu_exec ref_regs host d) m = Ok (ev, m') ->
  exists evs, (length evs <= 1)%nat /\ last (h ++ evs) = Some ev /\ chain (cpu_pc (cpu m)) evs (cpu_pc (cpu m')) /\
    difftest_get_last_events k m' =
    Ok (suffix_of_hist (Z.min k (Z.min 64 (Z.of_nat (length (h ++ evs))))) (h ++ evs)%list, m').
Proof.
  intros Hf Hh Hk Hr. unfold difftest_step_event in Hr. run_inv.
  match goal with H : cpu_exec _ _ _ _ m = Ok (?u, ?s) |- _ => destruct u; rename H into Hx; rename s into m1 end.
  destruct (cpu_exec_runs ref_regs host _ _ _ _ Hf Hx) as (evs & [Hring _ Hch _ _ _ _ _] & Hlen & _).
  change (u64 1) with 1 in Hlen. exists evs.
  assert (ring_repr (ring m1) (h ++ evs)) as Hh1.
  { rewrite Hring. clear -Hh. revert h Hh. generalize (ring m). induction evs as [|e evs IH]; intros r h Hh; cbn [foldl].
    - by rewrite app_nil_r.
    - rewrite cons_middle, app_assoc. apply IH. by apply record_repr. }
  rewrite (get_last_hist _ _ Hh1) in Hr. destruct (last (h ++ evs)) as [e|] eqn:E; [|discriminate Hr].
  injection Hr as -> <-. split; [lia|]. split; [done|]. split; [done|].
  unfold difftest_get_last_events. unfold mbind, st_bind, gets, mret, st_ret.
  by rewrite (copy_last_suffix _ _ _ Hh1 Hk).
Qed.
End Loop.

(** From reset every guest runs its built-in program to a good trap, whatever the
    host, the reference and the uninitialised decoder: riscv32 and mips32 and
    loongarch32r end with return value 0 after their last instruction. *)
Theorem builtin_images_run :
  (forall rr host g, verdict (boot (H := riscv32_native) (riscv32_Isa (H := riscv32_native)) rr host g (reset_state (H := riscv32_native) _)) = Some (NEMU_END, 0, 4)) /\
  (forall rr host g, verdict (boot (H := riscv32_native) (Mips32.mips32_Isa (H := riscv32_native)) rr host g (reset_state (H := riscv32_native) _)) = Some (NEMU_END, 0, 4)) /\
  (forall rr host g, verdict (boot (H := riscv32_native) (Loongarch32r.loongarch32r_Isa (H := riscv32_native)) rr host g (reset_state (H := riscv32_native) _)) = Some (NEMU_END, 0, 4)).
Proof. repeat split; intros; vm_compute; reflexivity. Qed.

(** ** Memory, devices and the debugger *)

Section Machine.
Context `{Config} (Hcfg : config_ok = true) {CPU : Type}.
Implicit Types s : nemu CPU.

(** Backed memory is an array of bytes.  After a store that succeeds, a load of the
    same width from the same address gives the value truncated to that width, and a load
    from any backed range disjoint from it gives what it gave before. *)
Theorem store_frame addr len v s s' a l :
  in_u 32 addr -> in_u 32 a -> access_len len = true -> access_len l = true ->
  paddr_is_backed addr len = true -> paddr_is_backed a l = true ->
  a + l <= addr \/ addr + len <= a ->
  paddr_write addr len v s = Ok (tt, s') ->
  paddr_read addr len s' = Ok (v mod 2 ^ (8 * len), s') /\
  exists x, paddr_read a l s = Ok (x, s) /\ paddr_read a l s' = Ok (x, s').
Proof using Hcfg. eauto using load_store_same, load_store_other. Qed.

(** Address translation is injective both ways: the host location of a guest
    address translates back to it, through every region of the memory map. *)
Theorem translation_roundtrip paddr p :
  in_u 32 paddr -> guest_to_host paddr = Ok p -> host_to_guest p = Ok paddr.
Proof using Hcfg. by apply guest_host_roundtrip. Qed.

(** The guard of loads and stores.  Below the top of the address space it lets
    through exactly the accesses that lie in backed memory or in a device window. *)
Theorem guard_exact addr len :
  in_u 32 addr -> 0 < len -> addr + len < 2 ^ 32 ->
  0 <= CONFIG_SERIAL_MMIO < 2 ^ 32 - 8 -> 0 <= CONFIG_RTC_MMIO < 2 ^ 32 - 8 ->
  vaddr_access_ok addr len = true <-> paddr_is_backed addr len = true \/ device_window addr len.
Proof using Type. by apply vaddr_access_ok_spec. Qed.

(** A window as the device initialisers register it. *)
Record window := Window { w_name : string; w_addr : Z; w_space : Z; w_len : Z; w_cb : io_callback }.
Definition window_ok (w : window) : Prop := 0 < w_len w /\ 0 <= w_addr w /\ w_addr w + w_len w <= 2 ^ 32.
Definition register (w : window) : M CPU unit := add_mmio_map (w_name w) (w_addr w) (w_space w) (w_len w) (w_cb w).
Definition io_map (w : window) : IOMap :=
  {| name := w_name w; low := w_addr w; high := u32 (w_addr w + w_len w - 1); space := w_space w; callback := w_cb w |}.

Lemma register_maps w s s' : register w s = Ok (tt, s') -> maps (io s') = (maps (io s) ++ [io_map w])%list.
Proof using Type.
  intros Hr. unfold register, add_mmio_map in Hr. run_inv. destruct (_ || _); [discriminate|].
  destruct (overlaps _ _ _); [discriminate|]. unfold modify_io in Hr. run_inv. reflexivity.
Qed.

Lemma register_all ws s s' :
  maps_ok (maps (io s)) -> Forall window_ok ws -> iter_list register ws s = Ok (tt, s') ->
  maps_ok (maps (io s')) /\ maps (io s') = (maps (io s) ++ map io_map ws)%list.
Proof using Type.
  revert s. induction ws as [|w ws IH]; intros s Hok Hw Hr; cbn [iter_list] in Hr.
  - injection Hr as <-. by rewrite app_nil_r.
  - apply Forall_cons in Hw as [[H1 [H2 H3]] Hw]. apply bind_ok in Hr as ([] & s1 & E1 & E2).
    apply IH in E2 as [Hok2 E]; [|by eapply add_mmio_map_ok|done]. split; [done|].
    by rewrite E, (register_maps _ _ _ E1), <- app_assoc.
Qed.

(** The MMIO table does not depend on the order in which devices register.  When a
    set of windows is accepted in two orders from an empty table, both tables are pairwise
    disjoint and find the same window for every address, and an address is found exactly
    when some registered window holds it. *)
Theorem mmio_order ws ws' s s1 s2 :
  maps (io s) = [] -> Forall window_ok ws -> ws ≡ₚ ws' ->
  iter_list register ws s = Ok (tt, s1) -> iter_list register ws' s = Ok (tt, s2) ->
  maps_ok (maps (io s1)) /\ maps_ok (maps (io s2)) /\
  (forall addr, find_map (maps (io s1)) addr = find_map (maps (io s2)) addr) /\
  (forall addr m, find_map (maps (io s1)) addr = Some m <->
     exists w, w ∈ ws /\ m = io_map w /\ w_addr w <= addr < w_addr w + w_len w).
Proof using Type.
  intros Hs Hw Hp H1 H2.
  apply register_all in H1 as [Hok1 E1]; [|rewrite Hs; apply maps_ok_nil|done].
  apply register_all in H2 as [Hok2 E2]; [|rewrite Hs; apply maps_ok_nil|by rewrite <- Hp].
  rewrite Hs in E1, E2. cbn [app] in E1, E2. split_and!; [done..| |].
  - intros addr. apply find_map_perm; [done..|]. rewrite E1, E2. by apply fmap_Permutation.
  - intros addr m. rewrite find_map_some, E1 by done. rewrite list_elem_of_fmap. clear -Hw.
    rewrite Forall_forall in Hw. split.
    + intros [(w & -> & Hin) Hr]. exists w. split; [done|]. split; [done|].
      destruct (Hw _ Hin) as (? & ? & ?). cbn [low high io_map] in Hr. rewrite wrap_small in Hr by (unfold in_u; lia). lia.
    + intros (w & Hin & -> & Hr). split; [eauto|]. destruct (Hw _ Hin) as (? & ? & ?).
      cbn [low high io_map]. rewrite wrap_small by (unfold in_u; lia). lia.
Qed.
End Machine.

(** ** The key queue *)

Section Keys.
Context `{Config} {CPU : Type}.
Implicit Types s : nemu CPU.

Inductive key_op := KeyEnq (x : Z) | KeyDeq.

(** The operations in order; the result is what the dequeues returned. *)
Fixpoint key_run (ops : list key_op) : M CPU (list Z) :=
  match ops with
  | [] => mret []
  | KeyEnq x :: ops => key_enqueue x ;; key_run ops
  | KeyDeq :: ops => k ← key_dequeue; ks ← key_run ops; mret (k :: ks)
  end.

(** The same on a bounded FIFO; [None] when an enqueue finds it full. *)
Fixpoint fifo_run (ops : list key_op) (l : list Z) : option (list Z * list Z) :=
  match ops with
  | [] => Some ([], l)
  | KeyEnq x :: ops => if Z.of_nat (length l) <? KEY_QUEUE_LEN - 1 then fifo_run ops (l ++ [x]) else None
  | KeyDeq :: ops =>
      '(k, l') ← Some match l with [] => (NEMU_KEY_NONE, []) | x :: l' => (u32 x, l') end;
      '(ks, l'') ← fifo_run ops l'; Some (k :: ks, l'')
  end.

(** The keyboard queue is a FIFO of at most 1023 codes: any sequence of enqueues and
    dequeues returns what the FIFO returns and leaves its contents, and it panics exactly
    when the FIFO would overflow. *)
Theorem key_queue_fifo ops s l :
  queue_repr (keys (io s)) l ->
  match fifo_run ops l with
  | Some (ks, l') => exists s', key_run ops s = Ok (ks, s') /\ queue_repr (keys (io s')) l'
  | None => key_run ops s = Abort "key queue overflow!"
  end.
Proof using Type.
  revert s l. induction ops as [|[x|] ops IH]; intros s l Hq; cbn [fifo_run key_run].
  - exists s. split; [reflexivity|done].
  - pose proof (enqueue_repr x s l Hq) as He. destruct (_ <? _).
    + destruct He as (s1 & E & Hq1). specialize (IH _ _ Hq1).
      rewrite (bind_run _ _ _ _ _ E). exact IH.
    + unfold mbind at 1, st_bind at 1. by rewrite He.
  - pose proof (dequeue_repr s l Hq) as Hd.
    assert (exists k l' s1, key_dequeue s = Ok (k, s1) /\ queue_repr (keys (io s1)) l' /\
      match l with [] => (NEMU_KEY_NONE, []) | x :: l' => (u32 x, l') end = (k, l')) as (k & l' & s1 & E & Hq1 & ->).
    { destruct l as [|x l]; [eauto 10|]. destruct Hd as (s1 & ? & ?). eauto 10. }
    rewrite (bind_run _ _ _ _ _ E). cbn [mbind option_bind]. specialize (IH _ _ Hq1).
    destruct (fifo_run ops l') as [[ks l'']|].
    + destruct IH as (s2 & E2 & Hq2). exists s2. split; [|done]. by rewrite (bind_run _ _ _ _ _ E2).
    + unfold mbind, st_bind. by rewrite IH.
Qed.
End Keys.

(** Comparing two commit events is deciding that their architecturally visible parts
    agree (the cause only of exceptions, the register only of write-backs), and the diff
    it reports says none exactly when they agree. *)
Theorem commit_event_compare_exact ref dut :
  (fst (commit_event_compare ref dut) = true <-> event_agrees ref dut) /\
  (kind (snd (commit_event_compare ref dut)) = COMMIT_DIFF_NONE <-> event_agrees ref dut).
Proof. split; [|rewrite <- compare_kind]; apply compare_spec. Qed.

(** A pattern string compiles to the key, mask and shift whose test holds exactly of
    the words that agree with each fixed bit of the string. *)
Theorem pattern_decode_exact s bs :
  pat_bits s = Some bs -> (String.length s < 64)%nat -> (length bs < 64)%nat ->
  exists p, pattern_decode s = Ok p /\ forall x, pat_match p x = true <-> agrees bs x.
Proof. apply pattern_decode_bits. Qed.

(** ** Breakpoints *)

Section Breakpoints.
Context `{Hcfg : Config} `{I : !Isa}.
Abbreviation CPU := (CPU_state I).
Implicit Types s : nemu CPU.

Inductive bp_cmd := BpBreak (args : option string) | BpDelete (args : option string) | BpClear (args : option string).

Definition bp_exec (c : bp_cmd) : M CPU Z :=
  match c with BpBreak a => cmd_break a | BpDelete a => cmd_delete_break a | BpClear a => cmd_clear_breaks a end.

Definition bp_set s : gset Z := list_to_set (breakpoints s).
Definition bp_addr (a : option string) : Z := u32 (strtoull (default EmptyString a)).

Definition bp_spec (c : bp_cmd) (X : gset Z) : gset Z :=
  match c with
  | BpBreak a => if no_args a || (NR_BREAKPOINTS <=? Z.of_nat (base.size X)) then X else {[bp_addr a]} ∪ X
  | BpDelete a => if no_args a then X else X ∖ {[bp_addr a]}
  | BpClear _ => ∅
  end.

Lemma bp_size s : bp_ok (breakpoints s) -> base.size (bp_set s) = length (breakpoints s).
Proof using Type. intros [Hnd _]. by apply size_list_to_set. Qed.

Lemma bp_break_run a s :
  bp_ok (breakpoints s) -> exists s', cmd_break a s = Ok (0, s') /\ bp_ok (breakpoints s') /\
    bp_set s' = bp_spec (BpBreak a) (bp_set s).
Proof using Type.
  intros Hok. unfold cmd_break, bp_spec. rewrite (bp_size s Hok). destruct Hok as [Hnd Hle].
  destruct (no_args a); [eexists; split; [reflexivity|]; by repeat split|]. cbn [orb].
  run_simpl. destruct (Z.leb_spec NR_BREAKPOINTS (Z.of_nat (length (breakpoints s)))) as [Hge|Hlt].
  { eexists; split; [reflexivity|]. by repeat split. }
  destruct (existsb _ _) eqn:E.
  - eexists; split; [reflexivity|]. split; [by split|]. apply existsb_exists in E as (b & Hb & Eb%Z.eqb_eq).
    apply list_elem_of_In in Hb. subst b. change (bp_set s = {[bp_addr a]} ∪ bp_set s).
    unfold bp_set. fold (bp_addr a) in Hb. clear -Hb. set_solver.
  - eexists; split; [reflexivity|]. change (bp_ok (breakpoints s ++ [bp_addr a]) /\
      list_to_set (breakpoints s ++ [bp_addr a]) =@{gset Z} {[bp_addr a]} ∪ bp_set s).
    split; [split|].
    + apply NoDup_app. split; [done|]. split; [|apply NoDup_singleton]. intros b Hb ->%list_elem_of_singleton.
      apply not_true_iff_false in E. apply E, existsb_exists. exists (bp_addr a).
      split; [by apply list_elem_of_In|]. apply Z.eqb_refl.
    + rewrite length_app. cbn [length]. lia.
    + unfold bp_set. clear. set_solver.
Qed.

Lemma bp_delete_run a s :
  bp_ok (breakpoints s) -> exists s', cmd_delete_break a s = Ok (0, s') /\ bp_ok (breakpoints s') /\
    bp_set s' = bp_spec (BpDelete a) (bp_set s).
Proof using Type.
  intros [Hnd Hle]. unfold cmd_delete_break, bp_spec.
  destruct (no_args a); [eexists; split; [reflexivity|]; by repeat split|]. run_simpl.
  fold (bp_addr a). destruct (index_of _ _) as [i|] eqn:E; (eexists; split; [reflexivity|]).
  - apply index_of_some in E as [Hi _]. pose proof (remove_bp_perm _ _ _ Hi) as Hp.
    change (bp_ok (remove_bp i (breakpoints s)) /\
      list_to_set (remove_bp i (breakpoints s)) =@{gset Z} bp_set s ∖ {[bp_addr a]}).
    pose proof Hnd as Hnd'. rewrite <- Hp in Hnd'. apply NoDup_cons in Hnd' as [Hni Hnd'].
    split; [split; [done|]|].
    + apply Permutation_length in Hp. cbn [length] in Hp. lia.
    + apply (list_to_set_perm_L (C := gset Z)) in Hp. unfold bp_set. rewrite <- Hp. clear -Hni. set_solver.
  - apply index_of_none in E. split; [done|]. change (bp_set s = bp_set s ∖ {[bp_addr a]}).
    unfold bp_set. set_solver.
Qed.

(** The breakpoint table is a set of at most [NR_BREAKPOINTS] addresses: break,
    delete-break and clear-breaks never fail, keep it free of duplicates and within its
    size, and act as insertion (refused when full), removal and clearing. *)
Theorem breakpoints_are_a_set c s :
  bp_ok (breakpoints s) ->
  exists s', bp_exec c s = Ok (0, s') /\ bp_ok (breakpoints s') /\ bp_set s' = bp_spec c (bp_set s).
Proof using Type.
  destruct c; [apply bp_break_run|apply bp_delete_run|]. intros _. eexists. split; [reflexivity|].
  split; [|reflexivity]. split; [constructor|]. done.
Qed.
End Breakpoints.

(** ** Witnesses *)

#[local] Existing Instance riscv32_native.
#[local] Existing Instance riscv32_Isa.

Abbreviation rv_state := (nemu (CPU_state riscv32_Isa)).

(** The riscv32 guest after reset, and after three of its instructions. *)
Definition final {A} (r : outcome (A * rv_state)) (m : rv_state) : rv_state :=
  match r with Ok (_, m') => m' | _ => m end.
Definition silent_ref (_ : list (ref_cmd (CPU_state riscv32_Isa))) : CPU_state riscv32_Isa := cpu_zero.
Definition w_boot : rv_state := final (Isa.init_isa (reset_state riscv32_Isa)) (reset_state riscv32_Isa).
Definition w_exec (n : Z) (m : rv_state) : outcome (unit * rv_state) := cpu_exec silent_ref quiet_host decode0 n m.
Definition w_three : rv_state := final (w_exec 3 w_boot) w_boot.
Definition w_limit2 : rv_state := {w_boot with nemu_inst_limit := 2}.
Definition w_ended : rv_state := final (w_exec (-1) w_boot) w_boot.

Lemma cpu_exec_trace_witness : exists evs, CpuTrace.exec_post 3 w_boot w_three evs.
Proof.
  apply (cpu_exec_trace silent_ref quiet_host decode0 3 w_boot w_three).
  - intros [E|[E|E]]; vm_compute in E; discriminate E.
  - vm_compute. reflexivity.
Defined.

Lemma cpu_exec_limit_witness :
  let m' := final (w_exec (-1) w_limit2) w_limit2 in
  nemu_inst_limit m' = 2 /\ 0 <= g_nr_guest_inst m' <= nemu_inst_limit m'.
Proof.
  apply (cpu_exec_limit silent_ref quiet_host decode0 (-1) w_limit2); [vm_compute; reflexivity|split; done|split; done|done].
Defined.

Lemma cpu_exec_ended_witness :
  final (w_exec 1 w_ended) w_ended =
  {w_ended with out ::= (fun o => (o ++ [("Program execution has ended. To restart the program, exit NEMU and run again.", [])])%list)}.
Proof.
  apply (cpu_exec_ended silent_ref quiet_host decode0 1 w_ended); [left; vm_compute; reflexivity|vm_compute; reflexivity].
Defined.

Definition w_step : outcome (CommitEvent * rv_state) := difftest_step_event (w_exec) w_boot.
Definition event_of (r : outcome (CommitEvent * rv_state)) : CommitEvent :=
  match r with Ok (e, _) => e | _ => ring_at ring_init 0 end.

Lemma ref_step_event_witness :
  exists evs, (length evs <= 1)%nat /\ last evs = Some (event_of w_step) /\
    chain (cpu_pc (cpu w_boot)) evs (cpu_pc (cpu (final w_step w_boot))) /\
    difftest_get_last_events 3 (final w_step w_boot) =
    Ok (suffix_of_hist (Z.min 3 (Z.min 64 (Z.of_nat (length evs)))) evs, final w_step w_boot).
Proof.
  apply (ref_step_event silent_ref quiet_host decode0 w_boot (event_of w_step) (final w_step w_boot) [] 3).
  - intros [E|[E|E]]; vm_compute in E; discriminate E.
  - apply ring_init_repr.
  - done.
  - vm_compute. reflexivity.
Defined.

Definition w_mem : nemu unit := nemu_init tt.

Lemma store_frame_witness :
  exists s', paddr_write 0x80000100 4 0x12345678 w_mem = Ok (tt, s') /\
    paddr_read 0x80000100 4 s' = Ok (0x12345678, s') /\
    exists x, paddr_read 0x80000104 2 w_mem = Ok (x, w_mem) /\ paddr_read 0x80000104 2 s' = Ok (x, s').
Proof.
  eexists. split; [reflexivity|].
  apply (store_frame (H := riscv32_native) eq_refl 0x80000100 4 0x12345678 w_mem _ 0x80000104 2);
    [split; done|split; done|done|done|reflexivity|reflexivity|right; done|reflexivity].
Defined.

Lemma translation_roundtrip_witness :
  exists p, guest_to_host 0x20000010 = Ok p /\ host_to_guest p = Ok 0x20000010.
Proof.
  eexists. split; [reflexivity|]. apply (translation_roundtrip (H := riscv32_native) eq_refl); [split; done|reflexivity].
Defined.

Lemma guard_exact_witness :
  vaddr_access_ok 0x10000004 4 = true <-> paddr_is_backed 0x10000004 4 = true \/ device_window 0x10000004 4.
Proof. apply guard_exact; [split; done|done|done|split; done|split; done]. Defined.

Definition w_windows : list window :=
  [Window "serial" 0xa00003f8 0 8 cb_serial; Window "rtc" 0xa0000048 4096 8 cb_rtc; Window "keyboard" 0xa0000060 8192 4 cb_i8042].

Lemma mmio_order_witness :
  exists s1 s2, iter_list register w_windows w_mem = Ok (tt, s1) /\ iter_list register (rev w_windows) w_mem = Ok (tt, s2) /\
    forall addr, find_map (maps (io s1)) addr = find_map (maps (io s2)) addr.
Proof.
  eexists _, _. split; [reflexivity|]. split; [reflexivity|].
  apply (mmio_order w_windows (rev w_windows) w_mem); [reflexivity| |apply Permutation_rev|reflexivity|reflexivity].
  repeat constructor; done.
Defined.

Lemma key_queue_fifo_witness :
  exists s', key_run [KeyEnq 7; KeyEnq 9; KeyDeq; KeyDeq; KeyDeq; KeyEnq 4] w_mem = Ok ([7; 9; 0], s') /\
    queue_repr (keys (io s')) [4].
Proof.
  apply (key_queue_fifo [KeyEnq 7; KeyEnq 9; KeyDeq; KeyDeq; KeyDeq; KeyEnq 4] w_mem []). apply key_init_repr.
Defined.

Lemma pattern_decode_exact_witness :
  exists bs p, pat_bits "0000000 ????? ????? 000" = Some bs /\ pattern_decode "0000000 ????? ????? 000" = Ok p /\
    forall x, pat_match p x = true <-> agrees bs x.
Proof.
  destruct (pat_bits "0000000 ????? ????? 000") as [bs|] eqn:E; [|discriminate E].
  destruct (pattern_decode_exact _ bs E) as (p & Hp & Hx); [cbn; lia| |].
  - injection E as H. rewrite <- H. cbn. lia.
  - exists bs, p. split; [reflexivity|]. split; [exact Hp|exact Hx].
Defined.

Definition w_bps : rv_state := {w_boot with breakpoints := [0x80000000; 0x80000004; 0x80000008] }.

Lemma breakpoints_are_a_set_witness :
  exists s', cmd_delete_break (Some "0x80000000") w_bps = Ok (0, s') /\ bp_ok (breakpoints s') /\
    bp_set s' = bp_set w_bps ∖ {[0x80000000]}.
Proof.
  apply (breakpoints_are_a_set (BpDelete (Some "0x80000000")) w_bps).
  split; [|done]. apply (bool_decide_unpack _). reflexivity.
Defined.
