(* ===== verification/KlibProps.v ===== *)
(** * Properties of klib

    The C library of the abstract machine: block and string functions, formatted
    output and number parsing, the 64-bit integer support routines, and the bump
    allocator. *)
From S2P Require Import Prelude Outcome Bytes KString KStdlib KStdio KInt64.
From Stdlib Require Import Ascii.
#[local] Open Scope Z_scope.

(** The character codes of a literal. *)
Definition codes (s : string) : list Z := map (fun c => Z.of_N (N_of_ascii c)) (String.list_ascii_of_string s).

(** ** Strings in memory *)

(** [a] comes before [b] in dictionary order. *)
Definition str_lt (a b : list Z) : Prop :=
  exists p, (exists y b', a = p /\ b = p ++ y :: b') \/
    (exists x a' y b', a = p ++ x :: a' /\ b = p ++ y :: b' /\ x < y).

Lemma str_lt_cons c a b : str_lt a b -> str_lt (c :: a) (c :: b).
Proof.
  intros [p [(y & b' & -> & ->)|(x & a' & y & b' & -> & -> & Hlt)]]; exists (c :: p); [left|right]; eauto 10.
Qed.

Lemma str_diff_lt a b :
  Forall (fun c => 0 < c) a -> Forall (fun c => 0 < c) b -> (str_diff a b < 0 <-> str_lt a b).
Proof.
  intros Ha Hb. split.
  - revert b Hb; induction Ha as [|x a Hx Ha IH]; intros b Hb; destruct Hb as [|y b Hy Hb]; cbn [str_diff]; try lia.
    + intros _. exists []. left. by exists y, b.
    + destruct (Z.eqb_spec x y) as [->|Hne]; [intros Hd; by apply str_lt_cons, IH|].
      intros Hd. exists []. right. exists x, a, y, b. split; [done|]. split; [done|lia].
  - intros [p Hp]. revert a b Ha Hb Hp; induction p as [|c p IH]; intros a b Ha Hb Hp.
    + destruct Hp as [(y & b' & -> & ->)|(x & a' & y & b' & -> & -> & Hlt)]; cbn [app] in *.
      * apply Forall_cons in Hb as [Hy _]. cbn [str_diff]. lia.
      * cbn [str_diff]. destruct (Z.eqb_spec x y); lia.
    + destruct Hp as [(y & b' & -> & ->)|(x & a' & y & b' & -> & -> & Hlt)]; cbn [app] in *;
        apply Forall_cons in Ha as [_ Ha]; apply Forall_cons in Hb as [_ Hb]; cbn [str_diff];
        rewrite Z.eqb_refl; apply IH; eauto 10.
Qed.

Lemma cstr_bytes m p cs : ha_ok m -> cstr m p cs -> bytes_ok (cs ++ [0]).
Proof. intros Hm [E _]. rewrite <- E. by apply ha_get_n_bytes. Qed.

Lemma cstr_positive m p cs : ha_ok m -> cstr m p cs -> Forall (fun c => 0 < c) cs.
Proof.
  intros Hm Hs. pose proof (cstr_bytes m p cs Hm Hs) as Hb. destruct Hs as [_ Hz].
  apply Forall_app in Hb as [Hb _]. rewrite Forall_forall in *. intros c Hc.
  specialize (Hb c Hc). specialize (Hz c Hc). unfold in_u in Hb. lia.
Qed.

(** C22: [memmove] copies as if through a temporary, however the two blocks overlap. *)
Theorem memmove_block n d s m a :
  ha_ok m ->
  ha_get (memmove n d s m) a =
  if (d <=? a) && (a <? d + Z.of_nat n) then ha_get m (s + (a - d)) else ha_get m a.
Proof.
  intros Hm. rewrite (memmove_put n d s m Hm a), ha_get_put.
  destruct (Z.leb_spec d a), (Z.ltb_spec a (d + Z.of_nat n)); cbn [andb].
  - rewrite ha_get_n_lookup by lia. rewrite Z2Nat.id by lia. apply wrap_small, ha_get_ok, Hm.
  - rewrite lookup_ge_None_2; [done|]. rewrite length_ha_get_n. lia.
  - by destruct (_ !! _).
  - by destruct (_ !! _).
Qed.

(** [strcat] appends.  When the source does not start inside the terminated
    destination, the destination afterwards holds the concatenation, and no byte outside
    the appended characters and their terminator changes. *)
Theorem strcat_concat fuel dst src ds cs m :
  ha_ok m -> cstr m dst ds -> cstr m src cs -> (length ds < fuel)%nat -> (length cs < fuel)%nat ->
  src + Z.of_nat (length cs) < dst + Z.of_nat (length ds) \/ dst + Z.of_nat (length ds) <= src ->
  exists m', strcat fuel dst src m = Some m' /\ cstr m' dst (ds ++ cs) /\
    forall a, a < dst + Z.of_nat (length ds) \/ dst + Z.of_nat (length ds) + Z.of_nat (length cs) < a ->
      ha_get m' a = ha_get m a.
Proof.
  intros Hm Hd Hs Hf1 Hf2 Hov.
  destruct (strcat_cstr fuel dst src ds cs m Hd Hs Hf1 Hf2 Hov) as (m' & E & Heq).
  exists m'. split; [done|]. pose proof (cstr_bytes m src cs Hm Hs) as Hb. split.
  - split; [|apply Forall_app; split; [apply Hd|apply Hs]].
    rewrite length_app, <- Nat.add_assoc, ha_get_n_app, !Heq, <- app_assoc. f_equal.
    + rewrite ha_get_n_put_other by lia. destruct Hd as [Hd _]. rewrite ha_get_n_app in Hd.
      apply app_inj_tail in Hd as [Hd _]. exact Hd.
    + pose proof (ha_get_n_put_same m (dst + Z.of_nat (length ds)) _ Hb) as Hp. rewrite length_app in Hp. exact Hp.
  - intros a Ha. rewrite (Heq a). apply ha_get_put_other. rewrite length_app. cbn [length]. lia.
Qed.

(** [strcmp] terminates on terminated strings and decides their dictionary order:
    zero exactly for equal strings, negative exactly when the first comes first. *)
Theorem strcmp_order fuel m p q cs ds :
  ha_ok m -> cstr m p cs -> cstr m q ds -> (length cs < fuel)%nat ->
  exists d, strcmp fuel m p q = Some d /\ (d = 0 <-> cs = ds) /\ (d < 0 <-> str_lt cs ds).
Proof.
  intros Hm Hc Hd Hf. exists (str_diff cs ds). split; [by apply strcmp_cstr|]. split.
  - pose proof (strcmp_eq fuel m p q cs ds Hc Hd Hf) as He. rewrite (strcmp_cstr _ _ _ _ _ _ Hc Hd Hf) in He.
    rewrite <- He. split; [intros ->; done|congruence].
  - apply str_diff_lt; by eapply cstr_positive.
Qed.

(** ** Formatted output and number parsing *)

(** The unsigned conversions at every length: the format, the argument passed for it
    and the base. *)
Inductive unsigned_fmt (wl : Z) : list Z -> Z -> va -> Z -> Prop :=
| fmt_u v : in_u 32 v -> unsigned_fmt wl (codes "%u") v (VInt v) 10
| fmt_x v : in_u 32 v -> unsigned_fmt wl (codes "%x") v (VInt v) 16
| fmt_X v : in_u 32 v -> unsigned_fmt wl (codes "%X") v (VInt v) 16
| fmt_o v : in_u 32 v -> unsigned_fmt wl (codes "%o") v (VInt v) 8
| fmt_lu v : in_u wl v -> unsigned_fmt wl (codes "%lu") v (VLong v) 10
| fmt_lx v : in_u wl v -> unsigned_fmt wl (codes "%lx") v (VLong v) 16
| fmt_lX v : in_u wl v -> unsigned_fmt wl (codes "%lX") v (VLong v) 16
| fmt_lo v : in_u wl v -> unsigned_fmt wl (codes "%lo") v (VLong v) 8
| fmt_llu v : in_u 64 v -> unsigned_fmt wl (codes "%llu") v (VLLong v) 10
| fmt_llx v : in_u 64 v -> unsigned_fmt wl (codes "%llx") v (VLLong v) 16
| fmt_llX v : in_u 64 v -> unsigned_fmt wl (codes "%llX") v (VLLong v) 16
| fmt_llo v : in_u 64 v -> unsigned_fmt wl (codes "%llo") v (VLLong v) 8.

Lemma printf_text wl t :
  8 <= wl -> (length t <= 64)%nat ->
  sink (emit wl t (st_putch wl)) = t /\ s32 (count (emit wl t (st_putch wl))) = Z.of_nat (length t).
Proof.
  intros Hw Hl. pose proof (Z.pow_le_mono_r 2 8 wl ltac:(lia) Hw) as Hp. change (2 ^ 8) with 256 in Hp.
  split.
  - rewrite emit_sink by (cbn [st_putch to_putch count]; first [done|lia]). cbn [st_putch sink max_count count app].
    apply take_ge. unfold wrap. rewrite <- (Z.mod_unique (-1) (2 ^ wl) (-1) (2 ^ wl - 1)) by lia. lia.
  - rewrite emit_count by (cbn [st_putch count]; unfold in_u; lia). cbn [st_putch count].
    rewrite wrap_small by (unfold in_u; lia). apply sext_small; [lia|]. unfold in_s. lia.
Qed.

Lemma justify_plain n base up : justify false SPACE 0 (digits_text n base up) = digits_text n base up.
Proof. unfold justify. rewrite pad_nonpos by lia. done. Qed.

Lemma one_conversion wl st fmt spec arg f w l c :
  fmt = 37 :: spec -> parse_spec wl spec = (f, w, l, [c]) ->
  printf_backend wl st fmt [arg] = ('(st, _) ← convert wl st f w l c [arg]; Ok st).
Proof.
  intros -> Hp. destruct spec as [|s0 spec]; [discriminate Hp|].
  unfold printf_backend. change (length (37 :: s0 :: spec)) with (S (S (length spec))).
  remember (s0 :: spec) as s1. cbn [backend_loop Z.eqb Pos.eqb negb]. rewrite Hp.
  destruct (convert wl st f w l c [arg]) as [[st' a]|?|?]; reflexivity.
Qed.

(** C33: printing and parsing agree.  A format that is one of the conversions u, x, X and o,
    with no length, with l or with ll, and without flags, width and precision prints a text
    that [strtoull] in the base of the conversion reads back as the number printed, for
    every number of the conversion's type, consuming all of it; [printf] returns the number
    of characters. *)
Theorem print_parse wl fmt v arg base :
  wl = 32 \/ wl = 64 -> unsigned_fmt wl fmt v arg base ->
  exists text, printf wl fmt [arg] = Ok (text, Z.of_nat (length text)) /\
    strtoull text base = Ok (v, Z.of_nat (length text)).
Proof.
  intros Hwl Hf.
  assert (exists up, printf_backend wl (st_putch wl) fmt [arg] =
    Ok (printf_unsigned wl (st_putch wl) v base 0 false SPACE up)) as [up Hp].
  { destruct Hf as [v H|v H|v H|v H|v H|v H|v H|v H|v H|v H|v H|v H]; pose proof (wrap_small _ _ H) as E;
      [exists false|exists false|exists true|exists false|exists false|exists false|exists true|exists false|exists false|exists false|exists true|exists false];
      (erewrite one_conversion; [|reflexivity..]);
      lazy -[wrap printf_unsigned st_putch]; by rewrite E. }
  assert (in_u 64 v /\ 2 <= base <= 16) as [Hv Hb].
  { destruct Hf; (split; [|lia]); destruct Hwl as [-> | ->]; unfold in_u in *; lia. }
  exists (digits_text v base up). unfold printf. fold (st_putch wl). rewrite Hp. cbn [mbind outcome_bind].
  rewrite printf_unsigned_emit, justify_plain.
  destruct (printf_text wl (digits_text v base up) ltac:(lia) (digits_text_length _ _ _)) as [-> ->].
  split; [done|]. by apply strtoull_digits.
Qed.

(** The two output engines agree.  What [vsnprintf] stores is what [printf] sends
    to the console, cut to the [n - 1] characters that fit and terminated, and both return
    the length of the whole text. *)
Theorem vsnprintf_agrees wl m out n fmt args text r :
  0 <= wl -> in_u wl n -> printf wl fmt args = Ok (text, r) -> Z.of_nat (length text) < 2 ^ wl - 1 ->
  r = s32 (Z.of_nat (length text)) /\ vsnprintf wl m out n fmt args = Ok (stored m out n text, r).
Proof. apply vsnprintf_of_printf. Qed.

(** A negative number in a right-justified field of width [w] padded with spaces comes
    out [w - 1] spaces wide plus the sign and the digits, instead of [w] characters: the
    padding ignores how many digits follow. *)
Theorem signed_field_pads_too_much wl st n w :
  n < 0 -> 0 < w ->
  printf_signed wl st n w false SPACE 0 =
  emit wl (replicate (Z.to_nat (w - 1)) SPACE ++ [MINUS] ++ digits_text (u64 (- u64 n)) 10 false)%list st.
Proof. intros Hn Hw. rewrite printf_signed_emit. f_equal. by apply signed_text_field. Qed.

(** ** 64-bit integer support *)

(** C35: [__udivmoddi4] is Euclidean division: on every pair of 64-bit operands with a
    nonzero divisor it terminates, runs into no undefined shift or division, and returns
    the quotient and the remainder. *)
Theorem udivmod_exact n d :
  in_u 64 n -> in_u 64 d -> 0 < d ->
  udivmoddi4 n d = Ok (n / d, n mod d) /\ udivdi3 n d = Ok (n / d) /\ umoddi3 n d = Ok (n mod d).
Proof. intros Hn Hd Hp. unfold udivdi3, umoddi3. by rewrite udivmoddi4_spec. Qed.

(** Signed division truncates towards zero and the remainder has the sign of the
    dividend, for all operands but the least value (whose negation overflows). *)
Theorem signed_division_exact a b :
  in_s 64 a -> in_s 64 b -> a <> - 2 ^ 63 -> b <> - 2 ^ 63 -> b <> 0 ->
  divdi3 a b = Ok (Z.quot a b) /\ moddi3 a b = Ok (Z.rem a b) /\ divmoddi4 a b = Ok (Z.quot a b, Z.rem a b).
Proof. intros. split_and!; [apply divdi3_spec|apply moddi3_spec|apply divmoddi4_spec]; done. Qed.

(** The counting routines.  On a nonzero double word, [__clzdi2] counts the zeros
    above the leading one and [__ctzdi2] those below the last one; the single-word
    routines they use agree with the compiler's built-in ones. *)
Theorem bit_counts_exact a c :
  0 < u64 a -> is_ctz (u64 a) c ->
  clzdi2 a = 63 - Z.log2 (u64 a) /\ ctzdi2 a = c /\
  forall x, 0 < x < 2 ^ 32 -> builtin_clz x = Ok (clzsi2 x) /\ builtin_ctz x = Ok (ctzsi2 x).
Proof.
  intros Ha Hc. split_and!; [by apply clzdi2_spec|by apply ctzdi2_spec|apply bit_counts_builtin].
Qed.

(** ** The bump allocator *)

Section Malloc.
Variables wl heap_start heap_end : Z.
Context (Hwl : wl = 32 \/ wl = 64) (Hheap : 0 < heap_start <= heap_end) (Hend : heap_end < 2 ^ wl).

(** A sequence of requests; the blocks handed out, newest first. *)
Fixpoint malloc_all (sizes : list Z) (ptr : Z) (bs : list (Z * Z)) : list (Z * Z) :=
  match sizes with
  | [] => bs
  | n :: sizes =>
      let r := malloc wl heap_start heap_end n ptr in
      malloc_all sizes r.2 (if r.1 =? 0 then bs else (r.1, n) :: bs)
  end.

Definition malloc_inv (ptr : Z) (bs : list (Z * Z)) : Prop :=
  ptr = 0 /\ bs = [] \/ heap_start <= ptr /\ stacked heap_start heap_end ptr bs.

Lemma malloc_inv_step n ptr bs :
  0 <= n -> word_size wl n <= heap_start -> malloc_inv ptr bs ->
  let r := malloc wl heap_start heap_end n ptr in malloc_inv r.2 (if r.1 =? 0 then bs else (r.1, n) :: bs).
Proof using Hwl Hheap Hend.
  intros Hn Hs Hi r.
  destruct (malloc_stacked wl heap_start heap_end Hwl Hheap Hend n ptr bs Hn Hs Hi) as [[E1 E2]|[E1 E2]]; fold r in E1, E2.
  - rewrite E1. cbn [Z.eqb]. right. destruct Hi as [[-> ->]|[Hp Hst]].
    + cbn [Z.eqb] in E2. rewrite E2. cbn [stacked]. lia.
    + destruct (Z.eqb_spec ptr 0) as [->|]; [lia|]. by rewrite E2.
  - pose proof E2 as E2'. cbn [stacked] in E2'. destruct E2' as (_ & Hlo & _).
    destruct (Z.eqb_spec r.1 0); [lia|]. right. split; [lia|done].
Qed.

(** The blocks [malloc] hands out are within the heap and never overlap, for every
    sequence of requests whose rounded sizes do not exceed the heap's start address. *)
Theorem malloc_disjoint sizes i j p1 n1 p2 n2 :
  Forall (fun n => 0 <= n /\ word_size wl n <= heap_start) sizes ->
  let bs := malloc_all sizes 0 [] in
  bs !! i = Some (p1, n1) -> bs !! j = Some (p2, n2) -> (i < j)%nat ->
  heap_start <= p1 /\ p1 + n1 <= p2 /\ p2 + n2 <= heap_end.
Proof using Hwl Hheap Hend.
  intros Hs bs H1 H2 Hij.
  assert (forall sizes ptr bs, Forall (fun n => 0 <= n /\ word_size wl n <= heap_start) sizes -> malloc_inv ptr bs ->
    exists ptr', malloc_inv ptr' (malloc_all sizes ptr bs)) as Hrun.
  { clear -Hwl Hheap Hend. induction sizes as [|n sizes IH]; intros ptr bs Hf Hi; [by exists ptr|].
    apply Forall_cons in Hf as [[Hn Hw] Hf]. cbn [malloc_all]. apply IH; [done|]. by apply malloc_inv_step. }
  destruct (Hrun sizes 0 [] Hs) as [ptr' [[_ E]|[Hge Hst]]]; [by left| |].
  { fold bs in E. rewrite E in H1. done. }
  fold bs in Hst. pose proof (stacked_disjoint _ _ _ _ _ _ _ _ _ _ Hst H1 H2 Hij).
  pose proof (stacked_above _ _ _ _ _ _ Hst (list_elem_of_lookup_2 _ _ _ H1)).
  pose proof (stacked_above _ _ _ _ _ _ Hst (list_elem_of_lookup_2 _ _ _ H2)). lia.
Qed.
End Malloc.

(** ** Witnesses *)

Definition w_str : harray := ha_put (ha_put ha_zero 100 (codes "abc" ++ [0])) 200 (codes "abd" ++ [0]).
Lemma w_str_ok : ha_ok w_str.
Proof. apply ha_put_ok, ha_put_ok, ha_zero_ok. Qed.
Lemma w_str_abc : cstr w_str 100 (codes "abc").
Proof. split; [reflexivity|]. repeat constructor; discriminate. Qed.
Lemma w_str_abd : cstr w_str 200 (codes "abd").
Proof. split; [reflexivity|]. repeat constructor; discriminate. Qed.

Lemma memmove_block_witness : ha_get (memmove 3 101 100 w_str) 103 = ha_get w_str 102.
Proof. rewrite (memmove_block 3 101 100 w_str 103 w_str_ok). reflexivity. Defined.

Lemma strcat_concat_witness :
  exists m', strcat 10 100 200 w_str = Some m' /\ cstr m' 100 (codes "abcabd") /\
    forall a, a < 103 \/ 106 < a -> ha_get m' a = ha_get w_str a.
Proof. apply (strcat_concat 10 100 200 (codes "abc") (codes "abd") w_str w_str_ok w_str_abc w_str_abd); cbn; lia. Defined.

Lemma strcmp_order_witness :
  exists d, strcmp 10 w_str 100 200 = Some d /\ (d = 0 <-> codes "abc" = codes "abd") /\ (d < 0 <-> str_lt (codes "abc") (codes "abd")).
Proof. apply (strcmp_order 10 w_str 100 200 _ _ w_str_ok w_str_abc w_str_abd). cbn. lia. Defined.

Lemma print_parse_witness :
  exists text, printf 32 (codes "%llx") [VLLong 0xdeadbeefcafe] = Ok (text, Z.of_nat (length text)) /\
    strtoull text 16 = Ok (0xdeadbeefcafe, Z.of_nat (length text)).
Proof. apply (print_parse 32 (codes "%llx") 0xdeadbeefcafe (VLLong 0xdeadbeefcafe) 16); [by left|]. apply fmt_llx. split; done. Defined.

Lemma vsnprintf_agrees_witness :
  vsnprintf 32 ha_zero 500 4 (codes "%d-%s") [VInt (-7); VStr (Some (codes "xyz"))] =
  Ok (stored ha_zero 500 4 (codes "-7-xyz"), 6).
Proof.
  apply (vsnprintf_agrees 32 ha_zero 500 4 _ _ (codes "-7-xyz") 6); [lia|split; done|reflexivity|reflexivity].
Defined.

(** [printf("%5d", -42)] prints seven characters. *)
Lemma signed_field_pads_too_much_witness :
  printf_signed 32 (st_putch 32) (-42) 5 false SPACE 0 = emit 32 (codes "    -42") (st_putch 32).
Proof. rewrite (signed_field_pads_too_much 32 (st_putch 32) (-42) 5); [reflexivity|lia|lia]. Defined.

Lemma udivmod_exact_witness :
  udivmoddi4 0xfedcba9876543210 0x123456789 = Ok (0xfedcba9876543210 / 0x123456789, 0xfedcba9876543210 mod 0x123456789).
Proof. apply udivmod_exact; [split; done|split; done|done]. Defined.

Lemma signed_division_exact_witness : divmoddi4 (-100) 7 = Ok (-14, -2).
Proof. apply (signed_division_exact (-100) 7); [split; done|split; done|done|done|done]. Defined.

Lemma bit_counts_exact_witness : clzdi2 0x500000000 = 29 /\ ctzdi2 0x500000000 = 32.
Proof.
  destruct (bit_counts_exact 0x500000000 32) as (E1 & E2 & _); [reflexivity| |split; [exact E1|exact E2]].
  split; [lia|]. exists 5. split; reflexivity.
Defined.

Lemma malloc_disjoint_witness :
  malloc_all 32 0x1000 0x2000 [10; 0x1000; 20] 0 [] = [(0x1fe0, 20); (0x1ff4, 10)] /\
  0x1000 <= 0x1fe0 /\ 0x1fe0 + 20 <= 0x1ff4 /\ 0x1ff4 + 10 <= 0x2000.
Proof.
  split; [reflexivity|].
  apply (malloc_disjoint 32 0x1000 0x2000 ltac:(by left) ltac:(lia) ltac:(done) [10; 0x1000; 20] 0 1 0x1fe0 20 0x1ff4 10);
    [|reflexivity|reflexivity|lia].
  repeat constructor; done.
Defined.
