(* ===== verification/RtProps.v ===== *)
(** * Properties of the RT-Thread components

    The ring buffer of components/drivers/ipc as a bounded byte queue, and the small
    memory allocator of src/mem.c as a map from pointers to the bytes behind them. *)
From stdpp Require Import sorting.
From S2P Require Import RtAvl RtAvlFacts RtAspace RtPage.
From S2P Require Import Prelude Outcome Bytes RingBuffer.
From S2P Require Import KString KStdlib KStdio RtKservice RtKserviceFacts.
From S2P Require Import SmallMem SmallMemFacts SmallMemOps SmallMemApi SmallMemClient RtHeap RtCtime.
#[local] Open Scope Z_scope.

(** C17: a ring buffer is a queue of at most [buffer_size] bytes.  For every pool and every
    power-of-two alignment not above the pool's size, initialisation succeeds, and any
    sequence of operations returns what the queue returns, never leaves the pool and ends
    in a buffer that holds the queue: a plain store drops what does not fit, a forced one
    drops the oldest bytes. *)
Theorem ringbuffer_is_bounded_fifo align k pool pool_len size ops :
  0 <= k <= 30 -> align = 2 ^ k -> align <= size < 2 ^ 31 -> size <= pool_len -> Forall op_ok ops ->
  exists rb0 rb outs, rt_ringbuffer_init align pool pool_len size = Ok rb0 /\
    buffer_size rb0 = size / align * align /\
    rb_run ops rb0 = Ok (outs, rb) /\ outs = (q_run (buffer_size rb0) ops []).1 /\
    ring_repr rb (q_run (buffer_size rb0) ops []).2.
Proof.
  intros Hk Ha Hs Hp Ho.
  destruct (rt_ringbuffer_init_repr align pool pool_len size k Hk Ha Hs Hp) as (rb0 & E & Hr & Hb).
  destruct (rb_run_refines ops rb0 [] Hr Ho) as (outs & rb & E2 & E3 & Hr2).
  by exists rb0, rb, outs.
Qed.

(** [peek] hands out a run of the oldest bytes in place and consumes it: the pointer
    is null exactly when the buffer is empty, otherwise it points at the bytes, and the
    buffer keeps the rest. *)
Theorem ringbuffer_peek_exact rb q :
  ring_repr rb q ->
  exists p n rb', rt_ringbuffer_peek rb = (p, n, rb') /\ 0 <= n <= Z.of_nat (length q)
    /\ (n = 0 <-> q = []) /\ ring_repr rb' (drop (Z.to_nat n) q)
    /\ (forall a, p = Some a -> ha_get_n (buffer_ptr rb) a (Z.to_nat n) = take (Z.to_nat n) q)
    /\ (p = None <-> q = []) /\ buffer_size rb' = buffer_size rb.
Proof. apply peek_spec. Qed.

(** A pool smaller than the alignment gives a buffer of size 0, and forced stores then
    walk out of the pool. *)
Lemma ringbuffer_small_pool :
  exists rb, rt_ringbuffer_init 8 ha_zero 4 4 = Ok rb /\ buffer_size rb = 0 /\
    rb_run (replicate 5 (OPutcharForce 1)) rb = Undef "write outside the pool".
Proof. eexists. split; [reflexivity|]. split; reflexivity. Qed.

Section SmallMem.
Variables w al : Z.
Variable trace : bool.
Variable thread_self : option (list Z).
Context (Hw : w = 32 \/ w = 64) (Hal : al = 4 \/ al = 8).

(** C6: the allocator refines its specification.  Initialisation fails exactly when the
    memory has no room for the object and two headers.  Otherwise every sequence of
    calls on pointers the caller holds, each chosen from the results so far, runs
    without a failed assertion or an access outside the memory, returns what the
    specification allows and ends in a state that holds the specified map of pointers
    to contents: a block keeps its bytes until its owner writes, frees or reallocates
    it, and a reallocated block keeps the bytes that fit. *)
Theorem smem_refines sz begin_addr size b0 fs :
  0 < begin_addr -> 0 <= size -> 0 <= sz -> begin_addr + size < 2 ^ w ->
  align_up al (align_up al begin_addr + sz) + al < 2 ^ w -> ha_ok b0 ->
  exists r, rt_smem_init w al trace sz begin_addr size b0 = Ok r /\ (r = None <-> ~ room w al trace sz begin_addr size) /\
    forall m, r = Some m -> calls_allowed w al ∅ fs [] ->
      exists rs m' A, calls_run w al trace thread_self fs [] m = Ok (rs, m') /\ calls_spec ∅ fs [] rs A /\
        smem_inv w al trace m' A.
Proof using Hw Hal.
  intros H1 H2 H3 H4 H5 Hb. destruct (decide (room w al trace sz begin_addr size)) as [Hr|Hr].
  - destruct (init_inv w al trace Hw Hal sz begin_addr size b0 H1 H2 H3 H4 H5 Hb Hr) as (m & E & Hi & _).
    exists (Some m). split; [done|]. split; [by split|]. intros _ [= <-] Hc. by apply calls_refine.
  - exists None. rewrite (init_run w al trace sz Hw Hal begin_addr size H1 H2 H3 H4 H5 b0), decide_False by done.
    split; [done|]. by split.
Qed.

(** C26: allocation is first fit.  With [s] the request rounded up, the call returns null
    and changes nothing exactly when no free block holds a header and [s] bytes;
    otherwise it takes the first free block that does, splitting off the tail when a
    header and a smallest block fit there, and the used blocks keep their bytes. *)
Theorem smem_alloc_first_fit m bs size :
  smem_repr w al trace m bs -> 0 < size -> size + al <= 2 ^ w ->
  let s := aligned_size w al size in let S := SIZEOF_STRUCT_MEM w al trace in
  let small := Forall (fun x : block => x.2 = false -> x.1 < S + s) in
  (rt_smem_alloc w al trace thread_self size m = Ok (0, m) /\ small bs) \/
  exists xs l ys m', bs = xs ++ (l, false) :: ys /\ S + s <= l /\ small xs /\
    rt_smem_alloc w al trace thread_self size m = Ok (user w al trace m (sum_len xs), m') /\
    smem_repr w al trace m'
      (if s + S + MIN_SIZE_ALIGNED w al <=? l - S then xs ++ (S + s, true) :: (l - S - s, false) :: ys
       else xs ++ (l, true) :: ys) /\
    same_data w al trace (live 0 bs) m m'.
Proof using Hw Hal.
  intros Hr H0 Hlt s S small.
  destruct (alloc_spec w al trace thread_self Hw Hal m bs size Hr H0 Hlt) as [H|(xs & l & ys & m' & E1 & E2 & E3 & E4 & E5 & E6 & E7)]; [by left|].
  right. exists xs, l, ys, m'. split_and!; try done. by apply kept_data.
Qed.

(** The blocks a caller holds are aligned, inside the memory handed to the allocator,
    hold the bytes the specification says, and do not overlap. *)
Theorem smem_blocks_apart m A p c :
  smem_inv w al trace m A -> A !! p = Some c ->
  p mod al = 0 /\ pool_begin m <= p /\ p + Z.of_nat (length c) <= pool_end m /\
  ha_get_n (bytes m) p (length c) = c /\
  forall p' c', A !! p' = Some c' -> p' <> p -> p + Z.of_nat (length c) <= p' \/ p' + Z.of_nat (length c') <= p.
Proof using Hw Hal. by apply inv_blocks. Qed.

(** C27: freeing a block gives the pool its bytes back, merged with its free neighbours,
    and a second free of the same pointer fails an assertion, also when the block was
    merged into the one before it. *)
Theorem smem_double_free m xs l ys :
  smem_repr w al trace m (xs ++ (l, true) :: ys) ->
  let p := user w al trace m (sum_len xs) in
  exists m', rt_smem_free w al trace p m = Ok (tt, m') /\ smem_repr w al trace m' (coalesce xs l ys) /\
    m_used m' = m_used m - l /\
    exists why, rt_smem_free w al trace p m' = Abort why.
Proof using Hw Hal.
  intros Hr p. destruct (free_spec w al trace Hw Hal m xs l ys Hr) as (m' & E & _ & Hr' & _). exists m'.
  split; [done|]. split; [done|]. split; [|exact (double_free w al trace Hw Hal m xs l ys m' Hr E)].
  rewrite (sr_used _ _ _ _ _ Hr), (sr_used _ _ _ _ _ Hr'). pose proof (sr_geom _ _ _ _ _ Hr) as Hg.
  pose proof (heap_positive w al trace Hw Hal m Hg _ _ (sr_heap _ _ _ _ _ Hr)) as [Hp _]%Forall_app.
  destruct (repr_user w al trace Hw Hal m xs l ys Hr) as [Hl _].
  destruct (coalesce_spec xs l ys) as (_ & -> & _); [destruct (layout w al trace Hw Hal); lia|done|].
  rewrite !used_sum_app. cbn. lia.
Qed.
End SmallMem.

(** A request of SIZE_MAX bytes wraps to 0 when it is rounded and succeeds. *)
Lemma smem_huge_request :
  exists m p m', rt_smem_init 32 8 true 64 1000 600 ha_zero = Ok (Some m) /\
    rt_smem_alloc 32 8 true None 4294967295 m = Ok (p, m') /\ p <> 0 /\ m_used m' = 32.
Proof. do 3 eexists. split; [vm_compute; reflexivity|]. split; [vm_compute; reflexivity|]. split; [discriminate|reflexivity]. Qed.

(** ** Witnesses *)

Lemma ringbuffer_is_bounded_fifo_witness :
  exists rb0 rb outs, rt_ringbuffer_init 4 ha_zero 10 9 = Ok rb0 /\
    rb_run [OPut [1; 2; 3; 4; 5; 6]; OGet 3; OPutForce [7; 8; 9; 10; 11; 12]; OGet 100] rb0 = Ok (outs, rb) /\
    outs = [RSize 6; RBytes [1; 2; 3]; RSize 6; RBytes [5; 6; 7; 8; 9; 10; 11; 12]].
Proof.
  destruct (ringbuffer_is_bounded_fifo 4 2 ha_zero 10 9
    [OPut [1; 2; 3; 4; 5; 6]; OGet 3; OPutForce [7; 8; 9; 10; 11; 12]; OGet 100])
    as (rb0 & rb & outs & E1 & E2 & E3 & E4 & _); [lia|reflexivity|lia|lia| |].
  - repeat first [apply Forall_nil_2 | apply Forall_cons_2 | (unfold op_ok, in_u; lia) | (unfold op_ok)].
  - exists rb0, rb, outs. split; [exact E1|]. split; [exact E3|]. rewrite E4, E2. reflexivity.
Defined.

Lemma ringbuffer_peek_exact_witness :
  exists rb p n rb', rt_ringbuffer_init 4 ha_zero 10 9 = Ok rb /\ rt_ringbuffer_peek rb = (p, n, rb') /\ p = None.
Proof.
  destruct (rt_ringbuffer_init_repr 4 ha_zero 10 9 2) as (rb & E & Hr & _); [lia|reflexivity|lia|lia|].
  destruct (ringbuffer_peek_exact rb [] Hr) as (p & n & rb' & E1 & _ & _ & _ & _ & E2 & _).
  exists rb, p, n, rb'. split; [exact E|]. split; [exact E1|]. by apply E2.
Defined.

(** A heap of 600 bytes at 1000, with 32-bit words aligned to 8. *)
Lemma small_heap : exists m, rt_smem_init 32 8 true 64 1000 600 ha_zero = Ok (Some m) /\ smem_inv 32 8 true m ∅.
Proof.
  destruct (init_inv 32 8 true (or_introl eq_refl) (or_intror eq_refl) 64 1000 600 ha_zero) as (m & E & H & _);
    [lia|lia|lia|lia|vm_compute; reflexivity|apply ha_zero_ok|vm_compute; discriminate|exact (ex_intro _ m (conj E H))].
Qed.

(** Ask for 8 bytes, write one of them, give the block back. *)
Definition three_calls : list caller :=
  [fun _ => Alloc 8;
   fun rs => let p := hd 0 rs in if p =? 0 then Alloc 0 else Write p 7 42;
   fun rs => Free (hd 0 (tl rs))].

Lemma three_calls_allowed : calls_allowed 32 8 ∅ three_calls [].
Proof.
  split; [split; lia|]. intros r A1 Hs. cbn in Hs. cbn [calls_allowed three_calls].
  destruct Hs as [[-> ->]|(_ & c & (Hr & _ & Hc) & ->)]; cbn [hd].
  - split; [split; lia|]. intros r A1 _. split; [by left|done].
  - rewrite (proj2 (Z.eqb_neq r 0)) by done. split.
    + split; [unfold in_u; lia|]. split; [lia|]. exists c. rewrite lookup_insert_eq. split; [done|lia].
    + intros r' A1 [-> ->]. split; [|done]. right. cbn. rewrite lookup_alter_eq, lookup_insert_eq. by eexists.
Qed.

Lemma smem_refines_witness :
  exists m rs m' A, rt_smem_init 32 8 true 64 1000 600 ha_zero = Ok (Some m) /\
    calls_run 32 8 true None three_calls [] m = Ok (rs, m') /\ calls_spec ∅ three_calls [] rs A /\ smem_inv 32 8 true m' A.
Proof.
  destruct (smem_refines 32 8 true None (or_introl eq_refl) (or_intror eq_refl) 64 1000 600 ha_zero three_calls)
    as (r & E & Hr & H); [lia|lia|lia|lia|vm_compute; reflexivity|apply ha_zero_ok|].
  destruct small_heap as (m & E' & _). rewrite E' in E. injection E as <-.
  destruct (H m eq_refl three_calls_allowed) as (rs & m' & A & H1 & H2 & H3).
  exists m, rs, m', A. split; [exact E'|]. split; [exact H1|]. split; [exact H2|exact H3].
Defined.

Lemma smem_alloc_first_fit_witness :
  exists m bs, rt_smem_init 32 8 true 64 1000 600 ha_zero = Ok (Some m) /\
    ((rt_smem_alloc 32 8 true None 100 m = Ok (0, m) /\ Forall (fun x : block => x.2 = false -> x.1 < 120) bs) \/
     exists p m', rt_smem_alloc 32 8 true None 100 m = Ok (p, m')).
Proof.
  destruct small_heap as (m & E & bs & Hr & _). exists m, bs. split; [exact E|].
  destruct (smem_alloc_first_fit 32 8 true None (or_introl eq_refl) (or_intror eq_refl) m bs 100 Hr)
    as [H|(xs & l & ys & m' & _ & _ & _ & H & _)]; [lia|lia|left; exact H|right; eauto].
Defined.

Lemma smem_blocks_apart_witness :
  exists m p m' (A : gmap Z (list Z)) c, rt_smem_init 32 8 true 64 1000 600 ha_zero = Ok (Some m) /\
    rt_smem_alloc 32 8 true None 100 m = Ok (p, m') /\ A !! p = Some c /\ p mod 8 = 0 /\ 100 <= Z.of_nat (length c).
Proof.
  destruct small_heap as (m & E & Hi).
  destruct (mop_step 32 8 true None (or_introl eq_refl) (or_intror eq_refl) m ∅ (Alloc 100) Hi) as (r & m' & A & E2 & Hs & Hi2);
    [split; lia|].
  assert (r <> 0) as Hr.
  { intros ->. vm_compute in E. injection E as <-. vm_compute in E2. discriminate. }
  destruct Hs as [[Hz _]|(_ & c & (_ & _ & Hc) & ->)]; [destruct (Hr Hz)|]. exists m, r, m', (<[r := c]> ∅), c.
  assert ((<[r := c]> ∅ : gmap Z (list Z)) !! r = Some c) as Hl by apply lookup_insert_eq.
  destruct (smem_blocks_apart 32 8 true (or_introl eq_refl) (or_intror eq_refl) m' _ r c Hi2 Hl) as (Ha & _).
  split; [exact E|]. split; [exact E2|]. split; [exact Hl|]. split; [exact Ha|exact Hc].
Defined.

Lemma smem_double_free_witness :
  exists m p m' m2 why, rt_smem_init 32 8 true 64 1000 600 ha_zero = Ok (Some m) /\
    rt_smem_alloc 32 8 true None 100 m = Ok (p, m') /\ rt_smem_free 32 8 true p m' = Ok (tt, m2) /\
    rt_smem_free 32 8 true p m2 = Abort why.
Proof.
  destruct small_heap as (m & E & bs & Hr & _).
  destruct (alloc_spec 32 8 true None (or_introl eq_refl) (or_intror eq_refl) m bs 100 Hr)
    as [[E2 _]|(xs & l & ys & m' & _ & _ & _ & E2 & Hp & Hr' & _)]; [lia|lia|exfalso|].
  - vm_compute in E. injection E as <-. vm_compute in E2. discriminate.
  - assert (exists l' ys', smem_repr 32 8 true m' (xs ++ (l', true) :: ys')) as (l' & ys' & Hr2).
    { revert Hr'. unfold take_list. case_match; eauto. }
    destruct (smem_double_free 32 8 true (or_introl eq_refl) (or_intror eq_refl) m' xs l' ys' Hr2) as (m2 & E3 & _ & _ & why & E4).
    rewrite (same_place_user 32 8 true m m' _ Hp) in E3, E4.
    exists m, (user 32 8 true m (sum_len xs)), m', m2, why. split; [exact E|]. split; [exact E2|]. split; [exact E3|exact E4].
Defined.

(** ** The kernel service library *)

(** C31: the memory functions that work on words do what the loops over bytes do:
    rt_memset writes the same memory as the byte-wise memset; rt_memcpy has the same
    contents as the byte-wise copy unless the destination starts inside the source above
    its beginning; rt_memmove gives the destination the old contents of the source however
    the blocks overlap; and nothing else changes.  The word size may be 2, 4 or 8, and no
    alignment is assumed. *)
Theorem rt_memory_bytewise ws m d s c n :
  ws = 2%nat \/ ws = 4%nat \/ ws = 8%nat -> ha_ok m -> 0 <= n ->
  rt_memset ws d c n m = Ok (KString.memset (Z.to_nat n) d c m) /\
  (copies_up d s (Z.to_nat n) -> exists m', rt_memcpy ws d s n m = Ok m' /\ ha_equiv m' (KString.memcpy (Z.to_nat n) d s m)
    /\ ha_equiv m' (rt_memmove d s (Z.to_nat n) m)) /\
  ha_equiv (rt_memmove d s (Z.to_nat n) m) (ha_put m d (ha_get_n m s (Z.to_nat n))) /\
  (rt_memcmp (Z.to_nat n) m d s = 0 <-> ha_get_n m d (Z.to_nat n) = ha_get_n m s (Z.to_nat n)).
Proof.
  intros Hws Hm Hn. split; [|split; [|split]].
  - rewrite memset_run by done. by rewrite memset_put.
  - intros Hd. destruct (rt_memcpy_run ws Hws d s n m Hm Hn Hd) as (m' & E & Hm' & _). exists m'. split; [done|]. split.
    + rewrite Hm'. symmetry. apply memcpy_put. unfold copies_up in Hd. lia.
    + rewrite Hm'. symmetry. apply rt_memmove_run.
  - apply rt_memmove_run.
  - rewrite rt_memcmp_run. apply str_diff_same. by rewrite !length_ha_get_n.
Qed.

Lemma rt_memory_bytewise_witness :
  exists m', rt_memcpy 4 64 0 21 (ha_put ha_zero 0 (map Z.of_nat (seq 1 21))) = Ok m' /\
    ha_equiv m' (KString.memcpy 21 64 0 (ha_put ha_zero 0 (map Z.of_nat (seq 1 21)))).
Proof.
  destruct (rt_memory_bytewise 4 (ha_put ha_zero 0 (map Z.of_nat (seq 1 21))) 64 0 0 21) as (_ & H & _).
  - right. left. reflexivity.
  - apply ha_put_ok, ha_zero_ok.
  - lia.
  - destruct H as (m' & E & Em & _); [right; cbn; lia|]. exists m'. split; [exact E|exact Em].
Defined.

(** Rt_strstr finds the first occurrence: on two C strings of less than 2^31 characters
    it ends, its result is the address of the first position at which the second string
    occurs in the first, and it is null exactly if there is none. *)
Theorem rt_strstr_first fuel m s1 s2 hay needle :
  cstr m s1 hay -> cstr m s2 needle -> (length hay < fuel)%nat -> (length needle < fuel)%nat ->
  Z.of_nat (length hay) < 2 ^ 31 -> Z.of_nat (length needle) < 2 ^ 31 ->
  exists r, rt_strstr fuel m s1 s2 = Ok r /\
    match r with
    | Some q => exists i, q = s1 + Z.of_nat i /\ occurs_at hay needle i /\ forall j, (j < i)%nat -> ~ occurs_at hay needle j
    | None => forall j, ~ occurs_at hay needle j
    end.
Proof. apply rt_strstr_run. Qed.

Lemma rt_strstr_first_witness :
  exists r, rt_strstr 10 (ha_put ha_zero 100 [97; 98; 97; 99; 0; 97; 99; 0]) 100 105 = Ok r /\ r = Some 102.
Proof.
  destruct (rt_strstr_first 10 (ha_put ha_zero 100 [97; 98; 97; 99; 0; 97; 99; 0]) 100 105 [97; 98; 97; 99] [97; 99]) as (r & E & _);
    [split; [reflexivity|repeat constructor; lia] .. | cbn; lia | cbn; lia | cbn; lia | cbn; lia |].
  exists r. split; [exact E|]. vm_compute in E. congruence.
Defined.

(** C32: how a number is printed.  For every 64-bit argument, base from 2 (the b conversion)
    to 16 and flags, any width of an [int], -1 for none, and any precision below 2^31 - 8,
    so that no [int] overflows, print_number adds exactly
    the text of [number_text] to the output: padding, sign, prefix, and the digits in the
    base extended with zeros to the precision, on the side the flags say.  The digits read
    back as the magnitude of the number, and unless the precision is 0 the text has at
    least the field width. *)
Theorem rt_print_number_layout wl o num base q width precision flags :
  0 <= wl <= 64 -> in_u 64 num -> 2 <= base <= 16 -> 0 <= flags -> -1 <= width < 2 ^ 31 -> precision < 2 ^ 31 - 8 ->
  exists sign n ds, number_sign wl num q flags = (sign, n) /\ strtoull ds base = Ok (n, Z.of_nat (length ds)) /\
    print_number wl o num base q width precision flags = Ok (foldl put o (number_text wl num base q width precision flags)) /\
    (precision <> 0 -> width <= Z.of_nat (length (number_text wl num base q width precision flags)) /\
      exists pre post, number_text wl num base q width precision flags = pre ++ ds ++ post /\ Forall (eq ch_space) post).
Proof.
  intros Hwl Hn Hb Hf Hw Hp. destruct (number_sign wl num q flags) as [sign n] eqn:Es. exists sign, n, (digits_text n base (has flags LARGE)).
  pose proof (number_sign_range wl num q flags Hwl Hn) as Hr. rewrite Es in Hr. cbn [snd] in Hr.
  split; [done|]. split; [by apply strtoull_digits|]. split; [apply print_number_run; (done || lia)|].
  intros Hne. split; [by apply number_text_length|]. by apply (number_text_digits _ _ _ _ _ _ _ sign).
Qed.

Lemma rt_print_number_layout_witness :
  print_number 64 {| o_mem := ha_zero; o_str := 0; o_end := 16 |} (u32 (-42)) 10 0 6 4 SIGN
    = Ok (foldl put {| o_mem := ha_zero; o_str := 0; o_end := 16 |} [32; 45; 48; 48; 52; 50]).
Proof.
  destruct (rt_print_number_layout 64 {| o_mem := ha_zero; o_str := 0; o_end := 16 |} (u32 (-42)) 10 0 6 4 SIGN) as (sign & n & ds & _ & _ & E & _);
    [lia | vm_compute; split; congruence | lia | vm_compute; congruence | lia | lia |].
  rewrite E. do 2 f_equal.
Defined.



(** The printing differs from the C standard: a precision of 0 drops the digits of every
    number ([%.0d] of 42), a field width cuts a longer string ([%2s] of abc), and a
    precision of 0 does not cut a string ([%.0s]). *)
Lemma rt_precision_zero_drops_digits :
  rt_snprintf 64 ha_zero 100 16 [37; 46; 48; 100] [VInt 42] = Ok (ha_put ha_zero 100 [0], 0).
Proof. reflexivity. Qed.

Lemma rt_width_cuts_string :
  rt_snprintf 64 ha_zero 100 16 [37; 50; 115] [VStr (Some [97; 98; 99])] = Ok (ha_put ha_zero 100 [97; 98; 0], 2).
Proof. reflexivity. Qed.

Lemma rt_precision_zero_keeps_string :
  rt_snprintf 64 ha_zero 100 16 [37; 46; 48; 115] [VStr (Some [97; 98; 99])] = Ok (ha_put ha_zero 100 [97; 98; 99; 0], 3).
Proof. reflexivity. Qed.

(** ** The system heap *)

(** C28: aligned blocks.  For a power of two as the alignment and a size small enough that
    size + alignment + two pointers + RT_ALIGN_SIZE does not pass the end of the address
    space (the code rounds and adds without a check, and a larger size wraps:
    [rt_malloc_align_wraps]), and an RT_ALIGN_SIZE of at least a pointer: rt_malloc_align
    gives null and
    changes nothing, or an address that is a multiple of it with at least [size] bytes
    behind it inside one new block of the heap, and leaves the other blocks alone.
    Whatever is done to the other blocks and to the bytes from that address on,
    rt_free_align of the address then frees exactly that block. *)
Theorem rt_malloc_align_free w al trace thread_self m A size k :
  w = 32 \/ w = 64 -> al = 4 \/ al = 8 -> word w <= al ->
  smem_inv w al trace m A -> 0 <= size -> 0 <= k -> size + 2 ^ k + 2 * word w + al <= 2 ^ w ->
  exists r m', rt_malloc_align w al trace thread_self size (2 ^ k) m = Ok (r, m') /\
    ((r = 0 /\ smem_inv w al trace m' A) \/
     exists p c, A !! p = None /\ smem_inv w al trace m' (<[p := c]> A) /\
       r mod 2 ^ k = 0 /\ p < r /\ r + size <= p + Z.of_nat (length c) /\
       forall m2 A2 c2, smem_inv w al trace m2 A2 -> A2 !! p = Some c2 -> take (Z.to_nat (r - p)) c2 = take (Z.to_nat (r - p)) c ->
         exists m3, rt_free_align w al trace r m2 = Ok (tt, m3) /\ smem_inv w al trace m3 (delete p A2)).
Proof.
  intros Hw Hal Hwal Hi Hs Hk Hl. pose proof (word_facts w Hw) as (Hwz & _ & _ & Hwb).
  destruct (rt_malloc_align_run w al trace thread_self Hw Hal m A size k Hi Hwal Hs Hk Hl) as (r & m' & E & H). exists r, m'. split; [done|].
  destruct H as [H|(p & c & H1 & H2 & H3 & H4 & H5 & H6)]; [by left|]. right. exists p, c. split; [done|]. split; [done|]. split; [done|]. split; [lia|]. split; [done|].
  intros m2 A2 c2 Hi2 Hc2 Et. assert (r - p <= Z.of_nat (length c2)) as Hlc.
  { apply (f_equal length) in Et. rewrite !length_take in Et. lia. }
  apply (rt_free_align_run w al trace Hw Hal m2 A2 p c2 r Hi2 Hc2 H3); [lia|]. rewrite <- H6 at 2. f_equal.
  rewrite !take_drop_commute. replace (Z.to_nat (r - p - word w) + ws w)%nat with (Z.to_nat (r - p)) by lia. by rewrite Et.
Qed.

Lemma rt_malloc_align_free_witness :
  exists m r m' m3, rt_smem_init 32 8 true 64 1000 600 ha_zero = Ok (Some m) /\
    rt_malloc_align 32 8 true None 10 (2 ^ 5) m = Ok (r, m') /\ r mod 2 ^ 5 = 0 /\ rt_free_align 32 8 true r m' = Ok (tt, m3) /\ m_used m3 = 0.
Proof.
  destruct small_heap as (m & E & Hi).
  destruct (rt_malloc_align_free 32 8 true None m ∅ 10 5 (or_introl eq_refl) (or_intror eq_refl)) as (r & m' & Em & H);
    [vm_compute; discriminate|exact Hi|lia|lia|vm_compute; discriminate|].
  destruct H as [[-> _]|(p & c & _ & Hi' & Hr & _ & _ & Hfree)].
  - vm_compute in E. injection E as <-. vm_compute in Em. discriminate.
  - destruct (Hfree m' (<[p := c]> ∅) c Hi' (lookup_insert_eq _ _ _) eq_refl) as (m3 & Ef & _).
    exists m, r, m', m3. split; [exact E|]. split; [exact Em|]. split; [exact Hr|]. split; [exact Ef|].
    vm_compute in E. injection E as <-. vm_compute in Em. injection Em as <- <-. vm_compute in Ef. injection Ef as <-. reflexivity.
Defined.

(** The product of rt_calloc wraps: 2^30 + 2 objects of 4 bytes give a block of 16. *)
Lemma rt_calloc_wraps :
  exists m p m', rt_smem_init 32 8 true 64 1000 600 ha_zero = Ok (Some m) /\
    rt_calloc 32 8 true None (2 ^ 30 + 2) 4 m = Ok (p, m') /\ p <> 0 /\ m_used m' = 32.
Proof. do 3 eexists. split; [vm_compute; reflexivity|]. split; [vm_compute; reflexivity|]. split; [discriminate|]. vm_compute. reflexivity. Qed.

(** So does the size in rt_malloc_align: 2^32 - 16 bytes aligned to 32 give a pointer into a
    block of 16. *)
Lemma rt_malloc_align_wraps :
  exists m p m', rt_smem_init 32 8 true 64 1000 600 ha_zero = Ok (Some m) /\
    rt_malloc_align 32 8 true None (2 ^ 32 - 16) 32 m = Ok (p, m') /\ p <> 0 /\ m_used m' = 32.
Proof. do 3 eexists. split; [vm_compute; reflexivity|]. split; [vm_compute; reflexivity|]. split; [discriminate|]. vm_compute. reflexivity. Qed.

(** [tm_year + 1900] is an [int]: a year from 2^31 on is out of its reach although its seconds
    fit in 64 bits. *)
Lemma timegm_year_overflows : exists e,
  timegm 64 (Some {| tm_sec := 0; tm_min := 0; tm_hour := 0; tm_mday := 1; tm_mon := 0; tm_year := 2 ^ 31 - 1900; tm_wday := 0; tm_yday := 0; tm_isdst := 0 |}) = Undef e.
Proof. eexists. vm_compute. reflexivity. Qed.

(** ** The calendar *)

(** C40: timegm counts seconds.  For every Gregorian date from 1970 to the last year an
    [int] can hold, 2^31 - 1 (the code computes [tm_year + 1900] in [int]), and every time
    of day, with all fields in range and a second count that fits in the 32 or 64 bits of
    [time_t], timegm returns the number of seconds since 1 January 1970, by the rules of
    leap years over any number of centuries, and fills in the day of the week and the day
    of the year. *)
Theorem timegm_seconds wt t :
  wt = 32 \/ wt = 64 -> tm_ok t -> seconds_of t < 2 ^ (wt - 1) ->
  exists t', timegm wt (Some t) = Ok (Some t', seconds_of t, None) /\
    tm_wday t' = (seconds_of t / 86400 + 4) mod 7 /\ tm_yday t' = days_before_month (is_leap (tm_year t + 1900)) (tm_mon t) + tm_mday t - 1 /\
    tm_ok t' /\ seconds_of t' = seconds_of t.
Proof. intros Hwt Hok Hs. destruct (timegm_run wt t Hwt Hok Hs) as (t' & E & ->). eexists. split; [exact E|]. by destruct t. Qed.

Lemma timegm_seconds_witness :
  exists t', timegm 64 (Some {| tm_sec := 20; tm_min := 13; tm_hour := 22; tm_mday := 14; tm_mon := 10; tm_year := 123; tm_wday := 0; tm_yday := 0; tm_isdst := 0 |})
    = Ok (Some t', 1700000000, None) /\ tm_wday t' = 2.
Proof.
  destruct (timegm_seconds 64 {| tm_sec := 20; tm_min := 13; tm_hour := 22; tm_mday := 14; tm_mon := 10; tm_year := 123; tm_wday := 0; tm_yday := 0; tm_isdst := 0 |})
    as (t' & E & Hw & _); [right; reflexivity|vm_compute; repeat split; congruence|vm_compute; reflexivity|].
  exists t'. split; [exact E|]. rewrite Hw. vm_compute. reflexivity.
Defined.



(** Month 12 of 1970 is normalised to January 1971 but counted as 1970, and 32 January as
    32 February. *)
Lemma timegm_carries_wrong :
  (exists t, timegm 64 (Some {| tm_sec := 0; tm_min := 0; tm_hour := 0; tm_mday := 1; tm_mon := 12; tm_year := 70; tm_wday := 0; tm_yday := 0; tm_isdst := 0 |}) = Ok (Some t, 0, None) /\ tm_year t = 71) /\
  (exists t, timegm 64 (Some {| tm_sec := 0; tm_min := 0; tm_hour := 0; tm_mday := 32; tm_mon := 0; tm_year := 70; tm_wday := 0; tm_yday := 0; tm_isdst := 0 |}) = Ok (Some t, 62 * 86400, None) /\ tm_mday t = 32 /\ tm_mon t = 1).
Proof. split; eexists; (split; [reflexivity|done]). Qed.

(** ** AVL trees and address spaces *)

(** C37: the AVL tree stays balanced and in order.  For every balanced tree in memory and
    enough fuel: linking a new node at any free place and rebalancing from its parent ends,
    with a balanced tree that has the new node at this place in its order; removing any node
    ends, with a balanced tree of the other nodes in the same order.  In both cases the
    links, the stored heights and the root pointer in memory are those of the new tree, and
    no other node is written. *)
Theorem avl_update_balanced w fuel s T :
  32 <= w -> avl s T -> Z.of_nat (length (inorder T)) < 2 ^ 31 - 3 -> (length (inorder T) <= fuel)%nat ->
  (forall c x, T = fill c Leaf -> x ∉ inorder T ->
    exists s' T', (util_avl_link x (up c) (place_at c) ;; util_avl_rebalance w fuel (up c)) s = Ok (tt, s') /\ avl s' T' /\
      inorder T' = before c ++ x :: after c /\ RtAvlFacts.keeps (x :: inorder T) s s') /\
  (forall x, x ∈ inorder T -> exists s', util_avl_remove w fuel x s = Ok (tt, s') /\ removed x T s s').
Proof.
  intros Hw Ha Hn Hf. split; [intros c x E Hx; by apply avl_insert|intros x Hx; apply avl_remove; try done; lia].
Qed.

Definition demo_tree : tree := Node (Node Leaf 1 1 Leaf) 2 2 Leaf.
Definition demo_avl : util_avl_root :=
  {| avl_nodes := list_to_map [(2, {| avl_left := Some 1; avl_right := None; parent := None; height := 2 |}); (1, {| avl_left := None; avl_right := None; parent := Some 2; height := 1 |})];
     root_node := Some 2 |}.
Lemma demo_avl_ok : avl demo_avl demo_tree.
Proof. split; [|by cbn]. repeat split. apply (bool_decide_unpack _). by vm_compute. Qed.

Lemma avl_update_balanced_witness :
  (exists s' T', (util_avl_link 0 (Some 1) (LeftPlace 1) ;; util_avl_rebalance 32 10 (Some 1)) demo_avl = Ok (tt, s') /\ avl s' T' /\
    inorder T' = [0; 1; 2] /\ RtAvlFacts.keeps [0; 1; 2] demo_avl s') /\
  exists s', util_avl_remove 32 10 2 demo_avl = Ok (tt, s') /\ removed 2 demo_tree demo_avl s'.
Proof.
  pose proof (avl_update_balanced 32 10 demo_avl demo_tree ltac:(done) demo_avl_ok ltac:(done) ltac:(cbn; lia)) as (Hi & Hr). split.
  - apply (Hi [InLeft 1 1 Leaf; InLeft 2 2 Leaf] 0 eq_refl). apply (bool_decide_unpack _). reflexivity.
  - apply (Hr 2). apply (bool_decide_unpack _). reflexivity.
Defined.

(** C38: looking up areas.  In an address space whose areas do not overlap, the search for a
    range gives an area that overlaps it if there is one; the search for an address gives
    the area that contains it; the search for the area from an address on gives the lowest
    one that starts there or above, if no area is half of the address space away; and the
    next area is the next one in the order of addresses. *)
Theorem aspace_lookup w fuel s T :
  32 <= w -> aspace_ok w s T -> (length (inorder T) <= fuel)%nat ->
  (forall rs re, 0 <= rs <= re -> exists r, _aspace_bst_search_overlap w fuel rs re s = Ok (r, s) /\
    match r with Some x => x ∈ inorder T /\ start_of s x <= re /\ rs < end_of s x | None => forall x, x ∈ inorder T -> re < start_of s x \/ end_of s x <= rs end) /\
  (forall key, 0 <= key -> exists r, _aspace_bst_search w fuel key s = Ok (r, s) /\
    match r with Some x => x ∈ inorder T /\ start_of s x <= key < end_of s x | None => forall x, x ∈ inorder T -> ~ start_of s x <= key < end_of s x end) /\
  (forall start, 0 <= start -> (forall x, x ∈ inorder T -> start_of s x - start < 2 ^ (w - 1) - 1) ->
    _aspace_bst_search_exceed w fuel start s = Ok (hd_error (filter (fun x => start <= start_of s x) (inorder T)), s)) /\
  (forall a x b, inorder T = a ++ x :: b -> ASPACE_VAREA_NEXT fuel x s = Ok (hd_error b, s)).
Proof.
  intros Hw Hok Hf. split_and!.
  - intros rs re Hr. by apply (search_overlap_run w Hw s T).
  - intros key Hk. destruct (search_overlap_run w Hw s T key key fuel Hok ltac:(lia) Hf) as (r & Hrun & Hr). exists r. split; [exact Hrun|].
    destruct r as [x|]; [naive_solver|]. intros x Hx. specialize (Hr x Hx). lia.
  - intros start H0 Hoff. by apply (search_exceed_run w Hw s T).
  - intros a x b Hi. by apply (next_run w s T a x b).
Qed.

Definition demo_space : rt_aspace := two_areas 0x100 0x200 false 0x1000 0x1000 0x4000 0x1000.
Definition demo_space_tree : tree := Node Leaf 0x100 2 (Node Leaf 0x200 1 Leaf).

Lemma aspace_lookup_witness :
  aspace_ok 64 demo_space demo_space_tree /\ (exists r, _aspace_bst_search 64 10 0x1800 demo_space = Ok (r, demo_space) /\
    match r with Some x => x ∈ inorder demo_space_tree /\ start_of demo_space x <= 0x1800 < end_of demo_space x | None => forall x, x ∈ inorder demo_space_tree -> ~ start_of demo_space x <= 0x1800 < end_of demo_space x end) /\
  ASPACE_VAREA_NEXT 10 0x100 demo_space = Ok (Some 0x200, demo_space).
Proof.
  pose proof (proj1 find_free_occupied) as Hok. pose proof (aspace_lookup 64 10 demo_space demo_space_tree ltac:(done) Hok ltac:(cbn; lia)) as (_ & Hs & _ & Hn).
  split_and!; [exact Hok|by apply Hs|by apply (Hn [] 0x100 [0x200])].
Defined.

(** C39: a new area gets a range of its own.  When every area lies inside the limits of the
    hint and ends at a multiple of the alignment asked for, 2^[k] with [k] below 31, at which
    the limits begin; the limits begin above 0, end below the end of the address space and
    span less than half of it; and the preferred start with the alignment and the size does not pass its
    end (areas outside the limits can be overlapped: [find_free_inside]; so can those that
    are not aligned: [find_free_occupied]): [_varea_install] ends.  Either it gives the area an aligned
    start from which on nothing overlaps it (the preferred start, aligned, or one within
    the limits) and the area joins the tree at its place in the order of addresses, or it
    answers -RT_ENOSPC, changes nothing, and there is no room within the limits or the
    mandatory range is taken. *)
Theorem varea_install_free w s T k x a hint fuel :
  32 <= w -> aspace_ok w s T -> space_ok w s T k (limit_start hint) (limit_range_size hint) -> asks_align k (RtAspace.flags hint) -> vareas s !! x = Some a -> x ∉ inorder T ->
  0 < va_size a -> RtAspace.map_size hint = va_size a -> 0 <= prefer hint -> prefer hint + 2 ^ k + va_size a <= 2 ^ w ->
  Z.of_nat (length (inorder T)) < 2 ^ 31 - 3 -> (length (inorder T) < fuel)%nat ->
  exists va, found w s T k (limit_start hint) (limit_range_size hint) (va_size a) (prefer hint) (RtAspace.flags hint) va /\
    if va =? 0 then _varea_install w fuel x hint s = Ok (- RT_ENOSPC, s)
    else exists s' T' l1 l2, _varea_install w fuel x hint s = Ok (RtAspace.RT_EOK, s') /\ aspace_ok w s' T' /\ inorder T = l1 ++ l2 /\ inorder T' = l1 ++ x :: l2 /\
      vareas s' = <[x := {| va_start := va; va_size := va_size a |}]> (vareas s).
Proof. intros Hw. by apply varea_install_run. Qed.

Definition page_hint : rt_mm_va_hint := {| limit_start := 0x1000; limit_range_size := 0xf000; prefer := 0x1234; RtAspace.map_size := 0x1000; RtAspace.flags := Z.lor MMF_REQUEST_ALIGN 12 |}.
Lemma demo_space_ok : space_ok 64 demo_space demo_space_tree 12 0x1000 0xf000.
Proof.
  constructor; [done|done|by exists 1|]. intros x Hx. cbn in Hx. rewrite !elem_of_cons, elem_of_nil in Hx.
  destruct Hx as [->|[->|[] ] ]; (split_and!; [by vm_compute|by vm_compute|]); [by exists 2|by exists 5].
Qed.

Lemma varea_install_free_witness :
  space_ok 64 demo_space demo_space_tree 12 0x1000 0xf000 /\
  exists va, found 64 demo_space demo_space_tree 12 0x1000 0xf000 0x1000 0x1234 (RtAspace.flags page_hint) va /\
    if va =? 0 then _varea_install 64 10 0x300 page_hint demo_space = Ok (- RT_ENOSPC, demo_space)
    else exists s' T' l1 l2, _varea_install 64 10 0x300 page_hint demo_space = Ok (RtAspace.RT_EOK, s') /\ aspace_ok 64 s' T' /\ [0x100; 0x200] = l1 ++ l2 /\ inorder T' = l1 ++ 0x300 :: l2 /\
      vareas s' = <[0x300 := {| va_start := va; va_size := 0x1000 |}]> (vareas demo_space).
Proof.
  split; [exact demo_space_ok|].
  apply (varea_install_free 64 demo_space demo_space_tree 12 0x300 {| va_start := 0; va_size := 0x1000 |} page_hint 10); try done.
  - exact (proj1 find_free_occupied).
  - exact demo_space_ok.
  - apply (bool_decide_unpack _). reflexivity.
  - cbn. lia.
Defined.

(** C7: the page allocator hands out aligned blocks of free pages and gets them back.  The
    addresses have at least 33 bits, the largest block has at most 2^32 bytes, and PV_OFFSET
    is a multiple of it.  In a state that satisfies the invariant, with the allocated blocks
    [A]: an allocation of 2^[bits] pages, for an order [bits] below RT_PAGE_MAX_ORDER (a
    larger one is not checked and reads behind the lists: [RtPage.pages_alloc_bounds]),
    either returns the address of an aligned block whose pages were free, are
    not free any more and belong to no other block, with one reference, or it changes
    nothing and returns 0, and then no list it may use has a block that large.  Taking a
    reference through the address of any page of a block adds one to the count of the
    block, as long as the count fits in 32 bits and the block ends below page number 2^31.
    Freeing a block whose page record lies inside the array of records and whose address is
    mapped drops a reference; with the last one exactly its pages become
    free.  The invariant holds afterwards: blocks are aligned and apart, each is in the
    lists once, and two free buddies are merged. *)
Theorem page_allocator w shift max_order pv mpr_bytes sizeof_page v2p s F A :
  1 <= shift -> 1 <= max_order -> max_order - 1 + shift <= 32 -> 33 <= w -> (2 ^ (max_order - 1 + shift) | pv) -> pg_ok w shift max_order s F A ->
  (forall bits flags, 0 <= bits < max_order ->
    (exists s' p, rt_pages_alloc_ext w shift max_order pv bits flags s = Ok (page_to_addr w shift pv p, s') /\ allocated w shift max_order s F A bits p s') \/
    (rt_pages_alloc_ext w shift max_order pv bits flags s = Ok (0, s) /\ forall k, bits <= k < max_order ->
      F page_list_low k = [] /\ (_high_page_configured s = true -> Z.land flags PAGE_ANY_AVAILABLE <> 0 -> F page_list_high k = []))) /\
  (forall p l n, A !! p = Some l -> ref_cnt <$> mpr s !! p = Some n ->
    (forall x, inside x p l -> p + 2 ^ l <= 2 ^ 31 -> n + 1 < 2 ^ 32 ->
      exists s', rt_page_ref_inc w shift pv (page_to_addr w shift pv x) l s = Ok (tt, s') /\ pg_ok w shift max_order s' F A /\
        ref_cnt <$> mpr s' !! p = Some (n + 1) /\ forall q, q <> p -> mpr s' !! q = mpr s !! q) /\
    (p * sizeof_page < mpr_bytes -> v2p p <> 0 ->
      exists s', rt_pages_free w shift max_order pv mpr_bytes sizeof_page v2p (page_to_addr w shift pv p) l s = Ok (if n =? 1 then 1 else 0, s') /\
        (forall q, q <> p -> ref_cnt <$> mpr s' !! q = ref_cnt <$> mpr s !! q) /\ ref_cnt <$> mpr s' !! p = Some (n - 1) /\
        if n =? 1 then exists F', pg_ok w shift max_order s' F' (delete p A) /\ forall x, free_page max_order F' x <-> free_page max_order F x \/ inside x p l
        else pg_ok w shift max_order s' F A)).
Proof.
  intros Hs Ho Hso Hw Hpv Hok. split; [intros bits flags; by apply alloc_ext_run|]. intros p l n HA Hn. split.
  - intros x Hx Hp. by apply (ref_inc_run w shift max_order pv Hs Ho Hso Hw Hpv s F A).
  - by apply (page_free_run w shift max_order pv Hs Ho Hso Hw Hpv).
Qed.

(** One page of the four is taken. *)
Definition demo_alloc : Z * page_state := match rt_pages_alloc_ext 64 12 3 0 0 0 demo_pages with Ok r => r | _ => (0, demo_pages) end.

Lemma page_allocator_witness :
  pg_ok 64 12 3 demo_pages demo_free ∅ /\ demo_alloc.1 = 0x7000 /\
  exists F' A', pg_ok 64 12 3 demo_alloc.2 F' A' /\ A' !! 7 = Some 0 /\
    exists s' F'', rt_pages_free 64 12 3 0 0x10000 32 (fun _ => 1) (page_to_addr 64 12 0 7) 0 demo_alloc.2 = Ok (1, s') /\ pg_ok 64 12 3 s' F'' (delete 7 A').
Proof.
  assert ((2 ^ (3 - 1 + 12) | 0)) as H0 by (by exists 0). pose proof (page_allocator 64 12 3 0 0x10000 32 (fun _ => 1)) as H.
  destruct (H demo_pages demo_free ∅ ltac:(done) ltac:(done) ltac:(done) ltac:(done) H0 demo_pages_ok) as (Ha & _). split; [exact demo_pages_ok|]. split; [reflexivity|].
  destruct (Ha 0 0 ltac:(done)) as [(s' & p & Hrun & F' & Hok & _)|(Hrun & _)]; [|by vm_compute in Hrun].
  assert (demo_alloc = (page_to_addr 64 12 0 p, s')) as E by (unfold demo_alloc; by rewrite Hrun).
  assert (p = 7) as ->.
  { destruct (block_range 64 12 3 ltac:(done) ltac:(done) ltac:(done) ltac:(done) s' F' _ p 0 Hok (lookup_insert_eq _ _ _)) as (_ & _ & Hp). assert (addr_to_page 64 12 0 (page_to_addr 64 12 0 p) = p) as <- by (by apply (addr_page 64 12 3)).
    pose proof (f_equal fst E) as E1. cbn [fst] in E1. rewrite <- E1. by vm_compute. }
  rewrite E. cbn [snd]. exists F', (<[7 := 0]> ∅). split; [exact Hok|]. split; [apply lookup_insert_eq|].
  destruct (H s' F' _ ltac:(done) ltac:(done) ltac:(done) ltac:(done) H0 Hok) as (_ & Hb). apply (f_equal snd) in E. cbn [snd] in E.
  destruct (proj2 (Hb 7 0 1 (lookup_insert_eq _ _ _) ltac:(rewrite <- E; by vm_compute)) ltac:(done) ltac:(done)) as (s2 & Hfree & _ & _ & F2 & Hok2 & _).
  by exists s2, F2.
Defined.
