(* ===== verification/RtKernelProps.v ===== *)
(** * Properties of the RT-Thread kernel: scheduler, timers, objects *)
From S2P Require Import Prelude Outcome RtList RtKernel RtSched RtSchedFacts RtSchedRun RtObject RtObjectFacts RtTimer RtThread.
From S2P Require Import RtTimerStart RtTimerFacts.
#[local] Open Scope string_scope.
#[local] Open Scope list_scope.
#[local] Open Scope Z_scope.

(** C5: rt_schedule runs the most urgent thread.  In every state of a running system
    whose scheduler is not locked and that has a thread to run, for every number of
    priorities up to 256: the call returns, the invariant of lists, bit tables and thread
    states holds again, the thread then current is in state RUNNING, no ready thread has a
    smaller priority number, and current and ready threads together are those that were
    running or ready before: none is lost or duplicated. *)
Theorem rt_schedule_policy prio_max k q R c x :
  0 < prio_max <= 256 -> sys_inv prio_max k q R c x -> rt_scheduler_lock_nest k = 0 ->
  state_is RT_THREAD_RUNNING x = true \/ (exists p, 0 <= p < prio_max /\ q p <> []) ->
  exists k' q' R' c' x', rt_schedule prio_max k = Ok (tt, k') /\ sys_inv prio_max k' q' R' c' x' /\
    state_is RT_THREAD_RUNNING x' = true /\ (forall p, 0 <= p < current_priority x' -> q' p = []) /\
    c' :: ready prio_max q' ≡ₚ (if state_is RT_THREAD_RUNNING x then [c] else []) ++ ready prio_max q.
Proof. intros Hmax. by apply schedule_sys. Qed.

(** C24: yielding does not go round the threads of one priority.  Whatever the number of
    yields, the processor goes back and forth between the running thread and the first one
    of its queue: the rest of the queue stays as it is and never runs.  The flag that tells
    rt_schedule_insert_thread to put the thread at the end of the queue is cleared before
    the call. *)
Theorem rt_yield_starves prio_max n k q R c x t ts :
  0 < prio_max <= 256 -> sys_inv prio_max k q R c x -> rt_scheduler_lock_nest k = 0 ->
  state_is RT_THREAD_RUNNING x = true ->
  q (current_priority x) = t :: ts -> (forall j, 0 <= j < current_priority x -> q j = []) ->
  exists k' q' R' y, yield_times prio_max n k = Ok (tt, k') /\ sys_inv prio_max k' q' R' (if Nat.even n then c else t) y /\
    q' (current_priority x) = (if Nat.even n then t else c) :: ts.
Proof. intros Hmax. by apply yield_alternates. Qed.

(** C23: starting a timer (RT_TIMER_SKIP_LIST_LEVEL 1) keeps the list sorted.  Deadlines are
    counted without wrap-around; the code compares 32-bit ticks.  For a hard timer that is
    stopped or in the list, when no deadline is half the tick range away from the new one:
    the call returns RT_EOK, the timer's deadline is the current tick plus its setting,
    and it stands after all timers due before it or at the same tick and before all that
    are due later; the others keep their order. *)
Theorem rt_timer_start_sorted prio_max mask soft timer_thread k D ts R t ts' R' x o T :
  timers_inv k false D ts R -> detached t ts R ts' R' ->
  timers k !! t = Some x -> objects k !! OTimer t = Some o -> is_timer o -> soft && flag_set o RT_TIMER_FLAG_SOFT_TIMER = false ->
  rt_tick k = u32 T -> Forall (fun t' => near (T + tm_init_tick x) (D t')) ts' ->
  exists k', let d := T + tm_init_tick x in let D' := set_deadline D t d in
    rt_timer_start prio_max 1 mask soft timer_thread t k = Ok (RT_EOK, k') /\
    timers_inv k' false D' (filter (fun t' => D' t' <= d) ts' ++ t :: filter (fun t' => d < D' t') ts') R' /\
    timers k' = <[t := {x with timeout_tick := u32 d}]> (timers k) /\ timers_rest k k'.
Proof.
  intros Hinv Hdet Hx Ho Hty Hs HT Hn.
  destruct (timer_start_run prio_max mask soft timer_thread k D ts R t ts' R' x o T Hinv Hdet Hx Ho Hty Hs HT Hn) as (k' & E & Hinv' & Hti & _ & Hr).
  by exists k'.
Qed.

(** C10: the tick interrupt calls the functions of exactly the timers that are due, once
    each and in the order of their deadlines.  For active hard timers of the application
    whose functions do not touch timers, each deadline less than half the tick range ahead
    and at most [late] ticks past, and each periodic timer having a period of at least one
    tick, less than half the range, that with [late] is at most 2^31 (with a period of 0 the
    call does not end: [RtTimerFacts.zero_period_loops]):
    rt_timer_check returns, within one round more than there are timers; a periodic timer is
    started again at the current tick, one that is not stays out; all timers of the list
    are then due later, and the list is sorted. *)
Theorem rt_timer_check_runs_due prio_max mask soft timer_thread call P I T late k D ts R fuel :
  quiet call -> 0 <= late < half_tick ->
  timers_inv k false D ts R -> TmpHead false ∉ nodes ((TimerHead false 0, row0 <$> ts) :: R) ->
  (forall t, t ∈ ts -> exists x o, armed soft P I k t x o) -> rt_tick k = u32 T ->
  Forall (fun t => T - late <= D t < T + half_tick) ts -> (forall t, t ∈ ts -> period_ok P I late t) -> (length ts < fuel)%nat ->
  let due := filter (fun t => D t <= T) ts in let s := foldl (fire P I T) (D, filter (fun t => T < D t) ts) due in
  exists k', rt_timer_check prio_max 1 mask soft timer_thread call fuel k = Ok (tt, k') /\ timeouts k' = rev due ++ timeouts k /\
    timers_inv k' false s.1 s.2 ((TmpHead false, []) :: (due ≫= left_out P) ++ R) /\ Forall (ahead T s.1) s.2.
Proof. intros Hq Hl. by apply timer_check_run. Qed.

(** C25: an object that has been initialised is found by its name.  While the scheduler is
    not running or locked: rt_object_init with a class the configuration has returns, and
    afterwards rt_object_find returns this object for every name that agrees with the given
    one in its first RT_NAME_MAX characters, and what it returned before for every other
    name. *)
Theorem rt_object_init_find prio_max cfg NAME_MAX k type i os R o x name name' v :
  rt_object_get_information cfg type = Some i -> registry k i os R -> chars name -> chars name' -> no_switch k ->
  objects k !! o = Some x -> nx (links k) (ObjNode o) = Some v -> ObjNode o ∉ nodes ((ObjHead i, ObjNode <$> os) :: R) ->
  exists k' r, rt_object_init prio_max cfg NAME_MAX o type name k = Ok (tt, k') /\ registry k' i (o :: os) R /\
    rt_object_find prio_max cfg NAME_MAX (Some name') type k = Ok (r, k) /\
    rt_object_find prio_max cfg NAME_MAX (Some name') type k' =
      Ok (if decide (cname NAME_MAX name = cname NAME_MAX name') then Some o else r, k').
Proof.
  intros Hi Hreg Hn Hn' Hs Ho Hv Hout.
  destruct (object_init_run prio_max cfg NAME_MAX k type i os R o x name v Hi Hreg Hn Hs Ho Hv Hout) as (k' & E & Hreg' & Hs' & Hob).
  exists k', (List.find (named NAME_MAX k name') os). split; [exact E|]. split; [exact Hreg'|]. split; [by eapply object_find_run|].
  rewrite (object_find_run prio_max cfg NAME_MAX k' type i (o :: os) R name' Hi Hreg' Hn' Hs').
  assert (o ∉ os) as Hoo.
  { intros Hin. apply Hout. unfold nodes. apply list_elem_of_bind. exists (ObjHead i, ObjNode <$> os). split; [right; by apply list_elem_of_fmap_2|by left]. }
  erewrite (find_after_init NAME_MAX k k' o x _ name name' os Hoo); [done| |exact Ho|exact Hob]. done.
Qed.

(** ** A system of three threads of one priority *)

Definition demo_thread (st : Z) : rt_thread :=
  {| th_entry := 0; th_parameter := 0; RtKernel.stack_addr := 0; RtKernel.stack_size := 0; stat := st; current_priority := 1; init_priority := 1;
     number := 0; number_mask := 2; high_mask := 0; th_init_tick := 5; remaining_tick := 5; th_error := 0; thread_timer := 0; cleanup := 0;
     pending_object := None; event_set := 0; event_info := 0 |}.

Definition demo_start : kernel :=
  {| links := ∅; objects := ∅; threads := list_to_map [(1, demo_thread 3); (2, demo_thread 4); (3, demo_thread 4)]; timers := ∅;
     rt_thread_ready_priority_group := 0; rt_thread_ready_table := []; rt_scheduler_lock_nest := 0;
     rt_current_thread := Some 1; rt_current_priority := 1; context_switches := []; timeouts := []; rt_tick := 0; random_nr := 0; soft_timer_status := 1; rt_errno := 0;
     semaphores := ∅; mutexes := ∅; events := ∅; mailboxes := ∅; messagequeues := ∅; mempools := ∅; block_words := ∅ |}.

Definition demo_run : K unit :=
  rt_system_scheduler_init 4 ;;
  iter_list (fun t => on_list (rt_list_init (TList t))) [1; 2; 3] ;;
  iter_list (rt_schedule_insert_thread 4) [3; 2].

Definition demo : kernel := match demo_run demo_start with Ok (_, k) => k | _ => demo_start end.
Definition demo_queue (p : Z) : list Z := if p =? 1 then [2; 3] else [].

Lemma demo_inv : sys_inv 4 demo demo_queue [(TList 1, [])] 1 (demo_thread 3).
Proof.
  assert (masks_ok 4 (demo_thread 3)) as Hm by (split; cbn; [lia|done]).
  split; [|vm_compute; reflexivity|vm_compute; reflexivity|exact Hm| |by eexists].
  2:{ intros p Hp. unfold demo_queue. destruct (p =? 1); [|apply not_elem_of_nil]. rewrite !elem_of_cons, elem_of_nil. lia. }
  assert (forall p, 0 <= p < 4 -> p = 0 \/ p = 1 \/ p = 2 \/ p = 3) as Hcases by lia.
  split.
  - split; [repeat constructor; vm_compute; reflexivity|]. apply (bool_decide_unpack _). vm_compute. exact I.
  - intros p t Hp Ht. unfold demo_queue in Ht. destruct (Z.eqb_spec p 1) as [->|]; [|by apply not_elem_of_nil in Ht].
    exists (demo_thread 2). split; [|split; [split; cbn; [lia|done]|done]].
    rewrite !elem_of_cons, elem_of_nil in Ht. destruct Ht as [-> | [-> | []]]; vm_compute; reflexivity.
  - assert (rt_thread_ready_priority_group demo = 2) as Hg by (vm_compute; reflexivity).
    assert (forall p, 4 <= p -> Z.testbit 2 p = false) as Hhigh by (intros p Hp; apply (testbit_high 3); unfold in_u; lia).
    split; [rewrite Hg; unfold in_u; lia|cbn; rewrite Hg; exact Hhigh|]. intros p Hp. unfold ready_bit. cbn. rewrite Hg. apply Hhigh. lia.
  - intros p Hp. destruct (Hcases p Hp) as [-> | [-> | [-> | ->]]]; vm_compute; reflexivity.
Qed.

Lemma rt_schedule_policy_witness :
  exists k' q' R' c' x', rt_schedule 4 demo = Ok (tt, k') /\ sys_inv 4 k' q' R' c' x' /\ c' :: ready 4 q' ≡ₚ [1; 2; 3].
Proof.
  destruct (rt_schedule_policy 4 demo demo_queue _ 1 _ ltac:(lia) demo_inv) as (k' & q' & R' & c' & x' & E & Hs & _ & _ & HP);
    [vm_compute; reflexivity|left; reflexivity|].
  exists k', q', R', c', x'. split; [exact E|]. split; [exact Hs|exact HP].
Defined.

Lemma rt_yield_starves_witness :
  exists k' q' R' y, yield_times 4 5 demo = Ok (tt, k') /\ sys_inv 4 k' q' R' 2 y /\ q' 1 = [1; 3].
Proof.
  destruct (rt_yield_starves 4 5 demo demo_queue _ 1 _ 2 [3] ltac:(lia) demo_inv) as (k' & q' & R' & y & E & Hs & Hq);
    [vm_compute; reflexivity|reflexivity|reflexivity| |].
  - intros j Hj. cbn in Hj. unfold demo_queue. destruct (Z.eqb_spec j 1); [lia|reflexivity].
  - exists k', q', R', y. split; [exact E|]. split; [exact Hs|exact Hq].
Defined.

(** ** Three timers *)

Definition demo_timer (init due : Z) : rt_timer := {| timeout_func := 7; tm_parameter := 0; tm_init_tick := init; timeout_tick := due |}.
Definition timer_object (flag : Z) : rt_object := {| ob_name := []; ob_type := 0x8a; ob_flag := flag |}.

(** At tick 100: timer 10, periodic, was due at 99, timer 11 is due at 120, timer 12 is
    stopped. *)
Definition demo_timers_start : kernel :=
  {| links := ∅; objects := list_to_map [(OTimer 10, timer_object 3); (OTimer 11, timer_object 1); (OTimer 12, timer_object 0)]; threads := ∅;
     timers := list_to_map [(10, demo_timer 30 99); (11, demo_timer 40 120); (12, demo_timer 5 0)];
     rt_thread_ready_priority_group := 0; rt_thread_ready_table := []; rt_scheduler_lock_nest := 0;
     rt_current_thread := None; rt_current_priority := 0; context_switches := []; timeouts := []; rt_tick := 100; random_nr := 0; soft_timer_status := 1; rt_errno := 0;
     semaphores := ∅; mutexes := ∅; events := ∅; mailboxes := ∅; messagequeues := ∅; mempools := ∅; block_words := ∅ |}.

Definition demo_timers_run : K unit :=
  rt_system_timer_init 1 ;;
  iter_list (fun t => on_list (rt_list_init (TimerRow t 0))) [10; 11; 12] ;;
  on_list (rt_list_insert_before (TimerHead false 0) (TimerRow 10 0)) ;;
  on_list (rt_list_insert_before (TimerHead false 0) (TimerRow 11 0)).

Definition demo_timers : kernel := match demo_timers_run demo_timers_start with Ok (_, k) => k | _ => demo_timers_start end.
Definition demo_deadline (t : Z) : Z := if t =? 10 then 99 else 120.

Lemma demo_timers_inv : timers_inv demo_timers false demo_deadline [10; 11] [(row0 12, [])].
Proof.
  split.
  - split; [repeat constructor; vm_compute; reflexivity|]. apply (bool_decide_unpack _). vm_compute. exact Logic.I.
  - intros t Ht. rewrite !elem_of_cons, elem_of_nil in Ht. destruct Ht as [-> | [-> | []]]; eexists; split; vm_compute; reflexivity.
  - repeat constructor. vm_compute. discriminate.
Qed.

Lemma rt_timer_start_sorted_witness :
  exists k', rt_timer_start 32 1 3 false 0 12 demo_timers = Ok (RT_EOK, k') /\
    timers_inv k' false (set_deadline demo_deadline 12 105) [10; 12; 11] [].
Proof.
  destruct (rt_timer_start_sorted 32 3 false 0 demo_timers demo_deadline [10; 11] [(row0 12, [])] 12 [10; 11] [] (demo_timer 5 0) (timer_object 0) 100 demo_timers_inv)
    as (k' & E & Hinv & _); [right; split; reflexivity|vm_compute; reflexivity|vm_compute; reflexivity|vm_compute; reflexivity|reflexivity|vm_compute; reflexivity| |].
  - repeat constructor; vm_compute; discriminate.
  - exists k'. split; [exact E|exact Hinv].
Defined.

Lemma rt_timer_check_runs_due_witness :
  exists k', rt_timer_check 32 1 3 false 0 (fun _ _ => mret tt) 3 demo_timers = Ok (tt, k') /\ timeouts k' = [10] /\
    timers_inv k' false (set_deadline demo_deadline 10 130) [11; 10] [(TmpHead false, []); (row0 12, [])].
Proof.
  destruct (rt_timer_check_runs_due 32 3 false 0 (fun _ _ => mret tt) (fun t => t =? 10) (fun t => if t =? 10 then 30 else 40) 100 10
    demo_timers demo_deadline [10; 11] [(row0 12, [])] 3) as (k' & E & Hlog & Hinv & _); [| |exact demo_timers_inv| | |vm_compute; reflexivity| | |cbn; lia|].
  - intros f p k. exists k. split; [reflexivity|by split].
  - split; [lia|vm_compute; reflexivity].
  - apply (bool_decide_unpack _). vm_compute. exact Logic.I.
  - intros t Ht. rewrite !elem_of_cons, elem_of_nil in Ht. destruct Ht as [-> | [-> | []]]; do 2 eexists; (split; [vm_compute; reflexivity|vm_compute; reflexivity|vm_compute; discriminate| | | | | ]; reflexivity).
  - repeat constructor; vm_compute; try discriminate; reflexivity.
  - intros t _. unfold period_ok. cbn. intros ->. unfold half_tick, RT_TICK_MAX. change (0xffffffff / 2) with (2 ^ 31 - 1). lia.
  - exists k'. split; [exact E|]. split; [exact Hlog|exact Hinv].
Defined.

(** ** Two threads as objects *)

Definition demo_config : rt_config :=
  {| using_semaphore := true; using_mutex := true; using_event := false; using_mailbox := false; using_messagequeue := false; using_memheap := false;
     using_mempool := false; using_device := true; using_module := false; using_heap := true; using_smart := false |}.

Definition demo_objects : kernel :=
  let start := {demo_timers_start with links := list_to_map [(ObjHead 0, (ObjHead 0, ObjHead 0)); (ObjNode (OThread 1), (ObjHead 0, ObjHead 0)); (ObjNode (OThread 2), (ObjHead 0, ObjHead 0))];
    objects := list_to_map [(OThread 1, {| ob_name := [116; 49; 0; 0]; ob_type := 0x81; ob_flag := 0 |}); (OThread 2, {| ob_name := []; ob_type := 0; ob_flag := 0 |})] } in
  match on_list (rt_list_insert_after (ObjHead 0) (ObjNode (OThread 1))) start with Ok (_, k) => k | _ => start end.

Lemma demo_registry : registry demo_objects 0 [OThread 1] [].
Proof.
  split.
  - split; [repeat constructor; vm_compute; reflexivity|]. apply (bool_decide_unpack _). vm_compute. exact Logic.I.
  - intros o ->%list_elem_of_singleton. eexists. split; [vm_compute; reflexivity|].
    repeat constructor; vm_compute; discriminate || reflexivity.
Qed.

Lemma rt_object_init_find_witness :
  exists k', rt_object_init 32 demo_config 4 (OThread 2) RT_Object_Class_Thread [116; 50] demo_objects = Ok (tt, k') /\
    rt_object_find 32 demo_config 4 (Some [116; 50]) RT_Object_Class_Thread k' = Ok (Some (OThread 2), k').
Proof.
  assert (chars [116; 50]) as Hc by (repeat constructor; vm_compute; discriminate || reflexivity).
  destruct (rt_object_init_find 32 demo_config 4 demo_objects RT_Object_Class_Thread 0 [OThread 1] [] (OThread 2)
    {| ob_name := []; ob_type := 0; ob_flag := 0 |} [116; 50] [116; 50] (ObjHead 0) eq_refl demo_registry Hc Hc) as (k' & r & E & _ & _ & F);
    [|vm_compute; reflexivity|vm_compute; reflexivity| |].
  - split; [vm_compute; split; [discriminate|reflexivity]|left; vm_compute; reflexivity].
  - apply (bool_decide_unpack _). vm_compute. exact Logic.I.
  - exists k'. split; [exact E|exact F].
Defined.
