(* ===== verification/RtIpcProps.v ===== *)
(** * Properties of RT-Thread's IPC: semaphores, mutexes, mailboxes, message queues, events *)
From S2P Require Import Prelude Outcome RtList RtKernel RtSched RtObject RtTimer RtThread RtTimerStart RtTimerFacts.
From S2P Require Import RtSchedFacts RtSchedRun RtWorld RtIpc RtWorldOps RtWait RtWorldSched RtBlock.
From S2P Require Import RtSem RtSemEventFacts RtMutex RtEvent RtMailbox RtMailFacts RtMqueue RtMqFacts RtMempool RtMempoolFacts RtIpcDemo RtMutexFacts.
#[local] Open Scope string_scope.
#[local] Open Scope list_scope.
#[local] Open Scope Z_scope.

(** What a call that may wait needs: the scheduler is not locked, the flag is one of the
    three kinds of waiting, some other thread is ready (the idle thread always is), and
    the deadlines in force are near enough to be compared in 32 bits. *)
Record may_wait (prio_max : Z) (k : kernel) (s : world) (x : rt_thread) (timeout sflag : Z) (T : Z) : Prop := {
  mw_lock : rt_scheduler_lock_nest k = 0;
  mw_flag : suspend_flag_ok sflag;
  mw_ready : exists p, 0 <= p < prio_max /\ wq s p <> [];
  mw_tick : rt_tick k = u32 T;
  mw_time : timeout <> 0 -> wait_time_ok T (stop_timer (thread_timer x) s) timeout;
}.

(** C11: taking a semaphore.  A thread gets a semaphore whose value is positive and the
    value goes down by one; with the value 0 and no time to wait, the call fails with
    -RT_ETIMEOUT and changes nothing; otherwise the thread joins the semaphore's list, at
    the end or by its priority, its timer is armed if the time is limited, and the most
    urgent of the ready threads runs. *)
Theorem rt_sem_take_spec prio_max mask soft timer_thread k s c x i v flag timeout sflag T :
  0 < prio_max <= 256 -> runs prio_max k s c x -> sem_at k i v flag -> SuspendHead i ∈ wheads s -> may_wait prio_max k s x timeout sflag T ->
  let take := rt_sem_take_ prio_max 1 mask soft timer_thread i timeout sflag k in
  if 0 <? v then take = Ok (Some RT_EOK, with_value i (v - 1) k) /\ sem_at (with_value i (v - 1) k) i (v - 1) flag
  else if timeout =? 0 then take = Ok (Some (- RT_ETIMEOUT), k)
  else exists k' s' c' x', take = Ok (None, k') /\ runs prio_max k' s' c' x' /\
    waits_in prio_max k s c x (SuspendHead i) flag T timeout sflag k' s' c' x' /\ sem_at k' i 0 flag.
Proof.
  intros Hmax Hr Hs Hh [Hlock Hsf (p & Hp & Hq) HT Hto]. cbv zeta. pose proof (sa_range _ _ _ _ Hs) as Hv. destruct (Z.ltb_spec 0 v) as [Hpos|Hz].
  - split; [by eapply sem_take_available|]. eapply sem_at_value; [exact Hs|lia].
  - assert (v = 0) as -> by lia. destruct (Z.eqb_spec timeout 0) as [->|Hne]; [by eapply sem_take_empty|].
    destruct (sem_take_blocks prio_max mask soft timer_thread Hmax k s c x i flag timeout sflag T p Hr Hs Hh Hlock Hsf Hp Hq HT (Hto Hne)) as (k' & s' & c' & x' & E & Hr' & Hw).
    exists k', s', c', x'. split; [done|]. split; [done|]. split; [done|]. eapply sem_at_frame; [apply Hw|exact Hs].
Qed.

(** C13: releasing a semaphore.  While a thread waits, the first one of the list gets what
    is released: it becomes ready and its call returns RT_EOK, the value stays as it is,
    and the most urgent thread runs.  While none waits, the value goes up by one, or the
    call fails with -RT_EFULL at its largest value. *)
Theorem rt_sem_release_spec prio_max k s c x i v flag :
  0 < prio_max <= 256 -> runs prio_max k s c x -> sem_at k i v flag -> SuspendHead i ∈ wheads s -> rt_scheduler_lock_nest k = 0 ->
  match wwait s (SuspendHead i) with
  | [] => rt_sem_release prio_max 1 i k = if v <? RT_SEM_VALUE_MAX then Ok (RT_EOK, with_value i (v + 1) k) else Ok (- RT_EFULL, k)
  | t :: ws => exists k' s' c' x', rt_sem_release prio_max 1 i k = Ok (RT_EOK, k') /\ runs prio_max k' s' c' x' /\
      woken prio_max k s c (SuspendHead i) t ws k' s' c' x' /\ sem_at k' i v flag /\ rt_sem_take_return t k' = Ok (RT_EOK, k')
  end.
Proof.
  intros Hmax Hr Hs Hh Hlock. destruct (wwait s (SuspendHead i)) as [|t ws] eqn:Hws; [by eapply sem_release_counts|].
  destruct (sem_release_wakes prio_max Hmax k s c x i v flag t ws Hr Hs Hh Hws Hlock) as (k' & s' & c' & x' & E & Hr' & Hw).
  exists k', s', c', x'. split; [done|]. split; [done|]. split; [done|]. split; [eapply sem_at_frame; [apply Hw|exact Hs]|].
  destruct (wo_error _ _ _ _ _ _ _ _ _ _ _ Hw) as (z & Hz & He). unfold rt_sem_take_return. step (by apply thread_run). by rewrite He.
Qed.

(** C9: a mailbox is a bounded queue of words.  An operation that can proceed does what
    the operation of the queue does and answers RT_EOK; if a thread waits for the contrary
    operation, the first one becomes ready.  An operation that cannot proceed fails
    without an effect when it may not wait, with -RT_EFULL or -RT_ETIMEOUT; otherwise the
    thread joins the list of senders or of receivers and the mailbox stays as it is. *)
Theorem mailbox_refines_queue prio_max mask soft timer_thread k s c x i msgs size flag op timeout sflag T :
  0 < prio_max <= 256 -> runs prio_max k s c x -> mailbox_at k i msgs size flag ->
  SuspendHead i ∈ wheads s -> SenderHead i ∈ wheads s -> may_wait prio_max k s x timeout sflag T ->
  let run := mail_run prio_max mask soft timer_thread i op timeout sflag k in
  match mail_spec op size msgs with
  | Some (msgs', ans) => exists b k' s' c' x', run = Ok (Returns (RT_EOK, ans), k') /\ runs prio_max k' s' c' x' /\
      received prio_max (with_mailbox i b k) s c x (mail_wakes op i) k' s' c' x' /\ mailbox_at k' i msgs' size flag
  | None =>
      if (timeout =? 0) || is_urgent op then run = Ok (Returns (mail_error op, None), k)
      else exists k' s' c' x', run = Ok (Blocked (if 0 <? timeout then rt_tick k else 0), k') /\ runs prio_max k' s' c' x' /\
        waits_in prio_max k s c x (mail_waits op i) flag T timeout sflag k' s' c' x' /\ mailbox_at k' i msgs size flag
  end.
Proof.
  intros Hmax Hr [(b & Hb & Hh & <-) Ho] Hin1 Hin2 [Hlock Hsf (p & Hp & Hq) HT Hto]. cbv zeta.
  destruct (mail_spec op (mb_size b) msgs) as [[msgs' ans]|] eqn:Es.
  - eapply mail_proceeds; try done. by destruct op.
  - destruct (Z.eqb_spec timeout 0) as [->|Hne]; cbn [orb].
    + eapply mail_refused; try done. by left.
    + destruct (is_urgent op) eqn:Eu; [eapply mail_refused; try done; by right|].
      eapply mail_waits_run; try done; [by destruct op|by apply Hto].
Qed.

(** C8: a message queue is a bounded queue of blocks of bytes.  For messages that fit and
    buffers that are large enough: an operation that can proceed does what the operation
    of the queue does and answers RT_EOK, the message received being the bytes that were
    sent up to the smaller of the two sizes; blocks are neither lost nor doubled; the
    first thread that waits for the contrary operation becomes ready.  An operation that
    cannot proceed fails without an effect when it may not wait, otherwise the thread
    joins the list of senders or of receivers and the queue stays as it is. *)
Theorem message_queue_refines_queue prio_max mask soft timer_thread k s c x i max msgs n flag op timeout sflag T :
  0 < prio_max <= 256 -> runs prio_max k s c x -> mq_at k i max msgs n flag -> mq_args max op ->
  SuspendHead i ∈ wheads s -> SenderHead i ∈ wheads s -> may_wait prio_max k s x timeout sflag T ->
  let run := mq_run prio_max mask soft timer_thread i op timeout sflag k in
  if mq_stuck op msgs n then
    if (timeout =? 0) || mq_is_urgent op then run = Ok (Returns (mq_error op, None), k)
    else exists k' s' c' x', run = Ok (Blocked (if 0 <? timeout then rt_tick k else 0), k') /\ runs prio_max k' s' c' x' /\
      waits_in prio_max k s c x (mq_waits op i) flag T timeout sflag k' s' c' x' /\ mq_at k' i max msgs n flag
  else exists msgs' n' ans q k' s' c' x', mq_does max op msgs n msgs' n' ans /\ run = Ok (Returns (RT_EOK, ans), k') /\
    runs prio_max k' s' c' x' /\ received prio_max (with_mq i q k) s c x (mq_wakes op i) k' s' c' x' /\ mq_at k' i max msgs' n' flag.
Proof.
  intros Hmax Hr Hat Hargs Hin1 Hin2 [Hlock Hsf (p & Hp & Hq) HT Hto]. cbv zeta. destruct (mq_stuck op msgs n) eqn:Es.
  - destruct (Z.eqb_spec timeout 0) as [->|Hne]; cbn [orb].
    + eapply mq_refused; try done. by left.
    + destruct (mq_is_urgent op) eqn:Eu; [eapply mq_refused; try done; by right|].
      eapply mq_waits_run; try done; [by destruct op|by apply Hto].
  - eapply mq_proceeds; try done. by destruct op.
Qed.

(** C12: sending an event serves the waiting threads in their order.  Each thread whose
    condition holds (all of its events, or any of them) takes what it waited for and
    clears it for those behind it if it asked for that; exactly these threads become
    ready, with RT_EOK and the events they received, the others go on waiting in their
    order, the walk ends, and if a thread was served the most urgent thread runs. *)
Theorem rt_event_send_spec prio_max k s c x e set0 set flag :
  0 < prio_max <= 256 -> runs prio_max k s c x -> ipc_at k e RT_Object_Class_Event flag -> events k !! e = Some {| ev_set := set0 |} ->
  SuspendHead e ∈ wheads s -> rt_scheduler_lock_nest k = 0 -> set <> 0 ->
  (forall t, t ∈ wwait s (SuspendHead e) -> event_wait_ok (threads k) t) ->
  exists k' s' c' x', rt_event_send prio_max 1 e set k = Ok (RT_EOK, k') /\ runs prio_max k' s' c' x' /\
    let '(set', took, kept) := event_walk (threads k) (Z.lor set0 set) (wwait s (SuspendHead e)) in
    event_sent prio_max k s c e set' took kept k' s' c' x' /\ took.*1 ++ kept ≡ₚ wwait s (SuspendHead e).
Proof.
  intros Hmax Hr Ho He Hh Hlock Hset Hok. destruct (event_send_run prio_max Hmax k s c x e set0 set flag Hr Ho He Hh Hlock Hset Hok) as (k' & s' & c' & x' & E & Hr' & H).
  exists k', s', c', x'. split; [done|]. split; [done|]. pose proof (event_walk_perm (threads k) (Z.lor set0 set) _ Hok) as HP.
  destruct (event_walk _ _ _) as [[set' took] kept]. done.
Qed.

(** ** The properties at the small system *)

#[local] Opaque ipc_demo ipc_waiting ipc_events.

Lemma demo_may_wait timeout : timeout < half_tick -> may_wait 4 ipc_demo ipc_world (thread_of ipc_demo 1) timeout RT_UNINTERRUPTIBLE 0xfffffffe.
Proof.
  intros Ht. split; [vm_compute; reflexivity|by right; right|exists 1; split; [lia|done]|vm_compute; reflexivity|]. intros Hne.
  assert (stop_timer (thread_timer (thread_of ipc_demo 1)) ipc_world = ipc_world) as ->.
  { unfold stop_timer. change (wactive ipc_world) with (@nil Z). rewrite decide_False; [done|apply not_elem_of_nil]. }
  unfold wait_time_ok. destruct (decide (timeout < 0)); [by left|right]. split; [lia|]. change (wactive ipc_world) with (@nil Z). by constructor.
Qed.

Lemma demo_object i class flag o : objects ipc_demo !! OOther i = Some o ->
  Z.land (ob_type o) (u8 (Z.lnot RT_Object_Class_Static)) = class -> ob_flag o = flag -> ipc_flag_ok flag -> ipc_at ipc_demo i class flag.
Proof. intros H1 H2 H3 H4. exists o. exact (conj H1 (conj H2 (conj H3 H4))). Qed.

Lemma demo_head h : bool_decide (h ∈ ipc_heads) = true -> h ∈ ipc_heads.
Proof. by intros H%bool_decide_eq_true. Qed.

Lemma demo_sem : sem_at ipc_demo 108 0 RT_IPC_FLAG_FIFO.
Proof.
  split; [vm_compute; reflexivity|vm_compute; split; discriminate|].
  eapply demo_object; [vm_compute; reflexivity|vm_compute; reflexivity|reflexivity|by left].
Qed.

Lemma rt_sem_take_spec_witness :
  exists k' s' c' x', rt_sem_take_ 4 1 3 false 0 108 5 RT_UNINTERRUPTIBLE ipc_demo = Ok (None, k') /\ runs 4 k' s' c' x' /\ wwait s' (SuspendHead 108) = [1].
Proof.
  pose proof (rt_sem_take_spec 4 3 false 0 ipc_demo ipc_world 1 _ 108 0 RT_IPC_FLAG_FIFO 5 RT_UNINTERRUPTIBLE 0xfffffffe ltac:(lia) ipc_demo_runs demo_sem
    ltac:(apply demo_head; reflexivity) (demo_may_wait 5 eq_refl)) as H. cbv zeta in H. change (0 <? 0) with false in H. change (5 =? 0) with false in H. cbv iota in H.
  destruct H as (k' & s' & c' & x' & E & Hr & [(q' & ->) _ _ _ _] & _). eexists k', _, c', x'. split; [exact E|]. split; [exact Hr|].
  match goal with |- wwait {blocked ?k ?c ?x ?h ?f ?T ?t ?s with wq := _} _ = _ => destruct (blocked_fields k c x h f T t s) as (_ & _ & Ew & _) end.
  cbn [wwait] in *. etransitivity; [exact (f_equal (fun w => w (SuspendHead 108)) Ew)|]. apply wupd_same.
Defined.

Lemma waiting_sem : sem_at ipc_waiting 108 0 RT_IPC_FLAG_FIFO.
Proof.
  split; [vm_compute; reflexivity|vm_compute; split; discriminate|]. eexists. split; [vm_compute; reflexivity|]. split; [vm_compute; reflexivity|]. split; [reflexivity|by left].
Qed.

Lemma rt_sem_release_spec_witness :
  exists k' s' c' x', rt_sem_release 4 1 108 ipc_waiting = Ok (RT_EOK, k') /\ runs 4 k' s' c' x' /\ rt_sem_take_return 1 k' = Ok (RT_EOK, k').
Proof.
  pose proof (rt_sem_release_spec 4 ipc_waiting ipc_waiting_world 3 _ 108 0 RT_IPC_FLAG_FIFO ltac:(lia) ipc_waiting_runs waiting_sem ltac:(apply demo_head; reflexivity) ltac:(vm_compute; reflexivity)) as H.
  change (wwait ipc_waiting_world (SuspendHead 108)) with [1] in H. destruct H as (k' & s' & c' & x' & E & Hr & _ & _ & Hret).
  exists k', s', c', x'. split; [exact E|]. split; [exact Hr|exact Hret].
Defined.

Lemma demo_mailbox : mailbox_at ipc_demo 111 [] 2 RT_IPC_FLAG_PRIO.
Proof.
  split.
  - eexists. split; [vm_compute; reflexivity|]. split; [|reflexivity]. split; [split; [reflexivity|discriminate]|discriminate|split; [discriminate|reflexivity]|reflexivity|reflexivity|discriminate|intros j v Hj; by rewrite lookup_nil in Hj].
  - eapply demo_object; [vm_compute; reflexivity|vm_compute; reflexivity|reflexivity|by right].
Qed.

Lemma mailbox_refines_queue_witness :
  exists k' s' c' x', mail_run 4 3 false 0 111 (Send 7) 0 RT_UNINTERRUPTIBLE ipc_demo = Ok (Returns (RT_EOK, None), k') /\ runs 4 k' s' c' x' /\
    mailbox_at k' 111 [7] 2 RT_IPC_FLAG_PRIO.
Proof.
  pose proof (mailbox_refines_queue 4 3 false 0 ipc_demo ipc_world 1 _ 111 [] 2 RT_IPC_FLAG_PRIO (Send 7) 0 RT_UNINTERRUPTIBLE 0xfffffffe ltac:(lia) ipc_demo_runs demo_mailbox
    ltac:(apply demo_head; reflexivity) ltac:(apply demo_head; reflexivity) (demo_may_wait 0 eq_refl)) as H. cbv zeta in H. change (mail_spec (Send 7) 2 []) with (Some ([7], @None Z)) in H. cbv iota in H.
  destruct H as (b & k' & s' & c' & x' & E & Hr & _ & Hat). exists k', s', c', x'. split; [exact E|]. split; [exact Hr|exact Hat].
Defined.

Lemma demo_queue_at : mq_at ipc_demo 112 3 [] 2 RT_IPC_FLAG_PRIO.
Proof.
  split.
  - eexists. split; [vm_compute; reflexivity|]. split; [|reflexivity]. exists [], [1; 0], [[0; 0; 0; 0]; [0; 0; 0; 0]]. split; [|reflexivity].
    split; try reflexivity; try (cbn; lia).
    + apply msg_list_nil.
    + apply msg_list_cons; [|reflexivity]. apply msg_list_cons; [apply msg_list_nil|reflexivity].
    + apply (bool_decide_unpack _). vm_compute. exact Logic.I.
    + repeat constructor; vm_compute; discriminate.
  - eapply demo_object; [vm_compute; reflexivity|vm_compute; reflexivity|reflexivity|by right].
Qed.

Lemma message_queue_refines_queue_witness :
  exists d k' s' c' x', mq_run 4 3 false 0 112 (MqSend [1; 2; 3] 3) 0 RT_UNINTERRUPTIBLE ipc_demo = Ok (Returns (RT_EOK, None), k') /\ runs 4 k' s' c' x' /\
    mq_at k' 112 3 [d] 1 RT_IPC_FLAG_PRIO /\ take 3 d = [1; 2; 3].
Proof.
  pose proof (message_queue_refines_queue 4 3 false 0 ipc_demo ipc_world 1 _ 112 3 [] 2 RT_IPC_FLAG_PRIO (MqSend [1; 2; 3] 3) 0 RT_UNINTERRUPTIBLE 0xfffffffe ltac:(lia) ipc_demo_runs
    demo_queue_at ltac:(vm_compute; split; [split; [reflexivity|discriminate]|discriminate]) ltac:(apply demo_head; reflexivity) ltac:(apply demo_head; reflexivity) (demo_may_wait 0 eq_refl)) as H. cbv zeta in H.
  change (mq_stuck (MqSend [1; 2; 3] 3) [] 2) with false in H. cbv iota in H.
  destruct H as (msgs' & n' & ans & q & k' & s' & c' & x' & Hd & E & Hr & _ & Hat). inversion Hd as [buffer size d msgs n Hc| |]; subst.
  exists d, k', s', c', x'. split; [exact E|]. split; [exact Hr|]. split; [exact Hat|exact Hc].
Defined.

Lemma rt_event_send_spec_witness :
  exists k' s' c' x', rt_event_send 4 1 110 3 ipc_events = Ok (RT_EOK, k') /\ runs 4 k' s' c' x' /\
    event_sent 4 ipc_events ipc_events_world 2 110 0 [(1, 3)] [3] k' s' c' x'.
Proof.
  assert (event_walk (threads ipc_events) (Z.lor 0 3) [1; 3] = (0, [(1, 3)], [3])) as Hwalk by (vm_compute; reflexivity).
  pose proof (rt_event_send_spec 4 ipc_events ipc_events_world 2 (thread_of ipc_events 2) 110 0 3 RT_IPC_FLAG_FIFO ltac:(lia) ipc_events_runs) as H.
  change (wwait ipc_events_world (SuspendHead 110)) with [1; 3] in H. rewrite Hwalk in H.
  destruct H as (k' & s' & c' & x' & E & Hr & [Hs _]).
  - eexists. split; [vm_compute; reflexivity|]. split; [vm_compute; reflexivity|]. split; [reflexivity|by left].
  - vm_compute. reflexivity.
  - apply demo_head. reflexivity.
  - vm_compute. reflexivity.
  - discriminate.
  - intros t Ht. rewrite !elem_of_cons, elem_of_nil in Ht. destruct Ht as [-> | [-> | []]]; eexists; (split; [vm_compute; reflexivity|intros set; discriminate]).
  - exists k', s', c', x'. split; [exact E|]. split; [exact Hr|exact Hs].
Defined.

(** ** Mutexes: ownership and priority inheritance *)

(** C2: taking a mutex that has no ceiling priority, in a call that may wait ([may_wait]).  A
    thread gets a free mutex and the mutex joins those it has; its owner takes it once more,
    up to 255 times, then -RT_EFULL; another thread that may not wait fails with
    -RT_ETIMEOUT.  One that may wait, while the owner is a proper thread that is ready, or
    suspended and itself waiting for no mutex ([pending_object] is NULL), and is already at
    least as urgent as the priority recorded in the mutex, that of its most urgent waiting
    thread: the thread joins the list of the mutex by its priority, and the owner, if it is
    less urgent, gets the priority of the thread that waits; so if the owner is ready, the
    thread that runs now is at least as urgent as the one that waits.  An owner that itself
    waits for a mutex, from which the code goes on to the next owner, is not covered. *)
Theorem rt_mutex_take_spec prio_max mask soft timer_thread walk k s c x m o h prio timeout sflag T :
  0 < prio_max <= 256 -> runs prio_max k s c x -> mutex_at k m o h prio -> 0 <= h <= RT_MUTEX_HOLD_MAX -> SuspendHead m ∈ wheads s ->
  may_wait prio_max k s x timeout sflag T ->
  let take := rt_mutex_take_ prio_max 1 mask soft timer_thread walk m timeout sflag k in
  match o with
  | None => forall ms O, wother s ≡ₚ (TakenNode m, []) :: taken_ring c ms :: O ->
      exists k', take = Ok (Some RT_EOK, k') /\ runs prio_max k' (set_other (taken_ring c (m :: ms) :: O) s) c {x with th_error := RT_EOK} /\
        mutex_at k' m (Some c) 1 0xff
  | Some o =>
      if o =? c then exists k', take = Ok (Some (if h <? RT_MUTEX_HOLD_MAX then RT_EOK else - RT_EFULL), k') /\
        runs prio_max k' s c {x with th_error := RT_EOK} /\ mutex_at k' m (Some c) (Z.min (h + 1) RT_MUTEX_HOLD_MAX) prio
      else if timeout =? 0 then take = Ok (Some (- RT_ETIMEOUT), with_error (- RT_ETIMEOUT) c x k)
      else forall z can_run, owner_state prio_max k s o z can_run -> thread_ok prio_max k s o -> current_priority z <= prio ->
        exists k' s' c' x', take = Ok (None, k') /\ runs prio_max k' s' c' x' /\
          waits_for prio_max k s c x m o h prio z can_run T timeout sflag k' s' c' x'
  end.
Proof.
  intros Hmax Hr Hm Hh Hin [Hlock Hsf (p & Hp & Hq) HT Hto]. cbv zeta. destruct o as [o|].
  - destruct (Z.eqb_spec o c) as [->|Hne]; [by apply take_again|]. destruct (Z.eqb_spec timeout 0) as [->|Ht]; [by eapply take_refused|].
    intros z b Ho Hok Hle. eapply take_wait; try done. by apply Hto.
  - intros ms O HW. by eapply take_free.
Qed.

(** C3: releasing a mutex that has no ceiling priority.  Only its owner can, others get
    -RT_ERROR; an owner that has taken it several times still has it.  At the last release
    the owner goes back to the most urgent of its own priority and those its other mutexes
    ask for, if it had its priority from this one; the first thread that waits, if there is
    one, becomes the owner and ready, the mutex has the priority of the next one, and the
    most urgent thread runs. *)
Theorem rt_mutex_release_spec prio_max k s c x m o h prio :
  0 < prio_max <= 256 -> runs prio_max k s c x -> mutex_at k m o h prio -> 1 <= h <= RT_MUTEX_HOLD_MAX -> SuspendHead m ∈ wheads s ->
  rt_scheduler_lock_nest k = 0 -> 0 <= init_priority x < prio_max ->
  let release := rt_mutex_release prio_max 1 m k in
  if bool_decide (o <> Some c) then release = Ok (- RT_ERROR, with_error (- RT_ERROR) c x k)
  else if 1 <? h then exists k', release = Ok (RT_EOK, k') /\ runs prio_max k' s c x /\ mutex_at k' m o (h - 1) prio
  else forall ms1 ms2 O, wother s ≡ₚ taken_ring c (ms1 ++ m :: ms2) :: O -> taken_ok k (ms1 ++ ms2) ->
    match wwait s (SuspendHead m) with
    | [] => exists k' q' c' x', let s' := {set_other ((TakenNode m, []) :: taken_ring c (ms1 ++ ms2) :: O) s with wq := q'} in
        release = Ok (RT_EOK, k') /\ runs prio_max k' s' c' x' /\ mutex_at k' m None 0 0xff /\ gives_up k c x (ms1 ++ ms2) prio k' /\
        c' :: ready prio_max q' ≡ₚ c :: ready prio_max (wq s) /\ (if current_priority x =? prio then urgent q' x' else c' = c /\ q' = wq s)
    | t :: ws => forall y mst O', threads k !! t = Some y -> O ≡ₚ taken_ring t mst :: O' ->
        exists k' q' c' x', let s' := {handed y t m mst ws (taken_ring c (ms1 ++ ms2) :: O') s with wq := q'} in
          release = Ok (RT_EOK, k') /\ runs prio_max k' s' c' x' /\ mutex_at k' m (Some t) 1 (next_prio k ws) /\ gives_up k c x (ms1 ++ ms2) prio k' /\
          (exists z, threads k' !! t = Some z /\ pending_object z = None /\ th_error z = th_error y) /\
          c' :: ready prio_max q' ≡ₚ c :: t :: ready prio_max (wq s) /\ urgent q' x'
    end.
Proof.
  intros Hmax Hr Hm Hh Hin Hlock Hip. cbv zeta. case_bool_decide as Ho; [by eapply release_other|].
  assert (o = Some c) as -> by (destruct (decide (o = Some c)); [done|by destruct Ho]). destruct (Z.ltb_spec 1 h) as [H1|H1].
  - destruct (release_nested prio_max k s c x m h prio Hr Hm ltac:(lia)) as [E Hr']. eexists. split; [exact E|]. split; [exact Hr'|].
    apply mutex_at_with; [apply Hm|done].
  - assert (h = 1) as -> by lia. intros ms1 ms2 O HW Hok. destruct (wwait s (SuspendHead m)) as [|t ws] eqn:Ew; [by apply release_free|].
    intros y mst O' Hy HO. eapply release_hands; try done. by rewrite HW, HO.
Qed.

(** ** At the small system *)

#[local] Opaque ipc_demo ipc_held ipc_inherits.

Lemma held_mutex : mutex_at ipc_held 109 (Some 3) 1 0xff.
Proof.
  split; [vm_compute; reflexivity|]. eexists. split; [vm_compute; reflexivity|]. split; [vm_compute; reflexivity|]. split; [reflexivity|by right].
Qed.
Lemma inherits_mutex : mutex_at ipc_inherits 109 (Some 3) 1 0.
Proof.
  split; [vm_compute; reflexivity|]. eexists. split; [vm_compute; reflexivity|]. split; [vm_compute; reflexivity|]. split; [reflexivity|by right].
Qed.

Lemma held_may_wait : may_wait 4 ipc_held ipc_held_world (thread_of ipc_held 1) 5 RT_UNINTERRUPTIBLE 0xfffffffe.
Proof.
  split; [vm_compute; reflexivity|by right; right|exists 1; split; [lia|done]|vm_compute; reflexivity|]. intros _.
  assert (stop_timer (thread_timer (thread_of ipc_held 1)) ipc_held_world = ipc_held_world) as ->.
  { unfold stop_timer. change (wactive ipc_held_world) with (@nil Z). rewrite decide_False; [done|apply not_elem_of_nil]. }
  right. split; [split; reflexivity|]. change (wactive ipc_held_world) with (@nil Z). by constructor.
Qed.

Lemma held_owner : owner_state 4 ipc_held ipc_held_world 3 (thread_of ipc_held 3) true.
Proof.
  apply owner_ready; [vm_compute; reflexivity|vm_compute; split; [discriminate|reflexivity]|].
  assert (wq ipc_held_world (current_priority (thread_of ipc_held 3)) = [3; 2]) as -> by (vm_compute; reflexivity). by left.
Qed.

Lemma rt_mutex_take_spec_witness :
  exists k' s' c' x', rt_mutex_take_ 4 1 3 false 0 8 109 5 RT_UNINTERRUPTIBLE ipc_held = Ok (None, k') /\ runs 4 k' s' c' x' /\
    mutex_at k' 109 (Some 3) 1 0 /\ current_priority x' <= 0.
Proof.
  assert (current_priority (thread_of ipc_held 1) = 0) as Ep by (vm_compute; reflexivity).
  pose proof (rt_mutex_take_spec 4 3 false 0 8 ipc_held ipc_held_world 1 (thread_of ipc_held 1) 109 (Some 3) 1 0xff 5 RT_UNINTERRUPTIBLE 0xfffffffe ltac:(lia) ipc_held_runs
    held_mutex ltac:(unfold RT_MUTEX_HOLD_MAX; lia) ltac:(apply demo_head; reflexivity) held_may_wait) as H.
  cbv zeta in H. change (3 =? 1) with false in H. change (5 =? 0) with false in H. cbv iota in H.
  destruct (H _ _ held_owner) as (k' & s' & c' & x' & E & Hr & [_ _ Hm _ _ _ Hi]).
  - eapply (wi_ready _ _ _ (ru_world _ _ _ _ _ ipc_held_runs) 1); [lia|]. by left.
  - vm_compute. discriminate.
  - rewrite Ep in Hm, Hi. exists k', s', c', x'. split; [exact E|]. split; [exact Hr|]. split; [exact Hm|]. by apply Hi.
Defined.

Lemma rt_mutex_release_spec_witness :
  exists k' c' x' q', rt_mutex_release 4 1 109 ipc_inherits = Ok (RT_EOK, k') /\ mutex_at k' 109 (Some 1) 1 0xff /\
    (exists y, threads k' !! 3 = Some y /\ current_priority y = 1) /\ c' :: ready 4 q' ≡ₚ [3; 1; 2; 4] /\ urgent q' x'.
Proof.
  pose proof (rt_mutex_release_spec 4 ipc_inherits ipc_inherits_world 3 (thread_of ipc_inherits 3) 109 (Some 3) 1 0 ltac:(lia) ipc_inherits_runs inherits_mutex
    ltac:(unfold RT_MUTEX_HOLD_MAX; lia) ltac:(apply demo_head; reflexivity) ltac:(vm_compute; reflexivity) ltac:(vm_compute; split; [discriminate|reflexivity])) as H.
  cbv zeta in H. rewrite bool_decide_eq_false_2 in H by congruence. change (1 <? 1) with false in H. cbv iota in H.
  specialize (H [] [] [(TakenHead 1, []); (TakenHead 2, []); (TakenHead 4, [])] (Permutation_refl _)).
  change (wwait ipc_inherits_world (SuspendHead 109)) with [1] in H.
  destruct (H ltac:(intros a Ha; by apply elem_of_nil in Ha) (thread_of ipc_inherits 1) [] [(TakenHead 2, []); (TakenHead 4, [])]) as (k' & q' & c' & x' & E & Hr & Hm & Hg & _ & HP & Hu);
    [vm_compute; reflexivity|reflexivity|].
  exists k', c', x', q'. split; [exact E|]. split; [exact Hm|]. split; [|split; [exact HP|exact Hu]].
  assert (given_up ipc_inherits (thread_of ipc_inherits 3) ([] ++ []) 0 = 1) as Eg by (vm_compute; reflexivity). destruct Hg as (y & Hy & Ey). exists y. split; [exact Hy|]. congruence.
Defined.

(** ** A wait that ends when the mutex has no owner

    Thread 3 has the mutex and sleeps; thread 1 waits for it for one tick, and the tick
    that ends the wait also wakes thread 3, which runs first and releases the mutex. *)
Definition late_tick : K unit := rt_tick_increase 4 1 3 false 0 (fun _ _ => mret tt) 32 10.
Definition late_sleep (n : Z) : K unit := rt_thread_sleep 4 1 3 false 0 n ;; mret tt.
Definition late_release : K Z :=
  late_sleep 2 ;; rt_mutex_take 4 1 3 false 0 8 109 (-1) ;; late_sleep 3 ;; late_sleep 100 ;; late_tick ;; late_tick ;;
  rt_mutex_take 4 1 3 false 0 8 109 1 ;; late_tick ;; rt_mutex_release 4 1 109.

(** The end of the wait reads the owner, which is a null pointer. *)
Theorem rt_mutex_take_null_owner :
  (late_release ;; rt_mutex_take_return 4 1 8 109 1) ipc_demo = Undef "mutex->owner is null" /\
  exists k, late_release ipc_demo = Ok (RT_EOK, k) /\ rt_current_thread k = Some 1 /\ mutexes k !! 109 = Some (plain None 0 0xff).
Proof.
  split; [vm_compute; reflexivity|]. destruct (late_release ipc_demo) as [[r k]| |] eqn:E.
  - assert (match late_release ipc_demo with Ok (r, k) => r = RT_EOK /\ rt_current_thread k = Some 1 /\ mutexes k !! 109 = Some (plain None 0 0xff) | _ => False end) as H
      by (vm_compute; split; [|split]; reflexivity).
    rewrite E in H. destruct H as (-> & H1 & H2). exists k. split; [reflexivity|]. exact (conj H1 H2).
  - exfalso. assert (match late_release ipc_demo with Abort _ => False | _ => True end) as H by (vm_compute; exact Logic.I). by rewrite E in H.
  - exfalso. assert (match late_release ipc_demo with Undef _ => False | _ => True end) as H by (vm_compute; exact Logic.I). by rewrite E in H.
Qed.

(** rt_thread_resume of a thread that waits for a mutex: its call answers RT_EOK, and the
    mutex still has its owner. *)
Theorem rt_mutex_take_resumed :
  exists k k', rt_thread_resume 4 1 1 ipc_inherits = Ok (RT_EOK, k) /\ rt_mutex_take_return 4 1 8 109 1 k = Ok (RT_EOK, k') /\
    mutexes k' !! 109 = Some (plain (Some 3) 1 0).
Proof.
  assert (match rt_thread_resume 4 1 1 ipc_inherits with Ok (r, k) => r = RT_EOK /\ match rt_mutex_take_return 4 1 8 109 1 k with
    Ok (r', k') => r' = RT_EOK /\ mutexes k' !! 109 = Some (plain (Some 3) 1 0) | _ => False end | _ => False end) as H.
  { vm_compute. repeat split. }
  destruct (rt_thread_resume 4 1 1 ipc_inherits) as [[r k]| |]; [|done..]. destruct H as [-> H].
  destruct (rt_mutex_take_return 4 1 8 109 1 k) as [[r' k']| |] eqn:E; [|done..]. destruct H as [-> H]. by exists k, k'.
Qed.

(** ** Memory pools *)

(** C4: taking a block of a pool.  The block taken is the first free one; it is inside the
    pool and apart from every block in use.  With no free block the call fails with
    -RT_ETIMEOUT if it may not wait, otherwise the thread waits in front of the threads
    that wait already, and the most urgent thread runs. *)
Theorem rt_mp_alloc_spec prio_max mask soft timer_thread word_size k s c x mp p fs us time T :
  0 < prio_max <= 256 -> 0 < word_size -> runs prio_max k s c x -> pool_at word_size k mp p fs us -> SuspendHead mp ∈ wheads s ->
  may_wait prio_max k s x time RT_UNINTERRUPTIBLE T ->
  let alloc := rt_mp_alloc prio_max word_size 1 mask soft timer_thread mp time k in
  match fs with
  | a :: fs' => exists k', alloc = Ok (Returns (Some (a + word_size)), k') /\ runs prio_max k' s c x /\ pool_at word_size k' mp p fs' (a :: us) /\
      ps_start p < a + word_size /\ a + word_size + ps_block p <= pool_word word_size p (ps_count p) /\
      forall b, b ∈ us -> a + word_size + ps_block p <= b \/ b + word_size + ps_block p <= a
  | [] =>
      if time =? 0 then alloc = Ok (Returns None, with_error (- RT_ETIMEOUT) c x k)
      else exists k' q' c' x', let s' := {waiting_first c x (SuspendHead mp) T time s with wq := q'} in
        alloc = Ok (Blocked (if 0 <? time then rt_tick k else 0), k') /\ runs prio_max k' s' c' x' /\ pool_at word_size k' mp p [] us /\
        urgent q' x' /\ c' :: ready prio_max q' ≡ₚ ready prio_max (wq s) /\
        threads k' !! c = Some (with_stat (suspend_stat RT_UNINTERRUPTIBLE) {x with th_error := RT_EOK})
  end.
Proof.
  intros Hmax Hword Hr Hp Hh [Hlock _ (p0 & Hp0 & Hq) HT Hto]. cbv zeta. destruct fs as [|a fs].
  - destruct (Z.eqb_spec time 0) as [->|Ht]; [by eapply alloc_refused|]. by eapply alloc_waits; try done; apply Hto.
  - destruct (alloc_taken prio_max mask soft timer_thread word_size Hword k s c x mp p a fs us time Hr Hp) as (k' & E & Hr' & Hp').
    exists k'. split; [done|]. split; [done|]. split; [done|]. pose proof Hp as [_ _ HP Hs]. pose proof (pool_nodup word_size Hword _ _ _ _ _ Hp) as Hnd.
    cbn [app] in Hnd. apply NoDup_cons in Hnd as [Ha _]. assert (a ∈ pool_words word_size p) as Hin by (rewrite <- HP; by left).
    destruct (pool_words_inside word_size p a Hword Hs Hin) as (H1 & H2 & _). split; [lia|]. split; [lia|]. intros b Hb.
    apply pool_words_apart; [done|done|done| |by intros ->; apply Ha, elem_of_app; right]. rewrite <- HP. right. apply elem_of_app. by right.
Qed.

(** C36: giving a block back.  The block becomes the first free one and the others stay as
    they are; if threads wait, the first of the list, which is the one that came last, is
    ready with RT_EOK, and the most urgent thread runs. *)
Theorem rt_mp_free_spec prio_max word_size k s c x mp p fs us1 a us2 :
  0 < prio_max <= 256 -> 0 < word_size -> runs prio_max k s c x -> pool_at word_size k mp p fs (us1 ++ a :: us2) -> SuspendHead mp ∈ wheads s ->
  rt_scheduler_lock_nest k = 0 ->
  exists y w k' s' c' x', rt_mp_free prio_max word_size 1 (Some (a + word_size)) k = Ok (tt, k') /\ runs prio_max k' s' c' x' /\
    received prio_max (with_pool mp y w k) s c x (SuspendHead mp) k' s' c' x' /\ pool_at word_size k' mp p (a :: fs) (us1 ++ us2).
Proof. intros Hmax Hword. by apply free_runs. Qed.

#[local] Opaque ipc_pool ipc_pool_empty.

Definition demo_pool : pool_shape := {| ps_start := 4096; ps_block := 16; ps_count := 2 |}.

Lemma demo_pool_at : pool_at 8 ipc_pool 113 demo_pool [4096; 4120] [].
Proof.
  split; [|intros a Ha; by apply elem_of_nil in Ha|vm_compute; reflexivity|vm_compute; split; [discriminate|split; reflexivity]].
  eexists. split; [vm_compute; reflexivity|]. split; [|reflexivity].
  econstructor; [vm_compute; reflexivity|]. econstructor; [vm_compute; reflexivity|]. constructor.
Qed.
Lemma demo_pool_empty : pool_at 8 ipc_pool_empty 113 demo_pool [] [4120; 4096].
Proof.
  split; [| |apply Permutation_swap|vm_compute; split; [discriminate|split; reflexivity]].
  - eexists. split; [vm_compute; reflexivity|]. split; [constructor|reflexivity].
  - intros a Ha. rewrite !elem_of_cons, elem_of_nil in Ha. destruct Ha as [-> | [-> | []]]; vm_compute; reflexivity.
Qed.

Lemma pool_may_wait : may_wait 4 ipc_pool ipc_pool_world (thread_of ipc_pool 1) 0 RT_UNINTERRUPTIBLE 0xfffffffe.
Proof. split; [vm_compute; reflexivity|by right; right|exists 1; split; [lia|done]|vm_compute; reflexivity|done]. Qed.

Lemma rt_mp_alloc_spec_witness :
  exists k', rt_mp_alloc 4 8 1 3 false 0 113 0 ipc_pool = Ok (Returns (Some 4104), k') /\ pool_at 8 k' 113 demo_pool [4120] [4096].
Proof.
  pose proof (rt_mp_alloc_spec 4 3 false 0 8 ipc_pool ipc_pool_world 1 (thread_of ipc_pool 1) 113 demo_pool [4096; 4120] [] 0 0xfffffffe ltac:(lia) ltac:(lia) ipc_pool_runs demo_pool_at
    ltac:(by left) pool_may_wait) as H. cbv zeta iota in H. destruct H as (k' & E & _ & Hp & _). exists k'. split; [exact E|exact Hp].
Defined.

Lemma rt_mp_free_spec_witness :
  exists k' s' c' x', rt_mp_free 4 8 1 (Some 4104) ipc_pool_empty = Ok (tt, k') /\ runs 4 k' s' c' x' /\ pool_at 8 k' 113 demo_pool [4096] [4120].
Proof.
  destruct (rt_mp_free_spec 4 8 ipc_pool_empty ipc_pool_empty_world 3 (thread_of ipc_pool_empty 3) 113 demo_pool [] [4120] 4096 [] ltac:(lia) ltac:(lia) ipc_pool_empty_runs demo_pool_empty
    ltac:(by left) ltac:(vm_compute; reflexivity)) as (y & w & k' & s' & c' & x' & E & Hr & _ & Hp).
  exists k', s', c', x'. split; [exact E|]. split; [exact Hr|exact Hp].
Defined.
